(* ===== verification/_CoqProject ===== *)
-Q . S2P
Prelude.v
StatusCodeRules.v
JSNum.v
JSValue.v
Json.v
Regex.v
RequestRuleExpr.v
RequestRuleRoundtrip.v
RequestRuleGroups.v
PricingModel.v
PricingEditor.v
PricingSave.v
Sidebar.v
PricingFilters.v
StatusCodeRiskGuard.v
ClientHelpers.v
Passkey.v
Playground.v
Api.v
Stream.v
ParamOverride.v
ParamOverrideEditor.v
ParamOverrideRoundtrip.v
TieredPricing.v
TieredRoundtrip.v
TieredText.v
TieredEditor.v
TieredEditorProofs.v
TieredEval.v
TieredEvalProofs.v
Chat.v
Channels.v
ChannelTests.v
UpstreamUpdates.v
RatioSync.v
RatioSyncProofs.v
FormValues.v
ChannelForm.v
ChannelFormProofs.v
ChannelFormLife.v
Affinity.v
AffinityProofs.v
Billing.v
BillingProofs.v
Columns.v
TieredLog.v
TieredLogProofs.v
LogDetails.v
AsyncHook.v
LogTables.v
Tokens.v
Dashboard.v
DashboardProofs.v
DashboardPage.v
PoolAccounts.v
PoolRecipes.v
SystemSetting.v
SystemSettingProofs.v
Users.v
Redemptions.v
CustomOAuth.v
