(* ===== verification/Prelude.v ===== *)
(** * The client of the gateway, verified

    The repository is a gateway for language models: a server in Go and a client in
    JavaScript under [src/web/src] in which administrators edit prices, channels and
    overrides and users talk to models.  This library models the client's own logic as
    executable definitions over a model of the JavaScript values it computes with, and
    proves what makes each part correct.  Names follow the source; every definition that
    translates code is named after the function, effect or expression it translates.

    ** The language

    - [Prelude]: strings as sequences of UTF-16 code units ([$"..."] is a literal), trimming,
      splitting, case, decimal text, stable sorting, lemmas on lists, the tactics [bsplit]
      and [js_lit].
    - [JSNum]: numbers as binary64 values with their arithmetic, [Number], [parseFloat],
      [String] (shortest text) and [toFixed].
    - [JSValue]: values, objects as property lists in enumeration order (array indices
      first), truthiness, property reads, exceptions as [outcome].
    - [Json]: [JSON.stringify] and [JSON.parse]; on values whose numbers print to a literal
      that denotes them ([json_wf]) parsing undoes printing, at any indentation.
    - [Regex]: the regular expressions the source uses, by a backtracking matcher.

    ** Prices

    - [StatusCodeRules] (helpers/statusCodeRules.js): status code ranges; [Module
      StatusCodeRules].  A parse gives ordered, separated ranges within 100..599 that cover
      exactly what the tokens cover; rejection and its reasons; the normalized text is a
      fixed point.
    - [RequestRuleExpr], [RequestRuleRoundtrip], [RequestRuleGroups]
      (pages/Setting/Ratio/components/requestRuleExpr.js): conditions and groups of request
      rules, their printer and parser.  Printed groups are parsed back; combining a billing
      expression with rules and splitting it again are inverse; removing outer parentheses
      terminates and is complete; which conditions cannot be read back.
    - [PricingModel], [PricingEditor], [PricingSave]
      (pages/Setting/Ratio/hooks/useModelPricingEditorState.js): prices and ratios of one
      model, the editor's state with its effects and handlers as a transition system
      ([reach]), and the submission.  Unique names and a valid selection in every reachable
      state; errors, warnings and the preview agree with what a save does; the saved options
      hold exactly the models and are loaded again.
    - [PricingFilters] (hooks/model-pricing/usePricingFilterCounts.js): filters and facets of
      the price list.
    - [TieredPricing], [TieredRoundtrip], [TieredText], [TieredEditor], [TieredEditorProofs]
      (pages/Setting/Ratio/components/TieredPricingEditor.jsx, constants/billing.constants.js):
      tiers with conditions and prices, the expression they are written as and its parser, the
      two modes of the editor and its effects.  The expression written for a form whose tiers
      but the last have complete conditions, whose labels have no quote and whose numbers are
      read back from their text ([config_ok]) is read back, and for such a form switching the
      mode and opening a model settle; the shape of the tiers in every reachable state of a
      new form, and what is left of it for texts written elsewhere.
    - [TieredEval], [TieredEvalProofs]: the cost estimator of the same file, with a lexer, a
      parser and an evaluator for the expressions it runs.  On the text of such a form, with
      plain labels and numbers that are not negative, it charges the prices of the first tier
      whose conditions hold.
    - [RatioSync], [RatioSyncProofs] (pages/Setting/Ratio/UpstreamRatioSync.jsx): the prices of
      upstreams side by side, the picks and what a synchronisation writes.
    - [Billing], [BillingProofs] (helpers/render.jsx): what the usage log shows for a request.
      The formulas are written over a class of numbers with the program's binary64 numbers and
      the rationals as instances; the theorems on totals are about exact arithmetic, with the
      rounding of ratios to six decimals as the code writes it: the lines add up to the total,
      and prices and ratios agree up to that rounding, except with image tokens.
    - [TieredLog], [TieredLogProofs] (helpers/render.jsx): the tiered prices in the usage log.
      For an expression that the editor wrote in ASCII the log shows the tier that was
      matched; a label with other characters is never found.

    ** Lists

    - [Columns] (hooks/usage-logs, mj-logs, task-logs, channels and their selectors): the
      choice of columns, as a class [ColumnTable] with the four tables as instances.  The
      choice survives a reload, and a user never sees a column of administrators.
    - [AsyncHook]: a component that sends requests, as a class [Hook] of states, events and
      requests; its answers come in any order or fail ([reach]).  The lists below are
      instances.
    - [LogDetails], [LogTables] (hooks/usage-logs/useUsageLogsData.jsx,
      hooks/mj-logs/useMjLogsData.js, hooks/task-logs/useTaskLogsData.js): the rows under a
      log, the pages of logs and the statistics.  Secrets of the channel stay hidden from
      users; a refused request for statistics blocks all later ones.
    - [Tokens] (hooks/tokens/useTokensData.jsx): pages, searches, keys and actions; a key is
      asked for once however many readers wait for it.
    - [Dashboard], [DashboardProofs], [DashboardPage] (helpers/dashboard.jsx,
      hooks/dashboard/): the charts as functions of the usage, and the page that loads it.
      What the bars and the ranking show is exact, and when it is not; an indicator is on only
      while a request of its kind is under way, and every answer brings the page nearer to
      rest.
    - [PoolAccounts], [PoolRecipes] (pages/Pool/Accounts.jsx, pages/Pool/Recipes.jsx): the
      accounts of the pool, their keys and bindings; recipes, jobs and the configuration of
      the automation, with the part of the server that masks and stores it, over bytes, in any
      order and with failures.
    - [Users], [Redemptions] (hooks/users/useUsersData.jsx,
      hooks/redemptions/useRedemptionsData.jsx and their dialogs that delete): pages, searches
      and actions.  Nothing is shown as loading when nothing is under way; what an action
      changes, and which pages and searches cannot be reached.

    ** Settings of the server

    - [SystemSetting], [SystemSettingProofs] (components/settings/SystemSetting.jsx): the
      options of the server as they are edited and saved, over a heap in which a load makes
      the inputs and what they are compared with one object, run against the part of
      controller/option.go that serves and stores options ([wreach]).  Secrets are
      overwritten only by typed values, except two; the groups that send what changed, saved
      after a load, are stored as shown but for what the server refuses; what is lost.
    - [CustomOAuth] (components/settings/CustomOAuthSetting.jsx): providers, presets and the
      discovery of endpoints.  Presets and addresses commute; what is saved is complete; a
      discovery only fills gaps.

    ** Channels

    - [StatusCodeRiskGuard] (components/table/channels/modals/statusCodeRiskGuard.js): which
      status code redirects need a confirmation.
    - [ParamOverride] (components/table/channels/modals/ParamOverrideEditorModal.jsx, lines 46
      to 1066): the rules of a parameter override, the text drafts they are edited in, their
      validation and stored form.
    - [ParamOverrideEditor] (the component of the same file): its state, templates, handlers
      and effects as a transition system ([step], [reach]).  Identifiers are unique in every
      reachable state; every template can be saved; which edits of prune rules are lost.
    - [ParamOverrideRoundtrip]: what is saved is opened again as rules that save the same
      text; error drafts survive their text.
    - [Channels], [ChannelTests] (hooks/channels/useChannelsData.jsx): rows over a heap of the
      objects that handlers change, loads that overlap, tag rows, batch tests.
    - [UpstreamUpdates] (hooks/channels/useChannelUpstreamUpdates.jsx): the guarded requests.
    - [FormValues]: what forms share: fields of a value, their updates, their JSON text.
    - [ChannelForm], [ChannelFormProofs], [ChannelFormLife]
      (components/table/channels/modals/EditChannelModal.jsx): the form of a channel, its
      loading, handlers and submission, and its life across openings.
    - [Affinity], [AffinityProofs] (pages/Setting/Operation/SettingsChannelAffinity.jsx): rules
      of channel affinity as a table and as text.

    ** Playground

    - [Playground] (helpers/utils.jsx, components/playground/configStorage.js,
      hooks/playground/usePlaygroundState.js and useSyncMessageAndCustomBody.js): modules
      [Messages], [Storage], [State], [Sync].  Thinking tags, the stored configuration, the
      debounced save, and the synchronisation of messages with a custom request body.
    - [Stream] (hooks/playground/useApiRequest.jsx): plain and streamed requests as functions
      of the network's outcomes.  The event handlers refine the transcript: the settled
      message is the concatenation of the parts received, saved once, and nothing changes it
      afterwards.
    - [Chat] (pages/Playground/index.jsx, useMessageEdit.jsx, useMessageActions.jsx): sending,
      regenerating, editing and deleting messages, with the answers of [Stream].  Identifiers
      stay distinct while no own request body is used, and repeat with one.

    ** Access

    - [Api] (helpers/api.js, hooks/playground/useDataLoader.js): modules [Client] (the client
      that shares unsettled requests), [Payload], [OAuth], [ChannelModels].
    - [Passkey] (helpers/base64.js, helpers/passkey.js, services/secureVerification.js):
      modules [Base64], [Passkey], [SecureVerification]; requests are programs run against any
      server and authenticator, and what must precede a verified session is read off traces.
    - [Sidebar] (hooks/common/useSidebar.js, useUserPermissions.js): visibility.
    - [ClientHelpers]: quotas, connection strings, status data, languages, reducers.

    ** Fuel and bounds

    Recursion is structural wherever the source's loop is bounded by its input.  [Json.parse]
    runs with fuel twice the length of the text plus two, proved enough for every printed
    value; the loop of [unwrapOuterParens] with the length of the text plus one, proved
    enough for every text; the loop over thinking tags with the length of the text, proved
    enough for every text with closed tags; the lexer of the estimator with the length of its
    text and its parser with the number of tokens plus one, proved enough for the texts the
    form writes; the search of a free rule name stops after 998 tries, as the code does; an
    iteration of [Regex] is bounded by the length
    of the text and stops at empty matches, as the language does.

    ** Parameters

    What is not the client's code is an argument: the translation function, [localeCompare],
    the clock and random numbers, the page's origin, the address parser, the outcomes of
    requests, the events of the event source, the authenticator.  No property of them is
    assumed, except where a theorem names it.

    ** Not modelled

    The server (Go), except the few functions the pool recipes and the system settings rely
    on; the Electron shell, the load tests and deployment scripts; the remaining list hooks
    (models, subscriptions, deployments, price list), which repeat the shape of those that
    are modelled; the other pages of settings, which are forms around one request;
    markup, styles, icons and texts; routing; React itself: a component's state is a record, an
    update of state takes effect before the next event, and an effect is a function applied
    where React would run it.  [String(v)] of an object that overrides [toString], lower
    case outside the Latin-1, Greek and Cyrillic letters and upper case without an ASCII
    image are outside the model. *)

From Stdlib Require Export ZArith Lia Sorted.
From stdpp Require Export base list numbers strings gmap.
From Stdlib Require Import Ascii.
#[local] Open Scope Z_scope.

(** ** Strings: sequences of UTF-16 code units *)

Abbreviation jsstr := (list Z).

Declare Scope js_scope.
Delimit Scope js_scope with js.

Fixpoint bytes_of (s : string) : list Z :=
  match s with
  | EmptyString => []
  | String a r => Z.of_N (N_of_ascii a) :: bytes_of r
  end.

(** UTF-8 (the encoding of string literals here) to UTF-16 code units. *)
Fixpoint utf16_of (bs : list Z) : jsstr :=
  match bs with
  | [] => []
  | b :: r =>
    if b <? 128 then b :: utf16_of r
    else match r with
    | [] => [65533]
    | c1 :: r1 =>
      if b <? 224 then ((b - 192) * 64 + (c1 - 128)) :: utf16_of r1
      else match r1 with
      | [] => [65533]
      | c2 :: r2 =>
        if b <? 240
        then ((b - 224) * 4096 + (c1 - 128) * 64 + (c2 - 128)) :: utf16_of r2
        else match r2 with
        | [] => [65533]
        | c3 :: r3 =>
          let cp := (b - 240) * 262144 + (c1 - 128) * 4096
                    + (c2 - 128) * 64 + (c3 - 128) - 65536 in
          (55296 + cp / 1024) :: (56320 + cp mod 1024) :: utf16_of r3
        end
      end
    end
  end.

Definition js (s : string) : jsstr := utf16_of (bytes_of s).

Notation "$ s" := (js s%string) (at level 1, s at level 0, format "$ s") : js_scope.
Open Scope js_scope.

(** Replace string literals of the goal by their code units. *)
Ltac js_lit :=
  repeat match goal with
  | |- context [js ?s] =>
    tryif is_var s then fail
    else (let v := eval vm_compute in (js s) in change (js s) with v)
  end.
Ltac js_lit_in H :=
  repeat match type of H with
  | context [js ?s] =>
    tryif is_var s then fail
    else (let v := eval vm_compute in (js s) in change (js s) with v in H)
  end.

Definition str_eqb (a b : jsstr) : bool := bool_decide (a = b).
Infix "=s?" := str_eqb (at level 70) : js_scope.

Definition DQUOTE : Z := 34.
Definition BACKSLASH : Z := 92.

(** [String.prototype.trim]: WhiteSpace and LineTerminator code units. *)
Definition is_ws (c : Z) : bool :=
  ((9 <=? c) && (c <=? 13)) || (c =? 32) || (c =? 160) || (c =? 5760)
  || ((8192 <=? c) && (c <=? 8202)) || (c =? 8232) || (c =? 8233)
  || (c =? 8239) || (c =? 8287) || (c =? 12288) || (c =? 65279).

Fixpoint trimStart (s : jsstr) : jsstr :=
  match s with
  | c :: r => if is_ws c then trimStart r else s
  | [] => []
  end.

Definition trimEnd (s : jsstr) : jsstr := rev (trimStart (rev s)).

Definition trim (s : jsstr) : jsstr := trimEnd (trimStart s).

Fixpoint startsWith (p s : jsstr) : bool :=
  match p, s with
  | [], _ => true
  | a :: p', b :: s' => (a =? b) && startsWith p' s'
  | _, [] => false
  end.

Definition endsWith (p s : jsstr) : bool := startsWith (rev p) (rev s).

(** [s.includes(sub)] *)
Fixpoint includes (sub s : jsstr) : bool :=
  startsWith sub s || match s with [] => false | _ :: r => includes sub r end.

(** [s.split(c)] for a one-character separator: always at least one piece. *)
Fixpoint split_char (c : Z) (s : jsstr) : list jsstr :=
  match s with
  | [] => [[]]
  | x :: r =>
    if x =? c then [] :: split_char c r
    else match split_char c r with
         | h :: t => (x :: h) :: t
         | [] => [[x]]
         end
  end.

Fixpoint join (sep : jsstr) (l : list jsstr) : jsstr :=
  match l with
  | [] => []
  | x :: r => match r with [] => x | _ => x ++ sep ++ join sep r end
  end.

(** [String.prototype.toLowerCase] on the ASCII, Latin-1, Greek and Cyrillic
    letters with a one-to-one mapping; other code units are unchanged. *)
Definition lower_unit (c : Z) : Z :=
  if (65 <=? c) && (c <=? 90) then c + 32
  else if (192 <=? c) && (c <=? 222) && negb (c =? 215) then c + 32
  else if (913 <=? c) && (c <=? 939) && negb (c =? 930) then c + 32
  else if (1040 <=? c) && (c <=? 1071) then c + 32
  else if (1024 <=? c) && (c <=? 1039) then c + 80
  else c.

Definition toLowerCase (s : jsstr) : jsstr := map lower_unit s.

(** The units a letter becomes under [toUpperCase], for those with an ASCII image; the
    other code units are unchanged. *)
Definition upper_unit (c : Z) : jsstr :=
  if (97 <=? c) && (c <=? 122) then [c - 32]
  else if c =? 223 then $"SS" else if c =? 305 then $"I" else if c =? 383 then $"S"
  else if (c =? 64261) || (c =? 64262) then $"ST"
  else if c =? 64256 then $"FF" else if c =? 64257 then $"FI" else if c =? 64258 then $"FL"
  else if c =? 64259 then $"FFI" else if c =? 64260 then $"FFL"
  else [c].

Definition toUpperCase (s : jsstr) : jsstr := flat_map upper_unit s.

Definition nonempty (s : jsstr) : bool := match s with [] => false | _ => true end.

(** [filter(Boolean)] on strings. *)
Definition filter_Boolean (l : list jsstr) : list jsstr := List.filter nonempty l.

Definition is_digit (c : Z) : bool := (48 <=? c) && (c <=? 57).

(** ** Decimal integers *)

Fixpoint dec_go (fuel : nat) (n : Z) (acc : jsstr) : jsstr :=
  match fuel with
  | O => acc
  | S f =>
    let acc' := (48 + n mod 10) :: acc in
    if n <? 10 then acc' else dec_go f (n / 10) acc'
  end.

(** Decimal digits of a non-negative integer; [log2 n + 1] steps are enough
    because each step divides by ten. *)
Definition dec_nonneg (n : Z) : jsstr := dec_go (S (Z.to_nat (Z.log2 n))) n [].

Definition Z_to_str (z : Z) : jsstr :=
  if z <? 0 then 45 :: dec_nonneg (- z) else dec_nonneg z.

Definition dec_val (s : jsstr) : Z := fold_left (fun a c => a * 10 + (c - 48)) s 0.

(** ** Arrays *)

(** [new Set(l)] / [Array.from]: the first occurrences, in order. *)
Fixpoint uniq {A} `{EqDecision A} (l : list A) : list A :=
  match l with
  | [] => []
  | x :: r => x :: List.filter (fun y => negb (bool_decide (y = x))) (uniq r)
  end.

(** [Array.prototype.sort(cmp)], which is stable. *)
Section Sort.
Context {A : Type} (cmp : A -> A -> Z).

Fixpoint sort_insert (x : A) (l : list A) : list A :=
  match l with
  | [] => [x]
  | y :: r => if cmp x y <=? 0 then x :: l else y :: sort_insert x r
  end.

Fixpoint sort_by (l : list A) : list A :=
  match l with
  | [] => []
  | x :: r => sort_insert x (sort_by r)
  end.

End Sort.

(** * Lemmas *)

Create HintDb jsdb.
Create Rewrite HintDb jsrw.

Lemma str_eqb_eq a b : (a =s? b) = true <-> a = b.
Proof. apply bool_decide_eq_true. Qed.

Lemma str_eqb_neq a b : (a =s? b) = false <-> a <> b.
Proof. apply bool_decide_eq_false. Qed.

Lemma str_eqb_refl a : (a =s? a) = true.
Proof. by apply str_eqb_eq. Qed.

Lemma str_eqb_spec a b : Bool.reflect (a = b) (a =s? b).
Proof. apply Bool.iff_reflect; symmetry; apply str_eqb_eq. Qed.

#[export] Hint Rewrite str_eqb_refl : jsrw.
#[export] Hint Resolve str_eqb_refl : jsdb.

(** Case analysis on the string comparisons of the goal or a hypothesis. *)
Ltac str_cases :=
  repeat match goal with
  | |- context [?a =s? ?b] => destruct (str_eqb_spec a b); try subst
  | H : context [?a =s? ?b] |- _ => destruct (str_eqb_spec a b); try subst
  end.

(** Split boolean conjunctions among the hypotheses. *)
Ltac bsplit :=
  repeat match goal with
  | H : (_ && _)%bool = true |- _ => apply andb_true_iff in H as [? ?]
  | H : (_ || _)%bool = false |- _ => apply orb_false_iff in H as [? ?]
  | H : negb _ = true |- _ => apply negb_true_iff in H
  | H : negb _ = false |- _ => apply negb_false_iff in H
  end.

(** ** Trimming *)

(** Neither end of [s] is white space. *)
Definition edges_ok (s : jsstr) : bool :=
  match s with
  | [] => true
  | c :: _ => negb (is_ws c) && negb (is_ws (List.last s 0))
  end.

Lemma trimStart_head s :
  match trimStart s with [] => True | c :: _ => is_ws c = false end.
Proof. induction s as [|c s IH]; cbn; [done|]. destruct (is_ws c) eqn:E; done. Qed.

Lemma trimStart_id c s : is_ws c = false -> trimStart (c :: s) = c :: s.
Proof. intros H; cbn; by rewrite H. Qed.

Lemma trimStart_suffix s : exists p, s = p ++ trimStart s.
Proof.
  induction s as [|c s [p IH]]; cbn; [by exists []|].
  destruct (is_ws c); [exists (c :: p); cbn; by f_equal | by exists []].
Qed.

Lemma last_rev_hd (s : jsstr) d : List.last s d = List.hd d (rev s).
Proof.
  induction s as [|c s IH] using rev_ind; [done|].
  by rewrite List.last_last, rev_app_distr.
Qed.

Lemma trim_id s : edges_ok s = true -> trim s = s.
Proof.
  destruct s as [|c s]; [done|]. intros H; cbn in H; bsplit.
  unfold trim. rewrite trimStart_id by done. unfold trimEnd.
  change (match s with [] => c | _ :: _ => List.last s 0 end)
    with (List.last (c :: s) 0) in *.
  rewrite last_rev_hd in *.
  destruct (rev (c :: s)) as [|l r] eqn:E.
  { apply (f_equal (@rev Z)) in E; by rewrite rev_involutive in E. }
  rewrite trimStart_id by done. rewrite <- E. apply rev_involutive.
Qed.

Lemma trim_edges s : edges_ok (trim s) = true.
Proof.
  unfold trim, trimEnd.
  destruct (trimStart s) as [|c r] eqn:E; [done|].
  assert (Hc : is_ws c = false) by (pose proof (trimStart_head s); by rewrite E in *).
  destruct (trimStart_suffix (rev (c :: r))) as [p Hp].
  pose proof (trimStart_head (rev (c :: r))) as Hh.
  destruct (trimStart (rev (c :: r))) as [|l u] eqn:F; [done|].
  assert (Hq : c :: r = rev (l :: u) ++ rev p).
  { rewrite <- rev_app_distr, <- Hp. by rewrite rev_involutive. }
  cbn in Hq. cbn.
  assert (Hne : exists x y, rev u ++ [l] = x :: y).
  { destruct (rev u) as [|x y]; cbn; eauto. }
  destruct Hne as (x & y & Hxy). rewrite Hxy in Hq. injection Hq as -> _.
  rewrite Hxy. cbn -[List.last]. rewrite <- Hxy, List.last_last. by rewrite Hc, Hh.
Qed.

Lemma trim_nonempty c s : is_ws c = false -> nonempty (trim (c :: s)) = true.
Proof.
  intros Hc. unfold trim, trimEnd. rewrite trimStart_id by done. cbn [rev].
  assert (H : forall u, exists x v, trimStart (u ++ [c]) = x :: v).
  { induction u as [|x u [y [v IH]]]; cbn; [rewrite Hc; by eexists _, _|].
    destruct (is_ws x); [by eexists _, _|by eexists _, _]. }
  destruct (H (rev s)) as (x & v & ->). cbn. by destruct (rev v).
Qed.

Lemma trim_idem s : trim (trim s) = trim s.
Proof. apply trim_id, trim_edges. Qed.

#[export] Hint Rewrite trim_idem : jsrw.

Lemma edges_ok_app a b :
  a <> [] -> b <> [] ->
  is_ws (List.hd 0 a) = false -> is_ws (List.last b 0) = false ->
  edges_ok (a ++ b) = true.
Proof.
  destruct a as [|c a]; [done|]. intros _ Hb Hh Hl. cbn in Hh.
  destruct b as [|d b _] using rev_ind; [done|].
  rewrite List.last_last in Hl. rewrite app_assoc. unfold edges_ok.
  rewrite List.last_last. cbn. by rewrite Hh, Hl.
Qed.

(** ** Splitting and joining *)

Lemma split_char_nonnil c s : split_char c s <> [].
Proof.
  destruct s as [|x s]; cbn; [done|].
  destruct (x =? c); [done|]. by destruct (split_char c s).
Qed.

Lemma split_char_no c s : ~ In c s -> split_char c s = [s].
Proof.
  induction s as [|x s IH]; cbn; [done|]. intros H.
  destruct (Z.eqb_spec x c); [naive_solver|].
  rewrite IH by naive_solver. done.
Qed.

Lemma split_char_app c a s :
  ~ In c a -> split_char c (a ++ c :: s) = a :: split_char c s.
Proof.
  induction a as [|x a IH]; cbn; intros H; [by rewrite Z.eqb_refl|].
  destruct (Z.eqb_spec x c); [naive_solver|]. rewrite IH by naive_solver. done.
Qed.

Lemma join_cons sep x l : l <> [] -> join sep (x :: l) = x ++ sep ++ join sep l.
Proof. by destruct l. Qed.

(** [s.split(c)] is a left inverse of [l.join(c)]. *)
Lemma split_join c l :
  l <> [] -> Forall (fun s => ~ In c s) l -> split_char c (join [c] l) = l.
Proof.
  intros Hne Hl. induction Hl as [|x l Hx Hl IH]; [done|].
  destruct l as [|y l]; [by apply split_char_no|].
  rewrite join_cons by done.
  change (x ++ [c] ++ join [c] (y :: l)) with (x ++ c :: join [c] (y :: l)).
  rewrite split_char_app by done. by rewrite IH.
Qed.

(** ** Decimal integers *)

Lemma dec_go_app fuel n acc : dec_go fuel n acc = dec_go fuel n [] ++ acc.
Proof.
  revert n acc; induction fuel as [|f IH]; intros n acc; [done|]. cbn -[Z.div Z.modulo].
  destruct (n <? 10); [done|].
  rewrite IH, (IH _ [48 + n mod 10]), <- app_assoc. done.
Qed.

Lemma dec_val_snoc s c : dec_val (s ++ [c]) = dec_val s * 10 + (c - 48).
Proof. unfold dec_val. by rewrite fold_left_app. Qed.

Lemma dec_go_val fuel n :
  0 <= n < 10 ^ Z.of_nat fuel -> dec_val (dec_go fuel n []) = n.
Proof.
  revert n; induction fuel as [|f IH]; intros n H.
  { cbn in *; lia. }
  rewrite Nat2Z.inj_succ, Z.pow_succ_r in H by lia.
  cbn -[Z.div Z.modulo dec_val].
  pose proof (Z.mod_pos_bound n 10 ltac:(lia)). pose proof (Z_div_mod_eq_full n 10).
  destruct (Z.ltb_spec n 10).
  - rewrite Z.mod_small by lia. unfold dec_val; cbn; lia.
  - rewrite dec_go_app, dec_val_snoc, IH; [lia|].
    split; [apply Z.div_pos; lia | apply Z.div_lt_upper_bound; lia].
Qed.

Lemma dec_nonneg_val n : 0 <= n -> dec_val (dec_nonneg n) = n.
Proof.
  intros H. apply dec_go_val. split; [done|].
  rewrite Nat2Z.inj_succ, Z2Nat.id by apply Z.log2_nonneg.
  destruct (Z.eq_dec n 0) as [->|]; [done|].
  eapply Z.lt_le_trans; [apply Z.log2_spec; lia|].
  apply Z.pow_le_mono_l. lia.
Qed.

Lemma Z_to_str_inj a b : 0 <= a -> 0 <= b -> Z_to_str a = Z_to_str b -> a = b.
Proof.
  unfold Z_to_str. destruct (Z.ltb_spec a 0), (Z.ltb_spec b 0); try lia. intros _ _ E%(f_equal dec_val). by rewrite !dec_nonneg_val in E.
Qed.

Lemma dec_go_digits fuel n acc :
  forallb is_digit acc = true -> 0 <= n -> forallb is_digit (dec_go fuel n acc) = true.
Proof.
  revert n acc; induction fuel as [|f IH]; intros n acc Ha Hn; [done|].
  cbn -[Z.div Z.modulo].
  pose proof (Z.mod_pos_bound n 10 ltac:(lia)).
  assert (forallb is_digit ((48 + n mod 10) :: acc) = true).
  { cbn -[Z.modulo]. rewrite Ha, andb_true_r. unfold is_digit.
    apply andb_true_iff; split; apply Z.leb_le; lia. }
  destruct (n <? 10); [done|]. apply IH; [done|]. apply Z.div_pos; lia.
Qed.

Lemma dec_nonneg_digits n : 0 <= n -> forallb is_digit (dec_nonneg n) = true.
Proof. intros; by apply dec_go_digits. Qed.

Lemma dec_nonneg_nonnil n : dec_nonneg n <> [].
Proof.
  unfold dec_nonneg. cbn -[Z.div Z.modulo]. destruct (n <? 10); [done|].
  rewrite dec_go_app. intros H%app_eq_nil. by destruct H.
Qed.

Lemma is_digit_not_ws c : is_digit c = true -> is_ws c = false.
Proof.
  unfold is_digit, is_ws. intros H. bsplit.
  repeat match goal with H : (_ <=? _) = true |- _ => apply Z.leb_le in H end.
  repeat (apply orb_false_iff; split);
    try (apply Z.eqb_neq; lia); apply andb_false_iff; rewrite !Z.leb_gt; lia.
Qed.

(** ** Arrays *)

Lemma elem_of_lfilter {A} (f : A -> bool) (l : list A) x :
  x ∈ List.filter f l <-> x ∈ l /\ f x = true.
Proof. rewrite !list_elem_of_In. apply filter_In. Qed.

Lemma NoDup_map_lfilter {A B} (f : A -> B) (c : A -> bool) l : NoDup (map f l) -> NoDup (map f (List.filter c l)).
Proof.
  induction l as [|x l IH]; [done|]. cbn [map List.filter]. intros [Hx Hl]%NoDup_cons.
  destruct (c x); [|by apply IH]. cbn [map]. constructor; [|by apply IH].
  intros Hin. apply Hx. apply list_elem_of_fmap in Hin as (y & E & Hy). apply elem_of_lfilter in Hy as [Hy _].
  apply list_elem_of_fmap. eauto.
Qed.

Lemma Forall_lfilter {A} (P : A -> Prop) (f : A -> bool) l : Forall P l -> Forall P (List.filter f l).
Proof. rewrite !Forall_forall. intros H x [Hx _]%elem_of_lfilter. auto. Qed.

Lemma NoDup_lfilter {A} (f : A -> bool) (l : list A) : NoDup l -> NoDup (List.filter f l).
Proof. rewrite !NoDup_ListNoDup. apply List.NoDup_filter. Qed.

Lemma elem_of_uniq {A} `{EqDecision A} (l : list A) x : x ∈ uniq l <-> x ∈ l.
Proof.
  induction l as [|y l IH]; cbn; [done|].
  rewrite !elem_of_cons, elem_of_lfilter, IH, negb_true_iff, bool_decide_eq_false.
  destruct (decide (x = y)); naive_solver.
Qed.

Lemma NoDup_uniq {A} `{EqDecision A} (l : list A) : NoDup (uniq l).
Proof.
  induction l as [|y l IH]; cbn; constructor; [|by apply NoDup_lfilter].
  rewrite elem_of_lfilter, negb_true_iff, bool_decide_eq_false. naive_solver.
Qed.

Lemma lfilter_id {A} (f : A -> bool) (l : list A) :
  (forall x, x ∈ l -> f x = true) -> List.filter f l = l.
Proof.
  induction l as [|x l IH]; intros H; [done|]. cbn.
  rewrite H, IH; [done| |]; [|by constructor]. intros; apply H; by constructor.
Qed.

Lemma uniq_NoDup {A} `{EqDecision A} (l : list A) : NoDup l -> uniq l = l.
Proof.
  induction 1 as [|x l Hx Hl IH]; cbn; [done|]. rewrite IH. f_equal.
  apply lfilter_id. intros y Hy. apply negb_true_iff, bool_decide_eq_false. naive_solver.
Qed.

Section SortLemmas.
Context {A : Type} (cmp : A -> A -> Z).

Lemma sort_insert_perm x l : sort_insert cmp x l ≡ₚ x :: l.
Proof.
  induction l as [|y l IH]; cbn; [done|]. destruct (cmp x y <=? 0); [done|].
  rewrite IH. apply Permutation_swap.
Qed.

Lemma sort_by_perm l : sort_by cmp l ≡ₚ l.
Proof. induction l as [|x l IH]; cbn; [done|]. by rewrite sort_insert_perm, IH. Qed.

(** The comparator is total: of two elements one is not after the other. *)
Hypothesis cmp_total : forall x y, cmp x y <= 0 \/ cmp y x <= 0.

Lemma sort_by_sorted l : Sorted (fun x y => cmp x y <= 0) (sort_by cmp l).
Proof.
  induction l as [|x l IH]; cbn; [constructor|].
  induction IH as [|y l' Hs IHs Hhd]; cbn; [by repeat constructor|].
  destruct (Z.leb_spec (cmp x y) 0).
  - constructor; [by constructor|by constructor].
  - constructor; [done|].
    destruct (cmp_total x y) as [?|Hyx]; [lia|].
    destruct Hhd as [|z l'' Hyz]; cbn; [by constructor|].
    destruct (cmp x z <=? 0); by constructor.
Qed.

End SortLemmas.

Lemma startsWith_app p s : startsWith p (p ++ s) = true.
Proof. induction p as [|a p IH]; cbn; [done|]. by rewrite Z.eqb_refl. Qed.

Lemma startsWith_spec p s : startsWith p s = true <-> exists r, s = p ++ r.
Proof.
  revert s; induction p as [|a p IH]; intros s; cbn; [naive_solver|].
  destruct s as [|b s]; [naive_solver|].
  rewrite andb_true_iff, Z.eqb_eq, IH. naive_solver.
Qed.

Lemma includes_spec sub s : includes sub s = true <-> exists a b, s = a ++ sub ++ b.
Proof.
  induction s as [|c s IH]; cbn; rewrite orb_true_iff, startsWith_spec.
  - split; [|by intros ([|? ?] & b & E); [left; exists b|]].
    intros [[r Hr]|?]; [|done]. exists [], r. done.
  - rewrite IH. split.
    + intros [[r ->]|(a & b & ->)]; [by exists [], r | by exists (c :: a), b].
    + intros ([|? a] & b & E); cbn in *; [left; by exists b|].
      right. injection E as -> ->. by exists a, b.
Qed.
