(* ===== verification/StatusCodeRules.v ===== *)
(** * HTTP status code rules: [web/src/helpers/statusCodeRules.js]

    The administrator types a comma separated list of codes and ranges; the
    helper parses it, merges the ranges and prints the normal form.  Integers
    are [Z]: [Number.parseInt] rounds integers above 2^53, but every value that
    survives the guards is between 100 and 599, where doubles are exact, and
    rounding cannot bring a larger integer back into that interval. *)
From S2P Require Import Prelude.
#[local] Open Scope Z_scope.

Module StatusCodeRules.

Record range := Range { start : Z; end_ : Z }.

Record result := Result {
  ok : bool;
  ranges : list range;
  tokens : list jsstr;
  normalized : jsstr;
  invalidTokens : list jsstr;
}.

(** [/^\d+$/.test(s)] *)
Definition isNumber (s : jsstr) : bool := nonempty s && forallb is_digit s.

(** [Number.isFinite] of an integer literal: below the binary64 overflow
    threshold. *)
Definition int_isFinite (z : Z) : bool := z <? 2 ^ 1024 - 2 ^ 970.

Definition remove_spaces (s : jsstr) : jsstr := List.filter (fun c => negb (c =? 32)) s.

Definition parseToken (token : jsstr) : option range :=
  let cleaned := remove_spaces (trim token) in
  if negb (nonempty cleaned) then None
  else if includes $"-" cleaned then
    match split_char 45 cleaned with
    | [a; b] =>
      if negb (isNumber a) || negb (isNumber b) then None
      else
        let s := dec_val a in
        let e := dec_val b in
        if negb (int_isFinite s) || negb (int_isFinite e) then None
        else if e <? s then None
        else if (s <? 100) || (599 <? e) then None
        else Some (Range s e)
    | _ => None
    end
  else if negb (isNumber cleaned) then None
  else
    let code := dec_val cleaned in
    if negb (int_isFinite code) then None
    else if (code <? 100) || (599 <? code) then None
    else Some (Range code code).

Definition range_cmp (a b : range) : Z :=
  if negb (start a =? start b) then start a - start b else end_ a - end_ b.

(** The loop over [sorted[1..]]; [last] is [merged[merged.length - 1]]. *)
Fixpoint merge_loop (last : range) (l : list range) : list range :=
  match l with
  | [] => [last]
  | current :: r =>
    if start current <=? end_ last + 1
    then merge_loop (Range (start last) (Z.max (end_ last) (end_ current))) r
    else last :: merge_loop current r
  end.

Definition mergeRanges (rs : list range) : list range :=
  match sort_by range_cmp rs with
  | [] => []
  | first :: rest => merge_loop first rest
  end.

Definition range_token (r : range) : jsstr :=
  if start r =? end_ r then Z_to_str (start r)
  else Z_to_str (start r) ++ $"-" ++ Z_to_str (end_ r).

(** One pass over the segments: parsed ranges and invalid tokens, in order. *)
Fixpoint scan (segments : list jsstr) : list range * list jsstr :=
  match segments with
  | [] => ([], [])
  | segment :: r =>
    let '(rs, bad) := scan r in
    let trimmed := trim segment in
    if negb (nonempty trimmed) then (rs, bad)
    else match parseToken trimmed with
         | None => (rs, trimmed :: bad)
         | Some p => (p :: rs, bad)
         end
  end.

(** [raw.replace(/[，]/g, ',')] *)
Definition sanitize (s : jsstr) : jsstr := map (fun c => if c =? 65292 then 44 else c) s.

(** [input ?? '']: [None] stands for [null] and [undefined]. *)
Definition parseHttpStatusCodeRules (input : option jsstr) : result :=
  let raw := trim (default [] input) in
  if negb (nonempty raw) then Result true [] [] [] []
  else
    let '(rs, bad) := scan (split_char 44 (sanitize raw)) in
    match bad with
    | _ :: _ => Result false [] [] raw bad
    | [] =>
      let merged := mergeRanges rs in
      let toks := map range_token merged in
      Result true merged toks (join $"," toks) []
    end.

(** ** Specification *)

Definition range_ok (r : range) : Prop := 100 <= start r /\ start r <= end_ r /\ end_ r <= 599.

Definition covers (rs : list range) (c : Z) : Prop :=
  Exists (fun r => start r <= c <= end_ r) rs.

(** Strictly separated: neither overlapping nor adjacent. *)
Definition separated (a b : range) : Prop := end_ a + 1 < start b.

Definition normal (rs : list range) : Prop :=
  Forall range_ok rs /\ Sorted separated rs.


(** ** Merging *)

Definition le_start (a b : range) : Prop := start a <= start b.

Lemma range_cmp_total a b : range_cmp a b <= 0 \/ range_cmp b a <= 0.
Proof.
  unfold range_cmp.
  destruct (Z.eqb_spec (start a) (start b)), (Z.eqb_spec (start b) (start a)); cbn; lia.
Qed.

Lemma range_cmp_le_start a b : range_cmp a b <= 0 -> le_start a b.
Proof.
  unfold range_cmp, le_start. destruct (Z.eqb_spec (start a) (start b)); cbn; lia.
Qed.

Lemma Sorted_impl {A} (R S : A -> A -> Prop) l :
  (forall a b, R a b -> S a b) -> Sorted R l -> Sorted S l.
Proof.
  intros HRS. induction 1 as [|x l Hl IH Hh]; constructor; [done|].
  destruct Hh; constructor; auto.
Qed.

Lemma sort_ranges_sorted rs : Sorted le_start (sort_by range_cmp rs).
Proof.
  eapply Sorted_impl; [apply range_cmp_le_start|].
  apply sort_by_sorted, range_cmp_total.
Qed.

Lemma covers_cons r rs c : covers (r :: rs) c <-> start r <= c <= end_ r \/ covers rs c.
Proof. apply Exists_cons. Qed.

Lemma covers_perm rs rs' c : rs ≡ₚ rs' -> covers rs c <-> covers rs' c.
Proof. intros H. unfold covers. by rewrite H. Qed.

(** The loop keeps the invariant: the result starts where [last] starts, is
    separated, and covers exactly what [last] and the rest cover. *)
Lemma merge_loop_spec l : forall last,
  Sorted le_start (last :: l) -> Forall range_ok (last :: l) ->
  normal (merge_loop last l)
  /\ (forall x, separated x last -> HdRel separated x (merge_loop last l))
  /\ (forall c, covers (merge_loop last l) c <-> covers (last :: l) c).
Proof.
  induction l as [|cur l IH]; intros last Hs Hok; cbn.
  { split; [by split; [|repeat constructor]|]. split; [by constructor|done]. }
  apply Sorted_inv in Hs as [Hs Hh]. apply HdRel_inv in Hh.
  apply Forall_cons in Hok as [Hl Hok]. apply Forall_cons in Hok as [Hc Hok].
  unfold le_start, range_ok in *.
  destruct (Z.leb_spec (start cur) (end_ last + 1)).
  - set (m := Range _ _).
    assert (Hm : Sorted le_start (m :: l)).
    { apply Sorted_inv in Hs as [Hs1 Hs2]. constructor; [done|].
      destruct Hs2; constructor; unfold le_start in *; cbn; lia. }
    assert (Hm' : Forall range_ok (m :: l)).
    { constructor; [|done]. unfold range_ok; cbn; lia. }
    destruct (IH m Hm Hm') as (N & S & C). split; [done|]. split.
    + intros x Hx. apply S. unfold separated in *; cbn; lia.
    + intros c. rewrite C, !covers_cons. cbn. split; [|naive_solver lia].
      intros [?|?]; [|tauto]. destruct (Z.le_gt_cases c (end_ last)); [left; lia|].
      right; left; lia.
  - destruct (IH cur Hs) as ((N1 & N2) & S & C); [by constructor|]. split; [|split].
    + split; [by constructor|]. constructor; [done|]. apply S. unfold separated; lia.
    + intros x Hx. by constructor.
    + intros c. rewrite !(covers_cons last), C. tauto.
Qed.

Lemma mergeRanges_spec rs :
  Forall range_ok rs ->
  normal (mergeRanges rs) /\ forall c, covers (mergeRanges rs) c <-> covers rs c.
Proof.
  intros Hok. unfold mergeRanges.
  pose proof (sort_ranges_sorted rs) as Hs. pose proof (sort_by_perm range_cmp rs) as Hp.
  destruct (sort_by range_cmp rs) as [|f r]; [apply Permutation_nil_l in Hp as <-|].
  { split; [by split|done]. }
  destruct (merge_loop_spec r f) as (N & _ & C); [done|by rewrite Hp|].
  split; [done|]. intros c. rewrite C. by apply covers_perm.
Qed.

Lemma sort_by_id rs : Sorted separated rs -> Forall range_ok rs -> sort_by range_cmp rs = rs.
Proof.
  induction 1 as [|x l Hl IH Hh]; intros Hok; [done|]. cbn.
  apply Forall_cons in Hok as [Hx Hok]. rewrite IH by done.
  destruct Hh as [|y l Hxy]; [done|]. cbn.
  assert (range_cmp x y <= 0) as ->%Z.leb_le; [|done].
  unfold range_cmp, separated, range_ok in *. destruct (Z.eqb_spec (start x) (start y)); cbn; lia.
Qed.

Lemma merge_loop_id l : forall last, Sorted separated (last :: l) -> merge_loop last l = last :: l.
Proof.
  induction l as [|c l IH]; intros last Hs; [done|]. cbn.
  apply Sorted_inv in Hs as [Hs Hh%HdRel_inv]. unfold separated in Hh.
  destruct (Z.leb_spec (start c) (end_ last + 1)); [lia|]. by rewrite IH.
Qed.

Lemma mergeRanges_id rs : normal rs -> mergeRanges rs = rs.
Proof.
  intros [Hok Hs]. unfold mergeRanges. rewrite sort_by_id by done.
  destruct rs; [done|]. by apply merge_loop_id.
Qed.

(** ** Tokens *)

Lemma parseToken_ok t r : parseToken t = Some r -> range_ok r.
Proof.
  unfold parseToken, range_ok. intros H.
  repeat case_match; simplify_eq/=; bsplit;
    rewrite ?Z.ltb_ge in *; cbn; lia.
Qed.

Definition token_char (c : Z) : bool := is_digit c || (c =? 45).

Lemma token_char_facts c :
  token_char c = true -> is_ws c = false /\ c <> 32 /\ c <> 44 /\ c <> 65292.
Proof.
  unfold token_char. intros [H|H%Z.eqb_eq]%orb_true_iff; [|subst; done].
  split; [by apply is_digit_not_ws|]. unfold is_digit in H. bsplit.
  rewrite Z.leb_le in *; lia.
Qed.

Lemma digits_token s : forallb is_digit s = true -> forallb token_char s = true.
Proof.
  rewrite !forallb_forall. intros H c Hc. unfold token_char. by rewrite H.
Qed.

Lemma Z_to_str_nonneg z : 0 <= z -> Z_to_str z = dec_nonneg z.
Proof. intros H. unfold Z_to_str. by destruct (Z.ltb_spec z 0); [lia|]. Qed.

Lemma range_token_chars r :
  range_ok r -> forallb token_char (range_token r) = true /\ range_token r <> [].
Proof.
  intros (Ha & Hb & Hd). unfold range_token.
  rewrite !Z_to_str_nonneg by lia.
  assert (H1 : forallb token_char (dec_nonneg (start r)) = true)
    by (apply digits_token, dec_nonneg_digits; lia).
  assert (H2 : forallb token_char (dec_nonneg (end_ r)) = true)
    by (apply digits_token, dec_nonneg_digits; lia).
  pose proof (dec_nonneg_nonnil (start r)).
  destruct (start r =? end_ r); [done|]. split.
  - rewrite !forallb_app, H1, H2. done.
  - by intros [? ?]%app_eq_nil.
Qed.

Lemma edges_ok_tokens s : forallb token_char s = true -> edges_ok s = true.
Proof.
  rewrite forallb_forall. intros H. destruct s as [|c s]; [done|]. unfold edges_ok.
  assert (Hl : In (List.last (c :: s) 0) (c :: s)).
  { destruct (exists_last (l := c :: s) ltac:(done)) as (l' & x & ->).
    rewrite List.last_last. apply in_or_app; right; by left. }
  destruct (token_char_facts c) as [-> _]; [apply H; by left|].
  by destruct (token_char_facts _ (H _ Hl)) as [-> _].
Qed.

Lemma remove_spaces_tokens s : forallb token_char s = true -> remove_spaces s = s.
Proof.
  rewrite forallb_forall. intros H. apply lfilter_id. intros c Hc%list_elem_of_In.
  destruct (token_char_facts c) as (_ & ? & _); [by apply H|].
  by apply negb_true_iff, Z.eqb_neq.
Qed.

Lemma isNumber_dec n : 0 <= n -> isNumber (dec_nonneg n) = true.
Proof.
  intros H. unfold isNumber. rewrite dec_nonneg_digits by done.
  pose proof (dec_nonneg_nonnil n). by destruct (dec_nonneg n).
Qed.

Lemma digits_no_dash s : forallb is_digit s = true -> ~ In 45 s.
Proof. rewrite forallb_forall. intros H Hi. by specialize (H _ Hi). Qed.

Lemma includes_char c s : includes [c] s = true <-> In c s.
Proof.
  rewrite includes_spec. split.
  - intros (a & b & ->). apply in_or_app; right; by left.
  - intros (a & b & ->)%in_split. by exists a, b.
Qed.

Lemma int_isFinite_small z : z <= 599 -> int_isFinite z = true.
Proof.
  intros H. unfold int_isFinite. apply Z.ltb_lt.
  assert (599 < 2 ^ 1024 - 2 ^ 970) by (apply Z.ltb_lt; vm_compute; done). lia.
Qed.

(** Printing a range and parsing the token gives the range back. *)
Lemma parseToken_range_token r : range_ok r -> parseToken (range_token r) = Some r.
Proof.
  intros Hr. destruct (range_token_chars r Hr) as [Hc Hn].
  destruct r as [s e]. destruct Hr as (H1 & H2 & H3); cbn [start end_] in *.
  unfold parseToken. rewrite trim_id by (by apply edges_ok_tokens).
  rewrite remove_spaces_tokens by done.
  assert (nonempty (range_token (Range s e)) = true) as -> by (by destruct (range_token _)).
  unfold range_token in *; cbn [start end_ negb] in *. rewrite !Z_to_str_nonneg by lia.
  destruct (Z.eqb_spec s e) as [->|Hne].
  - assert (includes $"-" (dec_nonneg e) = false) as ->.
    { apply not_true_iff_false. js_lit. rewrite includes_char.
      apply digits_no_dash, dec_nonneg_digits; lia. }
    cbn [negb]. rewrite isNumber_dec, dec_nonneg_val, int_isFinite_small by lia. cbn [negb orb].
    destruct (Z.ltb_spec e 100), (Z.ltb_spec 599 e); done || lia.
  - js_lit. assert (includes [45] (dec_nonneg s ++ [45] ++ dec_nonneg e) = true) as ->.
    { apply includes_char, in_or_app; right; by left. }
    cbn -[split_char includes dec_nonneg Z.ltb]. rewrite split_char_app by (apply digits_no_dash, dec_nonneg_digits; lia).
    rewrite split_char_no by (apply digits_no_dash, dec_nonneg_digits; lia).
    rewrite !isNumber_dec, !dec_nonneg_val, !int_isFinite_small by lia. cbn [negb orb].
    destruct (Z.ltb_spec e s); [lia|].
    destruct (Z.ltb_spec s 100), (Z.ltb_spec 599 e); done || lia.
Qed.

(** ** Scanning *)

Lemma scan_ok segs : Forall range_ok (scan segs).1.
Proof.
  induction segs as [|s segs IH]; cbn; [done|].
  destruct (scan segs) as [rs bad]; cbn in *.
  destruct (nonempty (trim s)); cbn; [|done].
  destruct (parseToken (trim s)) eqn:E; cbn; [|done].
  constructor; [by eapply parseToken_ok|done].
Qed.

Lemma scan_bad segs t :
  t ∈ (scan segs).2 <->
  exists s, s ∈ segs /\ t = trim s /\ t <> [] /\ parseToken t = None.
Proof.
  induction segs as [|s segs IH]; cbn.
  { split; [by intros ?%elem_of_nil | by intros (s & ?%elem_of_nil & _)]. }
  setoid_rewrite elem_of_cons.
  destruct (scan segs) as [rs bad]; cbn in *.
  destruct (trim s) as [|c u] eqn:E; cbn.
  { rewrite IH. split; [intros (s' & ? & ?); by eauto|].
    intros (s' & [->|?] & -> & ? & ?); [congruence|by eauto]. }
  destruct (parseToken (c :: u)) eqn:F; cbn; rewrite ?elem_of_cons, IH.
  - split; [intros (s' & ? & ?); by eauto|].
    intros (s' & [->|?] & -> & ? & ?); [congruence|by eauto].
  - split.
    + intros [->|(s' & ? & ?)]; [|by eauto]. exists s. rewrite E. auto.
    + intros (s' & [->|?] & -> & ? & ?); [left; congruence|right; by eauto].
Qed.

Lemma scan_tokens rs : Forall range_ok rs -> scan (map range_token rs) = (rs, []).
Proof.
  induction 1 as [|r rs Hr Hrs IH]; cbn; [done|]. rewrite IH.
  destruct (range_token_chars r Hr) as [Hc Hn].
  rewrite trim_id by (by apply edges_ok_tokens).
  assert (nonempty (range_token r) = true) as -> by (by destruct (range_token r)).
  cbn. by rewrite parseToken_range_token.
Qed.

(** Every segment of the input, as the parser sees it. *)
Definition segments (input : option jsstr) : list jsstr :=
  split_char 44 (sanitize (trim (default [] input))).

Lemma parse_unfold input :
  parseHttpStatusCodeRules input =
  match trim (default [] input), (scan (segments input)).2 with
  | [], _ => Result true [] [] [] []
  | _, [] =>
    let merged := mergeRanges (scan (segments input)).1 in
    Result true merged (map range_token merged) (join $"," (map range_token merged)) []
  | raw, bad => Result false [] [] raw bad
  end.
Proof.
  unfold parseHttpStatusCodeRules, segments.
  destruct (trim (default [] input)) as [|c r] eqn:E; [done|]. cbn [nonempty negb].
  destruct (scan (split_char 44 (sanitize (c :: r)))) as [rs [|]]; done.
Qed.

Lemma join_tokens_edges rs :
  Forall range_ok rs -> rs <> [] ->
  edges_ok (join $"," (map range_token rs)) = true
  /\ join $"," (map range_token rs) <> []
  /\ sanitize (join $"," (map range_token rs)) = join $"," (map range_token rs).
Proof.
  js_lit. induction 1 as [|r rs Hr Hrs IH]; [done|]. intros _.
  destruct (range_token_chars r Hr) as [Hc Hn].
  assert (Hsan : sanitize (range_token r) = range_token r).
  { rewrite forallb_forall in Hc. unfold sanitize. rewrite <- (map_id (range_token r)) at 2.
    apply map_ext_in. intros c Hi. destruct (token_char_facts c (Hc c Hi)) as (_ & _ & _ & ?).
    by destruct (Z.eqb_spec c 65292). }
  pose proof (edges_ok_tokens _ Hc) as He.
  destruct rs as [|r' rs]; [by split|]. cbn [map] in *. rewrite join_cons by done.
  destruct IH as (He' & Hn' & Hs'); [done|]. set (J := join _ _) in *. split; [|split].
  - apply edges_ok_app; [done|by destruct J|..].
    + destruct (range_token r); [done|]. cbn in He. bsplit. done.
    + destruct J as [|j J]; [done|]. cbn in He'. bsplit. done.
  - by intros [? ?]%app_eq_nil.
  - unfold sanitize in *. rewrite !map_app, Hsan, Hs'. done.
Qed.

(** Parsing the printed form of a normal list of ranges gives it back. *)
Lemma parse_print rs :
  normal rs ->
  parseHttpStatusCodeRules (Some (join $"," (map range_token rs)))
  = Result true rs (map range_token rs) (join $"," (map range_token rs)) [].
Proof.
  intros [Hok Hs]. destruct rs as [|r rs]; [done|].
  destruct (join_tokens_edges (r :: rs)) as (He & Hn & Hsan); [done..|].
  rewrite parse_unfold. unfold segments. cbn [from_option id].
  rewrite trim_id, Hsan by done.
  assert (Hsp : split_char 44 (join $"," (map range_token (r :: rs))) = map range_token (r :: rs)).
  { apply split_join; [done|]. apply Forall_map. eapply Forall_impl; [exact Hok|].
    intros x Hx Hin. destruct (range_token_chars x Hx) as [Hc _].
    rewrite forallb_forall in Hc. by specialize (Hc _ Hin). }
  rewrite Hsp, scan_tokens by done. cbn [fst snd].
  rewrite mergeRanges_id by done. by destruct (join $"," _).
Qed.

(** C10: the ranges returned for any input are in normal form: every range lies in
    100..599, and consecutive ranges are increasing, disjoint and not adjacent. *)
Theorem parse_ranges_normal input : normal (ranges (parseHttpStatusCodeRules input)).
Proof.
  rewrite parse_unfold. destruct (trim _); [by split|].
  destruct (scan (segments input)).2; [|by split].
  apply mergeRanges_spec, scan_ok.
Qed.

(** Merging neither loses nor adds a code: a status code is covered by the
    returned ranges exactly when it is covered by one of the typed tokens. *)
Theorem parse_covers_tokens input c :
  ok (parseHttpStatusCodeRules input) = true ->
  covers (ranges (parseHttpStatusCodeRules input)) c <->
  exists seg r, seg ∈ segments input /\ parseToken (trim seg) = Some r
                /\ start r <= c <= end_ r.
Proof.
  assert (Hscan : forall segs, covers (scan segs).1 c <->
    exists seg r, seg ∈ segs /\ parseToken (trim seg) = Some r /\ start r <= c <= end_ r).
  { induction segs as [|s segs IH]; cbn.
    { split; [by intros ?%Exists_nil | by intros (? & ? & ?%elem_of_nil & _)]. }
    setoid_rewrite elem_of_cons. destruct (scan segs) as [rs bad]; cbn in *.
    destruct (trim s) as [|x u] eqn:E; cbn.
    { rewrite IH. split; [intros (s' & r & ? & ?); by eauto|].
      intros (s' & r & [->|?] & Hp & ?); [by rewrite E in Hp|by eauto]. }
    destruct (parseToken (x :: u)) as [r0|] eqn:F; cbn; rewrite ?covers_cons, IH.
    - split.
      + intros [?|(s' & r & ? & ?)]; [|by eauto 6]. exists s, r0. rewrite E. auto.
      + intros (s' & r & [->|?] & Hp & ?); [left; congruence|right; by eauto 6].
    - split; [intros (s' & r & ? & ?); by eauto 6|].
      intros (s' & r & [->|?] & Hp & ?); [congruence|by eauto 6]. }
  rewrite parse_unfold. destruct (trim (default [] input)) as [|x u] eqn:E.
  { intros _. unfold segments. rewrite E. cbn. split; [by intros ?%Exists_nil|].
    by intros (seg & r & ->%list_elem_of_singleton & Hp & _). }
  destruct (scan (segments input)).2 eqn:F; [|done]. intros _. cbn [ranges].
  rewrite <- Hscan. apply mergeRanges_spec, scan_ok.
Qed.

(** The normalized text is a fixed point: parsing what the helper printed
    returns exactly the same result. *)
Theorem parse_normalized_roundtrip input :
  ok (parseHttpStatusCodeRules input) = true ->
  parseHttpStatusCodeRules (Some (normalized (parseHttpStatusCodeRules input)))
  = parseHttpStatusCodeRules input.
Proof.
  rewrite (parse_unfold input). destruct (trim (default [] input)); [done|].
  destruct (scan (segments input)).2; [|done]. intros _. cbn [normalized].
  apply parse_print, mergeRanges_spec, scan_ok.
Qed.

(** The parser rejects the input exactly when a non-blank segment is not a
    code or range in 100..599; it then reports exactly those segments, keeps
    the text and returns no range. *)
Theorem parse_rejects_iff input :
  (ok (parseHttpStatusCodeRules input) = false <->
   exists seg, seg ∈ segments input /\ trim seg <> [] /\ parseToken (trim seg) = None)
  /\ (ok (parseHttpStatusCodeRules input) = false ->
      ranges (parseHttpStatusCodeRules input) = []
      /\ normalized (parseHttpStatusCodeRules input) = trim (default [] input)
      /\ forall t, t ∈ invalidTokens (parseHttpStatusCodeRules input) <->
           exists seg, seg ∈ segments input /\ t = trim seg /\ t <> [] /\ parseToken t = None).
Proof.
  pose proof (scan_bad (segments input)) as Hb. rewrite parse_unfold.
  destruct (trim (default [] input)) as [|x u] eqn:E.
  { unfold segments in *. rewrite E in *. cbn. split; [|done]. split; [done|].
    by intros (seg & ->%list_elem_of_singleton & ? & _). }
  destruct (scan (segments input)).2 as [|t bad] eqn:F; cbn.
  - split; [|done]. split; [done|]. intros (seg & ? & ? & ?).
    assert (Hin : trim seg ∈ []) by (apply Hb; by eauto). by apply elem_of_nil in Hin.
  - split; [|done]. split; [|done]. intros _.
    destruct (proj1 (Hb t) ltac:(by left)) as (seg & ? & -> & ? & ?). by eauto.
Qed.

Lemma parse_covers_tokens_witness :
  ok (parseHttpStatusCodeRules (Some $"500-503,429,502-510")) = true
  /\ covers (ranges (parseHttpStatusCodeRules (Some $"500-503,429,502-510"))) 507.
Proof.
  split; [reflexivity|].
  apply (parse_covers_tokens (Some $"500-503,429,502-510") 507); [reflexivity|].
  exists $"502-510", (Range 502 510). split; [|split; [reflexivity|cbn; lia]].
  do 2 right. left.
Defined.

Lemma parse_normalized_roundtrip_witness :
  normalized (parseHttpStatusCodeRules (Some $"504 ， 500-503")) = $"500-504"
  /\ parseHttpStatusCodeRules (Some (normalized (parseHttpStatusCodeRules (Some $"504 ， 500-503"))))
     = parseHttpStatusCodeRules (Some $"504 ， 500-503").
Proof.
  split; [reflexivity|].
  apply (parse_normalized_roundtrip (Some $"504 ， 500-503")). reflexivity.
Defined.

End StatusCodeRules.
