(* ===== verification/JSNum.v ===== *)
(** * Numbers: IEEE-754 binary64 as ECMAScript uses them

    [num] is Rocq's executable specification of binary64 ([SpecFloat], precision
    53, maximal exponent 1024).  The conversions from and to decimal strings
    ([Number(s)], [parseFloat], [String(x)], [toFixed]) work on exact integer
    ratios and round once, as the language specification asks. *)
From S2P Require Import Prelude.
From Stdlib Require Import SpecFloat.
#[local] Open Scope Z_scope.

Abbreviation num := spec_float.

#[export] Instance num_eq_dec : EqDecision num.
Proof. solve_decision. Defined.

Definition nadd (a b : num) : num := SFadd 53 1024 a b.
Definition nsub (a b : num) : num := SFsub 53 1024 a b.
Definition nmul (a b : num) : num := SFmul 53 1024 a b.
Definition ndiv (a b : num) : num := SFdiv 53 1024 a b.

(** [===], [<], [<=] on numbers: false as soon as one operand is NaN. *)
Definition neqb (a b : num) : bool := SFeqb a b.
Definition nltb (a b : num) : bool := SFltb a b.
Definition nleb (a b : num) : bool := SFleb a b.

Definition NaN : num := S754_nan.
Definition of_Z (z : Z) : num := binary_normalize 53 1024 z 0 false.
Definition n0 : num := S754_zero false.
Definition n1 : num := of_Z 1.
Definition n2 : num := of_Z 2.

Definition isNaN (x : num) : bool := match x with S754_nan => true | _ => false end.
Definition isFinite (x : num) : bool :=
  match x with S754_zero _ | S754_finite _ _ _ => true | _ => false end.

(** [Boolean(x)] *)
Definition num_truthy (x : num) : bool :=
  match x with S754_zero _ | S754_nan => false | _ => true end.

Definition nabs (x : num) : num := SFabs x.
Definition nopp (x : num) : num := SFopp x.

(** [Math.sign] *)
Definition nsign (x : num) : num :=
  match x with
  | S754_finite false _ _ | S754_infinity false => n1
  | S754_finite true _ _ | S754_infinity true => nopp n1
  | _ => x
  end.

(** The exact value of a finite non-zero number as a ratio. *)
Definition ratio_of (m : positive) (e : Z) : Z * Z :=
  if 0 <=? e then (Z.pos m * 2 ^ e, 1) else (Z.pos m, 2 ^ (- e)).

(** [Math.floor], [Math.round]: exact, the sign of a zero result as in ECMAScript. *)
Definition with_sign (s : bool) (z : Z) : num :=
  if z =? 0 then S754_zero s else of_Z z.

Definition nfloor (x : num) : num :=
  match x with
  | S754_finite s m e =>
    let '(n, d) := ratio_of m e in
    with_sign false ((if s then - n else n) / d)
  | _ => x
  end.

Definition nround (x : num) : num :=
  match x with
  | S754_finite s m e =>
    let '(n, d) := ratio_of m e in
    with_sign s ((2 * (if s then - n else n) + d) / (2 * d))
  | _ => x
  end.

Definition isInteger (x : num) : bool := isFinite x && neqb (nfloor x) x.

(** ** Decimal input *)

(** The number nearest to [m * 10^e] (ties to even). *)
Definition num_of_decimal (neg : bool) (m e : Z) : num :=
  match m with
  | Z.pos p =>
    if 400 <? e then S754_infinity neg
    else if e + Z.log2 m <? -1500 then S754_zero neg
    else if 0 <=? e then binary_normalize 53 1024 (if neg then - (m * 10 ^ e) else m * 10 ^ e) 0 neg
    else SFdiv 53 1024 (S754_finite neg p 0) (S754_finite false (Z.to_pos (10 ^ (- e))) 0)
  | _ => S754_zero neg
  end.

(** A maximal run of digits and the rest. *)
Fixpoint span_digits (s : jsstr) : jsstr * jsstr :=
  match s with
  | c :: r => if is_digit c then let '(d, t) := span_digits r in (c :: d, t) else ([], s)
  | [] => ([], [])
  end.

(** The exponent part: [e], an optional sign and at least one digit; otherwise
    nothing is consumed. *)
Definition scan_exponent (s : jsstr) : Z * jsstr :=
  match s with
  | c :: r =>
    if (c =? 101) || (c =? 69) then
      let '(sg, r') := match r with
                       | 43 :: t => (1, t)
                       | 45 :: t => (-1, t)
                       | _ => (1, r)
                       end in
      match span_digits r' with
      | ([], _) => (0, s)
      | (d, t) => (sg * dec_val d, t)
      end
    else (0, s)
  | [] => (0, [])
  end.

(** The longest prefix of the form [digits . digits? | . digits] with an optional
    exponent: mantissa, decimal exponent, rest. *)
Definition scan_decimal (s : jsstr) : option (Z * Z * jsstr) :=
  let '(ip, r) := span_digits s in
  let '(fp, r') := match r with
                   | 46 :: t => let '(f, u) := span_digits t in
                                match ip, f with [], [] => ([], r) | _, _ => (f, u) end
                   | _ => ([], r)
                   end in
  match ip ++ fp with
  | [] => None
  | ds => let '(e, r'') := scan_exponent r' in
          Some (dec_val ds, e - Z.of_nat (length fp), r'')
  end.

(** An optional sign. *)
Definition scan_sign (s : jsstr) : bool * jsstr :=
  match s with
  | 43 :: t => (false, t)
  | 45 :: t => (true, t)
  | _ => (false, s)
  end.

Definition digit_value (c : Z) : Z :=
  if is_digit c then c - 48
  else if (97 <=? c) && (c <=? 122) then c - 87
  else if (65 <=? c) && (c <=? 90) then c - 55
  else 99.

Definition radix_number (radix : Z) (s : jsstr) : num :=
  if nonempty s && forallb (fun c => digit_value c <? radix) s
  then of_Z (fold_left (fun a c => a * radix + digit_value c) s 0)
  else NaN.

(** [Number(s)] of a string. *)
Definition Number_str (s : jsstr) : num :=
  match trim s with
  | [] => n0
  | (48 :: c :: r) as t =>
    if (c =? 120) || (c =? 88) then radix_number 16 r
    else if (c =? 111) || (c =? 79) then radix_number 8 r
    else if (c =? 98) || (c =? 66) then radix_number 2 r
    else match scan_decimal t with
         | Some (m, e, []) => num_of_decimal false m e
         | _ => NaN
         end
  | t =>
    let '(neg, u) := scan_sign t in
    if u =s? $"Infinity" then S754_infinity neg
    else match scan_decimal u with
         | Some (m, e, []) => num_of_decimal neg m e
         | _ => NaN
         end
  end.

Definition parseFloat (s : jsstr) : num :=
  let '(neg, u) := scan_sign (trimStart s) in
  if startsWith $"Infinity" u then S754_infinity neg
  else match scan_decimal u with
       | Some (m, e, _) => num_of_decimal neg m e
       | None => NaN
       end.

(** [parseInt(s, 10)] *)
Definition parseInt10 (s : jsstr) : num :=
  let '(neg, u) := scan_sign (trimStart s) in
  match span_digits u with
  | ([], _) => NaN
  | (d, _) => num_of_decimal neg (dec_val d) 0
  end.

(** ** Decimal output *)

(** The decimal exponent [n] with [10^(n-1) <= num/den < 10^n], for a positive
    ratio not below [10^-fuel]. *)
Fixpoint small_exp (fuel : nat) (n d j : Z) : Z :=
  match fuel with
  | O => 1 - j
  | S f => if d <=? n * 10 then 1 - j else small_exp f (n * 10) d (j + 1)
  end.

Definition dec_exp (n d : Z) : Z :=
  if d <=? n then Z.of_nat (length (dec_nonneg (n / d))) else small_exp 400 n d 1.

(** [n/d * 10^p] as a ratio. *)
Definition scale10 (n d p : Z) : Z * Z :=
  if 0 <=? p then (n * 10 ^ p, d) else (n, d * 10 ^ (- p)).

(** The [k]-digit decimals next to the value, the nearest first. *)
Definition candidates (n d ex k : Z) : list Z :=
  let '(a, b) := scale10 n d (k - ex) in
  let lo := a / b in
  if 2 * (a mod b) <? b then [lo; lo + 1]
  else if 2 * (a mod b) =? b then (if Z.even lo then [lo; lo + 1] else [lo + 1; lo])
  else [lo + 1; lo].

(** The shortest digit string that reads back as the number. *)
Fixpoint shortest (fuel : nat) (m : positive) (e ex k : Z) : Z * Z * Z :=
  let '(n, d) := ratio_of m e in
  match fuel with
  | O => (n / d, k, ex)
  | S f =>
    match List.filter (fun s => neqb (num_of_decimal false s (ex - k)) (S754_finite false m e))
                      (candidates n d ex k) with
    | s :: _ => if s =? 10 ^ k then (1, 1, ex + 1) else (s, k, ex)
    | [] => shortest f m e ex (k + 1)
    end
  end.

Definition zeros (n : Z) : jsstr := repeat 48 (Z.to_nat n).

(** [Number::toString] for the digits [s] (a [k]-digit integer) and exponent [n]. *)
Definition layout (s k n : Z) : jsstr :=
  let ds := dec_nonneg s in
  if (k <=? n) && (n <=? 21) then ds ++ zeros (n - k)
  else if (0 <? n) && (n <=? 21) then take (Z.to_nat n) ds ++ $"." ++ drop (Z.to_nat n) ds
  else if (-6 <? n) && (n <=? 0) then $"0." ++ zeros (- n) ++ ds
  else
    let ex := (if 0 <=? n - 1 then $"e+" else $"e-") ++ dec_nonneg (Z.abs (n - 1)) in
    if k =? 1 then ds ++ ex else take 1 ds ++ $"." ++ drop 1 ds ++ ex.

Definition String_num (x : num) : jsstr :=
  match x with
  | S754_nan => $"NaN"
  | S754_zero _ => $"0"
  | S754_infinity false => $"Infinity"
  | S754_infinity true => $"-Infinity"
  | S754_finite s m e =>
    let '(n, d) := ratio_of m e in
    let '(ds, k, ex) := shortest 17 m e (dec_exp n d) 1 in
    (if s then $"-" else []) ++ layout ds k ex
  end.

(** [x.toFixed(f)] *)
Definition fixed_layout (f n : Z) : jsstr :=
  let ds := dec_nonneg n in
  if f =? 0 then ds
  else
    let ds' := zeros (f + 1 - Z.of_nat (length ds)) ++ ds in
    let k := Z.to_nat (Z.of_nat (length ds') - f) in
    take k ds' ++ $"." ++ drop k ds'.

Definition toFixed (x : num) (f : Z) : jsstr :=
  match x with
  | S754_zero _ => fixed_layout f 0
  | S754_finite s m e =>
    let '(n, d) := ratio_of m e in
    if 10 ^ 21 * d <=? n then String_num x
    else (if s then $"-" else []) ++ fixed_layout f ((2 * n * 10 ^ f + d) / (2 * d))
  | _ => String_num x
  end.
