(* ===== verification/JSValue.v ===== *)
(** * Values: the part of the ECMAScript value model the sources use

    Objects are lists of own properties in enumeration order (array-index keys
    ascending, then the other keys in insertion order).  Inherited members of
    [Object.prototype] are not modelled: a missing own property reads as
    [undefined]. *)
From S2P Require Import Prelude JSNum.
#[local] Set Warnings "-register-all".
#[local] Open Scope Z_scope.

Inductive val : Type :=
| VUndef
| VNull
| VBool (b : bool)
| VNum (n : num)
| VStr (s : jsstr)
| VArr (l : list val)
| VObj (o : list (jsstr * val)).

Section ValInd.
Variable P : val -> Prop.
Hypothesis Hundef : P VUndef.
Hypothesis Hnull : P VNull.
Hypothesis Hbool : forall b, P (VBool b).
Hypothesis Hnum : forall n, P (VNum n).
Hypothesis Hstr : forall s, P (VStr s).
Hypothesis Harr : forall l, Forall P l -> P (VArr l).
Hypothesis Hobj : forall o, Forall (fun kv => P kv.2) o -> P (VObj o).

Fixpoint val_ind_strong (v : val) : P v :=
  match v with
  | VUndef => Hundef
  | VNull => Hnull
  | VBool b => Hbool b
  | VNum n => Hnum n
  | VStr s => Hstr s
  | VArr l =>
    Harr l ((fix go (l : list val) : Forall P l :=
               match l with
               | [] => List.Forall_nil P
               | x :: r => List.Forall_cons P _ _ (val_ind_strong x) (go r)
               end) l)
  | VObj o =>
    Hobj o ((fix go (o : list (jsstr * val)) : Forall (fun kv => P kv.2) o :=
               match o with
               | [] => List.Forall_nil _
               | x :: r => List.Forall_cons _ _ _ (val_ind_strong x.2) (go r)
               end) o)
  end.
End ValInd.

(** ** Objects *)

Abbreviation object := (list (jsstr * val)).

(** A canonical array index: it enumerates before the other keys. *)
Definition is_index (k : jsstr) : bool :=
  match k with
  | [] => false
  | c :: r =>
    forallb is_digit k && (negb (c =? 48) || negb (nonempty r)) && (dec_val k <? 4294967295)
  end.

(** Generic property lists: the same order is used for objects whose values are
    typed records in the model. *)
Section Props.
Context {V : Type}.

Fixpoint prop (k : jsstr) (o : list (jsstr * V)) : option V :=
  match o with
  | [] => None
  | (k', v) :: r => if k =s? k' then Some v else prop k r
  end.

Definition has_prop (k : jsstr) (o : list (jsstr * V)) : bool :=
  match prop k o with Some _ => true | None => false end.

Fixpoint prop_replace (k : jsstr) (v : V) (o : list (jsstr * V)) : list (jsstr * V) :=
  match o with
  | [] => []
  | (k', v') :: r => if k =s? k' then (k', v) :: r else (k', v') :: prop_replace k v r
  end.

Fixpoint prop_insert_index (k : jsstr) (v : V) (o : list (jsstr * V)) : list (jsstr * V) :=
  match o with
  | [] => [(k, v)]
  | (k', v') :: r =>
    if is_index k' && (dec_val k' <? dec_val k)
    then (k', v') :: prop_insert_index k v r
    else (k, v) :: o
  end.

(** [o[k] = v] *)
Definition prop_set (k : jsstr) (v : V) (o : list (jsstr * V)) : list (jsstr * V) :=
  if has_prop k o then prop_replace k v o
  else if is_index k then prop_insert_index k v o
  else o ++ [(k, v)].

(** [delete o[k]] *)
Definition prop_delete (k : jsstr) (o : list (jsstr * V)) : list (jsstr * V) :=
  List.filter (fun kv => negb (k =s? kv.1)) o.

(** [{ ...a, ...b }] *)
Definition prop_assign (a b : list (jsstr * V)) : list (jsstr * V) :=
  fold_left (fun o kv => prop_set kv.1 kv.2 o) b a.

Definition keys (o : list (jsstr * V)) : list jsstr := map fst o.

Definition props_of (l : list (jsstr * V)) : list (jsstr * V) := prop_assign [] l.

End Props.

(** ** Conversions *)

Definition truthy (v : val) : bool :=
  match v with
  | VUndef | VNull => false
  | VBool b => b
  | VNum n => num_truthy n
  | VStr s => nonempty s
  | VArr _ | VObj _ => true
  end.

(** [typeof v === 'object'] *)
Definition is_object (v : val) : bool :=
  match v with VNull | VArr _ | VObj _ => true | _ => false end.

Definition is_nullish (v : val) : bool :=
  match v with VUndef | VNull => true | _ => false end.

(** [String(v)] *)
Fixpoint String_val (v : val) : jsstr :=
  match v with
  | VUndef => $"undefined"
  | VNull => $"null"
  | VBool true => $"true"
  | VBool false => $"false"
  | VNum n => String_num n
  | VStr s => s
  | VArr l =>
    join $"," (map (fun x => match x with VUndef | VNull => [] | _ => String_val x end) l)
  | VObj _ => $"[object Object]"
  end.

(** [Number(v)] *)
Definition Number_val (v : val) : num :=
  match v with
  | VUndef => NaN
  | VNull => n0
  | VBool b => if b then n1 else n0
  | VNum n => n
  | VStr s => Number_str s
  | VArr _ => Number_str (String_val v)
  | VObj _ => NaN
  end.

(** [v === s] for a string, [v === b] for a boolean. *)
Definition eq_str (v : val) (s : jsstr) : bool :=
  match v with VStr x => x =s? s | _ => false end.
Definition eq_bool (v : val) (b : bool) : bool :=
  match v with VBool x => eqb x b | _ => false end.

(** [o[k]] on a value; reading a property of a primitive gives [undefined]
    (strings are never indexed by name in the sources). *)
Definition get (v : val) (k : jsstr) : val :=
  match v with VObj o => default VUndef (prop k o) | _ => VUndef end.

(** [Object.entries(v)] *)
Fixpoint indexed (i : Z) (l : list val) : object :=
  match l with
  | [] => []
  | x :: r => (Z_to_str i, x) :: indexed (i + 1) r
  end.

Definition entries (v : val) : object :=
  match v with
  | VObj o => o
  | VArr l => indexed 0 l
  | VStr s => indexed 0 (map (fun c => VStr [c]) s)
  | _ => []
  end.

(** The result of a function that may throw. *)
Inductive outcome (A : Type) : Type :=
| Ret (a : A)
| Throw.
Arguments Ret {A} a.
Arguments Throw {A}.

Lemma Ret_inj {A} (x y : A) : Ret x = Ret y -> x = y.
Proof. by intros [=]. Qed.

Definition bind_outcome {A B} (x : outcome A) (f : A -> outcome B) : outcome B :=
  match x with Ret a => f a | Throw => Throw end.

(** [try { x } catch { h }] *)
Definition catch {A} (x : outcome A) (h : A) : A := match x with Ret a => a | Throw => h end.

(** [v[k]] on any value but undefined and null, for own enumerable properties. *)
Definition get_any (v : val) (k : jsstr) : val := default VUndef (prop k (entries v)).

(** [v.k]: reading a property of undefined or null throws. *)
Definition get_or_throw (v : val) (k : jsstr) : outcome val :=
  if is_nullish v then Throw else Ret (get_any v k).

(** * Lemmas *)

Section PropLemmas.
Context {V : Type}.
Implicit Types (o : list (jsstr * V)) (k : jsstr) (v : V).

Lemma prop_elem k v o : prop k o = Some v -> (k, v) ∈ o.
Proof.
  induction o as [|[k' v'] o IH]; cbn; [done|].
  destruct (str_eqb_spec k k') as [->|]; intros; simplify_eq; set_solver.
Qed.

Lemma prop_None k o : prop k o = None <-> k ∉ keys o.
Proof.
  induction o as [|[k' v'] o IH]; cbn; [set_solver|].
  destruct (str_eqb_spec k k') as [->|]; set_solver.
Qed.

Lemma prop_Some_keys k o : is_Some (prop k o) <-> k ∈ keys o.
Proof.
  induction o as [|[k' v'] o IH]; cbn; [rewrite is_Some_alt; set_solver|].
  destruct (str_eqb_spec k k') as [->|]; [set_solver|]. rewrite IH. set_solver.
Qed.

Lemma prop_NoDup_elem k v o : NoDup (keys o) -> (k, v) ∈ o -> prop k o = Some v.
Proof.
  induction o as [|[k' v'] o IH]; cbn; [set_solver|].
  intros [Hk Ho]%NoDup_cons [?|Hin]%elem_of_cons; simplify_eq.
  - by rewrite str_eqb_refl.
  - destruct (str_eqb_spec k k') as [->|]; [|auto].
    destruct Hk. apply list_elem_of_fmap. by exists (k', v).
Qed.

Lemma prop_app k o1 o2 :
  prop k (o1 ++ o2) = match prop k o1 with Some v => Some v | None => prop k o2 end.
Proof. induction o1 as [|[k' v'] o1 IH]; cbn; [done|]. by destruct (k =s? k'). Qed.

Lemma prop_replace_lookup k k' v o :
  prop k' (prop_replace k v o) =
  if k' =s? k then (if has_prop k o then Some v else None) else prop k' o.
Proof.
  unfold has_prop. induction o as [|[k1 v1] o IH]; cbn; [by destruct (k' =s? k)|].
  destruct (str_eqb_spec k k1) as [->|Hne]; cbn.
  - by destruct (str_eqb_spec k' k1).
  - rewrite IH. destruct (str_eqb_spec k' k1) as [->|]; [|done].
    by destruct (str_eqb_spec k1 k).
Qed.

Lemma prop_insert_index_lookup k k' v o :
  k ∉ keys o ->
  prop k' (prop_insert_index k v o) = if k' =s? k then Some v else prop k' o.
Proof.
  induction o as [|[k1 v1] o IH]; cbn; intros Hk; [done|].
  destruct (is_index k1 && (dec_val k1 <? dec_val k)); cbn; [|done].
  rewrite IH by set_solver.
  destruct (str_eqb_spec k' k1) as [->|]; [|done]. destruct (str_eqb_spec k1 k); set_solver.
Qed.

Lemma prop_set_lookup k k' v o :
  prop k' (prop_set k v o) = if k' =s? k then Some v else prop k' o.
Proof.
  unfold prop_set. destruct (has_prop k o) eqn:E.
  - rewrite prop_replace_lookup, E. done.
  - assert (Hk : prop k o = None) by (unfold has_prop in E; by destruct (prop k o)).
    destruct (is_index k).
    + apply prop_insert_index_lookup. by apply prop_None.
    + rewrite prop_app. cbn. destruct (str_eqb_spec k' k) as [->|]; [by rewrite Hk|].
      by destruct (prop k' o).
Qed.

Lemma prop_set_eq k v o : prop k (prop_set k v o) = Some v.
Proof. by rewrite prop_set_lookup, str_eqb_refl. Qed.

Lemma prop_set_ne k k' v o : k' <> k -> prop k' (prop_set k v o) = prop k' o.
Proof. intros H. rewrite prop_set_lookup. by destruct (str_eqb_spec k' k). Qed.

Lemma prop_delete_lookup k k' o :
  prop k' (prop_delete k o) = if k' =s? k then None else prop k' o.
Proof.
  unfold prop_delete. induction o as [|[k1 v1] o IH]; cbn; [by destruct (k' =s? k)|].
  destruct (str_eqb_spec k k1) as [->|]; cbn; rewrite IH.
  - by destruct (str_eqb_spec k' k1).
  - destruct (str_eqb_spec k' k1) as [->|]; [|done]. by destruct (str_eqb_spec k1 k).
Qed.

Lemma prop_insert_index_keys k v o : keys (prop_insert_index k v o) ≡ₚ k :: keys o.
Proof.
  induction o as [|[k1 v1] o IH]; cbn; [done|].
  destruct (is_index k1 && (dec_val k1 <? dec_val k)); cbn; [|done].
  rewrite IH. apply Permutation_swap.
Qed.

Lemma prop_replace_keys k v o : keys (prop_replace k v o) = keys o.
Proof.
  induction o as [|[k1 v1] o IH]; cbn; [done|]. destruct (k =s? k1); cbn; [done|]. f_equal. exact IH.
Qed.

Lemma prop_set_keys k v o :
  keys (prop_set k v o) ≡ₚ if has_prop k o then keys o else k :: keys o.
Proof.
  unfold prop_set. destruct (has_prop k o).
  { by rewrite prop_replace_keys. }
  destruct (is_index k); [apply prop_insert_index_keys|].
  unfold keys. rewrite map_app. cbn. by rewrite Permutation_app_comm.
Qed.

Lemma prop_set_NoDup k v o : NoDup (keys o) -> NoDup (keys (prop_set k v o)).
Proof.
  intros H. rewrite prop_set_keys. destruct (has_prop k o) eqn:E; [done|].
  constructor; [|done]. apply prop_None. unfold has_prop in E. by destruct (prop k o).
Qed.

Lemma elem_of_prop_set k k' v o : k' ∈ keys (prop_set k v o) <-> k' = k \/ k' ∈ keys o.
Proof.
  rewrite prop_set_keys. destruct (has_prop k o) eqn:E; [|set_solver].
  split; [tauto|]. intros [->|]; [|done]. apply prop_Some_keys.
  unfold has_prop in E. by destruct (prop k o).
Qed.

Lemma prop_assign_NoDup o1 o2 : NoDup (keys o1) -> NoDup (keys (prop_assign o1 o2)).
Proof.
  unfold prop_assign. revert o1; induction o2 as [|[k v] o2 IH]; intros o1 H; cbn; [done|].
  apply IH. by apply prop_set_NoDup.
Qed.

(** Spread: the right-hand object wins. *)
Lemma prop_assign_lookup o1 o2 k :
  NoDup (keys o2) ->
  prop k (prop_assign o1 o2) = match prop k o2 with Some v => Some v | None => prop k o1 end.
Proof.
  unfold prop_assign. revert o1; induction o2 as [|[k1 v1] o2 IH]; intros o1 H; cbn; [done|].
  apply NoDup_cons in H as [Hk H]. rewrite IH by done. rewrite prop_set_lookup.
  destruct (str_eqb_spec k k1) as [->|]; [|done].
  by rewrite (proj2 (prop_None k1 o2) Hk).
Qed.

Lemma elem_of_prop_assign o1 o2 k :
  k ∈ keys (prop_assign o1 o2) <-> k ∈ keys o1 \/ k ∈ keys o2.
Proof.
  unfold prop_assign. revert o1; induction o2 as [|[k1 v1] o2 IH]; intros o1; cbn [fold_left fst snd]; [set_solver|].
  rewrite IH, elem_of_prop_set. cbn. set_solver.
Qed.

(** A loop that sets a property per key. *)
Lemma fold_set_if (f : jsstr -> V) (c : jsstr -> bool) ks o k :
  prop k (fold_left (fun o x => if c x then prop_set x (f x) o else o) ks o)
  = if bool_decide (k ∈ ks) && c k then Some (f k) else prop k o.
Proof.
  revert o; induction ks as [|x ks IH]; intros o; cbn [fold_left]; [done|]. rewrite IH.
  destruct (decide (k ∈ ks)) as [Hin|Hin].
  - rewrite !bool_decide_eq_true_2 by (try done; by right). cbn. destruct (c k) eqn:Ec; [done|].
    destruct (c x) eqn:Ex; [|done]. rewrite prop_set_lookup. destruct (str_eqb_spec k x); [congruence|done].
  - rewrite (bool_decide_eq_false_2 (k ∈ ks)) by done. cbn. destruct (str_eqb_spec k x) as [->|Hne].
    + rewrite bool_decide_eq_true_2 by left. cbn. destruct (c x); [|done]. by rewrite prop_set_eq.
    + rewrite bool_decide_eq_false_2 by set_solver. cbn. destruct (c x); [|done]. by rewrite prop_set_ne.
Qed.

Lemma fold_set_lookup (f : jsstr -> V) ks o k :
  prop k (fold_left (fun o x => prop_set x (f x) o) ks o)
  = if bool_decide (k ∈ ks) then Some (f k) else prop k o.
Proof.
  rewrite <- (andb_true_r (bool_decide _)). exact (fold_set_if f (fun _ => true) ks o k).
Qed.

End PropLemmas.

(** ** Enumeration order *)

Lemma is_digit_range c : is_digit c = true -> 48 <= c <= 57.
Proof. unfold is_digit. lia. Qed.

Lemma dec_val_nonneg s : forallb is_digit s = true -> 0 <= dec_val s.
Proof.
  induction s as [|c s IH] using rev_ind; [done|]. rewrite forallb_app. cbn. intros H. bsplit.
  rewrite dec_val_snoc. specialize (IH H). apply is_digit_range in H0. lia.
Qed.

(** A decimal without leading zeros. *)
Definition no_zero (s : jsstr) : Prop := hd 48 s <> 48.

Lemma dec_val_pos s : forallb is_digit s = true -> no_zero s -> 1 <= dec_val s.
Proof.
  induction s as [|c s IH] using rev_ind; [done|]. rewrite forallb_app. cbn. intros H Hz. bsplit.
  rewrite dec_val_snoc. apply is_digit_range in H0. destruct s as [|d s]; unfold no_zero in Hz; cbn in Hz.
  - unfold dec_val; cbn. lia.
  - assert (1 <= dec_val (d :: s)) by (by apply IH). lia.
Qed.

Lemma dec_val_inj a b :
  forallb is_digit a = true -> forallb is_digit b = true ->
  (no_zero a \/ length a = 1%nat) -> (no_zero b \/ length b = 1%nat) -> dec_val a = dec_val b -> a = b.
Proof.
  revert b; induction a as [|c a IH] using rev_ind; intros b Ha Hb Za Zb E.
  { by destruct Za. }
  destruct b as [|d b _] using rev_ind; [by destruct Zb|].
  rewrite !forallb_app in Ha, Hb. cbn in Ha, Hb. bsplit. rewrite !dec_val_snoc in E.
  repeat match goal with H : is_digit _ = true |- _ => apply is_digit_range in H end.
  assert (c = d /\ dec_val a = dec_val b) as [-> E'] by lia.
  destruct a as [|x a], b as [|y b].
  - done.
  - exfalso. assert (1 <= dec_val (y :: b)); [|by rewrite <- E' in *].
    apply dec_val_pos; [done|]. destruct Zb as [Z|Z]; [done|]. rewrite length_app in Z. cbn in Z. lia.
  - exfalso. assert (1 <= dec_val (x :: a)); [|by rewrite E' in *].
    apply dec_val_pos; [done|]. destruct Za as [Z|Z]; [done|]. rewrite length_app in Z. cbn in Z. lia.
  - rewrite (IH (y :: b)); [done|done|done|..|done].
    + destruct Za as [Z|Z]; [by left|]. rewrite length_app in Z. cbn in Z. lia.
    + destruct Zb as [Z|Z]; [by left|]. rewrite length_app in Z. cbn in Z. lia.
Qed.

Lemma is_index_inj a b : is_index a = true -> is_index b = true -> dec_val a = dec_val b -> a = b.
Proof.
  assert (H : forall s, is_index s = true -> forallb is_digit s = true /\ (no_zero s \/ length s = 1%nat)).
  { intros [|c s]; [done|]. unfold is_index. intros H. bsplit. split; [done|].
    apply orb_true_iff in H1 as [Hc|Hs]; bsplit.
    - left. unfold no_zero. cbn. by apply Z.eqb_neq.
    - right. by destruct s. }
  intros [? ?]%H [? ?]%H. by apply dec_val_inj.
Qed.

(** [k] enumerates before [k']. *)
Definition before (k k' : jsstr) : Prop :=
  match is_index k, is_index k' with
  | true, true => dec_val k < dec_val k'
  | true, false => True
  | false, true => False
  | false, false => k <> k'
  end.

Lemma before_ne k k' : before k k' -> k <> k'.
Proof. intros H ->. unfold before in H. destruct (is_index k'); [lia|done]. Qed.

Section Canonical.
Context {V : Type}.
Implicit Types (o : list (jsstr * V)).

(** The own properties in enumeration order, without duplicates. *)
Definition canonical o : Prop := StronglySorted before (keys o).

Lemma prop_set_last k (v : V) o : Forall (fun k' => before k' k) (keys o) -> prop_set k v o = o ++ [(k, v)].
Proof.
  intros H. unfold prop_set.
  assert (has_prop k o = false) as ->.
  { unfold has_prop. rewrite (proj2 (prop_None k o)); [done|]. intros Hin.
    rewrite Forall_forall in H. by apply (before_ne k k (H k Hin)). }
  destruct (is_index k) eqn:Ek; [|done].
  induction o as [|[k1 v1] o IH]; [done|]. cbn in *. inversion_clear H as [|? ? Hb Ho].
  unfold before in Hb. rewrite Ek in Hb. destruct (is_index k1); [|done].
  rewrite (proj2 (Z.ltb_lt _ _) Hb). cbn. by rewrite IH.
Qed.

Lemma canonical_app_l o1 o2 : canonical (o1 ++ o2) -> canonical o1.
Proof.
  unfold canonical, keys. rewrite map_app. induction (map fst o1) as [|k l IH]; cbn; [constructor|].
  inversion_clear 1 as [|? ? Hs Hf]. constructor; [by apply IH|]. by apply Forall_app in Hf as [? _].
Qed.

Lemma canonical_snoc o k (v : V) : canonical (o ++ [(k, v)]) -> Forall (fun k' => before k' k) (keys o).
Proof.
  unfold canonical, keys. rewrite map_app. cbn. induction (map fst o) as [|k1 l IH]; cbn; [constructor|].
  inversion_clear 1 as [|? ? Hs Hf]. constructor; [|by apply IH]. apply Forall_app in Hf as [_ Hf].
  by inversion_clear Hf.
Qed.

Lemma prop_assign_canonical o1 o2 : canonical (o1 ++ o2) -> prop_assign o1 o2 = o1 ++ o2.
Proof.
  unfold prop_assign. revert o1; induction o2 as [|[k v] o2 IH]; intros o1 H; cbn; [by rewrite app_nil_r|].
  assert (Hs : prop_set k v o1 = o1 ++ [(k, v)]).
  { apply prop_set_last, (canonical_snoc _ _ v). apply (canonical_app_l _ o2). by rewrite <- app_assoc. }
  rewrite Hs, IH; by rewrite <- app_assoc.
Qed.

(** Rebuilding an object property by property gives the object. *)
Lemma props_of_canonical o : canonical o -> props_of o = o.
Proof. apply (prop_assign_canonical []). Qed.

Lemma prop_insert_index_canonical k (v : V) o :
  is_index k = true -> k ∉ keys o -> canonical o -> canonical (prop_insert_index k v o).
Proof.
  intros Hi. unfold canonical. induction o as [|[k1 v1] o IH]; cbn; intros Hk Hs.
  { repeat constructor. }
  inversion_clear Hs as [|? ? Hs' Hf]. destruct (is_index k1 && (dec_val k1 <? dec_val k)) eqn:E; cbn.
  - bsplit. constructor; [apply IH; set_solver|]. fold (keys (prop_insert_index k v o)); rewrite prop_insert_index_keys. constructor; [|done].
    unfold before. rewrite Hi. destruct (is_index k1); [by apply Z.ltb_lt|done].
  - constructor; [by constructor|]. constructor.
    + unfold before. rewrite Hi. destruct (is_index k1) eqn:E1; [|done]. cbn in E.
      apply Z.ltb_ge in E. destruct (Z.eq_dec (dec_val k) (dec_val k1)) as [Eq|]; [|lia].
      apply is_index_inj in Eq as ->; [set_solver|done..].
    + eapply Forall_impl; [exact Hf|]. intros x Hx. unfold before in *. rewrite Hi.
      destruct (is_index k1) eqn:E1; destruct (is_index x); try done. cbn in E. apply Z.ltb_ge in E. lia.
Qed.

Lemma prop_set_canonical k (v : V) o : canonical o -> canonical (prop_set k v o).
Proof.
  intros H. unfold prop_set. destruct (has_prop k o) eqn:E; [by unfold canonical; rewrite prop_replace_keys|].
  assert (Hk : k ∉ keys o) by (apply prop_None; unfold has_prop in E; by destruct (prop k o)).
  destruct (is_index k) eqn:Ei; [by apply prop_insert_index_canonical|].
  unfold canonical, keys in *. rewrite map_app. cbn. induction (map fst o) as [|k1 l IH]; cbn.
  { repeat constructor. }
  inversion_clear H as [|? ? Hs Hf]. constructor; [apply IH; [done|set_solver]|].
  apply Forall_app. split; [done|]. constructor; [|done]. unfold before. rewrite Ei.
  destruct (is_index k1); [done|]. set_solver.
Qed.

Lemma prop_assign_is_canonical o1 o2 : canonical o1 -> canonical (prop_assign o1 o2).
Proof.
  unfold prop_assign. revert o1; induction o2 as [|[k v] o2 IH]; intros o1 H; cbn; [done|].
  by apply IH, prop_set_canonical.
Qed.

Lemma prop_set_Forall (P : jsstr * V -> Prop) k v o :
  P (k, v) -> Forall P o -> Forall P (prop_set k v o).
Proof.
  intros Hk Ho. unfold prop_set. destruct (has_prop k o); [|destruct (is_index k)].
  - induction Ho as [|[k1 v1] o H1 Ho IH]; cbn; [constructor|].
    destruct (str_eqb_spec k k1) as [->|]; by constructor.
  - induction Ho as [|[k1 v1] o H1 Ho IH]; cbn; [by constructor|].
    destruct (_ && _)%bool; repeat constructor; done.
  - apply Forall_app. by split; [|constructor].
Qed.

End Canonical.

#[export] Hint Rewrite @prop_set_eq : jsrw.
#[export] Hint Resolve prop_set_NoDup prop_assign_NoDup : jsdb.
