(* ===== verification/Json.v ===== *)
(** * JSON: [JSON.parse] and [JSON.stringify]

    The parser is a recursive descent with a fuel argument; [parse] gives it
    twice the length of the text plus two.  [parse_stringify] shows that the
    printed form of any JSON value is read back, for every indentation. *)
From S2P Require Import Prelude JSNum JSValue.
#[local] Open Scope Z_scope.

(** ** Printing *)

Definition hex_digit (d : Z) : Z := if d <? 10 then 48 + d else 87 + d.

(** [\uXXXX] *)
Definition u_escape (c : Z) : jsstr :=
  [92; 117; hex_digit (c / 4096 mod 16); hex_digit (c / 256 mod 16);
   hex_digit (c / 16 mod 16); hex_digit (c mod 16)].

Definition is_lead (c : Z) : bool := (55296 <=? c) && (c <=? 56319).
Definition is_trail (c : Z) : bool := (56320 <=? c) && (c <=? 57343).

Definition quote_unit (c : Z) : jsstr :=
  if c =? 34 then [92; 34]
  else if c =? 92 then [92; 92]
  else if c =? 8 then [92; 98]
  else if c =? 9 then [92; 116]
  else if c =? 10 then [92; 110]
  else if c =? 12 then [92; 102]
  else if c =? 13 then [92; 114]
  else if c <? 32 then u_escape c
  else [c].

(** Lone surrogates are escaped, pairs are kept. *)
Fixpoint quote_body (s : jsstr) : jsstr :=
  match s with
  | [] => []
  | c :: r =>
    if is_lead c then
      match r with
      | d :: r' => if is_trail d then c :: d :: quote_body r' else u_escape c ++ quote_body r
      | [] => u_escape c
      end
    else if is_trail c then u_escape c ++ quote_body r
    else quote_unit c ++ quote_body r
  end.

Definition quote (s : jsstr) : jsstr := [34] ++ quote_body s ++ [34].

(** Line break and indentation before an element. *)
Definition nl (gap ind : jsstr) : jsstr := match gap with [] => [] | _ => 10 :: ind end.

Definition wrap (gap ind : jsstr) (op cl : Z) (parts : list jsstr) : jsstr :=
  match parts with
  | [] => [op; cl]
  | _ => [op] ++ nl gap (ind ++ gap) ++ join ([44] ++ nl gap (ind ++ gap)) parts
         ++ nl gap ind ++ [cl]
  end.

Definition colon (gap : jsstr) : jsstr := match gap with [] => [58] | _ => [58; 32] end.

(** [None]: [JSON.stringify] returned [undefined]. *)
Fixpoint ser (gap ind : jsstr) (v : val) : option jsstr :=
  match v with
  | VUndef => None
  | VNull => Some $"null"
  | VBool true => Some $"true"
  | VBool false => Some $"false"
  | VNum n => Some (if isFinite n then String_num n else $"null")
  | VStr s => Some (quote s)
  | VArr l =>
    Some (wrap gap ind 91 93
            (map (fun x => default $"null" (ser gap (ind ++ gap) x)) l))
  | VObj o =>
    Some (wrap gap ind 123 125
            (flat_map (fun kv => match ser gap (ind ++ gap) kv.2 with
                                 | None => []
                                 | Some s => [quote kv.1 ++ colon gap ++ s]
                                 end) o))
  end.

(** [JSON.stringify(v)] and [JSON.stringify(v, null, 2)]. *)
Definition stringify (v : val) : option jsstr := ser [] [] v.
Definition stringify2 (v : val) : option jsstr := ser [32; 32] [] v.

(** ** Parsing *)

Definition json_ws (c : Z) : bool := (c =? 32) || (c =? 9) || (c =? 10) || (c =? 13).

Fixpoint skip_ws (s : jsstr) : jsstr :=
  match s with
  | c :: r => if json_ws c then skip_ws r else s
  | [] => []
  end.

Definition unhex (c : Z) : option Z :=
  if is_digit c then Some (c - 48)
  else if (97 <=? c) && (c <=? 102) then Some (c - 87)
  else if (65 <=? c) && (c <=? 70) then Some (c - 55)
  else None.

Definition hex4 (a b c d : Z) : option Z :=
  match unhex a, unhex b, unhex c, unhex d with
  | Some x, Some y, Some z, Some w => Some (x * 4096 + y * 256 + z * 16 + w)
  | _, _, _, _ => None
  end.

Definition unescape (e : Z) : option Z :=
  if e =? 34 then Some 34 else if e =? 92 then Some 92 else if e =? 47 then Some 47
  else if e =? 98 then Some 8 else if e =? 102 then Some 12 else if e =? 110 then Some 10
  else if e =? 114 then Some 13 else if e =? 116 then Some 9 else None.

Definition cons1 (c : Z) (r : option (jsstr * jsstr)) : option (jsstr * jsstr) :=
  match r with Some (s, t) => Some (c :: s, t) | None => None end.

(** The characters of a string literal after its opening quote. *)
Fixpoint jstr (s : jsstr) : option (jsstr * jsstr) :=
  match s with
  | [] => None
  | c :: r =>
    if c =? 34 then Some ([], r)
    else if c =? 92 then
      match r with
      | [] => None
      | e :: r1 =>
        if e =? 117 then
          match r1 with
          | a :: b :: x :: y :: r2 =>
            match hex4 a b x y with Some u => cons1 u (jstr r2) | None => None end
          | _ => None
          end
        else match unescape e with Some u => cons1 u (jstr r1) | None => None end
      end
    else if c <? 32 then None
    else cons1 c (jstr r)
  end.

Definition scan_minus (s : jsstr) : bool * jsstr :=
  match s with
  | c :: t => if c =? 45 then (true, t) else (false, s)
  | [] => (false, [])
  end.

(** The fraction digits: a point must be followed by a digit. *)
Definition scan_frac (s : jsstr) : option (jsstr * jsstr) :=
  match s with
  | c :: t =>
    if c =? 46 then match span_digits t with ([], _) => None | (f, t') => Some (f, t') end
    else Some ([], s)
  | [] => Some ([], [])
  end.

Definition at_exponent (s : jsstr) : bool :=
  match s with c :: _ => (c =? 101) || (c =? 69) | [] => false end.

(** [-? (0 | [1-9] digits) (. digits)? ([eE] [+-]? digits)?] *)
Definition jnum (s : jsstr) : option (num * jsstr) :=
  let '(neg, u) := scan_minus s in
  let '(ip, r) := span_digits u in
  if negb (nonempty ip) || ((hd 0 ip =? 48) && (1 <? length ip)%nat) then None
  else match scan_frac r with
       | None => None
       | Some (f, r') =>
         let '(e, r'') := scan_exponent r' in
         if at_exponent r' && bool_decide (r'' = r') then None
         else Some (num_of_decimal neg (dec_val (ip ++ f)) (e - Z.of_nat (length f)), r'')
       end.

(** Skip white space and the character [c]. *)
Definition eat (c : Z) (s : jsstr) : option jsstr :=
  match skip_ws s with
  | x :: r => if x =? c then Some r else None
  | [] => None
  end.

Fixpoint jvalue (fuel : nat) (s : jsstr) {struct fuel} : option (val * jsstr) :=
  match fuel with
  | O => None
  | S f =>
    match skip_ws s with
    | [] => None
    | c :: r =>
      if c =? 34 then match jstr r with Some (t, r') => Some (VStr t, r') | None => None end
      else if c =? 91 then
        match eat 93 r with
        | Some r' => Some (VArr [], r')
        | None => match jelems f r with Some (l, r') => Some (VArr l, r') | None => None end
        end
      else if c =? 123 then
        match eat 125 r with
        | Some r' => Some (VObj [], r')
        | None => match jmembers f r with Some (l, r') => Some (VObj (props_of l), r') | None => None end
        end
      else if startsWith $"true" (c :: r) then Some (VBool true, drop 3 r)
      else if startsWith $"false" (c :: r) then Some (VBool false, drop 4 r)
      else if startsWith $"null" (c :: r) then Some (VNull, drop 3 r)
      else match jnum (c :: r) with Some (n, r') => Some (VNum n, r') | None => None end
    end
  end
with jelems (fuel : nat) (s : jsstr) {struct fuel} : option (list val * jsstr) :=
  match fuel with
  | O => None
  | S f =>
    match jvalue f s with
    | None => None
    | Some (v, r) =>
      match eat 44 r with
      | Some r' => match jelems f r' with Some (l, r'') => Some (v :: l, r'') | None => None end
      | None => match eat 93 r with Some r' => Some ([v], r') | None => None end
      end
    end
  end
with jmembers (fuel : nat) (s : jsstr) {struct fuel} : option (object * jsstr) :=
  match fuel with
  | O => None
  | S f =>
    match eat 34 s with
    | None => None
    | Some r =>
      match jstr r with
      | None => None
      | Some (k, r1) =>
        match eat 58 r1 with
        | None => None
        | Some r2 =>
          match jvalue f r2 with
          | None => None
          | Some (v, r3) =>
            match eat 44 r3 with
            | Some r4 => match jmembers f r4 with Some (l, r5) => Some ((k, v) :: l, r5) | None => None end
            | None => match eat 125 r3 with Some r4 => Some ([(k, v)], r4) | None => None end
            end
          end
        end
      end
    end
  end.

(** [JSON.parse(s)]; [None] is a thrown [SyntaxError]. *)
Definition parse (s : jsstr) : option val :=
  match jvalue (2 * length s + 2) s with
  | Some (v, r) => match skip_ws r with [] => Some v | _ => None end
  | None => None
  end.

(** * Round trip *)

Definition unit16 (c : Z) : Prop := 0 <= c < 65536.
Definition is_ws_str (w : jsstr) : Prop := forallb json_ws w = true.

(** What may follow a number in JSON text. *)
Definition delim (rest : jsstr) : Prop :=
  match rest with
  | [] => True
  | c :: _ => is_digit c = false /\ c <> 46 /\ c <> 101 /\ c <> 69
  end.

(** JSON values whose numbers print to a literal that denotes them; objects in
    enumeration order without duplicate keys. *)
Fixpoint json_wf (v : val) : Prop :=
  match v with
  | VUndef => False
  | VNull | VBool _ => True
  | VNum n => isFinite n = true /\ jnum (String_num n) = Some (n, [])
  | VStr s => Forall unit16 s
  | VArr l => (fix go (l : list val) : Prop :=
                 match l with [] => True | x :: r => json_wf x /\ go r end) l
  | VObj o => props_of o = o /\
              (fix go (o : object) : Prop :=
                 match o with
                 | [] => True
                 | (k, x) :: r => Forall unit16 k /\ json_wf x /\ go r
                 end) o
  end.

Lemma json_wf_arr l : json_wf (VArr l) <-> Forall json_wf l.
Proof.
  cbn. induction l as [|x l IH]; [by split|]. rewrite Forall_cons, <- IH. done.
Qed.

Lemma json_wf_obj o :
  json_wf (VObj o) <->
  props_of o = o /\ Forall (fun kv => Forall unit16 kv.1 /\ json_wf kv.2) o.
Proof.
  cbn. apply and_iff_compat_l.
  induction o as [|[k x] o IH]; [by split|]. rewrite Forall_cons, <- IH. cbn. tauto.
Qed.

(** ** Objects with known keys *)

Lemma unit16_check s : forallb (fun c => (0 <=? c) && (c <? 65536)) s = true -> Forall unit16 s.
Proof.
  rewrite forallb_forall. intros H. apply Forall_forall. intros c Hc%list_elem_of_In%H. unfold unit16. lia.
Qed.

(** Distinct names that are not array indices. *)
Definition plain_keys (ks : list jsstr) : bool :=
  bool_decide (NoDup ks)
  && forallb (fun k => negb (is_index k) && forallb (fun c => (0 <=? c) && (c <? 65536)) k) ks.

Lemma plain_keys_canonical ks (o : object) : plain_keys ks = true -> keys o `sublist_of` ks -> canonical o.
Proof.
  intros [Hd%bool_decide_eq_true Hf]%andb_true_iff Hs. unfold canonical.
  assert (Hi : Forall (fun k => is_index k = false) (keys o)).
  { apply Forall_forall. intros k Hk. rewrite forallb_forall in Hf.
    assert (In k ks) as H%Hf by (apply list_elem_of_In; by eapply elem_of_sublist). by bsplit. }
  apply (sublist_NoDup _ _ Hd) in Hs. clear -Hs Hi.
  induction (keys o) as [|k l IH]; [constructor|]. apply NoDup_cons in Hs as [Hk Hs]. inversion_clear Hi as [|?? Hik Hil].
  constructor; [by apply IH|]. apply Forall_forall. intros k' Hk'. unfold before. rewrite Forall_forall in Hil.
  rewrite Hik, (Hil _ Hk'). by intros ->.
Qed.

Lemma json_wf_plain ks (o : object) :
  plain_keys ks = true -> keys o `sublist_of` ks -> Forall (fun kv => json_wf kv.2) o -> json_wf (VObj o).
Proof.
  intros Hk Hs Hv. apply json_wf_obj. split; [by eapply props_of_canonical, plain_keys_canonical|].
  rewrite Forall_forall in *. intros [k v] Hkv. split; [|by apply Hv].
  apply andb_true_iff in Hk as [_ Hk]. rewrite forallb_forall in Hk.
  assert (In k ks) as H%Hk; [|bsplit; by apply unit16_check].
  apply list_elem_of_In. eapply elem_of_sublist; [|exact Hs]. apply list_elem_of_fmap. by exists (k, v).
Qed.

(** ** Strings *)

Lemma unhex_hex_digit d : 0 <= d < 16 -> unhex (hex_digit d) = Some d.
Proof.
  intros H.
  assert (d = 0 \/ d = 1 \/ d = 2 \/ d = 3 \/ d = 4 \/ d = 5 \/ d = 6 \/ d = 7 \/ d = 8
    \/ d = 9 \/ d = 10 \/ d = 11 \/ d = 12 \/ d = 13 \/ d = 14 \/ d = 15) by lia.
  naive_solver.
Qed.

Lemma jstr_u_escape c t :
  unit16 c -> jstr (u_escape c ++ t) = cons1 c (jstr t).
Proof.
  unfold unit16. intros H. unfold u_escape.
  cbn -[Z.div Z.modulo hex4 hex_digit jstr].
  assert (Hh : hex4 (hex_digit (c / 4096 mod 16)) (hex_digit (c / 256 mod 16))
               (hex_digit (c / 16 mod 16)) (hex_digit (c mod 16)) = Some c).
  { unfold hex4. rewrite !unhex_hex_digit by (apply Z.mod_pos_bound; lia). f_equal.
    Z.div_mod_to_equations. lia. }
  cbn -[Z.div Z.modulo hex4 hex_digit]. by rewrite Hh.
Qed.

Lemma jstr_quote_unit c t :
  unit16 c -> jstr (quote_unit c ++ t) = cons1 c (jstr t).
Proof.
  intros H. unfold quote_unit.
  repeat (match goal with |- context [?a =? ?b] =>
            is_var a; destruct (Z.eqb_spec a b); [subst; reflexivity|] end).
  destruct (Z.ltb_spec c 32); [by apply jstr_u_escape|].
  cbn. destruct (Z.eqb_spec c 34), (Z.eqb_spec c 92); try done.
  by destruct (Z.ltb_spec c 32); [lia|].
Qed.

Lemma jstr_raw c t : 92 < c -> jstr (c :: t) = cons1 c (jstr t).
Proof.
  intros H. cbn. destruct (Z.eqb_spec c 34), (Z.eqb_spec c 92), (Z.ltb_spec c 32); done || lia.
Qed.

(** A quoted string is read back, whatever follows the closing quote. *)
Lemma jstr_quote s rest :
  Forall unit16 s -> jstr (quote_body s ++ 34 :: rest) = Some (s, rest).
Proof.
  remember (length s) as n eqn:En. revert s En.
  induction n as [n IH] using (well_founded_induction lt_wf). intros s -> Hs.
  destruct s as [|c r]; [done|]. apply Forall_cons in Hs as [Hc Hr].
  cbn [quote_body]. destruct (is_lead c) eqn:El.
  - assert (92 < c) by (unfold is_lead in El; bsplit; rewrite Z.leb_le in *; lia).
    destruct r as [|d r'].
    + rewrite jstr_u_escape by done. done.
    + destruct (is_trail d) eqn:Et.
      * assert (92 < d) by (unfold is_trail in Et; bsplit; rewrite Z.leb_le in *; lia).
        apply Forall_cons in Hr as [_ Hr'].
        cbn [app]. rewrite !jstr_raw by done. by rewrite (IH (length r')) by (cbn; auto with lia).
      * rewrite <- app_assoc, jstr_u_escape by done. rewrite (IH (length (d :: r'))); cbn; auto with lia.
  - destruct (is_trail c).
    + rewrite <- app_assoc, jstr_u_escape by done. rewrite (IH (length r)); cbn; auto with lia.
    + rewrite <- app_assoc, jstr_quote_unit by done. rewrite (IH (length r)); cbn; auto with lia.
Qed.

(** ** Numbers *)

Lemma span_digits_app s rest d t :
  span_digits s = (d, t) ->
  match t with [] => match rest with [] => True | c :: _ => is_digit c = false end | _ => True end ->
  span_digits (s ++ rest) = (d, t ++ rest).
Proof.
  revert d t; induction s as [|c s IH]; cbn; intros d t E H.
  - simplify_eq. destruct rest as [|c r]; [done|]. cbn. by rewrite H.
  - destruct (is_digit c); [|by simplify_eq].
    destruct (span_digits s) as [d' t'] eqn:F. simplify_eq.
    by rewrite (IH d' t eq_refl H).
Qed.

Lemma delim_digit rest : delim rest -> match rest with [] => True | c :: _ => is_digit c = false end.
Proof. destruct rest; cbn; tauto. Qed.

Lemma scan_exponent_app s rest e t :
  delim rest -> scan_exponent s = (e, t) ->
  (t = s -> at_exponent s = false) ->
  scan_exponent (s ++ rest) = (e, t ++ rest).
Proof.
  intros Hd E Hns. destruct s as [|c s].
  { cbn in *. simplify_eq. destruct rest as [|c r]; [done|]. cbn in *.
    destruct (Z.eqb_spec c 101), (Z.eqb_spec c 69); naive_solver. }
  cbn in *.
  destruct ((c =? 101) || (c =? 69)) eqn:Hc; [|by simplify_eq].
  match type of E with context [let '(_, _) := ?m in _] => destruct m as [g r'] eqn:Hsg end.
  destruct (span_digits r') as [d u] eqn:F.
  destruct d as [|x d]; [simplify_eq; naive_solver|]. simplify_eq.
  assert (Hr : match s ++ rest with 43 :: t0 => (1, t0) | 45 :: t0 => (-1, t0) | _ => (1, s ++ rest) end
               = (g, r' ++ rest)).
  { destruct s as [|y s]; [simplify_eq/=|].
    cbn. destruct y as [|p|p]; [by simplify_eq| |by simplify_eq].
    repeat (destruct p as [p|p|]; try by simplify_eq). }
  rewrite Hr. rewrite (span_digits_app _ _ _ _ F); [done|].
  destruct t; [by apply delim_digit|done].
Qed.

Lemma scan_frac_app s rest f t :
  delim rest -> scan_frac s = Some (f, t) -> scan_frac (s ++ rest) = Some (f, t ++ rest).
Proof.
  intros Hd. destruct s as [|c s]; cbn.
  - intros; simplify_eq. destruct rest as [|c r]; [done|]. cbn in *.
    destruct (Z.eqb_spec c 46); naive_solver.
  - destruct (c =? 46); [|intros; by simplify_eq].
    destruct (span_digits s) as [d u] eqn:F. destruct d; [done|]. intros; simplify_eq.
    rewrite (span_digits_app _ _ _ _ F); [done|]. destruct t; [by apply delim_digit|done].
Qed.

Lemma jnum_app s rest n :
  delim rest -> jnum s = Some (n, []) -> jnum (s ++ rest) = Some (n, rest).
Proof.
  unfold jnum. intros Hd H.
  destruct s as [|c s]; [done|]. cbn [scan_minus app] in *.
  set (ru := if c =? 45 then (true, s) else (false, c :: s)) in *.
  assert (Hr : (if c =? 45 then (true, s ++ rest) else (false, c :: s ++ rest))
               = (ru.1, ru.2 ++ rest)) by (subst ru; by destruct (c =? 45)).
  rewrite Hr. destruct ru as [neg u]. cbn [fst snd].
  destruct (span_digits u) as [ip r] eqn:F.
  rewrite (span_digits_app _ rest _ _ F) by (destruct r; [by apply delim_digit|done]).
  destruct (_ || _); [done|].
  destruct (scan_frac r) as [[f r']|] eqn:G; [|done].
  rewrite (scan_frac_app _ _ _ _ Hd G).
  destruct (scan_exponent r') as [e r''] eqn:E.
  destruct (at_exponent r' && bool_decide (r'' = r')) eqn:B; [done|]. simplify_eq.
  rewrite (scan_exponent_app _ rest _ _ Hd E).
  2:{ intros <-. done. }
  destruct (at_exponent (r' ++ rest) && bool_decide ([] ++ rest = r' ++ rest)) eqn:B'; [|done].
  bsplit. rename H0 into Hb. apply bool_decide_eq_true in Hb.
  destruct r' as [|x r']; [|apply (f_equal length) in Hb; rewrite !length_app in Hb; cbn in Hb; lia].
  cbn in H. destruct rest as [|y rest]; [done|]. cbn in *.
  apply orb_true_iff in H as [H%Z.eqb_eq|H%Z.eqb_eq]; naive_solver.
Qed.

(** ** White space *)

Lemma skip_ws_app w s : is_ws_str w -> skip_ws (w ++ s) = skip_ws s.
Proof.
  unfold is_ws_str. induction w as [|c w IH]; cbn; intros H; [done|].
  bsplit. rewrite H. by apply IH.
Qed.

Lemma skip_ws_id c s : json_ws c = false -> skip_ws (c :: s) = c :: s.
Proof. intros H. cbn. by rewrite H. Qed.

Lemma eat_here c w r : is_ws_str w -> json_ws c = false -> eat c (w ++ c :: r) = Some r.
Proof. intros Hw Hc. unfold eat. rewrite skip_ws_app, skip_ws_id by done. by rewrite Z.eqb_refl. Qed.

Lemma eat_other c x w r :
  is_ws_str w -> json_ws x = false -> x <> c -> eat c (w ++ x :: r) = None.
Proof.
  intros Hw Hx Hne. unfold eat. rewrite skip_ws_app, skip_ws_id by done.
  by destruct (Z.eqb_spec x c).
Qed.

Lemma nl_ws gap ind : is_ws_str gap -> is_ws_str ind -> is_ws_str (nl gap ind).
Proof. unfold is_ws_str, nl. by destruct gap. Qed.

Lemma ws_app a b : is_ws_str a -> is_ws_str b -> is_ws_str (a ++ b).
Proof. unfold is_ws_str. intros Ha Hb. by rewrite forallb_app, Ha, Hb. Qed.

Lemma ws_delim w s : is_ws_str w -> delim s -> delim (w ++ s).
Proof.
  unfold is_ws_str. destruct w as [|c w]; cbn; [done|]. intros H _. bsplit.
  unfold json_ws in H. repeat (apply orb_true_iff in H as [H|H]);
    apply Z.eqb_eq in H as ->; done.
Qed.

Lemma jnum_head s n r : jnum s = Some (n, r) -> exists c t, s = c :: t /\ (c = 45 \/ is_digit c = true).
Proof.
  unfold jnum. destruct s as [|c s]; [done|]. cbn [scan_minus].
  destruct (Z.eqb_spec c 45); [naive_solver|]. cbn [span_digits].
  destruct (is_digit c) eqn:E; [naive_solver|done].
Qed.

(** The first character of a printed value: never white space nor a closing
    bracket. *)
Lemma ser_head gap ind v text :
  json_wf v -> ser gap ind v = Some text ->
  exists c t, text = c :: t /\ json_ws c = false /\ c <> 93 /\ c <> 125.
Proof.
  destruct v as [| |[]|n|s|l|o]; cbn [ser]; intros Hw E; simplify_eq; js_lit;
    try (by eexists _, _); try done.
  - destruct Hw as [Hf Hn]. rewrite Hf.
    destruct (jnum_head _ _ _ Hn) as (c & t & -> & Hc). exists c, t. split; [done|].
    destruct Hc as [->|Hc]; [done|]. unfold is_digit in Hc. bsplit. rewrite Z.leb_le in *.
    unfold json_ws. repeat split; lia.
  - unfold wrap. destruct (map _ _); cbn; by eexists _, _.
  - unfold wrap. destruct (flat_map _ _); cbn; by eexists _, _.
Qed.

(** ** The ends of a printed value *)

(** Empty, or ending in a digit. *)
Definition digit_end (s : jsstr) : Prop := s = [] \/ exists p c, s = p ++ [c] /\ is_digit c = true.

Lemma digit_end_app a b : digit_end a -> digit_end b -> digit_end (a ++ b).
Proof.
  intros Ha [->|(p & c & -> & Hc)]; [by rewrite app_nil_r|]. right. exists (a ++ p), c. by rewrite app_assoc.
Qed.

Lemma span_digits_end s d t : span_digits s = (d, t) -> s = d ++ t /\ digit_end d.
Proof.
  revert d t. induction s as [|c s IH]; intros d t; cbn; [intros [= <- <-]; split; [done|by left]|].
  destruct (is_digit c) eqn:Ec; [|intros [= <- <-]; split; [done|by left]].
  destruct (span_digits s) as [d' t'] eqn:E. intros [= <- <-]. destruct (IH d' t' eq_refl) as [-> H]. split; [done|].
  apply (digit_end_app [c]); [|done]. right. by exists [], c.
Qed.

Lemma digit_end_mid a b : b <> [] -> digit_end b -> digit_end (a ++ b).
Proof. intros Hb [->|(p & c & -> & Hc)]; [done|]. right. exists (a ++ p), c. by rewrite app_assoc. Qed.

Lemma scan_frac_end s f t : scan_frac s = Some (f, t) -> exists p, s = p ++ t /\ digit_end p.
Proof.
  destruct s as [|c s]; cbn; [intros [= <- <-]; exists []; split; [done|by left]|].
  destruct (c =? 46); [|intros [= <- <-]; exists []; split; [done|by left]].
  destruct (span_digits s) as [[|x d] u] eqn:F; [done|]. intros [= <- <-]. apply span_digits_end in F as [-> Hd].
  exists (c :: x :: d). split; [done|]. by apply (digit_end_mid [c]).
Qed.

Lemma scan_exponent_end s e t : scan_exponent s = (e, t) -> exists p, s = p ++ t /\ digit_end p.
Proof.
  destruct s as [|c s]; cbn; [intros [= <- <-]; exists []; split; [done|by left]|].
  destruct ((c =? 101) || (c =? 69)); [|intros [= <- <-]; exists []; split; [done|by left]].
  match goal with |- context [let '(_, _) := ?m in _] => destruct m as [g r'] eqn:Hsg end.
  assert (Hr : exists q, s = q ++ r').
  { destruct s as [|y s]; [exists []; by simplify_eq|]. destruct y as [|p|p]; [exists []; by simplify_eq| |exists []; by simplify_eq].
    repeat (destruct p as [p|p|]; try (by exists []; simplify_eq); try (by eexists [_]; simplify_eq)). }
  destruct Hr as [q ->]. destruct (span_digits r') as [[|x d] u] eqn:F.
  - intros [= <- <-]. exists []. split; [done|by left].
  - intros [= <- <-]. apply span_digits_end in F as [-> Hd]. exists (c :: q ++ x :: d). split.
    + cbn. by rewrite <- app_assoc.
    + by apply (digit_end_mid (c :: q)).
Qed.

Lemma jnum_end s n : jnum s = Some (n, []) -> exists p c, s = p ++ [c] /\ is_digit c = true.
Proof.
  unfold jnum. destruct (scan_minus s) as [neg u] eqn:Em.
  assert (exists m, s = m ++ u) as [m ->].
  { destruct s as [|c s]; cbn in Em; [injection Em as _ <-; by exists []|].
    destruct (c =? 45); injection Em as _ <-; [by exists [c]|by exists []]. }
  destruct (span_digits u) as [ip r] eqn:F. destruct ip as [|x ip]; [done|]. destruct (_ || _); [done|].
  destruct (scan_frac r) as [[f r']|] eqn:G; [|done]. destruct (scan_exponent r') as [e r''] eqn:E.
  destruct (_ && _); [done|]. intros [= _ ->].
  apply span_digits_end in F as [-> H1]. apply scan_frac_end in G as (p2 & -> & H2).
  apply scan_exponent_end in E as (p3 & -> & H3). rewrite app_nil_r.
  destruct (digit_end_app _ _ H1 (digit_end_app _ _ H2 H3)) as [?|(p & c & E & Hc)]; [done|].
  exists (m ++ p), c. by rewrite E, app_assoc.
Qed.

Lemma ser_edges gap ind v text : json_wf v -> ser gap ind v = Some text -> edges_ok text = true.
Proof.
  assert (Hw : forall op cl parts, is_ws op = false -> is_ws cl = false -> edges_ok (wrap gap ind op cl parts) = true).
  { intros op cl parts Ho Hc. unfold wrap. destruct parts as [|p ps]; [cbn; by rewrite Ho, Hc|].
    rewrite !app_assoc, <- !(app_assoc [op]). apply (edges_ok_app [op]); [done| |done|].
    - intros E. by apply app_eq_nil in E as [_ E].
    - by rewrite List.last_last. }
  destruct v as [| |[]|n|s|l|o]; cbn [ser json_wf]; intros Hv E; simplify_eq; [reflexivity..| | | |].
  - destruct Hv as [-> Hn]. pose proof (jnum_end _ _ Hn) as (p & c & E & Hc).
    destruct (jnum_head _ _ _ Hn) as (c' & t & E' & Hc').
    assert (Hh : is_ws c' = false) by (destruct Hc' as [->|Hd]; [done|by apply is_digit_not_ws]).
    apply is_digit_not_ws in Hc. rewrite E' in *. cbn -[List.last]. rewrite Hh. rewrite E, List.last_last. by rewrite Hc.
  - unfold quote. apply (edges_ok_app [34]); [done|by destruct (quote_body s)|done|by rewrite List.last_last].
  - by apply Hw.
  - by apply Hw.
Qed.

Lemma ser_Some gap ind v : json_wf v -> exists text, ser gap ind v = Some text.
Proof. destruct v as [| |[]|n|s|l|o]; cbn [ser]; [done|by eexists..]. Qed.

(** Reading back one value, after any white space and before any delimiter. *)
Definition reads (v : val) : Prop :=
  forall gap ind text f w rest,
    is_ws_str gap -> is_ws_str ind -> is_ws_str w -> delim rest ->
    ser gap ind v = Some text -> (2 * length text <= f)%nat ->
    jvalue f (w ++ text ++ rest) = Some (v, rest).

Section Compound.
Context (gap ind : jsstr) (Hgap : is_ws_str gap) (Hind : is_ws_str ind).

Definition elem_text (x : val) : jsstr := default $"null" (ser gap ind x).

Lemma elem_text_head x :
  json_wf x ->
  exists c t, elem_text x = c :: t /\ json_ws c = false /\ c <> 93 /\ ser gap ind x = Some (elem_text x).
Proof.
  intros Hx. destruct (ser_Some gap ind x Hx) as [t Et].
  destruct (ser_head _ _ _ _ Hx Et) as (c & t' & Ht & ? & ? & ?).
  unfold elem_text. rewrite Et. cbn. rewrite Ht. by eexists _, _.
Qed.

Lemma jelems_reads l : forall f w e rest sep,
  l <> [] -> Forall json_wf l -> Forall reads l ->
  is_ws_str w -> is_ws_str e -> is_ws_str sep ->
  (2 * length (join (44%Z :: sep) (map elem_text l)) + 1 <= f)%nat ->
  jelems f (w ++ join (44 :: sep) (map elem_text l) ++ e ++ 93 :: rest) = Some (l, rest).
Proof.
  induction l as [|x l IH]; intros f w e rest sep Hne Hwf Hr Hw He Hsep Hf; [done|].
  apply Forall_cons in Hwf as [Hx Hwf]. apply Forall_cons in Hr as [Rx Hr].
  destruct (elem_text_head x Hx) as (_ & _ & _ & _ & _ & Et).
  destruct f as [|f]; [lia|]. destruct l as [|y l]; cbn [map] in *.
  - cbn [join jelems] in *.
    rewrite (Rx gap ind (elem_text x) f w (e ++ 93 :: rest)); auto; [|by apply ws_delim|lia].
    rewrite eat_other, eat_here by done. done.
  - rewrite join_cons in * by done. rewrite !length_app in Hf. cbn [jelems length] in *.
    rewrite <- !app_assoc. rewrite (Rx gap ind (elem_text x) f w); auto; [|done|lia].
    change ((44 :: sep) ++ ?r) with ([] ++ 44 :: (sep ++ r)). rewrite eat_here by done.
    change (elem_text y :: map elem_text l) with (map elem_text (y :: l)) in *.
    rewrite IH; auto. lia.
Qed.

Definition member_text (kv : jsstr * val) : jsstr :=
  quote kv.1 ++ colon gap ++ elem_text kv.2.

Lemma colon_reads (r : jsstr) :
  exists w, is_ws_str w /\ eat 58 (colon gap ++ r) = Some (w ++ r).
Proof. destruct gap; [exists [] | exists [32]]; by split. Qed.

Lemma jmember_step f w k x tail :
  is_ws_str w -> Forall unit16 k -> json_wf x -> reads x -> delim tail ->
  (2 * length (elem_text x) <= f)%nat ->
  jmembers (S f) (w ++ member_text (k, x) ++ tail) =
  match eat 44 tail with
  | Some r4 => match jmembers f r4 with Some (l, r5) => Some ((k, x) :: l, r5) | None => None end
  | None => match eat 125 tail with Some r4 => Some ([(k, x)], r4) | None => None end
  end.
Proof.
  intros Hw Hk Hx Rx Hd Hf. cbn [jmembers]. unfold member_text, quote. cbn [fst snd].
  rewrite <- !app_assoc. cbn [app]. rewrite eat_here by done.
  rewrite jstr_quote by done.
  destruct (colon_reads (elem_text x ++ tail)) as (wc & Hwc & ->).
  destruct (elem_text_head x Hx) as (_ & _ & _ & _ & _ & Et).
  by rewrite (Rx gap ind (elem_text x) f wc tail).
Qed.

Lemma jmembers_reads o : forall f w e rest sep,
  o <> [] -> Forall (fun kv => Forall unit16 kv.1 /\ json_wf kv.2) o ->
  Forall (fun kv => reads kv.2) o ->
  is_ws_str w -> is_ws_str e -> is_ws_str sep ->
  (2 * length (join (44%Z :: sep) (map member_text o)) + 1 <= f)%nat ->
  jmembers f (w ++ join (44 :: sep) (map member_text o) ++ e ++ 125 :: rest) = Some (o, rest).
Proof.
  induction o as [|[k x] o IH]; intros f w e rest sep Hne Hwf Hr Hw He Hsep Hf; [done|].
  apply Forall_cons in Hwf as [[Hk Hx] Hwf]. apply Forall_cons in Hr as [Rx Hr]. cbn in Hk, Hx, Rx.
  assert (Hlen : (length (elem_text x) < length (member_text (k, x)))%nat)
    by (unfold member_text, quote; rewrite !length_app; cbn [length fst snd]; lia).
  destruct f as [|f]; [lia|]. destruct o as [|[k' y] o]; cbn [map] in *.
  - cbn [join] in *. rewrite jmember_step; auto; [|by apply ws_delim|lia].
    rewrite eat_other, eat_here by done. done.
  - rewrite join_cons in * by done. rewrite !length_app in Hf. cbn [length] in *.
    rewrite <- !app_assoc. rewrite jmember_step; auto; [|done|lia].
    change ((44 :: sep) ++ ?r) with ([] ++ 44 :: (sep ++ r)). rewrite eat_here by done.
    change (member_text (k', y) :: map member_text o) with (map member_text ((k', y) :: o)) in *.
    rewrite IH; auto. lia.
Qed.

End Compound.

Lemma flat_map_members gap ind o :
  Forall (fun kv => Forall unit16 kv.1 /\ json_wf kv.2) o ->
  flat_map (fun kv => match ser gap ind kv.2 with
                      | None => []
                      | Some s => [quote kv.1 ++ colon gap ++ s]
                      end) o = map (member_text gap ind) o.
Proof.
  induction 1 as [|[k x] o [_ Hx] Ho IH]; cbn [flat_map map]; [done|].
  destruct (ser_Some gap ind x Hx) as [t Et]. unfold member_text, elem_text. cbn [fst snd].
  rewrite Et. cbn. f_equal. exact IH.
Qed.

Lemma join_head sep p ps c t : p = c :: t -> exists t', join sep (p :: ps) = c :: t'.
Proof. intros ->. destruct ps; cbn [join app]; eauto. Qed.

Lemma wrap_cons gap ind op cl ps :
  ps <> [] ->
  wrap gap ind op cl ps =
  op :: nl gap (ind ++ gap) ++ join (44 :: nl gap (ind ++ gap)) ps ++ nl gap ind ++ [cl].
Proof. by destruct ps. Qed.

Lemma reads_arr l : json_wf (VArr l) -> Forall reads l -> reads (VArr l).
Proof.
  intros Hwf%json_wf_arr Hr gap ind text f w rest Hg Hi Hw Hd E Hf.
  assert (Hi' : is_ws_str (ind ++ gap)) by (by apply ws_app).
  change (Some (wrap gap ind 91 93 (map (elem_text gap (ind ++ gap)) l)) = Some text) in E.
  apply Some_inj in E. subst text.
  destruct l as [|x l]; (destruct f as [|f]; [cbn in Hf; lia|]).
  { cbn [jvalue]. by rewrite skip_ws_app. }
  rewrite wrap_cons in * by done. cbn [jvalue app length] in *.
  rewrite skip_ws_app, skip_ws_id by done.
  change (91 =? 34) with false. change (91 =? 91) with true. cbn iota.
  rewrite <- !app_assoc. cbn [app].
  destruct (elem_text_head gap (ind ++ gap) x) as (c & t & Ht & Hcw & Hc & _);
    [by apply Forall_cons in Hwf as [? _]|].
  destruct (join_head (44 :: nl gap (ind ++ gap)) _ (map (elem_text gap (ind ++ gap)) l) c t Ht) as [t' Hj].
  change (elem_text _ _ x :: map _ l) with (map (elem_text gap (ind ++ gap)) (x :: l)) in Hj.
  rewrite Hj at 1. cbn [app]. rewrite eat_other by auto using nl_ws.
  rewrite jelems_reads; auto using nl_ws.
  rewrite !length_app in Hf. cbn [length] in Hf. lia.
Qed.

Lemma reads_obj o :
  json_wf (VObj o) -> Forall (fun kv => reads kv.2) o -> reads (VObj o).
Proof.
  intros [Hcan Hwf]%json_wf_obj Hr gap ind text f w rest Hg Hi Hw Hd E Hf.
  assert (Hi' : is_ws_str (ind ++ gap)) by (by apply ws_app).
  cbn [ser] in E. rewrite flat_map_members in E by done. apply Some_inj in E. subst text.
  destruct o as [|[k x] o]; (destruct f as [|f]; [cbn in Hf; lia|]).
  { cbn [jvalue]. by rewrite skip_ws_app. }
  rewrite wrap_cons in * by done. cbn [jvalue app length] in *.
  rewrite skip_ws_app, skip_ws_id by done.
  change (123 =? 34) with false. change (123 =? 91) with false. change (123 =? 123) with true. cbn iota.
  rewrite <- !app_assoc. cbn [app].
  assert (Ht : exists t, member_text gap (ind ++ gap) (k, x) = 34 :: t)
    by (unfold member_text, quote; cbn [fst snd app]; eauto). destruct Ht as [t Ht].
  destruct (join_head (44 :: nl gap (ind ++ gap)) _ (map (member_text gap (ind ++ gap)) o) 34 t Ht) as [t' Hj].
  change (member_text _ _ (k, x) :: map _ o)
    with (map (member_text gap (ind ++ gap)) ((k, x) :: o)) in Hj.
  rewrite Hj at 1. cbn [app]. rewrite eat_other by (auto using nl_ws; done).
  rewrite jmembers_reads; auto using nl_ws; [by rewrite Hcan|].
  rewrite !length_app in Hf. cbn [length] in Hf. lia.
Qed.

Lemma jvalue_reads v : json_wf v -> reads v.
Proof.
  induction v as [| |b|n|s|l IH|o IH] using val_ind_strong; intros Hwf.
  - done.
  - intros gap ind text f w rest Hg Hi Hw Hd E Hf. injection E as <-.
    destruct f as [|f]; [vm_compute in Hf; lia|]. cbn [jvalue]. by rewrite skip_ws_app.
  - intros gap ind text f w rest Hg Hi Hw Hd E Hf.
    destruct b; injection E as <-; (destruct f as [|f]; [vm_compute in Hf; lia|]); cbn [jvalue];
      by rewrite skip_ws_app.
  - intros gap ind text f w rest Hg Hi Hw Hd E Hf. destruct Hwf as [Hfin Hn].
    cbn [ser] in E. rewrite Hfin in E. injection E as <-.
    destruct (jnum_head _ _ _ Hn) as (c & t & Hct & Hc).
    assert (Hs : skip_ws (w ++ String_num n ++ rest) = String_num n ++ rest).
    { rewrite skip_ws_app by done. rewrite Hct. cbn [app]. apply skip_ws_id.
      unfold json_ws, is_digit in *. lia. }
    destruct f as [|f]; [rewrite Hct in Hf; cbn in Hf; lia|]. cbn [jvalue]. rewrite Hs.
    apply (jnum_app _ rest _ Hd) in Hn. rewrite Hct in *. cbn [app] in *.
    assert (Hne : c <> 34 /\ c <> 91 /\ c <> 123 /\ c <> 116 /\ c <> 102 /\ c <> 110)
      by (unfold is_digit in Hc; lia).
    js_lit. cbn [startsWith].
    destruct (Z.eqb_spec c 34), (Z.eqb_spec c 91), (Z.eqb_spec c 123), (Z.eqb_spec 116 c),
      (Z.eqb_spec 102 c), (Z.eqb_spec 110 c); try lia. cbn [andb]. by rewrite Hn.
  - intros gap ind text f w rest Hg Hi Hw Hd E Hf. injection E as <-.
    destruct f as [|f]; [cbn in Hf; lia|]. cbn [jvalue]. rewrite skip_ws_app by done.
    unfold quote. rewrite <- !app_assoc. cbn [app]. rewrite skip_ws_id by done. cbn.
    by rewrite jstr_quote.
  - apply reads_arr; [done|]. apply json_wf_arr in Hwf.
    apply Forall_forall. intros x Hx. rewrite Forall_forall in IH, Hwf. auto.
  - apply reads_obj; [done|]. apply json_wf_obj in Hwf as [_ Hwf].
    apply Forall_forall. intros x Hx. rewrite Forall_forall in IH, Hwf. apply IH; [done|].
    by apply Hwf.
Qed.

(** Printing with any white-space indentation and parsing gives the value back. *)
Lemma parse_ser gap ind v text :
  is_ws_str gap -> is_ws_str ind -> json_wf v -> ser gap ind v = Some text -> parse text = Some v.
Proof.
  intros Hg Hi Hwf E. unfold parse.
  pose proof (jvalue_reads v Hwf gap ind text (2 * length text + 2)%nat [] [] Hg Hi) as H.
  cbn [app] in H. rewrite app_nil_r in H. rewrite H; [done..|lia].
Qed.

Lemma parse_stringify v text : json_wf v -> stringify v = Some text -> parse text = Some v.
Proof. by apply parse_ser. Qed.

Lemma parse_stringify2 v text : json_wf v -> stringify2 v = Some text -> parse text = Some v.
Proof. by apply parse_ser. Qed.
