(* ===== verification/Regex.v ===== *)
(** * Regular expressions as ECMAScript matches them

    A backtracking matcher that returns every way to match a prefix, in the order
    a backtracking engine tries them (greedy quantifiers first); the engine's
    answer is the head of the list.  Groups are numbered and capture; no regular
    expression of the sources captures inside a repeated group, so the reset of
    captures between iterations is not needed. *)
From S2P Require Import Prelude.
#[local] Open Scope Z_scope.

Inductive re : Type :=
| Chr (p : Z -> bool)
| Eps
| Seq (a b : re)
| Alt (a b : re)
| Star (a : re)
| Grp (n : Z) (a : re)
| Ref (n : Z)
| Eos.

Declare Scope re_scope.
Delimit Scope re_scope with re.
Bind Scope re_scope with re.
Infix "++" := Seq : re_scope.
Infix "||" := Alt : re_scope.

Abbreviation captures := (list (Z * jsstr)).
Abbreviation mstate := (jsstr * captures)%type.

Fixpoint capture (n : Z) (cs : captures) : option jsstr :=
  match cs with
  | [] => None
  | (k, w) :: r => if n =? k then Some w else capture n r
  end.

(** Greedy repetition; an iteration that consumes nothing is rejected, so the
    length of the text bounds the number of iterations. *)
Fixpoint iterate (f : mstate -> list mstate) (fuel : nat) (st : mstate) : list mstate :=
  match fuel with
  | O => [st]
  | S k =>
    flat_map (fun st' => if (length st'.1 <? length st.1)%nat then iterate f k st' else [])
             (f st) ++ [st]
  end.

Fixpoint run (r : re) (st : mstate) {struct r} : list mstate :=
  match r with
  | Chr p => match st.1 with c :: s => if p c then [(s, st.2)] else [] | [] => [] end
  | Eps => [st]
  | Seq a b => flat_map (run b) (run a st)
  | Alt a b => run a st ++ run b st
  | Star a => iterate (run a) (length st.1) st
  | Grp n a =>
    map (fun st' => (st'.1, (n, take (length st.1 - length st'.1) st.1) :: st'.2)) (run a st)
  | Ref n =>
    match capture n st.2 with
    | Some w => if startsWith w st.1 then [(drop (length w) st.1, st.2)] else []
    | None => [st]
    end
  | Eos => match st.1 with [] => [st] | _ => [] end
  end.

(** Abbreviations of the pattern syntax. *)
Definition Ch (c : Z) : re := Chr (Z.eqb c).
Definition Plus (r : re) : re := Seq r (Star r).
Definition Opt (r : re) : re := Alt r Eps.

Fixpoint Lit_units (s : jsstr) : re :=
  match s with
  | [] => Eps
  | c :: r => Seq (Ch c) (Lit_units r)
  end.

Definition Lit (s : string) : re := Lit_units (js s).
Arguments Lit s%_string.

(** [text.match(/^...$/)]: the captures of the first match. *)
Definition exec (r : re) (s : jsstr) : option captures :=
  match run (Seq r Eos) (s, []) with
  | (_, cs) :: _ => Some cs
  | [] => None
  end.

Definition test (r : re) (s : jsstr) : bool :=
  match exec r s with Some _ => true | None => false end.

(** The dot without the s flag; any character but a double quote. *)
Definition dot (c : Z) : bool := negb ((c =? 10) || (c =? 13) || (c =? 8232) || (c =? 8233)).
Definition any (_ : Z) : bool := true.
Definition not_dquote (c : Z) : bool := negb (c =? 34).

(** * Which prefixes match *)

Lemma elem_of_flat_map {A B} (f : A -> list B) (l : list A) (y : B) :
  y ∈ flat_map f l <-> exists x, x ∈ l /\ y ∈ f x.
Proof.
  rewrite list_elem_of_In, in_flat_map. setoid_rewrite list_elem_of_In. done.
Qed.

Lemma run_seq a b st st' :
  st' ∈ run (Seq a b) st <-> exists st1, st1 ∈ run a st /\ st' ∈ run b st1.
Proof. cbn. apply elem_of_flat_map. Qed.

Lemma run_alt a b st st' : st' ∈ run (Alt a b) st <-> st' ∈ run a st \/ st' ∈ run b st.
Proof. cbn. apply elem_of_app. Qed.

Lemma run_eps st st' : st' ∈ run Eps st <-> st' = st.
Proof. cbn. apply list_elem_of_singleton. Qed.

Lemma run_eos s cs st' : st' ∈ run Eos (s, cs) <-> s = [] /\ st' = ([], cs).
Proof.
  cbn. destruct s; [rewrite list_elem_of_singleton; naive_solver|].
  split; [by intros ?%elem_of_nil | naive_solver].
Qed.

Lemma run_chr p s cs st' :
  st' ∈ run (Chr p) (s, cs) <-> exists c r, s = c :: r /\ p c = true /\ st' = (r, cs).
Proof.
  cbn. destruct s as [|c s]; [split; [by intros ?%elem_of_nil | naive_solver]|].
  destruct (p c) eqn:E.
  - rewrite list_elem_of_singleton. naive_solver.
  - split; [by intros ?%elem_of_nil|]. naive_solver congruence.
Qed.

Lemma run_ch c s cs st' : st' ∈ run (Ch c) (s, cs) <-> exists r, s = c :: r /\ st' = (r, cs).
Proof.
  unfold Ch. rewrite run_chr. split.
  - intros (x & r & -> & ->%Z.eqb_eq & ->). eauto.
  - intros (r & -> & ->). exists c, r. by rewrite Z.eqb_refl.
Qed.

Lemma run_lit_units w s cs st' :
  st' ∈ run (Lit_units w) (s, cs) <-> exists r, s = w ++ r /\ st' = (r, cs).
Proof.
  revert s; induction w as [|c w IH]; intros s; cbn [Lit_units].
  - rewrite run_eps. cbn. naive_solver.
  - rewrite run_seq. setoid_rewrite run_ch. split.
    + intros (? & (r & -> & ->) & (r' & -> & ->)%IH). by exists r'.
    + intros (r & -> & ->). exists (w ++ r, cs). split; [by eauto|]. apply IH. eauto.
Qed.

Lemma run_lit w s cs st' :
  st' ∈ run (Lit w) (s, cs) <-> exists r, s = js w ++ r /\ st' = (r, cs).
Proof. apply run_lit_units. Qed.

(** Greedy runs of one character class. *)
Lemma run_star_chr p s cs st' :
  st' ∈ run (Star (Chr p)) (s, cs) <->
  exists w r, s = w ++ r /\ forallb p w = true /\ st' = (r, cs).
Proof.
  cbn [run fst]. remember (length s) as n eqn:En. assert (Hn : (length s <= n)%nat) by lia.
  clear En. revert s Hn. induction n as [|n IH]; intros s Hn; cbn [iterate].
  { destruct s; [|cbn in Hn; lia]. rewrite list_elem_of_singleton.
    split; [intros ->; by exists [], []|]. by intros ([|] & r & ? & _ & ->); simplify_eq/=. }
  rewrite elem_of_app, elem_of_flat_map, list_elem_of_singleton. split.
  - intros [(x & (c & r & -> & Hc & ->)%run_chr & Hx)| ->]; [|by exists [], s].
    cbn [fst length] in Hx, Hn. destruct (Nat.ltb_spec (length r) (S (length r))); [|lia].
    apply IH in Hx; [|lia]. destruct Hx as (w & r' & -> & Hw & ->).
    exists (c :: w), r'. cbn. by rewrite Hc.
  - intros (w & r & -> & Hw & ->). destruct w as [|c w]; [by right|left].
    cbn in Hw. bsplit. exists (w ++ r, cs). split; [apply run_chr; cbn; by eauto|].
    cbn [fst length app] in *. destruct (Nat.ltb_spec (length (w ++ r)) (S (length (w ++ r)))); [|lia].
    apply IH; [lia|]. by eauto.
Qed.

Lemma run_plus_chr p s cs st' :
  st' ∈ run (Plus (Chr p)) (s, cs) <->
  exists w r, s = w ++ r /\ w <> [] /\ forallb p w = true /\ st' = (r, cs).
Proof.
  unfold Plus. rewrite run_seq. split.
  - intros (? & (c & r & -> & Hc & ->)%run_chr & (w & r' & -> & Hw & ->)%run_star_chr).
    exists (c :: w), r'. cbn. by rewrite Hc.
  - intros (w & r & -> & Hn & Hw & ->). destruct w as [|c w]; [done|]. cbn in Hw. bsplit.
    exists (w ++ r, cs). split; [apply run_chr; cbn; by eauto|]. apply run_star_chr. by eauto.
Qed.

(** A capture of a prefix. *)
Lemma run_grp n a s cs st' :
  (forall st1, st1 ∈ run a (s, cs) -> exists w, s = w ++ st1.1) ->
  st' ∈ run (Grp n a) (s, cs) <->
  exists w r cs1, s = w ++ r /\ (r, cs1) ∈ run a (s, cs) /\ st' = (r, (n, w) :: cs1).
Proof.
  intros Hp. cbn [run]. rewrite list_elem_of_In, in_map_iff. setoid_rewrite <- list_elem_of_In.
  split.
  - intros ([r cs1] & <- & Hin). destruct (Hp _ Hin) as [w Hw]. cbn in *. subst s.
    exists w, r, cs1. rewrite length_app. replace (length w + length r - length r)%nat with (length w) by lia.
    by rewrite take_app_length.
  - intros (w & r & cs1 & -> & Hin & ->). exists (r, cs1). split; [|done]. cbn.
    rewrite length_app. replace (length w + length r - length r)%nat with (length w) by lia.
    by rewrite take_app_length.
Qed.

Lemma run_grp_plus_chr n p s cs st' :
  st' ∈ run (Grp n (Plus (Chr p))) (s, cs) <->
  exists w r, s = w ++ r /\ w <> [] /\ forallb p w = true /\ st' = (r, (n, w) :: cs).
Proof.
  rewrite run_grp.
  2:{ intros ? (w & r & -> & _ & _ & ->)%run_plus_chr. by exists w. }
  split.
  - intros (w & r & cs1 & -> & (w' & r' & E & ? & ? & ?)%run_plus_chr & ->).
    simplify_eq. apply app_inv_tail in E as ->. by exists w', r'.
  - intros (w & r & -> & ? & ? & ->). exists w, r, cs. split; [done|]. split; [|done].
    apply run_plus_chr. by exists w, r.
Qed.

(** A back reference to a captured text. *)
Lemma run_ref n w s cs st' :
  capture n cs = Some w ->
  st' ∈ run (Ref n) (s, cs) <-> exists r, s = w ++ r /\ st' = (r, cs).
Proof.
  intros Hw. cbn. rewrite Hw. destruct (startsWith w s) eqn:E.
  - rewrite list_elem_of_singleton. apply startsWith_spec in E as [r ->].
    rewrite drop_app_length. split; [eauto|]. intros (r' & E & ->). by apply app_inv_head in E as ->.
  - split; [by intros ?%elem_of_nil|]. intros (r & -> & ->). by rewrite startsWith_app in E.
Qed.

(** ** Which characters a pattern consumes *)

(** Every match of [r] consumes characters of the class [P] only. *)
Definition within (P : Z -> bool) (r : re) : Prop :=
  forall s cs st', st' ∈ run r (s, cs) -> exists w, s = w ++ st'.1 /\ forallb P w = true.

Lemma within_eps P : within P Eps.
Proof. intros s cs st' ->%run_eps. by exists []. Qed.

Lemma within_chr P p : (forall c, p c = true -> P c = true) -> within P (Chr p).
Proof.
  intros H s cs st' (c & r & -> & Hc & ->)%run_chr. exists [c]. cbn. by rewrite H.
Qed.

Lemma within_seq P a b : within P a -> within P b -> within P (Seq a b).
Proof.
  intros Ha Hb s cs st' ([s1 cs1] & H1 & H2)%run_seq.
  destruct (Ha _ _ _ H1) as (w1 & -> & Hw1). destruct (Hb _ _ _ H2) as (w2 & Hs1 & Hw2).
  cbn in Hs1. subst s1. exists (w1 ++ w2). cbn. rewrite forallb_app, Hw1, Hw2.
  by rewrite <- app_assoc.
Qed.

Lemma within_alt P a b : within P a -> within P b -> within P (Alt a b).
Proof. intros Ha Hb s cs st' [H|H]%run_alt; eauto. Qed.

Lemma within_star P a : within P a -> within P (Star a).
Proof.
  intros Ha s cs st'. cbn [run fst]. generalize (length s) as n. intros n.
  change (s, cs) with (pair s cs). revert s cs.
  induction n as [|n IH]; intros s cs; cbn [iterate].
  { intros ->%list_elem_of_singleton. by exists []. }
  intros [H| ->%list_elem_of_singleton]%elem_of_app; [|by exists []].
  apply elem_of_flat_map in H as ([s1 cs1] & H1 & H2).
  destruct (Nat.ltb _ _); [|by apply elem_of_nil in H2].
  destruct (Ha _ _ _ H1) as (w1 & -> & Hw1). destruct (IH _ _ H2) as (w2 & Hs & Hw2).
  cbn in Hs. subst s1. exists (w1 ++ w2). rewrite forallb_app, Hw1, Hw2. by rewrite <- app_assoc.
Qed.

Lemma within_lit w : within any (Lit w).
Proof. intros s cs st' (r & -> & ->)%run_lit. exists (js w). split; [done|]. by induction (js w). Qed.

(** One more iteration of a repetition. *)
Lemma iterate_mono f n n' st st' :
  (n <= n')%nat -> st' ∈ iterate f n st -> st' ∈ iterate f n' st.
Proof.
  revert n' st; induction n as [|n IH]; intros n' st Hn H; cbn [iterate] in H.
  - apply list_elem_of_singleton in H as ->. destruct n'; cbn [iterate]; [by left|].
    apply elem_of_app; right. by left.
  - destruct n' as [|n']; [lia|]. cbn [iterate].
    apply elem_of_app in H as [H|H]; apply elem_of_app; [left|by right].
    apply elem_of_flat_map in H as (x & Hx & H). apply elem_of_flat_map. exists x. split; [done|].
    destruct (Nat.ltb _ _); [|done]. apply IH; [lia|done].
Qed.

Lemma run_star_step a st st1 st' :
  st1 ∈ run a st -> (length st1.1 < length st.1)%nat ->
  st' ∈ run (Star a) st1 -> st' ∈ run (Star a) st.
Proof.
  cbn [run]. intros H1 Hl H2. destruct (length st.1) as [|n] eqn:E; [lia|]. cbn [iterate].
  apply elem_of_app; left. apply elem_of_flat_map. exists st1. split; [done|].
  rewrite E. destruct (Nat.ltb_spec (length st1.1) (S n)); [|lia].
  eapply iterate_mono; [|exact H2]. lia.
Qed.

Lemma run_star_nil a st : st ∈ run (Star a) st.
Proof. cbn [run]. destruct (length st.1); cbn [iterate]; [by left|]. apply elem_of_app; right; by left. Qed.

(** ** From the list of matches to the engine's answer *)

Lemma exec_unique r s cs :
  ([], cs) ∈ run (Seq r Eos) (s, []) ->
  (forall cs', ([], cs') ∈ run (Seq r Eos) (s, []) -> cs' = cs) ->
  exec r s = Some cs.
Proof.
  intros Hin Hu. unfold exec. destruct (run (Seq r Eos) (s, [])) as [|[t cs'] l] eqn:E.
  { by apply elem_of_nil in Hin. }
  assert (Hh : (t, cs') ∈ run (Seq r Eos) (s, [])) by (rewrite E; by left).
  assert (t = []) as ->.
  { apply run_seq in Hh as ([? ?] & _ & [_ Ht]%run_eos). by simplify_eq. }
  f_equal. apply Hu. left.
Qed.

Lemma exec_none r s :
  (forall cs, ([], cs) ∉ run (Seq r Eos) (s, [])) -> exec r s = None.
Proof.
  intros Hn. unfold exec. destruct (run (Seq r Eos) (s, [])) as [|[t cs'] l] eqn:E; [done|].
  assert (Hh : (t, cs') ∈ run (Seq r Eos) (s, [])) by (rewrite E; by left).
  assert (t = []) as ->.
  { apply run_seq in Hh as ([? ?] & _ & [_ Ht]%run_eos). by simplify_eq. }
  destruct (Hn cs'). left.
Qed.

Lemma test_true r s : test r s = true <-> exists cs, ([], cs) ∈ run (Seq r Eos) (s, []).
Proof.
  unfold test, exec. split.
  - destruct (run (Seq r Eos) (s, [])) as [|[t cs] l] eqn:E; [done|]. intros _. exists cs.
    assert (Hh : (t, cs) ∈ run (Seq r Eos) (s, [])) by (rewrite E; by left).
    apply run_seq in Hh as ([? ?] & _ & [_ Ht]%run_eos). simplify_eq. left.
  - intros (cs & Hin). destruct (run (Seq r Eos) (s, [])) as [|[t cs'] l] eqn:E; [|done].
    by apply elem_of_nil in Hin.
Qed.

(** ** Delimiters *)

(** The first (last) occurrence of a delimiter splits a text in one way. *)
Lemma app_delim_inj (c : Z) a b a' b' :
  c ∉ a -> c ∉ a' -> a ++ c :: b = a' ++ c :: b' -> a = a' /\ b = b'.
Proof.
  revert a'; induction a as [|x a IH]; intros [|y a'] H H' E; simplify_eq/=.
  - done.
  - set_solver.
  - set_solver.
  - destruct (IH a') as [-> ->]; set_solver.
Qed.

Lemma app_last_delim_inj (c : Z) a b a' b' :
  c ∉ b -> c ∉ b' -> a ++ c :: b = a' ++ c :: b' -> a = a' /\ b = b'.
Proof.
  intros H H' E. apply (f_equal (@rev Z)) in E.
  rewrite !rev_app_distr in E. cbn in E. rewrite <- !app_assoc in E. cbn in E.
  apply app_delim_inj in E as [E1 E2]; [|by rewrite list_elem_of_In, <- in_rev, <- list_elem_of_In..].
  apply (f_equal (@rev Z)) in E1, E2. by rewrite !rev_involutive in E1, E2.
Qed.

Lemma forallb_not_elem (p : Z -> bool) w c : forallb p w = true -> p c = false -> c ∉ w.
Proof. rewrite forallb_forall. intros H Hc Hin%list_elem_of_In. by rewrite H in Hc. Qed.

(** Unfold the membership in a match into equations on the text. *)
Ltac re_inv :=
  repeat match goal with
  | H : _ ∈ run (Seq _ _) _ |- _ => apply run_seq in H as ([? ?] & ? & ?)
  | H : _ ∈ run (Lit _) _ |- _ => apply run_lit in H as (? & ? & ?); simplify_eq
  | H : _ ∈ run (Ch _) _ |- _ => apply run_ch in H as (? & ? & ?); simplify_eq
  | H : _ ∈ run (Lit_units _) _ |- _ => apply run_lit_units in H as (? & ? & ?); simplify_eq
  | H : _ ∈ run (Grp _ (Plus (Chr _))) _ |- _ =>
    apply run_grp_plus_chr in H as (? & ? & ? & ? & ? & ?); simplify_eq
  | H : _ ∈ run (Plus (Chr _)) _ |- _ => apply run_plus_chr in H as (? & ? & ? & ? & ? & ?); simplify_eq
  | H : _ ∈ run (Chr _) _ |- _ => apply run_chr in H as (? & ? & ? & ? & ?); simplify_eq
  | H : _ ∈ run Eos _ |- _ => apply run_eos in H as (? & ?); simplify_eq
  end.
