(* ===== verification/RequestRuleExpr.v ===== *)
(** * Request rules of a billing expression:
    [web/src/pages/Setting/Ratio/components/requestRuleExpr.js]

    The editor keeps groups of conditions with a multiplier; the module prints
    them into a billing expression and parses an expression back into groups.
    Conditions are records with optional fields, as the JavaScript objects are:
    [None] is a missing field (or, for the enumerated fields, a string that is
    none of the constants, which the code treats alike). *)
From S2P Require Import Prelude JSNum JSValue Json Regex.
#[local] Open Scope Z_scope.

Module RequestRuleExpr.

Inductive source := SOURCE_PARAM | SOURCE_HEADER | SOURCE_TIME.

Inductive mode :=
| MATCH_EQ | MATCH_CONTAINS | MATCH_GT | MATCH_GTE | MATCH_LT | MATCH_LTE
| MATCH_EXISTS | MATCH_RANGE.

Inductive time_func := Hour | Minute | Weekday | Month | Day.

#[export] Instance source_eq_dec : EqDecision source.
Proof. solve_decision. Defined.
#[export] Instance mode_eq_dec : EqDecision mode.
Proof. solve_decision. Defined.

Definition TIME_FUNCS : list time_func := [Hour; Minute; Weekday; Month; Day].

Definition time_func_str (f : time_func) : jsstr :=
  match f with
  | Hour => $"hour" | Minute => $"minute" | Weekday => $"weekday"
  | Month => $"month" | Day => $"day"
  end.

Definition time_func_of (s : jsstr) : option time_func :=
  List.find (fun f => time_func_str f =s? s) TIME_FUNCS.

Record cond := Cond {
  source_ : option source;
  path : option jsstr;
  mode_ : option mode;
  value : val;
  timeFunc : option time_func;
  timezone : option jsstr;
  rangeStart : val;
  rangeEnd : val;
}.

Record group := Group { conditions : list cond; multiplier : jsstr }.

Definition req_cond (s : source) (p : jsstr) (m : mode) (v : val) : cond :=
  Cond (Some s) (Some p) (Some m) v None None VUndef VUndef.

Definition time_cond (f : time_func) (tz : jsstr) (m : mode) (v rs re : val) : cond :=
  Cond (Some SOURCE_TIME) None (Some m) v (Some f) (Some tz) rs re.

Definition createEmptyCondition : cond := req_cond SOURCE_PARAM [] MATCH_EQ (VStr []).

Definition createEmptyTimeCondition : cond :=
  time_cond Hour $"Asia/Shanghai" MATCH_GTE (VStr []) (VStr []) (VStr []).

Definition createEmptyRuleGroup : group := Group [createEmptyCondition] [].
Definition createEmptyTimeRuleGroup : group := Group [createEmptyTimeCondition] [].

(** The [value] fields of the options, in order; labels are translations. *)
Definition getRequestRuleMatchOptions (s : source) : list mode :=
  match s with
  | SOURCE_TIME => [MATCH_EQ; MATCH_GTE; MATCH_LT; MATCH_RANGE]
  | SOURCE_HEADER => [MATCH_EQ; MATCH_CONTAINS; MATCH_EXISTS]
  | SOURCE_PARAM => [MATCH_EQ; MATCH_CONTAINS; MATCH_EXISTS; MATCH_GT; MATCH_GTE; MATCH_LT; MATCH_LTE]
  end.

(** [v == null ? '' : String(v)] *)
Definition text_or_empty (v : val) : jsstr := if is_nullish v then [] else String_val v.

(** [s || d] on an optional string. *)
Definition str_or (s : option jsstr) (d : jsstr) : jsstr :=
  match s with Some (c :: r) => c :: r | _ => d end.

Definition pick_mode (s : source) (m : option mode) (d : mode) : mode :=
  match m with
  | Some x => if bool_decide (x ∈ getRequestRuleMatchOptions s) then x else d
  | None => d
  end.

Definition normalizeCondition (c : cond) : cond :=
  let s := match source_ c with
           | Some SOURCE_TIME => SOURCE_TIME
           | Some SOURCE_HEADER => SOURCE_HEADER
           | _ => SOURCE_PARAM
           end in
  match s with
  | SOURCE_TIME =>
    time_cond (default Hour (timeFunc c)) (str_or (timezone c) $"Asia/Shanghai")
      (pick_mode SOURCE_TIME (mode_ c) MATCH_GTE)
      (VStr (text_or_empty (value c)))
      (VStr (text_or_empty (rangeStart c))) (VStr (text_or_empty (rangeEnd c)))
  | _ => req_cond s (str_or (path c) []) (pick_mode s (mode_ c) MATCH_EQ)
           (VStr (text_or_empty (value c)))
  end.

(** The legacy format: a condition with its own multiplier. *)
Record rule := Rule { rule_cond : cond; rule_multiplier : val }.

Definition createEmptyRequestRule : rule := Rule createEmptyCondition (VStr []).
Definition createEmptyTimeRule : rule := Rule createEmptyTimeCondition (VStr []).

Definition normalizeRequestRule (r : rule) : rule :=
  Rule (normalizeCondition (rule_cond r)) (VStr (text_or_empty (rule_multiplier r))).

(** ** Splitting at top-level separators *)

Definition upd_depth (d c : Z) : Z :=
  let d1 := if c =? 40 then d + 1 else d in
  if c =? 41 then d1 - 1 else d1.

(** The loop of [splitTopLevelMultiply] and [splitTopLevelAnd]: [skip] characters
    of a separator are still to be passed over, [cur] is the current slice,
    reversed. *)
Fixpoint split_loop (sep s : jsstr) (skip : nat) (depth : Z) (cur : jsstr) : list jsstr :=
  match s with
  | [] => [trim (rev cur)]
  | c :: r =>
    match skip with
    | S k => split_loop sep r k depth cur
    | O =>
      let d := upd_depth depth c in
      if (d =? 0) && startsWith sep s
      then trim (rev cur) :: split_loop sep r (length sep - 1) d []
      else split_loop sep r 0 d (c :: cur)
    end
  end.

Definition splitTopLevelMultiply (expr : jsstr) : list jsstr :=
  filter_Boolean (split_loop $" * " expr 0 0 []).

Definition splitTopLevelAnd (expr : jsstr) : list jsstr :=
  filter_Boolean (split_loop $" && " expr 0 0 []).

(** ** Literals *)

Definition in_set (l : jsstr) (c : Z) : bool := existsb (Z.eqb c) l.

(** [/^-?(?:\d+\.?\d*|\.\d+)(?:[eE][+-]?\d+)?$/] *)
Definition NUMERIC_LITERAL_REGEX : re :=
  (Opt (Ch 45)
   ++ ((Plus (Chr is_digit) ++ Opt (Ch 46) ++ Star (Chr is_digit)) || (Ch 46 ++ Plus (Chr is_digit)))
   ++ Opt (Chr (in_set $"eE") ++ Opt (Chr (in_set $"+-")) ++ Plus (Chr is_digit)))%re.

Definition isNumericLiteral (s : jsstr) : bool := test NUMERIC_LITERAL_REGEX s.

Definition parseExprLiteral (raw : jsstr) : option val :=
  let text := trim raw in
  if (text =s? $"true") || (text =s? $"false") then Some (VStr text)
  else if isNumericLiteral text then Some (VStr text)
  else match parse text with Some VNull | None => None | Some v => Some v end.

(** [String(value || '').trim()] on the normalized value, which is a string. *)
Definition buildExprLiteral (m : mode) (v : val) : jsstr :=
  let text := trim (if truthy v then String_val v else []) in
  match m with
  | MATCH_CONTAINS => quote text
  | _ =>
    if (text =s? $"true") || (text =s? $"false") then text
    else if isNumericLiteral text then text
    else quote text
  end.

(** ** Building *)

Definition dq : jsstr := [34].

Definition buildTimeConditionExpr (c : cond) : jsstr :=
  let n := normalizeCondition c in
  let tz := quote (default [] (timezone n)) in
  let fn := time_func_str (default Hour (timeFunc n)) ++ $"(" ++ tz ++ $")" in
  match mode_ n with
  | Some MATCH_RANGE =>
    let s := trim (String_val (rangeStart n)) in
    let e := trim (String_val (rangeEnd n)) in
    if negb (isNumericLiteral s) || negb (isNumericLiteral e) then []
    else fn ++ $" >= " ++ s ++ $" || " ++ fn ++ $" < " ++ e
  | m =>
    let v := trim (String_val (value n)) in
    if negb (isNumericLiteral v) then []
    else
      let op := match m with Some MATCH_GTE => $">=" | Some MATCH_LT => $"<" | _ => $"==" end in
      fn ++ $" " ++ op ++ $" " ++ v
  end.

Definition num_op (m : mode) : jsstr :=
  match m with
  | MATCH_GT => $">" | MATCH_GTE => $">=" | MATCH_LT => $"<" | _ => $"<="
  end.

Definition buildRequestConditionExpr (c : cond) : jsstr :=
  match source_ c with
  | Some SOURCE_TIME => buildTimeConditionExpr c
  | _ =>
    let n := normalizeCondition c in
    let p := trim (default [] (path n)) in
    if negb (nonempty p) then []
    else
      let header := bool_decide (source_ n = Some SOURCE_HEADER) in
      let sourceExpr := (if header then $"header(" else $"param(") ++ quote p ++ $")" in
      match default MATCH_EQ (mode_ n) with
      | MATCH_EXISTS => sourceExpr ++ (if header then $" != " ++ dq ++ dq else $" != nil")
      | MATCH_CONTAINS =>
        let call := $"has(" ++ sourceExpr ++ $", " ++ buildExprLiteral MATCH_CONTAINS (value n) ++ $")" in
        if header then call else sourceExpr ++ $" != nil && " ++ call
      | MATCH_GT | MATCH_GTE | MATCH_LT | MATCH_LTE =>
        let v := trim (String_val (value n)) in
        if negb (isNumericLiteral v) then []
        else sourceExpr ++ $" != nil && " ++ sourceExpr ++ $" "
             ++ num_op (default MATCH_EQ (mode_ n)) ++ $" " ++ v
      | m => sourceExpr ++ $" == " ++ buildExprLiteral m (value n)
      end
  end.

Definition buildRuleGroupFactor (g : group) : jsstr :=
  let mult := trim (multiplier g) in
  if negb (isNumericLiteral mult) then []
  else
    match filter_Boolean (map buildRequestConditionExpr (conditions g)) with
    | [] => []
    | condExprs =>
      let combined :=
        match condExprs with
        | [e] => e
        | _ => join $" && "
                 (map (fun e => if includes $" || " e then $"(" ++ e ++ $")" else e) condExprs)
        end in
      $"(" ++ combined ++ $" ? " ++ mult ++ $" : 1)"
    end.

Definition buildRequestRuleExpr (groups : list group) : jsstr :=
  join $" * " (filter_Boolean (map buildRuleGroupFactor groups)).

(** ** Parsing *)

(** [[\d.eE+-]+] *)
Definition numchar (c : Z) : bool := is_digit c || in_set $".eE+-" c.

Definition re_time_func : re :=
  Grp 1 (Lit "hour" || Lit "minute" || Lit "weekday" || Lit "month" || Lit "day")%re.

(** [\(<dq>([^<dq>]+)<dq>\)] *)
Definition re_call_arg (n : Z) : re :=
  (Ch 40 ++ Ch 34 ++ Grp n (Plus (Chr not_dquote)) ++ Ch 34 ++ Ch 41)%re.

Definition re_range_body : re :=
  (re_time_func ++ re_call_arg 2 ++ Lit " >= " ++ Grp 3 (Plus (Chr numchar)) ++ Lit " || "
   ++ Ref 1 ++ Ch 40 ++ Ch 34 ++ Ref 2 ++ Ch 34 ++ Ch 41 ++ Lit " < " ++ Grp 4 (Plus (Chr numchar)))%re.

Definition re_time_range : re := re_range_body.
Definition re_time_wrapped : re := (Ch 40 ++ re_range_body ++ Ch 41)%re.

Definition re_time_simple : re :=
  (re_time_func ++ re_call_arg 2 ++ Lit " " ++ Grp 3 (Lit "==" || Lit ">=" || Lit "<")
   ++ Lit " " ++ Grp 4 (Plus (Chr numchar)))%re.

Definition re_header_exists : re := (Lit "header" ++ re_call_arg 1 ++ Lit " != " ++ Ch 34 ++ Ch 34)%re.
Definition re_param_exists : re := (Lit "param" ++ re_call_arg 1 ++ Lit " != nil")%re.

(** [<dq>(?:[^<dq>\\]|\\.)*<dq>] *)
Definition re_json_string : re :=
  (Ch 34 ++ Star (Chr (fun c => negb (c =? 34) && negb (c =? 92)) || (Ch 92 ++ Chr dot)) ++ Ch 34)%re.

Definition re_header_contains : re :=
  (Lit "has(header" ++ re_call_arg 1 ++ Lit ", " ++ Grp 2 re_json_string ++ Lit ")")%re.

Definition re_param_contains : re :=
  (Lit "param" ++ re_call_arg 1 ++ Lit " != nil && has(param" ++ re_call_arg 2 ++ Lit ", "
   ++ Grp 3 re_json_string ++ Lit ")")%re.

Definition re_param_compare : re :=
  (Lit "param" ++ re_call_arg 1 ++ Lit " != nil && param" ++ re_call_arg 2 ++ Lit " "
   ++ Grp 3 (Lit ">" || Lit ">=" || Lit "<" || Lit "<=") ++ Lit " " ++ Grp 4 (Plus (Chr numchar)))%re.

Definition re_eq : re :=
  (Grp 1 (Lit "param" || Lit "header") ++ re_call_arg 2 ++ Lit " == " ++ Grp 3 (Plus (Chr dot)))%re.

Definition re_group : re :=
  (Ch 40 ++ Grp 1 (Plus (Chr any)) ++ Lit " ? " ++ Grp 2 (Plus (Chr numchar)) ++ Lit " : 1)")%re.

Definition cap (n : Z) (cs : captures) : jsstr := default [] (capture n cs).

Definition range_of (cs : captures) : cond :=
  Cond (Some SOURCE_TIME) None (Some MATCH_RANGE) (VStr []) (time_func_of (cap 1 cs))
    (Some (cap 2 cs)) (VStr (cap 3 cs)) (VStr (cap 4 cs)).

Definition tryParseTimeCondition (expr : jsstr) : option cond :=
  match exec re_time_range expr with
  | Some cs => Some (range_of cs)
  | None =>
    match exec re_time_wrapped expr with
    | Some cs => Some (range_of cs)
    | None =>
      match exec re_time_simple expr with
      | Some cs =>
        let m := if cap 3 cs =s? $">=" then MATCH_GTE
                 else if cap 3 cs =s? $"<" then MATCH_LT else MATCH_EQ in
        Some (Cond (Some SOURCE_TIME) None (Some m) (VStr (cap 4 cs)) (time_func_of (cap 1 cs))
                (Some (cap 2 cs)) (VStr []) (VStr []))
      | None => None
      end
    end
  end.

Definition parse_eq_condition (expr : jsstr) : outcome (option cond) :=
  match exec re_eq expr with
  | Some cs =>
    match parseExprLiteral (cap 3 cs) with
    | None => Ret None
    | Some v =>
      Ret (Some (req_cond (if cap 1 cs =s? $"header" then SOURCE_HEADER else SOURCE_PARAM)
                   (cap 2 cs) MATCH_EQ (VStr (String_val v))))
    end
  | None => Ret None
  end.

Definition parse_compare_condition (expr : jsstr) : outcome (option cond) :=
  match exec re_param_compare expr with
  | Some cs =>
    if cap 1 cs =s? cap 2 cs then
      let m := if cap 3 cs =s? $">" then MATCH_GT
               else if cap 3 cs =s? $">=" then MATCH_GTE
               else if cap 3 cs =s? $"<" then MATCH_LT else MATCH_LTE in
      Ret (Some (req_cond SOURCE_PARAM (cap 1 cs) m (VStr (cap 4 cs))))
    else parse_eq_condition expr
  | None => parse_eq_condition expr
  end.

(** [value: JSON.parse(m[k])], which throws on a malformed literal. *)
Definition with_json (text : jsstr) (k : val -> cond) : outcome (option cond) :=
  match parse text with
  | Some v => Ret (Some (k v))
  | None => Throw
  end.

Definition parse_param_contains (expr : jsstr) : outcome (option cond) :=
  match exec re_param_contains expr with
  | Some cs =>
    if cap 1 cs =s? cap 2 cs
    then with_json (cap 3 cs) (req_cond SOURCE_PARAM (cap 1 cs) MATCH_CONTAINS)
    else parse_compare_condition expr
  | None => parse_compare_condition expr
  end.

Definition tryParseRequestCondition (expr : jsstr) : outcome (option cond) :=
  match tryParseTimeCondition expr with
  | Some tc => Ret (Some tc)
  | None =>
    match exec re_header_exists expr with
    | Some cs => Ret (Some (req_cond SOURCE_HEADER (cap 1 cs) MATCH_EXISTS (VStr [])))
    | None =>
      match exec re_param_exists expr with
      | Some cs => Ret (Some (req_cond SOURCE_PARAM (cap 1 cs) MATCH_EXISTS (VStr [])))
      | None =>
        match exec re_header_contains expr with
        | Some cs => with_json (cap 2 cs) (req_cond SOURCE_HEADER (cap 1 cs) MATCH_CONTAINS)
        | None => parse_param_contains expr
        end
      end
    end
  end.

(** The loop of [tryParseRuleGroupFactor] over the conjuncts. *)
Fixpoint parse_conditions (parts : list jsstr) : outcome (option (list cond)) :=
  match parts with
  | [] => Ret (Some [])
  | ap :: r =>
    match tryParseRequestCondition (trim ap) with
    | Throw => Throw
    | Ret None => Ret None
    | Ret (Some c) =>
      match parse_conditions r with
      | Ret (Some cs) => Ret (Some (normalizeCondition c :: cs))
      | o => o
      end
    end
  end.

Definition tryParseRuleGroupFactor (part : jsstr) : outcome (option group) :=
  match exec re_group part with
  | None => Ret None
  | Some cs =>
    match parse_conditions (splitTopLevelAnd (cap 1 cs)) with
    | Throw => Throw
    | Ret None => Ret None
    | Ret (Some []) => Ret None
    | Ret (Some conds) => Ret (Some (Group conds (cap 2 cs)))
    end
  end.

Fixpoint parse_groups (parts : list jsstr) : outcome (option (list group)) :=
  match parts with
  | [] => Ret (Some [])
  | p :: r =>
    match tryParseRuleGroupFactor p with
    | Throw => Throw
    | Ret None => Ret None
    | Ret (Some g) =>
      match parse_groups r with
      | Ret (Some gs) => Ret (Some (g :: gs))
      | o => o
      end
    end
  end.

Definition tryParseRequestRuleExpr (expr : jsstr) : outcome (option (list group)) :=
  let trimmed := trim expr in
  if negb (nonempty trimmed) then Ret (Some [])
  else parse_groups (splitTopLevelMultiply trimmed).

(** ** Combining and splitting *)

Fixpoint outer_loop (s : jsstr) (depth : Z) : bool :=
  match s with
  | [] => depth =? 0
  | c :: r =>
    let d := upd_depth depth c in
    if (d =? 0) && nonempty r then false else outer_loop r d
  end.

Definition hasFullOuterParens (expr : jsstr) : bool :=
  startsWith $"(" expr && endsWith $")" expr && outer_loop expr 0.

(** [s.slice(1, -1)] *)
Definition inner (s : jsstr) : jsstr := take (length s - 2) (drop 1 s).

(** The [while] loop: each iteration removes at least one character. *)
Fixpoint unwrap_loop (fuel : nat) (current : jsstr) : jsstr :=
  match fuel with
  | O => current
  | S f => if hasFullOuterParens current then unwrap_loop f (trim (inner current)) else current
  end.

Definition unwrapOuterParens (expr : jsstr) : jsstr :=
  unwrap_loop (S (length expr)) (trim expr).

Definition combineBillingExpr (baseExpr requestRuleExpr : jsstr) : jsstr :=
  let base := trim baseExpr in
  let rules := trim requestRuleExpr in
  if negb (nonempty base) then []
  else if negb (nonempty rules) then base
  else $"(" ++ base ++ $") * " ++ rules.

(** [tryParseRequestRuleExpr(part) !== null && ...length > 0] *)
Definition is_rule_part (part : jsstr) : outcome bool :=
  match tryParseRequestRuleExpr part with
  | Throw => Throw
  | Ret (Some (_ :: _)) => Ret true
  | Ret _ => Ret false
  end.

Fixpoint partition_parts (parts : list jsstr) : outcome (list jsstr * list jsstr) :=
  match parts with
  | [] => Ret ([], [])
  | p :: r =>
    match is_rule_part p with
    | Throw => Throw
    | Ret b =>
      match partition_parts r with
      | Throw => Throw
      | Ret (rules, base) => Ret (if b then (p :: rules, base) else (rules, p :: base))
      end
    end
  end.

(** The pair [billingExpr, requestRuleExpr]. *)
Definition splitBillingExprAndRequestRules (expr : jsstr) : outcome (jsstr * jsstr) :=
  let trimmed := trim expr in
  if negb (nonempty trimmed) then Ret ([], [])
  else
    let parts := splitTopLevelMultiply trimmed in
    if (length parts <=? 1)%nat then Ret (trimmed, [])
    else
      match partition_parts parts with
      | Throw => Throw
      | Ret ((_ :: _) as ruleParts, [base]) => Ret (unwrapOuterParens base, join $" * " ruleParts)
      | Ret _ => Ret (trimmed, [])
      end.

End RequestRuleExpr.
