(* ===== verification/RequestRuleRoundtrip.v ===== *)
(** * One request condition: its printed form, and parsing it back

    [wf_cond] describes the conditions whose printed form determines them;
    [text_of] spells that form out; each pattern of the parser is shown to match
    it in exactly one way or not at all ([parse_text]).  [RequestRuleGroups]
    builds the round trip of whole rule lists on this. *)
From S2P Require Import Prelude JSNum JSValue Json Regex RequestRuleExpr.
#[local] Open Scope Z_scope.

Module RequestRuleRoundtrip.
Import RequestRuleExpr.

(** Characters that need no escape in JSON text and that neither the splitters
    (parentheses, ampersand) nor the wrapping test (vertical bar) look at. *)
Definition safe (c : Z) : bool :=
  (32 <=? c) && ((c <? 55296) || ((57344 <=? c) && (c <? 65536)))
  && negb (in_set ([34; 92; 40; 41; 38; 124; 8232; 8233]) c).

Definition path_ok (p : jsstr) : bool := nonempty p && forallb safe p && edges_ok p.
Definition text_ok (v : jsstr) : bool := forallb safe v && edges_ok v.

(** Conditions that the printed form determines. *)
Inductive wf_cond : cond -> Prop :=
| wf_time_simple f tz m v :
    nonempty tz = true -> forallb safe tz = true -> m ∈ [MATCH_EQ; MATCH_GTE; MATCH_LT] ->
    isNumericLiteral v = true ->
    wf_cond (time_cond f tz m (VStr v) (VStr []) (VStr []))
| wf_time_range f tz s e :
    nonempty tz = true -> forallb safe tz = true ->
    isNumericLiteral s = true -> isNumericLiteral e = true ->
    wf_cond (time_cond f tz MATCH_RANGE (VStr []) (VStr s) (VStr e))
| wf_exists src p :
    src <> SOURCE_TIME -> path_ok p = true ->
    wf_cond (req_cond src p MATCH_EXISTS (VStr []))
| wf_contains p v :
    path_ok p = true -> text_ok v = true ->
    wf_cond (req_cond SOURCE_HEADER p MATCH_CONTAINS (VStr v))
| wf_eq src p v :
    src <> SOURCE_TIME -> path_ok p = true -> text_ok v = true ->
    wf_cond (req_cond src p MATCH_EQ (VStr v)).

Record wf_group (g : group) : Prop := {
  wf_conds : Forall wf_cond (conditions g);
  wf_some : conditions g <> [];
  wf_mult : isNumericLiteral (multiplier g) = true;
}.

(** ** Characters *)

Lemma numchar_facts c :
  numchar c = true -> is_ws c = false /\ c <> 32 /\ c <> 34 /\ c <> 40 /\ c <> 41 /\ c <> 38
                      /\ c <> 124 /\ dot c = true.
Proof.
  unfold numchar. intros [H|H]%orb_true_iff.
  - split; [by apply is_digit_not_ws|]. unfold is_digit, dot in *. lia.
  - revert H. js_lit. cbn. rewrite !orb_true_iff, !Z.eqb_eq.
    intros [->|[->|[->|[->|[->|?]]]]]; done.
Qed.

Lemma safe_facts c :
  safe c = true -> unit16 c /\ c <> 34 /\ c <> 92 /\ c <> 40 /\ c <> 41 /\ c <> 38 /\ c <> 124
                   /\ is_lead c = false /\ is_trail c = false /\ dot c = true /\ 32 <= c.
Proof.
  unfold safe, unit16, is_lead, is_trail, dot. cbn [in_set existsb]. intros H. lia.
Qed.

Lemma safe_not_in c w : forallb safe w = true -> safe c = false -> c ∉ w.
Proof. apply forallb_not_elem. Qed.

Lemma quote_safe w : forallb safe w = true -> quote w = 34 :: w ++ [34].
Proof.
  intros H. unfold quote. cbn [app]. f_equal. f_equal.
  induction w as [|c w IH]; [done|]. cbn in H. bsplit. cbn [quote_body].
  destruct (safe_facts c) as (? & ? & ? & ? & ? & ? & ? & -> & -> & ? & ?); [done|].
  rewrite IH by done. unfold quote_unit.
  destruct (Z.eqb_spec c 34), (Z.eqb_spec c 92), (Z.eqb_spec c 8), (Z.eqb_spec c 9),
    (Z.eqb_spec c 10), (Z.eqb_spec c 12), (Z.eqb_spec c 13), (Z.ltb_spec c 32); lia || done.
Qed.

Lemma parse_quote w : Forall unit16 w -> parse (quote w) = Some (VStr w).
Proof. intros H. by apply (parse_stringify (VStr w)). Qed.

Lemma safe_units w : forallb safe w = true -> Forall unit16 w.
Proof.
  intros H. apply Forall_forall. intros c Hc%list_elem_of_In. rewrite forallb_forall in H.
  by destruct (safe_facts c (H c Hc)).
Qed.

(** ** Numeric literals *)

Lemma within_numeric : within numchar NUMERIC_LITERAL_REGEX.
Proof.
  assert (Hd : forall c, is_digit c = true -> numchar c = true).
  { intros c H. unfold numchar. by rewrite H. }
  assert (Hs : forall l c, incl l [46; 101; 69; 43; 45] -> in_set l c = true -> numchar c = true).
  { intros l c Hl H. unfold numchar. apply orb_true_iff; right. js_lit. unfold in_set in *.
    apply existsb_exists in H as (x & Hx & Hc). apply existsb_exists. eauto. }
  assert (Hc : forall x, In x [46; 45] -> within numchar (Ch x)).
  { intros x Hx. apply within_chr. intros c ->%Z.eqb_eq. destruct Hx as [<-|[<-|[]]]; done. }
  unfold NUMERIC_LITERAL_REGEX, Opt, Plus.
  repeat first [apply within_seq | apply within_alt | apply within_eps | apply within_star
               | apply Hc; cbn; tauto | apply within_chr; intros c;
                 first [apply Hd | apply Hs; js_lit; intros x; cbn; tauto]].
Qed.

Lemma numeric_chars s : isNumericLiteral s = true -> s <> [] /\ forallb numchar s = true.
Proof.
  intros H. split; [intros ->; discriminate|].
  apply test_true in H as (cs & ([s1 cs1] & H1 & [Hs1 _]%run_eos)%run_seq).
  destruct (within_numeric _ _ _ H1) as (w & -> & Hw). cbn in *. subst s1.
  by rewrite app_nil_r.
Qed.

Lemma numeric_edges s : isNumericLiteral s = true -> trim s = s.
Proof.
  intros [Hn H]%numeric_chars. apply trim_id. destruct s as [|c s]; [done|].
  rewrite forallb_forall in H. cbn -[List.last].
  destruct (exists_last (l := c :: s) ltac:(done)) as (l' & x & Hl).
  assert (Hx : In x (c :: s)) by (rewrite Hl; apply in_or_app; right; by left).
  rewrite Hl, List.last_last.
  destruct (numchar_facts c) as [-> _]; [apply H; by left|].
  by destruct (numchar_facts x (H x Hx)) as [-> _].
Qed.

(** ** The pieces of the patterns *)

Lemma run_call_arg n s cs st' :
  st' ∈ run (re_call_arg n) (s, cs) <->
  exists w r, s = 40 :: 34 :: (w ++ 34 :: 41 :: r) /\ w <> [] /\ (34 ∉ w) /\ st' = (r, (n, w) :: cs).
Proof.
  unfold re_call_arg. split.
  - intros H. re_inv. eexists _, _. split; [reflexivity|]. split; [done|]. split; [|done].
    by eapply forallb_not_elem.
  - intros (w & r & -> & Hn & Hw & ->).
    apply run_seq. eexists. split; [apply run_ch; by eexists|].
    apply run_seq. eexists. split; [apply run_ch; by eexists|].
    apply run_seq. eexists. split.
    { apply run_grp_plus_chr. exists w, (34 :: 41 :: r). split; [done|]. split; [done|]. split; [|done].
      apply forallb_forall. intros c Hc. unfold not_dquote. apply negb_true_iff, Z.eqb_neq.
      intros ->. by apply Hw, list_elem_of_In. }
    apply run_seq. eexists. split; [apply run_ch; by eexists|]. apply run_ch. by eexists.
Qed.

(** A choice of literals: which words it matches. *)
Ltac lit_alt :=
  intros ? ? ?; rewrite ?run_alt, ?run_lit; split;
  [ intros H; repeat destruct H as [H|H]; destruct H as (r & -> & ->); eexists _, r;
    (split; [|split; reflexivity]); cbn; tauto
  | intros (w & r & Hw & -> & ->); cbn in Hw; destruct_or?; subst; naive_solver ].

(** A group around a choice of literals. *)
Lemma run_grp_lit_alt n (l : list string) r0 s cs st' :
  (forall s cs st', st' ∈ run r0 (s, cs) <-> exists w r, In w l /\ s = js w ++ r /\ st' = (r, cs)) ->
  st' ∈ run (Grp n r0) (s, cs) <->
  exists w r, In w l /\ s = js w ++ r /\ st' = (r, (n, js w) :: cs).
Proof.
  intros Hr. rewrite run_grp.
  2:{ intros st1 (w & r & _ & -> & ->)%Hr. by exists (js w). }
  split.
  - intros (w & r & cs1 & -> & (w' & r' & Hin & E & ?)%Hr & ->). simplify_eq.
    apply app_inv_tail in E as ->. by exists w', r'.
  - intros (w & r & Hin & -> & ->). exists (js w), r, cs. split; [done|]. split; [|done].
    apply Hr. by exists w, r.
Qed.

Lemma run_time_func s cs st' :
  st' ∈ run re_time_func (s, cs) <->
  exists f r, s = time_func_str f ++ r /\ st' = (r, (1, time_func_str f) :: cs).
Proof.
  unfold re_time_func.
  rewrite (run_grp_lit_alt 1 ["hour"; "minute"; "weekday"; "month"; "day"]%string).
  - split.
    + intros (w & r & Hw & -> & ->).
      destruct Hw as [<-|[<-|[<-|[<-|[<-|[]]]]]];
        [exists Hour|exists Minute|exists Weekday|exists Month|exists Day]; by exists r.
    + intros (f & r & -> & ->). destruct f;
        [exists "hour"%string|exists "minute"%string|exists "weekday"%string
        |exists "month"%string|exists "day"%string]; exists r; cbn; tauto.
  - lit_alt.
Qed.

Lemma time_func_of_str f : time_func_of (time_func_str f) = Some f.
Proof. by destruct f. Qed.

Lemma time_func_no_paren f : 40 ∉ time_func_str f.
Proof. destruct f; cbn; set_solver. Qed.

Lemma time_func_str_inj f f' : time_func_str f = time_func_str f' -> f = f'.
Proof. intros E. apply (f_equal time_func_of) in E. rewrite !time_func_of_str in E. by simplify_eq. Qed.

(** ** The printed conditions *)

(** [f("arg")rest] *)
Definition call (f arg rest : jsstr) : jsstr := f ++ 40 :: 34 :: (arg ++ 34 :: 41 :: rest).

Definition op_str (m : mode) : jsstr :=
  match m with MATCH_GTE => [62; 61] | MATCH_LT => [60] | _ => [61; 61] end.

Definition src_str (s : source) : jsstr :=
  match s with SOURCE_HEADER => $"header" | _ => $"param" end.

Definition literal (v : jsstr) : jsstr :=
  if (v =s? $"true") || (v =s? $"false") then v
  else if isNumericLiteral v then v else 34 :: (v ++ [34]).

(** What the printer writes for a well-formed condition. *)
Definition text_of (c : cond) : jsstr :=
  let p := default [] (path c) in
  let v := String_val (value c) in
  let f := time_func_str (default Hour (timeFunc c)) in
  let tz := default [] (timezone c) in
  match source_ c, mode_ c with
  | Some SOURCE_TIME, Some MATCH_RANGE =>
    call f tz ($" >= " ++ String_val (rangeStart c) ++ $" || "
               ++ call f tz ($" < " ++ String_val (rangeEnd c)))
  | Some SOURCE_TIME, Some m => call f tz (32 :: (op_str m ++ 32 :: v))
  | Some SOURCE_HEADER, Some MATCH_EXISTS => call $"header" p ($" != " ++ [34; 34])
  | Some _, Some MATCH_EXISTS => call $"param" p $" != nil"
  | Some _, Some MATCH_CONTAINS =>
    call $"has(header" p ($", " ++ 34 :: (v ++ 34 :: [41]))
  | Some s, _ => call (src_str s) p ($" == " ++ literal v)
  | None, _ => []
  end.

Lemma str_or_nonempty tz d : nonempty tz = true -> str_or (Some tz) d = tz.
Proof. by destruct tz. Qed.

Lemma buildExprLiteral_literal v :
  text_ok v = true -> buildExprLiteral MATCH_EQ (VStr v) = literal v.
Proof.
  unfold text_ok. intros H. bsplit. unfold buildExprLiteral, literal. cbn [truthy String_val].
  assert ((if nonempty v then v else []) = v) as -> by (by destruct v).
  rewrite trim_id by done. by rewrite quote_safe.
Qed.

Lemma path_ok_facts p :
  path_ok p = true -> nonempty p = true /\ forallb safe p = true /\ trim p = p /\ str_or (Some p) [] = p.
Proof.
  unfold path_ok. intros H. bsplit. repeat split; auto using trim_id, str_or_nonempty.
Qed.

(** Printing a well-formed condition writes [text_of] it. *)
Lemma build_wf c : wf_cond c -> buildRequestConditionExpr c = text_of c.
Proof.
  destruct 1 as [f tz m v Htz Hs Hm Hv|f tz s e Htz Hsf Hs He|src p Hsrc Hp|p v Hp Hv|src p v Hsrc Hp Hv].
  - unfold buildRequestConditionExpr, buildTimeConditionExpr, text_of. cbn [source_ time_cond].
    cbn [normalizeCondition source_ time_cond timeFunc timezone mode_ value default from_option id
         text_or_empty is_nullish String_val pick_mode].
    rewrite str_or_nonempty, quote_safe by done. rewrite numeric_edges, Hv by done.
    rewrite !elem_of_cons, elem_of_nil in Hm. unfold call. js_lit.
    destruct Hm as [->|[->|[->|[]]]]; cbn [getRequestRuleMatchOptions]; vm_compute (bool_decide _);
      cbn [negb op_str]; rewrite <- !app_assoc; cbn [app]; rewrite <- !app_assoc; done.
  - unfold buildRequestConditionExpr, buildTimeConditionExpr, text_of. cbn [source_ time_cond].
    cbn [normalizeCondition source_ time_cond timeFunc timezone mode_ value default from_option id
         text_or_empty is_nullish String_val pick_mode rangeStart rangeEnd].
    vm_compute (bool_decide _). cbn iota.
    rewrite str_or_nonempty, quote_safe by done.
    rewrite (numeric_edges s), (numeric_edges e), Hs, He by done.
    unfold call. js_lit. cbn [negb orb].
    rewrite <- !app_assoc; cbn [app]; rewrite <- !app_assoc; done.
  - destruct (path_ok_facts p Hp) as (Hn & Hsf & Ht & Hso).
    unfold buildRequestConditionExpr, text_of, call. destruct src; [| |done];
    cbn [normalizeCondition req_cond source_ path mode_ value default from_option id
         text_or_empty is_nullish String_val pick_mode]; rewrite Hso, Ht, Hn, quote_safe by done;
      js_lit; vm_compute (bool_decide _); cbn [negb];
      rewrite <- !app_assoc; cbn [app]; rewrite <- !app_assoc; done.
  - destruct (path_ok_facts p Hp) as (Hn & Hsf & Ht & Hso). unfold text_ok in Hv. bsplit.
    unfold buildRequestConditionExpr, text_of, call.
    cbn [normalizeCondition req_cond source_ path mode_ value default from_option id
         text_or_empty is_nullish String_val pick_mode]; rewrite Hso, Ht, Hn, quote_safe by done.
    unfold buildExprLiteral. cbn [truthy String_val].
    assert ((if nonempty v then v else []) = v) as -> by (by destruct v).
    rewrite trim_id, quote_safe by done.
    js_lit; vm_compute (bool_decide _); cbn [negb];
      rewrite <- !app_assoc; cbn [app]; rewrite <- !app_assoc; done.
  - destruct (path_ok_facts p Hp) as (Hn & Hsf & Ht & Hso).
    unfold buildRequestConditionExpr, text_of, call. destruct src; [| |done];
    cbn [normalizeCondition req_cond source_ path mode_ value default from_option id
         text_or_empty is_nullish String_val pick_mode]; rewrite Hso, Ht, Hn, quote_safe by done;
      vm_compute (bool_decide _); cbn [negb default from_option id];
      rewrite buildExprLiteral_literal by done; cbn [src_str]; js_lit;
      rewrite <- !app_assoc; cbn [app]; rewrite <- !app_assoc; done.
Qed.

(** ** The patterns match what they spell *)

Definition matches (r : re) (s : jsstr) (cs : captures) : Prop :=
  ([], cs) ∈ run (Seq r Eos) (s, []).

Lemma run_time_op s cs st' :
  st' ∈ run (Grp 3 (Lit "==" || Lit ">=" || Lit "<")%re) (s, cs) <->
  exists w r, In w ["=="; ">="; "<"]%string /\ s = js w ++ r /\ st' = (r, (3, js w) :: cs).
Proof. apply run_grp_lit_alt. lit_alt. Qed.

Lemma run_cmp_op s cs st' :
  st' ∈ run (Grp 3 (Lit ">" || Lit ">=" || Lit "<" || Lit "<=")%re) (s, cs) <->
  exists w r, In w [">"; ">="; "<"; "<="]%string /\ s = js w ++ r /\ st' = (r, (3, js w) :: cs).
Proof. apply run_grp_lit_alt. lit_alt. Qed.

Lemma run_source s cs st' :
  st' ∈ run (Grp 1 (Lit "param" || Lit "header")%re) (s, cs) <->
  exists w r, In w ["param"; "header"]%string /\ s = js w ++ r /\ st' = (r, (1, js w) :: cs).
Proof. apply run_grp_lit_alt. lit_alt. Qed.

(** A captured string literal is a prefix between double quotes. *)
Lemma run_json_string n s cs st' :
  st' ∈ run (Grp n re_json_string) (s, cs) ->
  exists w r, s = 34 :: (w ++ 34 :: r) /\ st' = (r, (n, 34 :: (w ++ [34])) :: cs).
Proof.
  assert (Hw : within any (Star (Chr (fun c => negb (c =? 34) && negb (c =? 92)) || (Ch 92 ++ Chr dot)))%re).
  { apply within_star, within_alt; [by apply within_chr|].
    apply within_seq; by apply within_chr. }
  assert (Hj : forall s cs st1, st1 ∈ run re_json_string (s, cs) ->
    exists w r cs1, s = 34 :: (w ++ 34 :: r) /\ st1 = (r, cs1) /\ cs1 = cs).
  { intros s0 cs0 st1 H. unfold re_json_string in H. re_inv.
    match goal with H : (?t, ?c) ∈ run (Star _) (?u, ?d) |- _ => rename H into Hs end.
    assert (Hcs : forall n st st', st' ∈ iterate (run (Chr (fun c => negb (c =? 34) && negb (c =? 92))
                     || (Ch 92 ++ Chr dot))%re) n st -> st'.2 = st.2).
    { clear. induction n as [|n IH]; intros st st'; cbn [iterate].
      - by intros ->%list_elem_of_singleton.
      - intros [H|H%list_elem_of_singleton]%elem_of_app; [|by subst].
        apply elem_of_flat_map in H as ([s1 c1] & H1 & H2).
        destruct (Nat.ltb _ _); [|by apply elem_of_nil in H2]. apply IH in H2.
        destruct st as [s c]. apply run_alt in H1 as [H1|H1]; re_inv; done. }
    destruct (Hw _ _ _ Hs) as (w & -> & _). apply Hcs in Hs. cbn in *. subst.
    eexists w, _, _. split; [reflexivity|]. split; reflexivity. }
  intros H. apply run_grp in H.
  2:{ intros st1 (w & r & ? & -> & -> & _)%Hj. exists (34 :: w ++ [34]). cbn. by rewrite <- app_assoc. }
  destruct H as (w & r & cs1 & -> & (w' & r' & ? & E & ? & ->)%Hj & ->). simplify_eq.
  exists w', r'. split; [done|]. f_equal. f_equal. f_equal.
  apply (app_inv_tail r'). rewrite E. cbn. by rewrite <- app_assoc.
Qed.

Lemma run_json_string_safe n v r cs :
  forallb safe v = true ->
  (r, (n, 34 :: (v ++ [34])) :: cs) ∈ run (Grp n re_json_string) (34 :: (v ++ 34 :: r), cs).
Proof.
  intros Hv. cbn [run]. apply list_elem_of_In, in_map_iff. exists (r, cs). split.
  - cbn [fst snd]. f_equal. f_equal. f_equal.
    replace (34 :: v ++ 34 :: r) with ((34 :: v ++ [34]) ++ r) by (cbn; by rewrite <- app_assoc).
    rewrite length_app. replace (_ + _ - _)%nat with (length (34 :: v ++ [34])) by lia.
    by rewrite take_app_length.
  - apply list_elem_of_In. unfold re_json_string.
    apply run_seq. eexists. split; [apply run_ch; by eexists|].
    apply run_seq. exists (34 :: r, cs). split; [|apply run_ch; by eexists].
    induction v as [|c v IH]; [apply run_star_nil|]. cbn in Hv. bsplit. cbn [app].
    eapply run_star_step; [|shelve|by apply IH].
    apply run_alt; left. apply run_chr. eexists _, _. split; [done|]. split; [|done].
    destruct (safe_facts c) as (? & ? & ? & _); [done|].
    destruct (Z.eqb_spec c 34), (Z.eqb_spec c 92); done.
    Unshelve. cbn. lia.
Qed.

(** Inversion of a match of one of the patterns. *)
Ltac rr_inv :=
  unfold matches, re_time_range, re_time_wrapped, re_range_body, re_time_simple,
    re_header_exists, re_param_exists, re_header_contains, re_param_contains,
    re_param_compare, re_eq, re_group in *;
  repeat match goal with
  | H : _ ∈ run (Seq _ _) _ |- _ => apply run_seq in H as ([? ?] & ? & ?)
  | H : _ ∈ run re_time_func _ |- _ => apply run_time_func in H as (? & ? & ? & ?); simplify_eq
  | H : _ ∈ run (re_call_arg _) _ |- _ => apply run_call_arg in H as (? & ? & ? & ? & ? & ?); simplify_eq
  | H : _ ∈ run (Grp _ re_json_string) _ |- _ => apply run_json_string in H as (? & ? & ? & ?); simplify_eq
  | H : _ ∈ run (Grp 1 (Alt (Lit "param") _)) _ |- _ => apply run_source in H as (? & ? & ? & ? & ?); simplify_eq
  | H : _ ∈ run (Ref _) _ |- _ => eapply run_ref in H; [|reflexivity]; destruct H as (? & ? & ?); simplify_eq
  | _ => progress re_inv
  end.

(** Right-associate the concatenations of a goal or hypothesis. *)
Ltac flat := repeat (progress (rewrite <- ?app_assoc; cbn [app])).
Ltac flat_in H := repeat (progress (rewrite <- ?app_assoc in H; cbn [app] in H)).

(** Texts that do not start like a time condition. *)
Lemma no_time_func s :
  (forall f r, s <> time_func_str f ++ r) ->
  exec re_time_range s = None /\ exec re_time_simple s = None.
Proof.
  intros H. split; apply exec_none; intros cs Hm;
    unfold re_time_range, re_range_body, re_time_simple in Hm;
    apply run_seq in Hm as ([? ?] & Hm & _); apply run_seq in Hm as ([? ?] & Hm & _);
    apply run_time_func in Hm as (f & r & E & _); by destruct (H f r).
Qed.

Lemma no_wrapped s : hd 0 s <> 40 -> exec re_time_wrapped s = None.
Proof.
  intros H. apply exec_none. intros cs Hm. unfold re_time_wrapped in Hm.
  apply run_seq in Hm as ([? ?] & Hm & _). apply run_seq in Hm as ([? ?] & Hm & _).
  apply run_ch in Hm as (r & -> & _). done.
Qed.

Lemma time_func_call f tz r f' tz' r' :
  (34 ∉ tz) -> (34 ∉ tz') ->
  call (time_func_str f) tz r = call (time_func_str f') tz' r' ->
  f = f' /\ tz = tz' /\ r = r'.
Proof.
  intros H H' E. unfold call in E.
  apply app_delim_inj in E as [->%time_func_str_inj E]; [|apply time_func_no_paren..].
  simplify_eq. apply app_delim_inj in E as [-> E]; [|done..]. by simplify_eq.
Qed.

Lemma call_inj f p r p' r' :
  (34 ∉ p) -> (34 ∉ p') -> call f p r = call f p' r' -> p = p' /\ r = r'.
Proof.
  intros H H' E. unfold call in E. apply app_inv_head in E. simplify_eq.
  apply app_delim_inj in E as [-> E]; [|done..]. by simplify_eq.
Qed.

Lemma numchar_no_space a b r : forallb numchar a = true -> a = b ++ 32 :: r -> False.
Proof.
  intros H ->. rewrite forallb_app in H. cbn in H. bsplit.
  by destruct (numchar_facts 32) as (? & ? & _).
Qed.

Section Parse.
Context (f : time_func) (tz : jsstr) (Htz : nonempty tz = true) (Hsafe : forallb safe tz = true).

Lemma tz_no_dquote : 34 ∉ tz.
Proof. by apply (safe_not_in 34 tz Hsafe). Qed.

Lemma tz_nonnil : tz <> [].
Proof. by destruct tz. Qed.

Definition range_text (a b : jsstr) : jsstr :=
  call (time_func_str f) tz
    ($" >= " ++ a ++ $" || " ++ call (time_func_str f) tz ($" < " ++ b)).

Definition range_caps (a b : jsstr) : captures := [(4, b); (3, a); (2, tz); (1, time_func_str f)].

Lemma run_range_body a b r :
  isNumericLiteral a = true -> isNumericLiteral b = true ->
  (r, range_caps a b) ∈ run re_range_body (range_text a b ++ r, []).
Proof.
  intros [Hna Ha]%numeric_chars [Hnb Hb]%numeric_chars.
  pose proof tz_no_dquote. pose proof tz_nonnil.
  unfold re_range_body, range_text, call. flat.
  apply run_seq. eexists. split; [apply run_time_func; eexists _, _; split; reflexivity|].
  apply run_seq. eexists. split; [apply run_call_arg; eexists _, _; split; [reflexivity|by repeat split]|].
  apply run_seq. eexists. split; [apply run_lit; eexists; split; reflexivity|].
  apply run_seq. eexists. split; [apply run_grp_plus_chr; eexists _, _; split; [reflexivity|by repeat split]|].
  apply run_seq. eexists. split; [apply run_lit; eexists; split; reflexivity|].
  apply run_seq. eexists. split; [eapply run_ref; [reflexivity|]; eexists; split; reflexivity|].
  apply run_seq. eexists. split; [apply run_ch; by eexists|].
  apply run_seq. eexists. split; [apply run_ch; by eexists|].
  apply run_seq. eexists. split; [eapply run_ref; [reflexivity|]; eexists; split; reflexivity|].
  apply run_seq. eexists. split; [apply run_ch; by eexists|].
  apply run_seq. eexists. split; [apply run_ch; by eexists|].
  apply run_seq. eexists. split; [apply run_lit; eexists; split; reflexivity|].
  apply run_grp_plus_chr. eexists _, _. split; [reflexivity|by repeat split].
Qed.

(** The body of a range pattern matches only in the intended way. *)
Lemma run_range_body_inv a b r r' cs :
  isNumericLiteral a = true -> forallb numchar b = true ->
  (r', cs) ∈ run re_range_body (range_text a b ++ r, []) ->
  exists b', b ++ r = b' ++ r' /\ forallb numchar b' = true /\ cs = range_caps a b'.
Proof.
  intros [_ Ha]%numeric_chars Hb H. pose proof tz_no_dquote as Ht. unfold range_text in H.
  rr_inv.
  match goal with H : call _ _ _ ++ _ = _ |- _ => rename H into E end.
  unfold call in E. js_lit_in E. flat_in E.
  apply app_delim_inj in E as [->%time_func_str_inj E]; [|apply time_func_no_paren..].
  injection E as E. apply app_delim_inj in E as [-> E]; [|done..]. injection E as E.
  apply app_delim_inj in E as [-> E]; [|by eapply forallb_not_elem..]. injection E as E.
  apply app_inv_head in E. injection E as E. apply app_inv_head in E. injection E as E.
  eexists. split; [exact E|]. split; [done|]. unfold range_caps. congruence.
Qed.

Lemma exec_range a b :
  isNumericLiteral a = true -> isNumericLiteral b = true ->
  exec re_time_range (range_text a b) = Some (range_caps a b).
Proof.
  intros Ha Hb. pose proof (numeric_chars b Hb) as [_ Hb']. apply exec_unique.
  - apply run_seq. exists ([], range_caps a b). split; [|by apply run_eos].
    rewrite <- (app_nil_r (range_text a b)). by apply run_range_body.
  - intros cs' H. apply run_seq in H as ([r cs] & H & [-> ?]%run_eos). simplify_eq.
    rewrite <- (app_nil_r (range_text a b)) in H.
    apply run_range_body_inv in H as (b' & E & _ & ->); [|done..].
    by rewrite !app_nil_r in E; subst.
Qed.

Lemma exec_wrapped a b :
  isNumericLiteral a = true -> isNumericLiteral b = true ->
  exec re_time_wrapped (40 :: (range_text a b ++ [41])) = Some (range_caps a b).
Proof.
  intros Ha Hb. pose proof (numeric_chars b Hb) as [_ Hb']. unfold re_time_wrapped. apply exec_unique.
  - apply run_seq. exists ([], range_caps a b). split; [|by apply run_eos].
    apply run_seq. eexists. split; [apply run_ch; by eexists|].
    apply run_seq. eexists. split; [by apply run_range_body|]. apply run_ch. by eexists.
  - intros cs' H. apply run_seq in H as ([r cs] & H & [-> ?]%run_eos). simplify_eq.
    apply run_seq in H as ([r0 cs0] & Hc & H1). apply run_ch in Hc as (? & ? & ?). simplify_eq.
    apply run_seq in H1 as ([r1 cs1] & H2 & Hc). apply run_ch in Hc as (? & -> & ?). simplify_eq.
    apply run_range_body_inv in H2 as (b' & E & _ & ->); [|done..].
    by apply app_inj_tail in E as [-> _].
Qed.

Lemma parse_range a b :
  isNumericLiteral a = true -> isNumericLiteral b = true ->
  tryParseTimeCondition (range_text a b)
  = Some (time_cond f tz MATCH_RANGE (VStr []) (VStr a) (VStr b))
  /\ tryParseTimeCondition (40 :: (range_text a b ++ [41]))
     = Some (time_cond f tz MATCH_RANGE (VStr []) (VStr a) (VStr b)).
Proof.
  intros Ha Hb. unfold tryParseTimeCondition.
  rewrite exec_range, exec_wrapped by done.
  destruct (no_time_func (40 :: (range_text a b ++ [41]))) as [-> _]; [by intros []|].
  unfold range_of, range_caps, cap; cbn [capture default from_option Z.eqb Pos.eqb id].
  by rewrite time_func_of_str.
Qed.

Lemma call_head g p r : hd 0 (time_func_str g) = hd 0 (call (time_func_str g) p r).
Proof. by destruct g. Qed.

Lemma parse_simple m v :
  m ∈ [MATCH_EQ; MATCH_GTE; MATCH_LT] -> isNumericLiteral v = true ->
  tryParseTimeCondition (call (time_func_str f) tz (32 :: (op_str m ++ 32 :: v)))
  = Some (time_cond f tz m (VStr v) (VStr []) (VStr [])).
Proof.
  intros Hm [Hnv Hv]%numeric_chars. pose proof tz_no_dquote as Ht. pose proof tz_nonnil.
  rewrite !elem_of_cons, elem_of_nil in Hm.
  assert (Hop : exists w, In w ["=="; ">="; "<"]%string /\ op_str m = js w).
  { destruct Hm as [->|[->|[->|[]]]];
      [exists "=="%string|exists ">="%string|exists "<"%string]; cbn; tauto. }
  destruct Hop as (w & Hw & Hopw). unfold tryParseTimeCondition.
  assert (exec re_time_range (call (time_func_str f) tz (32 :: (op_str m ++ 32 :: v))) = None) as ->.
  { apply exec_none. intros cs Hr. rr_inv.
    match goal with H : call _ _ _ = _ |- _ => apply time_func_call in H as (_ & _ & E); [|done..] end.
    destruct Hm as [->|[->|[->|[]]]]; try discriminate E. js_lit_in E. cbn [op_str app] in E.
    injection E as E. exact (numchar_no_space _ _ _ Hv E). }
  rewrite no_wrapped by (rewrite <- call_head; by destruct f).
  assert (exec re_time_simple (call (time_func_str f) tz (32 :: (op_str m ++ 32 :: v)))
          = Some [(4, v); (3, op_str m); (2, tz); (1, time_func_str f)]) as ->.
  { apply exec_unique.
    - apply run_seq. eexists. split; [|by apply run_eos]. unfold re_time_simple, call.
      apply run_seq. eexists. split; [apply run_time_func; eexists _, _; split; reflexivity|].
      apply run_seq. eexists. split; [apply run_call_arg; eexists _, _; split; [reflexivity|by repeat split]|].
      apply run_seq. eexists. split; [apply run_lit; eexists; split; reflexivity|].
      apply run_seq. eexists. split; [apply run_time_op; exists w, (32 :: v); by rewrite Hopw|].
      apply run_seq. eexists. split; [apply run_lit; eexists; split; reflexivity|].
      apply run_grp_plus_chr. exists v, []. by rewrite app_nil_r, Hopw.
    - intros cs Hr. unfold re_time_simple in Hr. rr_inv.
      match goal with H : _ ∈ run (Grp 3 _) _ |- _ =>
        apply run_time_op in H as (w' & r' & Hw' & ? & ?); simplify_eq end.
      re_inv.
      match goal with H : call _ _ _ = _ |- _ =>
        rewrite ?app_nil_r in H; apply time_func_call in H as (<- & <- & E); [|done..] end.
      rewrite Hopw in *. js_lit_in E. cbn [app] in E. injection E as E.
      apply app_delim_inj in E as [E1 ->]; [congruence| |];
        (repeat destruct Hw as [<-|Hw]; repeat destruct Hw' as [<-|Hw']; try done; cbn; set_solver). }
  unfold cap; cbn [capture default from_option Z.eqb Pos.eqb id]. rewrite time_func_of_str.
  by destruct Hm as [->|[->|[->|[]]]].
Qed.

End Parse.

(** ** Request conditions *)

Lemma not_time w p r :
  In w ["header"; "param"; "has(header"]%string -> tryParseTimeCondition (call (js w) p r) = None.
Proof.
  intros Hw. unfold tryParseTimeCondition, call.
  destruct (no_time_func (js w ++ 40 :: 34 :: (p ++ 34 :: 41 :: r))) as [-> ->].
  { intros g r' E. destruct Hw as [<-|[<-|[<-|[]]]]; destruct g; js_lit_in E; discriminate E. }
  by rewrite no_wrapped by (by destruct Hw as [<-|[<-|[<-|[]]]]).
Qed.

(** A pattern [word("...")k] on a text [word'("p")r]: the words agree, and the
    rest of the pattern runs on the rest of the text. *)
Lemma exec_call_inv w w' n k p r cs :
  (34 ∉ p) -> matches (Lit w ++ re_call_arg n ++ k)%re (call (js w') p r) cs ->
  exists q r1 cs1, call (js w') p r = js w ++ 40 :: 34 :: (q ++ 34 :: 41 :: r1) /\ (34 ∉ q)
    /\ ([], cs1) ∈ run k (r1, [(n, q)]) /\ cs = cs1.
Proof.
  intros Hp H. unfold matches in H.
  apply run_seq in H as ([t cs2] & H & He). apply run_eos in He as [-> ?]. simplify_eq.
  apply run_seq in H as ([t1 c1] & H1 & H2). apply run_lit in H1 as (r0 & E & ?). simplify_eq.
  apply run_seq in H2 as ([t2 c2] & H2 & H3).
  apply run_call_arg in H2 as (q & r1 & -> & _ & Hq & ?). simplify_eq.
  by exists q, r1, cs2.
Qed.

Lemma app_comparable (a b x y : jsstr) :
  a ++ x = b ++ y -> startsWith a b = true \/ startsWith b a = true.
Proof.
  revert b; induction a as [|c a IH]; intros [|d b] E; cbn in *; auto.
  injection E as -> E. rewrite Z.eqb_refl. by apply IH.
Qed.

(** Two words neither of which continues the other. *)
Definition clash (w w' : string) : bool :=
  negb (startsWith (js w ++ [40; 34]) (js w' ++ [40; 34]))
  && negb (startsWith (js w' ++ [40; 34]) (js w ++ [40; 34])).

Lemma exec_call_other w w' n k p r :
  (34 ∉ p) -> clash w w' = true ->
  exec (Lit w ++ re_call_arg n ++ k)%re (call (js w') p r) = None.
Proof.
  intros Hp Hs. unfold clash in Hs. bsplit. apply exec_none. intros cs Hm.
  apply exec_call_inv in Hm as (q & r1 & cs1 & E & _); [|done]. unfold call in E.
  assert (E' : (js w' ++ [40; 34]) ++ (p ++ 34 :: 41 :: r) = (js w ++ [40; 34]) ++ (q ++ 34 :: 41 :: r1))
    by (by rewrite <- !app_assoc).
  apply app_comparable in E' as [E'|E']; congruence.
Qed.

(** The same word: the argument is the quoted text. *)
Lemma exec_call_some w n k p r cs :
  (34 ∉ p) -> p <> [] ->
  ([], cs) ∈ run k (r, [(n, p)]) -> (forall cs', ([], cs') ∈ run k (r, [(n, p)]) -> cs' = cs) ->
  exec (Lit w ++ re_call_arg n ++ k)%re (call (js w) p r) = Some cs.
Proof.
  intros Hp Hn Hin Hu. apply exec_unique.
  - apply run_seq. eexists. split; [|by apply run_eos]. unfold call.
    apply run_seq. eexists. split; [apply run_lit; eexists; split; reflexivity|].
    apply run_seq. eexists. split; [apply run_call_arg; eexists _, _; split; [reflexivity|by repeat split]|].
    done.
  - intros cs' Hm. apply exec_call_inv in Hm as (q & r1 & cs1 & E & Hq & Hk & ->); [|done].
    apply call_inj in E as [-> ->]; [|done..]. by apply Hu.
Qed.

Lemma exec_call_none w n k p r :
  (34 ∉ p) -> (forall cs, ([], cs) ∉ run k (r, [(n, p)])) ->
  exec (Lit w ++ re_call_arg n ++ k)%re (call (js w) p r) = None.
Proof.
  intros Hp Hk. apply exec_none. intros cs Hm.
  apply exec_call_inv in Hm as (q & r1 & cs1 & E & Hq & Hr & ->); [|done].
  apply call_inj in E as [-> ->]; [|done..]. by apply (Hk cs1).
Qed.

Section ParseRequest.
Context (p : jsstr) (Hp : path_ok p = true).

Lemma p_no_dquote : 34 ∉ p.
Proof. apply path_ok_facts in Hp as (_ & Hs & _). by apply (safe_not_in 34 p Hs). Qed.

Lemma p_nonnil : p <> [].
Proof. apply path_ok_facts in Hp as (Hn & _). by destruct p. Qed.

Lemma parse_header_exists :
  tryParseRequestCondition (call $"header" p ($" != " ++ [34; 34]))
  = Ret (Some (req_cond SOURCE_HEADER p MATCH_EXISTS (VStr []))).
Proof.
  pose proof p_no_dquote. pose proof p_nonnil. unfold tryParseRequestCondition.
  rewrite not_time by (cbn; tauto).
  unfold re_header_exists. rewrite (exec_call_some _ _ _ _ _ [(1, p)]); try done.
  - apply run_seq. eexists. split; [apply run_lit; eexists; split; reflexivity|].
    apply run_seq. eexists. split; [apply run_ch; by eexists|]. apply run_ch. by eexists.
  - intros cs' H1. by re_inv.
Qed.

Lemma parse_param_exists :
  tryParseRequestCondition (call $"param" p $" != nil")
  = Ret (Some (req_cond SOURCE_PARAM p MATCH_EXISTS (VStr []))).
Proof.
  pose proof p_no_dquote. pose proof p_nonnil. unfold tryParseRequestCondition.
  rewrite not_time by (cbn; tauto).
  unfold re_header_exists. rewrite exec_call_other by done.
  unfold re_param_exists. rewrite (exec_call_some _ _ _ _ _ [(1, p)]); try done.
  - apply run_lit. exists []. by rewrite app_nil_r.
  - intros cs' H1. by re_inv.
Qed.

Lemma parse_header_contains v :
  forallb safe v = true ->
  tryParseRequestCondition (call $"has(header" p ($", " ++ 34 :: (v ++ 34 :: [41])))
  = Ret (Some (req_cond SOURCE_HEADER p MATCH_CONTAINS (VStr v))).
Proof.
  intros Hv. pose proof p_no_dquote. pose proof p_nonnil. unfold tryParseRequestCondition.
  rewrite not_time by (cbn; tauto).
  unfold re_header_exists. rewrite exec_call_other by done.
  unfold re_param_exists. rewrite exec_call_other by done.
  unfold re_header_contains. rewrite (exec_call_some _ _ _ _ _ [(2, 34 :: (v ++ [34])); (1, p)]); try done.
  - unfold with_json, cap. cbn [capture default from_option Z.eqb Pos.eqb id].
    pose proof (parse_quote v (safe_units v Hv)) as E. rewrite quote_safe in E by done. by rewrite E.
  - apply run_seq. eexists. split; [apply run_lit; eexists; split; reflexivity|].
    apply run_seq. eexists. split; [by apply run_json_string_safe|]. apply run_lit. by exists [].
  - intros cs' H1. rr_inv.
    match goal with H : _ ++ _ = _ |- _ => rename H into E end. js_lit_in E. cbn [app] in E.
    apply app_last_delim_inj in E as [-> _]; [done|set_solver..].
Qed.

Lemma literal_chars v : text_ok v = true -> literal v <> [] /\ forallb dot (literal v) = true.
Proof.
  intros Hv. unfold text_ok in Hv. bsplit. unfold literal.
  assert (Hd : forall w q, forallb q w = true -> (forall c, q c = true -> dot c = true) -> forallb dot w = true).
  { intros w q Hw Hq. rewrite forallb_forall in *. auto. }
  assert (Hvd : forallb dot v = true) by (eapply Hd; [done|]; intros c (?&?&?&?&?&?&?&?&?&?&?)%safe_facts; done).
  destruct ((v =s? $"true") || (v =s? $"false")) eqn:E.
  - split; [|done]. intros ->. done.
  - destruct (isNumericLiteral v) eqn:En.
    + split; [|done]. by apply numeric_chars in En as [? _].
    + split; [done|]. cbn. by rewrite forallb_app, Hvd.
Qed.

Lemma parse_literal v : text_ok v = true -> parseExprLiteral (literal v) = Some (VStr v).
Proof.
  intros Hv. unfold text_ok in Hv. bsplit. unfold literal, parseExprLiteral.
  destruct ((v =s? $"true") || (v =s? $"false")) eqn:E.
  - rewrite trim_id by done. by rewrite E.
  - destruct (isNumericLiteral v) eqn:En.
    + rewrite trim_id by done. by rewrite E, En.
    + rewrite trim_id.
      2:{ change (34 :: v ++ [34]) with ([34] ++ (v ++ [34])). apply edges_ok_app; try done.
          - by destruct v. - by rewrite List.last_last. }
      assert (((34 :: v ++ [34]) =s? $"true") || ((34 :: v ++ [34]) =s? $"false") = false) as ->.
      { apply orb_false_iff; split; by apply str_eqb_neq. }
      assert (isNumericLiteral (34 :: v ++ [34]) = false) as ->.
      { apply not_true_iff_false. intros [_ Hc]%numeric_chars. by cbn in Hc. }
      pose proof (parse_quote v (safe_units v ltac:(done))) as Eq.
      rewrite quote_safe in Eq by done. by rewrite Eq.
Qed.

Lemma exec_eq src v :
  src <> SOURCE_TIME -> text_ok v = true ->
  exec re_eq (call (src_str src) p ($" == " ++ literal v))
  = Some [(3, literal v); (2, p); (1, src_str src)].
Proof.
  intros Hsrc Hv. pose proof p_no_dquote as Hq. pose proof p_nonnil.
  destruct (literal_chars v Hv) as [Hn Hd].
  assert (Hw : exists w, In w ["param"; "header"]%string /\ src_str src = js w).
  { destruct src; [exists "param"%string|exists "header"%string|done]; cbn; tauto. }
  destruct Hw as (w & Hw & ->). apply exec_unique.
  - apply run_seq. eexists. split; [|by apply run_eos]. unfold re_eq, call.
    apply run_seq. eexists. split; [apply run_source; eexists _, _; split; [exact Hw|split; reflexivity]|].
    apply run_seq. eexists. split; [apply run_call_arg; eexists _, _; split; [reflexivity|by repeat split]|].
    apply run_seq. eexists. split; [apply run_lit; eexists; split; reflexivity|].
    apply run_grp_plus_chr. eexists _, []. by rewrite app_nil_r.
  - intros cs Hm. rr_inv. rename x into w'.
    match goal with E : call _ _ _ = _ |- _ => rename E into E0 end. unfold call in E0.
    rewrite ?app_nil_r in E0.
    assert (Hnp : forall u, In u ["param"; "header"]%string -> 40 ∉ js u).
    { intros u [<-|[<-|[]]]; cbn; set_solver. }
    apply app_delim_inj in E0 as [Ew E0]; [|by apply Hnp..]. injection E0 as E0.
    apply app_delim_inj in E0 as [-> E0]; [|done..]. injection E0 as E0.
    congruence.
Qed.

Lemma parse_eq src v :
  src <> SOURCE_TIME -> text_ok v = true ->
  tryParseRequestCondition (call (src_str src) p ($" == " ++ literal v))
  = Ret (Some (req_cond src p MATCH_EQ (VStr v))).
Proof.
  intros Hsrc Hv. pose proof p_no_dquote as Hq.
  assert (Hno : forall n k cs s, hd 0 (js s) = 32 -> nth 1 (js s) 0 = 33 ->
    ([], cs) ∉ run (Lit s ++ k)%re ($" == " ++ literal v, [(n, p)])).
  { intros n k cs s H0 H1 Hr. apply run_seq in Hr as ([? ?] & Hr & _).
    apply run_lit in Hr as (r & E & _). destruct (js s) as [|? [|? ?]]; try done.
    js_lit_in E. cbn in *. congruence. }
  assert (Hnc : forall n cs, ([], cs) ∉ run (Lit " != nil")%re ($" == " ++ literal v, [(n, p)])).
  { intros n cs Hr. apply (Hno n Eps cs " != nil"%string); [done..|].
    apply run_seq. eexists. split; [exact Hr|]. by apply run_eps. }
  unfold tryParseRequestCondition, parse_param_contains, parse_compare_condition, parse_eq_condition.
  rewrite exec_eq by done.
  destruct src; [| |done]; cbn [src_str]; rewrite not_time by (cbn; tauto);
    unfold re_header_exists, re_param_exists, re_header_contains, re_param_contains, re_param_compare.
  - rewrite (exec_call_other "header") by done.
    rewrite (exec_call_none "param" 1 (Lit " != nil")) by (intros; eauto).
    rewrite (exec_call_other "has(header") by done.
    rewrite !(exec_call_none "param") by (try done; intros; by apply Hno).
    unfold cap; cbn [capture default from_option Z.eqb Pos.eqb id]. by rewrite parse_literal.
  - rewrite (exec_call_none "header") by (try done; intros; by apply Hno).
    rewrite !(exec_call_other "param"), (exec_call_other "has(header") by done.
    unfold cap; cbn [capture default from_option Z.eqb Pos.eqb id]. by rewrite parse_literal.
Qed.

End ParseRequest.

(** A printed condition parses back to itself, also in the parentheses that the
    printer puts around a range. *)
Lemma parse_text c : wf_cond c -> tryParseRequestCondition (text_of c) = Ret (Some c).
Proof.
  destruct 1 as [f tz m v Htz Hs Hm Hv|f tz s e Htz Hsf Hs He|src p Hsrc Hp|p v Hp Hv|src p v Hsrc Hp Hv].
  - unfold tryParseRequestCondition, text_of.
    cbn [source_ mode_ time_cond timeFunc timezone value default from_option id String_val].
    pose proof (parse_simple f tz Htz Hs m v Hm Hv) as E.
    destruct m; rewrite ?E; try done; set_solver.
  - unfold tryParseRequestCondition, text_of.
    cbn [source_ mode_ time_cond timeFunc timezone rangeStart rangeEnd default from_option id String_val].
    destruct (parse_range f tz Htz Hsf s e Hs He) as [E _]. unfold range_text in E. by rewrite E.
  - destruct src; [by apply parse_param_exists|by apply parse_header_exists|done].
  - unfold text_ok in Hv. bsplit. by apply parse_header_contains.
  - pose proof (parse_eq p Hp src v Hsrc Hv). by destruct src.
Qed.

Lemma parse_wrapped f tz s e :
  wf_cond (time_cond f tz MATCH_RANGE (VStr []) (VStr s) (VStr e)) ->
  let c := time_cond f tz MATCH_RANGE (VStr []) (VStr s) (VStr e) in
  tryParseRequestCondition (40 :: (text_of c ++ [41])) = Ret (Some c).
Proof.
  intros H. inversion H; subst; [set_solver|]. unfold tryParseRequestCondition.
  cbn [text_of source_ mode_ time_cond timeFunc timezone rangeStart rangeEnd default from_option id String_val].
  destruct (parse_range f tz ltac:(done) ltac:(done) s e ltac:(done) ltac:(done)) as [_ E].
  unfold range_text in E. by rewrite E.
Qed.

Lemma normalize_wf c : wf_cond c -> normalizeCondition c = c.
Proof.
  destruct 1 as [f tz m v Htz Hs Hm Hv|f tz s e Htz Hsf Hs He|src p Hsrc Hp|p v Hp Hv|src p v Hsrc Hp Hv].
  - unfold normalizeCondition. cbn [source_ timezone time_cond timeFunc default from_option id].
    rewrite str_or_nonempty by done. rewrite !elem_of_cons, elem_of_nil in Hm.
    by destruct Hm as [->|[->|[->|[]]]].
  - unfold normalizeCondition. cbn [source_ timezone time_cond timeFunc default from_option id].
    by rewrite str_or_nonempty.
  - destruct (path_ok_facts p Hp) as (_ & _ & _ & E).
    unfold normalizeCondition. destruct src; cbn [source_ path req_cond]; rewrite ?E; done.
  - destruct (path_ok_facts p Hp) as (_ & _ & _ & E).
    unfold normalizeCondition. cbn [source_ path req_cond]; by rewrite ?E.
  - destruct (path_ok_facts p Hp) as (_ & _ & _ & E).
    unfold normalizeCondition. destruct src; cbn [source_ path req_cond]; rewrite ?E; done.
Qed.

End RequestRuleRoundtrip.
