(* ===== verification/RequestRuleGroups.v ===== *)
(** * Lists of request rules: printing, splitting, parsing

    Nesting depth and the two splitters; the printed factors; the round trip of
    [buildRequestRuleExpr] and [tryParseRequestRuleExpr], of [combineBillingExpr]
    and [splitBillingExprAndRequestRules]; the conditions that do not come back. *)
From S2P Require Import Prelude JSNum JSValue Json Regex RequestRuleExpr RequestRuleRoundtrip.
#[local] Open Scope Z_scope.

Module RequestRuleGroups.
Import RequestRuleExpr RequestRuleRoundtrip.

(** ** Nesting depth *)

(** The depth after [t], starting at [d], if it never falls below zero. *)
Fixpoint lev (d : Z) (t : jsstr) : option Z :=
  match t with
  | [] => Some d
  | c :: r => if upd_depth d c <? 0 then None else lev (upd_depth d c) r
  end.

Definition balanced (t : jsstr) : Prop := lev 0 t = Some 0.

Lemma lev_app d a b : lev d (a ++ b) = lev d a ≫= fun d' => lev d' b.
Proof. revert d; induction a as [|c a IH]; intros d; cbn; [done|]. by destruct (_ <? 0). Qed.

Definition plain (c : Z) : bool := negb (c =? 40) && negb (c =? 41).

Lemma upd_plain d c : plain c = true -> upd_depth d c = d.
Proof. unfold plain, upd_depth. intros H. bsplit. by destruct (c =? 40), (c =? 41). Qed.

Lemma lev_plain d a : 0 <= d -> forallb plain a = true -> lev d a = Some d.
Proof.
  intros Hd. induction a as [|c a IH]; cbn; [done|]. intros H. bsplit.
  rewrite upd_plain by done. destruct (Z.ltb_spec d 0); [lia|]. by apply IH.
Qed.

Lemma lev_shift k d a d' : 0 <= k -> lev d a = Some d' -> lev (d + k) a = Some (d' + k).
Proof.
  intros Hk. revert d; induction a as [|c a IH]; intros d; cbn [lev]; [by intros [= ->]|].
  assert (upd_depth (d + k) c = upd_depth d c + k) as ->.
  { unfold upd_depth. destruct (c =? 40), (c =? 41); lia. }
  destruct (Z.ltb_spec (upd_depth d c) 0); [done|].
  destruct (Z.ltb_spec (upd_depth d c + k) 0); [lia|]. apply IH.
Qed.

Lemma balanced_app a b : balanced a -> balanced b -> balanced (a ++ b).
Proof. unfold balanced. intros Ha Hb. by rewrite lev_app, Ha. Qed.

Lemma balanced_plain a : forallb plain a = true -> balanced a.
Proof. by apply lev_plain. Qed.

Lemma balanced_parens a : balanced a -> balanced (40 :: (a ++ [41])).
Proof.
  unfold balanced. intros Ha. cbn [lev]. rewrite lev_app.
  change (upd_depth 0 40) with (0 + 1). by rewrite (lev_shift 1 0 a 0).
Qed.

Lemma balanced_call f p r :
  forallb plain f = true -> forallb safe p = true -> balanced r -> balanced (call f p r).
Proof.
  intros Hf Hp Hr. unfold call.
  replace (f ++ 40 :: 34 :: (p ++ 34 :: 41 :: r)) with (f ++ (40 :: (34 :: p ++ [34]) ++ [41]) ++ r)
    by (cbn; by rewrite <- !app_assoc).
  apply balanced_app; [by apply balanced_plain|]. apply balanced_app; [|done].
  apply balanced_parens, balanced_plain. cbn. rewrite forallb_app; cbn.
  rewrite andb_true_r, !forallb_forall in *. intros c Hc%Hp.
  destruct (safe_facts c Hc) as (? & ? & ? & ? & ? & _). unfold plain.
  destruct (Z.eqb_spec c 40), (Z.eqb_spec c 41); done.
Qed.

(** ** What a printed condition looks like *)

Lemma forallb_impl (q q' : Z -> bool) w :
  (forall c, q c = true -> q' c = true) -> forallb q w = true -> forallb q' w = true.
Proof. intros H Hw. rewrite forallb_forall in *. auto. Qed.

(** Neither of the characters the splitter and the wrapping test look for. *)
Definition calm (c : Z) : bool := negb (c =? 38) && negb (c =? 124).

Lemma safe_calm c : safe c = true -> calm c = true.
Proof.
  intros H. destruct (safe_facts c H) as (? & ? & ? & ? & ? & ? & ? & _). unfold calm.
  destruct (Z.eqb_spec c 38), (Z.eqb_spec c 124); done.
Qed.

Lemma numchar_calm c : numchar c = true -> calm c = true.
Proof.
  intros H. destruct (numchar_facts c H) as (? & ? & ? & ? & ? & ? & ? & _). unfold calm.
  destruct (Z.eqb_spec c 38), (Z.eqb_spec c 124); done.
Qed.

Lemma safe_plain c : safe c = true -> plain c = true.
Proof.
  intros H. destruct (safe_facts c H) as (? & ? & ? & ? & ? & ? & ? & _). unfold plain.
  destruct (Z.eqb_spec c 40), (Z.eqb_spec c 41); done.
Qed.

Lemma numchar_plain c : numchar c = true -> plain c = true.
Proof.
  intros H. destruct (numchar_facts c H) as (? & ? & ? & ? & ? & ? & ? & _). unfold plain.
  destruct (Z.eqb_spec c 40), (Z.eqb_spec c 41); done.
Qed.

Lemma numeric_all (q : Z -> bool) v :
  (forall c, numchar c = true -> q c = true) -> isNumericLiteral v = true -> forallb q v = true.
Proof. intros Hq [_ Hv]%numeric_chars. by eapply forallb_impl. Qed.

Lemma literal_all (q : Z -> bool) v :
  (forall c, safe c = true -> q c = true) -> q 34 = true -> text_ok v = true ->
  forallb q (literal v) = true.
Proof.
  intros Hq H34 Hv. unfold text_ok in Hv. bsplit.
  assert (forallb q v = true) by (by eapply forallb_impl).
  unfold literal. destruct (_ || _)%bool; [done|]. destruct (isNumericLiteral v); [done|].
  cbn. rewrite forallb_app. cbn. by rewrite H34, H1.
Qed.

Lemma forallb_call (q : Z -> bool) f p r :
  forallb q f = true -> forallb q [40; 34; 41] = true -> forallb q p = true -> forallb q r = true ->
  forallb q (call f p r) = true.
Proof.
  intros Hf Hc Hp Hr. unfold call. cbn in Hc. bsplit.
  rewrite forallb_app. cbn. rewrite forallb_app. cbn. rewrite Hf, Hp, Hr. by bsplit; rewrite H, H0, H1.
Qed.

Definition is_range (c : cond) : bool := bool_decide (mode_ c = Some MATCH_RANGE).

Lemma text_calm c : wf_cond c -> is_range c = false -> forallb calm (text_of c) = true.
Proof.
  destruct 1 as [f tz m v Htz Hs Hm Hv|f tz s e Htz Hsf Hs He|src p Hsrc Hp|p v Hp Hv|src p v Hsrc Hp Hv];
    intros Hr; try done.
  - unfold text_of. cbn [source_ mode_ time_cond timeFunc timezone value default from_option id String_val].
    rewrite !elem_of_cons, elem_of_nil in Hm.
    pose proof (numeric_all calm v numchar_calm Hv). pose proof (forallb_impl _ _ tz safe_calm Hs).
    destruct Hm as [->|[->|[->|[]]]]; apply forallb_call; (done || by destruct f).
  - destruct (path_ok_facts p Hp) as (_ & Hsf & _). pose proof (forallb_impl _ _ p safe_calm Hsf).
    destruct src; [| |done]; by apply forallb_call.
  - destruct (path_ok_facts p Hp) as (_ & Hsf & _). pose proof (forallb_impl _ _ p safe_calm Hsf).
    unfold text_ok in Hv. bsplit. apply forallb_call; try done. cbn [String_val value req_cond].
    rewrite forallb_app. cbn. rewrite forallb_app. cbn.
    by rewrite (forallb_impl _ _ v safe_calm) by done.
  - destruct (path_ok_facts p Hp) as (_ & Hsf & _). pose proof (forallb_impl _ _ p safe_calm Hsf).
    pose proof (literal_all calm v safe_calm eq_refl Hv).
    destruct src; [| |done]; by apply forallb_call.
Qed.

Lemma text_no_amp c : wf_cond c -> 38 ∉ text_of c.
Proof.
  intros Hc. destruct (is_range c) eqn:Hr.
  - assert (H : forallb (fun x => negb (x =? 38)) (text_of c) = true); [|by eapply forallb_not_elem].
    assert (Hcalm : forall x, calm x = true -> negb (x =? 38) = true) by (intros x; unfold calm; by destruct (x =? 38)).
    destruct Hc; try done; [rewrite !elem_of_cons, elem_of_nil in *; destruct_or!; by subst|].
    unfold text_of. cbn [source_ mode_ time_cond timeFunc timezone rangeStart rangeEnd default from_option id String_val].
    pose proof (forallb_impl _ _ tz safe_calm ltac:(done)) as Htz. apply (forallb_impl _ _ _ Hcalm) in Htz.
    pose proof (numeric_all calm s numchar_calm ltac:(done)) as Hs. apply (forallb_impl _ _ _ Hcalm) in Hs.
    pose proof (numeric_all calm e numchar_calm ltac:(done)) as He. apply (forallb_impl _ _ _ Hcalm) in He.
    apply forallb_call; [by destruct f|done|done|]. rewrite !forallb_app, Hs. js_lit. cbn [forallb andb negb Z.eqb Pos.eqb].
    apply forallb_call; [by destruct f|done|done|done].
  - eapply forallb_not_elem; [by apply text_calm|done].
Qed.

Lemma text_balanced c : wf_cond c -> balanced (text_of c).
Proof.
  destruct 1 as [f tz m v Htz Hs Hm Hv|f tz s e Htz Hsf Hs He|src p Hsrc Hp|p v Hp Hv|src p v Hsrc Hp Hv].
  - unfold text_of. cbn [source_ mode_ time_cond timeFunc timezone value default from_option id String_val].
    rewrite !elem_of_cons, elem_of_nil in Hm. pose proof (numeric_all plain v numchar_plain Hv).
    destruct Hm as [->|[->|[->|[]]]]; apply balanced_call; try done; try (by destruct f); by apply balanced_plain.
  - unfold text_of. cbn [source_ mode_ time_cond timeFunc timezone rangeStart rangeEnd default from_option id String_val].
    pose proof (numeric_all plain s numchar_plain Hs). pose proof (numeric_all plain e numchar_plain He).
    apply balanced_call; [by destruct f|done|].
    apply balanced_app; [done|]. apply balanced_app; [by apply balanced_plain|]. apply balanced_app; [done|].
    apply balanced_call; [by destruct f|done|]. by apply balanced_plain.
  - destruct (path_ok_facts p Hp) as (_ & Hsf & _). destruct src; [| |done]; by apply balanced_call.
  - destruct (path_ok_facts p Hp) as (_ & Hsf & _). unfold text_ok in Hv. bsplit. unfold text_of.
    cbn [source_ mode_ req_cond path value default from_option id String_val].
    pose proof (forallb_impl _ _ p safe_plain Hsf). pose proof (forallb_impl _ _ v safe_plain ltac:(done)) as Hvp.
    replace (call _ _ _) with ($"has" ++ (40 :: (call $"header" p ($", " ++ 34 :: (v ++ [34])) ++ [41]))).
    2:{ unfold call. js_lit. flat. done. }
    apply balanced_app; [done|]. apply balanced_parens, balanced_call; [done..|].
    apply balanced_plain. rewrite forallb_app. cbn. by rewrite forallb_app, Hvp.
  - destruct (path_ok_facts p Hp) as (_ & Hsf & _). pose proof (literal_all plain v safe_plain eq_refl Hv).
    destruct src; [| |done]; apply balanced_call; try done; by apply balanced_plain.
Qed.

Lemma last_app_nonnil (a b : jsstr) d : b <> [] -> List.last (a ++ b) d = List.last b d.
Proof.
  intros Hb. destruct b as [|x b _] using rev_ind; [done|]. by rewrite app_assoc, !List.last_last.
Qed.

Lemma call_edges f p a r :
  is_ws (hd 0 f) = false -> f <> [] -> r <> [] -> is_ws (List.last r 0) = false ->
  edges_ok (call f p (a ++ r)) = true.
Proof.
  intros Hf Hfn Hr Hl. unfold call.
  replace (40 :: 34 :: (p ++ 34 :: 41 :: a ++ r)) with ((40 :: 34 :: (p ++ 34 :: 41 :: a)) ++ r)
    by (cbn; by rewrite <- !app_assoc).
  apply edges_ok_app; try done. by rewrite last_app_nonnil.
Qed.

Lemma numeric_last v : isNumericLiteral v = true -> v <> [] /\ is_ws (List.last v 0) = false.
Proof.
  intros H. destruct (numeric_chars v H) as [Hn Hv]. split; [done|].
  destruct v as [|x v _] using rev_ind; [done|]. rewrite List.last_last.
  rewrite forallb_app in Hv. cbn in Hv. bsplit. by destruct (numchar_facts x) as [-> _].
Qed.

Lemma literal_last v : text_ok v = true -> literal v <> [] /\ is_ws (List.last (literal v) 0) = false.
Proof.
  intros Hv. split; [by apply literal_chars|]. unfold text_ok in Hv. bsplit. unfold literal.
  destruct (_ || _)%bool eqn:E.
  - apply orb_true_iff in E as [->%str_eqb_eq| ->%str_eqb_eq]; done.
  - destruct (isNumericLiteral v) eqn:En; [by apply numeric_last|].
    change (34 :: v ++ [34]) with ((34 :: v) ++ [34]). by rewrite List.last_last.
Qed.

Lemma text_edges c : wf_cond c -> edges_ok (text_of c) = true /\ text_of c <> [].
Proof.
  intros Hc. split.
  2:{ destruct Hc as [f tz m v|f|src p ?| |src]; try (by destruct src); try (by destruct f); [|done].
      unfold text_of; cbn. destruct m; by destruct f. }
  destruct Hc as [f tz m v Htz Hs Hm Hv|f tz s e Htz Hsf Hs He|src p Hsrc Hp|p v Hp Hv|src p v Hsrc Hp Hv].
  - unfold text_of. cbn [source_ mode_ time_cond timeFunc timezone value default from_option id String_val].
    destruct (numeric_last v Hv). rewrite !elem_of_cons, elem_of_nil in Hm.
    assert (edges_ok (call (time_func_str f) tz (([32] ++ op_str m ++ [32]) ++ v)) = true) as E.
    { apply call_edges; try done; by destruct f. }
    rewrite <- !app_assoc in E. by destruct Hm as [->|[->|[->|[]]]].
  - unfold text_of. cbn [source_ mode_ time_cond timeFunc timezone rangeStart rangeEnd default from_option id String_val].
    destruct (numeric_last e He).
    set (b := call (time_func_str f) tz ($" < " ++ e)).
    assert (Hb : b <> [] /\ is_ws (List.last b 0) = false).
    { subst b. split; [by destruct f|]. unfold call.
      replace (time_func_str f ++ _) with ((time_func_str f ++ 40 :: 34 :: (tz ++ 34 :: 41 :: $" < ")) ++ e)
        by (flat; done). by rewrite last_app_nonnil. }
    pose proof (call_edges (time_func_str f) tz ($" >= " ++ s ++ $" || ") b) as E.
    rewrite <- !app_assoc in E. apply E; try tauto; by destruct f.
  - destruct src; [| |done].
    + by apply (call_edges $"param" p [] $" != nil").
    + by apply (call_edges $"header" p $" != " [34; 34]).
  - pose proof (call_edges $"has(header" p ($", " ++ 34 :: (v ++ [34])) [41]) as E.
    unfold text_of. cbn [source_ mode_ req_cond path value default from_option id String_val].
    js_lit_in E. js_lit. flat_in E. cbn [app]. by apply E.
  - destruct (literal_last v Hv).
    destruct src; [| |done].
    + by apply (call_edges $"param" p $" == " (literal v)).
    + by apply (call_edges $"header" p $" == " (literal v)).
Qed.

(** ** Splitting *)

(** Inside parentheses nothing is split. *)
Lemma split_deep sep t rest d d' cur :
  0 <= d -> lev d t = Some d' ->
  split_loop sep (t ++ rest) 0 (d + 1) cur = split_loop sep rest 0 (d' + 1) (rev t ++ cur).
Proof.
  revert d cur; induction t as [|c t IH]; intros d cur Hd; cbn [lev app split_loop rev].
  { by intros [= ->]. }
  assert (upd_depth (d + 1) c = upd_depth d c + 1) as ->.
  { unfold upd_depth. destruct (c =? 40), (c =? 41); lia. }
  destruct (Z.ltb_spec (upd_depth d c) 0); [done|]. intros Hl.
  destruct (Z.eqb_spec (upd_depth d c + 1) 0); [lia|]. cbn [andb].
  rewrite IH by done. by rewrite <- app_assoc.
Qed.

(** A text without the second character of the separator is not split. *)
Lemma split_flat c2 more t rest d d' cur :
  (c2 ∉ t) -> is_ws (List.last t 0) = false -> lev d t = Some d' ->
  split_loop (32 :: c2 :: more) (t ++ rest) 0 d cur
  = split_loop (32 :: c2 :: more) rest 0 d' (rev t ++ cur).
Proof.
  revert d cur; induction t as [|c t IH]; intros d cur Hc2 Hlast; cbn [lev app split_loop rev].
  { by intros [= ->]. }
  destruct (Z.ltb_spec (upd_depth d c) 0); [done|]. intros Hl.
  assert (startsWith (32 :: c2 :: more) (c :: t ++ rest) = false) as ->.
  { cbn [startsWith]. destruct (Z.eqb_spec 32 c) as [<-|]; [|done]. destruct t as [|x t]; [done|].
    cbn [app startsWith andb]. destruct (Z.eqb_spec c2 x) as [<-|]; [set_solver|done]. }
  rewrite andb_false_r, IH; [by rewrite <- app_assoc|set_solver| |done].
  destruct t; [done|exact Hlast].
Qed.

(** A part that the splitter passes over. *)
Definition unsplit (sep t : jsstr) : Prop :=
  forall rest cur, split_loop sep (t ++ rest) 0 0 cur = split_loop sep rest 0 0 (rev t ++ cur).

Lemma parens_edges a : edges_ok (40 :: (a ++ [41])) = true.
Proof.
  apply (edges_ok_app [40] (a ++ [41])); try done; [by destruct a|]. by rewrite List.last_last.
Qed.

Lemma split_parts sep ts :
  (forall rest cur, split_loop sep (sep ++ rest) 0 0 cur = trim (rev cur) :: split_loop sep rest 0 0 []) ->
  Forall (fun t => unsplit sep t /\ edges_ok t = true) ts -> ts <> [] ->
  split_loop sep (join sep ts) 0 0 [] = ts.
Proof.
  intros Hsep Hts. induction Hts as [|t ts [Hu He] Hts IH]; [done|]. intros _.
  destruct ts as [|t' ts].
  - cbn [join]. rewrite <- (app_nil_r t) at 1. rewrite Hu. cbn. by rewrite app_nil_r, rev_involutive, trim_id.
  - rewrite join_cons, Hu, Hsep, app_nil_r, rev_involutive, trim_id by done. by rewrite IH.
Qed.

Lemma filter_nonempty ts : Forall (fun t => t <> []) ts -> filter_Boolean ts = ts.
Proof. intros H. apply lfilter_id. intros t Ht. rewrite Forall_forall in H. specialize (H t Ht). by destruct t. Qed.

Lemma unsplit_parens sep a :
  hd 0 sep <> 41 -> hd 0 sep <> 40 -> sep <> [] -> balanced a -> unsplit sep (40 :: (a ++ [41])).
Proof.
  intros H41 H40 Hs Ha rest cur. destruct sep as [|c0 sep]; [done|]. cbn [app split_loop hd] in *.
  change (upd_depth 0 40) with (0 + 1). cbn [Z.eqb andb Z.add].
  rewrite <- app_assoc. rewrite (split_deep _ a _ 0 0) by done.
  cbn [app split_loop]. change (upd_depth (0 + 1) 41) with 0. cbn [Z.eqb andb startsWith].
  destruct (Z.eqb_spec c0 41); [done|]. cbn [andb]. f_equal. cbn. rewrite rev_app_distr. cbn.
  by rewrite <- app_assoc.
Qed.

(** ** Groups *)

Definition wrap (e : jsstr) : jsstr := if includes $" || " e then $"(" ++ e ++ $")" else e.

Lemma includes_no_bar e : (124 ∉ e) -> includes $" || " e = false.
Proof.
  intros H. apply not_true_iff_false. intros (a & b & ->)%includes_spec. apply H.
  js_lit. set_solver.
Qed.

(** What a conjunct must satisfy to come back. *)
Record conjunct (c : cond) (t : jsstr) : Prop := {
  cj_parse : tryParseRequestCondition t = Ret (Some c);
  cj_edges : edges_ok t = true;
  cj_some : t <> [];
  cj_amp : 38 ∉ t;
  cj_bal : balanced t;
}.

Lemma conjunct_text c : wf_cond c -> conjunct c (text_of c).
Proof.
  intros Hc. destruct (text_edges c Hc).
  split; auto using parse_text, text_no_amp, text_balanced.
Qed.

Lemma conjunct_wrap c : wf_cond c -> conjunct c (wrap (text_of c)).
Proof.
  intros Hc. unfold wrap. destruct (includes $" || " (text_of c)) eqn:E; [|by apply conjunct_text].
  destruct (is_range c) eqn:Hr.
  2:{ rewrite includes_no_bar in E; [done|]. eapply forallb_not_elem; [by apply text_calm|done]. }
  pose proof (conjunct_text c Hc) as [Hp He Hs Ha Hb]. js_lit. cbn [app]. split.
  - destruct Hc; try done; [rewrite !elem_of_cons, elem_of_nil in *; destruct_or!; by subst|].
    by apply parse_wrapped; constructor.
  - apply parens_edges.
  - done.
  - set_solver.
  - by apply balanced_parens.
Qed.

Lemma conjunct_last c t : conjunct c t -> is_ws (List.last t 0) = false.
Proof.
  intros [_ He Hs _ _]. destruct t as [|x t]; [done|]. unfold edges_ok in He. by bsplit.
Qed.

Lemma parse_conjuncts cs ts :
  Forall wf_cond cs -> Forall2 conjunct cs ts -> cs <> [] ->
  parse_conditions (splitTopLevelAnd (join $" && " ts)) = Ret (Some cs).
Proof.
  intros Hwf H Hn. unfold splitTopLevelAnd.
  assert (Hall : Forall (fun t => exists c, conjunct c t) ts).
  { clear Hn Hwf. induction H; constructor; eauto. }
  rewrite split_parts.
  - rewrite filter_nonempty.
    2:{ eapply Forall_impl; [exact Hall|]. by intros t [c []]. }
    clear Hall Hn. induction H as [|c t cs ts Hc H IH]; [done|].
    inversion_clear Hwf. cbn [parse_conditions].
    rewrite trim_id by apply Hc. rewrite (cj_parse _ _ Hc), IH, normalize_wf by done. done.
  - done.
  - eapply Forall_impl; [exact Hall|]. intros t [c Hc]. split; [|apply Hc].
    intros rest cur. apply split_flat; [apply Hc|by eapply conjunct_last|apply Hc].
  - destruct H; [done|discriminate].
Qed.

(** The text between the parentheses of a factor. *)
Lemma exec_group t m :
  t <> [] -> isNumericLiteral m = true ->
  exec re_group ($"(" ++ t ++ $" ? " ++ m ++ $" : 1)") = Some [(2, m); (1, t)].
Proof.
  intros Ht [Hmn Hm]%numeric_chars. apply exec_unique.
  - apply run_seq. eexists. split; [|by apply run_eos]. unfold re_group.
    apply run_seq. eexists. split; [apply run_ch; by eexists|].
    apply run_seq. eexists. split.
    { apply run_grp_plus_chr. eexists _, _. split; [reflexivity|]. split; [done|]. split; [|done].
      by apply forallb_forall. }
    apply run_seq. eexists. split; [apply run_lit; eexists; split; reflexivity|].
    apply run_seq. eexists. split; [apply run_grp_plus_chr; eexists _, _; split; [reflexivity|by repeat split]|].
    apply run_lit. by exists [].
  - intros cs H. rr_inv.
    match goal with E : _ ++ _ = _ |- _ => rename E into E0 end. rewrite ?app_nil_r in E0.
    assert (E1 : (t ++ [32; 63]) ++ 32 :: m = (x0 ++ [32; 63]) ++ 32 :: x2).
    { apply (app_inv_tail $" : 1)"). js_lit_in E0. js_lit. cbn [app] in E0. injection E0 as E0. flat. flat_in E0. done. }
    apply app_last_delim_inj in E1 as [E1 ->]; [|by eapply forallb_not_elem..].
    by apply app_inv_tail in E1 as ->.
Qed.

Definition factor_body (g : group) : jsstr :=
  match map text_of (conditions g) with
  | [e] => e
  | l => join $" && " (map wrap l)
  end.

Lemma build_texts cs :
  Forall wf_cond cs -> filter_Boolean (map buildRequestConditionExpr cs) = map text_of cs.
Proof.
  intros H. rewrite filter_nonempty.
  - apply map_ext_Forall. eapply Forall_impl; [exact H|]. exact build_wf.
  - apply Forall_map. eapply Forall_impl; [exact H|]. intros c Hc. rewrite build_wf by done.
    by apply text_edges.
Qed.

Lemma build_factor g :
  wf_group g ->
  buildRuleGroupFactor g = $"(" ++ factor_body g ++ $" ? " ++ multiplier g ++ $" : 1)".
Proof.
  intros [Hc Hs Hm]. unfold buildRuleGroupFactor, factor_body.
  rewrite numeric_edges, Hm, build_texts by done.
  destruct (conditions g) as [|c [|c' cs]]; [done|..]; done.
Qed.

Lemma body_conjuncts g :
  wf_group g -> exists ts, factor_body g = join $" && " ts /\ Forall2 conjunct (conditions g) ts.
Proof.
  intros [Hc Hs _]. unfold factor_body. destruct (conditions g) as [|c [|c' cs]]; [done|..].
  - exists [text_of c]. split; [done|]. inversion_clear Hc. constructor; [by apply conjunct_text|constructor].
  - exists (map wrap (map text_of (c :: c' :: cs))). split; [done|].
    clear Hs. induction Hc; cbn [map]; constructor; auto using conjunct_wrap.
Qed.

Lemma join_conjuncts cs ts :
  Forall2 conjunct cs ts -> cs <> [] -> join $" && " ts <> [] /\ balanced (join $" && " ts).
Proof.
  intros H Hn. induction H as [|c t cs ts Hc H IH]; [done|].
  destruct H as [|c' t' cs ts Hc' H]; [split; apply Hc|].
  rewrite join_cons by done. destruct IH as [_ Hb]; [done|]. split.
  - intros E%app_eq_nil. by destruct Hc, E.
  - apply balanced_app; [apply Hc|]. by apply balanced_app.
Qed.

Lemma parse_factor g : wf_group g -> tryParseRuleGroupFactor (buildRuleGroupFactor g) = Ret (Some g).
Proof.
  intros Hg. rewrite build_factor by done. unfold tryParseRuleGroupFactor.
  destruct (body_conjuncts g Hg) as (ts & -> & Hts). destruct Hg as [Hc Hs Hm].
  destruct (join_conjuncts _ _ Hts Hs). rewrite exec_group by done.
  unfold cap. cbn [capture default from_option Z.eqb Pos.eqb id].
  rewrite (parse_conjuncts (conditions g)) by done. destruct g as [[|c cs] m]; done.
Qed.

Lemma factor_shape g :
  wf_group g -> exists b, buildRuleGroupFactor g = 40 :: (b ++ [41]) /\ balanced b.
Proof.
  intros Hg. exists (factor_body g ++ $" ? " ++ multiplier g ++ $" : 1"). split.
  - rewrite build_factor by done. js_lit. cbn [app]. f_equal. flat. done.
  - destruct (body_conjuncts g Hg) as (ts & -> & Hts). destruct Hg as [Hc Hs Hm].
    apply balanced_app; [by eapply join_conjuncts|].
    apply balanced_app; [done|]. apply balanced_app; [|done].
    apply balanced_plain, (numeric_all plain); [exact numchar_plain|done].
Qed.

Lemma factor_part g :
  wf_group g -> unsplit $" * " (buildRuleGroupFactor g) /\ edges_ok (buildRuleGroupFactor g) = true.
Proof.
  intros (b & -> & Hb)%factor_shape. split.
  - by apply unsplit_parens.
  - apply parens_edges.
Qed.

(** One parenthesized part is parsed as one factor. *)
Lemma parse_single b :
  balanced b ->
  tryParseRequestRuleExpr (40 :: (b ++ [41]))
  = match tryParseRuleGroupFactor (40 :: (b ++ [41])) with
    | Throw => Throw
    | Ret None => Ret None
    | Ret (Some g) => Ret (Some [g])
    end.
Proof.
  intros Hb. unfold tryParseRequestRuleExpr. rewrite trim_id by apply parens_edges.
  cbn [nonempty negb]. unfold splitTopLevelMultiply.
  pose proof (split_parts $" * " [40 :: (b ++ [41])]) as Hs. cbn [join] in Hs. rewrite Hs; try done.
  constructor; [|done]. split; [by apply unsplit_parens|apply parens_edges].
Qed.

Lemma build_groups gs :
  Forall wf_group gs -> buildRequestRuleExpr gs = join $" * " (map buildRuleGroupFactor gs).
Proof.
  intros H. unfold buildRequestRuleExpr. rewrite filter_nonempty; [done|].
  apply Forall_map. eapply Forall_impl; [exact H|]. intros g (b & -> & _)%factor_shape. done.
Qed.

Lemma join_edges sep ts :
  Forall (fun t => t <> [] /\ edges_ok t = true) ts -> edges_ok (join sep ts) = true.
Proof.
  intros H. induction H as [|t ts [Hn He] H IH]; [done|].
  destruct ts as [|t' ts]; [done|]. rewrite join_cons by done. rewrite app_assoc.
  assert (Hj : join sep (t' :: ts) <> []).
  { inversion_clear H as [|? ? [Ht' _] _]. destruct ts; [done|]. rewrite join_cons by done.
    intros E%app_eq_nil. by destruct E. }
  apply edges_ok_app; [by destruct t|done|..].
  - destruct t as [|x t]; [done|]. cbn -[List.last] in He. bsplit. done.
  - destruct (join sep (t' :: ts)) as [|x u]; [done|]. unfold edges_ok in IH. by bsplit.
Qed.

Lemma parse_groups_factors gs :
  Forall wf_group gs -> parse_groups (map buildRuleGroupFactor gs) = Ret (Some gs).
Proof.
  induction 1 as [|g gs Hg Hgs IH]; [done|]. cbn [map parse_groups].
  by rewrite parse_factor, IH.
Qed.

Lemma factors_nonempty gs :
  Forall wf_group gs -> Forall (fun t => t <> [] /\ edges_ok t = true) (map buildRuleGroupFactor gs).
Proof.
  intros H. apply Forall_map. eapply Forall_impl; [exact H|]. intros g Hg. split.
  - by destruct (factor_shape g Hg) as (b & -> & _).
  - by apply factor_part.
Qed.

Lemma split_factors gs :
  Forall wf_group gs -> gs <> [] ->
  splitTopLevelMultiply (join $" * " (map buildRuleGroupFactor gs)) = map buildRuleGroupFactor gs.
Proof.
  intros H Hn. unfold splitTopLevelMultiply. rewrite split_parts.
  - apply filter_nonempty. eapply Forall_impl; [by apply factors_nonempty|]. by intros t [? _].
  - done.
  - apply Forall_map. eapply Forall_impl; [exact H|]. exact factor_part.
  - by destruct gs.
Qed.

Lemma parse_built gs :
  Forall wf_group gs -> tryParseRequestRuleExpr (buildRequestRuleExpr gs) = Ret (Some gs).
Proof.
  intros H. rewrite build_groups by done. unfold tryParseRequestRuleExpr.
  rewrite trim_id by (apply join_edges; by apply factors_nonempty).
  destruct gs as [|g gs]; [done|].
  assert (nonempty (join $" * " (map buildRuleGroupFactor (g :: gs))) = true) as ->.
  { inversion_clear H as [|? ? Hg _]. destruct (factor_shape g Hg) as (b & E & _).
    cbn [map]. rewrite E. by destruct (map buildRuleGroupFactor gs). }
  cbn [negb]. by rewrite split_factors, parse_groups_factors.
Qed.

(** C1: every list of well-formed groups is read back from its printed form. *)
Theorem build_parse_roundtrip gs :
  Forall wf_group gs -> tryParseRequestRuleExpr (buildRequestRuleExpr gs) = Ret (Some gs).
Proof. apply parse_built. Qed.

(** ** Parentheses around the whole text *)

Lemma outer_deep t rest d d' :
  0 <= d -> rest <> [] -> lev d t = Some d' -> outer_loop (t ++ rest) (d + 1) = outer_loop rest (d' + 1).
Proof.
  intros Hd Hr. revert d Hd; induction t as [|c t IH]; intros d Hd; cbn [lev app outer_loop].
  { by intros [= ->]. }
  assert (upd_depth (d + 1) c = upd_depth d c + 1) as ->.
  { unfold upd_depth. destruct (c =? 40), (c =? 41); lia. }
  destruct (Z.ltb_spec (upd_depth d c) 0); [done|]. intros Hl.
  destruct (Z.eqb_spec (upd_depth d c + 1) 0); [lia|]. cbn [andb]. by apply IH.
Qed.

Lemma full_parens a : balanced a -> hasFullOuterParens (40 :: (a ++ [41])) = true.
Proof.
  intros Ha. unfold hasFullOuterParens, endsWith. cbn [rev]. rewrite rev_app_distr. js_lit.
  cbn [rev app startsWith Z.eqb Pos.eqb andb outer_loop]. change (upd_depth 0 40) with (0 + 1).
  cbn [Z.add Z.eqb andb]. by rewrite (outer_deep a [41] 0 0).
Qed.

Lemma inner_parens a : inner (40 :: (a ++ [41])) = a.
Proof.
  unfold inner. assert (length (40%Z :: a ++ [41%Z]) - 2 = length a)%nat as ->.
  { cbn [length]. rewrite length_app. cbn [length]. lia. }
  change (drop 1 (40 :: a ++ [41])) with (a ++ [41]). by rewrite take_app_length.
Qed.

Lemma trimStart_length s : (length (trimStart s) <= length s)%nat.
Proof. induction s as [|c s IH]; cbn; [done|]. destruct (is_ws c); cbn; lia. Qed.

Lemma trim_length s : (length (trim s) <= length s)%nat.
Proof.
  unfold trim, trimEnd. rewrite length_rev. etransitivity; [apply trimStart_length|].
  rewrite length_rev. apply trimStart_length.
Qed.

Lemma unwrap_shrinks s : hasFullOuterParens s = true -> (length (trim (inner s)) < length s)%nat.
Proof.
  unfold hasFullOuterParens, inner. js_lit. intros H. bsplit. destruct s as [|c s]; [done|].
  eapply Nat.le_lt_trans; [apply trim_length|]. rewrite length_take. cbn [drop length]. lia.
Qed.

(** The fuel of [unwrapOuterParens] is never used up. *)
Lemma unwrap_fuel n m s :
  (length s < n)%nat -> (length s < m)%nat -> unwrap_loop n s = unwrap_loop m s.
Proof.
  revert m s; induction n as [|n IH]; intros m s Hn Hm; [lia|]. destruct m as [|m]; [lia|].
  cbn [unwrap_loop]. destruct (hasFullOuterParens s) eqn:E; [|done].
  apply unwrap_shrinks in E. apply IH; lia.
Qed.

Lemma unwrap_done n s : (length s < n)%nat -> hasFullOuterParens (unwrap_loop n s) = false.
Proof.
  revert s; induction n as [|n IH]; intros s Hn; [lia|]. cbn [unwrap_loop].
  destruct (hasFullOuterParens s) eqn:E; [|done]. apply unwrap_shrinks in E. apply IH. lia.
Qed.

(** C26: c39: [unwrapOuterParens] terminates with a text that is not wrapped in one pair
    of parentheses, and a second application changes nothing. *)
Theorem unwrap_complete e :
  hasFullOuterParens (unwrapOuterParens e) = false
  /\ unwrapOuterParens (unwrapOuterParens e) = unwrapOuterParens e.
Proof.
  pose proof (trim_length e).
  assert (Hf : hasFullOuterParens (unwrapOuterParens e) = false) by (apply unwrap_done; lia).
  split; [done|].
  assert (Ht : trim (unwrapOuterParens e) = unwrapOuterParens e).
  { clear. unfold unwrapOuterParens. generalize (S (length e)) as n. intros n.
    assert (He : edges_ok (trim e) = true) by apply trim_edges. revert He. generalize (trim e) as s.
    induction n as [|n IH]; intros s He; cbn [unwrap_loop]; [by apply trim_id|].
    destruct (hasFullOuterParens s); [|by apply trim_id]. apply IH, trim_edges. }
  unfold unwrapOuterParens at 1. rewrite Ht. cbn [unwrap_loop]. by rewrite Hf.
Qed.

Lemma unwrap_parens base :
  balanced base -> unwrapOuterParens (40 :: (base ++ [41])) = unwrapOuterParens base.
Proof.
  intros Hb. unfold unwrapOuterParens. rewrite trim_id by apply parens_edges.
  pose proof (trim_length base) as Ht.
  transitivity (unwrap_loop (length (40 :: base ++ [41])) (trim base)).
  - cbn [unwrap_loop]. by rewrite full_parens, inner_parens.
  - apply unwrap_fuel; cbn [length]; rewrite ?length_app; cbn [length]; lia.
Qed.

(** ** A billing expression: base and rules *)

(** A parenthesized text that does not end like a factor is not a rule. *)
Lemma base_not_rule base :
  balanced base -> endsWith $" : 1" base = false -> is_rule_part (40 :: (base ++ [41])) = Ret false.
Proof.
  intros Hb He. unfold is_rule_part. rewrite parse_single by done. unfold tryParseRuleGroupFactor.
  assert (exec re_group (40 :: (base ++ [41])) = None) as ->; [|done].
  apply exec_none. intros cs Hm. rr_inv.
  match goal with E : base ++ _ = _ |- _ => rename E into E0 end. rewrite ?app_nil_r in E0.
  match type of E0 with _ = ?a ++ _ ++ ?b ++ _ =>
    assert (E1 : base ++ [41] = (a ++ $" ? " ++ b ++ $" : 1") ++ [41])
      by (rewrite E0; js_lit; flat; done) end.
  apply app_inj_tail in E1 as [-> _]. unfold endsWith in He.
  rewrite !rev_app_distr, <- !app_assoc in He. by rewrite startsWith_app in He.
Qed.

Lemma partition_factors gs :
  Forall wf_group gs -> partition_parts (map buildRuleGroupFactor gs) = Ret (map buildRuleGroupFactor gs, []).
Proof.
  induction 1 as [|g gs Hg Hgs IH]; [done|]. cbn [map partition_parts].
  assert (is_rule_part (buildRuleGroupFactor g) = Ret true) as ->.
  { unfold is_rule_part. destruct (factor_shape g Hg) as (b & E & Hb).
    rewrite E, parse_single, <- E by done. by rewrite parse_factor. }
  by rewrite IH.
Qed.

Lemma split_combine base gs :
  base <> [] -> trim base = base -> balanced base -> endsWith $" : 1" base = false ->
  Forall wf_group gs -> gs <> [] ->
  splitBillingExprAndRequestRules (combineBillingExpr base (buildRequestRuleExpr gs))
  = Ret (unwrapOuterParens base, buildRequestRuleExpr gs).
Proof.
  intros Hn Ht Hb He Hgs Hne. rewrite build_groups by done.
  pose proof (factors_nonempty gs Hgs) as Hf.
  assert (Hj : trim (join $" * " (map buildRuleGroupFactor gs)) = join $" * " (map buildRuleGroupFactor gs))
    by (by apply trim_id, join_edges).
  assert (Hjn : nonempty (join $" * " (map buildRuleGroupFactor gs)) = true).
  { destruct gs as [|g gs]; [done|]. inversion_clear Hgs as [|? ? Hg _].
    destruct (factor_shape g Hg) as (b & E & _). cbn [map]. rewrite E. by destruct (map buildRuleGroupFactor gs). }
  assert (Hc : combineBillingExpr base (join $" * " (map buildRuleGroupFactor gs))
               = join $" * " ((40 :: (base ++ [41])) :: map buildRuleGroupFactor gs)).
  { unfold combineBillingExpr. rewrite Ht, Hj, Hjn. destruct base as [|c base]; [done|]. cbn [nonempty negb].
    rewrite join_cons by (by destruct gs). js_lit. flat. done. }
  rewrite Hc. unfold splitBillingExprAndRequestRules.
  pose proof (parens_edges base) as Hbe.
  rewrite trim_id by (apply join_edges; by constructor).
  rewrite join_cons at 1 by (by destruct gs). cbn [app nonempty negb].
  assert (splitTopLevelMultiply (join $" * " ((40 :: (base ++ [41])) :: map buildRuleGroupFactor gs))
          = (40 :: (base ++ [41])) :: map buildRuleGroupFactor gs) as ->.
  { unfold splitTopLevelMultiply. rewrite split_parts; try done.
    - apply filter_nonempty. constructor; [done|]. eapply Forall_impl; [exact Hf|]. by intros t [? _].
    - constructor; [split; [by apply unsplit_parens|done]|].
      apply Forall_map. eapply Forall_impl; [exact Hgs|]. exact factor_part. }
  cbn [partition_parts]. rewrite base_not_rule, partition_factors, unwrap_parens by done.
  destruct gs as [|g gs]; done.
Qed.

(** Splitting a combined billing expression gives back the base expression
    (without redundant outer parentheses) and the printed rules. *)
Theorem split_combine_roundtrip base gs :
  base <> [] -> trim base = base -> balanced base -> endsWith $" : 1" base = false ->
  Forall wf_group gs -> gs <> [] ->
  splitBillingExprAndRequestRules (combineBillingExpr base (buildRequestRuleExpr gs))
  = Ret (unwrapOuterParens base, buildRequestRuleExpr gs).
Proof. apply split_combine. Qed.

(** ** Conditions whose printed form is not read back *)

Lemma exec_eq_none w p r :
  (34 ∉ p) -> (forall t, r <> $" == " ++ t) -> (40 ∉ js w) \/ w = "has(param"%string ->
  exec re_eq (call (js w) p r) = None.
Proof.
  intros Hp Hr Hw. apply exec_none. intros cs Hm. rr_inv.
  match goal with E : call _ _ _ = _ |- _ => rename E into E0 end. unfold call in E0.
  assert (Hnp : forall u, In u ["param"; "header"]%string -> 40 ∉ js u).
  { intros u [<-|[<-|[]]]; cbn; set_solver. }
  destruct Hw as [Hw| ->].
  - apply app_delim_inj in E0 as [_ E0]; [|by auto..]. injection E0 as E0.
    apply app_delim_inj in E0 as [_ E0]; [|done..]. injection E0 as E0. exact (Hr _ E0).
  - destruct H as [<-|[<-|[]]]; js_lit_in E0; discriminate E0.
Qed.

Definition num_mode (m : mode) : bool :=
  match m with MATCH_GT | MATCH_GTE | MATCH_LT | MATCH_LTE => true | _ => false end.

(** The right conjunct of a guarded parameter condition. *)
Definition guarded_text (p : jsstr) (m : mode) (v : jsstr) : jsstr :=
  if num_mode m then call $"param" p ($" " ++ num_op m ++ $" " ++ v)
  else call $"has(param" p ($", " ++ 34 :: (v ++ 34 :: [41])).

Lemma guarded_unparsed p m v :
  path_ok p = true -> tryParseRequestCondition (guarded_text p m v) = Ret None.
Proof.
  intros Hp. pose proof (p_no_dquote p Hp) as Hq. unfold guarded_text. destruct (num_mode m) eqn:Hm.
  - assert (Hno : forall n k cs s, hd 0 (js s) = 32 -> nth 1 (js s) 0 = 33 ->
      ([], cs) ∉ run (Lit s ++ k)%re ($" " ++ num_op m ++ $" " ++ v, [(n, p)])).
    { intros n k cs s H0 H1 Hr. apply run_seq in Hr as ([? ?] & Hr & _).
      apply run_lit in Hr as (r & E & _). destruct (js s) as [|? [|? ?]]; try done.
      js_lit_in E. cbn [hd nth] in *. subst. clear -E Hm. destruct m; try done; js_lit_in E; discriminate E. }
    unfold tryParseRequestCondition, parse_param_contains, parse_compare_condition, parse_eq_condition.
    rewrite not_time by (cbn; tauto).
    unfold re_header_exists, re_param_exists, re_header_contains, re_param_contains, re_param_compare.
    rewrite (exec_call_other "header") by done.
    rewrite (exec_call_none "param" 1 (Lit " != nil")).
    2:{ done. }
    2:{ intros cs Hr. apply (Hno 1 Eps cs " != nil"%string); [done..|].
        apply run_seq. eexists. split; [exact Hr|]. by apply run_eps. }
    rewrite (exec_call_other "has(header") by done.
    rewrite !(exec_call_none "param") by (try done; intros; by apply Hno).
    rewrite exec_eq_none; [done|done| |left; js_lit; set_solver].
    intros t E. js_lit_in E. destruct m; discriminate E.
  - unfold tryParseRequestCondition, parse_param_contains, parse_compare_condition, parse_eq_condition,
      tryParseTimeCondition.
    destruct (no_time_func (call $"has(param" p ($", " ++ 34 :: (v ++ 34 :: [41])))) as [-> ->].
    { intros g r' E. unfold call in E. destruct g; js_lit_in E; discriminate E. }
    rewrite no_wrapped by done.
    unfold re_header_exists, re_param_exists, re_header_contains, re_param_contains, re_param_compare.
    rewrite (exec_call_other "header"), !(exec_call_other "param"), (exec_call_other "has(header") by done.
    rewrite exec_eq_none; [done|done| |by right]. intros t E. by js_lit_in E.
Qed.

Definition guarded_ok (m : mode) (v : jsstr) : bool :=
  if num_mode m then isNumericLiteral v else bool_decide (m = MATCH_CONTAINS) && text_ok v.

Lemma guarded_facts p m v :
  path_ok p = true -> guarded_ok m v = true ->
  (38 ∉ guarded_text p m v) /\ edges_ok (guarded_text p m v) = true /\ balanced (guarded_text p m v).
Proof.
  intros Hp Hg. destruct (path_ok_facts p Hp) as (_ & Hsf & _).
  pose proof (forallb_impl _ _ p safe_calm Hsf). unfold guarded_ok, guarded_text in *.
  destruct (num_mode m) eqn:Hm.
  - destruct (numeric_last v Hg). pose proof (numeric_all calm v numchar_calm Hg).
    pose proof (numeric_all plain v numchar_plain Hg). split; [|split].
    + apply (forallb_not_elem calm); [|done]. apply forallb_call; try done. by destruct m.
    + pose proof (call_edges $"param" p ($" " ++ num_op m ++ $" ") v) as E.
      rewrite <- !app_assoc in E. by apply E.
    + apply balanced_call; [done..|]. apply balanced_plain. by destruct m.
  - bsplit. unfold text_ok in *. bsplit.
    pose proof (forallb_impl _ _ v safe_calm ltac:(done)) as Hvc.
    pose proof (forallb_impl _ _ v safe_plain ltac:(done)) as Hvp. split; [|split].
    + apply (forallb_not_elem calm); [|done]. apply forallb_call; try done.
      rewrite forallb_app. cbn. by rewrite forallb_app, Hvc.
    + pose proof (call_edges $"has(param" p ($", " ++ 34 :: (v ++ [34])) [41]) as E.
      js_lit_in E. js_lit. flat_in E. cbn [app]. by apply E.
    + replace (call _ _ _) with ($"has" ++ (40 :: (call $"param" p ($", " ++ 34 :: (v ++ [34])) ++ [41]))).
      2:{ unfold call. js_lit. flat. done. }
      apply balanced_app; [done|]. apply balanced_parens, balanced_call; [done..|].
      apply balanced_plain. rewrite forallb_app. cbn. by rewrite forallb_app, Hvp.
Qed.

Lemma build_guarded p m v :
  path_ok p = true -> guarded_ok m v = true ->
  buildRequestConditionExpr (req_cond SOURCE_PARAM p m (VStr v))
  = join $" && " [text_of (req_cond SOURCE_PARAM p MATCH_EXISTS (VStr [])); guarded_text p m v].
Proof.
  intros Hp Hg. destruct (path_ok_facts p Hp) as (Hn & Hsf & Ht & Hso).
  unfold buildRequestConditionExpr, guarded_text, text_of, call, guarded_ok in *.
  cbn [normalizeCondition req_cond source_ path mode_ value default from_option id
       text_or_empty is_nullish String_val pick_mode]. rewrite Hso, Ht, Hn, quote_safe by done.
  cbn [negb join]. destruct m; try done; cbn [num_mode] in *; vm_compute (bool_decide (_ ∈ _)); cbn iota;
    cbn [default from_option id]; vm_compute (bool_decide (Some SOURCE_PARAM = _)); cbn iota;
    rewrite ?numeric_edges, ?Hg by done; cbn [negb]; js_lit; flat; try done.
  bsplit. unfold text_ok in *. bsplit. unfold buildExprLiteral. cbn [truthy String_val].
  assert ((if nonempty v then v else []) = v) as -> by (by destruct v).
  rewrite trim_id, quote_safe by done. flat. done.
Qed.

Definition guarded_body (p : jsstr) (m : mode) (v : jsstr) : jsstr :=
  join $" && " [text_of (req_cond SOURCE_PARAM p MATCH_EXISTS (VStr [])); guarded_text p m v].

Section Guarded.
Context (p : jsstr) (m : mode) (v : jsstr) (Hp : path_ok p = true) (Hg : guarded_ok m v = true).

Lemma guard_conjunct :
  conjunct (req_cond SOURCE_PARAM p MATCH_EXISTS (VStr [])) (text_of (req_cond SOURCE_PARAM p MATCH_EXISTS (VStr []))).
Proof. apply conjunct_text. by constructor. Qed.

Lemma guarded_balanced : balanced (guarded_body p m v).
Proof.
  apply balanced_app; [apply guard_conjunct|]. apply balanced_app; [done|]. by apply guarded_facts.
Qed.

Lemma guarded_split :
  splitTopLevelAnd (guarded_body p m v)
  = [text_of (req_cond SOURCE_PARAM p MATCH_EXISTS (VStr [])); guarded_text p m v].
Proof.
  pose proof guard_conjunct as Hc. destruct (guarded_facts p m v Hp Hg) as (Hamp & He & Hb).
  assert (Hgn : guarded_text p m v <> []) by (unfold guarded_text; by destruct (num_mode m)).
  unfold splitTopLevelAnd, guarded_body. rewrite split_parts; try done.
  - apply filter_nonempty. constructor; [apply Hc|]. by constructor.
  - constructor; [|constructor; [|done]].
    + split; [|apply Hc]. intros rest cur. apply split_flat; [apply Hc|by eapply conjunct_last|apply Hc].
    + split; [|done]. intros rest cur. apply split_flat; try done.
      destruct (guarded_text p m v) as [|x u]; [done|]. unfold edges_ok in He. by bsplit.
Qed.

Lemma guarded_factor mult :
  isNumericLiteral mult = true ->
  buildRuleGroupFactor (Group [req_cond SOURCE_PARAM p m (VStr v)] mult)
  = $"(" ++ guarded_body p m v ++ $" ? " ++ mult ++ $" : 1)".
Proof.
  intros Hm. unfold buildRuleGroupFactor. cbn [conditions multiplier map].
  rewrite numeric_edges, Hm by done. rewrite build_guarded by done. fold (guarded_body p m v).
  cbn [negb filter_Boolean List.filter]. done.
Qed.

End Guarded.

(** A parameter condition that the printer guards with a [!= nil] conjunct
    (contains, and the four comparisons) is printed as a factor that the parser
    rejects, for every path, value and multiplier. *)
Theorem guarded_param_not_read_back p m v mult :
  path_ok p = true -> guarded_ok m v = true -> isNumericLiteral mult = true ->
  tryParseRequestRuleExpr
    (buildRequestRuleExpr [Group [req_cond SOURCE_PARAM p m (VStr v)] mult]) = Ret None.
Proof.
  intros Hp Hg Hm. pose proof (guard_conjunct p Hp) as Hc.
  unfold buildRequestRuleExpr. cbn [map]. rewrite guarded_factor by done.
  set (e := $"(" ++ _). change (filter_Boolean [e]) with [e]. cbn [join].
  assert (Ee : e = 40 :: ((guarded_body p m v ++ $" ? " ++ mult ++ $" : 1") ++ [41])).
  { subst e. js_lit. cbn [app]. f_equal. flat. done. }
  rewrite Ee, parse_single, <- Ee.
  2:{ apply balanced_app; [by apply guarded_balanced|]. apply balanced_app; [done|].
      apply balanced_app; [|done]. apply balanced_plain, (numeric_all plain); [exact numchar_plain|done]. }
  unfold e, tryParseRuleGroupFactor. rewrite exec_group by done.
  unfold cap. cbn [capture default from_option Z.eqb Pos.eqb id]. rewrite guarded_split by done.
  cbn [parse_conditions]. rewrite trim_id by apply Hc. rewrite (cj_parse _ _ Hc).
  rewrite trim_id by (by apply guarded_facts). by rewrite guarded_unparsed.
Qed.

(** ** Instances *)

Definition sample_groups : list group :=
  [Group [time_cond Hour $"Asia/Shanghai" MATCH_RANGE (VStr []) (VStr $"21") (VStr $"6");
          req_cond SOURCE_HEADER $"x-tier" MATCH_EQ (VStr $"gold")] $"0.5";
   Group [req_cond SOURCE_PARAM $"stream" MATCH_EXISTS (VStr [])] $"2"].

Lemma sample_wf : Forall wf_group sample_groups.
Proof.
  repeat constructor; try done.
Qed.

Lemma build_parse_roundtrip_witness :
  buildRequestRuleExpr sample_groups <> []
  /\ tryParseRequestRuleExpr (buildRequestRuleExpr sample_groups) = Ret (Some sample_groups).
Proof.
  split; [by vm_compute|]. apply (build_parse_roundtrip sample_groups). exact sample_wf.
Defined.

Lemma split_combine_roundtrip_witness :
  splitBillingExprAndRequestRules
    (combineBillingExpr $"tier(p * 2 + c * 8)" (buildRequestRuleExpr sample_groups))
  = Ret (unwrapOuterParens $"tier(p * 2 + c * 8)", buildRequestRuleExpr sample_groups).
Proof.
  apply (split_combine_roundtrip $"tier(p * 2 + c * 8)" sample_groups);
    [by vm_compute | by vm_compute | by vm_compute | by vm_compute | exact sample_wf | done].
Defined.

Lemma guarded_param_not_read_back_witness :
  buildRequestRuleExpr [Group [req_cond SOURCE_PARAM $"max_tokens" MATCH_GT (VStr $"1000")] $"2"] <> []
  /\ tryParseRequestRuleExpr
       (buildRequestRuleExpr [Group [req_cond SOURCE_PARAM $"max_tokens" MATCH_GT (VStr $"1000")] $"2"])
     = Ret None.
Proof.
  split; [by vm_compute|].
  apply (guarded_param_not_read_back $"max_tokens" MATCH_GT $"1000" $"2"); by vm_compute.
Defined.

(** A text accepted by the pattern of a header condition but not by
    [JSON.parse]: the parser throws instead of answering null. *)
Example malformed_escape_throws :
  tryParseRequestRuleExpr
    ($"(has(header(" ++ dq ++ $"a" ++ dq ++ $"), " ++ dq ++ $"\q" ++ dq ++ $") ? 2 : 1)") = Throw.
Proof. by vm_compute. Qed.

End RequestRuleGroups.
