(* ===== verification/PricingModel.v ===== *)
(** * The pricing of one model:
    [web/src/pages/Setting/Ratio/hooks/useModelPricingEditorState.js], lines 26-619

    The functions outside the hook: option JSON to an editable model
    ([buildModelState]), a model to the options that are saved
    ([serializeModel]), and the texts the editor shows about a model.  The price
    and ratio fields of a model are strings, as in the source; prices are computed
    with binary64 numbers and rounded to twelve decimals by [formatNumber]. *)
From S2P Require Import Prelude JSNum JSValue Json Regex RequestRuleExpr.
#[local] Open Scope Z_scope.

Module PricingModel.
Import RequestRuleExpr.

Inductive billing_mode := PerToken | PerRequest | TieredExpr.

#[export] Instance billing_mode_eq_dec : EqDecision billing_mode.
Proof. solve_decision. Defined.

Record ratios := Ratios {
  modelRatio : jsstr;
  completionRatio : jsstr;
  cacheRatio : jsstr;
  createCacheRatio : jsstr;
  imageRatio : jsstr;
  audioRatio : jsstr;
  audioCompletionRatio : jsstr;
}.

Record model := Model {
  name : jsstr;
  billingMode : billing_mode;
  fixedPrice : jsstr;
  inputPrice : jsstr;
  completionPrice : jsstr;
  lockedCompletionRatio : jsstr;
  completionRatioLocked : bool;
  cachePrice : jsstr;
  createCachePrice : jsstr;
  imagePrice : jsstr;
  audioInputPrice : jsstr;
  audioOutputPrice : jsstr;
  billingExpr : jsstr;
  requestRuleExpr : jsstr;
  rawRatios : ratios;
  hasConflict : bool;
}.

Definition EMPTY_RATIOS : ratios := Ratios [] [] [] [] [] [] [].

Definition EMPTY_MODEL : model :=
  Model [] PerToken [] [] [] [] false [] [] [] [] [] [] [] EMPTY_RATIOS false.

(** Optional: digits with an optional point and digits, or a point and digits. *)
Definition NUMERIC_INPUT_REGEX : re :=
  Opt ((Plus (Chr is_digit) ++ Opt (Ch 46 ++ Star (Chr is_digit)))
       || (Ch 46 ++ Star (Chr is_digit)))%re.

(** ** Numbers *)

Definition hasValue (v : val) : bool :=
  match v with
  | VStr s => nonempty s
  | VNull | VUndef => false
  | VBool b => b
  | _ => true
  end.

(** [hasValue] of a string field. *)
Definition has (s : jsstr) : bool := hasValue (VStr s).

(** [!hasValue(value) && value !== 0] *)
Definition lacks_value (v : val) : bool :=
  negb (hasValue v) && negb (match v with VNum n => neqb n n0 | _ => false end).

Definition toNumericString (v : val) : jsstr :=
  if lacks_value v then []
  else let num := Number_val v in if isFinite num then String_num num else [].

Definition toNumberOrNull (v : val) : option num :=
  if lacks_value v then None
  else let num := Number_val v in if isFinite num then Some num else None.

Definition formatNumber (v : val) : jsstr :=
  match toNumberOrNull v with
  | None => []
  | Some num => String_num (parseFloat (toFixed num 12))
  end.

Definition toNormalizedNumber (v : val) : option num :=
  let formatted := formatNumber v in
  if nonempty formatted then Some (Number_str formatted) else None.

(** The same on a string field and on a number. *)
Definition num_of (s : jsstr) : option num := toNumberOrNull (VStr s).
Definition fmt (n : num) : jsstr := formatNumber (VNum n).

(** [raw] is the option's text, or [None] when the option is missing. *)
Definition parseOptionJSON (raw : option jsstr) : val :=
  match raw with
  | None => VObj []
  | Some s =>
    if nonempty (trim s) then
      match parse s with
      | Some v => if truthy v && is_object v then v else VObj []
      | None => VObj []
      end
    else VObj []
  end.

Definition ratioToBasePrice (ratio : jsstr) : jsstr :=
  match num_of ratio with
  | None => []
  | Some num => fmt (nmul num n2)
  end.

Record ratio_meta := RatioMeta { locked : bool; ratio : jsstr }.

Definition normalizeCompletionRatioMeta (rawMeta : val) : ratio_meta :=
  match rawMeta with
  | VObj _ => RatioMeta (truthy (get rawMeta $"locked")) (toNumericString (get rawMeta $"ratio"))
  | _ => RatioMeta false []
  end.

(** ** From the options to a model *)

Record source_maps := SourceMaps {
  ModelPrice : val;
  ModelRatio : val;
  CompletionRatio : val;
  CompletionRatioMeta : val;
  CacheRatio : val;
  CreateCacheRatio : val;
  ImageRatio : val;
  AudioRatio : val;
  AudioCompletionRatio : val;
  ModelBillingMode : val;
  ModelBillingExpr : val;
}.

(** [map[name]], on an object or an array. *)
Definition at_name (m : val) (name : jsstr) : val := default VUndef (prop name (entries m)).

(** [(expr || '').trim()] of a value that is not a string throws. *)
Definition split_value (v : val) : outcome (jsstr * jsstr) :=
  match v with
  | VStr s => splitBillingExprAndRequestRules s
  | _ => if truthy v then Throw else splitBillingExprAndRequestRules []
  end.

Definition tiered_model (nm expr rules : jsstr) : model :=
  Model nm TieredExpr [] [] [] [] false [] [] [] [] [] expr rules EMPTY_RATIOS false.

(** A derived price: [base] times a ratio, when both are there. *)
Definition derived (base : option num) (r : jsstr) : jsstr :=
  match base with
  | Some b => if has r then fmt (nmul b (Number_str r)) else []
  | None => []
  end.

Definition all_ratios (r : ratios) : list jsstr :=
  [modelRatio r; completionRatio r; cacheRatio r; createCacheRatio r; imageRatio r; audioRatio r;
   audioCompletionRatio r].

Definition ratio_model (nm : jsstr) (maps : source_maps) : model :=
  let modelRatio := toNumericString (at_name (ModelRatio maps) nm) in
  let completionRatio := toNumericString (at_name (CompletionRatio maps) nm) in
  let meta := normalizeCompletionRatioMeta (at_name (CompletionRatioMeta maps) nm) in
  let cacheRatio := toNumericString (at_name (CacheRatio maps) nm) in
  let createCacheRatio := toNumericString (at_name (CreateCacheRatio maps) nm) in
  let imageRatio := toNumericString (at_name (ImageRatio maps) nm) in
  let audioRatio := toNumericString (at_name (AudioRatio maps) nm) in
  let audioCompletionRatio := toNumericString (at_name (AudioCompletionRatio maps) nm) in
  let fixedPrice := toNumericString (at_name (ModelPrice maps) nm) in
  let inputPrice := ratioToBasePrice modelRatio in
  let inputPriceNumber := num_of inputPrice in
  let audioInputPrice := derived inputPriceNumber audioRatio in
  let raw := Ratios modelRatio completionRatio cacheRatio createCacheRatio imageRatio audioRatio
               audioCompletionRatio in
  Model nm
    (if has fixedPrice then PerRequest else PerToken)
    fixedPrice
    inputPrice
    (derived inputPriceNumber (if locked meta then ratio meta else completionRatio))
    (ratio meta)
    (locked meta)
    (derived inputPriceNumber cacheRatio)
    (derived inputPriceNumber createCacheRatio)
    (derived inputPriceNumber imageRatio)
    audioInputPrice
    (match num_of audioInputPrice with
     | Some _ =>
       if has audioCompletionRatio
       then fmt (nmul (Number_str audioInputPrice) (Number_str audioCompletionRatio)) else []
     | None => []
     end)
    [] []
    raw
    (has fixedPrice && existsb has (all_ratios raw)).

Definition buildModelState (nm : jsstr) (maps : source_maps) : outcome model :=
  if eq_str (at_name (ModelBillingMode maps) nm) $"tiered_expr" then
    match split_value (at_name (ModelBillingExpr maps) nm) with
    | Throw => Throw
    | Ret (expr, rules) => Ret (tiered_model nm expr rules)
    end
  else Ret (ratio_model nm maps).

Definition is_tiered (m : model) : bool := bool_decide (billingMode m = TieredExpr).

Definition isBasePricingUnset (m : model) : bool :=
  negb (is_tiered m) && negb (has (fixedPrice m)) && negb (has (inputPrice m)).

(** ** Texts about a model *)

Definition price_fields (m : model) : list jsstr :=
  [inputPrice m; completionPrice m; cachePrice m; createCachePrice m; imagePrice m;
   audioInputPrice m; audioOutputPrice m].

Inductive warning := WConflict | WRatiosWithoutInput | WPriceWithoutInput | WAudioWithoutInput.

(** The warnings, in order, by what they say. *)
Definition getModelWarnings (om : option model) : list warning :=
  match om with
  | None => []
  | Some m =>
    if is_tiered m then []
    else
      let per_token := bool_decide (billingMode m = PerToken) in
      let hasDerivedPricing := existsb has (price_fields m) in
      (if hasConflict m then [WConflict] else [])
      ++ (if negb (has (inputPrice m)) && existsb has (tail (all_ratios (rawRatios m)))
          then [WRatiosWithoutInput] else [])
      ++ (if per_token && hasDerivedPricing && negb (has (inputPrice m))
          then [WPriceWithoutInput] else [])
      ++ (if per_token && has (audioOutputPrice m) && negb (has (audioInputPrice m))
          then [WAudioWithoutInput] else [])
  end.

(** [(expr.match(/tier\(/g) || []).length] *)
Fixpoint count_tier (s : jsstr) : Z :=
  match s with
  | [] => 0
  | _ :: r => (if startsWith $"tier(" s then 1 else 0) + count_tier r
  end.

Section Texts.
Variable t : jsstr -> jsstr.

Definition buildSummaryText (m : model) : jsstr :=
  let suffix := if is_tiered m && nonempty (requestRuleExpr m) then $"，" ++ t $"请求规则" else [] in
  if is_tiered m then
    if negb (nonempty (billingExpr m)) || (count_tier (billingExpr m) =? 0)
    then t $"表达式计费" ++ suffix
    else t $"阶梯计费" ++ $" (" ++ Z_to_str (count_tier (billingExpr m)) ++ $" " ++ t $"档" ++ $")" ++ suffix
  else if bool_decide (billingMode m = PerRequest) && has (fixedPrice m)
  then t $"按次" ++ $" $" ++ fixedPrice m ++ $" / " ++ t $"次" ++ suffix
  else if has (inputPrice m) then
    let extraCount := Z.of_nat (length (List.filter has (tail (price_fields m)))) in
    let extraLabel := if 0 <? extraCount then $"，" ++ t $"额外价格项" ++ $" " ++ Z_to_str extraCount else [] in
    t $"输入" ++ $" $" ++ inputPrice m ++ extraLabel ++ suffix
  else t $"未设置价格" ++ suffix.

Record row := Row { key : jsstr; label : jsstr; rvalue : jsstr }.

Definition mk_row (k v : jsstr) : row := Row k k v.

(** [e.length > 60 ? e.slice(0, 60) + '...' : e] *)
Definition ellipsis (e : jsstr) : jsstr :=
  if (60 <? length e)%nat then take 60 e ++ $"..." else e.

Definition or_empty (s : jsstr) : jsstr := if has s then s else t $"空".

(** [p !== null ? formatNumber(p / base) : t('空')] *)
Definition ratio_row (p : option num) (base : num) : jsstr :=
  match p with Some x => fmt (ndiv x base) | None => t $"空" end.

Definition ratio_keys : list jsstr :=
  [$"ModelRatio"; $"CompletionRatio"; $"CacheRatio"; $"CreateCacheRatio"; $"ImageRatio";
   $"AudioRatio"; $"AudioCompletionRatio"].

Definition preview_model (m : model) : list row :=
  let finalBillingExpr := combineBillingExpr (billingExpr m) (requestRuleExpr m) in
  match billingMode m with
  | TieredExpr =>
    Row $"BillingMode" $"ModelBillingMode" $"tiered_expr"
    :: (if nonempty finalBillingExpr then
          let tierCount := count_tier (billingExpr m) in
          [Row $"BillingExpr" $"ModelBillingExpr"
             (if 0 <? tierCount
              then Z_to_str tierCount ++ $" " ++ t $"档" ++ $" — " ++ ellipsis finalBillingExpr
              else ellipsis finalBillingExpr)]
        else [])
  | PerRequest => [mk_row $"ModelPrice" (or_empty (fixedPrice m))]
  | PerToken =>
    match num_of (inputPrice m) with
    | None => zip_with mk_row ratio_keys (map or_empty (all_ratios (rawRatios m)))
    | Some inputPrice =>
      let audioInput := num_of (audioInputPrice m) in
      let audioOutput := num_of (audioOutputPrice m) in
      zip_with mk_row ratio_keys
        [fmt (ndiv inputPrice n2);
         (if completionRatioLocked m
          then (if nonempty (lockedCompletionRatio m) then lockedCompletionRatio m else t $"空")
               ++ $" (" ++ t $"后端固定" ++ $")"
          else ratio_row (num_of (completionPrice m)) inputPrice);
         ratio_row (num_of (cachePrice m)) inputPrice;
         ratio_row (num_of (createCachePrice m)) inputPrice;
         ratio_row (num_of (imagePrice m)) inputPrice;
         ratio_row audioInput inputPrice;
         match audioInput with
         | Some a => if neqb a n0 then t $"空" else ratio_row audioOutput a
         | None => t $"空"
         end]
    end
  end.

Definition buildPreviewRows (om : option model) : list row :=
  match om with None => [] | Some m => preview_model m end.

End Texts.

(** The price fields that can be edited. *)
Inductive field :=
| FFixed | FInput | FCompletion | FCache | FCreateCache | FImage | FAudioInput | FAudioOutput.

#[export] Instance field_eq_dec : EqDecision field.
Proof. solve_decision. Defined.

Definition field_name (f : field) : jsstr :=
  match f with
  | FFixed => $"fixedPrice" | FInput => $"inputPrice" | FCompletion => $"completionPrice"
  | FCache => $"cachePrice" | FCreateCache => $"createCachePrice" | FImage => $"imagePrice"
  | FAudioInput => $"audioInputPrice" | FAudioOutput => $"audioOutputPrice"
  end.

(** Which optional fields are shown: an object with a boolean per field name. *)
Abbreviation toggles := (list (jsstr * bool)).

Definition buildOptionalFieldToggles (m : model) : toggles :=
  [(field_name FCompletion, completionRatioLocked m || has (completionPrice m));
   (field_name FCache, has (cachePrice m));
   (field_name FCreateCache, has (createCachePrice m));
   (field_name FImage, has (imagePrice m));
   (field_name FAudioInput, has (audioInputPrice m));
   (field_name FAudioOutput, has (audioOutputPrice m))].

(** ** From a model to the options *)

Record serialized := Serialized {
  s_ModelPrice : option num;
  s_ModelRatio : option num;
  s_CompletionRatio : option num;
  s_CacheRatio : option num;
  s_CreateCacheRatio : option num;
  s_ImageRatio : option num;
  s_AudioRatio : option num;
  s_AudioCompletionRatio : option num;
}.

Definition s_null : serialized := Serialized None None None None None None None None.

Inductive serialize_error := MissingInputPrice (nm : jsstr) | MissingAudioInput (nm : jsstr).

(** [hasValue(r) ? toNormalizedNumber(r) : null] *)
Definition normalized_raw (r : jsstr) : option num :=
  if has r then toNormalizedNumber (VStr r) else None.

(** [p !== null ? toNormalizedNumber(p / base) : null] *)
Definition ratio_to (p : option num) (base : num) : option num :=
  match p with Some x => toNormalizedNumber (VNum (ndiv x base)) | None => None end.

Definition is_some {A} (o : option A) : bool := match o with Some _ => true | None => false end.

(** [audioInputPrice === null || audioInputPrice === 0] *)
Definition null_or_zero (o : option num) : bool :=
  match o with None => true | Some a => neqb a n0 end.

Definition serializeModel (m : model) : serialize_error + serialized :=
  if bool_decide (billingMode m = PerRequest) then
    inr (Serialized (if has (fixedPrice m) then toNormalizedNumber (VStr (fixedPrice m)) else None)
           None None None None None None None)
  else
    let inputPrice := num_of (inputPrice m) in
    let completionPrice := num_of (completionPrice m) in
    let cachePrice := num_of (cachePrice m) in
    let createCachePrice := num_of (createCachePrice m) in
    let imagePrice := num_of (imagePrice m) in
    let audioInputPrice := num_of (audioInputPrice m) in
    let audioOutputPrice := num_of (audioOutputPrice m) in
    let hasDependentPrice :=
      existsb is_some [completionPrice; cachePrice; createCachePrice; imagePrice; audioInputPrice;
                       audioOutputPrice] in
    let raw := rawRatios m in
    match inputPrice with
    | None =>
      if hasDependentPrice then inl (MissingInputPrice (name m))
      else inr (Serialized None (normalized_raw (modelRatio raw))
                  (normalized_raw (completionRatio raw)) (normalized_raw (cacheRatio raw))
                  (normalized_raw (createCacheRatio raw)) (normalized_raw (imageRatio raw))
                  (normalized_raw (audioRatio raw)) (normalized_raw (audioCompletionRatio raw)))
    | Some base =>
      let completion :=
        if completionRatioLocked m then normalized_raw (completionRatio raw)
        else ratio_to completionPrice base in
      let done audioCompletion :=
        inr (Serialized None (toNormalizedNumber (VNum (ndiv base n2))) completion
               (ratio_to cachePrice base) (ratio_to createCachePrice base)
               (ratio_to imagePrice base) (ratio_to audioInputPrice base) audioCompletion) in
      match audioOutputPrice with
      | None => done None
      | Some out =>
        match audioInputPrice with
        | Some a =>
          if neqb a n0 then inl (MissingAudioInput (name m))
          else done (toNormalizedNumber (VNum (ndiv out a)))
        | None => inl (MissingAudioInput (name m))
        end
      end
    end.

(** * Theorems *)

(** ** Numbers as text *)

Lemma zeros_app n ds : ds <> [] -> zeros n ++ ds <> [] /\ ds ++ zeros n <> [].
Proof. intros H. split; intros E%app_eq_nil; by destruct E. Qed.

Lemma layout_nonnil s k n : layout s k n <> [].
Proof.
  pose proof (dec_nonneg_nonnil s) as H. unfold layout. js_lit.
  destruct (dec_nonneg s) as [|d ds]; [done|].
  repeat case_match; intros E; repeat (apply app_eq_nil in E as [? E]); done.
Qed.

Lemma String_num_nonnil n : String_num n <> [].
Proof.
  unfold String_num. destruct n as [| [|] | |sg m e]; try done.
  destruct (ratio_of m e) as [a b]. destruct (shortest _ _ _ _ _) as [[ds k] ex].
  intros [_ E]%app_eq_nil. by apply layout_nonnil in E.
Qed.

Lemma toNumberOrNull_num n : toNumberOrNull (VNum n) = if isFinite n then Some n else None.
Proof. done. Qed.

(** A number is formatted exactly when it is finite. *)
Lemma fmt_finite n : nonempty (fmt n) = isFinite n.
Proof.
  unfold fmt, formatNumber. rewrite toNumberOrNull_num. destruct (isFinite n); [|done].
  destruct (String_num _) eqn:E; [by apply String_num_nonnil in E|done].
Qed.

Lemma toNormalizedNumber_num n :
  toNormalizedNumber (VNum n) = if isFinite n then Some (Number_str (fmt n)) else None.
Proof. unfold toNormalizedNumber. fold (fmt n). by rewrite fmt_finite. Qed.

(** ** When saving fails *)

Definition dependent_prices (m : model) : list (option num) :=
  map num_of [completionPrice m; cachePrice m; createCachePrice m; imagePrice m; audioInputPrice m;
              audioOutputPrice m].

Lemma serialize_error_cases m e :
  serializeModel m = inl e <->
  billingMode m <> PerRequest /\
  ((num_of (inputPrice m) = None /\ existsb is_some (dependent_prices m) = true
    /\ e = MissingInputPrice (name m))
   \/ (is_some (num_of (inputPrice m)) = true /\ is_some (num_of (audioOutputPrice m)) = true
       /\ null_or_zero (num_of (audioInputPrice m)) = true /\ e = MissingAudioInput (name m))).
Proof.
  unfold serializeModel, dependent_prices. cbn [map].
  destruct (bool_decide_reflect (billingMode m = PerRequest)) as [E|E]; [naive_solver|].
  destruct (num_of (inputPrice m)) as [base|].
  - destruct (num_of (audioOutputPrice m)) as [out|]; cbn [is_some].
    + destruct (num_of (audioInputPrice m)) as [a|]; cbn [null_or_zero].
      * destruct (neqb a n0); naive_solver.
      * naive_solver.
    + naive_solver.
  - destruct (existsb is_some _); naive_solver.
Qed.

(** [serializeModel] throws in exactly two cases, never for per-request
    models: some price depends on a missing input price, or an audio output price
    has no non-zero audio input price to be divided by. *)
Theorem serialize_error_iff m e :
  serializeModel m = inl e <->
  billingMode m <> PerRequest /\
  ((num_of (inputPrice m) = None /\ existsb is_some (dependent_prices m) = true
    /\ e = MissingInputPrice (name m))
   \/ (is_some (num_of (inputPrice m)) = true /\ is_some (num_of (audioOutputPrice m)) = true
       /\ null_or_zero (num_of (audioInputPrice m)) = true /\ e = MissingAudioInput (name m))).
Proof. apply serialize_error_cases. Qed.

(** A price field that is empty or a finite number. *)
Definition numeric_field (s : jsstr) : bool := negb (nonempty s) || is_some (num_of s).

Lemma numeric_field_has s : numeric_field s = true -> is_some (num_of s) = has s.
Proof. by destruct s. Qed.

Lemma elem_of_if {A} (x : A) (b : bool) : x ∈ (if b then [x] else []) <-> b = true.
Proof. destruct b; [split; [done|by left]|]. split; [by intros ?%elem_of_nil|done]. Qed.

Lemma not_elem_of_if {A} (x y : A) (b : bool) : x <> y -> ~ x ∈ (if b then [y] else []).
Proof. destruct b; [by intros ? ?%list_elem_of_singleton|by intros _ ?%elem_of_nil]. Qed.

(** Which conditions put a warning into the list. *)
Lemma price_warning_iff m :
  billingMode m = PerToken ->
  WPriceWithoutInput ∈ getModelWarnings (Some m)
  <-> existsb has (price_fields m) && negb (has (inputPrice m)) = true.
Proof.
  intros Hb. unfold getModelWarnings, is_tiered. rewrite Hb.
  rewrite bool_decide_eq_false_2, bool_decide_eq_true_2 by done. rewrite !elem_of_app, elem_of_if.
  cbn [andb]. split; [|tauto]. intros [H|[H|[H|H]]]; [..|done|]; exfalso; by eapply not_elem_of_if in H.
Qed.

Lemma audio_warning_iff m :
  billingMode m = PerToken ->
  WAudioWithoutInput ∈ getModelWarnings (Some m)
  <-> has (audioOutputPrice m) && negb (has (audioInputPrice m)) = true.
Proof.
  intros Hb. unfold getModelWarnings, is_tiered. rewrite Hb.
  rewrite bool_decide_eq_false_2, bool_decide_eq_true_2 by done. rewrite !elem_of_app, elem_of_if.
  cbn [andb]. split; [|tauto]. intros [H|[H|[H|H]]]; [..|done]; exfalso; by eapply not_elem_of_if in H.
Qed.

(** For a per-token model whose prices are empty or numbers, the warning about
    a missing input price is shown exactly when saving would throw for it. *)
Theorem price_warning_predicts_save m :
  billingMode m = PerToken -> forallb numeric_field (price_fields m) = true ->
  WPriceWithoutInput ∈ getModelWarnings (Some m)
  <-> serializeModel m = inl (MissingInputPrice (name m)).
Proof.
  intros Hb Hn. rewrite price_warning_iff by done. unfold serializeModel. rewrite Hb.
  rewrite bool_decide_eq_false_2 by done. unfold price_fields in *. cbn [forallb existsb] in *. bsplit.
  repeat match goal with
         | H : numeric_field ?s = true |- _ => apply numeric_field_has in H; rewrite <- H; clear H
         end.
  destruct (num_of (inputPrice m)) as [base|]; cbn [is_some negb orb].
  - rewrite andb_false_r. split; [done|]. intros E. repeat case_match; discriminate.
  - rewrite andb_true_r. destruct (_ || _)%bool; [by split|]. by split.
Qed.

(** Every failing save of such a model is announced by a warning, except that
    of an audio output price over an audio input price of zero. *)
Theorem save_failure_announced m e :
  billingMode m = PerToken -> forallb numeric_field (price_fields m) = true ->
  serializeModel m = inl e ->
  WPriceWithoutInput ∈ getModelWarnings (Some m)
  \/ WAudioWithoutInput ∈ getModelWarnings (Some m)
  \/ (exists a, num_of (audioInputPrice m) = Some a /\ neqb a n0 = true).
Proof.
  intros Hb Hn He. rewrite price_warning_iff, audio_warning_iff by done.
  apply serialize_error_cases in He as [_ [(Hi & Hd & _)|(Hi & Ho & Hz & _)]];
    unfold price_fields, dependent_prices in *; cbn [forallb existsb map] in *; bsplit;
    repeat match goal with
           | H : numeric_field ?s = true |- _ => apply numeric_field_has in H
           end.
  - left. rewrite Hi in *. cbn [is_some] in *.
    repeat match goal with H : is_some (num_of _) = has _ |- _ => rewrite <- H; clear H end.
    match goal with H : false = has _ |- _ => rewrite <- H end. cbn [orb negb]. by rewrite andb_true_r.
  - right. destruct (num_of (audioInputPrice m)) as [a|] eqn:Ea; [right; by exists a|left].
    repeat match goal with H : is_some _ = has _ |- _ => rewrite <- H; clear H end.
    by rewrite Ho.
Qed.

(** ** What the preview shows is what is saved *)

(** A saved number and the text of its preview row; an unsaved option shows the
    text for empty, or nothing when the quotient is not finite. *)
Definition shown (t : jsstr -> jsstr) (v : jsstr) (o : option num) : Prop :=
  match o with
  | Some n => Number_str v = n
  | None => v = t $"空" \/ v = []
  end.

Definition saved_ratios (s : serialized) : list (option num) :=
  [s_ModelRatio s; s_CompletionRatio s; s_CacheRatio s; s_CreateCacheRatio s; s_ImageRatio s;
   s_AudioRatio s; s_AudioCompletionRatio s].

Lemma shown_fmt t x : shown t (fmt x) (toNormalizedNumber (VNum x)).
Proof.
  rewrite toNormalizedNumber_num. pose proof (fmt_finite x) as H.
  destruct (isFinite x); cbn; [done|]. right. by destruct (fmt x).
Qed.

Lemma shown_ratio t p base : shown t (ratio_row t p base) (ratio_to p base).
Proof. destruct p; cbn [ratio_row ratio_to]; [apply shown_fmt|by left]. Qed.

(** For a per-token model with an input price and no locked completion ratio,
    the seven preview rows show, in order, the ratios that saving writes. *)
Theorem preview_agrees_with_save t m s base :
  billingMode m = PerToken -> completionRatioLocked m = false ->
  num_of (inputPrice m) = Some base -> serializeModel m = inr s ->
  map key (buildPreviewRows t (Some m)) = ratio_keys
  /\ Forall2 (shown t) (map rvalue (buildPreviewRows t (Some m))) (saved_ratios s)
  /\ s_ModelPrice s = None.
Proof.
  intros Hb Hl Hi Hs. unfold buildPreviewRows, preview_model. unfold serializeModel in Hs.
  rewrite Hb, Hi, Hl in *. rewrite bool_decide_eq_false_2 in Hs by done.
  split; [done|]. unfold ratio_keys. cbn [zip_with map rvalue mk_row].
  destruct (num_of (audioOutputPrice m)) as [out|].
  - destruct (num_of (audioInputPrice m)) as [a|]; [|done].
    destruct (neqb a n0) eqn:Ez; [done|]. simplify_eq. split; [|done].
    repeat (constructor; [first [apply shown_fmt|apply shown_ratio]|]). constructor.
  - simplify_eq. split; [|done].
    do 6 (constructor; [first [apply shown_fmt|apply shown_ratio]|]).
    constructor; [|constructor]. left. destruct (num_of (audioInputPrice m)) as [a|]; [|done].
    by destruct (neqb a n0).
Qed.

(** ** Tiered models *)

(** Loading a model with an expression drops its stored ratios and prices, so
    that saving it writes none of the eight ratio options for it. *)
Theorem tiered_ratios_dropped nm maps m :
  eq_str (at_name (ModelBillingMode maps) nm) $"tiered_expr" = true ->
  buildModelState nm maps = Ret m -> serializeModel m = inr s_null.
Proof.
  intros Hm Hb. unfold buildModelState in Hb. rewrite Hm in Hb.
  destruct (split_value _) as [[expr rules]|]; [|done]. by simplify_eq.
Qed.

(** ** Instances *)

Definition sample_maps : source_maps :=
  SourceMaps (VObj []) (VObj [($"m", VNum (Number_str $"1.25"))]) (VObj [($"m", VNum (of_Z 4))])
    (VObj []) (VObj [($"m", VNum (Number_str $"0.1"))]) (VObj []) (VObj [])
    (VObj [($"m", VNum (of_Z 8))]) (VObj [($"m", VNum (of_Z 2))])
    (VObj [($"e", VStr $"tiered_expr")]) (VObj [($"e", VStr $"p * 2")]).

Definition sample_model : model := ratio_model $"m" sample_maps.

Definition unpriced_model : model :=
  Model $"m" PerToken [] [] $"3" [] false [] [] [] [] [] [] [] EMPTY_RATIOS false.

Lemma price_warning_predicts_save_witness :
  WPriceWithoutInput ∈ getModelWarnings (Some unpriced_model)
  <-> serializeModel unpriced_model = inl (MissingInputPrice $"m").
Proof. apply (price_warning_predicts_save unpriced_model); by vm_compute. Defined.

Lemma save_failure_announced_witness :
  WPriceWithoutInput ∈ getModelWarnings (Some unpriced_model)
  \/ WAudioWithoutInput ∈ getModelWarnings (Some unpriced_model)
  \/ (exists a, num_of (audioInputPrice unpriced_model) = Some a /\ neqb a n0 = true).
Proof. apply (save_failure_announced unpriced_model (MissingInputPrice $"m")); by vm_compute. Defined.

Lemma preview_agrees_with_save_witness :
  map rvalue (buildPreviewRows id (Some sample_model))
    = [$"1.25"; $"4"; $"0.1"; $"空"; $"空"; $"8"; $"2"]
  /\ exists s, serializeModel sample_model = inr s
     /\ Forall2 (shown id) (map rvalue (buildPreviewRows id (Some sample_model))) (saved_ratios s).
Proof.
  split; [by vm_compute|]. destruct (serializeModel sample_model) as [e|s] eqn:E; [by vm_compute in E|].
  exists s. split; [done|].
  eapply (preview_agrees_with_save id sample_model s); [by vm_compute..|exact E].
Defined.

Lemma tiered_ratios_dropped_witness :
  serializeModel (tiered_model $"e" $"p * 2" []) = inr s_null.
Proof. apply (tiered_ratios_dropped $"e" sample_maps); by vm_compute. Defined.

End PricingModel.
