(* ===== verification/PricingEditor.v ===== *)
(** * The pricing editor's state:
    [web/src/pages/Setting/Ratio/hooks/useModelPricingEditorState.js], lines 621-1133

    The hook's [useState] cells are a record; a handler is a function on it, where
    the values a closure reads are those of the current state; [commit] runs the
    effects that follow a render.  Functional updates and direct sets are applied
    in the order of the calls.  [localeCompare], the translation function, the API
    and [refresh] are parameters. *)
From S2P Require Import Prelude JSNum JSValue Json Regex RequestRuleExpr PricingModel.
#[local] Open Scope Z_scope.

Module PricingEditor.
Import RequestRuleExpr PricingModel.

Inductive filter_mode := FilterAll | FilterUnset.

#[export] Instance filter_mode_eq_dec : EqDecision filter_mode.
Proof. solve_decision. Defined.

Record props := Props {
  options : list (jsstr * jsstr);
  candidateModelNames : list jsstr;
  filterMode : filter_mode;
}.

Record state := State {
  models : list model;
  initialVisibleModelNames : list jsstr;
  selectedModelName : jsstr;
  selectedModelNames : list jsstr;
  searchText : jsstr;
  currentPage : Z;
  loading : bool;
  conflictOnly : bool;
  optionalFieldToggles : list (jsstr * toggles);
}.

Definition PAGE_SIZE : Z := 10.

Definition init_state : state := State [] [] [] [] [] 1 false false [].

Definition set_models (l : list model) (s : state) : state :=
  State l (initialVisibleModelNames s) (selectedModelName s) (selectedModelNames s) (searchText s)
    (currentPage s) (loading s) (conflictOnly s) (optionalFieldToggles s).
Definition set_visible_names (l : list jsstr) (s : state) : state :=
  State (models s) l (selectedModelName s) (selectedModelNames s) (searchText s)
    (currentPage s) (loading s) (conflictOnly s) (optionalFieldToggles s).
Definition setSelectedModelName (n : jsstr) (s : state) : state :=
  State (models s) (initialVisibleModelNames s) n (selectedModelNames s) (searchText s)
    (currentPage s) (loading s) (conflictOnly s) (optionalFieldToggles s).
Definition setSelectedModelNames (l : list jsstr) (s : state) : state :=
  State (models s) (initialVisibleModelNames s) (selectedModelName s) l (searchText s)
    (currentPage s) (loading s) (conflictOnly s) (optionalFieldToggles s).
Definition setSearchText (x : jsstr) (s : state) : state :=
  State (models s) (initialVisibleModelNames s) (selectedModelName s) (selectedModelNames s) x
    (currentPage s) (loading s) (conflictOnly s) (optionalFieldToggles s).
Definition setCurrentPage (n : Z) (s : state) : state :=
  State (models s) (initialVisibleModelNames s) (selectedModelName s) (selectedModelNames s)
    (searchText s) n (loading s) (conflictOnly s) (optionalFieldToggles s).
Definition setLoading (b : bool) (s : state) : state :=
  State (models s) (initialVisibleModelNames s) (selectedModelName s) (selectedModelNames s)
    (searchText s) (currentPage s) b (conflictOnly s) (optionalFieldToggles s).
Definition setConflictOnly (b : bool) (s : state) : state :=
  State (models s) (initialVisibleModelNames s) (selectedModelName s) (selectedModelNames s)
    (searchText s) (currentPage s) (loading s) b (optionalFieldToggles s).
Definition set_toggles (o : list (jsstr * toggles)) (s : state) : state :=
  State (models s) (initialVisibleModelNames s) (selectedModelName s) (selectedModelNames s)
    (searchText s) (currentPage s) (loading s) (conflictOnly s) o.

Section Editor.
#[local] Set Default Proof Using "Type".
Variable localeCompare : jsstr -> jsstr -> Z.

(** ** Loading the options *)

Definition sourceMaps (p : props) : source_maps :=
  let opt k := parseOptionJSON (prop k (options p)) in
  SourceMaps (opt $"ModelPrice") (opt $"ModelRatio") (opt $"CompletionRatio")
    (opt $"CompletionRatioMeta") (opt $"CacheRatio") (opt $"CreateCacheRatio") (opt $"ImageRatio")
    (opt $"AudioRatio") (opt $"AudioCompletionRatio")
    (opt $"billing_setting.billing_mode") (opt $"billing_setting.billing_expr").

(** [new Set([...candidateModelNames, ...Object.keys(...), ...])] *)
Definition all_names (p : props) : list jsstr :=
  let m := sourceMaps p in
  uniq (candidateModelNames p
        ++ flat_map (fun v => keys (entries v))
             [ModelPrice m; ModelRatio m; CompletionRatio m; CompletionRatioMeta m; CacheRatio m;
              CreateCacheRatio m; ImageRatio m; AudioRatio m; AudioCompletionRatio m;
              ModelBillingMode m; ModelBillingExpr m]).

Fixpoint map_outcome {A B} (f : A -> outcome B) (l : list A) : outcome (list B) :=
  match l with
  | [] => Ret []
  | x :: r =>
    match f x with
    | Throw => Throw
    | Ret y => match map_outcome f r with Ret ys => Ret (y :: ys) | Throw => Throw end
    end
  end.

Definition nextModels (p : props) : outcome (list model) :=
  match map_outcome (fun n => buildModelState n (sourceMaps p)) (all_names p) with
  | Ret l => Ret (sort_by (fun a b => localeCompare (name a) (name b)) l)
  | Throw => Throw
  end.

Definition shown_models (fm : filter_mode) (l : list model) : list model :=
  match fm with FilterUnset => List.filter isBasePricingUnset l | FilterAll => l end.

Definition head_name (l : list model) : jsstr :=
  match l with m :: _ => name m | [] => [] end.

Definition has_model (n : jsstr) (l : list model) : bool := existsb (fun m => name m =s? n) l.

(** The first effect. *)
Definition load_effect (fm : filter_mode) (next : list model) (s : state) : state :=
  let s1 := set_visible_names (map name (shown_models fm next)) (set_models next s) in
  let s2 := set_toggles
              (fold_left (fun acc m => prop_set (name m) (buildOptionalFieldToggles m) acc) next []) s1 in
  let previous := selectedModelName s2 in
  setSelectedModelName
    (if nonempty previous && has_model previous next then previous
     else head_name (shown_models fm next)) s2.

(** ** Derived values *)

Definition visibleModels (p : props) (s : state) : list model :=
  match filterMode p with
  | FilterUnset =>
    List.filter (fun m => bool_decide (name m ∈ initialVisibleModelNames s)) (models s)
  | FilterAll => models s
  end.

Definition filteredModels (p : props) (s : state) : list model :=
  List.filter
    (fun m =>
       let keyword := toLowerCase (trim (searchText s)) in
       let keywordMatch := if nonempty keyword then includes keyword (toLowerCase (name m)) else true in
       let conflictMatch := if conflictOnly s then hasConflict m else true in
       keywordMatch && conflictMatch)
    (visibleModels p s).

(** [l.slice(a, b)] *)
Definition slice {A} (a b : Z) (l : list A) : list A :=
  let n := Z.of_nat (length l) in
  let rel x := if x <? 0 then Z.max (n + x) 0 else Z.min x n in
  take (Z.to_nat (rel b - rel a)) (drop (Z.to_nat (rel a)) l).

Definition pagedData (p : props) (s : state) : list model :=
  let start := (currentPage s - 1) * PAGE_SIZE in
  slice start (start + PAGE_SIZE) (filteredModels p s).

Definition selectedModel (p : props) (s : state) : option model :=
  List.find (fun m => name m =s? selectedModelName s) (visibleModels p s).

(** ** Effects on the visible models *)

Definition prune_selection (vis : list model) (s : state) : state :=
  setSelectedModelNames (List.filter (fun n => has_model n vis) (selectedModelNames s)) s.

(** [sel] is the selection the effect's closure saw. *)
Definition fix_selection (vis : list model) (sel : jsstr) (s : state) : state :=
  match vis with
  | [] => setSelectedModelName [] s
  | m :: _ => if has_model sel vis then s else setSelectedModelName (name m) s
  end.

Definition visible_effects (p : props) (s : state) : state :=
  fix_selection (visibleModels p s) (selectedModelName s)
    (prune_selection (visibleModels p s) s).

(** The props change: first the render with the old models (where the effects on
    the visible models run if [refiltered], the filter mode changed), then the one
    with the new models.  [moved]: the filter mode or the candidates changed. *)
Definition reload (moved refiltered : bool) (p : props) (s : state) : outcome state :=
  match nextModels p with
  | Throw => Throw
  | Ret next =>
    let s1 := load_effect (filterMode p) next s in
    let s2 := if moved then setCurrentPage 1 s1 else s1 in
    let old := visibleModels p s in
    let s3 := if refiltered then fix_selection old (selectedModelName s) (prune_selection old s2)
              else s2 in
    Ret (visible_effects p s3)
  end.

(** The first render runs every effect. *)
Definition mount (p : props) : outcome state := reload true true p init_state.

Definition change_props (p p' : props) (s : state) : outcome state :=
  let refiltered := negb (bool_decide (filterMode p = filterMode p')) in
  reload (refiltered || negb (bool_decide (candidateModelNames p = candidateModelNames p')))
    refiltered p' s.

(** ** Handlers *)

Definition upsertModel (nm : jsstr) (updater : model -> model) (s : state) : state :=
  set_models (map (fun m => if name m =s? nm then updater m else m) (models s)) s.

Definition set_field (f : field) (v : jsstr) (m : model) : model :=
  let pick g x := if bool_decide (f = g) then v else x in
  Model (name m) (billingMode m) (pick FFixed (fixedPrice m)) (pick FInput (inputPrice m))
    (pick FCompletion (completionPrice m)) (lockedCompletionRatio m) (completionRatioLocked m)
    (pick FCache (cachePrice m)) (pick FCreateCache (createCachePrice m)) (pick FImage (imagePrice m))
    (pick FAudioInput (audioInputPrice m)) (pick FAudioOutput (audioOutputPrice m))
    (billingExpr m) (requestRuleExpr m) (rawRatios m) (hasConflict m).

Definition set_billing (b : billing_mode) (expr rules : jsstr) (m : model) : model :=
  Model (name m) b (fixedPrice m) (inputPrice m) (completionPrice m) (lockedCompletionRatio m)
    (completionRatioLocked m) (cachePrice m) (createCachePrice m) (imagePrice m) (audioInputPrice m)
    (audioOutputPrice m) expr rules (rawRatios m) (hasConflict m).

Definition isOptionalFieldEnabled (s : state) (om : option model) (f : field) : option bool :=
  match om with
  | None => Some false
  | Some m =>
    match prop (name m) (optionalFieldToggles s) ≫= prop (field_name f) with
    | Some b => Some b
    | None => prop (field_name f) (buildOptionalFieldToggles m)
    end
  end.

Definition updateOptionalFieldToggle (nm : jsstr) (f : field) (checked : bool) (s : state) : state :=
  let prev := optionalFieldToggles s in
  set_toggles (prop_set nm (prop_set (field_name f) checked (default [] (prop nm prev))) prev) s.

Definition handleOptionalFieldToggle (p : props) (f : field) (checked : bool) (s : state) : state :=
  match selectedModel p s with
  | None => s
  | Some sel =>
    let s1 := updateOptionalFieldToggle (name sel) f checked s in
    if checked then s1
    else
      let s2 := upsertModel (name sel)
                  (fun m => let next := set_field f [] m in
                            if bool_decide (f = FAudioInput) then set_field FAudioOutput [] next else next)
                  s1 in
      if bool_decide (f = FAudioInput) && has_model (name sel) (models s1)
      then updateOptionalFieldToggle (name sel) FAudioOutput false
             (updateOptionalFieldToggle (name sel) FAudioInput false s2)
      else s2
  end.

(** A price that is filled in from the base price when it is empty and its ratio
    is known. *)
Definition fill (base : num) (price r : jsstr) : jsstr :=
  if negb (has price) && has r then fmt (nmul base (Number_str r)) else price.

Definition fillDerivedPricesFromBase (m : model) (nextInputPrice : jsstr) : model :=
  match num_of nextInputPrice with
  | None => m
  | Some base =>
    let raw := rawRatios m in
    Model (name m) (billingMode m) (fixedPrice m) (inputPrice m)
      (if completionRatioLocked m && has (lockedCompletionRatio m)
       then fmt (nmul base (Number_str (lockedCompletionRatio m)))
       else fill base (completionPrice m) (completionRatio raw))
      (lockedCompletionRatio m) (completionRatioLocked m)
      (fill base (cachePrice m) (cacheRatio raw))
      (fill base (createCachePrice m) (createCacheRatio raw))
      (fill base (imagePrice m) (imageRatio raw))
      (fill base (audioInputPrice m) (audioRatio raw))
      (if negb (has (audioOutputPrice m)) && has (audioRatio raw) && has (audioCompletionRatio raw)
       then fmt (nmul (nmul base (Number_str (audioRatio raw))) (Number_str (audioCompletionRatio raw)))
       else audioOutputPrice m)
      (billingExpr m) (requestRuleExpr m) raw (hasConflict m)
  end.

Definition handleNumericFieldChange (p : props) (f : field) (v : jsstr) (s : state) : state :=
  match selectedModel p s with
  | None => s
  | Some sel =>
    if test NUMERIC_INPUT_REGEX v then
      upsertModel (name sel)
        (fun m => let updated := set_field f v m in
                  if bool_decide (f = FInput) then fillDerivedPricesFromBase updated v else updated) s
    else s
  end.

Definition default_expr : jsstr := $"tier(" ++ dq ++ $"base" ++ dq ++ $", p * 0 + c * 0)".

Definition handleBillingModeChange (p : props) (b : billing_mode) (s : state) : state :=
  match selectedModel p s with
  | None => s
  | Some sel =>
    upsertModel (name sel)
      (fun m => set_billing b
                  (if bool_decide (b = TieredExpr) && negb (nonempty (billingExpr m))
                   then default_expr else billingExpr m)
                  (requestRuleExpr m) m) s
  end.

Definition handleBillingExprChange (p : props) (e : jsstr) (s : state) : state :=
  match selectedModel p s with
  | None => s
  | Some sel => upsertModel (name sel) (fun m => set_billing (billingMode m) e (requestRuleExpr m) m) s
  end.

Definition handleRequestRuleExprChange (p : props) (e : jsstr) (s : state) : state :=
  match selectedModel p s with
  | None => s
  | Some sel => upsertModel (name sel) (fun m => set_billing (billingMode m) (billingExpr m) e m) s
  end.

(** The answer of the handler and, on a refusal, which message is shown. *)
Inductive refusal := NameRequired | NameExists | NoTemplate | NoTargets.

Definition empty_model (nm : jsstr) : model :=
  Model nm PerToken [] [] [] [] false [] [] [] [] [] [] [] EMPTY_RATIOS false.

Definition addModel (modelName : jsstr) (s : state) : (refusal + unit) * state :=
  let trimmedName := trim modelName in
  if negb (nonempty trimmedName) then (inl NameRequired, s)
  else if has_model trimmedName (models s) then (inl NameExists, s)
  else
    let next := empty_model trimmedName in
    (inr tt,
     setCurrentPage 1
       (setSelectedModelName trimmedName
          (set_toggles (prop_set trimmedName (buildOptionalFieldToggles next) (optionalFieldToggles s))
             (set_models (next :: models s) s)))).

Definition deleteModel (nm : jsstr) (s : state) : state :=
  let next := List.filter (fun m => negb (name m =s? nm)) (models s) in
  let s1 := setSelectedModelNames (List.filter (fun n => negb (n =s? nm)) (selectedModelNames s))
              (set_toggles (prop_delete nm (optionalFieldToggles s)) (set_models next s)) in
  if selectedModelName s =s? nm then setSelectedModelName (head_name next) s1 else s1.

(** [Boolean(sourceToggles[f])] *)
Definition toggle_on (tg : toggles) (f : field) : bool := default false (prop (field_name f) tg).

Definition copy_pricing (sel m : model) : model :=
  let next :=
    Model (name m) (billingMode sel) (fixedPrice sel) (inputPrice sel) (completionPrice sel)
      (lockedCompletionRatio m) (completionRatioLocked m) (cachePrice sel) (createCachePrice sel)
      (imagePrice sel) (audioInputPrice sel) (audioOutputPrice sel) (billingExpr sel)
      (requestRuleExpr sel) (rawRatios m) (hasConflict m) in
  if bool_decide (billingMode next = PerToken) && completionRatioLocked next
     && has (inputPrice next) && has (lockedCompletionRatio next)
  then set_field FCompletion
         (fmt (nmul (Number_str (inputPrice next)) (Number_str (lockedCompletionRatio next)))) next
  else next.

Definition copied_toggles (src : toggles) (target : option model) : toggles :=
  [(field_name FCompletion,
    match target with Some m => completionRatioLocked m || toggle_on src FCompletion
                    | None => toggle_on src FCompletion end);
   (field_name FCache, toggle_on src FCache);
   (field_name FCreateCache, toggle_on src FCreateCache);
   (field_name FImage, toggle_on src FImage);
   (field_name FAudioInput, toggle_on src FAudioInput);
   (field_name FAudioOutput, toggle_on src FAudioInput && toggle_on src FAudioOutput)].

Definition applySelectedModelPricing (p : props) (s : state) : (refusal + unit) * state :=
  match selectedModel p s with
  | None => (inl NoTemplate, s)
  | Some sel =>
    match selectedModelNames s with
    | [] => (inl NoTargets, s)
    | targets =>
      let src := default [] (prop (name sel) (optionalFieldToggles s)) in
      let s1 := set_models
                  (map (fun m => if bool_decide (name m ∈ targets) then copy_pricing sel m else m)
                     (models s)) s in
      (inr tt,
       set_toggles
         (fold_left
            (fun o nm => prop_set nm (copied_toggles src (List.find (fun m => name m =s? nm) (models s))) o)
            targets (optionalFieldToggles s)) s1)
    end
  end.

(** ** Saving *)

Definition option_keys : list jsstr :=
  [$"ModelPrice"; $"ModelRatio"; $"CompletionRatio"; $"CacheRatio"; $"CreateCacheRatio";
   $"ImageRatio"; $"AudioRatio"; $"AudioCompletionRatio"].

(** [Object.entries(serialized)], the values only (same order as [option_keys]). *)
Definition serialized_values (x : serialized) : list (option num) :=
  [s_ModelPrice x; s_ModelRatio x; s_CompletionRatio x; s_CacheRatio x; s_CreateCacheRatio x;
   s_ImageRatio x; s_AudioRatio x; s_AudioCompletionRatio x].

(** The eight ratio objects and the two of the billing settings. *)
Record output := Output { ratio_out : list object; mode_out : object; expr_out : object }.

Definition empty_output : output := Output (map (fun _ => []) option_keys) [] [].

Definition put_value (nm : jsstr) (o : object) (v : option num) : object :=
  match v with Some n => prop_set nm (VNum n) o | None => o end.

(** One iteration of the loop over the models. *)
Definition collect_model (o : output) (m : model) : serialize_error + output :=
  let final := combineBillingExpr (billingExpr m) (requestRuleExpr m) in
  let o1 := if is_tiered m && nonempty final
            then Output (ratio_out o) (prop_set (name m) (VStr $"tiered_expr") (mode_out o))
                   (prop_set (name m) (VStr final) (expr_out o))
            else o in
  match serializeModel m with
  | inr x =>
    inr (Output (zip_with (put_value (name m)) (ratio_out o1) (serialized_values x))
           (mode_out o1) (expr_out o1))
  | inl e => if is_tiered m then inr o1 else inl e
  end.

Fixpoint collect (o : output) (l : list model) : serialize_error + output :=
  match l with
  | [] => inr o
  | m :: r => match collect_model o m with inl e => inl e | inr o' => collect o' r end
  end.

Definition request := (jsstr * jsstr)%type.

(** [{ key, value: JSON.stringify(value, null, 2) }] *)
Definition option_request (k : jsstr) (o : object) : request :=
  (k, default [] (stringify2 (VObj o))).

Definition requestQueue (o : output) : list request :=
  zip_with option_request option_keys (ratio_out o)
  ++ [option_request $"billing_setting.billing_mode" (mode_out o);
      option_request $"billing_setting.billing_expr" (expr_out o)].

(** A response: [success] and [message] of its data, or a rejected promise. *)
Inductive response := Response (success : bool) (message : jsstr) | Rejected (message : jsstr).

Inductive submit_result :=
| Saved
| SaveError (e : serialize_error)
| SaveFailed (message : jsstr).

(** [Promise.all], then the loop over the results; an empty message is replaced
    by the default text, in the loop and in the handler. *)
Definition first_rejection (l : list response) : option jsstr :=
  match List.find (fun r => match r with Rejected _ => true | _ => false end) l with
  | Some (Rejected m) => Some m
  | _ => None
  end.

Definition first_failure (l : list response) : option jsstr :=
  match List.find (fun r => match r with Response false _ => true | _ => false end) l with
  | Some (Response _ m) => Some m
  | _ => None
  end.

Definition DEFAULT_FAILURE : jsstr := $"保存失败，请重试".

(** The whole handler: the requests sent, the answer shown, the final state. *)
Definition handleSubmit (t : jsstr -> jsstr) (put : request -> response) (refresh : option jsstr)
    (s : state) : list request * submit_result * state :=
  let failed m := SaveFailed (if nonempty m then m else t DEFAULT_FAILURE) in
  match collect empty_output (models s) with
  | inl e => ([], SaveError e, setLoading false s)
  | inr o =>
    let queue := requestQueue o in
    let results := map put queue in
    let answer :=
      match first_rejection results with
      | Some m => failed m
      | None =>
        match first_failure results with
        | Some m => failed m
        | None => match refresh with Some m => failed m | None => Saved end
        end
      end in
    (queue, answer, setLoading false s)
  end.

(** ** The editor as a transition system *)

Inductive event :=
| ESearch (x : jsstr)
| EConflictOnly (b : bool)
| EPage (n : Z)
| ESelect (n : jsstr)
| ESelectMany (l : list jsstr)
| EToggle (f : field) (b : bool)
| ENumeric (f : field) (v : jsstr)
| EBillingMode (b : billing_mode)
| EBillingExpr (e : jsstr)
| ERequestRules (e : jsstr)
| EAdd (n : jsstr)
| EDelete (n : jsstr)
| EApply
| ESubmit.

Definition handle (p : props) (e : event) (s : state) : state :=
  match e with
  | ESearch x => setSearchText x s
  | EConflictOnly b => setConflictOnly b s
  | EPage n => setCurrentPage n s
  | ESelect n => setSelectedModelName n s
  | ESelectMany l => setSelectedModelNames l s
  | EToggle f b => handleOptionalFieldToggle p f b s
  | ENumeric f v => handleNumericFieldChange p f v s
  | EBillingMode b => handleBillingModeChange p b s
  | EBillingExpr x => handleBillingExprChange p x s
  | ERequestRules x => handleRequestRuleExprChange p x s
  | EAdd n => (addModel n s).2
  | EDelete n => deleteModel n s
  | EApply => (applySelectedModelPricing p s).2
  | ESubmit => setLoading false s
  end.

(** Whether the handler gave [models] a new array. *)
Definition sets_models (p : props) (e : event) (s : state) : bool :=
  match e with
  | EToggle _ b => is_some (selectedModel p s) && negb b
  | ENumeric _ v => is_some (selectedModel p s) && test NUMERIC_INPUT_REGEX v
  | EBillingMode _ | EBillingExpr _ | ERequestRules _ => is_some (selectedModel p s)
  | EAdd n => match (addModel n s).1 with inr _ => true | inl _ => false end
  | EDelete _ => true
  | EApply => match (applySelectedModelPricing p s).1 with inr _ => true | inl _ => false end
  | _ => false
  end.

(** The effects after the handler's render: the page is reset when the search text
    or the conflict filter changed, the selections follow the visible models. *)
Definition commit (p : props) (e : event) (s s' : state) : state :=
  let s1 := if negb (bool_decide (searchText s = searchText s'))
               || negb (eqb (conflictOnly s) (conflictOnly s'))
            then setCurrentPage 1 s' else s' in
  let vis := visibleModels p s1 in
  let s2 := if sets_models p e s then prune_selection vis s1 else s1 in
  if sets_models p e s || negb (bool_decide (selectedModelName s = selectedModelName s'))
  then fix_selection vis (selectedModelName s1) s2 else s2.

Definition dispatch (p : props) (e : event) (s : state) : state := commit p e s (handle p e s).

(** A state with the props it was computed for: the first render, a props change,
    or an event. *)
Inductive reach : props -> state -> Prop :=
| reach_mount p s : mount p = Ret s -> reach p s
| reach_props p p' s s' : reach p s -> change_props p p' s = Ret s' -> reach p' s'
| reach_event p s e : reach p s -> reach p (dispatch p e s).

(** * Theorems *)

(** ** Names *)

Definition names (s : state) : list jsstr := map name (models s).

Lemma buildModelState_name n maps m : buildModelState n maps = Ret m -> name m = n.
Proof.
  unfold buildModelState. destruct (eq_str _ _); [|by intros [= <-]].
  destruct (split_value _) as [[? ?]|]; [by intros [= <-]|done].
Qed.

Lemma map_outcome_names maps l ms :
  map_outcome (fun n => buildModelState n maps) l = Ret ms -> map name ms = l.
Proof.
  revert ms; induction l as [|n l IH]; intros ms; cbn [map_outcome]; [by intros [= <-]|].
  destruct (buildModelState n maps) as [m|] eqn:E; [|done].
  destruct (map_outcome _ l) as [ms'|]; [|done]. intros [= <-]. cbn.
  by rewrite (buildModelState_name _ _ _ E), IH.
Qed.

Lemma nextModels_names p ms :
  nextModels p = Ret ms -> map name ms ≡ₚ all_names p /\ NoDup (map name ms).
Proof.
  unfold nextModels. destruct (map_outcome _ _) as [l|] eqn:E; [|done]. intros [= <-].
  apply map_outcome_names in E.
  assert (map name (sort_by (fun a b => localeCompare (name a) (name b)) l) ≡ₚ all_names p) as Hp.
  { rewrite <- E. apply Permutation_map, sort_by_perm. }
  split; [done|]. rewrite Hp. apply NoDup_uniq.
Qed.

Lemma set_field_name f v m : name (set_field f v m) = name m.
Proof. done. Qed.

Lemma fill_name m v : name (fillDerivedPricesFromBase m v) = name m.
Proof. unfold fillDerivedPricesFromBase. by destruct (num_of v). Qed.

Lemma copy_name sel m : name (copy_pricing sel m) = name m.
Proof. unfold copy_pricing. by case_match. Qed.

(** Updaters that keep the name keep the list of names. *)
Lemma map_names (f : model -> model) l :
  (forall m, name (f m) = name m) -> map name (map f l) = map name l.
Proof. intros H. rewrite map_map. by apply map_ext. Qed.

Lemma upsert_names nm f s : (forall m, name (f m) = name m) -> names (upsertModel nm f s) = names s.
Proof. intros H. apply map_names. intros m. by destruct (_ =s? _). Qed.

Lemma has_model_spec n l : has_model n l = true <-> n ∈ map name l.
Proof.
  unfold has_model. rewrite existsb_exists, list_elem_of_In, in_map_iff.
  setoid_rewrite str_eqb_eq. clear localeCompare. naive_solver.
Qed.

(** The handlers that edit a model in place. *)
Definition edits (e : event) : bool :=
  match e with
  | EToggle _ _ | ENumeric _ _ | EBillingMode _ | EBillingExpr _ | ERequestRules _ => true
  | _ => false
  end.

Lemma toggle_names p f b s : names (handleOptionalFieldToggle p f b s) = names s.
Proof.
  unfold handleOptionalFieldToggle. destruct (selectedModel p s) as [sel|]; [|done]. destruct b; [done|].
  destruct (_ && _)%bool; (etransitivity; [apply (upsert_names (name sel))|]); try done;
    intros m; by destruct (bool_decide _).
Qed.

Lemma handle_edit_names p e s : edits e = true -> names (handle p e s) = names s.
Proof.
  destruct e; try done; intros _; cbn [handle]; [apply toggle_names|..];
    unfold handleNumericFieldChange, handleBillingModeChange, handleBillingExprChange,
      handleRequestRuleExprChange; destruct (selectedModel p s); try done;
    repeat case_match; try done; apply upsert_names; intros x; repeat case_match; try done; (etransitivity; [apply fill_name|done]).
Qed.

Lemma apply_names p s : names (applySelectedModelPricing p s).2 = names s.
Proof.
  unfold applySelectedModelPricing. destruct (selectedModel p s); [|done].
  destruct (selectedModelNames s); [done|]. apply map_names. intros x.
  destruct (bool_decide _); [apply copy_name|done].
Qed.

Lemma visible_effects_models p s : models (visible_effects p s) = models s.
Proof. unfold visible_effects, fix_selection. destruct (visibleModels p s); [done|]. by case_match. Qed.

Lemma fix_selection_models vis sel s : models (fix_selection vis sel s) = models s.
Proof. unfold fix_selection. destruct vis; [done|]. by case_match. Qed.

Lemma commit_models p e s s' : models (commit p e s s') = models s'.
Proof.
  unfold commit. repeat case_match; rewrite ?fix_selection_models; done.
Qed.

Lemma reload_models mv rf p s s' :
  reload mv rf p s = Ret s' -> exists next, nextModels p = Ret next /\ models s' = next.
Proof.
  unfold reload. destruct (nextModels p) as [next|]; [|done]. intros [= <-]. exists next. split; [done|].
  rewrite visible_effects_models. destruct rf; rewrite ?fix_selection_models; by destruct mv.
Qed.

Lemma handle_NoDup p e s : NoDup (names s) -> NoDup (names (handle p e s)).
Proof.
  intros H. destruct (edits e) eqn:He; [by rewrite handle_edit_names|].
  destruct e; try done; cbn [handle].
  - unfold addModel. destruct (nonempty _) eqn:Hn; cbn [negb snd]; [|done].
    destruct (has_model _ _) eqn:Hm; [done|]. cbn. apply NoDup_cons. split; [|done].
    intros Hin%has_model_spec. unfold names in Hin. congruence.
  - unfold deleteModel. assert (NoDup (map name (List.filter (fun m => negb (name m =s? n)) (models s)))).
    { unfold names in H. induction (models s) as [|m l IH]; cbn in *; [constructor|].
      apply NoDup_cons in H as [Hm Hl]. destruct (name m =s? n); cbn; [by apply IH|].
      constructor; [|by apply IH]. rewrite list_elem_of_In, in_map_iff.
      intros (x & Hx & Hin%filter_In). apply Hm. rewrite list_elem_of_In, <- Hx. apply in_map, Hin. }
    by destruct (_ =s? _).
  - by rewrite apply_names.
Qed.

(** C6: no sequence of option loads and user actions ever gives two models of the
    editor the same name. *)
Theorem reach_names_unique p s : reach p s -> NoDup (names s).
Proof.
  induction 1 as [p s (next & Hn & Hm)%reload_models|p p' s s' _ _ (next & Hn & Hm)%reload_models|p s e _ IH].
  - unfold names. rewrite Hm. by apply nextModels_names in Hn as [_ ?].
  - unfold names. rewrite Hm. by apply nextModels_names in Hn as [_ ?].
  - unfold names, dispatch. rewrite commit_models. by apply handle_NoDup.
Qed.

(** ** The selection *)

Definition selection_ok (p : props) (s : state) : Prop :=
  match visibleModels p s with
  | [] => selectedModelName s = []
  | _ => has_model (selectedModelName s) (visibleModels p s) = true
  end.

Definition same_view (s s' : state) : Prop :=
  models s' = models s /\ initialVisibleModelNames s' = initialVisibleModelNames s.

Lemma same_view_visible p s s' : same_view s s' -> visibleModels p s' = visibleModels p s.
Proof. intros [Hm Hi]. unfold visibleModels. by rewrite Hm, Hi. Qed.

Lemma fix_selection_view vis sel s : same_view s (fix_selection vis sel s).
Proof. unfold fix_selection. destruct vis; [done|]. by case_match. Qed.

(** The last effect establishes the invariant. *)
Lemma fix_selection_ok p s s' :
  same_view s s' -> selectedModelName s' = selectedModelName s ->
  selection_ok p (fix_selection (visibleModels p s) (selectedModelName s) s').
Proof.
  intros Hv Hs. unfold selection_ok.
  rewrite (same_view_visible p s' _ (fix_selection_view _ _ _)), (same_view_visible p s s' Hv).
  unfold fix_selection. destruct (visibleModels p s) as [|m l] eqn:E; [done|].
  destruct (has_model (selectedModelName s) (m :: l)) eqn:Hh; [by rewrite Hs|].
  cbn. by rewrite str_eqb_refl.
Qed.

Lemma handle_view p e s : initialVisibleModelNames (handle p e s) = initialVisibleModelNames s.
Proof.
  destruct e; try done; cbn [handle];
    unfold handleOptionalFieldToggle, handleNumericFieldChange, handleBillingModeChange,
      handleBillingExprChange, handleRequestRuleExprChange, addModel, deleteModel,
      applySelectedModelPricing; repeat case_match; done.
Qed.

Lemma handle_unset p e s : sets_models p e s = false -> models (handle p e s) = models s.
Proof.
  destruct e; try done; cbn [handle sets_models];
    unfold handleOptionalFieldToggle, handleNumericFieldChange, handleBillingModeChange,
      handleBillingExprChange, handleRequestRuleExprChange.
  1-5: destruct (selectedModel p s); try done; cbn; repeat case_match; done.
  - unfold addModel. repeat case_match; simplify_eq/=; done.
  - unfold applySelectedModelPricing. repeat case_match; simplify_eq/=; done.
Qed.

Lemma dispatch_selection p e s : selection_ok p s -> selection_ok p (dispatch p e s).
Proof.
  intros IH. unfold dispatch, commit. set (s1 := if (_ || negb (eqb _ _))%bool then setCurrentPage 1 _ else _).
  assert (Hs1 : same_view (handle p e s) s1 /\ selectedModelName s1 = selectedModelName (handle p e s))
    by (subst s1; by case_match).
  destruct Hs1 as [Hv1 Hn1].
  destruct (sets_models p e s || _)%bool eqn:E.
  - apply fix_selection_ok; by case_match.
  - apply orb_false_iff in E as [Es En]. rewrite Es. apply negb_false_iff, bool_decide_eq_true in En.
    assert (Hv : same_view s s1).
    { split; [rewrite (proj1 Hv1)|rewrite (proj2 Hv1)]; auto using handle_unset, handle_view. }
    unfold selection_ok in *. by rewrite (same_view_visible p s s1 Hv), Hn1, <- En.
Qed.

Lemma reach_selection_ok p s : reach p s -> selection_ok p s.
Proof.
  induction 1 as [p s Hr|p p' s s' _ _ Hr|p s e _ IH]; [| |by apply dispatch_selection].
  all: unfold mount, change_props, reload in Hr; destruct (nextModels _) as [next|]; [|done]; injection Hr as <-;
    apply fix_selection_ok; done.
Qed.

Lemma selectedModel_name p s m : selectedModel p s = Some m -> name m = selectedModelName s /\ m ∈ visibleModels p s.
Proof.
  unfold selectedModel. intros [Hin Hn]%List.find_some. apply str_eqb_eq in Hn. by rewrite list_elem_of_In.
Qed.

(** In every reachable state a model is selected whenever one is visible; with
    nothing visible the selection is empty. *)
Theorem reach_selection p s :
  reach p s ->
  match visibleModels p s with
  | [] => selectedModelName s = [] /\ selectedModel p s = None
  | _ => exists m, selectedModel p s = Some m /\ name m = selectedModelName s
  end.
Proof.
  intros H%reach_selection_ok. unfold selection_ok, selectedModel in *.
  destruct (visibleModels p s) as [|m l] eqn:E; [done|].
  destruct (List.find _ _) as [x|] eqn:Ef.
  - exists x. split; [done|]. apply List.find_some in Ef as [_ Hx]. by apply str_eqb_eq in Hx.
  - apply existsb_exists in H as (x & Hin & Hx). pose proof (List.find_none _ _ Ef x Hin). congruence.
Qed.

End Editor.

(** ** What an edit touches *)

(** [m'] is [m], changed at most if it is called [nm]. *)
Definition edited (nm : jsstr) (m m' : model) : Prop := name m' = name m /\ (name m <> nm -> m' = m).

Lemma edited_refl nm l : Forall2 (edited nm) l l.
Proof. induction l; by constructor. Qed.

Lemma upsert_edited nm f s :
  (forall m, name (f m) = name m) -> Forall2 (edited nm) (models s) (models (upsertModel nm f s)).
Proof.
  intros Hf. cbn. induction (models s) as [|m l IH]; cbn; constructor; [|done].
  destruct (str_eqb_spec (name m) nm); split; naive_solver.
Qed.

(** Editing (a price, a toggle, the billing mode, an expression) changes no
    model but the selected one, and keeps the number, the order and the names of
    the models. *)
Theorem edit_frame p e s :
  edits e = true ->
  Forall2 (edited (selectedModelName s)) (models s) (models (dispatch p e s)).
Proof.
  intros He. unfold dispatch. rewrite commit_models. destruct e; try done; cbn [handle];
    unfold handleOptionalFieldToggle, handleNumericFieldChange, handleBillingModeChange,
      handleBillingExprChange, handleRequestRuleExprChange;
    destruct (selectedModel p s) as [sel|] eqn:Es; try apply edited_refl;
    apply selectedModel_name in Es as [<- _].
  - destruct b; [apply edited_refl|]. destruct (_ && _)%bool;
      apply (upsert_edited (name sel) _ (updateOptionalFieldToggle (name sel) f false s)); intros m; by case_match.
  - destruct (test _ _); [|apply edited_refl]. apply upsert_edited. intros m. case_match; [|done].
    etransitivity; [apply fill_name|done].
  - by apply upsert_edited.
  - by apply upsert_edited.
  - by apply upsert_edited.
Qed.

Lemma toggle_update_lookup nm f b s n g :
  prop n (optionalFieldToggles (updateOptionalFieldToggle nm f b s)) ≫= prop (field_name g)
  = if (n =s? nm) && (field_name g =s? field_name f) then Some b
    else prop n (optionalFieldToggles s) ≫= prop (field_name g).
Proof.
  cbn. rewrite prop_set_lookup. destruct (str_eqb_spec n nm) as [->|]; [|done]. cbn.
  rewrite prop_set_lookup. destruct (_ =s? _); [done|]. by destruct (prop nm _).
Qed.

(** Switching the audio input price off empties the audio input and output
    prices of the selected model and switches both fields off. *)
Theorem audio_toggle_clears p s sel :
  selectedModel p s = Some sel ->
  let s' := handleOptionalFieldToggle p FAudioInput false s in
  (forall m, m ∈ models s' -> name m = name sel -> audioInputPrice m = [] /\ audioOutputPrice m = [])
  /\ (forall m f, name m = name sel -> f = FAudioInput \/ f = FAudioOutput ->
                  isOptionalFieldEnabled s' (Some m) f = Some false).
Proof.
  intros Hs. pose proof (selectedModel_name p s sel Hs) as [_ Hin]. cbn zeta.
  unfold handleOptionalFieldToggle. rewrite Hs. rewrite bool_decide_eq_true_2 by done.
  assert (has_model (name sel) (models (updateOptionalFieldToggle (name sel) FAudioInput false s)) = true) as ->.
  { apply has_model_spec. cbn. apply list_elem_of_In, in_map. apply list_elem_of_In.
    unfold visibleModels in Hin. destruct (filterMode p); [done|]. by apply elem_of_lfilter in Hin as [? _]. }
  cbn [andb]. split.
  - intros m Hm Hn. cbn in Hm. rewrite list_elem_of_In, in_map_iff in Hm. destruct Hm as (x & <- & _).
    destruct (str_eqb_spec (name x) (name sel)); done.
  - intros m f Hn Hf. unfold isOptionalFieldEnabled. rewrite !toggle_update_lookup, Hn, str_eqb_refl.
    by destruct Hf as [->| ->].
Qed.

(** A deleted model leaves nothing behind: it is in neither the models, the
    toggles nor the checked names; all other models stay, in order. *)
Theorem delete_forgets n s :
  let s' := deleteModel n s in
  (n ∉ names s') /\ prop n (optionalFieldToggles s') = None /\ (n ∉ selectedModelNames s')
  /\ models s' = List.filter (fun m => negb (name m =s? n)) (models s)
  /\ (forall k, k <> n -> prop k (optionalFieldToggles s') = prop k (optionalFieldToggles s)).
Proof.
  cbn zeta. assert (Hx : forall x : state,
    x = deleteModel n s ->
    models x = List.filter (fun m => negb (name m =s? n)) (models s)
    /\ optionalFieldToggles x = prop_delete n (optionalFieldToggles s)
    /\ selectedModelNames x = List.filter (fun k => negb (k =s? n)) (selectedModelNames s)).
  { intros x ->. unfold deleteModel. by case_match. }
  destruct (Hx _ eq_refl) as (Hm & Ht & Hs). unfold names. rewrite Hm, Ht, Hs. split; [|split; [|split; [|split]]].
  - rewrite list_elem_of_In, in_map_iff. intros (m & Hn & Hin%filter_In). destruct Hin as [_ Hin].
    by rewrite Hn, str_eqb_refl in Hin.
  - by rewrite prop_delete_lookup, str_eqb_refl.
  - rewrite elem_of_lfilter. intros [_ H]. by rewrite str_eqb_refl in H.
  - done.
  - intros k Hk. rewrite prop_delete_lookup. by destruct (str_eqb_spec k n).
Qed.

(** ** Copying a pricing *)

Lemma copied_toggles_lookup src l n ts o :
  prop n (fold_left (fun o nm => prop_set nm (copied_toggles src
            (List.find (fun m => name m =s? nm) l)) o) ts o)
  = if bool_decide (n ∈ ts) then Some (copied_toggles src (List.find (fun m => name m =s? n) l))
    else prop n o.
Proof.
  revert o; induction ts as [|k ts IH]; intros o; cbn [fold_left]; [done|]. rewrite IH.
  destruct (decide (n ∈ ts)).
  - by rewrite !bool_decide_eq_true_2 by (try done; by right).
  - rewrite (bool_decide_eq_false_2 (n ∈ ts)) by done. rewrite prop_set_lookup.
    destruct (str_eqb_spec n k) as [->|].
    + by rewrite bool_decide_eq_true_2 by left.
    + rewrite bool_decide_eq_false_2; [done|]. set_solver.
Qed.

(** After a bulk application every checked model carries the template's
    pricing, no other model changes, no name does, and a checked model whose audio
    output price is shown also shows its audio input price. *)
Theorem apply_updates_targets p s sel s' :
  selectedModel p s = Some sel -> applySelectedModelPricing p s = (inr tt, s') ->
  selectedModelNames s <> []
  /\ models s' = map (fun m => if bool_decide (name m ∈ selectedModelNames s)
                               then copy_pricing sel m else m) (models s)
  /\ names s' = names s
  /\ (forall n, n ∈ selectedModelNames s ->
        prop n (optionalFieldToggles s') ≫= prop (field_name FAudioOutput) = Some true ->
        prop n (optionalFieldToggles s') ≫= prop (field_name FAudioInput) = Some true).
Proof.
  intros Hsel Ha. pose proof (apply_names p s) as Hn. rewrite Ha in Hn. cbn [snd] in Hn.
  unfold applySelectedModelPricing in Ha. rewrite Hsel in Ha.
  destruct (selectedModelNames s) as [|n1 l] eqn:El; [done|].
  apply (f_equal snd) in Ha. cbn [snd] in Ha. subst s'.
  split; [done|]. split; [done|]. split; [done|]. intros n Hin. cbn [optionalFieldToggles set_toggles].
  rewrite copied_toggles_lookup, bool_decide_eq_true_2 by done. cbn [mbind option_bind].
  set (src := default [] _).
  change (Some (toggle_on src FAudioInput && toggle_on src FAudioOutput) = Some true ->
          Some (toggle_on src FAudioInput) = Some true). by destruct (toggle_on src FAudioInput).
Qed.

(** When template and target have no locked completion ratio and the template
    is saved successfully with an input price or a price per request, the target
    is saved with the same values. *)
Theorem copied_pricing_saves_alike sel m x :
  completionRatioLocked sel = false -> completionRatioLocked m = false ->
  billingMode sel = PerRequest \/ is_some (num_of (inputPrice sel)) = true ->
  serializeModel sel = inr x -> serializeModel (copy_pricing sel m) = inr x.
Proof.
  intros Hl Hlm Hin Hs. unfold copy_pricing. cbn [completionRatioLocked]. rewrite Hlm, andb_false_r. cbn [andb].
  unfold serializeModel in *.
  cbn [billingMode fixedPrice inputPrice completionPrice cachePrice createCachePrice imagePrice
       audioInputPrice audioOutputPrice completionRatioLocked name rawRatios].
  destruct (bool_decide_reflect (billingMode sel = PerRequest)); [done|].
  destruct Hin as [|Hin]; [done|]. destruct (num_of (inputPrice sel)) as [base|]; [|done].
  rewrite Hl in Hs. repeat case_match; simplify_eq; done.
Qed.

(** ** Instances *)

(** Two models with ratios, one with an expression; names compared by length. *)
Definition sample_options : list (jsstr * jsstr) :=
  let q s := dq ++ s ++ dq in
  [($"ModelRatio", $"{" ++ q $"gpt" ++ $": 1.5, " ++ q $"claude" ++ $": 3}");
   ($"billing_setting.billing_mode", $"{" ++ q $"tiered-model" ++ $": " ++ q $"tiered_expr" ++ $"}")].

Definition sample_props : props := Props sample_options [] FilterAll.

Definition by_length (a b : jsstr) : Z := Z.of_nat (length a) - Z.of_nat (length b).

Definition sample_state : state :=
  match mount by_length sample_props with Ret s => s | Throw => init_state end.

Lemma sample_reach e : reach by_length sample_props (dispatch sample_props e sample_state).
Proof. apply reach_event, reach_mount. by vm_compute. Qed.

Lemma reach_names_unique_witness :
  NoDup (names (dispatch sample_props (EAdd $" new ") sample_state))
  /\ names (dispatch sample_props (EAdd $" new ") sample_state) = [$"new"; $"gpt"; $"claude"; $"tiered-model"].
Proof.
  split; [|by vm_compute].
  apply (reach_names_unique by_length sample_props). apply sample_reach.
Defined.

Lemma reach_selection_witness :
  exists m, selectedModel sample_props (dispatch sample_props (EDelete $"gpt") sample_state) = Some m
            /\ name m = $"claude".
Proof.
  pose proof (reach_selection by_length sample_props _ (sample_reach (EDelete $"gpt"))) as H.
  vm_compute in H. destruct H as (m & Hs & Hn). by exists m.
Defined.

Lemma edit_frame_witness :
  Forall2 (edited $"gpt") (models sample_state) (models (dispatch sample_props (ENumeric FInput $"4") sample_state)).
Proof. apply (edit_frame sample_props (ENumeric FInput $"4") sample_state). done. Defined.

Lemma audio_toggle_clears_witness :
  exists sel, selectedModel sample_props sample_state = Some sel
  /\ forall m, m ∈ models (handleOptionalFieldToggle sample_props FAudioInput false sample_state) ->
       name m = name sel -> audioInputPrice m = [] /\ audioOutputPrice m = [].
Proof.
  destruct (selectedModel sample_props sample_state) as [sel|] eqn:E; [|by vm_compute in E].
  exists sel. split; [done|]. apply (audio_toggle_clears sample_props sample_state sel E).
Defined.

Definition checked_state : state := setSelectedModelNames [$"claude"] sample_state.

Lemma apply_updates_targets_witness :
  exists sel s', selectedModel sample_props checked_state = Some sel
  /\ applySelectedModelPricing sample_props checked_state = (inr tt, s') /\ names s' = names checked_state.
Proof.
  destruct (selectedModel sample_props checked_state) as [sel|] eqn:E; [|by vm_compute in E].
  destruct (applySelectedModelPricing sample_props checked_state) as [[r|[]] s'] eqn:Ea; [by vm_compute in Ea|].
  exists sel, s'. split; [done|]. split; [done|].
  apply (apply_updates_targets sample_props checked_state sel s' E Ea).
Defined.

Definition template : model :=
  Model $"a" PerToken [] $"2" $"8" [] false [] [] [] [] [] [] [] EMPTY_RATIOS false.

Lemma copied_pricing_saves_alike_witness :
  exists x, serializeModel template = inr x /\ serializeModel (copy_pricing template (empty_model $"b")) = inr x.
Proof.
  destruct (serializeModel template) as [e|x] eqn:E; [by vm_compute in E|]. exists x. split; [done|].
  apply (copied_pricing_saves_alike template (empty_model $"b") x); [done|done|right; by vm_compute|exact E].
Defined.

End PricingEditor.
