(* ===== verification/PricingSave.v ===== *)
(** * Saving and reloading prices

    What [handleSubmit] of the pricing editor sends, and what the options it wrote
    give when they are loaded again ([nextModels], [buildModelState]): the
    composition of the editor with the JSON codec and the request-rule parser. *)
From S2P Require Import Prelude JSNum JSValue Json Regex RequestRuleExpr.
From S2P Require Import RequestRuleRoundtrip RequestRuleGroups PricingModel PricingEditor.
#[local] Open Scope Z_scope.

Module PricingSave.
Import RequestRuleExpr RequestRuleRoundtrip RequestRuleGroups PricingModel PricingEditor.

(** ** The collected objects *)

Definition out_wf (o : output) : Prop := length (ratio_out o) = 8%nat.

Definition lookup_all (nm : jsstr) (o : output) : list (option val) := map (prop nm) (ratio_out o).

(** The eight values that a model contributes. *)
Definition contribution (m : model) : list (option num) :=
  match serializeModel m with inr x => serialized_values x | inl _ => serialized_values s_null end.

Definition saved_expr (m : model) : option jsstr :=
  let final := combineBillingExpr (billingExpr m) (requestRuleExpr m) in
  if is_tiered m && nonempty final then Some final else None.

Lemma contribution_length m : length (contribution m) = 8%nat.
Proof. unfold contribution. by destruct (serializeModel m). Qed.

Definition set_opt (nm : jsstr) (v : option val) (o : object) : object :=
  match v with Some x => prop_set nm x o | None => o end.

(** The mode entry that goes with an expression. *)
Definition saved_mode (m : model) : option val := option_map (fun _ => VStr $"tiered_expr") (saved_expr m).

(** What one model adds. *)
Definition add_model (o : output) (m : model) : output :=
  Output (zip_with (put_value (name m)) (ratio_out o) (contribution m))
    (set_opt (name m) (saved_mode m) (mode_out o))
    (set_opt (name m) (option_map VStr (saved_expr m)) (expr_out o)).

Lemma zip_put_none nm (outs : list object) n :
  length outs = n -> zip_with (put_value nm) outs (repeat None n) = outs.
Proof. intros <-. induction outs as [|o outs IH]; [done|]. cbn in *. by rewrite IH. Qed.

Lemma collect_model_eq o m o' : out_wf o -> collect_model o m = inr o' -> o' = add_model o m /\ out_wf o'.
Proof.
  unfold collect_model, add_model, contribution, saved_mode, saved_expr, out_wf. intros Ho Hc.
  destruct (is_tiered m && _)%bool eqn:E; destruct (serializeModel m) as [e|x] eqn:Es;
    try (destruct (is_tiered m); [|done]); injection Hc as <-; cbn [ratio_out mode_out expr_out];
    (split; [|rewrite ?length_zip_with, ?Ho; done]); try done;
    change (serialized_values s_null) with (repeat (@None num) 8);
    rewrite (zip_put_none (name m) (ratio_out o) 8) by done; by destruct o.
Qed.

Definition lookup_ratio (k : jsstr) (o : output) (i : nat) : option val := ratio_out o !! i ≫= prop k.

Lemma add_model_ratio o m k i :
  out_wf o ->
  lookup_ratio k (add_model o m) i
  = if k =s? name m
    then match contribution m !! i with
         | Some (Some n) => Some (VNum n)
         | _ => lookup_ratio k o i
         end
    else lookup_ratio k o i.
Proof.
  unfold lookup_ratio, add_model, out_wf. intros Ho. cbn [ratio_out]. rewrite lookup_zip_with.
  pose proof (contribution_length m) as Hc.
  destruct (ratio_out o !! i) as [oi|] eqn:Ei; cbn [mbind option_bind].
  2:{ apply lookup_ge_None in Ei. rewrite (lookup_ge_None_2 (contribution m) i) by lia. by destruct (_ =s? _). }
  apply lookup_lt_Some in Ei. destruct (lookup_lt_is_Some_2 (contribution m) i) as [v Ev]; [lia|].
  rewrite Ev. cbn. destruct v as [n|]; cbn; [rewrite prop_set_lookup|]; by destruct (k =s? name m).
Qed.

Lemma set_opt_lookup nm v o k :
  prop k (set_opt nm v o) = if k =s? nm then match v with Some x => Some x | None => prop k o end else prop k o.
Proof. destruct v; cbn; [apply prop_set_lookup|]. by destruct (k =s? nm). Qed.

(** The contents of all ten objects under one name. *)
Record view := View { v_ratio : nat -> option val; v_mode : option val; v_expr : option val }.

Lemma collect_out_wf l o o' : out_wf o -> collect o l = inr o' -> out_wf o'.
Proof.
  revert o; induction l as [|m l IH]; intros o Ho; cbn [collect]; [by intros [= <-]|].
  destruct (collect_model o m) as [|o1] eqn:E; [done|]. apply collect_model_eq in E as [_ ?]; eauto.
Qed.

Lemma collect_other l o o' k :
  out_wf o -> collect o l = inr o' -> k ∉ map name l ->
  (forall i, lookup_ratio k o' i = lookup_ratio k o i)
  /\ prop k (mode_out o') = prop k (mode_out o) /\ prop k (expr_out o') = prop k (expr_out o).
Proof.
  revert o; induction l as [|m l IH]; intros o Ho; cbn [collect map]; [by intros [= <-]|].
  destruct (collect_model o m) as [|o1] eqn:E; [done|]. intros Hc [Hk Hkl]%not_elem_of_cons.
  apply collect_model_eq in E as [-> Ho1]; [|done].
  destruct (IH _ Ho1 Hc Hkl) as (H1 & H2 & H3).
  assert (Hne : (k =s? name m) = false) by (by apply str_eqb_neq).
  split; [intros i; rewrite H1, add_model_ratio, Hne by done; done|].
  rewrite H2, H3. cbn [mode_out expr_out add_model]. by rewrite !set_opt_lookup, Hne.
Qed.

Lemma collect_each l o o' m :
  out_wf o -> collect o l = inr o' -> NoDup (map name l) -> m ∈ l ->
  (forall i, lookup_ratio (name m) o' i
             = match contribution m !! i with
               | Some (Some n) => Some (VNum n) | _ => lookup_ratio (name m) o i end)
  /\ prop (name m) (mode_out o')
     = match saved_mode m with Some v => Some v | None => prop (name m) (mode_out o) end
  /\ prop (name m) (expr_out o')
     = match saved_expr m with Some v => Some (VStr v) | None => prop (name m) (expr_out o) end.
Proof.
  revert o; induction l as [|x l IH]; intros o Ho; cbn [collect map]; [by intros _ _ ?%elem_of_nil|].
  destruct (collect_model o x) as [|o1] eqn:E; [done|]. intros Hc [Hx Hl]%NoDup_cons Hin.
  apply collect_model_eq in E as [-> Ho1]; [|done]. apply elem_of_cons in Hin as [->|Hin].
  - destruct (collect_other _ _ _ _ Ho1 Hc Hx) as (H1 & H2 & H3).
    split; [intros i; by rewrite H1, add_model_ratio, str_eqb_refl|].
    rewrite H2, H3. cbn [mode_out expr_out add_model]. rewrite !set_opt_lookup, str_eqb_refl.
    split; [done|]. by destruct (saved_expr x).
  - destruct (IH _ Ho1 Hc Hl Hin) as (H1 & H2 & H3).
    assert (Hne : (name m =s? name x) = false).
    { apply str_eqb_neq. intros E. apply Hx. rewrite <- E, list_elem_of_In. apply in_map.
      by apply list_elem_of_In. }
    split; [intros i; rewrite H1, add_model_ratio, Hne by done; done|].
    rewrite H2, H3. cbn [mode_out expr_out add_model]. by rewrite !set_opt_lookup, Hne.
Qed.

(** A successful collection writes, for models with distinct names, exactly
    what each model serializes to: its numbers under the eight option keys and its
    combined expression with the mode entry, and nothing under other names. *)
Theorem collect_exact l o :
  collect empty_output l = inr o -> NoDup (map name l) ->
  (forall m i, m ∈ l ->
     lookup_ratio (name m) o i = match contribution m !! i with Some (Some n) => Some (VNum n) | _ => None end
     /\ prop (name m) (mode_out o) = saved_mode m
     /\ prop (name m) (expr_out o) = option_map VStr (saved_expr m))
  /\ (forall k i, k ∉ map name l ->
        lookup_ratio k o i = None /\ prop k (mode_out o) = None /\ prop k (expr_out o) = None).
Proof.
  assert (He : out_wf empty_output) by done.
  assert (Hn : forall k i, lookup_ratio k empty_output i = None).
  { intros k i. unfold lookup_ratio. destruct (ratio_out empty_output !! i) as [oi|] eqn:E; [|done].
    apply list_elem_of_lookup_2 in E. cbn in E. rewrite !elem_of_cons, elem_of_nil in E.
    by destruct_or!; subst. }
  intros Hc Hd. split.
  - intros m i Hm. destruct (collect_each l _ o m He Hc Hd Hm) as (H1 & H2 & H3).
    rewrite H1, H2, H3, Hn. split; [done|]. split; [by destruct (saved_mode m)|by destruct (saved_expr m)].
  - intros k i Hk. destruct (collect_other l _ o k He Hc Hk) as (H1 & H2 & H3). by rewrite H1, H2, H3, Hn.
Qed.

(** C5: saving is all or nothing: when some model cannot be serialized (and is not
    an expression model) no request is sent; otherwise the ten options are
    written, in this order, whatever the answers are. *)
Theorem submit_all_or_nothing t put refresh s :
  let '(reqs, answer, s') := handleSubmit t put refresh s in
  (map fst reqs = option_keys ++ [$"billing_setting.billing_mode"; $"billing_setting.billing_expr"]
   \/ reqs = [])
  /\ (reqs = [] <-> exists e, answer = SaveError e)
  /\ ((exists e, answer = SaveError e)
      <-> exists m e, m ∈ models s /\ is_tiered m = false /\ serializeModel m = inl e)
  /\ models s' = models s /\ loading s' = false.
Proof.
  assert (Hfail : forall l o, (exists e, collect o l = inl e)
                   <-> exists m e, m ∈ l /\ is_tiered m = false /\ serializeModel m = inl e).
  { induction l as [|m l IH]; intros o; cbn [collect].
    - split; [by intros [? ?]|]. by intros (m & e & ?%elem_of_nil & _).
    - destruct (collect_model o m) as [e|o1] eqn:E.
      + split; [intros _|by eauto]. unfold collect_model in E. destruct (serializeModel m) eqn:Es; [|done].
        destruct (is_tiered m) eqn:Et; [done|]. exists m, s0. split; [by left|done].
      + rewrite IH. split.
        * intros (x & e & Hx & ?). exists x, e. split; [by right|done].
        * intros (x & e & [->|Hx]%elem_of_cons & Ht & Hs); [|by eauto].
          unfold collect_model in E. by rewrite Hs, Ht in E. }
  unfold handleSubmit. specialize (Hfail (models s) empty_output).
  destruct (collect empty_output (models s)) as [e|o] eqn:E.
  - split; [by right|]. split; [split; [by eauto|done]|]. split; [|done].
    rewrite <- Hfail. split; by eauto.
  - assert (Ho : out_wf o) by (by eapply collect_out_wf; [|exact E]).
    unfold out_wf in Ho. destruct (ratio_out o) as [|? [|? [|? [|? [|? [|? [|? [|? [|]]]]]]]]] eqn:Er; try done.
    assert (Hno : ~ exists e, (match first_rejection (map put (requestQueue o)) with
       | Some m => SaveFailed (if nonempty m then m else t DEFAULT_FAILURE)
       | None => match first_failure (map put (requestQueue o)) with
                 | Some m => SaveFailed (if nonempty m then m else t DEFAULT_FAILURE)
                 | None => match refresh with
                           | Some m => SaveFailed (if nonempty m then m else t DEFAULT_FAILURE)
                           | None => Saved end end end) = SaveError e).
    { intros [e He]. repeat case_match; done. }
    split; [left; unfold requestQueue; by rewrite Er|]. split; [|split; [|done]].
    + split; [|done]. unfold requestQueue. rewrite Er. done.
    + rewrite <- Hfail. split; [done|]. by intros [? ?].
Qed.

(** ** Reading the saved options back *)

(** The texts of a model that are written into options are UTF-16 strings, and
    the numbers are finite and read back from their decimal form. *)
Definition num_ok (n : num) : Prop := isFinite n = true /\ jnum (String_num n) = Some (n, []).

Record savable (m : model) : Prop := {
  sv_name : Forall unit16 (name m);
  sv_expr : Forall unit16 (combineBillingExpr (billingExpr m) (requestRuleExpr m));
  sv_nums : Forall (fun v => match v with Some n => num_ok n | None => True end) (contribution m);
}.

Definition entry_ok (kv : jsstr * val) : Prop := Forall unit16 kv.1 /\ json_wf kv.2.

Definition object_ok (o : object) : Prop := canonical o /\ Forall entry_ok o.

Lemma object_ok_json o : object_ok o -> json_wf (VObj o).
Proof. intros [Hc Hf]. apply json_wf_obj. split; [by apply props_of_canonical|done]. Qed.

Lemma object_ok_set k v o : object_ok o -> Forall unit16 k -> json_wf v -> object_ok (prop_set k v o).
Proof. intros [Hc Hf] Hk Hv. split; [by apply prop_set_canonical|]. by apply prop_set_Forall. Qed.

Lemma add_model_ok o m :
  savable m -> Forall object_ok (ratio_out o ++ [mode_out o; expr_out o]) ->
  Forall object_ok (ratio_out (add_model o m) ++ [mode_out (add_model o m); expr_out (add_model o m)]).
Proof.
  intros [Hn He Hv] [Hr Ht]%Forall_app. inversion_clear Ht as [|? ? Hm Ht']. inversion_clear Ht' as [|? ? Hx _].
  cbn [add_model ratio_out mode_out expr_out]. apply Forall_app. split; [|constructor; [|constructor; [|done]]].
  - revert Hv Hr. generalize (contribution m) as vs, (ratio_out o) as outs. intros vs outs Hv Hr. revert vs Hv.
    induction Hr as [|x outs Hx0 Hr IH]; intros [|v vs] Hv; cbn; try done.
    inversion_clear Hv. constructor; [|by apply IH]. destruct v as [n|]; cbn; [|done].
    by apply object_ok_set.
  - unfold saved_mode, saved_expr. destruct (_ && _)%bool; cbn; [|done]. apply object_ok_set; [done..|].
    change (Forall unit16 $"tiered_expr"). js_lit. repeat (constructor; [unfold unit16; lia|]). done.
  - unfold saved_expr. destruct (_ && _)%bool; cbn; [|done]. by apply object_ok_set.
Qed.

Lemma collect_ok l o o' :
  out_wf o -> collect o l = inr o' -> Forall savable l ->
  Forall object_ok (ratio_out o ++ [mode_out o; expr_out o]) ->
  Forall object_ok (ratio_out o' ++ [mode_out o'; expr_out o']).
Proof.
  revert o; induction l as [|m l IH]; intros o Ho; cbn [collect]; [by intros [= <-]|].
  destruct (collect_model o m) as [|o1] eqn:E; [done|]. intros Hc Hs Hok. inversion_clear Hs.
  apply collect_model_eq in E as [-> Ho1]; [|done]. eapply IH; eauto using add_model_ok.
Qed.

Lemma empty_output_wf : out_wf empty_output.
Proof. done. Qed.

Lemma empty_output_ok : Forall object_ok (ratio_out empty_output ++ [mode_out empty_output; expr_out empty_output]).
Proof. repeat constructor. Qed.

(** One option: written with [JSON.stringify(value, null, 2)], read with
    [parseOptionJSON]. *)
Lemma option_roundtrip k o :
  object_ok o -> parseOptionJSON (Some (option_request k o).2) = VObj o.
Proof.
  intros Ho%object_ok_json. destruct (ser_Some [32; 32] [] (VObj o) Ho) as [text Et].
  unfold option_request, stringify2, parseOptionJSON. rewrite Et. cbn [snd default from_option id].
  destruct (ser_head _ _ _ _ Ho Et) as (c & tl & -> & Hc & _).
  assert (c = 123) as ->.
  { cbn [ser] in Et. unfold wrap in Et. destruct (flat_map _ _); cbn in Et; by simplify_eq. }
  rewrite trim_nonempty by done. by rewrite (parse_stringify2 (VObj o) (123 :: tl)).
Qed.

(** Every option that a successful submit sends is read back, by the loader,
    as the very object that was collected. *)
Theorem saved_options_read_back l o :
  collect empty_output l = inr o -> Forall savable l ->
  map (fun r => parseOptionJSON (Some r.2)) (requestQueue o)
  = map VObj (ratio_out o ++ [mode_out o; expr_out o]).
Proof.
  intros Hc Hs. assert (Ho : out_wf o) by (by eapply collect_out_wf; [|exact Hc]).
  pose proof (collect_ok l _ o empty_output_wf Hc Hs empty_output_ok) as Hok. unfold requestQueue.
  rewrite !map_app. apply Forall_app in Hok as [Hr Ht]. f_equal.
  - unfold out_wf in Ho. revert Ho Hr. generalize (ratio_out o) as outs. change 8%nat with (length option_keys).
    generalize option_keys as ks. clear. intros ks outs Hl Hr. revert ks Hl.
    induction Hr as [|x outs Hx Hr IH]; intros [|k ks] Hl; try done. cbn [zip_with map].
    rewrite option_roundtrip, IH by (done || by injection Hl). done.
  - inversion_clear Ht as [|? ? Hm Ht']. inversion_clear Ht' as [|? ? Hx _]. cbn [map].
    by rewrite !option_roundtrip.
Qed.

(** C4: an expression model with printed rules, among models with distinct names, is loaded
    again from the options a successful submit sent as an expression model with the same
    rules and with its base expression less redundant outer parentheses
    ([unwrapOuterParens]). The base is not empty, trimmed, has balanced parentheses and does
    not end in [ : 1]; the rules are the text of at least one well-formed group; the numbers
    of all models are finite and read back from their text ([savable]). *)
Theorem tiered_model_reload l o m base gs cands fm :
  collect empty_output l = inr o -> NoDup (map name l) -> Forall savable l -> m ∈ l ->
  billingMode m = TieredExpr -> billingExpr m = base -> requestRuleExpr m = buildRequestRuleExpr gs ->
  base <> [] -> trim base = base -> balanced base -> endsWith $" : 1" base = false ->
  Forall wf_group gs -> gs <> [] ->
  buildModelState (name m) (sourceMaps (Props (requestQueue o) cands fm))
  = Ret (tiered_model (name m) (unwrapOuterParens base) (requestRuleExpr m)).
Proof.
  intros Hc Hd Hs Hm Hb He Hr Hn Ht Hbal Hend Hgs Hne.
  assert (Ho : out_wf o) by (by eapply collect_out_wf; [|exact Hc]).
  pose proof (collect_ok l _ o empty_output_wf Hc Hs empty_output_ok) as Hok.
  destruct (collect_each l _ o m empty_output_wf Hc Hd Hm) as (_ & Hmode & Hexpr).
  assert (Hse : saved_expr m = Some (combineBillingExpr base (buildRequestRuleExpr gs))).
  { unfold saved_expr, is_tiered. rewrite Hb, He, Hr, bool_decide_eq_true_2 by done.
    unfold combineBillingExpr. rewrite Ht. destruct base; [done|]. cbn [nonempty negb].
    by destruct (nonempty (trim (buildRequestRuleExpr gs))). }
  unfold saved_mode in Hmode. rewrite Hse in Hmode, Hexpr. cbn [option_map] in Hmode.
  assert (Hmaps : ModelBillingMode (sourceMaps (Props (requestQueue o) cands fm)) = VObj (mode_out o)
                  /\ ModelBillingExpr (sourceMaps (Props (requestQueue o) cands fm)) = VObj (expr_out o)).
  { apply Forall_app in Hok as [_ Hok]. inversion_clear Hok as [|? ? Ho1 Hok']. inversion_clear Hok' as [|? ? Ho2 _].
    unfold out_wf in Ho. unfold sourceMaps, requestQueue. cbn [options ModelBillingMode ModelBillingExpr].
    destruct (ratio_out o) as [|? [|? [|? [|? [|? [|? [|? [|? [|]]]]]]]]]; try done.
    split; [exact (option_roundtrip $"billing_setting.billing_mode" _ Ho1)
           |exact (option_roundtrip $"billing_setting.billing_expr" _ Ho2)]. }
  destruct Hmaps as [Hm1 Hm2]. unfold buildModelState. rewrite Hm1, Hm2. unfold at_name. cbn [entries].
  rewrite Hmode, Hexpr. cbn [default from_option id eq_str split_value]. rewrite str_eqb_refl.
  rewrite split_combine by done. by rewrite Hr.
Qed.

(** ** Instances *)

Definition sample_tiered : model := tiered_model $"t" $"tier(p * 2)" (buildRequestRuleExpr sample_groups).

Definition sample_list : list model := [template; sample_tiered].

Lemma sample_savable : Forall savable sample_list.
Proof.
  constructor; [|constructor; [|done]].
  - split; [by apply unit16_check; vm_compute|by apply unit16_check; vm_compute|].
    assert (contribution template = [None; Some n1; Some (of_Z 4); None; None; None; None; None]) as ->
      by (by vm_compute).
    assert (num_ok n1) by (split; by vm_compute). assert (num_ok (of_Z 4)) by (split; by vm_compute).
    by repeat constructor.
  - split; [by apply unit16_check; vm_compute|by apply unit16_check; vm_compute|].
    assert (contribution sample_tiered = repeat None 8) as -> by (by vm_compute).
    by repeat constructor.
Qed.

Lemma sample_NoDup : NoDup (map name sample_list).
Proof. apply (bool_decide_unpack _). by vm_compute. Qed.

Lemma collect_exact_witness :
  exists o, collect empty_output sample_list = inr o /\ prop $"t" (mode_out o) = Some (VStr $"tiered_expr").
Proof.
  destruct (collect empty_output sample_list) as [e|o] eqn:E; [by vm_compute in E|]. exists o. split; [done|].
  destruct (collect_exact sample_list o E sample_NoDup) as [H _].
  destruct (H sample_tiered 0%nat) as (_ & Hm & _).
  - apply elem_of_cons; right. by apply list_elem_of_singleton.
  - etransitivity; [exact Hm|by vm_compute].
Defined.

Lemma saved_options_read_back_witness :
  exists o, collect empty_output sample_list = inr o
  /\ map (fun r => parseOptionJSON (Some r.2)) (requestQueue o)
     = map VObj (ratio_out o ++ [mode_out o; expr_out o]).
Proof.
  destruct (collect empty_output sample_list) as [e|o] eqn:E; [by vm_compute in E|]. exists o. split; [done|].
  apply (saved_options_read_back sample_list o E sample_savable).
Defined.

Lemma tiered_model_reload_witness :
  exists o, collect empty_output sample_list = inr o
  /\ buildModelState $"t" (sourceMaps (Props (requestQueue o) [] FilterAll))
     = Ret (tiered_model $"t" (unwrapOuterParens $"tier(p * 2)") (requestRuleExpr sample_tiered)).
Proof.
  destruct (collect empty_output sample_list) as [e|o] eqn:E; [by vm_compute in E|]. exists o. split; [done|].
  apply (tiered_model_reload sample_list o sample_tiered $"tier(p * 2)" sample_groups [] FilterAll E
           sample_NoDup sample_savable); try (by vm_compute); [|exact sample_wf].
  apply elem_of_cons; right. by apply list_elem_of_singleton.
Defined.

End PricingSave.
