(* ===== verification/Sidebar.v ===== *)
(** * The sidebar: [web/src/hooks/common/useSidebar.js] and
      [web/src/hooks/common/useUserPermissions.js]

    The administrator's configuration (a JSON text merged into the defaults), the
    user's configuration (from the API, or generated), and the combination of the
    two that decides what is visible.  The response of [API.get] is a parameter:
    [None] is a rejected promise. *)
From S2P Require Import Prelude JSNum JSValue Json.
#[local] Open Scope Z_scope.
#[local] Arguments js _ : simpl never.

Module Sidebar.

(** A section with every module enabled. *)
Definition on_section (ms : list jsstr) : val := VObj (map (fun k => (k, VBool true)) ($"enabled" :: ms)).

Definition DEFAULT_ADMIN_CONFIG : object :=
  [($"chat", on_section [$"playground"; $"chat"]);
   ($"console", on_section [$"detail"; $"token"; $"log"; $"midjourney"; $"task"]);
   ($"personal", on_section [$"topup"; $"personal"]);
   ($"admin", on_section [$"channel"; $"models"; $"deployment"; $"redemption"; $"user";
                          $"subscription"; $"setting"])].

(** One iteration over the saved sections. *)
Definition merge_section (merged : object) (sectionKey : jsstr) (sectionConfig : val) : object :=
  if negb (truthy sectionConfig) || negb (is_object sectionConfig) then merged
  else
    match prop sectionKey merged with
    | Some old =>
      if truthy old
      then prop_set sectionKey (VObj (prop_assign (entries old) (entries sectionConfig))) merged
      else prop_set sectionKey (VObj (props_of (entries sectionConfig))) merged
    | None => prop_set sectionKey (VObj (props_of (entries sectionConfig))) merged
    end.

Definition mergeAdminConfig (saved : val) : object :=
  if negb (truthy saved) || negb (is_object saved) then DEFAULT_ADMIN_CONFIG
  else fold_left (fun m kv => merge_section m kv.1 kv.2) (entries saved) DEFAULT_ADMIN_CONFIG.

(** [statusState?.status?.SidebarModulesAdmin]: a text, or missing. *)
Definition adminConfig (SidebarModulesAdmin : option jsstr) : object :=
  match SidebarModulesAdmin with
  | Some s =>
    if nonempty s
    then match parse s with Some config => mergeAdminConfig config | None => mergeAdminConfig VNull end
    else mergeAdminConfig VNull
  | None => mergeAdminConfig VNull
  end.

(** ** The user's configuration *)

Definition enabled_key : jsstr := $"enabled".

Definition default_section (section : val) : val :=
  VObj (fold_left
          (fun o k => if negb (k =s? enabled_key) && truthy (get_any section k)
                      then prop_set k (VBool true) o else o)
          (keys (entries section)) [(enabled_key, VBool true)]).

Definition defaultUserConfig (admin : object) : object :=
  fold_left
    (fun o k => let section := default VUndef (prop k admin) in
                if truthy (get_any section enabled_key) then prop_set k (default_section section) o else o)
    (keys admin) [].

(** The body of the [try] in [loadUserConfig]; [res] is [res.data]. *)
Definition fetched_config (admin : object) (res : option val) : outcome val :=
  match res with
  | None => Throw
  | Some data =>
    bind_outcome (get_or_throw data $"success") (fun success =>
      let fallback := Ret (VObj (defaultUserConfig admin)) in
      if truthy success then
        bind_outcome (get_or_throw data $"data") (fun d =>
          bind_outcome (get_or_throw d $"sidebar_modules") (fun modules =>
            if truthy modules then
              match modules with
              | VStr s => match parse s with Some config => Ret config | None => Throw end
              | _ => Ret modules
              end
            else fallback))
      else fallback)
  end.

Record instance := Instance {
  userConfig : val;
  loading : bool;
  hasLoadedOnce : bool;
}.

Definition new_instance : instance := Instance VNull true false.

(** The whole handler: the state while the request runs, and the final one. *)
Definition loadUserConfig_start (withLoading : option bool) (i : instance) : instance :=
  if default (negb (hasLoadedOnce i)) withLoading
  then Instance (userConfig i) true (hasLoadedOnce i) else i.

Definition loadUserConfig (admin : object) (withLoading : option bool) (res : option val)
    (i : instance) : instance :=
  let shouldShowLoader := default (negb (hasLoadedOnce i)) withLoading in
  let i1 := loadUserConfig_start withLoading i in
  Instance (catch (fetched_config admin res) (VObj (defaultUserConfig admin)))
    (if shouldShowLoader then false else loading i1) true.

(** [refreshUserConfig]: the caller reloads without loader, then every other
    instance does, because the event carries [skipLoader: true]. *)
Definition refresh_one (admin : object) (res : option val) (i : instance) : instance :=
  match admin with [] => i | _ => loadUserConfig admin (Some false) res i end.

Definition refreshUserConfig (admin : object) (responses : list (option val)) (l : list instance)
    : list instance :=
  zip_with (refresh_one admin) responses l.

(** ** What is shown *)

(** [userSection ? userSection[k] !== false : true] *)
Definition user_allows (user : val) (k : jsstr) : bool :=
  if truthy user then negb (eq_bool (get_any user k) false) else true.

(** [adminAllowed && userAllowed && sectionEnabled] *)
Definition final_module (admin user : val) (k : jsstr) : val :=
  let adminAllowed := get_any admin k in
  if truthy adminAllowed then VBool (user_allows user k && user_allows user enabled_key) else adminAllowed.

Definition final_section (admin : val) (user : val) : object :=
  if negb (truthy (get_any admin enabled_key)) then [(enabled_key, VBool false)]
  else
    fold_left
      (fun o k => if k =s? enabled_key then o else prop_set k (final_module admin user k) o)
      (keys (entries admin)) [(enabled_key, VBool (user_allows user enabled_key))].

Definition finalConfig (admin : object) (user : val) : list (jsstr * object) :=
  if truthy user then
    fold_left
      (fun o k => prop_set k (final_section (default VUndef (prop k admin)) (get_any user k)) o)
      (keys admin) []
  else [].

Definition section_get (final : list (jsstr * object)) (s m : jsstr) : val :=
  match prop s final with Some o => default VUndef (prop m o) | None => VUndef end.

(** [moduleKey = null] asks for the section. *)
Definition isModuleVisible (final : list (jsstr * object)) (s : jsstr) (m : option jsstr) : bool :=
  match m with
  | Some (c :: r) => eq_bool (section_get final s (c :: r)) true
  | _ => eq_bool (section_get final s enabled_key) true
  end.

Definition getVisibleModules (final : list (jsstr * object)) (s : jsstr) : list jsstr :=
  match prop s final with
  | Some o =>
    if truthy (default VUndef (prop enabled_key o))
    then List.filter (fun k => negb (k =s? enabled_key) && eq_bool (default VUndef (prop k o)) true) (keys o)
    else []
  | None => []
  end.

Definition hasSectionVisibleModules (final : list (jsstr * object)) (s : jsstr) : bool :=
  match prop s final with
  | Some o =>
    truthy (default VUndef (prop enabled_key o))
    && existsb (fun k => negb (k =s? enabled_key) && eq_bool (default VUndef (prop k o)) true) (keys o)
  | None => false
  end.

(** ** Permissions of the user *)

Record perm_state := PermState { permissions : val; perm_loading : bool; error : option jsstr }.

Definition init_perm : perm_state := PermState VNull true None.

(** [loadPermissions]; [res] is [res.data], [None] a rejected promise. *)
Definition loadPermissions (res : option val) (p : perm_state) : perm_state :=
  let network := PermState (permissions p) false (Some $"网络错误，请重试") in
  match res with
  | None => network
  | Some data =>
    match get_or_throw data $"success" with
    | Throw => network
    | Ret success =>
      if truthy success then
        match bind_outcome (get_or_throw data $"data") (fun d => get_or_throw d $"permissions") with
        | Ret perms => PermState perms false None
        | Throw => network
        end
      else
        let m := get_any data $"message" in
        PermState (permissions p) false (Some (if truthy m then String_val m else $"获取权限失败"))
    end
  end.

Definition sidebar_modules (perms : val) : val := get_any perms $"sidebar_modules".

Definition hasSidebarSettingsPermission (perms : val) : bool :=
  eq_bool (get_any perms $"sidebar_settings") true.

Definition isSidebarSectionAllowed (perms : val) (s : jsstr) : bool :=
  if truthy (sidebar_modules perms) then negb (eq_bool (get_any (sidebar_modules perms) s) false) else true.

Definition isSidebarModuleAllowed (perms : val) (s m : jsstr) : bool :=
  if truthy (sidebar_modules perms) then
    let section := get_any (sidebar_modules perms) s in
    if eq_bool section false then false
    else negb (truthy section && eq_bool (get_any section m) false)
  else true.

Definition getAllowedSidebarSections (perms : val) : list jsstr :=
  if truthy (sidebar_modules perms)
  then List.filter (isSidebarSectionAllowed perms) (keys (entries (sidebar_modules perms)))
  else [].

Definition getAllowedSidebarModules (perms : val) (s : jsstr) : list jsstr :=
  if truthy (sidebar_modules perms) then
    let section := get_any (sidebar_modules perms) s in
    if eq_bool section false then []
    else if negb (truthy section) || negb (is_object section) then []
    else List.filter (fun k => negb (k =s? enabled_key) && eq_bool (get_any section k) true)
           (keys (entries section))
  else [].

(** * Theorems *)

Lemma get_any_keys v k : get_any v k <> VUndef -> k ∈ keys (entries v).
Proof. unfold get_any. intros H. apply prop_Some_keys. by destruct (prop k (entries v)). Qed.

Lemma truthy_undef v : truthy v = true -> v <> VUndef.
Proof. by destruct v. Qed.

(** What the administrator allows, and what the user hides. *)
Definition admin_section (admin : object) (s : jsstr) : val := default VUndef (prop s admin).

Definition admin_allows (admin : object) (s m : jsstr) : bool :=
  truthy (get_any (admin_section admin s) enabled_key) && truthy (get_any (admin_section admin s) m).

Definition user_hides (user : val) (s k : jsstr) : bool :=
  truthy (get_any user s) && eq_bool (get_any (get_any user s) k) false.

Lemma final_lookup admin user s :
  truthy user = true ->
  prop s (finalConfig admin user)
  = if bool_decide (s ∈ keys admin) then Some (final_section (admin_section admin s) (get_any user s)) else None.
Proof. intros Hu. unfold finalConfig. rewrite Hu.
  exact (fold_set_lookup (fun k => final_section (admin_section admin k) (get_any user k)) (keys admin) [] s).
Qed.

Lemma hides_alt user s k : user_allows (get_any user s) k = negb (user_hides user s k).
Proof. unfold user_hides, user_allows. by destruct (truthy _). Qed.

Lemma final_section_module admin u m :
  m <> enabled_key -> truthy (get_any admin enabled_key) = true ->
  prop m (final_section admin u)
  = if bool_decide (m ∈ keys (entries admin)) then Some (final_module admin u m) else None.
Proof.
  intros Hm He. unfold final_section. rewrite He. cbn [negb]. apply str_eqb_neq in Hm.
  transitivity (prop m (fold_left
    (fun o k => if negb (k =s? enabled_key) then prop_set k (final_module admin u k) o else o)
    (keys (entries admin)) [(enabled_key, VBool (user_allows u enabled_key))])).
  - f_equal. generalize [(enabled_key, VBool (user_allows u enabled_key))].
    induction (keys (entries admin)) as [|k ks IH]; intros o; cbn [fold_left]; [done|]. rewrite IH.
    by destruct (k =s? enabled_key).
  - rewrite (fold_set_if (final_module admin u) (fun k => negb (k =s? enabled_key))). rewrite Hm. cbn [negb].
    rewrite andb_true_r. destruct (bool_decide _); [done|]. cbn [prop]. by rewrite Hm.
Qed.

Lemma module_visible admin user s m :
  truthy user = true -> m <> [] -> m <> enabled_key ->
  isModuleVisible (finalConfig admin user) s (Some m)
  = admin_allows admin s m && negb (user_hides user s m) && negb (user_hides user s enabled_key).
Proof.
  intros Hu Hn Hm. unfold isModuleVisible, section_get. destruct m as [|c m]; [done|]. set (k := c :: m) in *.
  rewrite final_lookup by done. unfold admin_allows.
  destruct (truthy (get_any (admin_section admin s) enabled_key)) eqn:He; cbn [andb].
  - assert (Hs : s ∈ keys admin).
    { apply prop_Some_keys. unfold admin_section in He. by destruct (prop s admin). }
    rewrite bool_decide_eq_true_2 by done. rewrite final_section_module by done.
    unfold final_module. rewrite !hides_alt.
    destruct (truthy (get_any (admin_section admin s) k)) eqn:Ha; cbn [andb].
    + rewrite bool_decide_eq_true_2 by (by apply get_any_keys, truthy_undef). cbn.
      by destruct (_ && _)%bool.
    + destruct (bool_decide _); [|done]. cbn. by destruct (get_any _ k) as [| |[]| | | |].
  - destruct (bool_decide _); [|done]. unfold final_section. rewrite He. cbn.
    destruct (str_eqb_spec k enabled_key); done.
Qed.

(** A module is visible exactly when the administrator enables its section and
    the module itself and the user hides neither; in particular the user's
    configuration never reveals what the administrator hides. *)
Theorem module_visible_iff admin user s m :
  truthy user = true -> m <> [] -> m <> enabled_key ->
  isModuleVisible (finalConfig admin user) s (Some m) = true
  <-> admin_allows admin s m = true /\ user_hides user s m = false /\ user_hides user s enabled_key = false.
Proof.
  intros Hu Hn Hm. rewrite module_visible by done. rewrite !andb_true_iff, !negb_true_iff. tauto.
Qed.

(** The list of visible modules is the visible modules. *)
Lemma visible_modules_spec final s m :
  m <> [] -> m <> enabled_key ->
  m ∈ getVisibleModules final s <->
  truthy (section_get final s enabled_key) = true /\ isModuleVisible final s (Some m) = true.
Proof.
  intros Hn Hm. unfold getVisibleModules, isModuleVisible, section_get. destruct m as [|c m]; [done|].
  set (k := c :: m) in *. destruct (prop s final) as [o|]; [|split; [by intros ?%elem_of_nil|by intros [? _]]].
  destruct (truthy (default VUndef (prop enabled_key o))); [|split; [by intros ?%elem_of_nil|by intros [? _]]].
  rewrite elem_of_lfilter. apply str_eqb_neq in Hm. rewrite Hm. cbn [negb andb].
  split; [tauto|]. intros [_ H]. split; [|done]. apply prop_Some_keys. by destruct (prop k o).
Qed.

(** C: [hasSectionVisibleModules] holds exactly when [getVisibleModules] lists
    something, for every configuration. *)
Theorem section_visible_iff final s :
  hasSectionVisibleModules final s = true <-> getVisibleModules final s <> [].
Proof.
  unfold hasSectionVisibleModules, getVisibleModules. destruct (prop s final) as [o|]; [|done].
  destruct (truthy _); [|done]. cbn [andb]. rewrite existsb_exists. split.
  - intros (k & Hin & Hk) E. apply (in_nil (a := k)). rewrite <- E. by apply filter_In.
  - intros H. destruct (List.filter _ (keys o)) as [|k l] eqn:E; [done|]. exists k.
    assert (Hin : In k (k :: l)) by (by left). rewrite <- E in Hin. by apply filter_In in Hin.
Qed.

(** ** The generated configuration *)

Lemma default_lookup admin s :
  prop s (defaultUserConfig admin)
  = if bool_decide (s ∈ keys admin) && truthy (get_any (admin_section admin s) enabled_key)
    then Some (default_section (admin_section admin s)) else None.
Proof.
  unfold defaultUserConfig.
  rewrite (fold_set_if (fun k => default_section (admin_section admin k))
             (fun k => truthy (get_any (admin_section admin k) enabled_key))).
  by destruct (_ && _)%bool.
Qed.

Lemma default_section_never_false section k : eq_bool (get_any (default_section section) k) false = false.
Proof.
  unfold get_any, default_section. cbn [entries].
  rewrite (fold_set_if (fun _ => VBool true)
             (fun k => negb (k =s? enabled_key) && truthy (get_any section k))).
  destruct (_ && _)%bool; [done|]. cbn. by destruct (k =s? enabled_key).
Qed.

(** The configuration generated for a user without one, or after any failed
    request, shows exactly what the administrator allows. *)
Theorem default_config_shows_admin admin res s m :
  fetched_config admin res = Throw \/ fetched_config admin res = Ret (VObj (defaultUserConfig admin)) ->
  m <> [] -> m <> enabled_key ->
  let i := loadUserConfig admin None res new_instance in
  isModuleVisible (finalConfig admin (userConfig i)) s (Some m) = admin_allows admin s m
  /\ loading i = false /\ hasLoadedOnce i = true.
Proof.
  intros Hf Hn Hm. cbn zeta.
  assert (Hu : userConfig (loadUserConfig admin None res new_instance) = VObj (defaultUserConfig admin)).
  { cbn. by destruct Hf as [-> | ->]. }
  rewrite Hu. split; [|done]. rewrite module_visible by done.
  assert (Hh : forall k, user_hides (VObj (defaultUserConfig admin)) s k = false).
  { intros k. unfold user_hides. apply andb_false_iff; right. unfold get_any at 2. cbn [entries].
    rewrite default_lookup. destruct (_ && _)%bool; [|done]. apply default_section_never_false. }
  by rewrite !Hh, !andb_true_r.
Qed.

(** ** Merging *)

Definition section_object (v : val) : bool := truthy v && is_object v.

Lemma merge_section_lookup merged k c s :
  (forall o, prop k merged = Some o -> truthy o = true) ->
  prop s (merge_section merged k c)
  = if (s =s? k) && section_object c
    then Some (VObj (prop_assign (entries (default VUndef (prop k merged))) (entries c)))
    else prop s merged.
Proof.
  intros Ht. unfold merge_section, section_object.
  destruct (truthy c) eqn:Ec; cbn [negb orb andb]; [|by rewrite andb_false_r].
  destruct (is_object c); cbn [negb]; [|by rewrite andb_false_r]. rewrite andb_true_r.
  destruct (prop k merged) as [o|] eqn:Eo; [rewrite (Ht o) by done|]; rewrite prop_set_lookup;
    by destruct (s =s? k).
Qed.

Lemma merge_loop_lookup l merged s m :
  NoDup (keys l) -> Forall (fun kv => NoDup (keys (entries kv.2))) l ->
  (forall k o, prop k merged = Some o -> truthy o = true) ->
  let sec := default VUndef (prop s l) in
  get_any (default VUndef (prop s (fold_left (fun a kv => merge_section a kv.1 kv.2) l merged))) m
  = if section_object sec && has_prop m (entries sec) then get_any sec m
    else get_any (default VUndef (prop s merged)) m.
Proof.
  revert merged; induction l as [|[k c] l IH]; intros merged Hd Hs Ht; cbn [fold_left fst snd prop]; [done|].
  apply NoDup_cons in Hd as [Hk Hd]. inversion_clear Hs as [|? ? Hc Hs'].
  assert (Ht' : forall k' o, prop k' (merge_section merged k c) = Some o -> truthy o = true).
  { intros k' o. rewrite merge_section_lookup by eauto. destruct (_ && _)%bool; [by intros [= <-]|eauto]. }
  rewrite (IH _ Hd Hs' Ht'). cbn zeta. rewrite merge_section_lookup by eauto.
  destruct (str_eqb_spec s k) as [->|Hne]; cbn [andb]; [|done].
  rewrite (proj2 (prop_None k l) Hk). cbn [default from_option section_object truthy andb id].
  destruct (section_object c) eqn:Ec; cbn [andb]; [|done].
  unfold get_any at 1. cbn [default from_option id entries]. rewrite prop_assign_lookup by done.
  unfold has_prop, get_any. by destruct (prop m (entries c)).
Qed.

(** In the merged administrator configuration a module has the saved value when
    its saved section is an object that mentions it, and the default otherwise. *)
Theorem merge_admin_lookup saved s m :
  section_object saved = true ->
  NoDup (keys (entries saved)) -> Forall (fun kv => NoDup (keys (entries kv.2))) (entries saved) ->
  get_any (admin_section (mergeAdminConfig saved) s) m
  = if section_object (get_any saved s) && has_prop m (entries (get_any saved s))
    then get_any (get_any saved s) m
    else get_any (admin_section DEFAULT_ADMIN_CONFIG s) m.
Proof.
  intros Ho Hd Hs. unfold section_object in Ho. bsplit. unfold mergeAdminConfig. rewrite H, H0. cbn [negb orb].
  apply (merge_loop_lookup (entries saved) DEFAULT_ADMIN_CONFIG s m Hd Hs).
  intros k o E. apply prop_elem in E. unfold DEFAULT_ADMIN_CONFIG in E. rewrite !elem_of_cons, elem_of_nil in E.
  by destruct_or!; simplify_eq.
Qed.

(** ** Permissions *)

(** The three permission tests agree: a listed module is allowed, an allowed
    module's section is allowed, and a listed section is allowed. *)
Theorem permissions_consistent perms s m :
  (m ∈ getAllowedSidebarModules perms s -> isSidebarModuleAllowed perms s m = true)
  /\ (isSidebarModuleAllowed perms s m = true -> isSidebarSectionAllowed perms s = true)
  /\ (s ∈ getAllowedSidebarSections perms -> isSidebarSectionAllowed perms s = true).
Proof.
  unfold getAllowedSidebarModules, isSidebarModuleAllowed, isSidebarSectionAllowed, getAllowedSidebarSections.
  destruct (truthy (sidebar_modules perms)) eqn:Et.
  - destruct (eq_bool (get_any (sidebar_modules perms) s) false) eqn:Ef; cbn [negb].
    + split; [by intros ?%elem_of_nil|]. split; [done|]. rewrite elem_of_lfilter. intros [_ H].
      unfold isSidebarSectionAllowed in H. by rewrite Et, Ef in H.
    + split; [|done]. destruct (_ || _)%bool; [by intros ?%elem_of_nil|]. rewrite elem_of_lfilter. intros [_ H].
      bsplit. destruct (get_any (get_any (sidebar_modules perms) s) m) as [| |[]| | | |]; try done.
      by rewrite andb_false_r.
  - split; [by intros ?%elem_of_nil|]. split; [done|]. by intros ?%elem_of_nil.
Qed.

(** ** Instances *)

Definition sample_saved : val :=
  VObj [($"chat", VObj [($"playground", VBool false)]); ($"extra", VObj [($"enabled", VBool true)])].

Lemma module_visible_iff_witness :
  isModuleVisible (finalConfig (mergeAdminConfig sample_saved) (VObj [])) $"chat" (Some $"chat") = true
  <-> admin_allows (mergeAdminConfig sample_saved) $"chat" $"chat" = true
      /\ user_hides (VObj []) $"chat" $"chat" = false /\ user_hides (VObj []) $"chat" enabled_key = false.
Proof. apply (module_visible_iff (mergeAdminConfig sample_saved) (VObj []) $"chat" $"chat"); by vm_compute. Defined.

Lemma default_config_shows_admin_witness :
  isModuleVisible (finalConfig (mergeAdminConfig sample_saved)
    (userConfig (loadUserConfig (mergeAdminConfig sample_saved) None None new_instance))) $"chat" (Some $"playground")
  = false.
Proof.
  destruct (default_config_shows_admin (mergeAdminConfig sample_saved) None $"chat" $"playground") as [-> _];
    [by left|by vm_compute|by vm_compute|by vm_compute].
Defined.

Lemma merge_admin_lookup_witness :
  get_any (admin_section (mergeAdminConfig sample_saved) $"chat") $"playground" = VBool false
  /\ get_any (admin_section (mergeAdminConfig sample_saved) $"chat") $"chat" = VBool true.
Proof.
  assert (Hd : NoDup (keys (entries sample_saved))) by (apply (bool_decide_unpack _); by vm_compute).
  assert (Hs : Forall (fun kv => NoDup (keys (entries kv.2))) (entries sample_saved))
    by (repeat constructor; apply (bool_decide_unpack _); by vm_compute).
  split.
  - rewrite (merge_admin_lookup sample_saved $"chat" $"playground" eq_refl Hd Hs). by vm_compute.
  - rewrite (merge_admin_lookup sample_saved $"chat" $"chat" eq_refl Hd Hs). by vm_compute.
Defined.

End Sidebar.
