(* ===== verification/PricingFilters.v ===== *)
(** * Model list filters: [web/src/hooks/model-pricing/usePricingFilterCounts.js]

    The predicate that combines the filters, with a list of filters to ignore, and
    the five model lists computed from it.  Each list is memoized in the source
    with a dependency list that leaves one filter out; the theorems show that the
    left-out filter is indeed irrelevant. *)
From S2P Require Import Prelude.
#[local] Open Scope Z_scope.
#[local] Arguments js _ : simpl never.

Module PricingFilters.

Record pmodel := PModel {
  model_name : jsstr;
  enable_groups : option (list jsstr);
  quota_type : Z;
  supported_endpoint_types : option (list jsstr);
  vendor_name : option jsstr;
  tags : option jsstr;
  description : option jsstr;
}.

(** Filters: [None] is the string 'all'. *)
Record filters := Filters {
  filterGroup : option jsstr;
  filterQuotaType : option Z;
  filterEndpointType : option jsstr;
  filterVendor : option jsstr;
  filterTag : option jsstr;
  searchValue : jsstr;
}.

Inductive fkey := KGroup | KQuota | KEndpoint | KVendor | KTag | KSearch.

#[export] Instance fkey_eq_dec : EqDecision fkey.
Proof. solve_decision. Defined.

Definition is_sep (c : Z) : bool := (c =? 44) || (c =? 59) || (c =? 124).

(** [s.split(/[,;|]+/)]: a run of separators is one separator. *)
Fixpoint split_runs (s : jsstr) (insep : bool) (cur : jsstr) : list jsstr :=
  match s with
  | [] => [rev cur]
  | c :: r =>
    if is_sep c then (if insep then split_runs r true cur else rev cur :: split_runs r true [])
    else split_runs r false (c :: cur)
  end.

Definition normalizeTags (tags : option jsstr) : list jsstr :=
  filter_Boolean (map trim (split_runs (toLowerCase (default [] tags)) false [])).

Definition member (x : jsstr) (l : option (list jsstr)) : bool :=
  match l with Some l => bool_decide (x ∈ l) | None => false end.

(** The single conditions. *)
Definition group_ok (f : filters) (m : pmodel) : bool :=
  match filterGroup f with Some g => member g (enable_groups m) | None => true end.

Definition quota_ok (f : filters) (m : pmodel) : bool :=
  match filterQuotaType f with Some q => quota_type m =? q | None => true end.

Definition endpoint_ok (f : filters) (m : pmodel) : bool :=
  match filterEndpointType f with Some e => member e (supported_endpoint_types m) | None => true end.

Definition vendor_ok (f : filters) (m : pmodel) : bool :=
  match filterVendor f with
  | Some v =>
    if v =s? $"unknown" then negb (nonempty (default [] (vendor_name m)))
    else match vendor_name m with Some n => n =s? v | None => false end
  | None => true
  end.

Definition tag_ok (f : filters) (m : pmodel) : bool :=
  match filterTag f with
  | Some t => bool_decide (toLowerCase t ∈ normalizeTags (tags m))
  | None => true
  end.

(** [x && x.toLowerCase().includes(term)] *)
Definition mentions (x : option jsstr) (term : jsstr) : bool :=
  match x with Some s => nonempty s && includes term (toLowerCase s) | None => false end.

Definition search_ok (f : filters) (m : pmodel) : bool :=
  if nonempty (searchValue f) then
    let term := toLowerCase (searchValue f) in
    includes term (toLowerCase (model_name m))
    || mentions (description m) term
    || includes term (toLowerCase (default [] (tags m)))
    || mentions (vendor_name m) term
  else true.

Definition condition (k : fkey) : filters -> pmodel -> bool :=
  match k with
  | KGroup => group_ok | KQuota => quota_ok | KEndpoint => endpoint_ok
  | KVendor => vendor_ok | KTag => tag_ok | KSearch => search_ok
  end.

(** [!ignore.includes(k) => condition], in the order of the source. *)
Definition matchesFilters (f : filters) (ignore : list fkey) (m : pmodel) : bool :=
  let check k := bool_decide (k ∈ ignore) || condition k f m in
  check KGroup && check KQuota && check KEndpoint && check KVendor && check KTag && check KSearch.

Definition quotaTypeModels (f : filters) (l : list pmodel) := List.filter (matchesFilters f [KQuota]) l.
Definition endpointTypeModels (f : filters) (l : list pmodel) := List.filter (matchesFilters f [KEndpoint]) l.
Definition vendorModels (f : filters) (l : list pmodel) := List.filter (matchesFilters f [KVendor]) l.
Definition tagModels (f : filters) (l : list pmodel) := List.filter (matchesFilters f [KTag]) l.
Definition groupCountModels (f : filters) (l : list pmodel) := List.filter (matchesFilters f [KGroup]) l.

(** The list of a facet. *)
Definition facet (k : fkey) (f : filters) (l : list pmodel) : list pmodel :=
  match k with
  | KGroup => groupCountModels f l
  | KQuota => quotaTypeModels f l
  | KEndpoint => endpointTypeModels f l
  | KVendor => vendorModels f l
  | KTag => tagModels f l
  | KSearch => List.filter (matchesFilters f [KSearch]) l
  end.

(** * Theorems *)

(** The filters agree, except perhaps on [k]. *)
Definition same_but (k : fkey) (f g : filters) : Prop :=
  (k = KGroup \/ filterGroup f = filterGroup g) /\ (k = KQuota \/ filterQuotaType f = filterQuotaType g)
  /\ (k = KEndpoint \/ filterEndpointType f = filterEndpointType g)
  /\ (k = KVendor \/ filterVendor f = filterVendor g) /\ (k = KTag \/ filterTag f = filterTag g)
  /\ (k = KSearch \/ searchValue f = searchValue g).

Lemma facet_alt k f l : facet k f l = List.filter (matchesFilters f [k]) l.
Proof. by destruct k. Qed.

Lemma check_ignored k f (j : fkey) m :
  bool_decide (j ∈ [k]) || condition j f m = if decide (j = k) then true else condition j f m.
Proof.
  destruct (decide (j = k)) as [->|H]; [by rewrite bool_decide_eq_true_2 by left|].
  rewrite bool_decide_eq_false_2; [done|]. by intros ->%list_elem_of_singleton.
Qed.

(** The memoized list of a facet does not depend on the facet's own filter, the
    one that its dependency list leaves out. *)
Theorem facet_ignores_own_filter k f g l : same_but k f g -> facet k f l = facet k g l.
Proof.
  intros (H1 & H2 & H3 & H4 & H5 & H6). rewrite !facet_alt. apply List.filter_ext. intros m.
  unfold matchesFilters. rewrite !check_ignored.
  unfold condition, group_ok, quota_ok, endpoint_ok, vendor_ok, tag_ok, search_ok.
  destruct k; destruct_or?; try done;
    repeat match goal with H : _ f = _ g |- _ => rewrite ?H; clear H end; done.
Qed.

Lemma matches_all f m : matchesFilters f [] m = forallb (fun k => condition k f m)
  [KGroup; KQuota; KEndpoint; KVendor; KTag; KSearch].
Proof. unfold matchesFilters. cbn. by rewrite <- !andb_assoc, andb_true_r. Qed.

(** Narrowing a facet's list by the facet's own condition gives the models that
    match all filters: the counts of a facet are counts of the results its options
    would give. *)
Theorem facet_refines_to_result k f l :
  List.filter (condition k f) (facet k f l) = List.filter (matchesFilters f []) l.
Proof.
  rewrite facet_alt. induction l as [|m l IH]; [done|]. cbn [List.filter].
  assert (E : matchesFilters f [] m = matchesFilters f [k] m && condition k f m).
  { rewrite matches_all. unfold matchesFilters. rewrite !check_ignored. cbn [forallb].
    destruct k; cbn [decide]; repeat case_decide; try done;
      destruct (condition KGroup f m), (condition KQuota f m), (condition KEndpoint f m),
        (condition KVendor f m), (condition KTag f m), (condition KSearch f m); done. }
  rewrite E. destruct (matchesFilters f [k] m); cbn [List.filter andb].
  - destruct (condition k f m); [by rewrite IH|done].
  - done.
Qed.

Definition sample_filters : filters := Filters (Some $"vip") (Some 0) None None None [].

Definition sample_pmodels : list pmodel :=
  [PModel $"a" (Some [$"vip"]) 0 None None None None; PModel $"b" (Some [$"vip"]) 1 None None None None;
   PModel $"c" None 0 None None None None].

Lemma facet_ignores_own_filter_witness :
  facet KQuota sample_filters sample_pmodels
  = facet KQuota (Filters (Some $"vip") None None None None []) sample_pmodels
  /\ length (facet KQuota sample_filters sample_pmodels) = 2%nat.
Proof.
  split; [|done]. apply (facet_ignores_own_filter KQuota sample_filters). unfold same_but. cbn. tauto.
Defined.

End PricingFilters.
