(* ===== verification/StatusCodeRiskGuard.v ===== *)
(** * Status code mappings:
    [web/src/components/table/channels/modals/statusCodeRiskGuard.js]

    The checks of a channel's status code mapping, a JSON object text: which
    entries are malformed, and which redirect a code that must not be redirected. *)
From S2P Require Import Prelude JSNum JSValue Json.
From Stdlib Require Import SpecFloat.
#[local] Open Scope Z_scope.
#[local] Arguments js _ : simpl never.

Module StatusCodeRiskGuard.

Definition NON_REDIRECTABLE_STATUS_CODES : list Z := [504; 524].

(** [/^[1-5]\d{2}$/] *)
Definition is_code_text (s : jsstr) : bool :=
  match s with
  | [a; b; c] => (49 <=? a) && (a <=? 53) && is_digit b && is_digit c
  | _ => false
  end.

Definition parseStatusCodeKey (rawKey : jsstr) : option Z :=
  let normalized := trim rawKey in
  if is_code_text normalized then Some (dec_val normalized) else None.

(** The integer value of a number, when it is one. *)
Definition int_of (n : num) : option Z :=
  if isInteger n then
    match n with
    | S754_zero _ => Some 0
    | S754_finite s m e => let '(a, b) := ratio_of m e in Some (if s then - (a / b) else a / b)
    | _ => None
    end
  else None.

Definition in_range (c : Z) : bool := (100 <=? c) && (c <=? 599).

Definition parseStatusCodeMappingTarget (rawValue : val) : option Z :=
  match rawValue with
  | VNum n =>
    match int_of n with
    | Some c => if in_range c then Some c else None
    | None => None
    end
  | VStr s =>
    let normalized := trim s in
    if is_code_text normalized then
      let code := dec_val normalized in if in_range code then Some code else None
    else None
  | _ => None
  end.

(** The parsed mapping, or nothing. *)
Definition mapping_of (str : option jsstr) : option object :=
  match str with
  | Some s =>
    if nonempty (trim s)
    then match parse s with Some (VObj o) => Some o | _ => None end
    else None
  | None => None
  end.

Definition collectInvalidStatusCodeEntries (str : option jsstr) : list jsstr :=
  match mapping_of str with
  | None => []
  | Some o =>
    flat_map (fun kv => match parseStatusCodeKey kv.1, parseStatusCodeMappingTarget kv.2 with
                        | Some _, Some _ => []
                        | _, _ => [kv.1 ++ $" → " ++ String_val kv.2]
                        end) o
  end.

Definition redirect_text (a b : Z) : jsstr := Z_to_str a ++ $" -> " ++ Z_to_str b.

Definition risky_entry (kv : jsstr * val) : list jsstr :=
  match parseStatusCodeKey kv.1, parseStatusCodeMappingTarget kv.2 with
  | Some fromCode, Some toCode =>
    if bool_decide (fromCode ∈ NON_REDIRECTABLE_STATUS_CODES) && negb (fromCode =? toCode)
    then [redirect_text fromCode toCode] else []
  | _, _ => []
  end.

(** The default order of [sort()]: by code units. *)
Fixpoint str_cmp (a b : jsstr) : Z :=
  match a, b with
  | [], [] => 0
  | [], _ => -1
  | _, [] => 1
  | x :: a', y :: b' => if x <? y then -1 else if y <? x then 1 else str_cmp a' b'
  end.

Definition collectDisallowedStatusCodeRedirects (str : option jsstr) : list jsstr :=
  match mapping_of str with
  | None => []
  | Some o => sort_by str_cmp (uniq (flat_map risky_entry o))
  end.

Definition collectNewDisallowedStatusCodeRedirects (original current : option jsstr) : list jsstr :=
  match collectDisallowedStatusCodeRedirects current with
  | [] => []
  | currentRisky =>
    let originalRiskySet := collectDisallowedStatusCodeRedirects original in
    List.filter (fun m => negb (bool_decide (m ∈ originalRiskySet))) currentRisky
  end.

(** * Theorems *)

(** The redirects of a mapping that are disallowed. *)
Definition disallowed (o : object) (a b : Z) : Prop :=
  exists k v, (k, v) ∈ o /\ parseStatusCodeKey k = Some a /\ parseStatusCodeMappingTarget v = Some b
              /\ a ∈ NON_REDIRECTABLE_STATUS_CODES /\ a <> b.

Lemma elem_of_flat_map' {A B} (f : A -> list B) (l : list A) y :
  y ∈ flat_map f l <-> exists x, x ∈ l /\ y ∈ f x.
Proof.
  rewrite list_elem_of_In, in_flat_map. setoid_rewrite list_elem_of_In. done.
Qed.

Lemma risky_entry_spec kv t :
  t ∈ risky_entry kv <->
  exists a b, parseStatusCodeKey kv.1 = Some a /\ parseStatusCodeMappingTarget kv.2 = Some b
              /\ a ∈ NON_REDIRECTABLE_STATUS_CODES /\ a <> b /\ t = redirect_text a b.
Proof.
  unfold risky_entry. destruct (parseStatusCodeKey kv.1) as [a|].
  2:{ split; [by intros ?%elem_of_nil|]. by intros (a & b & ? & _). }
  destruct (parseStatusCodeMappingTarget kv.2) as [b|].
  2:{ split; [by intros ?%elem_of_nil|]. by intros (a' & b & _ & ? & _). }
  destruct (bool_decide_reflect (a ∈ NON_REDIRECTABLE_STATUS_CODES)) as [Ha|Ha]; cbn [andb].
  - destruct (Z.eqb_spec a b) as [->|Hne]; cbn [negb].
    + split; [by intros ?%elem_of_nil|]. intros (a' & b' & ? & ? & _ & ? & _). by simplify_eq.
    + rewrite list_elem_of_singleton. split; [intros ->; by exists a, b|].
      intros (a' & b' & ? & ? & _ & _ & ->). by simplify_eq.
  - split; [by intros ?%elem_of_nil|]. intros (a' & b' & ? & _ & ? & _). by simplify_eq.
Qed.

Lemma collect_spec str t :
  t ∈ collectDisallowedStatusCodeRedirects str <->
  exists o a b, mapping_of str = Some o /\ disallowed o a b /\ t = redirect_text a b.
Proof.
  unfold collectDisallowedStatusCodeRedirects. destruct (mapping_of str) as [o|].
  2:{ split; [by intros ?%elem_of_nil|]. by intros (o & ? & ? & ? & _). }
  rewrite sort_by_perm, elem_of_uniq, elem_of_flat_map'. setoid_rewrite risky_entry_spec.
  unfold disallowed. split.
  - intros ([k v] & Hin & a & b & ? & ? & ? & ? & ->). exists o, a, b. split; [done|]. split; [|done].
    by exists k, v.
  - intros (o' & a & b & ? & (k & v & ? & ? & ? & ? & ?) & ->). simplify_eq. exists (k, v). split; [done|].
    by exists a, b.
Qed.

Lemma collect_NoDup str : NoDup (collectDisallowedStatusCodeRedirects str).
Proof.
  unfold collectDisallowedStatusCodeRedirects. destruct (mapping_of str); [|constructor].
  rewrite sort_by_perm. apply NoDup_uniq.
Qed.

(** The redirects reported as new are exactly the disallowed redirects of the
    current mapping whose text is not already reported for the original mapping,
    each listed once. *)
Theorem new_redirects_exact original current t :
  NoDup (collectNewDisallowedStatusCodeRedirects original current)
  /\ (t ∈ collectNewDisallowedStatusCodeRedirects original current <->
      (exists o a b, mapping_of current = Some o /\ disallowed o a b /\ t = redirect_text a b)
      /\ ~ (exists o a b, mapping_of original = Some o /\ disallowed o a b /\ t = redirect_text a b)).
Proof.
  rewrite <- !collect_spec. unfold collectNewDisallowedStatusCodeRedirects.
  pose proof (collect_NoDup current) as Hd.
  destruct (collectDisallowedStatusCodeRedirects current) as [|x l].
  - split; [constructor|]. split; [by intros ?%elem_of_nil|]. by intros [?%elem_of_nil _].
  - split; [by apply NoDup_lfilter|]. rewrite elem_of_lfilter, negb_true_iff, bool_decide_eq_false. done.
Qed.

(** An entry is reported as invalid exactly when its key is not a status code
    or its target is not one; valid entries are never reported. *)
Theorem invalid_entries_exact str o :
  mapping_of str = Some o ->
  (collectInvalidStatusCodeEntries str = [] <->
   forall k v, (k, v) ∈ o -> is_Some (parseStatusCodeKey k) /\ is_Some (parseStatusCodeMappingTarget v))
  /\ (forall k v, (k, v) ∈ o ->
        parseStatusCodeKey k = None \/ parseStatusCodeMappingTarget v = None ->
        k ++ $" → " ++ String_val v ∈ collectInvalidStatusCodeEntries str).
Proof.
  intros Ho. unfold collectInvalidStatusCodeEntries. rewrite Ho. clear Ho.
  assert (H2 : forall k v, (k, v) ∈ o ->
    parseStatusCodeKey k = None \/ parseStatusCodeMappingTarget v = None ->
    k ++ $" → " ++ String_val v ∈ flat_map (fun kv => match parseStatusCodeKey kv.1, parseStatusCodeMappingTarget kv.2 with
                        | Some _, Some _ => [] | _, _ => [kv.1 ++ $" → " ++ String_val kv.2] end) o).
  { intros k v Hin Hn. apply elem_of_flat_map'. exists (k, v). split; [done|]. cbn [fst snd].
    destruct Hn as [-> | ->]; [|destruct (parseStatusCodeKey k)]; by apply list_elem_of_singleton. }
  split; [|done]. split.
  - intros E k v Hin. destruct (parseStatusCodeKey k) eqn:Ek, (parseStatusCodeMappingTarget v) eqn:Ev; [done|exfalso..];
      specialize (H2 k v Hin); rewrite E, Ek, Ev, elem_of_nil in H2; auto.
  - intros H. clear H2. induction o as [|[k v] o IH]; [done|]. cbn [flat_map fst snd].
    destruct (H k v) as [[a ->] [b ->]]; [by left|]. cbn. apply IH. intros; apply H; by right.
Qed.

Definition sample_mapping : jsstr := $"{" ++ [34] ++ $"504" ++ [34] ++ $": 200, " ++ [34] ++ $"x" ++ [34] ++ $": 1}".

Lemma invalid_entries_exact_witness :
  exists o, mapping_of (Some sample_mapping) = Some o
  /\ $"x → 1" ∈ collectInvalidStatusCodeEntries (Some sample_mapping).
Proof.
  destruct (mapping_of (Some sample_mapping)) as [o|] eqn:E; [|by vm_compute in E].
  exists o. split; [done|].
  assert (Hin : ($"x", VNum n1) ∈ o).
  { vm_compute in E. injection E as <-. apply list_elem_of_In. right; left. by vm_compute. }
  destruct (invalid_entries_exact (Some sample_mapping) o E) as [_ H].
  exact (H $"x" (VNum n1) Hin (or_introl eq_refl)).
Defined.

End StatusCodeRiskGuard.
