(* ===== verification/ClientHelpers.v ===== *)
(** * Small client helpers

    [web/src/helpers/]: [quota.js], [boolean.js], [log.js], [subscriptionFormat.js],
    [data.js], [token.js], [secureApiCall.js]; [getCurrencyConfig] of [render.jsx];
    [hooks/channels/upstreamUpdateUtils.js]; [i18n/language.js]; the reducers of
    [context/User] and [context/Status].  [localStorage] is an explicit property
    list of strings; requests, the page's origin and the translation function are
    parameters. *)
From S2P Require Import Prelude JSNum JSValue Json.
From Stdlib Require Import SpecFloat.
#[local] Open Scope Z_scope.
#[local] Arguments js _ : simpl never.

Module ClientHelpers.

(** ** localStorage *)

Abbreviation storage := (list (jsstr * jsstr)).

Definition getItem (k : jsstr) (st : storage) : option jsstr := prop k st.
Definition setItem (k v : jsstr) (st : storage) : storage := prop_set k v st.
Definition removeItem (k : jsstr) (st : storage) : storage := prop_delete k st.

(** A stored text that is there and not empty. *)
Definition stored (k : jsstr) (st : storage) : option jsstr :=
  match getItem k st with Some (c :: r) => Some (c :: r) | _ => None end.

(** ** quota.js *)

Definition getQuotaPerUnit (st : storage) : num :=
  let raw := parseFloat (default $"1" (stored $"quota_per_unit" st)) in
  if isFinite raw && nltb n0 raw then raw else n1.

Record currency := Currency { symbol : val; rate : val; ctype : jsstr }.

(** [s?.k || d] of the stored status, [fallback] when it is missing or malformed. *)
Definition status_field (st : storage) (k : jsstr) (d fallback : val) : val :=
  match stored $"status" st with
  | Some text =>
    match parse text with
    | Some s => let v := get_any s k in if truthy v then v else d
    | None => fallback
    end
  | None => fallback
  end.

Definition getCurrencyConfig (st : storage) : currency :=
  let quotaDisplayType := default $"USD" (stored $"quota_display_type" st) in
  if quotaDisplayType =s? $"CNY" then
    Currency (VStr $"¥") (status_field st $"usd_exchange_rate" (VNum (of_Z 7)) (VNum n1)) quotaDisplayType
  else if quotaDisplayType =s? $"CUSTOM" then
    Currency (status_field st $"custom_currency_symbol" (VStr $"¤") (VStr $"$"))
      (status_field st $"custom_currency_exchange_rate" (VNum n1) (VNum n1)) quotaDisplayType
  else Currency (VStr $"$") (VNum n1) quotaDisplayType.

(** [Number(v || 0)] *)
Definition number_or_zero (v : val) : num := if truthy v then Number_val v else n0.

(** [rate || 1] *)
Definition rate_or_one (r : val) : num := if truthy r then Number_val r else n1.

Definition quotaToDisplayAmount (st : storage) (quota : val) : num :=
  let q := number_or_zero quota in
  if negb (isFinite q) || neqb q n0 then n0
  else
    let c := getCurrencyConfig st in
    if ctype c =s? $"TOKENS" then q
    else
      let usd := ndiv (nabs q) (getQuotaPerUnit st) in
      if ctype c =s? $"USD" then nmul (nsign q) usd
      else nmul (nmul (nsign q) usd) (rate_or_one (rate c)).

Definition displayAmountToQuota (st : storage) (amount : val) : num :=
  let v := number_or_zero amount in
  if negb (isFinite v) || neqb v n0 then n0
  else
    let c := getCurrencyConfig st in
    if ctype c =s? $"TOKENS" then nround v
    else
      let usd := if ctype c =s? $"USD" then nabs v else ndiv (nabs v) (rate_or_one (rate c)) in
      nmul (nsign v) (nround (nmul usd (getQuotaPerUnit st))).

(** ** boolean.js, log.js, subscriptionFormat.js *)

Definition toBoolean (v : val) : bool :=
  match v with
  | VBool b => b
  | VNum n => neqb n n1
  | VStr s => let l := toLowerCase s in (l =s? $"true") || (l =s? $"1")
  | _ => false
  end.

(** Of a value that is no string [JSON.parse] reads the text. *)
Definition getLogOther (v : val) : val :=
  match v with
  | VUndef | VNull => VObj []
  | VStr [] => VObj []
  | VArr _ | VObj _ => v
  | _ => default VNull (parse (String_val v))
  end.

Section Format.
Variable t : jsstr -> jsstr.

Definition formatSubscriptionResetPeriod (plan : val) : jsstr :=
  let p := get_any plan $"quota_reset_period" in
  if negb (truthy p) || eq_str p $"never" then t $"不重置"
  else if eq_str p $"daily" then t $"每天"
  else if eq_str p $"weekly" then t $"每周"
  else if eq_str p $"monthly" then t $"每月"
  else if eq_str p $"custom" then
    let seconds := number_or_zero (get_any plan $"quota_reset_custom_seconds") in
    let unit d name := String_num (nfloor (ndiv seconds (of_Z d))) ++ $" " ++ t name in
    if nleb (of_Z 86400) seconds then unit 86400 $"天"
    else if nleb (of_Z 3600) seconds then unit 3600 $"小时"
    else if nleb (of_Z 60) seconds then unit 60 $"分钟"
    else String_num seconds ++ $" " ++ t $"秒"
  else t $"不重置".
End Format.

(** ** data.js and the server address of token.js *)

(** [JSON.stringify(v)] as stored: [undefined] is stored as its text. *)
Definition stringified (v : val) : jsstr := default $"undefined" (stringify v).

(** [data] is an object. *)
Definition setStatusData (data : val) (st : storage) : storage :=
  let f k := get_any data k in
  let put k st := setItem k (String_val (f k)) st in
  let st := setItem $"status" (stringified data) st in
  let st := put $"quota_per_unit" (put $"footer_html" (put $"logo" (put $"system_name" st))) in
  let st := put $"display_in_currency" st in
  let st := setItem $"quota_display_type"
              (let v := f $"quota_display_type" in if truthy v then String_val v else $"USD") st in
  let st := put $"enable_data_export" (put $"enable_task" (put $"enable_drawing" st)) in
  let st := setItem $"chats" (stringified (f $"chats")) st in
  let st := put $"mj_notify_enabled" (put $"default_collapse_sidebar" (put $"data_export_default_time" st)) in
  let st := if truthy (f $"chat_link") then st else removeItem $"chat_link" st in
  let st := if truthy (f $"chat_link2") then st else removeItem $"chat_link2" st in
  if truthy (f $"docs_link") then put $"docs_link" st else removeItem $"docs_link" st.

Definition setUserData (data : val) (st : storage) : storage := setItem $"user" (stringified data) st.

Definition getServerAddress (origin : jsstr) (st : storage) : val :=
  let serverAddress :=
    match stored $"status" st with
    | Some text =>
      match parse text with
      | Some s => match get_or_throw s $"server_address" with
                  | Ret v => if truthy v then v else VStr []
                  | Throw => VStr []
                  end
      | None => VStr []
      end
    | None => VStr []
    end in
  if truthy serverAddress then serverAddress else VStr origin.

(** ** token.js *)

(** [data] of a response, or a rejected promise. *)
Abbreviation reply := (option val).

(** [response.data || {}] *)
Definition reply_data (v : val) : val := if truthy v then v else VObj [].

Definition fetchTokenKey (post : jsstr -> reply) (tokenId : val) : outcome val :=
  match post ($"/api/token/" ++ String_val tokenId ++ $"/key") with
  | None => Throw
  | Some r =>
    let d := reply_data r in
    let data := get_any d $"data" in
    if negb (truthy (get_any d $"success")) || is_nullish data || negb (truthy (get_any data $"key"))
    then Throw else Ret (get_any data $"key")
  end.

Definition fetchTokenKeysBatch (post : list val -> reply) (tokenIds : list val) : outcome val :=
  match post tokenIds with
  | None => Throw
  | Some r =>
    let d := reply_data r in
    let data := get_any d $"data" in
    if negb (truthy (get_any d $"success")) || is_nullish data || negb (truthy (get_any data $"keys"))
    then Throw else Ret (get_any data $"keys")
  end.

(** [tokenItems.filter((token) => token.status === 1)] *)
Fixpoint active_tokens (l : list val) : outcome (list val) :=
  match l with
  | [] => Ret []
  | tk :: r =>
    bind_outcome (get_or_throw tk $"status") (fun s =>
      bind_outcome (active_tokens r) (fun rest =>
        Ret (if (match s with VNum n => neqb n n1 | _ => false end) then tk :: rest else rest)))
  end.

(** [Promise.allSettled], then the values of the fulfilled ones. *)
Definition settled_keys (post : jsstr -> reply) (l : list val) : list val :=
  flat_map (fun tk => match fetchTokenKey post (get_any tk $"id") with
                      | Ret v => if truthy v then [v] else []
                      | Throw => []
                      end) l.

Definition fetchTokenKeys (list_reply : reply) (post : jsstr -> reply) : list val :=
  catch
    (match list_reply with
     | None => Throw
     | Some r =>
       bind_outcome (get_or_throw r $"success") (fun success =>
         if negb (truthy success) then Throw
         else
           let data := get_any r $"data" in
           let items :=
             match data with
             | VArr l => Ret (VArr l)
             | _ => bind_outcome (get_or_throw data $"items") (fun i => Ret (if truthy i then i else VArr []))
             end in
           bind_outcome items (fun i =>
             match i with
             | VArr l => bind_outcome (active_tokens l) (fun a => Ret (settled_keys post a))
             | _ => Throw
             end))
     end) [].

Definition CHANNEL_CONN_CLIPBOARD_TYPE : jsstr := $"newapi_channel_conn".

Definition connection_object (key url : jsstr) : object :=
  [($"_type", VStr CHANNEL_CONN_CLIPBOARD_TYPE); ($"key", VStr key); ($"url", VStr url)].

Definition encodeChannelConnectionString (key url : jsstr) : jsstr :=
  default [] (stringify (VObj (connection_object key url))).

Definition parseChannelConnectionString (text : jsstr) : option (jsstr * jsstr) :=
  if nonempty text then
    match parse (trim text) with
    | Some v =>
      if truthy v && is_object v && eq_str (get_any v $"_type") CHANNEL_CONN_CLIPBOARD_TYPE then
        match get_any v $"key", get_any v $"url" with
        | VStr key, VStr url => Some (key, url)
        | _, _ => None
        end
      else None
    | None => None
    end
  else None.

(** ** secureApiCall.js *)

Definition verificationCodes : list jsstr :=
  [$"VERIFICATION_REQUIRED"; $"VERIFICATION_EXPIRED"; $"VERIFICATION_INVALID"].

Definition isVerificationRequiredError (error : val) : bool :=
  let response := get_any error $"response" in
  if negb (truthy response) then false
  else
    let data := get_any response $"data" in
    if (match get_any response $"status" with VNum n => neqb n (of_Z 403) | _ => false end) && truthy data
    then existsb (eq_str (get_any data $"code")) verificationCodes
    else false.

Record verification_info := VerificationInfo { vcode : val; vmessage : val; vrequired : bool }.

Definition extractVerificationInfo (error : val) : verification_info :=
  let d := get_any (get_any error $"response") $"data" in
  let data := if truthy d then d else VObj [] in
  let m := get_any data $"message" in
  VerificationInfo (get_any data $"code") (if truthy m then m else VStr $"需要安全验证") true.

(** ** upstreamUpdateUtils.js *)

Definition normalize_names (l : list val) : list jsstr :=
  uniq (filter_Boolean (map (fun v => trim (if truthy v then String_val v else [])) l)).

(** [(models || []).map] throws on a value that is no array. *)
Definition normalizeModelList (models : val) : outcome (list jsstr) :=
  match models with
  | VArr l => Ret (normalize_names l)
  | _ => if truthy models then Throw else Ret []
  end.

Record update_meta := UpdateMeta {
  um_enabled : bool; pendingAddModels : list jsstr; pendingRemoveModels : list jsstr }.

Definition parseUpstreamUpdateMeta (settings : val) : outcome update_meta :=
  let parsed :=
    if truthy settings && is_object settings then settings
    else match settings with VStr s => default VNull (parse s) | _ => VNull end in
  if negb (truthy parsed) || negb (is_object parsed) then Ret (UpdateMeta false [] [])
  else
    bind_outcome (normalizeModelList (get_any parsed $"upstream_model_update_last_detected_models")) (fun a =>
      bind_outcome (normalizeModelList (get_any parsed $"upstream_model_update_last_removed_models")) (fun r =>
        Ret (UpdateMeta (eq_bool (get_any parsed $"upstream_model_update_check_enabled") true) a r))).

(** ** language.js *)

Definition supportedLanguages : list jsstr :=
  [$"zh-CN"; $"zh-TW"; $"en"; $"fr"; $"ru"; $"ja"; $"vi"].

Definition underscores (s : jsstr) : jsstr := map (fun c => if c =? 95 then 45 else c) s.

Definition normalizeLanguage (language : jsstr) : jsstr :=
  if nonempty language then
    let normalized := underscores (trim language) in
    let lower := toLowerCase normalized in
    if (lower =s? $"zh") || (lower =s? $"zh-cn") || (lower =s? $"zh-sg") || startsWith $"zh-hans" lower
    then $"zh-CN"
    else if (lower =s? $"zh-tw") || (lower =s? $"zh-hk") || (lower =s? $"zh-mo") || startsWith $"zh-hant" lower
    then $"zh-TW"
    else default normalized (List.find (fun s => toLowerCase s =s? lower) supportedLanguages)
  else language.

(** ** The user and status contexts *)

Inductive user_action := Login (payload : val) | Logout | OtherUser.
Inductive status_action := SetStatus (payload : val) | UnsetStatus | OtherStatus.

(** The state is the one field [user] (or [status]). *)
Definition user_reducer (user : val) (a : user_action) : val :=
  match a with Login p => p | Logout => VUndef | OtherUser => user end.

Definition status_reducer (status : val) (a : status_action) : val :=
  match a with SetStatus p => p | UnsetStatus => VUndef | OtherStatus => status end.

(** * Theorems *)

(** ** Signs *)

Lemma round_aux_opp s m e l :
  binary_round_aux 53 1024 (negb s) m e l = SFopp (binary_round_aux 53 1024 s m e l).
Proof.
  unfold binary_round_aux. destruct (shr_fexp _ _ _ _ _) as [mrs' e'].
  destruct (shr_fexp _ _ _ e' _) as [mrs'' e'']. destruct (shr_m mrs''); try done. by case_match.
Qed.

Lemma nmul_opp_l x y : nmul (nopp x) y = nopp (nmul x y).
Proof.
  unfold nmul, nopp. destruct x as [sx|sx| |sx mx ex], y as [sy|sy| |sy my ey]; cbn [SFopp SFmul]; try done;
    try (by rewrite <- negb_xorb_l).
  rewrite <- negb_xorb_l. apply round_aux_opp.
Qed.

Lemma nsign_opp x : isFinite x = true -> neqb x n0 = false -> nsign (nopp x) = nopp (nsign x).
Proof. by destruct x as [[]|[]| |[] m e]. Qed.

Lemma nabs_opp x : nabs (nopp x) = nabs x.
Proof. by destruct x. Qed.

Lemma neqb_opp_zero x : neqb (nopp x) n0 = neqb x n0.
Proof. by destruct x as [[]|[]| |[] m e]. Qed.

Lemma number_of_num x : neqb x n0 = false -> isFinite x = true -> number_or_zero (VNum x) = x.
Proof. by destruct x as [[]|[]| |[] m e]. Qed.

(** Showing a quota is an odd function: the amount of the negated quota is the
    negated amount, in every currency. *)
Theorem display_amount_odd st q :
  isFinite q = true -> neqb q n0 = false ->
  quotaToDisplayAmount st (VNum (nopp q)) = nopp (quotaToDisplayAmount st (VNum q)).
Proof.
  intros Hf Hz. unfold quotaToDisplayAmount.
  assert (Hf' : isFinite (nopp q) = true) by (by destruct q).
  rewrite !number_of_num by (by rewrite ?neqb_opp_zero).
  rewrite neqb_opp_zero, Hz, Hf, Hf', nabs_opp, nsign_opp by done. cbn [negb orb].
  destruct (_ =s? _); [done|]. destruct (_ =s? _); by rewrite !nmul_opp_l.
Qed.

(** The same for reading an amount as a quota, unless quotas are shown as token
    numbers (where halves are rounded upwards). *)
Theorem amount_to_quota_odd st v :
  isFinite v = true -> neqb v n0 = false -> ctype (getCurrencyConfig st) <> $"TOKENS" ->
  displayAmountToQuota st (VNum (nopp v)) = nopp (displayAmountToQuota st (VNum v)).
Proof.
  intros Hf Hz Ht%str_eqb_neq. unfold displayAmountToQuota.
  assert (Hf' : isFinite (nopp v) = true) by (by destruct v).
  rewrite !number_of_num by (by rewrite ?neqb_opp_zero).
  rewrite neqb_opp_zero, Hz, Hf, Hf', nabs_opp, nsign_opp, Ht by done. cbn [negb orb].
  by rewrite nmul_opp_l.
Qed.

(** ** Connection strings *)

Lemma connection_wf key url :
  Forall unit16 key -> Forall unit16 url -> json_wf (VObj (connection_object key url)).
Proof.
  intros Hk Hu. apply (json_wf_plain (keys (connection_object key url))); [by vm_compute|done|].
  repeat (constructor; [cbn [snd json_wf]; first [done|by apply unit16_check; vm_compute]|]). constructor.
Qed.

(** A copied connection string is parsed back to its key and address. *)
Theorem connection_roundtrip key url :
  Forall unit16 key -> Forall unit16 url ->
  parseChannelConnectionString (encodeChannelConnectionString key url) = Some (key, url).
Proof.
  intros Hk Hu. pose proof (connection_wf key url Hk Hu) as Hw.
  unfold encodeChannelConnectionString, parseChannelConnectionString, stringify.
  destruct (ser_Some [] [] _ Hw) as [text E]. rewrite E. cbn [default from_option id].
  rewrite trim_id by (by eapply ser_edges).
  rewrite (parse_stringify _ _ Hw E).
  destruct (ser_head _ _ _ _ Hw E) as (c & tl & -> & _). done.
Qed.

(** ** The status in the local storage *)

Lemma stored_other k v k' st : k' <> k -> stored k' (setItem k v st) = stored k' st.
Proof. intros H. unfold stored, getItem, setItem. by rewrite prop_set_ne. Qed.

Lemma stored_removed k k' st : k' <> k -> stored k' (removeItem k st) = stored k' st.
Proof.
  intros H. unfold stored, getItem, removeItem. rewrite prop_delete_lookup. by destruct (str_eqb_spec k' k).
Qed.

Lemma stored_status data st :
  stored $"status" (setStatusData data st) = stored $"status" (setItem $"status" (stringified data) st).
Proof.
  unfold setStatusData. repeat case_match;
    repeat first [rewrite stored_other by (by vm_compute) | rewrite stored_removed by (by vm_compute)]; done.
Qed.

(** After [setStatusData] the server address is that of the stored status, or
    the page's origin when the status has none. *)
Theorem status_server_address o st origin :
  json_wf (VObj o) ->
  getServerAddress origin (setStatusData (VObj o) st)
  = if truthy (get_any (VObj o) $"server_address") then get_any (VObj o) $"server_address" else VStr origin.
Proof.
  intros Hw. unfold getServerAddress. rewrite stored_status.
  destruct (ser_Some [] [] _ Hw) as [text E].
  destruct (ser_head _ _ _ _ Hw E) as (c & tl & -> & _).
  assert (stored $"status" (setItem $"status" (stringified (VObj o)) st) = Some (c :: tl)) as ->.
  { unfold stored, getItem, setItem, stringified, stringify. by rewrite prop_set_eq, E. }
  rewrite (parse_stringify _ _ Hw E). unfold get_or_throw. cbn [is_nullish].
  destruct (truthy (get_any (VObj o) $"server_address")) eqn:Et; by rewrite ?Et.
Qed.

(** ** Normal forms *)

Lemma normalize_names_spec l :
  NoDup (normalize_names l) /\ Forall (fun s => s <> [] /\ trim s = s) (normalize_names l).
Proof.
  split; [apply NoDup_uniq|]. apply Forall_forall. intros s Hs.
  unfold normalize_names in Hs. rewrite elem_of_uniq in Hs. unfold filter_Boolean in Hs.
  apply elem_of_lfilter in Hs as [Hin Hn]. rewrite list_elem_of_In, in_map_iff in Hin.
  destruct Hin as (v & <- & _). split; [by destruct (trim _)|apply trim_idem].
Qed.

(** The normalized list of pending models has no duplicates, only trimmed,
    non-empty names, and normalizing it again changes nothing. *)
Theorem normalize_models_normal l :
  NoDup (normalize_names l) /\ Forall (fun s => s <> [] /\ trim s = s) (normalize_names l)
  /\ normalizeModelList (VArr (map VStr (normalize_names l))) = Ret (normalize_names l).
Proof.
  destruct (normalize_names_spec l) as [Hd Hf]. split; [done|]. split; [done|]. cbn. f_equal.
  generalize dependent (normalize_names l). intros ns Hd Hf. unfold normalize_names.
  assert (filter_Boolean (map (fun v => trim (if truthy v then String_val v else [])) (map VStr ns)) = ns) as ->.
  { induction Hf as [|s ns [Hn Ht] Hf IH]; [done|]. apply NoDup_cons in Hd as [_ Hd].
    cbn [map truthy String_val]. assert ((if nonempty s then s else []) = s) as -> by (by destruct s).
    rewrite Ht. unfold filter_Boolean in *. cbn [List.filter]. destruct s; [done|]. cbn [nonempty]. by rewrite IH. }
  by apply uniq_NoDup.
Qed.

Lemma underscores_edges s : edges_ok s = true -> edges_ok (underscores s) = true.
Proof.
  assert (Hw : forall c, is_ws c = false -> is_ws (if c =? 95 then 45 else c) = false).
  { intros c Hc. by destruct (Z.eqb_spec c 95). }
  destruct s as [|c s]; [done|]. unfold edges_ok. cbn [underscores map].
  intros H. bsplit. apply andb_true_iff. split; [apply negb_true_iff; by apply Hw|].
  apply negb_true_iff. destruct (exists_last (l := c :: s) ltac:(done)) as (l & x & E).
  change ((if c =? 95 then 45 else c) :: map (fun c => if c =? 95 then 45 else c) s) with (underscores (c :: s)).
  rewrite E in *. unfold underscores. rewrite map_app. cbn [map]. rewrite List.last_last in *. by apply Hw.
Qed.

Lemma underscores_idem s : underscores (underscores s) = underscores s.
Proof. unfold underscores. rewrite map_map. apply map_ext. intros c. destruct (Z.eqb_spec c 95); [done|]. by destruct (Z.eqb_spec c 95). Qed.

Lemma supported_fixed x : In x supportedLanguages -> normalizeLanguage x = x.
Proof.
  intros Hx. apply str_eqb_eq. revert x Hx. apply (proj1 (forallb_forall (fun x => normalizeLanguage x =s? x) _)).
  vm_compute. reflexivity.
Qed.

(** Normalizing a language tag twice is normalizing it once. *)
Theorem normalizeLanguage_idempotent l : normalizeLanguage (normalizeLanguage l) = normalizeLanguage l.
Proof.
  destruct l as [|c l]; [done|]. set (s := c :: l).
  assert (Hs : normalizeLanguage s
    = let normalized := underscores (trim s) in
      let lower := toLowerCase normalized in
      if (lower =s? $"zh") || (lower =s? $"zh-cn") || (lower =s? $"zh-sg") || startsWith $"zh-hans" lower
      then $"zh-CN"
      else if (lower =s? $"zh-tw") || (lower =s? $"zh-hk") || (lower =s? $"zh-mo") || startsWith $"zh-hant" lower
      then $"zh-TW"
      else default normalized (List.find (fun s => toLowerCase s =s? lower) supportedLanguages)) by done.
  rewrite Hs. cbn zeta. destruct (_ || startsWith $"zh-hans" _)%bool eqn:E1; [by vm_compute|].
  destruct (_ || startsWith $"zh-hant" _)%bool eqn:E2; [by vm_compute|].
  destruct (List.find _ supportedLanguages) as [x|] eqn:E3; cbn [default from_option id].
  - apply List.find_some in E3 as [Hin _]. by apply supported_fixed.
  - set (n := underscores (trim s)) in *.
    assert (Hn : underscores (trim n) = n).
    { unfold n. rewrite (trim_id (underscores (trim s))) by apply underscores_edges, trim_edges.
      apply underscores_idem. }
    clearbody n. unfold normalizeLanguage. rewrite Hn, E1, E2, E3. by destruct n.
Qed.

(** ** Instances *)

Lemma display_amount_odd_witness :
  quotaToDisplayAmount [($"quota_per_unit", $"500000")] (VNum (nopp (of_Z 250000)))
  = nopp (quotaToDisplayAmount [($"quota_per_unit", $"500000")] (VNum (of_Z 250000))).
Proof. apply (display_amount_odd [($"quota_per_unit", $"500000")] (of_Z 250000)); by vm_compute. Defined.

Lemma amount_to_quota_odd_witness :
  displayAmountToQuota [] (VNum (nopp n2)) = nopp (displayAmountToQuota [] (VNum n2)).
Proof. apply (amount_to_quota_odd [] n2); by vm_compute. Defined.

Lemma connection_roundtrip_witness :
  parseChannelConnectionString (encodeChannelConnectionString $"sk-1" $"https://x") = Some ($"sk-1", $"https://x").
Proof.
  apply (connection_roundtrip $"sk-1" $"https://x"); js_lit; repeat (constructor; [unfold unit16; lia|]); done.
Defined.

Lemma status_server_address_witness :
  getServerAddress $"http://origin" (setStatusData (VObj [($"server_address", VStr $"http://s")]) [])
  = VStr $"http://s".
Proof.
  rewrite (status_server_address [($"server_address", VStr $"http://s")] [] $"http://origin"); [by vm_compute|].
  split; [by vm_compute|]. js_lit. split; [repeat (constructor; [unfold unit16; lia|]); done|].
  split; [|done]. cbn. repeat (constructor; [unfold unit16; lia|]). done.
Defined.

End ClientHelpers.
