(* ===== verification/Passkey.v ===== *)
(** * Base64, passkeys and the verification flow

    [web/src/helpers/base64.js], [web/src/helpers/passkey.js] and
    [web/src/services/secureVerification.js].  Buffers are lists of bytes; [btoa]
    and [atob] follow the platform's definition (forgiving decode); the API and the
    authenticator are parameters. *)
From S2P Require Import Prelude JSNum JSValue.
#[local] Open Scope Z_scope.
#[local] Arguments js _ : simpl never.
#[local] Set Warnings "-register-all".

Module Base64.

(** ** The platform's functions *)

Definition b64char (i : Z) : Z :=
  if i <? 26 then 65 + i
  else if i <? 52 then 97 + (i - 26)
  else if i <? 62 then 48 + (i - 52)
  else if i =? 62 then 43 else 47.

Definition b64value (c : Z) : option Z :=
  if (65 <=? c) && (c <=? 90) then Some (c - 65)
  else if (97 <=? c) && (c <=? 122) then Some (c - 97 + 26)
  else if (48 <=? c) && (c <=? 57) then Some (c - 48 + 52)
  else if c =? 43 then Some 62
  else if c =? 47 then Some 63
  else None.

(** Bytes to sextets and back; a last incomplete group keeps two or three. *)
Fixpoint sextets (b : list Z) : list Z :=
  match b with
  | x :: y :: z :: r => x / 4 :: (x mod 4) * 16 + y / 16 :: (y mod 16) * 4 + z / 64 :: z mod 64 :: sextets r
  | [x; y] => [x / 4; (x mod 4) * 16 + y / 16; (y mod 16) * 4]
  | [x] => [x / 4; (x mod 4) * 16]
  | [] => []
  end.

Fixpoint of_sextets (l : list Z) : list Z :=
  match l with
  | a :: b :: c :: d :: r => a * 4 + b / 16 :: (b mod 16) * 16 + c / 4 :: (c mod 4) * 64 + d :: of_sextets r
  | [a; b; c] => [a * 4 + b / 16; (b mod 16) * 16 + c / 4]
  | [a; b] => [a * 4 + b / 16]
  | _ => []
  end.

(** [(4 - (n % 4)) % 4] times the sign of equality. *)
Definition padding (n : nat) : jsstr := repeat 61 ((4 - n mod 4) mod 4).

Definition btoa (b : list Z) : jsstr :=
  let s := map b64char (sextets b) in s ++ padding (length s).

Definition ascii_ws (c : Z) : bool := (c =? 9) || (c =? 10) || (c =? 12) || (c =? 13) || (c =? 32).

(** Remove up to [n] trailing signs of equality. *)
Fixpoint drop_pad (n : nat) (r : jsstr) : jsstr :=
  match n, r with
  | S k, 61 :: t => drop_pad k t
  | _, _ => r
  end.

Fixpoint values (s : jsstr) : option (list Z) :=
  match s with
  | [] => Some []
  | c :: r => match b64value c, values r with Some v, Some l => Some (v :: l) | _, _ => None end
  end.

(** [None]: an InvalidCharacterError is thrown. *)
Definition atob (s : jsstr) : option (list Z) :=
  let t := List.filter (fun c => negb (ascii_ws c)) s in
  let u := if (length t mod 4 =? 0)%nat then rev (drop_pad 2 (rev t)) else t in
  if (length u mod 4 =? 1)%nat then None
  else match values u with Some l => Some (of_sextets l) | None => None end.

(** ** base64.js *)

Definition is_high (c : Z) : bool := (55296 <=? c) && (c <=? 56319).
Definition is_low (c : Z) : bool := (56320 <=? c) && (c <=? 57343).

(** UTF-8 bytes of a code point. *)
Definition utf8 (cp : Z) : list Z :=
  if cp <? 128 then [cp]
  else if cp <? 2048 then [192 + cp / 64; 128 + cp mod 64]
  else if cp <? 65536 then [224 + cp / 4096; 128 + (cp / 64) mod 64; 128 + cp mod 64]
  else [240 + cp / 262144; 128 + (cp / 4096) mod 64; 128 + (cp / 64) mod 64; 128 + cp mod 64].

(** [TextEncoder]: a lone surrogate becomes U+FFFD. *)
Fixpoint encode_text (s : jsstr) : list Z :=
  match s with
  | [] => []
  | c :: r =>
    if is_high c then
      match r with
      | d :: r' => if is_low d then utf8 (65536 + (c - 55296) * 1024 + (d - 56320)) ++ encode_text r'
                   else utf8 65533 ++ encode_text r
      | [] => utf8 65533
      end
    else if is_low c then utf8 65533 ++ encode_text r
    else utf8 c ++ encode_text r
  end.

Definition toBinaryString (text : jsstr) : list Z := encode_text text.

Definition encodeToBase64 (value : val) : jsstr :=
  let input := if is_nullish value then [] else String_val value in
  btoa (toBinaryString input).

(** ** The buffers of passkey.js *)

Definition to_url (c : Z) : Z := if c =? 43 then 45 else if c =? 47 then 95 else c.
Definition of_url (c : Z) : Z := if c =? 45 then 43 else if c =? 95 then 47 else c.

(** [s.replace(/=+$/g, '')] *)
Fixpoint drop_eq (r : jsstr) : jsstr :=
  match r with 61 :: t => drop_eq t | _ => r end.

Definition base64UrlToBuffer (s : jsstr) : option (list Z) :=
  if nonempty s then atob (map of_url (s ++ padding (length s))) else Some [].

Definition bufferToBase64Url (b : list Z) : jsstr :=
  rev (drop_eq (rev (map to_url (btoa b)))).

(** * Theorems *)

Definition byte (x : Z) : Prop := 0 <= x < 256.
Definition sextet (x : Z) : Prop := 0 <= x < 64.

(** Induction in steps of three. *)
Lemma list_ind3 (P : list Z -> Prop) :
  P [] -> (forall x, P [x]) -> (forall x y, P [x; y]) ->
  (forall x y z r, P r -> P (x :: y :: z :: r)) -> forall l, P l.
Proof.
  intros H0 H1 H2 H3. fix IH 1. intros [|x [|y [|z r]]]; [done|apply H1|apply H2|]. apply H3, IH.
Qed.

Ltac bytes :=
  repeat match goal with H : Forall _ (_ :: _) |- _ => apply Forall_cons_1 in H as [? H] end;
  unfold byte, sextet in *.

Lemma sextets_bound b : Forall byte b -> Forall sextet (sextets b).
Proof.
  induction b as [|x|x y|x y z r IH] using list_ind3; intros H; cbn [sextets]; bytes;
    repeat (constructor; [Z.div_mod_to_equations; lia|]); auto.
Qed.

Lemma of_sextets_sextets b : Forall byte b -> of_sextets (sextets b) = b.
Proof.
  induction b as [|x|x y|x y z r IH] using list_ind3; intros H; cbn [sextets of_sextets]; bytes;
    rewrite ?IH by done; repeat f_equal; Z.div_mod_to_equations; lia.
Qed.

(** The facts about the 64 characters, by enumeration. *)
Definition char_facts (i : Z) : bool :=
  bool_decide (b64value (b64char i) = Some i) && negb (b64char i =? 61) && negb (ascii_ws (b64char i))
  && (of_url (to_url (b64char i)) =? b64char i) && negb (to_url (b64char i) =? 61).

Lemma char_facts_ok i : sextet i -> char_facts i = true.
Proof.
  intros Hi. assert (H : forallb char_facts (map Z.of_nat (seq 0 64)) = true) by (by vm_compute).
  rewrite forallb_forall in H. apply H, in_map_iff. exists (Z.to_nat i). unfold sextet in Hi.
  split; [lia|]. apply in_seq. lia.
Qed.

Lemma values_chars l : Forall sextet l -> values (map b64char l) = Some l.
Proof.
  induction 1 as [|i l Hi Hl IH]; cbn [map values]; [done|]. pose proof (char_facts_ok i Hi) as Hc.
  unfold char_facts in Hc. bsplit. rewrite IH. apply bool_decide_eq_true in H. by rewrite H.
Qed.

Lemma sextets_length b : (length (sextets b) mod 4 <> 1)%nat.
Proof.
  induction b as [|x|x y|x y z r IH] using list_ind3; cbn [sextets length]; try done.
  replace (S (S (S (S (length (sextets r)))))) with (length (sextets r) + 1 * 4)%nat by lia.
  by rewrite Nat.Div0.mod_add.
Qed.

Lemma padding_total n : ((n + length (padding n)) mod 4 = 0)%nat /\ (n mod 4 <> 1 -> length (padding n) <= 2)%nat.
Proof.
  unfold padding. rewrite repeat_length. pose proof (Nat.mod_upper_bound n 4 ltac:(done)).
  pose proof (Nat.div_mod_eq n 4) as Hn. remember (n mod 4)%nat as k eqn:Ek.
  assert (exists q, n + (4 - k) mod 4 = q * 4)%nat as [q Hq].
  { destruct k as [|[|[|[|k]]]]; [exists (n / 4)%nat|exists (n / 4 + 1)%nat..|lia];
      match goal with |- (n + ?x = _)%nat => let v := eval vm_compute in x in change x with v end; lia. }
  split; [rewrite Hq; apply Nat.Div0.mod_mul|]. intros H1.
  destruct k as [|[|[|[|k]]]]; try lia; vm_compute; lia.
Qed.

Lemma drop_pad_repeat n k r :
  (k <= n)%nat -> hd 0 r <> 61 -> drop_pad n (repeat 61 k ++ r) = r.
Proof.
  revert n; induction k as [|k IH]; intros n Hk Hr; cbn [repeat app].
  - destruct n; [done|]. cbn. destruct r as [|c r]; [done|]. cbn in Hr.
    destruct c as [|p|p]; try done. repeat (destruct p as [p|p|]; try done).
  - destruct n as [|n]; [lia|]. cbn. apply IH; [lia|done].
Qed.

Lemma drop_eq_repeat k r : hd 0 r <> 61 -> drop_eq (repeat 61 k ++ r) = r.
Proof.
  intros Hr. induction k as [|k IH]; cbn [repeat app]; [|exact IH].
  destruct r as [|c r]; [done|]. cbn in Hr. cbn. destruct c as [|p|p]; try done.
  repeat (destruct p as [p|p|]; try done).
Qed.

Lemma rev_repeat (x : Z) n : rev (repeat x n) = repeat x n.
Proof. induction n as [|n IH]; [done|]. cbn. rewrite IH. symmetry. apply repeat_cons. Qed.

Lemma hd_rev_not_eq (l : jsstr) : Forall (fun c => c <> 61) l -> hd 0 (rev l) <> 61.
Proof.
  intros H. destruct l as [|c l _] using rev_ind; [done|]. rewrite rev_app_distr. cbn.
  apply Forall_app in H as [_ H]. by inversion_clear H.
Qed.

Lemma chars_not_pad l : Forall sextet l -> Forall (fun c => c <> 61) (map b64char l).
Proof.
  induction 1 as [|i l Hi Hl IH]; cbn; constructor; [|done].
  pose proof (char_facts_ok i Hi) as Hc. unfold char_facts in Hc. bsplit. by apply Z.eqb_neq.
Qed.

Lemma chars_no_ws l : Forall sextet l -> List.filter (fun c => negb (ascii_ws c)) (map b64char l) = map b64char l.
Proof.
  induction 1 as [|i l Hi Hl IH]; cbn; [done|].
  pose proof (char_facts_ok i Hi) as Hc. unfold char_facts in Hc. bsplit.
  match goal with H : ascii_ws _ = false |- _ => rewrite H end. cbn. by rewrite IH.
Qed.

Lemma filter_pad k : List.filter (fun c => negb (ascii_ws c)) (repeat 61 k) = repeat 61 k.
Proof. induction k as [|k IH]; cbn; [done|]. by rewrite IH. Qed.

Lemma map_pad f k : f 61 = 61 -> map f (repeat 61 k) = repeat 61 k.
Proof. intros Hf. induction k as [|k IH]; cbn; [done|]. by rewrite Hf, IH. Qed.

(** [atob] undoes [btoa]. *)
Lemma atob_btoa b : Forall byte b -> atob (btoa b) = Some b.
Proof.
  intros Hb. pose proof (sextets_bound b Hb) as Hs. unfold atob, btoa. cbn zeta.
  set (s := map b64char (sextets b)). assert (Hl : length s = length (sextets b)) by apply length_map.
  destruct (padding_total (length s)) as [Ht Hp].
  assert (Hp2 : (length (padding (length s)) <= 2)%nat) by (apply Hp; rewrite Hl; apply sextets_length).
  assert (List.filter (fun c => negb (ascii_ws c)) (s ++ padding (length s)) = s ++ padding (length s)) as ->.
  { rewrite List.filter_app. unfold s at 1. rewrite chars_no_ws by done. fold s. f_equal. apply filter_pad. }
  rewrite length_app, Ht. cbn [Nat.eqb]. rewrite rev_app_distr. unfold padding. rewrite rev_repeat.
  rewrite drop_pad_repeat.
  - rewrite rev_involutive, Hl. destruct (Nat.eqb_spec (length (sextets b) mod 4) 1) as [E|_].
    + by apply sextets_length in E.
    + subst s. rewrite values_chars by done. by rewrite of_sextets_sextets.
  - unfold padding in Hp2. by rewrite repeat_length in Hp2.
  - by apply hd_rev_not_eq, chars_not_pad.
Qed.

Lemma map_to_url_not_pad l : Forall sextet l -> Forall (fun c => c <> 61) (map to_url (map b64char l)).
Proof.
  induction 1 as [|i l Hi Hl IH]; cbn; constructor; [|done].
  pose proof (char_facts_ok i Hi) as Hc. unfold char_facts in Hc. bsplit. by apply Z.eqb_neq.
Qed.

Lemma of_to_url l : Forall sextet l -> map of_url (map to_url (map b64char l)) = map b64char l.
Proof.
  induction 1 as [|i l Hi Hl IH]; cbn; [done|].
  pose proof (char_facts_ok i Hi) as Hc. unfold char_facts in Hc. bsplit.
  match goal with H : (_ =? _) = true |- _ => apply Z.eqb_eq in H; rewrite H end. by rewrite IH.
Qed.

Lemma url_text b : Forall byte b -> bufferToBase64Url b = map to_url (map b64char (sextets b)).
Proof.
  intros Hb. unfold bufferToBase64Url, btoa. cbn zeta. rewrite map_app, rev_app_distr.
  assert (E : map to_url (padding (length (map b64char (sextets b)))) = padding (length (map b64char (sextets b)))).
  { by apply map_pad. }
  rewrite E. unfold padding. rewrite rev_repeat, drop_eq_repeat; [apply rev_involutive|].
  by apply hd_rev_not_eq, map_to_url_not_pad, sextets_bound.
Qed.

Lemma base64url_decodes b : Forall byte b -> base64UrlToBuffer (bufferToBase64Url b) = Some b.
Proof.
  intros Hb. pose proof (sextets_bound b Hb) as Hs. rewrite url_text by done. unfold base64UrlToBuffer.
  destruct (nonempty (map to_url (map b64char (sextets b)))) eqn:En.
  - rewrite map_app, of_to_url, length_map by done. pose proof (atob_btoa b Hb) as E. unfold btoa in E.
    cbn zeta in E. rewrite <- E. f_equal. f_equal. by apply map_pad.
  - destruct b as [|x [|y [|z r]]]; done.
Qed.

(** A buffer is recovered from its base64url text, for every sequence of bytes. *)
Theorem base64url_roundtrip b : Forall byte b -> base64UrlToBuffer (bufferToBase64Url b) = Some b.
Proof. apply base64url_decodes. Qed.

Lemma utf8_bytes cp : 0 <= cp < 1114112 -> Forall byte (utf8 cp).
Proof.
  intros H. unfold utf8. destruct (Z.ltb_spec cp 128); [|destruct (Z.ltb_spec cp 2048); [|destruct (Z.ltb_spec cp 65536)]];
    repeat (constructor; [unfold byte; Z.div_mod_to_equations; lia|]); constructor.
Qed.

Lemma encode_text_bytes s : Forall (fun c => 0 <= c < 65536) s -> Forall byte (encode_text s).
Proof.
  remember (length s) as n eqn:En. revert s En.
  induction n as [n IH] using lt_wf_ind. intros s -> H. destruct s as [|c r]; cbn [encode_text]; [constructor|].
  apply Forall_cons_1 in H as [Hc H].
  assert (Hr : Forall byte (encode_text r)) by (apply (IH (length r)); [cbn; lia|done|done]).
  assert (Hf : Forall byte (utf8 65533)) by (apply utf8_bytes; lia).
  destruct (is_high c) eqn:Eh; [|destruct (is_low c); apply Forall_app; split; auto; apply utf8_bytes; lia].
  destruct r as [|d r']; [done|]. destruct (is_low d) eqn:El; [|apply Forall_app; by split].
  apply Forall_cons_1 in H as [Hd H]. apply Forall_app. split.
  - apply utf8_bytes. unfold is_high, is_low in *. lia.
  - apply (IH (length r')); [cbn; lia|done|done].
Qed.

(** The base64 text of a string decodes to the UTF-8 bytes of the string. *)
Theorem base64_decodes_to_utf8 s :
  Forall (fun c => 0 <= c < 65536) s -> atob (encodeToBase64 (VStr s)) = Some (encode_text s).
Proof. intros H. apply atob_btoa. by apply encode_text_bytes. Qed.

Lemma base64url_roundtrip_witness :
  base64UrlToBuffer (bufferToBase64Url [255; 239; 0; 251]) = Some [255; 239; 0; 251].
Proof. apply base64url_roundtrip. repeat (constructor; [unfold byte; lia|]). constructor. Defined.

Lemma base64_decodes_to_utf8_witness : atob (encodeToBase64 (VStr $"é€")) = Some (encode_text $"é€").
Proof. apply (base64_decodes_to_utf8 $"é€"). js_lit. repeat (constructor; [lia|]). constructor. Defined.

End Base64.

Module Passkey.
Import Base64.

(** ** passkey.js *)

(** The options handed to the authenticator: values read from JSON, with buffers in
    the places where the code decodes them. *)
Inductive bval : Type :=
| Plain (v : val)
| Buffer (b : list Z)
| Items (l : list bval)
| Fields (o : list (jsstr * bval)).

Definition plain_props (v : val) : list (jsstr * bval) := map (fun kv => (kv.1, Plain kv.2)) (entries v).

(** [base64UrlToBuffer] on any value: a falsy one gives the empty buffer; only
    strings and arrays have a length, and the text of an object is never base64. *)
Definition toBuffer (v : val) : outcome (list Z) :=
  let decode s := match atob (map of_url s) with Some b => Ret b | None => Throw end in
  if negb (truthy v) then Ret [] else
  match v with
  | VStr s => match base64UrlToBuffer s with Some b => Ret b | None => Throw end
  | VArr l => decode (String_val v ++ padding (length l))
  | VObj _ => Throw
  | _ => decode (String_val v)
  end.

(** [payload?.publicKey || payload?.PublicKey || payload?.response || payload?.Response] *)
Definition options_of (payload : val) : val :=
  let pick k rest := if truthy (get_any payload k) then get_any payload k else rest in
  pick $"publicKey" (pick $"PublicKey" (pick $"response" (get_any payload $"Response"))).

(** [({ ...item, id: base64UrlToBuffer(item.id) })] *)
Definition credential_descriptor (item : val) : outcome bval :=
  bind_outcome (get_or_throw item $"id") (fun i =>
  bind_outcome (toBuffer i) (fun b => Ret (Fields (prop_set $"id" (Buffer b) (plain_props item))))).

Fixpoint map_outcome {A B} (f : A -> outcome B) (l : list A) : outcome (list B) :=
  match l with
  | [] => Ret []
  | x :: r => bind_outcome (f x) (fun y => bind_outcome (map_outcome f r) (fun ys => Ret (y :: ys)))
  end.

(** The list [options[k]], when it is an array, with the ids decoded. *)
Definition decode_list (k : jsstr) (options : val) (o : list (jsstr * bval)) : outcome (list (jsstr * bval)) :=
  match get_any options k with
  | VArr l => bind_outcome (map_outcome credential_descriptor l) (fun ys => Ret (prop_set k (Items ys) o))
  | _ => Ret o
  end.

Definition prepareCredentialCreationOptions (payload : val) : outcome (list (jsstr * bval)) :=
  let options := options_of payload in
  if negb (truthy options) then Throw else
  bind_outcome (toBuffer (get_any options $"challenge")) (fun ch =>
  let user := get_any options $"user" in
  bind_outcome (toBuffer (get_any user $"id")) (fun uid =>
  let o1 := prop_set $"challenge" (Buffer ch) (plain_props options) in
  let o2 := prop_set $"user" (Fields (prop_set $"id" (Buffer uid) (plain_props user))) o1 in
  bind_outcome (decode_list $"excludeCredentials" options o2) (fun o3 =>
  Ret match get_any options $"attestationFormats" with
      | VArr [] => prop_delete $"attestationFormats" o3
      | _ => o3
      end))).

Definition prepareCredentialRequestOptions (payload : val) : outcome (list (jsstr * bval)) :=
  let options := options_of payload in
  if negb (truthy options) then Throw else
  bind_outcome (toBuffer (get_any options $"challenge")) (fun ch =>
  decode_list $"allowCredentials" options (prop_set $"challenge" (Buffer ch) (plain_props options))).

(** What the authenticator returns.  An optional method is its result, when it exists. *)
Record credential := Credential {
  c_id : val; c_rawId : option (list Z); c_type : val; c_attachment : val;
  c_extensions : option val;
  r_attestationObject : option (list Z); r_clientDataJSON : option (list Z);
  r_getTransports : option val;
  r_authenticatorData : option (list Z); r_signature : option (list Z); r_userHandle : option (list Z)
}.

(** [if (!buffer) return ''] *)
Definition buffer_text (b : option (list Z)) : val :=
  VStr match b with Some b => bufferToBase64Url b | None => [] end.

Definition extension_results (c : credential) : val :=
  match c_extensions c with Some v => if is_nullish v then VObj [] else v | None => VObj [] end.

Definition credential_envelope (c : credential) (response : val) : val :=
  VObj [($"id", c_id c); ($"rawId", buffer_text (c_rawId c)); ($"type", c_type c);
        ($"authenticatorAttachment", c_attachment c); ($"response", response);
        ($"clientExtensionResults", extension_results c)].

Definition buildRegistrationResult (c : option credential) : val :=
  match c with
  | None => VNull
  | Some c => credential_envelope c (VObj [
      ($"attestationObject", buffer_text (r_attestationObject c));
      ($"clientDataJSON", buffer_text (r_clientDataJSON c));
      ($"transports", default VUndef (r_getTransports c))])
  end.

Definition buildAssertionResult (c : option credential) : val :=
  match c with
  | None => VNull
  | Some c => credential_envelope c (VObj [
      ($"authenticatorData", buffer_text (r_authenticatorData c));
      ($"clientDataJSON", buffer_text (r_clientDataJSON c));
      ($"signature", buffer_text (r_signature c));
      ($"userHandle", match r_userHandle c with Some b => buffer_text (Some b) | None => VNull end)])
  end.

(** [window.PublicKeyCredential] with its optional static methods, as their outcomes. *)
Record platform := Platform { conditionalMediation : option (outcome val); userVerifying : option (outcome val) }.

Definition isPasskeySupported (w : option platform) : val :=
  match w with
  | None => VBool false
  | Some p =>
    let rest := match userVerifying p with
                | Some (Ret v) => v
                | Some Throw => VBool false
                | None => VBool true
                end in
    match conditionalMediation p with
    | Some (Ret v) => if truthy v then VBool true else rest
    | _ => rest
    end
  end.

(** * Theorems *)

Lemma toBuffer_text b : Forall byte b -> toBuffer (VStr (bufferToBase64Url b)) = Ret b.
Proof.
  intros Hb. unfold toBuffer. pose proof (base64url_decodes b Hb) as E.
  destruct (truthy _) eqn:Et; cbn [negb]; [by rewrite E|].
  assert (bufferToBase64Url b = []) as E0 by (by destruct (bufferToBase64Url b)).
  rewrite E0 in E. injection E as <-. done.
Qed.

(** The options [k: v] names a credential with the identifier [b], in base64url. *)
Definition names_credential (item : val) (b : list Z) : Prop :=
  Forall byte b /\ exists o, item = VObj o /\ prop $"id" o = Some (VStr (bufferToBase64Url b)).

Definition descriptor_of (item : val) (b : list Z) : bval :=
  Fields (prop_set $"id" (Buffer b) (plain_props item)).

Lemma descriptor_decoded item b :
  names_credential item b -> credential_descriptor item = Ret (descriptor_of item b).
Proof.
  intros (Hb & o & -> & Ho). unfold credential_descriptor, get_or_throw, get_any. cbn [is_nullish entries bind_outcome].
  rewrite Ho. cbn [from_option id]. by rewrite toBuffer_text.
Qed.

Lemma descriptors_decoded items bs :
  Forall2 names_credential items bs ->
  map_outcome credential_descriptor items = Ret (zip_with descriptor_of items bs).
Proof.
  induction 1 as [|i b items bs Hi H IH]; [done|]. cbn [map_outcome zip_with].
  rewrite (descriptor_decoded _ _ Hi). cbn [bind_outcome]. by rewrite IH.
Qed.

Lemma prop_plain_props k o : prop k (plain_props (VObj o)) = Plain <$> prop k o.
Proof.
  unfold plain_props. cbn [entries]. induction o as [|[k' v] o IH]; [done|]. cbn [map prop fst snd].
  destruct (k =s? k'); [done|]. exact IH.
Qed.

(** The login options given to the authenticator carry the server's challenge and
    credential identifiers as the bytes the server encoded, and every other option as sent. *)
Theorem request_options_decoded payload o ch items ids :
  options_of payload = VObj o -> Forall byte ch ->
  prop $"challenge" o = Some (VStr (bufferToBase64Url ch)) ->
  prop $"allowCredentials" o = Some (VArr items) -> Forall2 names_credential items ids ->
  exists pk, prepareCredentialRequestOptions payload = Ret pk
    /\ prop $"challenge" pk = Some (Buffer ch)
    /\ prop $"allowCredentials" pk = Some (Items (zip_with descriptor_of items ids))
    /\ forall k, k <> $"challenge" -> k <> $"allowCredentials" -> prop k pk = Plain <$> prop k o.
Proof.
  intros Ho Hch Hc Ha Hi. unfold prepareCredentialRequestOptions. cbn zeta. rewrite Ho. cbn [truthy negb].
  unfold decode_list, get_any. cbn [entries]. rewrite Hc, Ha. cbn [from_option id]. rewrite toBuffer_text by done.
  cbn [bind_outcome]. rewrite (descriptors_decoded _ _ Hi). cbn [bind_outcome]. eexists; split; [done|].
  split; [|split].
  - rewrite prop_set_ne by (by js_lit). apply prop_set_eq.
  - apply prop_set_eq.
  - intros k H1 H2. rewrite !prop_set_ne by done. apply prop_plain_props.
Qed.

(** What a base64url text in a result decodes to. *)
Definition decodes_to (v : val) (b : list Z) : Prop := toBuffer v = Ret b.

(** Every binary part of an assertion can be recovered from the result sent to the
    server, and a missing user handle is sent as null. *)
Theorem assertion_bytes_recovered c raw ad cd sig :
  Forall byte raw -> Forall byte ad -> Forall byte cd -> Forall byte sig ->
  c_rawId c = Some raw -> r_authenticatorData c = Some ad -> r_clientDataJSON c = Some cd ->
  r_signature c = Some sig ->
  let r := buildAssertionResult (Some c) in
  decodes_to (get r $"rawId") raw
  /\ decodes_to (get (get r $"response") $"authenticatorData") ad
  /\ decodes_to (get (get r $"response") $"clientDataJSON") cd
  /\ decodes_to (get (get r $"response") $"signature") sig
  /\ match r_userHandle c with
     | None => get (get r $"response") $"userHandle" = VNull
     | Some uh => Forall byte uh -> decodes_to (get (get r $"response") $"userHandle") uh
     end.
Proof.
  intros Hr Ha Hc Hs Er Ea Ec Es r. subst r. cbn [buildAssertionResult].
  unfold credential_envelope, get. cbn [prop]. js_lit. cbn. rewrite Er, Ea, Ec, Es. unfold decodes_to.
  repeat split; try (by apply toBuffer_text).
  destruct (r_userHandle c); [|done]. intros Hu. by apply toBuffer_text.
Qed.

Lemma request_options_decoded_witness :
  exists pk, prepareCredentialRequestOptions
      (VObj [($"publicKey", VObj [($"challenge", VStr (bufferToBase64Url [1; 2; 255]));
                                  ($"allowCredentials", VArr [VObj [($"id", VStr (bufferToBase64Url [7]))]])])]) = Ret pk
    /\ prop $"challenge" pk = Some (Buffer [1; 2; 255]).
Proof.
  assert (Hb : forall z, 0 <= z < 256 -> byte z) by done.
  edestruct (request_options_decoded
      (VObj [($"publicKey", VObj [($"challenge", VStr (bufferToBase64Url [1; 2; 255]));
                                  ($"allowCredentials", VArr [VObj [($"id", VStr (bufferToBase64Url [7]))]])])])
      [($"challenge", VStr (bufferToBase64Url [1; 2; 255]));
       ($"allowCredentials", VArr [VObj [($"id", VStr (bufferToBase64Url [7]))]])]
      [1; 2; 255] [VObj [($"id", VStr (bufferToBase64Url [7]))]] [[7]]) as (pk & E & Ec & _ & _).
  - reflexivity.
  - repeat (constructor; [apply Hb; lia|]). constructor.
  - reflexivity.
  - reflexivity.
  - constructor; [|constructor]. split; [constructor; [apply Hb; lia|constructor]|]. by eexists.
  - by exists pk.
Defined.

Lemma assertion_bytes_recovered_witness :
  let c := Credential (VStr $"x") (Some [1]) VUndef VUndef None None (Some [3]) None (Some [2; 2]) (Some [4]) None in
  decodes_to (get (buildAssertionResult (Some c)) $"rawId") [1].
Proof.
  assert (Hb : forall z, 0 <= z < 256 -> Forall byte [z]) by (intros z Hz; constructor; [done|constructor]).
  intros c. apply (assertion_bytes_recovered c [1] [2; 2] [3] [4]); try reflexivity; try (apply Hb; lia).
  constructor; [by unfold byte|apply Hb; lia].
Defined.

End Passkey.

Module SecureVerification.
Import Base64 Passkey.

(** ** secureVerification.js *)

(** An error value: its name and its message. *)
Record error := Error { e_name : jsstr; e_message : jsstr }.
Definition new_Error (m : jsstr) : error := Error $"Error" m.
Definition TypeError : error := Error $"TypeError" [].

Inductive result (A : Type) : Type := Ok (a : A) | Fail (e : error).
Arguments Ok {A} a.
Arguments Fail {A} e.

(** The asynchronous code as a tree of the requests it makes: to the API, with a method,
    an address and a body, and to [navigator.credentials.get].  Each is answered by a
    value or by a rejection. *)
Inductive prog (A : Type) : Type :=
| Done (r : result A)
| Call (m url : jsstr) (body : val) (k : result val -> prog A)
| GetCredential (publicKey : list (jsstr * bval)) (k : result (option credential) -> prog A).
Arguments Done {A} r.
Arguments Call {A} m url body k.
Arguments GetCredential {A} publicKey k.

(** [await] of a rejected promise throws. *)
Definition awaited {A B} (k : A -> prog B) (r : result A) : prog B :=
  match r with Ok a => k a | Fail e => Done (Fail e) end.

Definition post {B} (url : jsstr) (body : val) (k : val -> prog B) : prog B :=
  Call $"POST" url body (awaited k).

(** [if (!response.data?.success) throw new Error(response.data?.message || m)] *)
Definition require_success {B} (m : jsstr) (response : val) (k : prog B) : prog B :=
  match get_or_throw response $"data" with
  | Throw => Done (Fail TypeError)
  | Ret d => if truthy (get_any d $"success") then k
             else let msg := get_any d $"message" in
                  Done (Fail (new_Error (if truthy msg then String_val msg else m)))
  end.

Definition verify2FA (code : val) : prog unit :=
  let go c :=
    if negb (nonempty (trim c)) then Done (Fail (new_Error $"请输入验证码或备用码")) else
    post $"/api/verify" (VObj [($"method", VStr $"2fa"); ($"code", VStr (trim c))]) (fun verifyResponse =>
    require_success $"验证失败" verifyResponse (Done (Ok tt))) in
  match code with
  | VUndef | VNull => go []
  | VStr c => go c
  | _ => Done (Fail TypeError)
  end.

(** [beginResponse.data.data.options] *)
Definition begin_options (response : val) : outcome val :=
  bind_outcome (get_or_throw response $"data") (fun d =>
  bind_outcome (get_or_throw d $"data") (fun dd => get_or_throw dd $"options")).

(** The body of the [try] block. *)
Definition verifyPasskey_body : prog unit :=
  post $"/api/user/passkey/verify/begin" VUndef (fun beginResponse =>
  require_success $"开始验证失败" beginResponse (
  match bind_outcome (begin_options beginResponse) prepareCredentialRequestOptions with
  | Throw => Done (Fail TypeError)
  | Ret publicKey =>
    GetCredential publicKey (awaited (fun credential =>
    match credential with
    | None => Done (Fail (new_Error $"Passkey 验证被取消"))
    | Some _ =>
      post $"/api/user/passkey/verify/finish" (buildAssertionResult credential) (fun finishResponse =>
      require_success $"验证失败" finishResponse (
      post $"/api/verify" (VObj [($"method", VStr $"passkey")]) (fun verifyResponse =>
      require_success $"验证失败" verifyResponse (Done (Ok tt)))))
    end))
  end)).

(** The [catch] block: the name of the error decides what is thrown on. *)
Definition rename_error (e : error) : error :=
  if e_name e =s? $"NotAllowedError" then new_Error $"Passkey 验证被取消或超时"
  else if e_name e =s? $"InvalidStateError" then new_Error $"Passkey 验证状态无效"
  else e.

Fixpoint map_error {A} (f : error -> error) (p : prog A) : prog A :=
  match p with
  | Done (Fail e) => Done (Fail (f e))
  | Done (Ok a) => Done (Ok a)
  | Call m url body k => Call m url body (fun r => map_error f (k r))
  | GetCredential pk k => GetCredential pk (fun r => map_error f (k r))
  end.

Definition verifyPasskey : prog unit := map_error rename_error verifyPasskey_body.

Definition verify (method : jsstr) (code : val) : prog unit :=
  let code := match code with VUndef => VStr [] | _ => code end in
  if method =s? $"2fa" then verify2FA code
  else if method =s? $"passkey" then verifyPasskey
  else Done (Fail (new_Error ($"不支持的验证方式: " ++ method))).

Record methods := Methods { has2FA : val; hasPasskey : val; passkeySupported : val }.

(** [response.data?.success && response.data?.data?.enabled === true] *)
Definition enabled_value (response : val) : outcome val :=
  bind_outcome (get_or_throw response $"data") (fun d =>
  let s := get_any d $"success" in
  Ret (if truthy s then VBool (eq_bool (get_any (get_any d $"data") $"enabled") true) else s)).

(** The three requests run concurrently; a rejection of either API call is caught. *)
Definition checkAvailableVerificationMethods (twoFA passkey : outcome val) (supported : val) : methods :=
  catch (bind_outcome twoFA (fun r2 => bind_outcome passkey (fun rp =>
         bind_outcome (enabled_value r2) (fun h2 => bind_outcome (enabled_value rp) (fun hp =>
         Ret (Methods h2 hp supported))))))
    (Methods (VBool false) (VBool false) (VBool false)).

(** [response.data] of the answer. *)
Definition response_data (r : val) : prog val :=
  match get_or_throw r $"data" with Ret d => Done (Ok d) | Throw => Done (Fail TypeError) end.

Definition viewChannelKey (channelId : val) : prog val :=
  post ($"/api/channel/" ++ String_val channelId ++ $"/key") (VObj []) response_data.

Definition custom (url method : jsstr) (extraData : val) : prog val :=
  let m := toUpperCase method in
  if m =s? $"GET" then Call $"GET" url (VObj [($"params", extraData)]) (awaited response_data)
  else if m =s? $"POST" then Call $"POST" url extraData (awaited response_data)
  else if m =s? $"PUT" then Call $"PUT" url extraData (awaited response_data)
  else if m =s? $"DELETE" then Call $"DELETE" url (VObj [($"data", extraData)]) (awaited response_data)
  else Done (Fail (new_Error ($"不支持的HTTP方法: " ++ method))).

(** ** Runs *)

(** A request with its answer. *)
Inductive event :=
| ECall (m url : jsstr) (body : val) (r : result val)
| ECred (publicKey : list (jsstr * bval)) (r : result (option credential)).

(** The server and the authenticator: their answers may depend on all that happened. *)
Record world := World {
  api : list event -> jsstr -> jsstr -> val -> result val;
  authenticator : list event -> list (jsstr * bval) -> result (option credential)
}.

Fixpoint run {A} (w : world) (tr : list event) (p : prog A) : list event * result A :=
  match p with
  | Done r => (tr, r)
  | Call m url body k => let r := api w tr m url body in run w (tr ++ [ECall m url body r]) (k r)
  | GetCredential pk k => let r := authenticator w tr pk in run w (tr ++ [ECred pk r]) (k r)
  end.

(** [response.data?.success] holds. *)
Definition succeeded (response : val) : Prop :=
  exists d, get_or_throw response $"data" = Ret d /\ truthy (get_any d $"success") = true.

Lemma run_map_error {A} w f (p : prog A) tr :
  run w tr (map_error f p) =
  ((run w tr p).1, match (run w tr p).2 with Ok a => Ok a | Fail e => Fail (f e) end).
Proof.
  revert tr. induction p as [r|m url body k IH|pk k IH]; intros tr; cbn [map_error run]; [by destruct r|apply IH..].
Qed.

Lemma run_require {B} w tr m response (k : prog B) :
  (succeeded response /\ run w tr (require_success m response k) = run w tr k)
  \/ (~ succeeded response /\ exists e, run w tr (require_success m response k) = (tr, Fail e)).
Proof.
  unfold require_success, succeeded. destruct (get_or_throw response $"data") as [d|].
  - destruct (truthy (get_any d $"success")) eqn:E; [left; eauto|right]. cbn zeta. split; [|by eexists].
    intros (d' & [= <-] & E'). congruence.
  - right. split; [by intros (d & ? & _)|by eexists].
Qed.

(** A request to the address that opens the session. *)
Definition is_session (e : event) : bool :=
  match e with ECall _ url _ _ => url =s? $"/api/verify" | ECred _ _ => false end.

Definition passkey_session (tr : list event) : Prop :=
  exists rb pk c rf rv,
    tr = [ECall $"POST" $"/api/user/passkey/verify/begin" VUndef (Ok rb); ECred pk (Ok (Some c));
          ECall $"POST" $"/api/user/passkey/verify/finish" (buildAssertionResult (Some c)) (Ok rf);
          ECall $"POST" $"/api/verify" (VObj [($"method", VStr $"passkey")]) rv]
    /\ succeeded rb /\ succeeded rf
    /\ bind_outcome (begin_options rb) prepareCredentialRequestOptions = Ret pk.

Definition last_ok (tr : list event) : Prop :=
  exists tr' m b r, tr = tr' ++ [ECall m $"/api/verify" b (Ok r)] /\ succeeded r.

Lemma not_last_ok tr : Forall (fun e => is_session e = false) tr -> ~ last_ok tr.
Proof.
  intros H (tr' & m & b & r & -> & _). apply Forall_app in H as [_ H]. inversion_clear H as [|?? H1 _].
  by apply str_eqb_neq in H1.
Qed.

Ltac required H :=
  match goal with
  | |- context [run ?w ?tr (require_success ?m ?x ?k)] =>
    destruct (run_require w tr m x k) as [[H ->]|[H [? ->]]]
  end.
Ltac failed_early := intros [= <- <-]; left; split;
  [repeat (apply Forall_cons_2; [reflexivity|]); apply Forall_nil_2|by eexists].

(** How a run of the passkey flow ends. *)
Lemma passkey_runs w tr r :
  run w [] verifyPasskey_body = (tr, r) ->
  (Forall (fun e => is_session e = false) tr /\ exists e, r = Fail e)
  \/ (passkey_session tr /\ (last_ok tr <-> r = Ok tt)).
Proof.
  unfold verifyPasskey_body, post. cbn [run app]. set (a1 := api w _ _ _ _). destruct a1 as [rb|e]; cbn [awaited run].
  2: by failed_early.
  required Hs.
  2: by failed_early.
  destruct (bind_outcome _ _) as [pk|] eqn:Epk; cbn [run app].
  2: by failed_early.
  set (a2 := authenticator w _ _). destruct a2 as [[c|]|e]; cbn [awaited run].
  2,3: by failed_early.
  set (a3 := api w _ _ _ _). destruct a3 as [rf|e]; cbn [awaited run].
  2: by failed_early.
  required Hs2.
  2: by failed_early.
  cbn [run app]. set (a4 := api w _ _ _ _). intros E. right.
  assert (Hl : forall x, last_ok [ECall $"POST" $"/api/user/passkey/verify/begin" VUndef (Ok rb); ECred pk (Ok (Some c));
     ECall $"POST" $"/api/user/passkey/verify/finish" (buildAssertionResult (Some c)) (Ok rf);
     ECall $"POST" $"/api/verify" (VObj [($"method", VStr $"passkey")]) x] <-> exists v, x = Ok v /\ succeeded v).
  { intros x. split.
    - intros (tr' & m & b & v & E' & Hv). exists v. split; [|done].
      destruct tr' as [|? [|? [|? [|? [|]]]]]; cbn in E'; congruence.
    - intros (v & -> & Hv). eexists [_; _; _], _, _, v. by split. }
  revert E. destruct a4 as [rv|e]; cbn [awaited].
  - required Hs3; cbn [run]; intros [= <- <-];
      (split; [by exists rb, pk, c, rf; eexists|]); rewrite Hl; naive_solver.
  - cbn [run]. intros [= <- <-]. split; [by exists rb, pk, c, rf; eexists|]. rewrite Hl. naive_solver.
Qed.

Lemma passkey_runs_renamed w tr r :
  run w [] verifyPasskey = (tr, r) ->
  (Forall (fun e => is_session e = false) tr /\ exists e, r = Fail e)
  \/ (passkey_session tr /\ (last_ok tr <-> r = Ok tt)).
Proof.
  unfold verifyPasskey. rewrite run_map_error. destruct (run w [] verifyPasskey_body) as [tr0 r0] eqn:E.
  cbn [fst snd]. intros [= <- <-]. destruct (passkey_runs w tr0 r0 E) as [[H [e ->]]|[H H']].
  - left. split; [done|]. by eexists.
  - right. split; [done|]. rewrite H'. destruct r0 as [[]|e]; naive_solver.
Qed.

Lemma twofa_runs w tr r code :
  run w [] (verify2FA code) = (tr, r) -> (last_ok tr <-> r = Ok tt).
Proof.
  assert (Hnil : ~ last_ok []) by (by apply not_last_ok).
  assert (Hgo : forall c, run w [] (if negb (nonempty (trim c)) then Done (Fail (new_Error $"请输入验证码或备用码")) else
    post $"/api/verify" (VObj [($"method", VStr $"2fa"); ($"code", VStr (trim c))]) (fun verifyResponse =>
    require_success $"验证失败" verifyResponse (Done (Ok tt)))) = (tr, r) -> (last_ok tr <-> r = Ok tt)).
  { intros c. destruct (nonempty (trim c)); cbn [negb]; [|cbn [run]; intros [= <- <-]; naive_solver].
    unfold post. cbn [run app].
    assert (Hl : forall m b x, last_ok [ECall m $"/api/verify" b x] <-> exists v, x = Ok v /\ succeeded v).
    { intros m b x. split.
      - intros (tr' & m' & b' & v & E' & Hv). exists v. split; [|done]. destruct tr' as [|? [|]]; cbn in E'; congruence.
      - intros (v & -> & Hv). by exists [], m, b, v. }
    destruct (api w _ _ _ _) as [rv|e]; cbn [awaited run].
    - required Hs; cbn [run]; intros [= <- <-]; rewrite Hl; naive_solver.
    - intros [= <- <-]. rewrite Hl. naive_solver. }
  destruct code; try (intros [= <- <-]; naive_solver); apply Hgo.
Qed.

(** C8: the address that opens the verified session is requested for a passkey only after
    the server accepted the start, the authenticator produced a credential for the
    server's options, and the server accepted that credential's assertion. *)
Theorem passkey_session_requires_assertion w tr r :
  run w [] verifyPasskey = (tr, r) -> Exists (fun e => is_session e = true) tr -> passkey_session tr.
Proof.
  intros E H. destruct (passkey_runs_renamed w tr r E) as [[Hn _]|[Hp _]]; [|done].
  exfalso. apply Exists_exists in H as (e & He & Hs). rewrite Forall_forall in Hn. rewrite (Hn e He) in Hs. done.
Qed.

(** A verification of either kind resolves exactly when its last request was the one
    that opens the session and the server answered it with success. *)
Theorem verify_resolves_iff_session w method code tr r :
  run w [] (verify method code) = (tr, r) -> (r = Ok tt <-> last_ok tr).
Proof.
  unfold verify. cbn zeta. destruct (method =s? $"2fa"); [intros E; symmetry; by eapply twofa_runs|].
  destruct (method =s? $"passkey").
  - intros E. destruct (passkey_runs_renamed w tr r E) as [[H [e ->]]|[_ H]]; [|by symmetry].
    split; [done|]. intros Hl. by apply not_last_ok in H.
  - cbn [run]. intros [= <- <-]. split; [done|]. intros Hl. by apply (not_last_ok []) in Hl.
Qed.

(** A server that accepts everything, and an authenticator with one credential. *)
Definition granting : world := World
  (fun _ _ _ _ => Ok (VObj [($"data", VObj [($"success", VBool true);
     ($"data", VObj [($"options", VObj [($"publicKey", VObj [($"challenge", VStr $"AQI")])])])])]))
  (fun _ _ => Ok (Some (Credential (VStr $"k") (Some [1; 2]) VUndef VUndef None None (Some [3]) None (Some [4]) (Some [5]) None))).

Lemma passkey_session_requires_assertion_witness :
  passkey_session (run granting [] verifyPasskey).1.
Proof.
  apply (passkey_session_requires_assertion granting _ (run granting [] verifyPasskey).2).
  - by destruct (run granting [] verifyPasskey).
  - assert (existsb is_session (run granting [] verifyPasskey).1 = true) as H by (by vm_compute).
    apply existsb_exists in H as (e & He & Hs). apply Exists_exists. exists e. split; [|done]. by apply list_elem_of_In.
Defined.

Lemma verify_resolves_iff_session_witness :
  (run granting [] (verify $"passkey" VUndef)).2 = Ok tt <-> last_ok (run granting [] (verify $"passkey" VUndef)).1.
Proof.
  apply (verify_resolves_iff_session granting $"passkey" VUndef). by destruct (run granting [] (verify $"passkey" VUndef)).
Defined.

End SecureVerification.
