(* ===== verification/Playground.v ===== *)
(** * The playground: messages, stored configuration, request body

    [web/src/helpers/utils.jsx] (the playground's message functions),
    [web/src/components/playground/configStorage.js],
    [web/src/constants/playground.constants.js],
    [web/src/hooks/playground/usePlaygroundState.js] and
    [web/src/hooks/playground/useSyncMessageAndCustomBody.js].  [localStorage] is a
    property list of strings; the clock's texts and the translated default messages
    are arguments. *)
From S2P Require Import Prelude JSNum JSValue Json.
From Stdlib Require Import SpecFloat.
#[local] Open Scope Z_scope.
#[local] Arguments js _ : simpl never.

Module Messages.

(** ** utils.jsx: messages *)

Definition OPEN : jsstr := $"<think>".
Definition CLOSE : jsstr := $"</think>".
Definition SEPARATOR : jsstr := [10; 10] ++ $"---" ++ [10; 10].

(** [s] around the first occurrence of [sub]. *)
Fixpoint cut (sub s : jsstr) : option (jsstr * jsstr) :=
  if startsWith sub s then Some ([], drop (length sub) s)
  else match s with
       | [] => None
       | c :: r => match cut sub r with Some (a, b) => Some (c :: a, b) | None => None end
       end.

(** [s] around the last occurrence of [sub]. *)
Fixpoint cut_last (sub s : jsstr) : option (jsstr * jsstr) :=
  match s with
  | [] => if startsWith sub [] then Some ([], []) else None
  | c :: r =>
    match cut_last sub r with
    | Some (a, b) => Some (c :: a, b)
    | None => if startsWith sub s then Some ([], drop (length sub) s) else None
    end
  end.

(** The [exec] loop over THINK_TAG_REGEX: the thoughts, and the parts of the reply.  A
    match is the first opening tag with a closing tag after it, up to the first such. *)
Fixpoint think_loop (fuel : nat) (s : jsstr) : list jsstr * list jsstr :=
  match fuel with
  | O => ([], [s])
  | S f =>
    match cut OPEN s with
    | Some (before, rest) =>
      match cut CLOSE rest with
      | Some (thought, after) =>
        let '(ts, rs) := think_loop f after in (thought :: ts, before :: rs)
      | None => ([], [s])
      end
    | None => ([], [s])
    end
  end.

(** [s.replace(/<\/?think>/g, '')] with [skip] units of the current tag left. *)
Fixpoint strip_tags (skip : nat) (s : jsstr) : jsstr :=
  match s with
  | [] => []
  | c :: r =>
    match skip with
    | S k => strip_tags k r
    | O => if startsWith OPEN s then strip_tags 6 r
           else if startsWith CLOSE s then strip_tags 7 r
           else c :: strip_tags 0 r
    end
  end.

Definition join_reasoning (reasoning : val) (thoughts : jsstr) : val :=
  if truthy reasoning && nonempty thoughts then VStr (String_val reasoning ++ SEPARATOR ++ thoughts)
  else if truthy reasoning then reasoning else VStr thoughts.

(** On a string; the loop is bounded by its length. *)
Definition processThinkTags (content : jsstr) (reasoningContent : val) : jsstr * val :=
  if negb (nonempty content) || negb (includes OPEN content) then (content, reasoningContent) else
  let '(thoughts, replyParts) := think_loop (length content) content in
  (trim (strip_tags 0 (concat replyParts)), join_reasoning reasoningContent (join SEPARATOR thoughts)).

Definition processIncompleteThinkTags (content : jsstr) (reasoningContent : val) : jsstr * val :=
  if negb (nonempty content) then ([], reasoningContent) else
  match cut_last OPEN content with
  | None => processThinkTags content reasoningContent
  | Some (cleanContent, rest) =>
    if includes CLOSE (OPEN ++ rest) then processThinkTags content reasoningContent else
    let unclosedThought := trim rest in
    let reasoning :=
      if nonempty unclosedThought then
        if truthy reasoningContent then VStr (String_val reasoningContent ++ SEPARATOR ++ unclosedThought)
        else VStr unclosedThought
      else reasoningContent in
    processThinkTags cleanContent reasoning
  end.

(** The calls on a message's content, which may also be an array of parts: an array has
    [lastIndexOf] and [includes] but no [substring]; other values have none of them. *)
Definition process_content (content : val) (reasoningContent : val) : outcome (val * val) :=
  match content with
  | VStr s => let '(c, r) := processIncompleteThinkTags s reasoningContent in Ret (VStr c, r)
  | VArr l => if existsb (fun x => eq_str x OPEN) l then Throw else Ret (content, reasoningContent)
  | _ => Throw
  end.

(** [message.content.find((item) => item.type === 'text')] *)
Fixpoint find_text (l : list val) : outcome val :=
  match l with
  | [] => Ret VUndef
  | item :: r =>
    bind_outcome (get_or_throw item $"type") (fun ty =>
    if eq_str ty $"text" then Ret item else find_text r)
  end.

Definition getTextContent (message : val) : outcome val :=
  let content := get_any message $"content" in
  if negb (truthy message) || negb (truthy content) then Ret (VStr []) else
  match content with
  | VArr l => bind_outcome (find_text l) (fun item =>
                let t := get_any item $"text" in Ret (if truthy t then t else VStr []))
  | VStr s => Ret (VStr s)
  | _ => Ret (VStr [])
  end.

(** [url && url.trim() !== ''], for the strings of the image list. *)
Definition valid_url (u : jsstr) : bool := nonempty u && nonempty (trim u).

Definition buildMessageContent (text : jsstr) (imageUrls : list jsstr) (imageEnabled : bool) : val :=
  if negb (nonempty text) && match imageUrls with [] => true | _ => false end then VStr [] else
  let validImageUrls := List.filter valid_url imageUrls in
  if imageEnabled && match validImageUrls with [] => false | _ => true end then
    VArr (VObj [($"type", VStr $"text"); ($"text", VStr text)]
          :: map (fun url => VObj [($"type", VStr $"image_url");
                                   ($"image_url", VObj [($"url", VStr (trim url))])]) validImageUrls)
  else VStr text.

(** [generateMessageId] with its counter. *)
Definition generateMessageId (messageId : Z) : jsstr * Z := (Z_to_str messageId, messageId + 1).

Definition createMessage (now : num) (messageId : Z) (role content : val) (options : object) : val * Z :=
  let '(i, next) := generateMessageId messageId in
  (VObj (prop_assign [($"role", role); ($"content", content); ($"createAt", VNum now); ($"id", VStr i)] options), next).

Definition createLoadingAssistantMessage (now : num) (messageId : Z) : val * Z :=
  createMessage now messageId (VStr $"assistant") (VStr [])
    [($"reasoningContent", VStr []); ($"isReasoningExpanded", VBool true); ($"isThinkingComplete", VBool false);
     ($"hasAutoCollapsed", VBool false); ($"status", VStr $"loading")].

Definition hasImageContent (message : val) : outcome bool :=
  match get_any message $"content" with
  | VArr l =>
    (fix some l := match l with
                   | [] => Ret false
                   | item :: r => bind_outcome (get_or_throw item $"type") (fun ty =>
                       if eq_str ty $"image_url" then Ret true else some r)
                   end) l
  | _ => Ret false
  end.

Definition formatMessageForAPI (message : val) : val :=
  if truthy message
  then VObj [($"role", get_any message $"role"); ($"content", get_any message $"content")] else VNull.

Definition isValidMessage (message : val) : bool :=
  truthy message && truthy (get_any message $"role")
  && (truthy (get_any message $"content") || eq_str (get_any message $"content") []).

(** The last message with the role; reading the role of a hole throws. *)
Fixpoint last_with_role (role : jsstr) (rev_messages : list val) : outcome val :=
  match rev_messages with
  | [] => Ret VNull
  | m :: r => bind_outcome (get_or_throw m $"role") (fun x =>
                if eq_str x role then Ret m else last_with_role role r)
  end.

Definition getLastUserMessage (messages : val) : outcome val :=
  match messages with VArr l => last_with_role $"user" (rev l) | _ => Ret VNull end.
Definition getLastAssistantMessage (messages : val) : outcome val :=
  match messages with VArr l => last_with_role $"assistant" (rev l) | _ => Ret VNull end.

(** * Theorems on the tags *)

(** A tag: its first unit occurs nowhere else in it, so that it never overlaps itself. *)
Definition tag (sub : jsstr) : Prop := exists t, sub = 60 :: t /\ 60 ∉ t.

Lemma tag_OPEN : tag OPEN.
Proof. exists (tl OPEN). split; [by vm_compute|]. rewrite list_elem_of_In. vm_compute. intuition done. Qed.
Lemma tag_CLOSE : tag CLOSE.
Proof. exists (tl CLOSE). split; [by vm_compute|]. rewrite list_elem_of_In. vm_compute. intuition done. Qed.

Lemma startsWith_tag_app sub a b :
  tag sub -> a <> [] -> startsWith sub (a ++ sub ++ b) = true -> startsWith sub a = true.
Proof.
  intros (t & -> & Ht) Ha. destruct a as [|c a]; [done|]. cbn [startsWith app].
  destruct (60 =? c); cbn [andb]; [|done]. clear Ha. generalize (t ++ b) as rest. intros rest. revert a.
  induction t as [|x t IH]; intros a; [by destruct a|]. apply not_elem_of_cons in Ht as [Hx Ht].
  destruct a as [|y a]; cbn [startsWith app].
  - destruct (Z.eqb_spec x 60); [congruence|done].
  - destruct (x =? y); cbn [andb]; [by apply IH|done].
Qed.

Lemma includes_cons sub c s : includes sub (c :: s) = startsWith sub (c :: s) || includes sub s.
Proof. done. Qed.

Lemma cut_first sub a b :
  tag sub -> includes sub a = false -> cut sub (a ++ sub ++ b) = Some (a, b).
Proof.
  intros Hs. induction a as [|c a IH]; intros Ha.
  - destruct Hs as (t & -> & _). cbn [app cut]. rewrite (startsWith_app (60 :: t) b : startsWith (60 :: t) (60 :: t ++ b) = true).
    by rewrite (drop_app_length (60 :: t) b : drop _ (60 :: t ++ b) = b).
  - rewrite includes_cons in Ha. apply orb_false_iff in Ha as [H1 H2]. cbn [app cut].
    destruct (startsWith sub (c :: a ++ sub ++ b)) eqn:E; [|by rewrite IH].
    apply (startsWith_tag_app sub (c :: a) b Hs) in E; [congruence|done].
Qed.

Lemma cut_none sub s : includes sub s = false -> cut sub s = None.
Proof.
  induction s as [|c s IH]; cbn; intros H.
  - by destruct (startsWith sub []).
  - apply orb_false_iff in H as [-> H]. by rewrite IH.
Qed.

Lemma cut_last_none sub s : includes sub s = false -> cut_last sub s = None.
Proof.
  induction s as [|c s IH]; cbn; intros H; [by destruct (startsWith sub [])|].
  apply orb_false_iff in H as [H1 H2]. by rewrite IH, H1.
Qed.

Lemma cut_last_last sub a b :
  tag sub -> includes sub b = false -> cut_last sub (a ++ sub ++ b) = Some (a, b).
Proof.
  intros Hs Hb. induction a as [|c a IH].
  - destruct Hs as (t & -> & Ht). cbn [app cut_last].
    assert (cut_last (60 :: t) (t ++ b) = None) as ->.
    { apply cut_last_none. clear -Ht Hb. revert Ht. generalize t at 1 3 as u. intros u. revert u.
      induction u as [|x u IH]; intros Hu; [done|]. apply not_elem_of_cons in Hu as [Hx Hu]. cbn [app].
      rewrite includes_cons, IH by done. cbn [startsWith]. destruct (Z.eqb_spec 60 x); [congruence|done]. }
    rewrite (startsWith_app (60 :: t) b : startsWith (60 :: t) (60 :: t ++ b) = true).
    by rewrite (drop_app_length (60 :: t) b : drop _ (60 :: t ++ b) = b).
  - cbn [app cut_last]. by rewrite IH.
Qed.

Lemma includes_false_app sub a b : includes sub (a ++ b) = false -> includes sub a = false /\ includes sub b = false.
Proof.
  intros H. split; apply not_true_iff_false; intros E; apply includes_spec in E as (x & y & E); subst;
    apply not_true_iff_false in H; apply H, includes_spec.
  - exists x, (y ++ b). by rewrite !app_assoc.
  - exists (a ++ x), y. by rewrite !app_assoc.
Qed.

Lemma strip_tags_id s : includes OPEN s = false -> includes CLOSE s = false -> strip_tags 0 s = s.
Proof.
  induction s as [|c s IH]; [done|]. rewrite !includes_cons. intros H1 H2.
  apply orb_false_iff in H1 as [H1 H1']. apply orb_false_iff in H2 as [H2 H2'].
  cbn [strip_tags]. by rewrite H1, H2, IH.
Qed.

(** A text of replies and thoughts, as a model streams it. *)
Fixpoint render (ps : list (jsstr * jsstr)) (tail : jsstr) : jsstr :=
  match ps with
  | [] => tail
  | (reply, thought) :: r => reply ++ OPEN ++ thought ++ CLOSE ++ render r tail
  end.

Lemma think_loop_render ps tail fuel :
  includes OPEN (concat (map fst ps) ++ tail) = false ->
  Forall (fun p => includes CLOSE p.2 = false) ps -> (length (render ps tail) <= fuel)%nat ->
  think_loop fuel (render ps tail) = (map snd ps, map fst ps ++ [tail]).
Proof.
  intros Ho Hc. revert Ho fuel. induction Hc as [|[b t] ps Ht _ IH]; intros Ho fuel Hf.
  - cbn in Ho. destruct fuel as [|f]; cbn [think_loop render map app]; [done|]. by rewrite cut_none.
  - cbn [map fst concat app snd] in *. rewrite <- app_assoc in Ho. apply includes_false_app in Ho as [Hb Ho].
    cbn [render] in *. rewrite !length_app in Hf. change (length OPEN) with 7%nat in Hf.
    destruct fuel as [|f]; [lia|]. cbn [think_loop].
    rewrite cut_first by (done || apply tag_OPEN). rewrite cut_first by (done || apply tag_CLOSE).
    rewrite IH by (done || lia). done.
Qed.

Lemma render_has_open p ps tail : includes OPEN (render (p :: ps) tail) = true.
Proof. destruct p as [b t]. apply includes_spec. cbn [render]. by eexists _, _. Qed.

(** The reasoning after the thoughts of a text. *)
Definition reasoning_of (reasoning : val) (ps : list (jsstr * jsstr)) : val :=
  match ps with [] => reasoning | _ => join_reasoning reasoning (join SEPARATOR (map snd ps)) end.

Definition reply_of (ps : list (jsstr * jsstr)) (tail : jsstr) : jsstr :=
  match ps with [] => tail | _ => trim (concat (map fst ps) ++ tail) end.

Lemma processThinkTags_render ps tail reasoning :
  includes OPEN (concat (map fst ps) ++ tail) = false -> includes CLOSE (concat (map fst ps) ++ tail) = false ->
  Forall (fun p => includes CLOSE p.2 = false) ps ->
  processThinkTags (render ps tail) reasoning = (reply_of ps tail, reasoning_of reasoning ps).
Proof.
  intros Ho Hcl Hc. unfold processThinkTags. destruct ps as [|p ps].
  - cbn in Ho. cbn [render]. rewrite Ho. cbn [negb]. by rewrite orb_true_r.
  - rewrite render_has_open. cbn [negb]. rewrite orb_false_r.
    destruct (nonempty (render (p :: ps) tail)) eqn:En.
    2: { destruct p as [b t]. cbn [render] in En. by destruct b. }
    cbn [negb]. rewrite think_loop_render by done. rewrite concat_app. cbn [concat]. rewrite app_nil_r.
    by rewrite strip_tags_id.
Qed.

(** The reply shown for a text with thinking parts is the text outside the tags, and
    its thoughts, in order, become the reasoning after what was there before. *)
Theorem think_tags_split ps tail reasoning :
  includes OPEN (concat (map fst ps) ++ tail) = false -> includes CLOSE (concat (map fst ps) ++ tail) = false ->
  Forall (fun p => includes CLOSE p.2 = false) ps ->
  processThinkTags (render ps tail) reasoning = (reply_of ps tail, reasoning_of reasoning ps).
Proof. apply processThinkTags_render. Qed.

(** The reasoning with an unclosed thought put after it. *)
Definition with_unclosed (reasoning : val) (thought : jsstr) : val :=
  if nonempty (trim thought) then join_reasoning reasoning (trim thought) else reasoning.

(** While a thought is still being streamed, the reply is the text before it without
    its thinking parts, and the unfinished thought is part of the reasoning (put before
    the finished thoughts of the same text). *)
Theorem unclosed_thought_is_reasoning ps tail thought reasoning :
  includes OPEN (concat (map fst ps) ++ tail) = false -> includes CLOSE (concat (map fst ps) ++ tail) = false ->
  Forall (fun p => includes CLOSE p.2 = false) ps ->
  includes OPEN thought = false -> includes CLOSE thought = false ->
  processIncompleteThinkTags (render ps (tail ++ OPEN ++ thought)) reasoning
    = (reply_of ps tail, reasoning_of (with_unclosed reasoning thought) ps).
Proof.
  intros Ho Hcl Hc Ht Htc. unfold processIncompleteThinkTags.
  assert (E : render ps (tail ++ OPEN ++ thought) = render ps tail ++ OPEN ++ thought).
  { clear. induction ps as [|[b t] ps IH]; cbn [render]; [done|]. rewrite IH. by rewrite <- !app_assoc. }
  rewrite E. assert (nonempty (render ps tail ++ OPEN ++ thought) = true) as ->.
  { by destruct (render ps tail). }
  cbn [negb]. rewrite cut_last_last by (done || apply tag_OPEN).
  assert (includes CLOSE (OPEN ++ thought) = false) as ->.
  { revert Htc. clear. intros H. change OPEN with (js "<think>"). js_lit. cbn [app].
    repeat (rewrite includes_cons; match goal with |- startsWith ?a ?b || _ = _ =>
      assert (startsWith a b = false) as -> by (by cbn) end; cbn [orb]). done. }
  cbn zeta. rewrite processThinkTags_render by done. f_equal. f_equal. unfold with_unclosed, join_reasoning.
  destruct (nonempty (trim thought)); [|done]. by destruct (truthy reasoning).
Qed.

Lemma think_tags_split_witness :
  processThinkTags (render [($"a", $"one"); ($" b", $"two")] $" c") (VStr [])
    = ($"a b c", VStr ($"one" ++ SEPARATOR ++ $"two")).
Proof. apply (think_tags_split [($"a", $"one"); ($" b", $"two")] $" c" (VStr [])); [by vm_compute..|by repeat constructor]. Defined.

Lemma unclosed_thought_is_reasoning_witness :
  processIncompleteThinkTags (render [($"a", $"one")] ($" b" ++ OPEN ++ $"tw")) (VStr [])
    = ($"a b", VStr ($"tw" ++ SEPARATOR ++ $"one")).
Proof.
  apply (unclosed_thought_is_reasoning [($"a", $"one")] $" b" $"tw" (VStr [])); [by vm_compute|by vm_compute|by repeat constructor|by vm_compute|by vm_compute].
Defined.

End Messages.

Module Storage.
Import Messages.

(** ** playground.constants.js *)

Definition DEFAULT_inputs : object :=
  [($"model", VStr $"gpt-4o"); ($"group", VStr []); ($"temperature", VNum (num_of_decimal false 7 (-1)));
   ($"top_p", VNum n1); ($"max_tokens", VNum (of_Z 4096)); ($"frequency_penalty", VNum n0);
   ($"presence_penalty", VNum n0); ($"seed", VNull); ($"stream", VBool true);
   ($"imageEnabled", VBool false); ($"imageUrls", VArr [VStr []])].

Definition DEFAULT_parameterEnabled : object :=
  [($"temperature", VBool true); ($"top_p", VBool true); ($"max_tokens", VBool false);
   ($"frequency_penalty", VBool true); ($"presence_penalty", VBool true); ($"seed", VBool false)].

Definition DEFAULT_CONFIG : object :=
  [($"inputs", VObj DEFAULT_inputs); ($"parameterEnabled", VObj DEFAULT_parameterEnabled);
   ($"systemPrompt", VStr []); ($"showDebugPanel", VBool false); ($"customRequestMode", VBool false);
   ($"customRequestBody", VStr [])].

Definition CONFIG : jsstr := $"playground_config".
Definition MESSAGES : jsstr := $"playground_messages".

(** ** configStorage.js *)

(** [localStorage]: [getItem] is [prop], [setItem] is [prop_set], [removeItem] is
    [prop_delete]. *)
Definition store : Type := list (jsstr * jsstr).

(** [localStorage.setItem(k, JSON.stringify(v))] *)
Definition set_json (k : jsstr) (v : val) (s : store) : store :=
  prop_set k (default $"undefined" (stringify v)) s.

Definition saveConfig (now : jsstr) (config : val) (s : store) : store :=
  set_json CONFIG (VObj (prop_set $"timestamp" (VStr now) (props_of (entries config)))) s.

Definition saveMessages (now : jsstr) (messages : val) (s : store) : store :=
  set_json MESSAGES (VObj [($"messages", messages); ($"timestamp", VStr now)]) s.

(** [JSON.parse] of a stored text; [None] when there is none or it is empty. *)
Definition saved (k : jsstr) (s : store) : option (outcome val) :=
  match prop k s with
  | Some text => if nonempty text then Some match parse text with Some v => Ret v | None => Throw end else None
  | None => None
  end.

(** [Number.isNaN(parseInt(v, 10)) ? v : parseInt(v, 10)] *)
Definition normalize_max_tokens (v : val) : val :=
  let n := parseInt10 (String_val v) in if isNaN n then v else VNum n.

Definition or_default (v d : val) : val := if truthy v then v else d.

(** The merge of a parsed configuration with the defaults. *)
Definition mergeConfig (parsed : val) : outcome object :=
  bind_outcome (get_or_throw parsed $"inputs") (fun inputs =>
  Ret [($"inputs", VObj (prop_set $"max_tokens" (normalize_max_tokens (get_any inputs $"max_tokens"))
                           (prop_assign DEFAULT_inputs (entries inputs))));
       ($"parameterEnabled", VObj (prop_assign DEFAULT_parameterEnabled (entries (get_any parsed $"parameterEnabled"))));
       ($"showDebugPanel", or_default (get_any parsed $"showDebugPanel") (VBool false));
       ($"customRequestMode", or_default (get_any parsed $"customRequestMode") (VBool false));
       ($"customRequestBody", or_default (get_any parsed $"customRequestBody") (VStr []))]).

Definition loadConfig (s : store) : object :=
  match saved CONFIG s with
  | Some r => catch (bind_outcome r mergeConfig) DEFAULT_CONFIG
  | None => DEFAULT_CONFIG
  end.

Definition loadMessages (s : store) : val :=
  match saved MESSAGES s with
  | Some r => catch (bind_outcome r (fun p => bind_outcome (get_or_throw p $"messages") (fun m =>
                     Ret (if truthy m then m else VNull)))) VNull
  | None => VNull
  end.

Definition clearConfig (s : store) : store := prop_delete MESSAGES (prop_delete CONFIG s).
Definition clearMessages (s : store) : store := prop_delete MESSAGES s.
Definition hasStoredConfig (s : store) : bool := has_prop CONFIG s.

Definition getConfigTimestamp (s : store) : val :=
  match saved CONFIG s with
  | Some r => catch (bind_outcome r (fun p => bind_outcome (get_or_throw p $"timestamp") (fun t =>
                     Ret (if truthy t then t else VNull)))) VNull
  | None => VNull
  end.

(** The exported file: its name and its text. *)
Definition export_object (now : jsstr) (config : val) (messages : val) (s : store) : object :=
  prop_set $"version" (VStr $"1.0")
    (prop_set $"exportTime" (VStr now)
       (prop_set $"messages" (if truthy messages then messages else loadMessages s) (props_of (entries config)))).

Definition exportConfig (now : jsstr) (config messages : val) (s : store) : jsstr * jsstr :=
  ($"playground-config-" ++ hd [] (split_char 84 now) ++ $".json",
   default $"undefined" (stringify2 (VObj (export_object now config messages s)))).

(** [reader.onload]: the configuration the promise resolves with, or its rejection, and
    the storage. *)
Definition importConfig (now : jsstr) (text : jsstr) (s : store) : outcome val * store :=
  match parse text with
  | None => (Throw, s)
  | Some imported =>
    if is_nullish imported then (Throw, s) else
    if truthy (get_any imported $"inputs") && truthy (get_any imported $"parameterEnabled") then
      (Ret imported,
       match get_any imported $"messages" with
       | VArr l => saveMessages now (VArr l) s
       | _ => s
       end)
    else (Throw, s)
  end.

(** * Theorems *)

Lemma json_wf_set k v o :
  Forall unit16 k -> json_wf v -> json_wf (VObj o) -> json_wf (VObj (prop_set k v o)).
Proof.
  rewrite !json_wf_obj. intros Hk Hv [Ho Hf]. split; [|by apply prop_set_Forall].
  apply props_of_canonical, prop_set_canonical. rewrite <- Ho. apply prop_assign_is_canonical. constructor.
Qed.

Lemma saved_set_json k v s :
  json_wf v -> (exists text, stringify v = Some text /\ nonempty text = true) ->
  saved k (set_json k v s) = Some (Ret v).
Proof.
  intros Hv (text & E & Hn). unfold saved, set_json. rewrite E, prop_set_eq. cbn [from_option id]. rewrite Hn.
  by rewrite (parse_stringify v text).
Qed.

Lemma stringify_obj o : exists text, stringify (VObj o) = Some text /\ nonempty text = true.
Proof. eexists. split; [reflexivity|]. unfold wrap. by destruct (flat_map _ o). Qed.

Definition text_wf (s : jsstr) : Prop := Forall unit16 s.

(** The part of a configuration, the keys it was saved with first. *)
Definition merged (saved defaults : object) (k : jsstr) : option val :=
  match prop k saved with Some v => Some v | None => prop k defaults end.

Lemma json_wf_NoDup o : json_wf (VObj o) -> NoDup (keys o).
Proof.
  rewrite json_wf_obj. intros [Ho _]. rewrite <- Ho. apply prop_assign_NoDup. constructor.
Qed.

Lemma json_wf_prop o k v : json_wf (VObj o) -> prop k o = Some v -> json_wf v.
Proof.
  rewrite json_wf_obj. intros [_ Hf] E. apply prop_elem in E. rewrite Forall_forall in Hf. apply Hf in E. by destruct E.
Qed.

Lemma lit_wf (s : string) : forallb (fun c => (0 <=? c) && (c <? 65536)) (js s) = true -> text_wf $s.
Proof.
  intros H. apply Forall_forall. intros c Hc. rewrite forallb_forall in H.
  apply list_elem_of_In, H in Hc. unfold unit16. lia.
Qed.

Lemma load_saved now o inputs enabled s :
  json_wf (VObj o) -> text_wf now ->
  prop $"inputs" o = Some (VObj inputs) -> prop $"parameterEnabled" o = Some (VObj enabled) ->
  exists c ci ce, loadConfig (saveConfig now (VObj o) s) = c
    /\ prop $"inputs" c = Some (VObj ci) /\ prop $"parameterEnabled" c = Some (VObj ce)
    /\ (forall k, k <> $"max_tokens" -> prop k ci = merged inputs DEFAULT_inputs k)
    /\ prop $"max_tokens" ci = Some (normalize_max_tokens (get (VObj inputs) $"max_tokens"))
    /\ (forall k, prop k ce = merged enabled DEFAULT_parameterEnabled k)
    /\ prop $"customRequestBody" c = Some (or_default (get (VObj o) $"customRequestBody") (VStr []))
    /\ prop $"customRequestMode" c = Some (or_default (get (VObj o) $"customRequestMode") (VBool false))
    /\ prop $"showDebugPanel" c = Some (or_default (get (VObj o) $"showDebugPanel") (VBool false)).
Proof.
  intros Ho Hnow Hi He. pose proof (json_wf_prop _ _ _ Ho Hi) as Hwi. pose proof (json_wf_prop _ _ _ Ho He) as Hwe.
  apply json_wf_NoDup in Hwi, Hwe. unfold saveConfig. cbn [entries].
  assert (props_of o = o) as -> by (by apply json_wf_obj in Ho as [Ho _]).
  set (o' := prop_set $"timestamp" (VStr now) o).
  assert (Hg : forall k, k <> $"timestamp" -> get_any (VObj o') k = get (VObj o) k).
  { intros k Hk. unfold get_any, get, o'. cbn [entries]. by rewrite prop_set_ne. }
  assert (Ho' : json_wf (VObj o')) by (apply json_wf_set; [by apply lit_wf|exact Hnow|exact Ho]).
  unfold loadConfig. rewrite saved_set_json by (done || apply stringify_obj).
  cbn [bind_outcome catch]. unfold mergeConfig, get_or_throw. cbn [is_nullish bind_outcome].
  rewrite !Hg by (by js_lit). unfold get at 1 2 3. rewrite Hi, He. cbn [from_option id entries catch].
  do 3 eexists. split; [reflexivity|]. repeat split; try reflexivity.
  - intros k Hk. rewrite prop_set_ne by done. rewrite prop_assign_lookup by done. done.
  - by rewrite prop_set_eq.
  - intros k. by rewrite prop_assign_lookup.
Qed.

(** After a save, loading gives every saved input and switch back, the defaults where
    none was saved, and the panel and custom-body settings that were saved. *)
Theorem config_roundtrip now o inputs enabled s :
  json_wf (VObj o) -> text_wf now ->
  prop $"inputs" o = Some (VObj inputs) -> prop $"parameterEnabled" o = Some (VObj enabled) ->
  exists c ci ce, loadConfig (saveConfig now (VObj o) s) = c
    /\ prop $"inputs" c = Some (VObj ci) /\ prop $"parameterEnabled" c = Some (VObj ce)
    /\ (forall k, k <> $"max_tokens" -> prop k ci = merged inputs DEFAULT_inputs k)
    /\ prop $"max_tokens" ci = Some (normalize_max_tokens (get (VObj inputs) $"max_tokens"))
    /\ (forall k, prop k ce = merged enabled DEFAULT_parameterEnabled k)
    /\ prop $"customRequestBody" c = Some (or_default (get (VObj o) $"customRequestBody") (VStr []))
    /\ prop $"customRequestMode" c = Some (or_default (get (VObj o) $"customRequestMode") (VBool false))
    /\ prop $"showDebugPanel" c = Some (or_default (get (VObj o) $"showDebugPanel") (VBool false)).
Proof. apply load_saved. Qed.

(** The saved inputs lack a number of tokens. *)
Lemma missing_normalized : normalize_max_tokens VUndef = VUndef.
Proof. by vm_compute. Qed.

(** A stored configuration without a token limit is loaded with the limit undefined,
    although the defaults have one. *)
Theorem missing_limit_loads_undefined now o inputs enabled s :
  json_wf (VObj o) -> text_wf now ->
  prop $"inputs" o = Some (VObj inputs) -> prop $"parameterEnabled" o = Some (VObj enabled) ->
  prop $"max_tokens" inputs = None ->
  get (get (VObj (loadConfig (saveConfig now (VObj o) s))) $"inputs") $"max_tokens" = VUndef
  /\ get (VObj DEFAULT_inputs) $"max_tokens" = VNum (of_Z 4096).
Proof.
  intros Ho Hnow Hi He Hm. destruct (load_saved now o inputs enabled s Ho Hnow Hi He)
    as (c & ci & ce & -> & Hci & _ & _ & Hmt & _). split; [|done].
  unfold get at 2. rewrite Hci. cbn [from_option id]. unfold get at 1. rewrite Hmt. cbn [from_option id].
  unfold get. rewrite Hm. apply missing_normalized.
Qed.

(** Messages survive saving and loading. *)
Lemma load_saved_messages now l s :
  json_wf (VArr l) -> text_wf now -> loadMessages (saveMessages now (VArr l) s) = VArr l.
Proof.
  intros Hl Hnow. unfold loadMessages, saveMessages. rewrite saved_set_json; [done| |apply stringify_obj].
  change (json_wf (VObj (prop_set $"timestamp" (VStr now) (prop_set $"messages" (VArr l) [])))).
  repeat apply json_wf_set; [by apply lit_wf|exact Hnow|by apply lit_wf|exact Hl|done].
Qed.

(** A file exported from the playground is accepted by the import, which gives the
    exported configuration back and stores the exported messages. *)
Theorem export_import_roundtrip now now' o inputs enabled l s s' :
  json_wf (VObj o) -> text_wf now -> text_wf now' -> json_wf (VArr l) ->
  prop $"inputs" o = Some (VObj inputs) -> prop $"parameterEnabled" o = Some (VObj enabled) ->
  exists cfg s2, importConfig now' (exportConfig now (VObj o) (VArr l) s).2 s' = (Ret (VObj cfg), s2)
    /\ loadMessages s2 = VArr l
    /\ (forall k, k <> $"messages" -> k <> $"exportTime" -> k <> $"version" -> prop k cfg = prop k o)
    /\ prop $"messages" cfg = Some (VArr l).
Proof.
  intros Ho Hn Hn' Hl Hi He. unfold exportConfig. cbn [snd]. set (e := export_object now (VObj o) (VArr l) s).
  assert (Hp : props_of o = o) by (by apply json_wf_obj in Ho as [Ho _]).
  assert (Hwe : json_wf (VObj e)).
  { unfold e, export_object. cbn [truthy entries]. rewrite Hp.
    repeat apply json_wf_set;
      [by apply lit_wf|by apply (lit_wf "1.0")|by apply lit_wf|exact Hn|by apply lit_wf|exact Hl|exact Ho]. }
  assert (Hk : forall k, k <> $"messages" -> k <> $"exportTime" -> k <> $"version" -> prop k e = prop k o).
  { intros k H1 H2 H3. unfold e, export_object. cbn [truthy entries]. by rewrite Hp, !prop_set_ne. }
  assert (Hm : prop $"messages" e = Some (VArr l)).
  { unfold e, export_object. cbn [truthy]. rewrite !prop_set_ne by (by js_lit). apply prop_set_eq. }
  destruct (stringify2 (VObj e)) as [text|] eqn:Et; [|done]. cbn [from_option id].
  unfold importConfig. rewrite (parse_stringify2 _ _ Hwe Et). cbn [is_nullish].
  unfold get_any. cbn [entries]. rewrite Hm, !Hk, Hi, He by (by js_lit). cbn [from_option id truthy andb].
  do 2 eexists. split; [reflexivity|]. split; [by apply load_saved_messages|]. by split.
Qed.

Definition sample_config : object :=
  [($"inputs", VObj [($"model", VStr $"m")]); ($"parameterEnabled", VObj [])].

Lemma sample_config_wf : json_wf (VObj sample_config).
Proof.
  change (json_wf (VObj (prop_set $"parameterEnabled" (VObj [])
    (prop_set $"inputs" (VObj (prop_set $"model" (VStr $"m") [])) [])))).
  repeat apply json_wf_set; try done; by apply lit_wf.
Qed.

Lemma config_roundtrip_witness :
  prop $"customRequestBody" (loadConfig (saveConfig $"t" (VObj sample_config) [])) = Some (VStr []).
Proof.
  destruct (config_roundtrip $"t" sample_config [($"model", VStr $"m")] [] [] sample_config_wf
              (lit_wf "t" eq_refl) eq_refl eq_refl) as (c & ci & ce & -> & _ & _ & _ & _ & _ & H & _).
  exact H.
Defined.

Lemma missing_limit_loads_undefined_witness :
  get (get (VObj (loadConfig (saveConfig $"t" (VObj sample_config) []))) $"inputs") $"max_tokens" = VUndef.
Proof.
  exact (proj1 (missing_limit_loads_undefined $"t" sample_config [($"model", VStr $"m")] [] []
                  sample_config_wf (lit_wf "t" eq_refl) eq_refl eq_refl eq_refl)).
Defined.

Lemma export_import_roundtrip_witness :
  exists cfg s2, importConfig $"u" (exportConfig $"t" (VObj sample_config) (VArr [VStr $"hi"]) []).2 [] = (Ret (VObj cfg), s2)
    /\ loadMessages s2 = VArr [VStr $"hi"].
Proof.
  destruct (export_import_roundtrip $"t" $"u" sample_config [($"model", VStr $"m")] [] [VStr $"hi"] [] []
              sample_config_wf (lit_wf "t" eq_refl) (lit_wf "u" eq_refl)
              (proj2 (json_wf_arr [VStr $"hi"]) (Forall_cons_2 json_wf (VStr $"hi") [] (lit_wf "hi" eq_refl) (Forall_nil_2 _)))
              eq_refl eq_refl) as (cfg & s2 & E & H & _).
  by exists cfg, s2.
Defined.

End Storage.

Module State.
Import Messages Storage.

(** ** usePlaygroundState.js *)

(** The hook's state, with the configuration captured by the pending save, if any. *)
Record pg := Pg {
  inputs : val; parameterEnabled : val; showDebugPanel : val; customRequestMode : val; customRequestBody : val;
  message : val; pending : option val
}.

Definition has_id (m : val) (i : jsstr) : outcome bool :=
  bind_outcome (get_or_throw m $"id") (fun x => Ret (eq_str x i)).

(** [loaded.length === 2] *)
Definition length_is_two (v : val) : bool :=
  match v with
  | VArr [_; _] | VStr [_; _] => true
  | VObj o => match prop $"length" o with Some (VNum n) => neqb n n2 | _ => false end
  | _ => false
  end.

Definition old_default (first second : val) : bool :=
  eq_str (get_any first $"content") $"你好"
  || eq_str (get_any second $"content") $"你好，请问有什么可以帮助您的吗？"
  || eq_str (get_any second $"content") $"你好！很高兴见到你。有什么我可以帮助你的吗？".

(** The stored messages; old Chinese defaults are removed from the storage. *)
Definition initialMessages (s : store) : outcome (val * store) :=
  let loaded := loadMessages s in
  if negb (length_is_two loaded) then Ret (loaded, s) else
  let first := get_any loaded $"0" in
  let second := get_any loaded $"1" in
  bind_outcome (has_id first $"2") (fun b1 =>
  if negb b1 then Ret (loaded, s) else
  bind_outcome (has_id second $"3") (fun b2 =>
  if b2 && old_default first second then Ret (VNull, prop_delete MESSAGES s) else Ret (loaded, s))).

(** The state of the first render; [defaults] are the translated default messages. *)
Definition init (defaults : val) (s : store) : outcome (pg * store) :=
  bind_outcome (initialMessages s) (fun '(loaded, s') =>
  let c := VObj (loadConfig s) in
  Ret (Pg (or_default (get c $"inputs") (VObj DEFAULT_inputs))
          (or_default (get c $"parameterEnabled") (VObj DEFAULT_parameterEnabled))
          (or_default (get c $"showDebugPanel") (VBool false))
          (or_default (get c $"customRequestMode") (VBool false))
          (or_default (get c $"customRequestBody") (VStr []))
          (if truthy loaded then loaded else defaults) None, s')).

Definition handleInputChange (name : jsstr) (value : val) (st : pg) : pg :=
  Pg (VObj (prop_set name value (props_of (entries (inputs st))))) (parameterEnabled st) (showDebugPanel st)
     (customRequestMode st) (customRequestBody st) (message st) (pending st).

Definition handleParameterToggle (paramName : jsstr) (st : pg) : pg :=
  let prev := parameterEnabled st in
  Pg (inputs st) (VObj (prop_set paramName (VBool (negb (truthy (get_any prev paramName)))) (props_of (entries prev))))
     (showDebugPanel st) (customRequestMode st) (customRequestBody st) (message st) (pending st).

(** [saveMessages(messagesToSave || message)] *)
Definition saveMessagesImmediately (now : jsstr) (messagesToSave : val) (st : pg) (s : store) : store :=
  saveMessages now (if truthy messagesToSave then messagesToSave else message st) s.

Definition config_of (st : pg) : val :=
  VObj [($"inputs", inputs st); ($"parameterEnabled", parameterEnabled st); ($"showDebugPanel", showDebugPanel st);
        ($"customRequestMode", customRequestMode st); ($"customRequestBody", customRequestBody st)].

(** A call replaces the pending save; the timer then writes what was captured. *)
Definition debouncedSaveConfig (st : pg) : pg :=
  Pg (inputs st) (parameterEnabled st) (showDebugPanel st) (customRequestMode st) (customRequestBody st)
     (message st) (Some (config_of st)).

Definition timer_fires (now : jsstr) (st : pg) (s : store) : pg * store :=
  (Pg (inputs st) (parameterEnabled st) (showDebugPanel st) (customRequestMode st) (customRequestBody st) (message st) None,
   match pending st with Some c => saveConfig now c s | None => s end).

(** On an imported configuration (never null). *)
Definition handleConfigImport (imported : val) (st : pg) : pg :=
  let field k := get_any imported k in
  let i := field $"inputs" in
  let p := field $"parameterEnabled" in
  Pg (if truthy i
      then VObj (prop_set $"max_tokens" (normalize_max_tokens (get_any i $"max_tokens"))
                   (prop_assign (props_of (entries (inputs st))) (entries i)))
      else inputs st)
     (if truthy p then VObj (prop_assign (props_of (entries (parameterEnabled st))) (entries p)) else parameterEnabled st)
     (match field $"showDebugPanel" with VBool b => VBool b | _ => showDebugPanel st end)
     (or_default (field $"customRequestMode") (customRequestMode st))
     (or_default (field $"customRequestBody") (customRequestBody st))
     (match field $"messages" with VArr l => VArr l | _ => message st end)
     (pending st).

(** The reset; with [resetMessages] the list is emptied, and filled by the next tick. *)
Definition handleConfigReset (resetMessages : bool) (st : pg) : pg :=
  Pg (VObj DEFAULT_inputs) (VObj DEFAULT_parameterEnabled) (VBool false) (VBool false) (VStr [])
     (if resetMessages then VArr [] else message st) (pending st).

Definition set_message (m : val) (st : pg) : pg :=
  Pg (inputs st) (parameterEnabled st) (showDebugPanel st) (customRequestMode st) (customRequestBody st) m (pending st).

Definition is_unfinished (m : val) : outcome bool :=
  bind_outcome (get_or_throw m $"status") (fun x => Ret (eq_str x $"loading" || eq_str x $"incomplete")).

Definition fixed_message (m : val) : outcome val :=
  bind_outcome (process_content (or_default (get_any m $"content") (VStr []))
                                (or_default (get_any m $"reasoningContent") (VStr []))) (fun '(c, r) =>
  Ret (VObj (prop_assign (props_of (entries m))
        [($"status", VStr $"complete"); ($"content", c); ($"reasoningContent", or_default r VNull);
         ($"isThinkingComplete", VBool true)]))).

(** The effect of the first mount: the repaired list, and whether it is also saved. *)
Definition repair_last (messages : val) : outcome (option val) :=
  match messages with
  | VArr l =>
    match rev l with
    | [] => Ret None
    | lastMsg :: before =>
      bind_outcome (is_unfinished lastMsg) (fun b =>
      if negb b then Ret None else
      bind_outcome (fixed_message lastMsg) (fun m => Ret (Some (VArr (rev before ++ [m])))))
    end
  | _ => Ret None
  end.

Definition mount_effect (st : pg) : outcome (pg * option val) :=
  bind_outcome (repair_last (message st)) (fun r =>
  Ret match r with Some m => (set_message m st, Some m) | None => (st, None) end).

(** * Theorems *)

(** A message list that waits for nothing: its last message is complete. *)
Definition settled (messages : val) : Prop :=
  match messages with
  | VArr l => match rev l with m :: _ => is_unfinished m = Ret false | [] => True end
  | _ => True
  end.

Lemma fixed_is_object m y : fixed_message m = Ret y -> exists o, y = VObj o.
Proof.
  unfold fixed_message. destruct (process_content _ _) as [[c r]|]; cbn [bind_outcome]; [|done].
  intros E. apply Ret_inj in E. rewrite <- E. by eexists.
Qed.

Lemma fixed_is_complete m y : fixed_message m = Ret y -> get y $"status" = VStr $"complete".
Proof.
  unfold fixed_message. destruct (process_content _ _) as [[c r]|]; cbn [bind_outcome]; [|done].
  intros E. apply Ret_inj in E. rewrite <- E. unfold get. rewrite prop_assign_lookup; [done|].
  cbn [keys map fst]. js_lit. repeat (constructor; [set_solver|]). constructor.
Qed.

Lemma repair_last_spec messages r :
  repair_last messages = Ret r ->
  match r with
  | None => settled messages
  | Some m => settled m /\ exists before x y,
      messages = VArr (before ++ [x]) /\ m = VArr (before ++ [y])
      /\ is_unfinished x = Ret true /\ get y $"status" = VStr $"complete"
  end.
Proof.
  unfold repair_last. destruct messages as [| |?|?|?|l|?]; try (intros [= <-]; done).
  destruct (rev l) as [|x before] eqn:Er.
  { intros [= <-]. unfold settled. by rewrite Er. }
  destruct (is_unfinished x) as [b|] eqn:Eu; [|done]. cbn [bind_outcome]. destruct b; cbn [negb].
  2: { intros [= <-]. unfold settled. by rewrite Er. }
  destruct (fixed_message x) as [y|] eqn:Ey; [|done]. apply fixed_is_complete in Ey as Hy.
  cbn [bind_outcome]. intros [= <-].
  split.
  - unfold settled. rewrite rev_app_distr. cbn [rev app]. unfold is_unfinished, get_or_throw.
    apply fixed_is_object in Ey as [o ->]. cbn [is_nullish bind_outcome].
    change (get_any (VObj o) $"status") with (get (VObj o) $"status"). by rewrite Hy.
  - exists (rev before), x, y. split; [|done]. f_equal. rewrite <- (rev_involutive l), Er. done.
Qed.

(** The repair on mount leaves a list whose last message is complete, keeps every
    earlier message, and schedules the save of exactly the list it shows. *)
Theorem mount_effect_settles st st' saved_list :
  mount_effect st = Ret (st', saved_list) ->
  settled (message st')
  /\ match saved_list with
     | None => st' = st
     | Some m => message st' = m /\ exists before x y,
         message st = VArr (before ++ [x]) /\ m = VArr (before ++ [y])
         /\ is_unfinished x = Ret true /\ get y $"status" = VStr $"complete"
     end.
Proof.
  unfold mount_effect. destruct (repair_last (message st)) as [r|] eqn:E; [|done]. cbn [bind_outcome].
  apply repair_last_spec in E. destruct r as [m|]; intros [= <- <-]; [|done].
  destruct E as [Hs E]. split; [exact Hs|]. split; [done|exact E].
Qed.

Lemma mount_effect_settles_witness :
  let st := Pg (VObj []) (VObj []) VNull VNull VNull
              (VArr [VObj [($"status", VStr $"loading"); ($"content", VStr $"hi")]]) None in
  exists st' saved_list, mount_effect st = Ret (st', saved_list) /\ settled (message st').
Proof.
  intros st. destruct (mount_effect st) as [[st' l]|] eqn:E.
  - exists st', l. split; [done|]. exact (proj1 (mount_effect_settles st st' l E)).
  - exfalso. assert (match mount_effect st with Throw => false | _ => true end = true) as H by (by vm_compute).
    by rewrite E in H.
Defined.

(** The user's actions on the settings. *)
Inductive action :=
| Input (name : jsstr) (value : val)
| Toggle (name : jsstr)
| ImportFile (imported : val)
| ResetAll (resetMessages : bool)
| Schedule.

Definition act (a : action) (st : pg) : pg :=
  match a with
  | Input n v => handleInputChange n v st
  | Toggle n => handleParameterToggle n st
  | ImportFile c => handleConfigImport c st
  | ResetAll b => handleConfigReset b st
  | Schedule => debouncedSaveConfig st
  end.

Definition acts (l : list action) (st : pg) : pg := fold_left (fun s a => act a s) l st.

Lemma acts_pending l st : Forall (fun a => a <> Schedule) l -> pending (acts l st) = pending st.
Proof.
  unfold acts. intros H. revert st. induction H as [|a l Ha _ IH]; intros st; [done|]. cbn [fold_left].
  rewrite IH. by destruct a.
Qed.

Lemma loadMessages_saveConfig now c s : loadMessages (saveConfig now c s) = loadMessages s.
Proof. unfold loadMessages, saved, saveConfig, set_json. rewrite prop_set_ne by (by js_lit). done. Qed.

(** Whatever is done before and after the last scheduled save, once its timer has
    fired a new session starts with the inputs and switches of the moment of that call. *)
Theorem restart_restores_scheduled before after st s now defaults i p :
  let st1 := acts before st in
  Forall (fun a => a <> Schedule) after -> loadMessages s = VNull -> text_wf now ->
  inputs st1 = VObj i -> parameterEnabled st1 = VObj p -> json_wf (config_of st1) ->
  exists ri rp st2 s2,
    init defaults (timer_fires now (acts after (act Schedule st1)) s).2 = Ret (st2, s2)
    /\ inputs st2 = VObj ri /\ parameterEnabled st2 = VObj rp
    /\ (forall k, k <> $"max_tokens" -> prop k ri = merged i DEFAULT_inputs k)
    /\ (forall k, prop k rp = merged p DEFAULT_parameterEnabled k)
    /\ message st2 = defaults.
Proof.
  intros st1 Ha Hm Hn Hi Hp Hw. unfold timer_fires. cbn [snd]. rewrite acts_pending by done.
  cbn [act debouncedSaveConfig pending].
  set (s' := saveConfig now (config_of st1) s).
  destruct (load_saved now _ i p s Hw Hn) as (c & ci & ce & E & Eci & Ece & Hci & _ & Hce & _).
  { unfold config_of. cbn [prop]. rewrite str_eqb_refl. by rewrite Hi. }
  { unfold config_of. js_lit. cbn. by rewrite Hp. }
  fold s' in E. change (loadConfig s' = c) in E.
  assert (initialMessages s' = Ret (VNull, s')) as Hinit.
  { unfold initialMessages. unfold s'. rewrite loadMessages_saveConfig, Hm. done. }
  unfold init. rewrite Hinit. cbn [bind_outcome]. rewrite E. unfold get. rewrite Eci, Ece.
  cbn [from_option id or_default truthy]. do 4 eexists. split; [reflexivity|]. cbn [inputs parameterEnabled message].
  by repeat split.
Qed.

Lemma restart_restores_scheduled_witness :
  let st := Pg (VObj []) (VObj []) (VBool true) (VBool false) (VStr []) VNull None in
  exists ri rp st2 s2,
    init VNull (timer_fires $"t" (acts [ResetAll false] (act Schedule (acts [Toggle $"seed"; Input $"model" (VStr $"m")] st))) []).2
      = Ret (st2, s2)
    /\ inputs st2 = VObj ri /\ parameterEnabled st2 = VObj rp
    /\ (forall k, k <> $"max_tokens" -> prop k ri = merged [($"model", VStr $"m")] DEFAULT_inputs k).
Proof.
  intros st.
  destruct (restart_restores_scheduled [Toggle $"seed"; Input $"model" (VStr $"m")] [ResetAll false] st [] $"t" VNull
              [($"model", VStr $"m")] [($"seed", VBool true)]) as (ri & rp & st2 & s2 & H1 & H2 & H3 & H4 & _).
  - by repeat constructor.
  - done.
  - by apply lit_wf.
  - reflexivity.
  - reflexivity.
  - change (json_wf (VObj (prop_set $"customRequestBody" (VStr [])
      (prop_set $"customRequestMode" (VBool false)
      (prop_set $"showDebugPanel" (VBool true)
      (prop_set $"parameterEnabled" (VObj (prop_set $"seed" (VBool true) []))
      (prop_set $"inputs" (VObj (prop_set $"model" (VStr $"m") [])) []))))))).
    repeat apply json_wf_set; first [by apply lit_wf|done|by constructor].
  - by exists ri, rp, st2, s2.
Defined.

End State.

Module Sync.
Import Messages Storage State.

(** ** useSyncMessageAndCustomBody.js *)

(** The hook's refs. *)
Record refs := Refs {
  isUpdatingFromMessage : bool; isUpdatingFromCustomBody : bool;
  lastMessageHash : jsstr; lastCustomBodyHash : jsstr
}.

Definition text_of (v : val) : jsstr := default $"undefined" (stringify v).

Fixpoint map_get (f : val -> val) (l : list val) : outcome (list val) :=
  match l with
  | [] => Ret []
  | m :: r => if is_nullish m then Throw
              else bind_outcome (map_get f r) (fun r' => Ret (f m :: r'))
  end.

Definition hashed (m : val) : val :=
  VObj [($"id", get_any m $"id"); ($"role", get_any m $"role"); ($"content", get_any m $"content")].

Definition getMessageHash (messages : list val) : outcome jsstr :=
  bind_outcome (map_get hashed messages) (fun l => Ret (text_of (VArr l))).

Definition getCustomBodyHash (customBody : jsstr) : jsstr :=
  match parse customBody with
  | None => []
  | Some p => match get_or_throw p $"messages" with
              | Ret m => text_of (if truthy m then m else VArr [])
              | Throw => []
              end
  end.

Definition body_message (m : val) : val :=
  VObj [($"role", get_any m $"role"); ($"content", get_any m $"content")].

(** [JSON.parse(customRequestBody || '{}')], with the payload made when it fails. *)
Definition parse_body (customRequestBody : jsstr) : option val :=
  parse (if nonempty customRequestBody then customRequestBody else $"{}").

Definition fallback_payload (inputs : val) : val :=
  VObj [($"model", or_default (get_any inputs $"model") (VStr $"gpt-4o")); ($"messages", VArr []);
        ($"temperature", or_default (get_any inputs $"temperature") (VNum (num_of_decimal false 7 (-1))));
        ($"stream", VBool (negb (eq_bool (get_any inputs $"stream") false)))].

(** [payload.messages = m]: on an array the property is not part of its JSON; null and
    primitives throw. *)
Definition set_messages (payload : val) (m : val) : outcome val :=
  match payload with
  | VObj o => Ret (VObj (prop_set $"messages" m o))
  | VArr l => Ret (VArr l)
  | _ => Throw
  end.

(** The new refs and the new body, if one was set. *)
Definition syncMessageToCustomBody (mode : bool) (body : jsstr) (messages : list val) (inputs : val) (r : refs)
  : outcome (refs * option jsstr) :=
  if negb mode || isUpdatingFromCustomBody r then Ret (r, None) else
  bind_outcome (getMessageHash messages) (fun currentMessageHash =>
  if currentMessageHash =s? lastMessageHash r then Ret (r, None) else
  let payload := default (fallback_payload inputs) (parse_body body) in
  bind_outcome (map_get body_message messages) (fun ms =>
  bind_outcome (set_messages payload (VArr ms)) (fun p =>
  let newCustomBody := default $"undefined" (stringify2 p) in
  Ret (Refs false (isUpdatingFromCustomBody r) currentMessageHash (getCustomBodyHash newCustomBody),
       Some newCustomBody)))).

(** The message made from the [index]-th entry of the body. *)
Definition new_message (now : num) (index : Z) (m : val) : val :=
  let role := get_any m $"role" in
  VObj ([($"id", or_default (get_any m $"id") (VStr (Z_to_str (index + 1))));
         ($"role", or_default role (VStr $"user")); ($"content", or_default (get_any m $"content") (VStr []));
         ($"createAt", VNum now)]
        ++ if eq_str role $"assistant"
           then [($"reasoningContent", or_default (get_any m $"reasoningContent") (VStr []));
                 ($"isReasoningExpanded", VBool false)]
           else []).

Fixpoint new_messages (now : num) (index : Z) (l : list val) : outcome (list val) :=
  match l with
  | [] => Ret []
  | m :: r => if is_nullish m then Throw
              else bind_outcome (new_messages now (index + 1) r) (fun r' => Ret (new_message now index m :: r'))
  end.

(** The body of the [try] block: the new messages, when there are. *)
Definition messages_of_body (now : num) (body : jsstr) : outcome (option (list val)) :=
  match parse_body body with
  | None => Throw
  | Some p => bind_outcome (get_or_throw p $"messages") (fun m =>
      match m with
      | VArr l => bind_outcome (new_messages now 0 l) (fun ms => Ret (Some ms))
      | _ => Ret None
      end)
  end.

Definition syncCustomBodyToMessage (mode : bool) (body : jsstr) (now : num) (r : refs) : refs * option (list val) :=
  if negb mode || isUpdatingFromMessage r then (r, None) else
  let h := getCustomBodyHash body in
  if h =s? lastCustomBodyHash r then (r, None) else
  match bind_outcome (messages_of_body now body) (fun o =>
        match o with
        | Some ms => bind_outcome (getMessageHash ms) (fun mh => Ret (Some (ms, mh)))
        | None => Ret None
        end) with
  | Ret (Some (ms, mh)) => (Refs (isUpdatingFromMessage r) false mh h, Some ms)
  | _ => (Refs (isUpdatingFromMessage r) false (lastMessageHash r) (lastCustomBodyHash r), None)
  end.

(** * Theorems *)

Definition idle (r : refs) : Prop := isUpdatingFromMessage r = false /\ isUpdatingFromCustomBody r = false.

(** The two directions never feed each other: after the messages were written to the
    body, reading that body back changes nothing, and so does writing the same messages. *)
Theorem message_sync_settles mode body messages inputs r r' body' now :
  idle r -> syncMessageToCustomBody mode body messages inputs r = Ret (r', Some body') ->
  idle r' /\ syncCustomBodyToMessage mode body' now r' = (r', None)
  /\ syncMessageToCustomBody mode body' messages inputs r' = Ret (r', None).
Proof.
  intros [H1 H2] E. unfold syncMessageToCustomBody in E. rewrite H2 in E.
  destruct mode; cbn [negb orb] in E; [|done].
  destruct (getMessageHash messages) as [h|] eqn:Eh; cbn [bind_outcome] in E; [|done].
  destruct (str_eqb_spec h (lastMessageHash r)); [done|].
  destruct (map_get body_message messages) as [ms|]; cbn [bind_outcome] in E; [|done].
  destruct (set_messages _ _) as [p|]; cbn [bind_outcome] in E; [|done]. cbn zeta in E.
  assert (r' = Refs false false h (getCustomBodyHash body')) as -> by (by injection E as <- <-).
  split; [done|]. unfold syncCustomBodyToMessage, syncMessageToCustomBody.
  cbn [negb orb isUpdatingFromMessage isUpdatingFromCustomBody lastCustomBodyHash lastMessageHash].
  rewrite str_eqb_refl, Eh. cbn [bind_outcome]. by rewrite str_eqb_refl.
Qed.

(** After the body was read into messages, writing those messages back changes
    nothing, and so does reading the same body again. *)
Theorem body_sync_settles mode body inputs r r' ms now now' :
  idle r -> syncCustomBodyToMessage mode body now r = (r', Some ms) ->
  idle r' /\ syncMessageToCustomBody mode body ms inputs r' = Ret (r', None)
  /\ syncCustomBodyToMessage mode body now' r' = (r', None).
Proof.
  intros [H1 H2] E. unfold syncCustomBodyToMessage in E. rewrite H1 in E.
  destruct mode; cbn [negb orb] in E; [|done]. cbn zeta in E.
  destruct (str_eqb_spec (getCustomBodyHash body) (lastCustomBodyHash r)); [done|].
  destruct (messages_of_body now body) as [[l|]|]; cbn [bind_outcome] in E; [|done..].
  destruct (getMessageHash l) as [mh|] eqn:Eh; cbn [bind_outcome] in E; [|done]. injection E as <- <-.
  split; [done|]. unfold syncCustomBodyToMessage, syncMessageToCustomBody.
  cbn [negb orb isUpdatingFromMessage isUpdatingFromCustomBody lastCustomBodyHash lastMessageHash].
  rewrite Eh. cbn [negb orb bind_outcome]. by rewrite !str_eqb_refl.
Qed.

(** A message as the playground holds it: an object with a role and a content. *)
Definition proper_message (m : val) : Prop :=
  exists o, m = VObj o /\ json_wf (get_any m $"role") /\ json_wf (get_any m $"content")
    /\ truthy (get_any m $"role") = true.

Lemma body_message_fields m :
  get_any (body_message m) $"role" = get_any m $"role" /\ get_any (body_message m) $"content" = get_any m $"content".
Proof. unfold body_message. generalize (get_any m $"role") (get_any m $"content"). intros a b. split; by vm_compute. Qed.

Lemma body_message_wf m : proper_message m -> json_wf (body_message m).
Proof.
  intros (o & -> & Hr & Hc & _). unfold body_message.
  change (json_wf (VObj (prop_set $"content" (get_any (VObj o) $"content")
    (prop_set $"role" (get_any (VObj o) $"role") [])))).
  repeat apply json_wf_set; try done; by apply lit_wf.
Qed.

Lemma map_get_proper f l : Forall proper_message l -> map_get f l = Ret (map f l).
Proof.
  induction 1 as [|m l (o & -> & _) _ IH]; [done|]. cbn [map_get is_nullish map]. by rewrite IH.
Qed.

(** The messages read back agree with the ones written, up to an empty content. *)
Definition same_message (m m' : val) : Prop :=
  get_any m' $"role" = get_any m $"role"
  /\ get_any m' $"content" = or_default (get_any m $"content") (VStr []).

Lemma new_message_same now i m : proper_message m -> same_message m (new_message now i (body_message m)).
Proof.
  intros (o & -> & _ & _ & Ht). unfold new_message, same_message. destruct (body_message_fields (VObj o)) as [-> ->].
  cbn zeta. set (role := get_any (VObj o) $"role") in *.
  assert (or_default role (VStr $"user") = role) as -> by (unfold or_default; by rewrite Ht).
  generalize (if eq_str role $"assistant" then [($"reasoningContent",
    or_default (get_any (body_message (VObj o)) $"reasoningContent") (VStr [])); ($"isReasoningExpanded", VBool false)] else []).
  generalize (or_default (get_any (body_message (VObj o)) $"id") (VStr (Z_to_str (i + 1)))).
  generalize (or_default (get_any (VObj o) $"content") (VStr [])). intros content id' rest.
  unfold get_any. cbn [entries app]. js_lit. split; reflexivity.
Qed.

Lemma new_messages_same now l : forall i, Forall proper_message l ->
  exists l', new_messages now i (map body_message l) = Ret l' /\ Forall2 same_message l l'.
Proof.
  induction l as [|m l IH]; intros i H; [by exists []|]. apply Forall_cons_1 in H as [Hm Hl].
  destruct (IH (i + 1) Hl) as (l' & E & Hl'). cbn [map new_messages].
  change (is_nullish (body_message m)) with false. cbn iota. rewrite E. cbn [bind_outcome].
  eexists. split; [reflexivity|]. constructor; [by apply new_message_same|done].
Qed.

(** What the synchronisation writes into a custom body that is a JSON object keeps its
    other properties, and reading the written body gives messages with the same roles and
    contents. *)
Theorem sync_body_carries_messages mode body o messages inputs r r' body' now :
  parse_body body = Some (VObj o) -> json_wf (VObj o) -> Forall proper_message messages ->
  syncMessageToCustomBody mode body messages inputs r = Ret (r', Some body') ->
  exists o' ms, parse body' = Some (VObj o')
    /\ (forall k, k <> $"messages" -> prop k o' = prop k o)
    /\ messages_of_body now body' = Ret (Some ms) /\ Forall2 same_message messages ms.
Proof.
  intros Hp Hw Hm E. unfold syncMessageToCustomBody in E. destruct (negb mode || _); [done|].
  destruct (getMessageHash messages) as [h|]; cbn [bind_outcome] in E; [|done]. destruct (h =s? _); [done|].
  rewrite map_get_proper, Hp in E by done. cbn [bind_outcome from_option id set_messages] in E. cbn zeta in E.
  set (o' := prop_set $"messages" (VArr (map body_message messages)) o) in E.
  assert (Ho' : json_wf (VObj o')).
  { apply json_wf_set; [by apply lit_wf| |done]. apply json_wf_arr, Forall_map. eapply Forall_impl; [exact Hm|].
    apply body_message_wf. }
  destruct (stringify2 (VObj o')) as [text|] eqn:Et; [|done]. cbn [from_option id] in E.
  assert (body' = text) as -> by (by injection E as _ <-).
  pose proof (parse_stringify2 _ _ Ho' Et) as Hparse.
  destruct (new_messages_same now messages 0 Hm) as (ms & Ems & Hms). exists o', ms. split; [done|]. split.
  - intros k Hk. unfold o'. by rewrite prop_set_ne.
  - split; [|done]. unfold messages_of_body, parse_body.
    assert (nonempty text = true) as ->.
    { destruct text; [|done]. exfalso. unfold stringify2 in Et. cbn [ser] in Et. unfold wrap in Et.
      by destruct (flat_map _ _). }
    rewrite Hparse. unfold get_or_throw, get_any. cbn [is_nullish entries bind_outcome]. unfold o'. rewrite prop_set_eq.
    cbn [from_option id]. by rewrite Ems.
Qed.

Definition no_refs : refs := Refs false false [] [].
Definition sample_messages : list val := [VObj [($"role", VStr $"user"); ($"content", VStr $"hi")]].
Definition sample_body : jsstr := default [] (stringify2 (VObj [($"messages", VArr sample_messages)])).

Lemma sample_proper : Forall proper_message sample_messages.
Proof. constructor; [|constructor]. eexists. split; [done|]. repeat split; by apply lit_wf. Qed.

Lemma message_sync_settles_witness :
  exists r' body', syncMessageToCustomBody true [] sample_messages VUndef no_refs = Ret (r', Some body')
    /\ syncCustomBodyToMessage true body' n0 r' = (r', None).
Proof.
  destruct (syncMessageToCustomBody true [] sample_messages VUndef no_refs) as [[r' [b|]]|] eqn:E; [|by vm_compute in E..].
  exists r', b. split; [done|].
  exact (proj1 (proj2 (message_sync_settles true [] sample_messages VUndef no_refs r' b n0 (conj eq_refl eq_refl) E))).
Defined.

Lemma body_sync_settles_witness :
  exists r' ms, syncCustomBodyToMessage true sample_body n0 no_refs = (r', Some ms)
    /\ syncMessageToCustomBody true sample_body ms VUndef r' = Ret (r', None).
Proof.
  destruct (syncCustomBodyToMessage true sample_body n0 no_refs) as [r' [ms|]] eqn:E; [|by vm_compute in E].
  exists r', ms. split; [done|].
  exact (proj1 (proj2 (body_sync_settles true sample_body VUndef no_refs r' ms n0 n0 (conj eq_refl eq_refl) E))).
Defined.

Lemma sync_body_carries_messages_witness :
  exists r' body' ms, syncMessageToCustomBody true [] sample_messages VUndef no_refs = Ret (r', Some body')
    /\ messages_of_body n0 body' = Ret (Some ms) /\ Forall2 same_message sample_messages ms.
Proof.
  destruct (syncMessageToCustomBody true [] sample_messages VUndef no_refs) as [[r' [b|]]|] eqn:E; [|by vm_compute in E..].
  destruct (sync_body_carries_messages true [] [] sample_messages VUndef no_refs r' b n0) as (o' & ms & _ & _ & H1 & H2).
  - by vm_compute.
  - done.
  - apply sample_proper.
  - exact E.
  - by exists r', b, ms.
Defined.

End Sync.
