(* ===== verification/Api.v ===== *)
(** * The API client and the playground's requests

    [web/src/helpers/api.js], [showError] and the login data of
    [web/src/helpers/utils.jsx], and [web/src/hooks/playground/useDataLoader.js].  The
    network is an event source: a request is an identifier, settled later; the
    platform's URL parser is an argument. *)
From S2P Require Import Prelude JSNum JSValue Json Playground.
From Stdlib Require Import SpecFloat.
#[local] Open Scope Z_scope.
#[local] Arguments js _ : simpl never.

Module Client.
Import Storage.

(** ** utils.jsx: the logged-in user and the error display *)

(** [JSON.parse(localStorage.getItem('user'))] read at [k]; [None] without a user. *)
Definition user_field (k : jsstr) (s : store) : option (outcome val) :=
  match saved $"user" s with
  | None => None
  | Some r => Some (bind_outcome r (fun u => get_or_throw u k))
  end.

(** [v >= n] for the roles, which are numbers; other values are compared as numbers. *)
Definition at_least (v : val) (n : Z) : bool := nleb (of_Z n) (Number_val v).

Definition isAdmin (s : store) : outcome bool :=
  match user_field $"role" s with
  | None => Ret false
  | Some r => bind_outcome r (fun v => Ret (at_least v 10))
  end.

Definition isRoot (s : store) : outcome bool :=
  match user_field $"role" s with
  | None => Ret false
  | Some r => bind_outcome r (fun v => Ret (at_least v 100))
  end.

Definition getUserIdFromLocalStorage (s : store) : outcome val :=
  match user_field $"id" s with
  | None => Ret (VNum (of_Z (-1)))
  | Some r => r
  end.

(** An error as the display reads it; [as_text] is its string conversion. *)
Record error := Err {
  message : jsstr; name : jsstr; response_status : option Z; as_text : jsstr; skipErrorHandler : bool
}.

Inductive display := ToastError (m : jsstr) | ToastInfo (m : jsstr) | Expired.

(** [Throw]: an AxiosError without a response has no status to read. *)
Definition showError (e : error) : outcome display :=
  if negb (nonempty (message e)) then Ret (ToastError ($"错误：" ++ as_text e)) else
  if name e =s? $"AxiosError" then
    match response_status e with
    | None => Throw
    | Some st =>
      Ret (if st =? 401 then Expired
           else if st =? 429 then ToastError $"错误：请求次数过多，请稍后再试！"
           else if st =? 500 then ToastError $"错误：服务器内部错误，请联系管理员！"
           else if st =? 405 then ToastInfo $"本站仅作演示之用，无服务端！"
           else ToastError ($"错误：" ++ message e))
    end
  else Ret (ToastError ($"错误：" ++ message e)).

(** [localStorage] after the display: an expired session removes the user. *)
Definition shown (d : display) (s : store) : store :=
  match d with Expired => prop_delete $"user" s | _ => s end.

(** ** api.js: requests in flight *)

(** A request sent to the network, with the key it is registered under. *)
Record request := Request { r_id : nat; r_url : jsstr; r_config : val; r_key : option jsstr }.

(** An axios instance: its user header, whether the error interceptor is installed, the
    map of requests in flight, and the requests not settled yet. *)
Record instance := Instance {
  user_header : val; intercepted : bool;
  inFlightGetRequests : list (jsstr * nat); outstanding : list request; next_id : nat
}.

Definition genKey (url : jsstr) (config : val) : outcome jsstr :=
  bind_outcome (get_or_throw config $"params") (fun params =>
  Ret (url ++ $"?" ++ if truthy params then default $"undefined" (stringify params) else $"{}")).

(** The original [get]: a new promise. *)
Definition originalGet (url : jsstr) (config : val) (key : option jsstr) (i : instance) : nat * instance :=
  (next_id i, Instance (user_header i) (intercepted i) (inFlightGetRequests i)
                (outstanding i ++ [Request (next_id i) url config key]) (S (next_id i))).

Definition set_in_flight (m : list (jsstr * nat)) (i : instance) : instance :=
  Instance (user_header i) (intercepted i) m (outstanding i) (next_id i).

(** The patched [get]: the promise it returns. *)
Definition patched_get (url : jsstr) (config : val) (i : instance) : outcome (nat * instance) :=
  let config := match config with VUndef => VObj [] | _ => config end in
  if truthy (get_any config $"disableDuplicate") then Ret (originalGet url config None i) else
  bind_outcome (genKey url config) (fun key =>
  match prop key (inFlightGetRequests i) with
  | Some p => Ret (p, i)
  | None =>
    let '(p, i') := originalGet url config (Some key) i in
    Ret (p, set_in_flight (prop_set key p (inFlightGetRequests i')) i')
  end).

(** The request [id] is settled: the [finally] handler of a registered one removes its key. *)
Definition settle (id : nat) (i : instance) : instance :=
  match List.find (fun r => Nat.eqb (r_id r) id) (outstanding i) with
  | None => i
  | Some r =>
    let m := match r_key r with
             | Some k => prop_delete k (inFlightGetRequests i)
             | None => inFlightGetRequests i
             end in
    Instance (user_header i) (intercepted i) m
      (List.filter (fun r => negb (Nat.eqb (r_id r) id)) (outstanding i)) (next_id i)
  end.

(** [axios.create] with the headers, patched. *)
Definition create (s : store) : outcome instance :=
  bind_outcome (getUserIdFromLocalStorage s) (fun u => Ret (Instance u false [] [] 0)).

(** The module's own instance also gets the response interceptor. *)
Definition initial_API (s : store) : outcome instance :=
  bind_outcome (create s) (fun i => Ret (Instance (user_header i) true [] [] 0)).

Definition updateAPI (s : store) : outcome instance := create s.

(** What a rejected request displays before its caller sees the rejection. *)
Definition on_rejected (i : instance) (e : error) : outcome (option display) :=
  if negb (intercepted i) || skipErrorHandler e then Ret None
  else bind_outcome (showError e) (fun d => Ret (Some d)).

(** * Theorems *)

(** The map names exactly the registered requests that are not settled. *)
Record flight_ok (i : instance) : Prop := {
  ok_ids : NoDup (map r_id (outstanding i));
  ok_fresh : forall r, r ∈ outstanding i -> (r_id r < next_id i)%nat;
  ok_keys : NoDup (keys (inFlightGetRequests i));
  ok_map : forall k p, prop k (inFlightGetRequests i) = Some p
             <-> exists r, r ∈ outstanding i /\ r_key r = Some k /\ r_id r = p
}.

Inductive step : instance -> instance -> Prop :=
| step_get url config i p i' : patched_get url config i = Ret (p, i') -> step i i'
| step_settle id i : step i (settle id i).

Inductive reachable (i0 : instance) : instance -> Prop :=
| reach_refl : reachable i0 i0
| reach_step i i' : reachable i0 i -> step i i' -> reachable i0 i'.

Lemma ids_inj l r r' : NoDup (map r_id l) -> r ∈ l -> r' ∈ l -> r_id r = r_id r' -> r = r'.
Proof.
  induction l as [|x l IH]; [set_solver|]. cbn [map]. intros [Hx Hl]%NoDup_cons Hr Hr' E.
  assert (Hin : forall y, y ∈ l -> r_id y ∈ map r_id l) by (intros y Hy; apply list_elem_of_fmap; eauto).
  apply elem_of_cons in Hr as [->|Hr]; apply elem_of_cons in Hr' as [->|Hr']; auto;
    exfalso; apply Hx; [rewrite E|rewrite <- E]; auto.
Qed.

Lemma originalGet_ids url config key i :
  flight_ok i -> NoDup (map r_id (outstanding (originalGet url config key i).2))
  /\ (forall r, r ∈ outstanding (originalGet url config key i).2 -> (r_id r < S (next_id i))%nat).
Proof.
  intros H. cbn [originalGet snd outstanding]. split.
  - rewrite map_app. apply NoDup_app. split; [apply ok_ids, H|]. split; [|repeat constructor; set_solver].
    intros x Hx. apply list_elem_of_fmap in Hx as (r & -> & Hr). apply (ok_fresh i H) in Hr.
    cbn. intros E%list_elem_of_singleton. lia.
  - intros r [Hr| ->%list_elem_of_singleton]%elem_of_app; [apply (ok_fresh i H) in Hr; lia|cbn; lia].
Qed.

Lemma patched_get_ok url config i p i' :
  flight_ok i -> patched_get url config i = Ret (p, i') -> flight_ok i'.
Proof.
  intros H. unfold patched_get. cbn zeta.
  set (c := match config with VUndef => VObj [] | _ => config end).
  destruct (truthy _).
  - intros [= <- <-]. destruct (originalGet_ids url c None i H) as [H1 H2].
    split; [exact H1|exact H2|exact (ok_keys i H)|]. cbn [inFlightGetRequests outstanding].
    intros k p. rewrite (ok_map i H). split; intros (r & Hr & E1 & E2).
    + exists r. split; [apply elem_of_app; by left|done].
    + apply elem_of_app in Hr as [Hr| ->%list_elem_of_singleton]; [by exists r|done].
  - destruct (genKey url c) as [key|]; cbn [bind_outcome]; [|done].
    destruct (prop key (inFlightGetRequests i)) as [q|] eqn:Ek; [by intros [= <- <-]|].
    destruct (originalGet url c (Some key) i) as [q i1] eqn:Eo. intros [= <- <-].
    destruct (originalGet_ids url c (Some key) i H) as [H1 H2]. rewrite Eo in H1, H2. cbn [snd] in H1, H2.
    unfold originalGet in Eo. injection Eo as <- <-. split; [exact H1|exact H2| |].
    + cbn [set_in_flight inFlightGetRequests]. exact (prop_set_NoDup _ _ _ (ok_keys i H)).
    + cbn [set_in_flight inFlightGetRequests outstanding] in *. intros k p. rewrite prop_set_lookup.
      destruct (str_eqb_spec k key) as [->|Hk].
      * split.
        -- intros [= <-]. eexists. split; [apply elem_of_app; right; by apply list_elem_of_singleton|done].
        -- intros (r & Hr & E1 & E2). apply elem_of_app in Hr as [Hr| ->%list_elem_of_singleton]; [|by subst].
           assert (prop key (inFlightGetRequests i) = Some p) by (apply (ok_map i H); by exists r). congruence.
      * rewrite (ok_map i H). split; intros (r & Hr & E1 & E2).
        -- exists r. split; [apply elem_of_app; by left|done].
        -- apply elem_of_app in Hr as [Hr| ->%list_elem_of_singleton]; [by exists r|].
           cbn in E1. congruence.
Qed.

Lemma settle_ok id i : flight_ok i -> flight_ok (settle id i).
Proof.
  intros H. unfold settle. destruct (List.find _ _) as [r|] eqn:Ef; [|done].
  apply List.find_some in Ef as [Hr Hid]. apply list_elem_of_In in Hr. apply Nat.eqb_eq in Hid.
  assert (Hf : forall x, x ∈ List.filter (fun r => negb (Nat.eqb (r_id r) id)) (outstanding i)
                 <-> x ∈ outstanding i /\ r_id x <> id).
  { intros x. rewrite elem_of_lfilter, negb_true_iff, Nat.eqb_neq. done. }
  split; cbn [outstanding next_id inFlightGetRequests].
  - exact (NoDup_map_lfilter r_id _ _ (ok_ids i H)).
  - intros x [Hx _]%Hf. by apply (ok_fresh i H).
  - destruct (r_key r); [|exact (ok_keys i H)]. exact (NoDup_map_lfilter fst _ _ (ok_keys i H)).
  - intros k p. pose proof (ok_map i H) as Hm. destruct (r_key r) as [kr|] eqn:Ekr.
    + rewrite prop_delete_lookup. destruct (str_eqb_spec k kr) as [->|Hk].
      * split; [done|]. intros (x & [Hx Hn]%Hf & E1 & E2). exfalso. apply Hn.
        assert (prop kr (inFlightGetRequests i) = Some (r_id r)) as Hp by (apply Hm; by exists r).
        assert (prop kr (inFlightGetRequests i) = Some (r_id x)) as Hp' by (apply Hm; by exists x). congruence.
      * rewrite Hm. split; intros (x & Hx & E1 & E2); exists x.
        -- split; [|done]. apply Hf. split; [done|]. intros E. rewrite <- Hid in E.
           rewrite (ids_inj _ x r (ok_ids i H) Hx Hr E) in E1. congruence.
        -- apply Hf in Hx as [Hx _]. done.
    + rewrite Hm. split; intros (x & Hx & E1 & E2); exists x.
      -- split; [|done]. apply Hf. split; [done|]. intros E. rewrite <- Hid in E.
         rewrite (ids_inj _ x r (ok_ids i H) Hx Hr E) in E1. congruence.
      -- apply Hf in Hx as [Hx _]. done.
Qed.

Lemma create_ok s i : create s = Ret i -> flight_ok i.
Proof.
  unfold create. destruct (getUserIdFromLocalStorage s); [|done]. intros [= <-].
  split; cbn; [constructor|set_solver|constructor|]. intros k p. split; [done|]. intros (r & Hr & _). set_solver.
Qed.

Lemma reachable_ok i0 i : flight_ok i0 -> reachable i0 i -> flight_ok i.
Proof.
  intros H0. induction 1 as [|i i' _ IH Hs]; [done|]. destruct Hs; [by eapply patched_get_ok|by apply settle_ok].
Qed.

(** The instance between calls of [get] and settled requests, from its creation on. *)
Definition live (i : instance) : Prop := exists s i0, create s = Ret i0 /\ reachable i0 i.

Lemma live_ok i : live i -> flight_ok i.
Proof. intros (s & i0 & Hc & Hr). eapply reachable_ok; [by eapply create_ok|done]. Qed.

(** C9: at every moment no two unsettled requests were registered for the same address
    and parameters, and the map holds exactly the registered ones. *)
Theorem no_duplicate_in_flight i :
  live i ->
  (forall r r', r ∈ outstanding i -> r' ∈ outstanding i -> is_Some (r_key r) -> r_key r = r_key r' -> r = r')
  /\ forall k p, prop k (inFlightGetRequests i) = Some p
       <-> exists r, r ∈ outstanding i /\ r_key r = Some k /\ r_id r = p.
Proof.
  intros Hl. pose proof (live_ok i Hl) as H. split; [|apply (ok_map i H)].
  intros r r' Hr Hr' [k Hk] E. apply (ids_inj _ r r' (ok_ids i H)); [done..|].
  assert (prop k (inFlightGetRequests i) = Some (r_id r)) by (apply (ok_map i H); by exists r).
  assert (prop k (inFlightGetRequests i) = Some (r_id r')) by (apply (ok_map i H); exists r'; by rewrite <- E).
  congruence.
Qed.

Lemma live_reachable i i' : live i -> reachable i i' -> live i'.
Proof.
  intros (s & i0 & Hc & Hr) H. exists s, i0. split; [done|].
  induction H as [|i1 i2 _ IH Hs]; [done|]. by eapply reach_step.
Qed.

Lemma patched_get_outstanding url config i p i' key :
  flight_ok i -> patched_get url config i = Ret (p, i') ->
  truthy (get_any match config with VUndef => VObj [] | _ => config end $"disableDuplicate") = false ->
  genKey url match config with VUndef => VObj [] | _ => config end = Ret key ->
  prop key (inFlightGetRequests i') = Some p.
Proof.
  intros H. unfold patched_get. cbn zeta. intros E Ht Hk. rewrite Ht, Hk in E. cbn [bind_outcome] in E.
  destruct (prop key (inFlightGetRequests i)) as [q|] eqn:Ep; [by injection E as <- <-|].
  destruct (originalGet _ _ _ _) as [q i1]. injection E as <- <-. cbn [set_in_flight inFlightGetRequests].
  apply prop_set_eq.
Qed.

(** While a registered request is not settled, whatever else is requested or settled,
    another get of the same address and parameters returns its promise and sends nothing. *)
Theorem pending_get_is_shared url config i p i1 i2 r key :
  live i -> patched_get url config i = Ret (p, i1) ->
  truthy (get_any match config with VUndef => VObj [] | _ => config end $"disableDuplicate") = false ->
  genKey url match config with VUndef => VObj [] | _ => config end = Ret key ->
  reachable i1 i2 -> r ∈ outstanding i1 -> r_id r = p -> r ∈ outstanding i2 ->
  patched_get url config i2 = Ret (p, i2).
Proof.
  intros Hl E Ht Hk Hr Hr1 Hp Hr2. pose proof (live_ok i Hl) as H.
  pose proof (patched_get_ok _ _ _ _ _ H E) as H1. pose proof (reachable_ok _ _ H1 Hr) as H2.
  pose proof (patched_get_outstanding _ _ _ _ _ _ H E Ht Hk) as Hm.
  apply (ok_map i1 H1) in Hm as (r' & Hr' & Hk' & Hp').
  rewrite <- (ids_inj _ r r' (ok_ids i1 H1) Hr1 Hr') in Hk' by congruence.
  assert (prop key (inFlightGetRequests i2) = Some p) as Hm2 by (apply (ok_map i2 H2); by exists r).
  unfold patched_get. cbn zeta. rewrite Ht, Hk. cbn [bind_outcome]. by rewrite Hm2.
Qed.

(** The instance made by [updateAPI] has no response interceptor: an error that the
    first instance displays is displayed by none of its requests. *)
Theorem updated_API_displays_nothing s i0 i e :
  initial_API s = Ret i0 -> updateAPI s = Ret i -> skipErrorHandler e = false ->
  (forall d, showError e = Ret d -> on_rejected i0 e = Ret (Some d)) /\ on_rejected i e = Ret None.
Proof.
  unfold initial_API, updateAPI, create. destruct (getUserIdFromLocalStorage s) as [u|]; cbn [bind_outcome]; [|done].
  intros [= <-] [= <-] Hs. unfold on_rejected. cbn [intercepted negb orb]. rewrite Hs. split; [|done].
  intros d ->. done.
Qed.

(** An AxiosError without a response, as a lost connection gives, makes the error
    display itself fail instead of showing the message. *)
Theorem network_error_not_displayed i e :
  intercepted i = true -> skipErrorHandler e = false ->
  name e = $"AxiosError" -> message e <> [] -> response_status e = None -> on_rejected i e = Throw.
Proof.
  intros Hi Hs Hn Hm Hr. unfold on_rejected, showError. rewrite Hi, Hs, Hn, Hr, str_eqb_refl.
  by destruct (message e).
Qed.

Definition fresh : instance := Instance (VNum (of_Z (-1))) false [] [] 0.

Lemma fresh_live : live fresh.
Proof. exists [], fresh. split; [reflexivity|constructor]. Qed.

Definition after_get : instance := catch (bind_outcome (patched_get $"/a" VUndef fresh) (fun x => Ret x.2)) fresh.

Lemma after_get_live : live after_get.
Proof.
  exists [], fresh. split; [reflexivity|]. eapply reach_step; [apply reach_refl|].
  apply (step_get $"/a" VUndef fresh 0%nat). by vm_compute.
Qed.

Lemma no_duplicate_in_flight_witness :
  prop $"/a?{}" (inFlightGetRequests after_get) = Some 0%nat
  <-> exists r, r ∈ outstanding after_get /\ r_key r = Some $"/a?{}" /\ r_id r = 0%nat.
Proof. exact (proj2 (no_duplicate_in_flight after_get after_get_live) $"/a?{}" 0%nat). Defined.


Lemma pending_get_is_shared_witness : patched_get $"/a" VUndef after_get = Ret (0%nat, after_get).
Proof.
  apply (pending_get_is_shared $"/a" VUndef fresh 0 after_get after_get
           (Request 0 $"/a" (VObj []) (Some $"/a?{}")) $"/a?{}" fresh_live); try reflexivity.
  - constructor.
  - by apply list_elem_of_singleton.
  - by apply list_elem_of_singleton.
Defined.

Definition lost_connection : error := Err $"Network Error" $"AxiosError" None $"AxiosError: Network Error" false.

Lemma updated_API_displays_nothing_witness :
  on_rejected fresh (Err $"failed" $"AxiosError" (Some 500) [] false) = Ret None.
Proof.
  refine (proj2 (updated_API_displays_nothing [] (Instance (VNum (of_Z (-1))) true [] [] 0) fresh
                   (Err $"failed" $"AxiosError" (Some 500) [] false) _ _ _)); reflexivity.
Defined.

Lemma network_error_not_displayed_witness :
  on_rejected (Instance (VNum (of_Z (-1))) true [] [] 0) lost_connection = Throw.
Proof. apply network_error_not_displayed; try reflexivity. by js_lit. Defined.

End Client.

Module Payload.
Import Messages Storage.

(** ** api.js: the playground's requests *)

Definition parameterMappings : list jsstr :=
  [$"temperature"; $"top_p"; $"max_tokens"; $"frequency_penalty"; $"presence_penalty"; $"seed"].

(** The value a parameter is sent with, when it is. *)
Definition parameter_value (inputs parameterEnabled : val) (k : jsstr) : option val :=
  let value := get_any inputs k in
  if negb (truthy (get_any parameterEnabled k)) then None
  else if k =s? $"max_tokens" then match value with VNum n => Some (VNum n) | _ => None end
  else if is_nullish value then None else Some value.

Definition add_parameter (inputs parameterEnabled : val) (payload : object) (k : jsstr) : object :=
  match parameter_value inputs parameterEnabled k with
  | Some v => prop_set k v payload
  | None => payload
  end.

(** [messages.filter(isValidMessage).map(formatMessageForAPI).filter(Boolean)] *)
Definition processedMessages (messages : list val) : list val :=
  List.filter truthy (map formatMessageForAPI (List.filter isValidMessage messages)).

(** [systemPrompt] is a string or null. *)
Definition with_system (systemPrompt : option jsstr) (messages : list val) : list val :=
  match systemPrompt with
  | Some s => if nonempty (trim s)
              then VObj [($"role", VStr $"system"); ($"content", VStr (trim s))] :: messages else messages
  | None => messages
  end.

Definition base_payload (inputs : val) (messages : list val) : object :=
  [($"model", get_any inputs $"model"); ($"group", get_any inputs $"group"); ($"messages", VArr messages);
   ($"stream", get_any inputs $"stream")].

Definition buildApiPayload (messages : list val) (systemPrompt : option jsstr) (inputs parameterEnabled : val) : object :=
  fold_left (add_parameter inputs parameterEnabled) parameterMappings
    (base_payload inputs (with_system systemPrompt (processedMessages messages))).

Record response := Response { status : val; statusText : val }.

(** [timestamp] and [stack] come from the platform; an empty message is replaced. *)
Definition handleApiError (message : jsstr) (timestamp : jsstr) (stack : val) (r : option response) : object :=
  let base := [($"error", VStr (if nonempty message then message else $"未知错误")); ($"timestamp", VStr timestamp);
               ($"stack", stack)] in
  let withStatus := match r with
                    | Some x => base ++ [($"status", status x); ($"statusText", statusText x)]
                    | None => base
                    end in
  if includes $"HTTP error" message then withStatus ++ [($"details", VStr $"服务器返回了错误状态码")]
  else if includes $"Failed to fetch" message then withStatus ++ [($"details", VStr $"网络连接失败或服务器无响应")]
  else withStatus.

(** The options, and the model to select ([None]: undefined). *)
Definition processModelsData (data : list jsstr) (currentModel : jsstr) : list (jsstr * jsstr) * option jsstr :=
  let modelOptions := map (fun m => (m, m)) data in
  let hasCurrentModel := existsb (fun o => o.2 =s? currentModel) modelOptions in
  (modelOptions, if hasCurrentModel && negb (Nat.eqb (length modelOptions) 0) then Some currentModel
                 else snd <$> head modelOptions).

Record group_info := GroupInfo { desc : jsstr; ratio : val }.
Record group_option := GroupOption { label : jsstr; value : jsstr; g_ratio : val; fullLabel : option jsstr }.

Definition option_of_group (g : jsstr * group_info) : group_option :=
  let d := desc g.2 in
  GroupOption (if 20 <? Z.of_nat (length d) then take 20 d ++ $"..." else d) g.1 (ratio g.2) (Some d).

(** [splice(index, 1)] then [unshift], for the first option of the group. *)
Fixpoint move_first (v : jsstr) (l : list group_option) : option (group_option * list group_option) :=
  match l with
  | [] => None
  | o :: r => if value o =s? v then Some (o, r)
              else match move_first v r with Some (x, r') => Some (x, o :: r') | None => None end
  end.

Definition processGroupsData (data : list (jsstr * group_info)) (userGroup : jsstr) : list group_option :=
  match map option_of_group data with
  | [] => [GroupOption $"用户分组" [] (VNum n1) None]
  | l => if nonempty userGroup
         then match move_first userGroup l with Some (o, r) => o :: r | None => l end
         else l
  end.

(** useDataLoader.js: the model and the group the inputs change to, if they do. *)
Definition loadModels (data : list jsstr) (model : jsstr) : option (option jsstr) :=
  let selected := (processModelsData data model).2 in
  if bool_decide (selected = Some model) then None else Some selected.

Definition loadGroups (data : list (jsstr * group_info)) (userGroup group : jsstr) : option jsstr :=
  let groupOptions := processGroupsData data userGroup in
  if existsb (fun o => value o =s? group) groupOptions then None
  else Some (match groupOptions with o :: _ => value o | [] => [] end).

(** * Theorems *)

Lemma fold_parameters inputs enabled ks p k :
  NoDup ks ->
  prop k (fold_left (add_parameter inputs enabled) ks p)
    = if bool_decide (k ∈ ks)
      then match parameter_value inputs enabled k with Some v => Some v | None => prop k p end
      else prop k p.
Proof.
  intros Hn. revert p. induction Hn as [|x ks Hx _ IH]; intros p; [by rewrite bool_decide_eq_false_2 by set_solver|].
  cbn [fold_left]. rewrite IH.
  assert (E : prop k (add_parameter inputs enabled p x)
              = if k =s? x then match parameter_value inputs enabled x with Some v => Some v | None => prop k p end
                else prop k p).
  { unfold add_parameter. destruct (parameter_value inputs enabled x); [apply prop_set_lookup|]. by destruct (k =s? x). }
  rewrite E. destruct (str_eqb_spec k x) as [->|Hk].
  - rewrite bool_decide_eq_false_2 by done. by rewrite bool_decide_eq_true_2 by set_solver.
  - destruct (bool_decide_reflect (k ∈ ks)).
    + by rewrite bool_decide_eq_true_2 by set_solver.
    + by rewrite bool_decide_eq_false_2 by set_solver.
Qed.

Lemma mappings_NoDup : NoDup parameterMappings.
Proof.
  unfold parameterMappings. js_lit. repeat (constructor; [set_solver|]). constructor.
Qed.

(** The properties every payload has. *)
Definition base_keys : list jsstr := [$"model"; $"group"; $"messages"; $"stream"].

(** A sampling parameter is part of the request exactly when its switch is on and it
    has a value (for the token limit, a number), and then with that value; the request
    has no other properties than these and the four fixed ones. *)
Theorem payload_parameters messages prompt inputs enabled k :
  prop k (buildApiPayload messages prompt inputs enabled) =
    if bool_decide (k ∈ parameterMappings) then parameter_value inputs enabled k
    else prop k (base_payload inputs (with_system prompt (processedMessages messages))).
Proof.
  unfold buildApiPayload. rewrite fold_parameters by apply mappings_NoDup.
  destruct (bool_decide_reflect (k ∈ parameterMappings)) as [Hk|]; [|done].
  destruct (parameter_value inputs enabled k); [done|].
  unfold parameterMappings in Hk. unfold base_payload. rewrite !elem_of_cons in Hk.
  destruct Hk as [->|[->|[->|[->|[->|[->|Hk]]]]]]; [by cbn..|]. by apply elem_of_nil in Hk.
Qed.

Lemma base_messages inputs ms : prop $"messages" (base_payload inputs ms) = Some (VArr ms).
Proof. reflexivity. Qed.

Lemma processedMessages_eq messages :
  processedMessages messages
    = map (fun m => VObj [($"role", get_any m $"role"); ($"content", get_any m $"content")])
          (List.filter isValidMessage messages).
Proof.
  unfold processedMessages. induction messages as [|m messages IH]; cbn [List.filter map]; [done|].
  destruct (isValidMessage m) eqn:Ev; [|exact IH]. cbn [map List.filter].
  assert (truthy m = true) as Ht by (unfold isValidMessage in Ev; by destruct (truthy m)).
  assert (formatMessageForAPI m = VObj [($"role", get_any m $"role"); ($"content", get_any m $"content")]) as ->
    by (unfold formatMessageForAPI; by rewrite Ht).
  cbn [truthy]. by rewrite IH.
Qed.

(** The request carries the valid messages in order, reduced to role and content, after
    the trimmed system prompt when there is one. *)
Theorem payload_messages messages prompt inputs enabled :
  get (VObj (buildApiPayload messages prompt inputs enabled)) $"messages"
    = VArr (with_system prompt
              (map (fun m => VObj [($"role", get_any m $"role"); ($"content", get_any m $"content")])
                   (List.filter isValidMessage messages))).
Proof.
  unfold get, buildApiPayload. rewrite fold_parameters by apply mappings_NoDup.
  rewrite bool_decide_eq_false_2.
  2: { unfold parameterMappings. js_lit. set_solver. }
  rewrite base_messages. cbn [from_option id]. by rewrite processedMessages_eq.
Qed.

Lemma move_first_perm v l o r : move_first v l = Some (o, r) -> l ≡ₚ o :: r /\ value o = v.
Proof.
  revert r. induction l as [|x l IH]; intros r; cbn [move_first]; [done|].
  destruct (str_eqb_spec (value x) v); [by intros [= <- <-]|].
  destruct (move_first v l) as [[y r']|]; [|done]. intros [= <- <-].
  destruct (IH _ eq_refl) as [H1 H2]. split; [rewrite H1; constructor|done].
Qed.

Lemma move_first_none v l : move_first v l = None -> forall o, o ∈ l -> value o <> v.
Proof.
  induction l as [|x l IH]; cbn [move_first]; [set_solver|].
  destruct (str_eqb_spec (value x) v); [done|]. destruct (move_first v l) as [[??]|]; [done|].
  intros _ o [->|Ho]%elem_of_cons; [done|by apply IH].
Qed.

(** The group options are the server's groups, each once, the user's own group first
    when it is one of them. *)
Theorem group_options_order data userGroup :
  data <> [] ->
  processGroupsData data userGroup ≡ₚ map option_of_group data
  /\ (userGroup <> [] -> userGroup ∈ map fst data ->
      exists o r, processGroupsData data userGroup = o :: r /\ value o = userGroup).
Proof.
  intros Hd. unfold processGroupsData. destruct (map option_of_group data) as [|x l] eqn:E.
  { by destruct data. }
  split.
  - destruct (nonempty userGroup); [|done]. destruct (move_first userGroup (x :: l)) as [[o r]|] eqn:Em; [|done].
    apply move_first_perm in Em as [Hp _]. by rewrite Hp.
  - intros Hu Hin. destruct userGroup as [|c u] eqn:Eu; [done|]. rewrite <- Eu in *. cbn [nonempty].
    assert (nonempty userGroup = true) as -> by (by rewrite Eu).
    destruct (move_first userGroup (x :: l)) as [[o r]|] eqn:Em.
    + apply move_first_perm in Em as [_ Hv]. by exists o, r.
    + exfalso. rewrite <- E in Em. apply list_elem_of_fmap in Hin as (g & Hg & Hin).
      apply (move_first_none _ _ Em (option_of_group g)); [|by cbn]. apply list_elem_of_fmap. by exists g.
Qed.

(** After the lists are loaded the playground has a model of the server's list, when
    there is one, and a group of the options. *)
Theorem loaded_selection_is_offered models groups model group userGroup :
  (models <> [] -> match loadModels models model with
                   | None => model ∈ models
                   | Some m => exists x, m = Some x /\ x ∈ models
                   end)
  /\ (exists o, o ∈ processGroupsData groups userGroup
       /\ value o = default group (loadGroups groups userGroup group)).
Proof.
  split.
  - intros Hm. unfold loadModels, processModelsData. cbn [snd]. destruct (existsb _ _) eqn:E.
    + assert (Hin : model ∈ models).
      { apply existsb_exists in E as ([a b] & Hi & Hb). apply in_map_iff in Hi as (m & [= <- <-] & Hi).
        apply str_eqb_eq in Hb. cbn in Hb. subst. by apply list_elem_of_In. }
      destruct models; [done|]. cbn [map length Nat.eqb negb andb]. by rewrite bool_decide_eq_true_2.
    + cbn [andb]. destruct models as [|x l]; [done|]. cbn. rewrite bool_decide_eq_false_2.
      * exists x. split; [done|]. set_solver.
      * intros [= ->]. cbn in E. by rewrite str_eqb_refl in E.
  - unfold loadGroups. destruct (existsb _ _) eqn:E.
    + apply existsb_exists in E as (o & Hi & Hv). exists o. cbn. split; [by apply list_elem_of_In|by apply str_eqb_eq].
    + destruct (processGroupsData groups userGroup) as [|o l] eqn:Eg.
      * exfalso. unfold processGroupsData in Eg. destruct (map option_of_group groups); [done|].
        destruct (nonempty userGroup); [|done]. destruct (move_first _ _) as [[??]|]; done.
      * exists o. cbn. split; [set_solver|done].
Qed.

Lemma group_options_order_witness :
  exists o r, processGroupsData [($"a", GroupInfo $"A" VNull); ($"b", GroupInfo $"B" VNull)] $"b" = o :: r /\ value o = $"b".
Proof.
  apply (group_options_order [($"a", GroupInfo $"A" VNull); ($"b", GroupInfo $"B" VNull)] $"b"); [done|by js_lit|].
  set_solver.
Defined.

Lemma loaded_selection_is_offered_witness :
  match loadModels [$"x"] $"y" with None => $"y" ∈ [$"x"] | Some m => exists x, m = Some x /\ x ∈ [$"x"] end.
Proof. exact (proj1 (loaded_selection_is_offered [$"x"] [] $"y" [] []) ltac:(done)). Defined.

End Payload.

Module OAuth.
Import Storage Client.

(** ** api.js: signing in with a provider *)

(** What a sign-in does: it redirects, shows an error, or stops silently. *)
Inductive effect := Redirect (url : jsstr) (newTab : bool) | Shown (e : val) | Nothing.

Section Flow.

(** The server's answers ([res.data]), and the platform's [new URL(u)] with the search
    parameters set ([Throw]: not a URL). *)
Variable answer : jsstr -> outcome val.
Variable url_with : jsstr -> list (jsstr * jsstr) -> outcome jsstr.
Variable origin : jsstr.

Definition state_path (s : store) : jsstr :=
  match prop $"aff" s with
  | Some affCode => if nonempty affCode then $"/api/oauth/state?aff=" ++ affCode else $"/api/oauth/state"
  | None => $"/api/oauth/state"
  end.

(** The state, and the error shown when there is none. *)
Definition getOAuthState (s : store) : outcome (val * option val) :=
  bind_outcome (answer (state_path s)) (fun data =>
  bind_outcome (get_or_throw data $"success") (fun success =>
  Ret (if truthy success then (get_any data $"data", None) else (VStr [], Some (get_any data $"message"))))).

(** A failing logout request is ignored; the user is forgotten in any case. *)
Definition prepareOAuthState (shouldLogout : bool) (s : store) : outcome (val * option val) * store :=
  let s' := if shouldLogout then prop_delete $"user" s else s in
  (getOAuthState s', s').

(** [const state = await prepareOAuthState(options); if (!state) return; ...] *)
Definition with_state (shouldLogout : bool) (s : store) (k : jsstr -> outcome effect) : outcome effect * store :=
  let '(r, s') := prepareOAuthState shouldLogout s in
  (bind_outcome r (fun '(state, e) =>
     if truthy state then k (String_val state)
     else Ret match e with Some m => Shown m | None => Nothing end), s').

Definition onDiscordOAuthClicked (client_id : jsstr) (shouldLogout : bool) (s : store) : outcome effect * store :=
  with_state shouldLogout s (fun state =>
    Ret (Redirect ($"https://discord.com/oauth2/authorize?client_id=" ++ client_id ++ $"&redirect_uri=" ++ origin
      ++ $"/oauth/discord" ++ $"&response_type=" ++ $"code" ++ $"&scope=" ++ $"identify+openid"
      ++ $"&state=" ++ state) false)).

Definition onOIDCClicked (auth_url client_id : jsstr) (openInNewTab shouldLogout : bool) (s : store) : outcome effect * store :=
  with_state shouldLogout s (fun state =>
    bind_outcome (url_with auth_url [($"client_id", client_id); ($"redirect_uri", origin ++ $"/oauth/oidc");
      ($"response_type", $"code"); ($"scope", $"openid profile email"); ($"state", state)]) (fun u =>
    Ret (Redirect u openInNewTab))).

Definition onGitHubOAuthClicked (github_client_id : jsstr) (shouldLogout : bool) (s : store) : outcome effect * store :=
  with_state shouldLogout s (fun state =>
    Ret (Redirect ($"https://github.com/login/oauth/authorize?client_id=" ++ github_client_id ++ $"&state=" ++ state
      ++ $"&scope=user:email") false)).

Definition onLinuxDOOAuthClicked (linuxdo_client_id : jsstr) (shouldLogout : bool) (s : store) : outcome effect * store :=
  with_state shouldLogout s (fun state =>
    Ret (Redirect ($"https://connect.linux.do/oauth2/authorize?response_type=code&client_id=" ++ linuxdo_client_id
      ++ $"&state=" ++ state) false)).

Record provider := Provider { slug : jsstr; client_id : jsstr; authorization_endpoint : jsstr; scopes : jsstr }.

(** A relative endpoint and a failing [new URL] are shown; [failure] is the text of the latter. *)
Definition onCustomOAuthClicked (p : provider) (failure : jsstr) (shouldLogout : bool) (s : store) : outcome effect * store :=
  with_state shouldLogout s (fun state =>
    let e := authorization_endpoint p in
    if startsWith $"http://" e || startsWith $"https://" e then
      match url_with e [($"client_id", client_id p); ($"redirect_uri", origin ++ $"/oauth/" ++ slug p);
              ($"response_type", $"code");
              ($"scope", if nonempty (scopes p) then scopes p else $"openid profile email"); ($"state", state)] with
      | Ret u => Ret (Redirect u false)
      | Throw => Ret (Shown (VStr ($"OAuth 登录失败：" ++ if nonempty failure then failure else $"未知错误")))
      end
    else Ret (Shown (VStr $"OAuth 配置错误：授权端点必须是完整的 URL（以 http:// 或 https:// 开头）"))).

(** ** Theorems *)

(** The state the server issued for the sign-in, as text. *)
Definition issued (s : store) (state : jsstr) : Prop :=
  exists data v, answer (state_path s) = Ret data /\ truthy (get_any data $"success") = true
    /\ get_any data $"data" = v /\ truthy v = true /\ state = String_val v.

Lemma with_state_redirect shouldLogout s k u t s' :
  with_state shouldLogout s k = (Ret (Redirect u t), s') ->
  exists state, issued s' state /\ k state = Ret (Redirect u t).
Proof using.
  unfold with_state, prepareOAuthState. set (s1 := if shouldLogout then _ else _). intros E.
  unfold getOAuthState in E. destruct (answer (state_path s1)) as [data|] eqn:Ea; cbn [bind_outcome] in E; [|done].
  destruct (get_or_throw data $"success") as [succ|] eqn:Es; cbn [bind_outcome] in E; [|done].
  unfold get_or_throw in Es. destruct (is_nullish data); [done|]. injection Es as <-.
  destruct (truthy (get_any data $"success")) eqn:Ets; [|done].
  destruct (truthy (get_any data $"data")) eqn:Etd; [|done]. injection E as E <-.
  exists (String_val (get_any data $"data")). split; [|done]. by exists data, (get_any data $"data").
Qed.

(** The parameter is part of the address. *)
Definition carries_state (u state : jsstr) : Prop := includes ($"state=" ++ state) u = true.

Ltac app_norm := do 3 (cbn [app]; rewrite <- ?app_assoc); cbn [app].

(** No provider's page is opened without a state issued by the server for this
    attempt, and the address carries it. *)
Theorem redirect_carries_issued_state cid lo s s' u t :
  onDiscordOAuthClicked cid lo s = (Ret (Redirect u t), s')
  \/ onGitHubOAuthClicked cid lo s = (Ret (Redirect u t), s')
  \/ onLinuxDOOAuthClicked cid lo s = (Ret (Redirect u t), s') ->
  exists state, issued s' state /\ carries_state u state.
Proof using.
  intros [E|[E|E]]; apply with_state_redirect in E as (state & Hi & [= <- _]); exists state; (split; [exact Hi|]);
    apply includes_spec; js_lit; cbn [app].
  - eexists ($"https://discord.com/oauth2/authorize?client_id=" ++ cid ++ $"&redirect_uri=" ++ origin
      ++ $"/oauth/discord&response_type=code&scope=identify+openid&"), []. js_lit. rewrite app_nil_r. by app_norm.
  - eexists ($"https://github.com/login/oauth/authorize?client_id=" ++ cid ++ $"&"), $"&scope=user:email". js_lit.
    by app_norm.
  - eexists ($"https://connect.linux.do/oauth2/authorize?response_type=code&client_id=" ++ cid ++ $"&"), [].
    js_lit. rewrite app_nil_r. by app_norm.
Qed.

End Flow.

Lemma redirect_carries_issued_state_witness :
  let answer := fun _ => Ret (VObj [($"success", VBool true); ($"data", VStr $"xyz")]) in
  exists state, issued answer [] state
    /\ carries_state $"https://github.com/login/oauth/authorize?client_id=c&state=xyz&scope=user:email" state.
Proof.
  intros answer. apply (redirect_carries_issued_state answer [] $"c" false [] []
    $"https://github.com/login/oauth/authorize?client_id=c&state=xyz&scope=user:email" false). right. left. reflexivity.
Defined.

End OAuth.

Module ChannelModels.
Import Storage.

(** ** api.js: the models of the channel types *)

(** The module variable ([None]: undefined) and [localStorage]. *)
Record cache := Cache { channelModels : option val; c_store : store }.

Definition loadChannelModels (res : val) (c : cache) : outcome cache :=
  bind_outcome (get_or_throw res $"success") (fun success =>
  if truthy success
  then let data := get_any res $"data" in
       Ret (Cache (match data with VUndef => None | _ => Some data end)
                  (set_json $"channel_models" data (c_store c)))
  else Ret c).

(** [type in models]: throws unless [models] is an object. *)
Definition lookup_in (ty : jsstr) (models : val) : outcome (option val) :=
  match models with
  | VObj _ | VArr _ => Ret (prop ty (entries models))
  | _ => Throw
  end.

(** The lookup in the storage, which also fills the variable. *)
Definition from_storage (ty : jsstr) (c : cache) : outcome (val * cache) :=
  match saved $"channel_models" (c_store c) with
  | None => Ret (VArr [], c)
  | Some r => bind_outcome r (fun m =>
      bind_outcome (lookup_in ty m) (fun v =>
      Ret (default (VArr []) v, Cache (Some m) (c_store c))))
  end.

Definition getChannelModels (ty : jsstr) (c : cache) : outcome (val * cache) :=
  match channelModels c with
  | Some m =>
    bind_outcome (lookup_in ty m) (fun v =>
    match v with
    | Some x => Ret (if truthy x then x else VArr [], c)
    | None => from_storage ty c
    end)
  | None => from_storage ty c
  end.

(** The models of a channel type are the same after a reload of the page as right
    after they were loaded from the server. *)
Theorem channel_models_survive_reload data c c' ty models :
  json_wf (VObj data) -> prop ty data = Some models -> truthy models = true ->
  loadChannelModels (VObj [($"success", VBool true); ($"data", VObj data)]) c = Ret c' ->
  (exists c1, getChannelModels ty c' = Ret (models, c1))
  /\ exists c2, getChannelModels ty (Cache None (c_store c')) = Ret (models, c2).
Proof.
  intros Hw Hp Ht. set (res := VObj [($"success", VBool true); ($"data", VObj data)]).
  assert (E1 : get_or_throw res $"success" = Ret (VBool true)) by reflexivity.
  assert (E2 : get_any res $"data" = VObj data) by reflexivity.
  unfold loadChannelModels. rewrite E1, E2. cbn [bind_outcome truthy]. intros [= <-]. split.
  - unfold getChannelModels. cbn [channelModels lookup_in entries bind_outcome]. rewrite Hp, Ht. by eexists.
  - unfold getChannelModels, from_storage. cbn [channelModels c_store].
    rewrite saved_set_json by (done || apply stringify_obj). cbn [bind_outcome lookup_in entries]. rewrite Hp. by eexists.
Qed.

Lemma channel_models_survive_reload_witness :
  let data := prop_set $"1" (VArr [VStr $"m"]) [] in
  let c' := Cache (Some (VObj data)) (set_json $"channel_models" (VObj data) []) in
  exists c2, getChannelModels $"1" (Cache None (c_store c')) = Ret (VArr [VStr $"m"], c2).
Proof.
  intros data c'. apply (channel_models_survive_reload data (Cache None []) c' $"1" (VArr [VStr $"m"])).
  - apply json_wf_set; [by apply lit_wf| |done]. apply json_wf_arr. constructor; [by apply lit_wf|constructor].
  - reflexivity.
  - reflexivity.
  - reflexivity.
Defined.

End ChannelModels.
