(* ===== verification/Stream.v ===== *)
(** * The playground's requests: streamed and plain answers

    [web/src/hooks/playground/useApiRequest.jsx].  The event source of sse.js is an
    event generator: each of its events carries what the handlers read of it.  Times,
    stack traces and parser messages come from the platform and are arguments; [t] is
    the translation. *)
From S2P Require Import Prelude JSNum JSValue Json Playground Api.
#[local] Open Scope Z_scope.
#[local] Arguments js _ : simpl never.

Module Stream.
Import Messages Storage Payload.

(** ** The hook's world *)

(** The message list, the debug data and tab, whether a source is referenced, and the
    lists handed to [saveMessages], latest first. *)
Record world := World {
  messages : list val; debug : object; tab : jsstr; source : bool; saves : list (list val)
}.

Definition with_messages (l : list val) (w : world) : world := World l (debug w) (tab w) (source w) (saves w).
Definition setDebugData (o : object) (w : world) : world :=
  World (messages w) (prop_assign (debug w) o) (tab w) (source w) (saves w).
Definition setActiveDebugTab (k : jsstr) (w : world) : world := World (messages w) (debug w) k (source w) (saves w).
Definition set_source (b : bool) (w : world) : world := World (messages w) (debug w) (tab w) b (saves w).
Definition save (l : list val) (w : world) : world := World (messages w) (debug w) (tab w) (source w) (l :: saves w).

(** ** Messages *)

Definition status_is (m : val) (s : jsstr) : bool := eq_str (get_any m $"status") s.
Definition waiting (m : val) : bool := status_is m $"loading" || status_is m $"incomplete".
Definition final (m : val) : bool := status_is m $"complete" || status_is m $"error".

(** [a || b] *)
Definition or_else (a b : val) : val := if truthy a then a else b.

Definition applyAutoCollapseLogic (message : val) (isThinkingComplete : val) : object :=
  let shouldAutoCollapse :=
    if truthy isThinkingComplete then VBool (negb (truthy (get_any message $"hasAutoCollapsed")))
    else isThinkingComplete in
  [($"isThinkingComplete", isThinkingComplete);
   ($"hasAutoCollapsed", or_else shouldAutoCollapse (get_any message $"hasAutoCollapsed"));
   ($"isReasoningExpanded", if truthy shouldAutoCollapse then VBool false else get_any message $"isReasoningExpanded")].

(** [s.match(re)] with a global pattern for [sub]: the number of matches. *)
Fixpoint occurrences (sub : jsstr) (skip : nat) (s : jsstr) : nat :=
  match s with
  | [] => 0
  | _ :: r =>
    match skip with
    | S k => occurrences sub k r
    | O => if startsWith sub s then S (occurrences sub (pred (length sub)) r) else occurrences sub 0 r
    end
  end.

(** [(v || '') + chunk] for the text collected so far. *)
Definition append_text (v : val) (chunk : jsstr) : jsstr := String_val (or_else v (VStr [])) ++ chunk.

(** The think tags of the content are closed. *)
Definition tags_closed (message : val) (newContent : jsstr) : bool :=
  truthy (get_any message $"isReasoningExpanded") && includes CLOSE newContent
  && negb (Nat.eqb (occurrences OPEN 0 newContent) 0)
  && (occurrences OPEN 0 newContent <=? occurrences CLOSE 0 newContent)%nat.

Definition reasoning_update (m : val) (chunk : jsstr) : object :=
  prop_assign (props_of (entries m))
    [($"reasoningContent", VStr (append_text (get_any m $"reasoningContent") chunk));
     ($"status", VStr $"incomplete"); ($"isThinkingComplete", VBool false)].

Definition content_update (m : val) (chunk : jsstr) : object :=
  let newContent := append_text (get_any m $"content") chunk in
  let fromTags := if tags_closed m newContent then VBool true else get_any m $"isThinkingComplete" in
  let reasoning := get_any m $"reasoningContent" in
  let started := if truthy reasoning then VBool (negb (truthy (get_any m $"isThinkingComplete"))) else reasoning in
  prop_assign (props_of (entries m))
    ([($"content", VStr newContent); ($"status", VStr $"incomplete")]
     ++ applyAutoCollapseLogic m (or_else started fromTags)).

Inductive chunk_kind := Reasoning | Content.

(** Replace the last message. *)
Fixpoint update_last (f : val -> val) (l : list val) : list val :=
  match l with
  | [] => []
  | [m] => [f m]
  | m :: r => m :: update_last f r
  end.

Definition stream_last (kind : chunk_kind) (chunk : jsstr) (m : val) : val :=
  if truthy m && eq_str (get_any m $"role") $"assistant" && negb (status_is m $"error") && waiting m
  then VObj match kind with Reasoning => reasoning_update m chunk | Content => content_update m chunk end
  else m.

Definition streamMessageUpdate (chunk : jsstr) (kind : chunk_kind) (w : world) : world :=
  with_messages (update_last (stream_last kind chunk) (messages w)) w.

Definition last_message (l : list val) : val := List.last l VUndef.

Definition complete_last (status : jsstr) (m : val) : val :=
  VObj (prop_assign (props_of (entries m)) ([($"status", VStr status)] ++ applyAutoCollapseLogic m (VBool true))).

(** [Throw]: there is no last message to read the status of. *)
Definition completeMessage (status : jsstr) (w : world) : outcome world :=
  let m := last_message (messages w) in
  if is_nullish m then Throw else
  if final m then Ret w else
  let updated := update_last (complete_last status) (messages w) in
  let w' := with_messages updated w in
  Ret (if (status =s? $"complete") || (status =s? $"error") then save updated w' else w').

Section Handlers.
Variable t : jsstr -> jsstr.

(** What the platform supplies when an error report is made. *)
Record report := Report { now : jsstr; stack : val }.

Definition error_text (info : object) : jsstr := default $"undefined" (stringify2 (VObj info)).

(** ** Plain requests *)

Inductive fetched :=
| Rejected (message : jsstr)
| NotOk (status statusText : val) (body : option jsstr)
| Answer (data : val).

Definition start_request (payload : val) (timestamp : jsstr) (sse : val) (isStreaming : bool) (w : world) : world :=
  setActiveDebugTab $"request"
    (setDebugData [($"request", payload); ($"timestamp", VStr timestamp); ($"response", VNull);
                   ($"sseMessages", sse); ($"isStreaming", VBool isStreaming)] w).

(** [lastMessage?.status === LOADING] guards both updates. *)
Definition finish_loading (o : object) (m : val) : val :=
  if status_is m $"loading"
  then VObj (prop_assign (props_of (entries m)) (o ++ applyAutoCollapseLogic m (VBool true))) else m.

Definition show_response (text : jsstr) (w : world) : world :=
  setActiveDebugTab $"response" (setDebugData [($"response", VStr text)] w).

(** The [catch] block. *)
Definition request_failed (r : report) (message : jsstr) (errorCode : val) (w : world) : world :=
  let w1 := show_response (error_text (handleApiError message (now r) (stack r) None)) w in
  with_messages (update_last (finish_loading
    [($"content", VStr (t $"请求发生错误: " ++ message)); ($"errorCode", or_else errorCode VNull);
     ($"status", VStr $"error")]) (messages w1)) w1.

(** The body of a failed response and the error it holds, if it is JSON. *)
Definition error_body (body : option jsstr) : jsstr * val :=
  match body with
  | None => ($"无法读取错误响应体", VNull)
  | Some b =>
    match parse b with
    | None => (if nonempty b then b else $"无法读取错误响应体", VNull)
    | Some j => (b, let e := get_any j $"error" in if truthy e then e else VNull)
    end
  end.

Definition http_error (status : val) (errorBody : jsstr) : jsstr :=
  $"HTTP error! status: " ++ String_val status ++ $", body: " ++ errorBody.

(** [data.choices?.[0]]; [Throw] when [data] is null. *)
Definition first_choice (data : val) : outcome val :=
  bind_outcome (get_or_throw data $"choices") (fun c => Ret (get_any c $"0")).

(** [processThinkTags(content, reasoningContent)] on the content of a choice. *)
Definition think_content (content reasoning : val) : outcome (val * val) :=
  match content with
  | VStr s => let '(c, r) := processThinkTags s reasoning in Ret (VStr c, r)
  | VArr l => if existsb (fun x => eq_str x OPEN) l then Throw else Ret (content, reasoning)
  | _ => Throw
  end.

Definition answer_fields (choice : val) : outcome object :=
  let m := get_any choice $"message" in
  bind_outcome (think_content (or_else (get_any m $"content") (VStr []))
                  (or_else (or_else (get_any m $"reasoning_content") (get_any m $"reasoning")) (VStr []))) (fun '(c, r) =>
  Ret [($"content", c); ($"reasoningContent", r); ($"status", VStr $"complete")]).

(** [type_error] is the text of a TypeError raised while the answer is read. *)
Definition handleNonStreamRequest (payload : val) (timestamp : jsstr) (f : fetched) (r : report)
    (type_error : jsstr) (w : world) : world :=
  let w1 := start_request payload timestamp VNull false w in
  match f with
  | Rejected message => request_failed r message VUndef w1
  | NotOk status statusText body =>
    let '(errorBody, parsedError) := error_body body in
    let info := handleApiError (http_error status errorBody) (now r) (stack r) (Some (Response status statusText)) in
    let m := get_any parsedError $"message" in
    request_failed r (if truthy m then String_val m else http_error status errorBody)
      (or_else (get_any parsedError $"code") VNull) (show_response (error_text info) w1)
  | Answer data =>
    let w2 := show_response (default $"undefined" (stringify2 data)) w1 in
    match bind_outcome (first_choice data) (fun c =>
            if truthy c then bind_outcome (answer_fields c) (fun o => Ret (Some o)) else Ret None) with
    | Throw => request_failed r type_error VUndef w2
    | Ret None => w2
    | Ret (Some o) => with_messages (update_last (finish_loading o) (messages w2)) w2
    end
  end.

(** ** Streamed requests *)

(** The variables of one stream. *)
Record stream := StreamVars { responseData : jsstr; hasReceivedFirstResponse : bool; isStreamComplete : bool }.

Inductive sse_event :=
| OnMessage (data : jsstr)
| OnError (data : option jsstr) (readyState : Z)
| OnReadyStateChange (e_readyState : Z) (status : option val) (readyState : Z).

Definition sseMessages (w : world) (data : jsstr) : val :=
  VArr (match get (VObj (debug w)) $"sseMessages" with VArr l => l | _ => [] end ++ [VStr data]).

(** [if (delta.k) streamMessageUpdate(delta.k, kind)] *)
Definition apply_delta (delta : val) (k : jsstr) (kind : chunk_kind) (w : world) : world :=
  let v := get_any delta k in
  if truthy v then streamMessageUpdate (String_val v) kind w else w.

Definition apply_deltas (delta : val) (w : world) : world :=
  apply_delta delta $"content" Content
    (apply_delta delta $"reasoning" Reasoning (apply_delta delta $"reasoning_content" Reasoning w)).

(** [payload.choices?.[0]?.delta] *)
Definition delta_of (payload : val) : outcome val :=
  bind_outcome (first_choice payload) (fun c => Ret (get_any c $"delta")).

Definition fail_stream (text : jsstr) (w : world) : outcome world :=
  completeMessage $"error" (streamMessageUpdate (t text) Content w).

Definition first_response (s : stream) (w : world) : world :=
  if hasReceivedFirstResponse s then w else setActiveDebugTab $"response" w.

(** The [catch] block of the message handler; [message] is the parser's. *)
Definition bad_message (data : jsstr) (message : jsstr) (s : stream) (w : world) : outcome world :=
  fail_stream $"解析响应数据时发生错误"
    (setActiveDebugTab $"response"
      (setDebugData [($"response", VStr (responseData s ++ [10; 10] ++ $"Error: " ++ $"解析错误: " ++ message));
                     ($"sseMessages", sseMessages w data); ($"isStreaming", VBool false)] w)).

Definition on_message (data : jsstr) (parse_error : jsstr) (s : stream) (w : world) : outcome (stream * world) :=
  if data =s? $"[DONE]" then
    bind_outcome (completeMessage $"complete"
      (setDebugData [($"response", VStr (responseData s)); ($"sseMessages", sseMessages w data);
                     ($"isStreaming", VBool false)] (set_source false w))) (fun w' =>
    Ret (StreamVars (responseData s) (hasReceivedFirstResponse s) true, w'))
  else
  match parse data with
  | None => bind_outcome (bad_message data parse_error s w) (fun w' => Ret (s, w'))
  | Some payload =>
    let s' := StreamVars (responseData s ++ data ++ [10]) true (isStreamComplete s) in
    let w1 := setDebugData [($"sseMessages", sseMessages w data)] (first_response s w) in
    match delta_of payload with
    | Throw => bind_outcome (bad_message data parse_error s' w1) (fun w' => Ret (s', w'))
    | Ret delta => Ret (s', if truthy delta then apply_deltas delta w1 else w1)
    end
  end.

(** The text and code of an error event. *)
Definition error_of (data : option jsstr) : jsstr * val :=
  match data with
  | Some d =>
    if nonempty d then
      match parse d with
      | Some j => let e := get_any j $"error" in
                  if truthy e
                  then (let m := get_any e $"message" in if truthy m then String_val m else d,
                        or_else (get_any e $"code") VNull)
                  else (d, VNull)
      | None => (d, VNull)
      end
    else (t $"请求发生错误", VNull)
  | None => (t $"请求发生错误", VNull)
  end.

Definition fail_last (message : jsstr) (code : val) (m : val) : val :=
  if truthy m && negb (final m)
  then VObj (prop_assign (props_of (entries m))
         [($"content", VStr (append_text (get_any m $"content") message)); ($"errorCode", code);
          ($"status", VStr $"error")])
  else m.

Definition on_error (data : option jsstr) (readyState : Z) (r : report) (s : stream) (w : world) : world :=
  if isStreamComplete s || (readyState =? 2) then w else
  let '(errorMessage, errorCode) := error_of data in
  let info := handleApiError errorMessage (now r) (stack r) None ++ [($"readyState", VNum (of_Z readyState))] in
  let w1 := show_response (responseData s ++ [10; 10] ++ $"SSE Error:" ++ [10] ++ error_text info) w in
  set_source false (with_messages (update_last (fail_last errorMessage errorCode) (messages w1)) w1).

Definition on_readystatechange (e_readyState : Z) (status : option val) (readyState : Z) (r : report)
    (s : stream) (w : world) : outcome world :=
  let bad := match status with Some (VNum n) => negb (neqb n (of_Z 200)) | Some VUndef => false | Some _ => true | None => false end in
  if (2 <=? e_readyState) && bad && negb (isStreamComplete s) then
    let info := prop_set $"readyState" (VNum (of_Z readyState))
                  (prop_set $"status" (default VUndef status) (handleApiError $"HTTP状态错误" (now r) (stack r) None)) in
    fail_stream $"连接已断开"
      (show_response (responseData s ++ [10; 10] ++ $"HTTP Error:" ++ [10] ++ error_text info) w)
  else Ret w.

Definition on_event (e : sse_event) (r : report) (parse_error : jsstr) (s : stream) (w : world) : outcome (stream * world) :=
  match e with
  | OnMessage data => on_message data parse_error s w
  | OnError data rs => Ret (s, on_error data rs r s w)
  | OnReadyStateChange ers status rs => bind_outcome (on_readystatechange ers status rs r s w) (fun w' => Ret (s, w'))
  end.

(** The call, up to the first event; [start] is the error thrown by [source.stream()]. *)
Definition handleSSE (payload : val) (timestamp : jsstr) (start : option (jsstr * report)) (w : world) : outcome (stream * world) :=
  let w1 := set_source true (start_request payload timestamp (VArr []) true w) in
  let s := StreamVars [] false false in
  match start with
  | None => Ret (s, w1)
  | Some (message, r) =>
    bind_outcome (fail_stream $"建立连接时发生错误"
      (show_response ($"Stream启动失败:" ++ [10] ++ error_text (handleApiError message (now r) (stack r) None)) w1))
      (fun w' => Ret (s, w'))
  end.

(** [start], [f], [r] and [type_error] are the outcomes of the network; the variables of
    the stream are those a streamed request leaves. *)
Definition sendRequest (payload : val) (isStream : bool) (timestamp : jsstr) (start : option (jsstr * report))
    (f : fetched) (r : report) (type_error : jsstr) (w : world) : outcome (option stream * world) :=
  if isStream then bind_outcome (handleSSE payload timestamp start w) (fun '(s, w') => Ret (Some s, w'))
  else Ret (None, handleNonStreamRequest payload timestamp f r type_error w).

(** A run of the source's events. *)
Fixpoint events (es : list (sse_event * report * jsstr)) (s : stream) (w : world) : outcome (stream * world) :=
  match es with
  | [] => Ret (s, w)
  | (e, r, perr) :: es' => bind_outcome (on_event e r perr s w) (fun '(s', w') => events es' s' w')
  end.

(** ** Stopping *)

Definition stopped_message (m : val) : outcome val :=
  bind_outcome (process_content (or_else (get_any m $"content") (VStr []))
                                (or_else (get_any m $"reasoningContent") (VStr []))) (fun '(c, r) =>
  Ret (VObj (prop_assign (props_of (entries m))
        ([($"status", VStr $"complete"); ($"reasoningContent", or_else r VNull); ($"content", c)]
         ++ applyAutoCollapseLogic m (VBool true))))).

Definition onStopGenerator (w : world) : outcome world :=
  let w1 := set_source false w in
  match messages w with
  | [] => Ret w1
  | _ =>
    let m := last_message (messages w) in
    if is_nullish m then Throw else
    if waiting m then
      bind_outcome (stopped_message m) (fun m' =>
      let updated := update_last (fun _ => m') (messages w) in
      Ret (save updated (with_messages updated w1)))
    else Ret w1
  end.

End Handlers.
(** * Theorems *)

Lemma update_last_app f before m : update_last f (before ++ [m]) = before ++ [f m].
Proof.
  induction before as [|x before IH]; [done|]. cbn [app update_last]. rewrite IH.
  destruct before; done.
Qed.

Lemma last_message_app before m : last_message (before ++ [m]) = m.
Proof. unfold last_message. apply List.last_last. Qed.

(** A property after a spread of listed properties. *)
Lemma get_assign (o l : object) k :
  NoDup (keys l) ->
  get_any (VObj (prop_assign o l)) k = match prop k l with Some v => v | None => get_any (VObj o) k end.
Proof.
  intros Hn. unfold get_any. cbn [entries]. rewrite prop_assign_lookup by done. by destruct (prop k l).
Qed.

(** A message object: an assistant's, with the texts collected so far. *)
Record holds (m : val) (content reasoning : jsstr) : Prop := {
  h_obj : exists o, m = VObj o /\ props_of o = o;
  h_role : get_any m $"role" = VStr $"assistant";
  h_content : get_any m $"content" = VStr content;
  h_reasoning : get_any m $"reasoningContent" = VStr reasoning
}.

Ltac lit_NoDup := unfold applyAutoCollapseLogic; cbn [keys map fst app]; js_lit; repeat (constructor; [set_solver|]); constructor.
Ltac assigned := rewrite get_assign by lit_NoDup; reflexivity.

Lemma append_text_str c chunk : append_text (VStr c) chunk = c ++ chunk.
Proof. unfold append_text, or_else. by destruct c. Qed.

Lemma props_assign_props (o l : object) : props_of o = o -> props_of (prop_assign o l) = prop_assign o l.
Proof.
  intros Ho. apply props_of_canonical, prop_assign_is_canonical. rewrite <- Ho.
  apply prop_assign_is_canonical. constructor.
Qed.

Lemma content_holds m c r chunk :
  holds m c r ->
  holds (VObj (content_update m chunk)) (c ++ chunk) r /\ waiting (VObj (content_update m chunk)) = true.
Proof.
  intros [(o & -> & Ho) Hr Hc Hg]. unfold content_update. cbn zeta. cbn [entries]. rewrite Hc, Ho, append_text_str.
  generalize (or_else (if truthy (get_any (VObj o) $"reasoningContent")
     then VBool (negb (truthy (get_any (VObj o) $"isThinkingComplete"))) else get_any (VObj o) $"reasoningContent")
     (if tags_closed (VObj o) (c ++ chunk) then VBool true else get_any (VObj o) $"isThinkingComplete")). intros x.
  split; [split|].
  - eexists. split; [done|]. by apply props_assign_props.
  - rewrite get_assign by lit_NoDup. exact Hr.
  - assigned.
  - rewrite get_assign by lit_NoDup. exact Hg.
  - unfold waiting, status_is. rewrite get_assign by lit_NoDup. reflexivity.
Qed.

Lemma reasoning_holds m c r chunk :
  holds m c r ->
  holds (VObj (reasoning_update m chunk)) c (r ++ chunk) /\ waiting (VObj (reasoning_update m chunk)) = true.
Proof.
  intros [(o & -> & Ho) Hr Hc Hg]. unfold reasoning_update. cbn [entries]. rewrite Hg, Ho, append_text_str.
  split; [split|].
  - eexists. split; [done|]. by apply props_assign_props.
  - rewrite get_assign by lit_NoDup. exact Hr.
  - rewrite get_assign by lit_NoDup. exact Hc.
  - assigned.
  - unfold waiting, status_is. rewrite get_assign by lit_NoDup. reflexivity.
Qed.

Lemma complete_holds m c r status :
  holds m c r ->
  holds (complete_last status m) c r /\ get_any (complete_last status m) $"status" = VStr status.
Proof.
  intros [(o & -> & Ho) Hr Hc Hg]. unfold complete_last. cbn [entries]. rewrite Ho. split; [split|].
  - eexists. split; [done|]. by apply props_assign_props.
  - rewrite get_assign by lit_NoDup. exact Hr.
  - rewrite get_assign by lit_NoDup. exact Hc.
  - rewrite get_assign by lit_NoDup. exact Hg.
  - assigned.
Qed.

Lemma waiting_not_final m : waiting m = true -> final m = false /\ status_is m $"error" = false.
Proof.
  unfold waiting, final, status_is, eq_str. destruct (get_any m $"status"); try done.
  intros H. apply orb_true_iff in H as [H|H]; apply str_eqb_eq in H; subst; done.
Qed.

(** The implementation's state against the abstract one: the earlier messages, and the
    content and reasoning received so far. *)
Definition sim (w : world) (before : list val) (content reasoning : jsstr) : Prop :=
  exists m, messages w = before ++ [m] /\ holds m content reasoning /\ waiting m = true.

Lemma stream_sim w before c r chunk kind :
  sim w before c r ->
  match kind with
  | Content => sim (streamMessageUpdate chunk kind w) before (c ++ chunk) r
  | Reasoning => sim (streamMessageUpdate chunk kind w) before c (r ++ chunk)
  end.
Proof.
  intros (m & Hm & Hh & Hw). pose proof (waiting_not_final m Hw) as [_ He].
  assert (E : messages (streamMessageUpdate chunk kind w) =
    before ++ [VObj match kind with Reasoning => reasoning_update m chunk | Content => content_update m chunk end]).
  { cbn [streamMessageUpdate with_messages messages]. rewrite Hm, update_last_app. unfold stream_last.
    rewrite Hw, He. destruct Hh as [(o & -> & _) -> _ _]. unfold eq_str. by rewrite str_eqb_refl. }
  destruct kind; eexists; (split; [exact E|]); [by apply reasoning_holds|by apply content_holds].
Qed.

(** The text a delta adds under a key. *)
Definition delta_text (delta : val) (k : jsstr) : jsstr :=
  let v := get_any delta k in if truthy v then String_val v else [].

Lemma apply_delta_sim w before c r delta k kind :
  sim w before c r ->
  match kind with
  | Content => sim (apply_delta delta k kind w) before (c ++ delta_text delta k) r
  | Reasoning => sim (apply_delta delta k kind w) before c (r ++ delta_text delta k)
  end.
Proof.
  intros H. unfold apply_delta, delta_text. cbn zeta. destruct (truthy _).
  - exact (stream_sim w before c r _ kind H).
  - destruct kind; by rewrite app_nil_r.
Qed.

Definition content_of (delta : val) : jsstr := if truthy delta then delta_text delta $"content" else [].
Definition reasoning_text (delta : val) : jsstr :=
  if truthy delta then delta_text delta $"reasoning_content" ++ delta_text delta $"reasoning" else [].

Lemma apply_deltas_sim w before c r delta :
  sim w before c r ->
  sim (if truthy delta then apply_deltas delta w else w) before (c ++ content_of delta) (r ++ reasoning_text delta).
Proof.
  intros H. unfold content_of, reasoning_text. destruct (truthy delta); [|by rewrite !app_nil_r].
  unfold apply_deltas. rewrite app_assoc.
  apply (apply_delta_sim _ _ _ _ _ _ Content), (apply_delta_sim _ _ _ _ _ _ Reasoning).
  by apply (apply_delta_sim _ _ _ _ _ _ Reasoning).
Qed.

Lemma apply_deltas_saves delta w : saves (if truthy delta then apply_deltas delta w else w) = saves w.
Proof.
  assert (H : forall k kind w', saves (apply_delta delta k kind w') = saves w').
  { intros k kind w'. unfold apply_delta. cbn zeta. by destruct (truthy _). }
  destruct (truthy delta); [|done]. unfold apply_deltas. by rewrite !H.
Qed.

Section Runs.
Variable t : jsstr -> jsstr.

(** An event that carries a part of the answer, and its delta. *)
Definition carries (e : sse_event * report * jsstr) (delta : val) : Prop :=
  exists data p, e.1.1 = OnMessage data /\ data <> $"[DONE]" /\ parse data = Some p /\ delta_of p = Ret delta.

Lemma events_sim es ds s w before c r :
  Forall2 carries es ds -> sim w before c r ->
  exists s' w', events t es s w = Ret (s', w') /\ saves w' = saves w
    /\ sim w' before (c ++ concat (map content_of ds)) (r ++ concat (map reasoning_text ds)).
Proof using.
  intros H. revert s w c r. induction H as [|[[e rep] perr] d es ds (data & p & He & Hd & Hp & Hdl) _ IH]; intros s w c r Hs.
  - exists s, w. cbn. by rewrite !app_nil_r.
  - cbn in He. subst e. cbn [events on_event]. unfold on_message. apply str_eqb_neq in Hd. rewrite Hd, Hp, Hdl. cbn zeta.
    cbn [bind_outcome]. set (w1 := setDebugData _ _).
    assert (Hs1 : sim w1 before c r) by (unfold w1, first_response; by destruct (hasReceivedFirstResponse s)).
    assert (Hv1 : saves w1 = saves w) by (unfold w1, first_response; by destruct (hasReceivedFirstResponse s)).
    destruct (IH (StreamVars (responseData s ++ data ++ [10]) true (isStreamComplete s)) _ _ _
      (apply_deltas_sim w1 before c r d Hs1)) as (s' & w' & E & Hv & Hs').
    exists s', w'. rewrite E. split; [done|]. rewrite Hv, apply_deltas_saves, Hv1. split; [done|].
    cbn [map concat]. by rewrite !app_assoc.
Qed.

Lemma complete_sim status w before c r :
  sim w before c r -> status = $"complete" \/ status = $"error" ->
  exists w' m, completeMessage status w = Ret w' /\ messages w' = before ++ [m] /\ holds m c r
    /\ get_any m $"status" = VStr status /\ saves w' = (before ++ [m]) :: saves w.
Proof using.
  intros (m & Hm & Hh & Hw) Hst. unfold completeMessage. cbn zeta. rewrite Hm, last_message_app, update_last_app.
  pose proof (h_obj _ _ _ Hh) as (o & -> & _). cbn [is_nullish]. rewrite (proj1 (waiting_not_final _ Hw)).
  destruct (complete_holds (VObj o) c r status Hh) as [H1 H2].
  assert ((status =s? $"complete") || (status =s? $"error") = true) as ->.
  { destruct Hst as [->| ->]; rewrite str_eqb_refl; [done|apply orb_true_r]. }
  eexists _, _. split; [reflexivity|]. split; [reflexivity|]. split; [exact H1|]. by split.
Qed.

(** C3: a streamed answer ends as the concatenation of its parts: after any sequence of
    well-formed events and the end marker the last message holds all the content and all
    the reasoning received, in order, is complete, leaves the earlier messages alone, and
    exactly this list is saved, once. *)
Theorem stream_refines_transcript es ds rep perr s w before m :
  messages w = before ++ [m] -> holds m [] [] -> status_is m $"loading" = true -> Forall2 carries es ds ->
  exists s' w' m', events t (es ++ [(OnMessage $"[DONE]", rep, perr)]) s w = Ret (s', w')
    /\ messages w' = before ++ [m']
    /\ holds m' (concat (map content_of ds)) (concat (map reasoning_text ds))
    /\ status_is m' $"complete" = true /\ saves w' = (before ++ [m']) :: saves w.
Proof using.
  intros Hm Hh Hl Hes.
  assert (Hs : sim w before [] []) by (exists m; split; [done|]; split; [done|]; unfold waiting; by rewrite Hl).
  destruct (events_sim es ds s w before [] [] Hes Hs) as (s1 & w1 & E1 & Hv1 & Hs1).
  assert (Happ : forall es2, events t (es ++ es2) s w = events t es2 s1 w1).
  { revert E1. clear. revert s w. induction es as [|[[e r] pe] es IH]; intros s w E es2; [by injection E as -> ->|].
    cbn [app events] in *. destruct (on_event t e r pe s w) as [[s' w']|]; cbn [bind_outcome] in *; [|done]. by apply IH. }
  rewrite Happ. cbn [events on_event]. unfold on_message. rewrite str_eqb_refl.
  set (w2 := setDebugData _ _). assert (Hs2 : sim w2 before (concat (map content_of ds)) (concat (map reasoning_text ds))) by exact Hs1.
  destruct (complete_sim $"complete" w2 _ _ _ Hs2 (or_introl eq_refl)) as (w' & m' & E & H1 & H2 & H3 & H4).
  rewrite E. cbn [bind_outcome]. eexists _, w', m'. split; [reflexivity|]. split; [done|]. split; [done|]. split.
  - unfold status_is. rewrite H3. unfold eq_str. apply str_eqb_refl.
  - rewrite H4. f_equal. exact Hv1.
Qed.

Lemma final_not_waiting m : final m = true -> waiting m = false.
Proof using. intros H. destruct (waiting m) eqn:E; [|done]. apply waiting_not_final in E as [E _]. congruence. Qed.

(** The world after an event shows and saves what it did before. *)
Definition untouched (w w' : world) : Prop := messages w' = messages w /\ saves w' = saves w.

(** The last message is settled. *)
Definition last_final (w : world) : Prop :=
  exists before m, messages w = before ++ [m] /\ is_nullish m = false /\ final m = true.

Lemma untouched_final w w' : untouched w w' -> last_final w -> last_final w'.
Proof using. intros [H _] (before & m & Hm & H'). exists before, m. by rewrite H. Qed.

Lemma stream_final chunk kind w : last_final w -> untouched w (streamMessageUpdate chunk kind w).
Proof using.
  intros (before & m & Hm & _ & Hf). split; [|done]. cbn [streamMessageUpdate with_messages messages].
  rewrite Hm, update_last_app. unfold stream_last. by rewrite (final_not_waiting m Hf), andb_false_r.
Qed.

Lemma complete_final status w : last_final w -> completeMessage status w = Ret w.
Proof using.
  intros (before & m & Hm & Hn & Hf). unfold completeMessage. cbn zeta. by rewrite Hm, last_message_app, Hn, Hf.
Qed.

Lemma fail_stream_final text w w0 :
  last_final w -> untouched w w0 -> exists w', fail_stream t text w0 = Ret w' /\ untouched w w'.
Proof using.
  intros Hl Hu. pose proof (untouched_final _ _ Hu Hl) as Hl0. unfold fail_stream.
  pose proof (stream_final (t text) Content w0 Hl0) as Hu1. rewrite complete_final by (by eapply untouched_final).
  eexists. split; [done|]. destruct Hu, Hu1. by split; etrans.
Qed.

Lemma delta_final delta k kind w w0 : last_final w -> untouched w w0 -> untouched w (apply_delta delta k kind w0).
Proof using.
  intros Hl Hu. unfold apply_delta. cbn zeta. destruct (truthy _); [|done].
  pose proof (stream_final (String_val (get_any delta k)) kind w0 (untouched_final _ _ Hu Hl)) as [].
  destruct Hu. by split; etrans.
Qed.

Lemma on_event_final e r perr s w :
  last_final w -> exists s' w', on_event t e r perr s w = Ret (s', w') /\ untouched w w'.
Proof using.
  intros Hl. assert (Hbad : forall data s0 w0, untouched w w0 -> exists w', bad_message t data perr s0 w0 = Ret w' /\ untouched w w').
  { intros data s0 w0 Hu. unfold bad_message. apply fail_stream_final; [done|exact Hu]. }
  destruct e as [data|data rs|ers st rs]; cbn [on_event].
  - unfold on_message. destruct (data =s? _).
    + rewrite complete_final by exact Hl. eexists _, _. split; [reflexivity|]. by split.
    + destruct (parse data) as [p|].
      * cbn zeta. set (w1 := setDebugData _ _).
        assert (Hu1 : untouched w w1) by (unfold w1, first_response; destruct (hasReceivedFirstResponse s); by split).
        destruct (delta_of p) as [d|].
        -- eexists _, _. split; [reflexivity|]. destruct (truthy d); [|done]. unfold apply_deltas.
           by repeat apply delta_final.
        -- edestruct Hbad as (w' & E & Hu'); [exact Hu1|]. rewrite E. cbn [bind_outcome]. by eexists _, w'.
      * edestruct (Hbad data s w) as (w' & E & Hu'); [by split|]. rewrite E. cbn [bind_outcome]. by eexists _, w'.
  - eexists _, _. split; [reflexivity|]. unfold on_error. destruct (isStreamComplete s || _); [by split|].
    destruct (error_of t data) as [em ec]. cbn zeta. destruct Hl as (before & m & Hm & Hn & Hf). split; [|done].
    cbn [set_source with_messages messages show_response setActiveDebugTab setDebugData].
    rewrite Hm, update_last_app. unfold fail_last. by rewrite Hf, andb_false_r.
  - unfold on_readystatechange. cbn zeta. destruct (_ && negb (isStreamComplete s)).
    + edestruct (fail_stream_final $"连接已断开" w) as (w' & E & Hu'); [exact Hl| |rewrite E; cbn [bind_outcome]; by eexists _, w'].
      by split.
    + eexists _, _. split; [reflexivity|]. by split.
Qed.

(** Once the last message is complete or in error, no further event of the source, in
    whatever order, changes or saves the messages, and none fails. *)
Theorem settled_answer_is_stable es s w :
  last_final w -> exists s' w', events t es s w = Ret (s', w') /\ messages w' = messages w /\ saves w' = saves w.
Proof using.
  intros Hl. revert s w Hl. induction es as [|[[e r] pe] es IH]; intros s w Hl; [by exists s, w|].
  cbn [events]. destruct (on_event_final e r pe s w Hl) as (s1 & w1 & E & Hu). rewrite E. cbn [bind_outcome].
  destruct (IH s1 w1 (untouched_final _ _ Hu Hl)) as (s' & w' & E' & H1 & H2). exists s', w'.
  destruct Hu. split; [done|]. by split; etrans.
Qed.

(** A plain request settles the message it was sent for, as complete or in error,
    except when the answer has no choice, which leaves it loading. *)
Theorem plain_request_settles payload ts f r te w before m :
  messages w = before ++ [m] -> status_is m $"loading" = true ->
  exists m', messages (handleNonStreamRequest t payload ts f r te w) = before ++ [m']
    /\ (match f with
        | Answer data => match first_choice data with
                         | Ret c => if truthy c then final m' = true else m' = m
                         | Throw => final m' = true
                         end
        | _ => final m' = true
        end).
Proof using.
  intros Hm Hl.
  assert (Hfin : forall o st, prop $"status" (o ++ applyAutoCollapseLogic m (VBool true)) = Some (VStr st) ->
     NoDup (keys (o ++ applyAutoCollapseLogic m (VBool true))) -> st = $"complete" \/ st = $"error" ->
     final (finish_loading o m) = true).
  { intros o st Hp Hn Hst. unfold finish_loading. rewrite Hl. unfold final, status_is. rewrite get_assign by done.
    rewrite Hp. unfold eq_str. destruct Hst as [->| ->]; rewrite str_eqb_refl; [done|apply orb_true_r]. }
  assert (Hfail : forall message code w0, messages w0 = messages w ->
     exists m', messages (request_failed t r message code w0) = before ++ [m'] /\ final m' = true).
  { intros message code w0 H0. unfold request_failed. cbn zeta.
    cbn [with_messages messages show_response setActiveDebugTab setDebugData]. rewrite H0, Hm, update_last_app.
    eexists. split; [reflexivity|]. eapply Hfin; [reflexivity|lit_NoDup|by right]. }
  unfold handleNonStreamRequest. cbn zeta. destruct f as [message|status stext body|data].
  - by apply Hfail.
  - destruct (error_body body) as [eb pe]. cbn zeta. by apply Hfail.
  - destruct (first_choice data) as [c|]; cbn [bind_outcome]; [|by apply Hfail].
    destruct (truthy c); [|eexists; split; [exact Hm|done]].
    destruct (answer_fields c) as [o|] eqn:Eo; cbn [bind_outcome]; [|by apply Hfail].
    cbn [with_messages messages show_response setActiveDebugTab setDebugData start_request].
    rewrite Hm, update_last_app. eexists. split; [reflexivity|].
    unfold answer_fields in Eo. destruct (think_content _ _) as [[cc rr]|]; cbn [bind_outcome] in Eo; [|done].
    injection Eo as <-. eapply Hfin; [reflexivity|lit_NoDup|by left].
Qed.

(** Stopping never leaves an answer waiting, forgets the source, and saves what it shows
    exactly when it settled a message. *)
Theorem stop_settles w w' :
  onStopGenerator w = Ret w' ->
  source w' = false /\ (messages w' = [] \/ waiting (last_message (messages w')) = false)
  /\ (if waiting (last_message (messages w)) && negb (bool_decide (messages w = []))
      then saves w' = messages w' :: saves w else messages w' = messages w /\ saves w' = saves w).
Proof using.
  unfold onStopGenerator. cbn zeta. destruct (messages w) as [|x l] eqn:Em.
  { intros [= <-]. split; [done|]. split; [by left|]. by rewrite andb_false_r. }
  rewrite <- Em. destruct (is_nullish (last_message (messages w))); [done|].
  rewrite bool_decide_eq_false_2 by (by rewrite Em). rewrite andb_true_r.
  destruct (waiting (last_message (messages w))) eqn:Ew.
  - destruct (stopped_message _) as [m'|] eqn:Es; [|done]. cbn [bind_outcome]. intros E. apply Ret_inj in E.
    rewrite <- E. split; [done|]. split; [|done]. right. cbn [save with_messages messages].
    destruct (exists_last (l := messages w)) as (before & y & ->); [by rewrite Em|].
    rewrite update_last_app, last_message_app. unfold stopped_message in Es.
    destruct (process_content _ _) as [[c r]|]; cbn [bind_outcome] in Es; [|done]. apply Ret_inj in Es.
    rewrite <- Es. unfold waiting, status_is. rewrite get_assign by lit_NoDup. reflexivity.
  - intros [= <-]. split; [done|]. split; [by right|done].
Qed.

End Runs.

(** ** Samples *)

Definition loading_message : val := (createLoadingAssistantMessage n0 4).1.
Definition chunk_text : jsstr :=
  default [] (stringify (VObj [($"choices", VArr [VObj [($"delta", VObj [($"content", VStr $"hi")])]])])).
Definition sample_world : world := World [loading_message] [] $"preview" false [].
Definition no_report : report := Report [] VUndef.

Lemma loading_holds : holds loading_message [] [].
Proof. split; [eexists; split; [reflexivity|by vm_compute]|reflexivity..]. Qed.

Lemma stream_refines_transcript_witness :
  exists s' w' m', events (fun x => x) ([(OnMessage chunk_text, no_report, [])] ++ [(OnMessage $"[DONE]", no_report, [])])
      (StreamVars [] false false) sample_world = Ret (s', w')
    /\ messages w' = [] ++ [m'] /\ holds m' ($"hi" ++ []) [].
Proof.
  destruct (stream_refines_transcript (fun x => x) [(OnMessage chunk_text, no_report, [])]
    [VObj [($"content", VStr $"hi")]] no_report [] (StreamVars [] false false) sample_world [] loading_message)
    as (s' & w' & m' & E & H1 & H2 & _).
  - reflexivity.
  - exact loading_holds.
  - reflexivity.
  - constructor; [|constructor].
    exists chunk_text, (VObj [($"choices", VArr [VObj [($"delta", VObj [($"content", VStr $"hi")])]])]).
    split; [done|]. split; [|split; [by vm_compute|reflexivity]].
    intros E. assert (length chunk_text = length $"[DONE]") as H by (by rewrite E). by vm_compute in H.
  - exists s', w', m'. split; [exact E|]. split; [exact H1|exact H2].
Defined.

Definition done_message : val := complete_last $"complete" loading_message.

Lemma settled_answer_is_stable_witness :
  exists s' w', events (fun x => x) [(OnError None 1, no_report, []); (OnMessage $"[DONE]", no_report, [])]
      (StreamVars [] false false) (World [done_message] [] [] true []) = Ret (s', w') /\ messages w' = [done_message].
Proof.
  destruct (settled_answer_is_stable (fun x => x) [(OnError None 1, no_report, []); (OnMessage $"[DONE]", no_report, [])]
    (StreamVars [] false false) (World [done_message] [] [] true [])) as (s' & w' & E & H & _).
  - exists [], done_message. repeat split; by vm_compute.
  - exists s', w'. by split.
Defined.

Lemma plain_request_settles_witness :
  exists m', messages (handleNonStreamRequest (fun x => x) VNull [] (Rejected $"offline") no_report [] sample_world) = [] ++ [m']
    /\ final m' = true.
Proof.
  apply (plain_request_settles (fun x => x) VNull [] (Rejected $"offline") no_report [] sample_world [] loading_message); reflexivity.
Defined.

Lemma stop_settles_witness :
  exists w', onStopGenerator sample_world = Ret w' /\ source w' = false.
Proof.
  destruct (onStopGenerator sample_world) as [w'|] eqn:E; [|by vm_compute in E].
  exists w'. split; [done|]. exact (proj1 (stop_settles sample_world w' E)).
Defined.

End Stream.
