(* ===== verification/ParamOverride.v ===== *)
(** * Parameter override rules: data, drafts, validation, JSON

    [web/src/components/table/channels/modals/ParamOverrideEditorModal.jsx], lines 46 to
    1066 and [buildOperationsJson]: the rules as the editor holds them, the text fields
    they are edited in, and the JSON they are stored as.  [clock] reads the time for the
    n-th local identifier. *)
From S2P Require Import Prelude JSNum JSValue Json.
#[local] Open Scope Z_scope.
#[local] Arguments js _ : simpl never.

Module ParamOverride.

(** ** Modes *)

Definition OPERATION_MODE_VALUES : list jsstr :=
  [$"set"; $"delete"; $"append"; $"prepend"; $"copy"; $"move"; $"replace"; $"regex_replace"; $"trim_prefix";
   $"trim_suffix"; $"ensure_prefix"; $"ensure_suffix"; $"trim_space"; $"to_lower"; $"to_upper"; $"return_error";
   $"prune_objects"; $"pass_headers"; $"sync_fields"; $"set_header"; $"delete_header"; $"copy_header"; $"move_header"].

Definition CONDITION_MODE_VALUES : list jsstr :=
  [$"full"; $"prefix"; $"suffix"; $"contains"; $"gt"; $"gte"; $"lt"; $"lte"].

Record meta := Meta {
  m_path : bool; m_pathOptional : bool; m_value : bool; m_keepOrigin : bool; m_from : bool; m_to : bool; m_pathAlias : bool
}.

Definition meta_path := Meta true false false false false false false.
Definition meta_path_value := Meta true false true false false false false.
Definition meta_set := Meta true false true true false false false.
Definition meta_from_to := Meta false false false false true true false.
Definition meta_replace := Meta true false false false true false false.
Definition meta_alias := Meta false false false true true true true.

Definition MODE_META : list (jsstr * meta) :=
  [($"delete", meta_path); ($"set", meta_set); ($"append", meta_set); ($"prepend", meta_set);
   ($"copy", meta_from_to); ($"move", meta_from_to); ($"replace", meta_replace); ($"regex_replace", meta_replace);
   ($"trim_prefix", meta_path_value); ($"trim_suffix", meta_path_value); ($"ensure_prefix", meta_path_value);
   ($"ensure_suffix", meta_path_value); ($"trim_space", meta_path); ($"to_lower", meta_path); ($"to_upper", meta_path);
   ($"return_error", Meta false false true false false false false);
   ($"prune_objects", Meta false true true false false false false);
   ($"pass_headers", Meta false false true true false false false); ($"sync_fields", meta_from_to);
   ($"set_header", meta_set); ($"delete_header", meta_path); ($"copy_header", meta_alias); ($"move_header", meta_alias)].

(** [MODE_META[mode] || MODE_META.set] *)
Definition meta_of (mode : jsstr) : meta := default meta_set (prop mode MODE_META).

Definition VALUE_REQUIRED_MODES : list jsstr :=
  [$"trim_prefix"; $"trim_suffix"; $"ensure_prefix"; $"ensure_suffix"; $"set_header"; $"return_error";
   $"prune_objects"; $"pass_headers"].
Definition FROM_REQUIRED_MODES : list jsstr :=
  [$"copy"; $"move"; $"replace"; $"regex_replace"; $"copy_header"; $"move_header"; $"sync_fields"].
Definition TO_REQUIRED_MODES : list jsstr := [$"copy"; $"move"; $"copy_header"; $"move_header"; $"sync_fields"].

Definition mem (x : jsstr) (l : list jsstr) : bool := existsb (fun y => x =s? y) l.

(** ** Rules *)

Record cond := Cond {
  c_id : jsstr; c_path : jsstr; c_mode : jsstr; c_value_text : jsstr; c_invert : bool; c_pass_missing_key : bool
}.

Record operation := Operation {
  o_id : jsstr; description : jsstr; path : jsstr; mode : jsstr; value_text : jsstr; keep_origin : bool;
  from : jsstr; to : jsstr; logic : jsstr; conditions : list cond
}.

(** ** Text values *)

(** [JSON.stringify] gives text for every value but undefined. *)
Definition toValueText (v : val) : jsstr :=
  match v with
  | VUndef => []
  | VStr s => s
  | _ => default $"undefined" (stringify v)
  end.

Definition parseLooseValue (raw : jsstr) : val :=
  if nonempty (trim raw) then default (VStr raw) (parse raw) else VStr [].

(** [String(item ?? '').trim()] *)
Definition trimmed_text (v : val) : jsstr := trim (if is_nullish v then [] else String_val v).

(** [String(v || '').trim()] *)
Definition text_or_blank (v : val) : jsstr := trim (if truthy v then String_val v else []).

Definition parsePassHeaderNames (rawValue : val) : list jsstr :=
  let names l := filter_Boolean (map trimmed_text l) in
  match rawValue with
  | VArr l => names l
  | VObj o =>
    match prop $"headers" o with
    | Some (VArr l) => names l
    | _ => match get rawValue $"header" with
           | VUndef => []
           | h => filter_Boolean [trimmed_text h]
           end
    end
  | VStr s => filter_Boolean (map trim (split_char 44 s))
  | _ => []
  end.

(** ** Drafts of return_error *)

Record error_draft := ErrorDraft {
  d_message : jsstr; d_statusCode : num; d_code : jsstr; d_type : jsstr; d_skipRetry : bool; d_simpleMode : bool
}.

Definition default_status (n : num) : num :=
  if isInteger n && nleb (of_Z 100) n && nleb n (of_Z 599) then n else of_Z 400.

Definition error_defaults : error_draft := ErrorDraft [] (of_Z 400) [] [] true true.

Definition error_draft_of (o : object) : error_draft :=
  let p := VObj o in
  let status := match get p $"status_code" with VUndef => get p $"status" | s => s end in
  let message := get p $"message" in
  ErrorDraft (text_or_blank (if truthy message then message else get p $"msg")) (default_status (Number_val status))
    (text_or_blank (get p $"code")) (text_or_blank (get p $"type"))
    (negb (eq_bool (get p $"skip_retry") false)) false.

Definition parseReturnErrorDraft (valueText : jsstr) : error_draft :=
  let raw := trim valueText in
  if negb (nonempty raw) then error_defaults else
  match parse raw with
  | Some (VObj o) => error_draft_of o
  | _ => ErrorDraft raw (of_Z 400) [] [] true true
  end.

(** The object a draft is written as. *)
Definition error_payload (d : error_draft) : object :=
  [($"message", VStr (trim (d_message d))); ($"status_code", VNum (default_status (d_statusCode d)))]
  ++ (if nonempty (trim (d_code d)) then [($"code", VStr (trim (d_code d)))] else [])
  ++ (if nonempty (trim (d_type d)) then [($"type", VStr (trim (d_type d)))] else [])
  ++ (if d_skipRetry d then [] else [($"skip_retry", VBool false)]).

Definition buildReturnErrorValueText (d : error_draft) : jsstr :=
  if d_simpleMode d then trim (d_message d) else default $"undefined" (stringify (VObj (error_payload d))).

(** ** Local identifiers *)

Section Ids.
Variable clock : Z -> Z.

Definition nextLocalId (seed : Z) : jsstr * Z :=
  ($"param_override_" ++ Z_to_str (clock seed) ++ $"_" ++ Z_to_str seed, seed + 1).

(** [typeof v === 'string' ? v : ''] *)
Definition string_or_empty (v : val) : jsstr := match v with VStr s => s | _ => [] end.

Definition mode_or (l : list jsstr) (v : val) (d : jsstr) : jsstr :=
  match v with VStr s => if mem s l then s else d | _ => d end.

(** [Throw]: the properties of null are read.  Also [normalizePruneRule]. *)
Definition normalizeCondition (v : val) (seed : Z) : outcome (cond * Z) :=
  if match v with VNull => true | _ => false end then Throw else
  let '(i, seed') := nextLocalId seed in
  Ret (Cond i (string_or_empty (get_any v $"path")) (mode_or CONDITION_MODE_VALUES (get_any v $"mode") $"full")
         (toValueText (get_any v $"value")) (eq_bool (get_any v $"invert") true)
         (eq_bool (get_any v $"pass_missing_key") true), seed').

Fixpoint map_seed {A B} (f : A -> Z -> outcome (B * Z)) (l : list A) (seed : Z) : outcome (list B * Z) :=
  match l with
  | [] => Ret ([], seed)
  | x :: r => bind_outcome (f x seed) (fun '(y, s1) => bind_outcome (map_seed f r s1) (fun '(ys, s2) => Ret (y :: ys, s2)))
  end.

(** [String(v || d).toUpperCase() === s] *)
Definition upper_is (v : val) (d s : jsstr) : bool :=
  toUpperCase (if truthy v then String_val v else d) =s? s.

Definition normalizeOperation (v : val) (seed : Z) : outcome (operation * Z) :=
  if match v with VNull => true | _ => false end then Throw else
  let '(i, s1) := nextLocalId seed in
  bind_outcome (match get_any v $"conditions" with
                | VArr l => map_seed normalizeCondition l s1
                | _ => Ret ([], s1)
                end) (fun '(cs, s2) =>
  Ret (Operation i (string_or_empty (get_any v $"description")) (string_or_empty (get_any v $"path"))
         (mode_or OPERATION_MODE_VALUES (get_any v $"mode") $"set") (toValueText (get_any v $"value"))
         (eq_bool (get_any v $"keep_origin") true) (string_or_empty (get_any v $"from"))
         (string_or_empty (get_any v $"to"))
         (if upper_is (get_any v $"logic") $"OR" $"AND" then $"AND" else $"OR") cs, s2)).

Definition createDefaultCondition (seed : Z) : cond * Z :=
  let '(i, s) := nextLocalId seed in (Cond i [] $"full" [] false false, s).

Definition createDefaultOperation (seed : Z) : operation * Z :=
  let '(i, s) := nextLocalId seed in (Operation i [] [] $"set" [] false [] [] $"OR" [], s).

(** ** Drafts of prune_objects *)

Record prune_draft := PruneDraft {
  p_simpleMode : bool; p_typeText : jsstr; p_logic : jsstr; p_recursive : bool; p_rules : list cond
}.

(** [Object.entries(o)] as full matches. *)
Definition where_rules (o : object) (seed : Z) : outcome (list cond * Z) :=
  map_seed (fun kv => normalizeCondition (VObj [($"path", VStr kv.1); ($"mode", VStr $"full"); ($"value", kv.2)])) o seed.

Definition prune_rules (p : val) (seed : Z) : outcome (list cond * Z) :=
  bind_outcome (match get p $"where" with VObj w => where_rules w seed | _ => Ret ([], seed) end) (fun '(r1, s1) =>
  bind_outcome (match get p $"conditions" with
                | VArr l => map_seed normalizeCondition (List.filter (fun x => truthy x && is_object x) l) s1
                | VObj w => where_rules w s1
                | _ => Ret ([], s1)
                end) (fun '(r2, s2) => Ret (r1 ++ r2, s2))).

Definition defined (v : val) : bool := match v with VUndef => false | _ => true end.

Definition parsePruneObjectsDraft (valueText : jsstr) (seed : Z) : outcome (prune_draft * Z) :=
  let raw := trim valueText in
  if negb (nonempty raw) then Ret (PruneDraft true [] $"AND" true [], seed) else
  match parse raw with
  | None => Ret (PruneDraft true raw $"AND" true [], seed)
  | Some (VStr s) => Ret (PruneDraft true (trim s) $"AND" true [], seed)
  | Some (VObj o) =>
    let p := VObj o in
    bind_outcome (prune_rules p seed) (fun '(rules, s') =>
    Ret (PruneDraft (negb (defined (get p $"logic") || defined (get p $"recursive") || defined (get p $"where")
                           || defined (get p $"conditions")))
           (match get p $"type" with VUndef => [] | ty => trim (String_val ty) end)
           (if upper_is (get p $"logic") $"AND" $"OR" then $"OR" else $"AND")
           (negb (eq_bool (get p $"recursive") false)) rules, s'))
  | Some v => Ret (PruneDraft true (trimmed_text v) $"AND" true [], seed)
  end.

Definition prune_condition (c : cond) : val :=
  VObj ([($"path", VStr (trim (c_path c)));
         ($"mode", VStr (if mem (c_mode c) CONDITION_MODE_VALUES then c_mode c else $"full"))]
        ++ (if nonempty (trim (c_value_text c)) then [($"value", parseLooseValue (trim (c_value_text c)))] else [])
        ++ (if c_invert c then [($"invert", VBool true)] else [])
        ++ (if c_pass_missing_key c then [($"pass_missing_key", VBool true)] else [])).

Definition prune_payload (d : prune_draft) : object :=
  let cs := map prune_condition (List.filter (fun c => nonempty (trim (c_path c))) (p_rules d)) in
  (if nonempty (trim (p_typeText d)) then [($"type", VStr (trim (p_typeText d)))] else [])
  ++ (if toUpperCase (if nonempty (p_logic d) then p_logic d else $"AND") =s? $"OR" then [($"logic", VStr $"OR")] else [])
  ++ (if p_recursive d then [] else [($"recursive", VBool false)])
  ++ (match cs with [] => [] | _ => [($"conditions", VArr cs)] end).

Definition buildPruneObjectsValueText (d : prune_draft) : jsstr :=
  if p_simpleMode d then trim (p_typeText d) else
  let payload := prune_payload d in
  default $"undefined"
    (stringify (VObj (if has_prop $"type" payload || has_prop $"conditions" payload then payload
                      else [($"logic", VStr $"AND")]))).

End Ids.

(** ** Targets of sync_fields *)

(** The text around the first colon. *)
Fixpoint split_colon (s : jsstr) : option (jsstr * jsstr) :=
  match s with
  | [] => None
  | c :: r => if c =? 58 then Some ([], r)
              else match split_colon r with Some (a, b) => Some (c :: a, b) | None => None end
  end.

Inductive target := Json | Header.

Definition parseSyncTargetSpec (spec : jsstr) : target * jsstr :=
  let raw := trim spec in
  if negb (nonempty raw) then (Json, []) else
  match split_colon raw with
  | None => (Json, raw)
  | Some (a, b) => (if toLowerCase (trim a) =s? $"header" then Header else Json, trim b)
  end.

Definition buildSyncTargetSpec (ty : target) (key : jsstr) : jsstr :=
  let k := trim key in
  if nonempty k then (match ty with Header => $"header" | Json => $"json" end) ++ $":" ++ k else [].

(** ** The list of rules *)

Fixpoint remove_id (i : jsstr) (l : list operation) : option (operation * list operation) :=
  match l with
  | [] => None
  | o :: r => if o_id o =s? i then Some (o, r)
              else match remove_id i r with Some (x, r') => Some (x, o :: r') | None => None end
  end.

(** [splice(index of target (+ 1), 0, moved)] *)
Fixpoint insert_at (i : jsstr) (after : bool) (m : operation) (l : list operation) : option (list operation) :=
  match l with
  | [] => None
  | o :: r => if o_id o =s? i then Some (if after then o :: m :: r else m :: o :: r)
              else match insert_at i after m r with Some r' => Some (o :: r') | None => None end
  end.

Definition reorderOperations (l : list operation) (sourceId targetId : jsstr) (after : bool) : list operation :=
  if negb (nonempty sourceId) || negb (nonempty targetId) || (sourceId =s? targetId) then l else
  match remove_id sourceId l with
  | None => l
  | Some (moved, rest) => default l (insert_at targetId after moved rest)
  end.

Definition condition_set (c : cond) : bool :=
  nonempty (trim (c_path c)) || nonempty (trim (c_value_text c)) || negb (c_mode c =s? $"full") || c_invert c
  || c_pass_missing_key c.

Definition isOperationBlank (o : operation) : bool :=
  (mode o =s? $"set") && negb (nonempty (trim (path o))) && negb (nonempty (trim (from o)))
  && negb (nonempty (trim (to o))) && negb (nonempty (trim (value_text o))) && negb (keep_origin o)
  && negb (existsb condition_set (conditions o)).

(** ** Validation *)

Inductive complaint :=
| NoPath | NoFrom | NoTo | NoValue | ErrorNeedsMessage | NoPruneCondition | PruneNeedsCondition | NoHeaderNames | BadHeaderNames.

(** [MODE_META] and the sets are read at [op.mode || 'set']. *)
Definition op_mode (o : operation) : jsstr := if nonempty (mode o) then mode o else $"set".

Definition return_error_complaint (raw : jsstr) : option complaint :=
  if negb (nonempty raw) then Some NoValue else
  match parse raw with
  | Some (VObj o) => if nonempty (text_or_blank (get (VObj o) $"message")) then None else Some ErrorNeedsMessage
  | _ => None
  end.

Definition nonempty_object (v : val) : bool := match v with VObj (_ :: _) => true | _ => false end.

Definition prune_complaint (raw : jsstr) : option complaint :=
  if negb (nonempty raw) then Some NoPruneCondition else
  match parse raw with
  | Some (VObj o) =>
    let p := VObj o in
    let hasType := match get p $"type" with VUndef => false | ty => nonempty (trim (String_val ty)) end in
    let hasConditions := match get p $"conditions" with VArr (_ :: _) => true | c => nonempty_object c end in
    if hasType || nonempty_object (get p $"where") || hasConditions then None else Some PruneNeedsCondition
  | _ => None
  end.

Definition pass_headers_complaint (raw : jsstr) : option complaint :=
  if negb (nonempty raw) then Some NoHeaderNames else
  match parsePassHeaderNames (parseLooseValue raw) with [] => Some BadHeaderNames | _ => None end.

(** The first complaint of a list of checks. *)
Fixpoint first_of {A} (l : list (option A)) : option A :=
  match l with [] => None | Some x :: _ => Some x | None :: r => first_of r end.

Definition check (b : bool) (c : complaint) : option complaint := if b then Some c else None.

Definition operation_complaint (o : operation) : option complaint :=
  let m := op_mode o in
  let meta := meta_of m in
  let noPath := negb (nonempty (trim (path o))) in
  let noFrom := negb (nonempty (trim (from o))) in
  let noTo := negb (nonempty (trim (to o))) in
  let alias := m_pathAlias meta && negb noPath in
  first_of [check (m_path meta && noPath) NoPath;
            check (mem m FROM_REQUIRED_MODES && noFrom && negb alias) NoFrom;
            check (mem m TO_REQUIRED_MODES && noTo && negb alias) NoTo;
            check (m_from meta && noFrom) NoFrom;
            check (m_to meta && noTo) NoTo;
            check (mem m VALUE_REQUIRED_MODES && negb (nonempty (trim (value_text o)))) NoValue;
            (if m =s? $"return_error" then return_error_complaint (trim (value_text o)) else None);
            (if m =s? $"prune_objects" then prune_complaint (trim (value_text o)) else None);
            (if m =s? $"pass_headers" then pass_headers_complaint (trim (value_text o)) else None)].

(** The line and the complaint of the first bad rule. *)
Fixpoint validate_from (line : Z) (l : list operation) : option (Z * complaint) :=
  match l with
  | [] => None
  | o :: r => match operation_complaint o with
              | Some c => Some (line, c)
              | None => validate_from (line + 1) r
              end
  end.
Definition validateOperations (l : list operation) : option (Z * complaint) := validate_from 1 l.

(** ** The stored JSON *)

Definition buildConditionPayload (c : cond) : option val :=
  let p := trim (c_path c) in
  if negb (nonempty p) then None else
  Some (VObj ([($"path", VStr p); ($"mode", VStr (if nonempty (c_mode c) then c_mode c else $"full"));
               ($"value", parseLooseValue (c_value_text c))]
              ++ (if c_invert c then [($"invert", VBool true)] else [])
              ++ (if c_pass_missing_key c then [($"pass_missing_key", VBool true)] else []))).

Definition opt_prop (b : bool) (k : jsstr) (v : val) : object := if b then [(k, v)] else [].

(** [payload.from] and [payload.to]; an aliased mode falls back to the path. *)
Definition from_value (o : operation) : jsstr :=
  let m := meta_of (op_mode o) in
  let f := if m_from m then trim (from o) else [] in
  if m_pathAlias m && negb (nonempty f) then trim (path o) else f.
Definition to_value (o : operation) : jsstr :=
  let m := meta_of (op_mode o) in
  let f := trim (to o) in
  if m_pathAlias m && negb (nonempty f) then trim (path o) else f.

Definition buildOperation (o : operation) : val :=
  let m := op_mode o in
  let meta := meta_of m in
  let p := trim (path o) in
  let cs := omap buildConditionPayload (conditions o) in
  VObj ([($"mode", VStr m)]
        ++ opt_prop (nonempty (trim (description o))) $"description" (VStr (trim (description o)))
        ++ opt_prop (m_path meta || (m_pathOptional meta && nonempty p)) $"path" (VStr p)
        ++ opt_prop (m_value meta) $"value" (parseLooseValue (value_text o))
        ++ opt_prop (m_keepOrigin meta && keep_origin o) $"keep_origin" (VBool true)
        ++ opt_prop (m_from meta || nonempty (from_value o)) $"from" (VStr (from_value o))
        ++ opt_prop (m_to meta || nonempty (to_value o)) $"to" (VStr (to_value o))
        ++ match cs with
           | [] => []
           | _ => [($"conditions", VArr cs); ($"logic", VStr (if logic o =s? $"AND" then $"AND" else $"OR"))]
           end).

Definition nonblank (l : list operation) : list operation := List.filter (fun o => negb (isOperationBlank o)) l.

Definition operations_text (l : list operation) : jsstr :=
  default $"undefined" (stringify2 (VObj [($"operations", VArr (map buildOperation l))])).

(** The text, or the line and complaint of the thrown error. *)
Definition buildOperationsJson (validate : bool) (l : list operation) : jsstr + (Z * complaint) :=
  match nonblank l with
  | [] => inl []
  | ops => match (if validate then validateOperations ops else None) with
           | Some e => inr e
           | None => inl (operations_text ops)
           end
  end.

(** * Theorems *)

Lemma remove_id_spec i l x rest :
  remove_id i l = Some (x, rest) -> exists a b, l = a ++ x :: b /\ rest = a ++ b /\ o_id x = i.
Proof.
  revert rest. induction l as [|o l IH]; intros rest; cbn [remove_id]; [done|].
  destruct (str_eqb_spec (o_id o) i); [intros [= <- <-]; by exists [], l|].
  destruct (remove_id i l) as [[y r]|]; [|done]. intros [= <- <-].
  destruct (IH _ eq_refl) as (a & b & -> & -> & H). by exists (o :: a), b.
Qed.

Lemma remove_id_none i l : remove_id i l = None <-> i ∉ map o_id l.
Proof.
  induction l as [|o l IH]; cbn [remove_id map]; [set_solver|].
  destruct (str_eqb_spec (o_id o) i); [set_solver|]. destruct (remove_id i l) as [[??]|]; [|set_solver].
  split; [done|]. intros H. exfalso. assert (i ∉ map o_id l) by set_solver. by apply IH in H0.
Qed.

Lemma insert_at_spec i after m l l' :
  insert_at i after m l = Some l' ->
  exists a t b, l = a ++ t :: b /\ o_id t = i /\ l' = a ++ (if after then [t; m] else [m; t]) ++ b.
Proof.
  revert l'. induction l as [|o l IH]; intros l'; cbn [insert_at]; [done|].
  destruct (str_eqb_spec (o_id o) i); [intros [= <-]; exists [], o, l; by destruct after|].
  destruct (insert_at i after m l) as [r|]; [|done]. intros [= <-].
  destruct (IH _ eq_refl) as (a & t & b & -> & H & ->). by exists (o :: a), t, b.
Qed.

Lemma insert_at_none i after m l : insert_at i after m l = None <-> i ∉ map o_id l.
Proof.
  induction l as [|o l IH]; cbn [insert_at map]; [set_solver|].
  destruct (str_eqb_spec (o_id o) i); [set_solver|]. destruct (insert_at i after m l); [|set_solver].
  split; [done|]. intros H. exfalso. assert (i ∉ map o_id l) by set_solver. by apply IH in H0.
Qed.

Lemma reorder_perm l s t after : reorderOperations l s t after ≡ₚ l.
Proof.
  unfold reorderOperations. destruct (_ || _); [done|]. destruct (remove_id s l) as [[m rest]|] eqn:E; [|done].
  apply remove_id_spec in E as (a & b & -> & -> & _). destruct (insert_at t after m (a ++ b)) as [l'|] eqn:Ei; [|done].
  cbn [from_option id]. apply insert_at_spec in Ei as (a' & x & b' & E & _ & ->). rewrite <- Permutation_middle, E.
  destruct after; cbn [app]; rewrite <- !Permutation_middle; [apply perm_swap|done].
Qed.

(** Dragging a rule keeps all rules, puts the dragged one directly before or after the
    one it is dropped on, and leaves the order of the others as it was. *)
Theorem reorder_moves_next_to_target l s t after :
  s <> [] -> t <> [] -> s <> t -> s ∈ map o_id l -> t ∈ map o_id l ->
  exists moved target rest_a rest_b a b,
    o_id moved = s /\ o_id target = t
    /\ l = a ++ moved :: b /\ a ++ b = rest_a ++ target :: rest_b
    /\ reorderOperations l s t after = rest_a ++ (if after then [target; moved] else [moved; target]) ++ rest_b.
Proof.
  intros Hs Ht Hne Hsl Htl. unfold reorderOperations.
  assert (negb (nonempty s) || negb (nonempty t) || (s =s? t) = false) as ->.
  { destruct s, t; try done. cbn [nonempty negb orb]. by apply str_eqb_neq. }
  destruct (remove_id s l) as [[m rest]|] eqn:E; [|by apply remove_id_none in E].
  apply remove_id_spec in E as (a & b & -> & -> & Hm).
  destruct (insert_at t after m (a ++ b)) as [l'|] eqn:Ei.
  - cbn [from_option id]. apply insert_at_spec in Ei as (a' & x & b' & E & Hx & ->).
    exists m, x, a', b', a, b. done.
  - apply insert_at_none in Ei. exfalso. apply Ei. rewrite map_app in *. cbn [map] in Htl. set_solver.
Qed.

(** A synchronisation target survives being written and read: its kind and its trimmed
    key come back, whatever the key contains. *)
Theorem sync_target_roundtrip ty key :
  parseSyncTargetSpec (buildSyncTargetSpec ty key) = (if nonempty (trim key) then ty else Json, trim key).
Proof.
  unfold parseSyncTargetSpec, buildSyncTargetSpec. cbn zeta. destruct (nonempty (trim key)) eqn:En.
  - assert (Ht : forall p, p <> [] -> is_ws (List.hd 0 p) = false -> trim (p ++ trim key) = p ++ trim key).
    { intros p Hp Hpe. apply trim_id. apply edges_ok_app; [done|by destruct (trim key)|done|].
      pose proof (trim_edges key) as Hk. unfold edges_ok in Hk. destruct (trim key); [done|]. by bsplit. }
    destruct ty; js_lit; cbn [app].
    + pose proof (Ht [106; 115; 111; 110; 58] ltac:(done) ltac:(done)) as H. cbn [app] in H. rewrite H. cbn [app nonempty negb split_colon Z.eqb Pos.eqb].
      by rewrite trim_idem.
    + pose proof (Ht [104; 101; 97; 100; 101; 114; 58] ltac:(done) ltac:(done)) as H. cbn [app] in H. rewrite H. cbn [app nonempty negb split_colon Z.eqb Pos.eqb].
      by rewrite trim_idem.
  - destruct (trim key) eqn:E; [|done]. reflexivity.
Qed.

(** The alias of the header modes is never used: a rule that copies or moves a header is
    refused without a source or without a target, even when its path is given. *)
Theorem header_alias_never_applies o :
  m_pathAlias (meta_of (op_mode o)) = true ->
  operation_complaint o = None -> trim (from o) <> [] /\ trim (to o) <> [].
Proof.
  intros Ha Hc. assert (Hm : op_mode o = $"copy_header" \/ op_mode o = $"move_header").
  { revert Ha. unfold meta_of, MODE_META. generalize (op_mode o). intros m. cbn [prop].
    repeat match goal with
    | |- context [if m =s? ?k then _ else _] =>
      destruct (str_eqb_spec m k) as [->|_]; [intros Ha; first [discriminate Ha|by auto]|]
    end. intros Ha. discriminate Ha. }
  unfold operation_complaint in Hc. cbn zeta in Hc.
  destruct Hm as [Hm|Hm]; rewrite Hm in Hc; destruct (trim (from o)) as [|cf f], (trim (to o)) as [|ct t]; try done;
    exfalso; revert Hc; destruct (nonempty (trim (path o))); by vm_compute.
Qed.

(** A stored string value that reads as JSON is not written back as a string: opening
    the rule and saving it unchanged turns the text of a number, say, into the number. *)
Theorem string_value_retyped s v :
  parse s = Some v -> trim s <> [] -> parseLooseValue (toValueText (VStr s)) = v.
Proof. intros Hp Hs. unfold parseLooseValue, toValueText. rewrite Hp. by destruct (trim s). Qed.

(** ** Instances *)

Definition sample_rule (i : jsstr) : operation := Operation i [] $"p" $"set" $"1" false [] [] $"OR" [].

Lemma reorder_moves_next_to_target_witness :
  reorderOperations [sample_rule $"a"; sample_rule $"b"; sample_rule $"c"] $"c" $"a" true
  = [sample_rule $"a"; sample_rule $"c"; sample_rule $"b"]
  /\ exists moved target rest_a rest_b, o_id moved = $"c" /\ o_id target = $"a"
     /\ reorderOperations [sample_rule $"a"; sample_rule $"b"; sample_rule $"c"] $"c" $"a" true
        = rest_a ++ [target; moved] ++ rest_b.
Proof.
  split; [by vm_compute|].
  destruct (reorder_moves_next_to_target [sample_rule $"a"; sample_rule $"b"; sample_rule $"c"] $"c" $"a" true)
    as (m & t & ra & rb & a & b & Hm & Ht & _ & _ & E); [by vm_compute|by vm_compute|by vm_compute| | |].
  - cbn. apply list_elem_of_In. right. right. by left.
  - cbn. apply list_elem_of_In. by left.
  - by exists m, t, ra, rb.
Defined.

Lemma header_alias_never_applies_witness :
  trim (from (Operation [] [] $"X-P" $"copy_header" [] false $"X-A" $"X-B" [] [])) <> []
  /\ operation_complaint (Operation [] [] $"X-P" $"copy_header" [] false [] [] [] []) = Some NoFrom.
Proof.
  split; [|by vm_compute].
  apply (header_alias_never_applies (Operation [] [] $"X-P" $"copy_header" [] false $"X-A" $"X-B" [] [])); by vm_compute.
Defined.

Lemma string_value_retyped_witness : parseLooseValue (toValueText (VStr $"42")) = VNum (of_Z 42).
Proof. apply (string_value_retyped $"42" (VNum (of_Z 42))); by vm_compute. Defined.

End ParamOverride.
