(* ===== verification/ParamOverrideEditor.v ===== *)
(** * Parameter override rules: the editor

    [web/src/components/table/channels/modals/ParamOverrideEditorModal.jsx]: the state of
    the modal, its handlers and effects.  Messages are the source's keys before
    translation. *)
From S2P Require Import Prelude JSNum JSValue Json ParamOverride.
#[local] Open Scope Z_scope.
#[local] Arguments js _ : simpl never.

Module ParamOverrideEditor.
Import ParamOverride.

Inductive edit_mode := VisualEdit | JsonEdit.
Inductive visual_mode := Operations | Legacy.

(** ** Templates *)

Definition LEGACY_TEMPLATE : object := [($"temperature", VNum n0); ($"max_tokens", VNum (of_Z 1000))].

Definition strs (l : list jsstr) : val := VArr (map VStr l).

Definition condition_value (p m v : jsstr) : val := VObj [($"path", VStr p); ($"mode", VStr m); ($"value", VStr v)].

Definition OPERATION_TEMPLATE : list val :=
  [VObj [($"description", VStr $"Set default temperature for openai/* models."); ($"path", VStr $"temperature");
         ($"mode", VStr $"set"); ($"value", VNum (num_of_decimal false 7 (-1)));
         ($"conditions", VArr [condition_value $"model" $"prefix" $"openai/"]); ($"logic", VStr $"AND")]].

Definition HEADER_PASSTHROUGH_TEMPLATE : list val :=
  [VObj [($"description", VStr $"Pass through X-Request-Id header to upstream."); ($"mode", VStr $"pass_headers");
         ($"value", strs [$"X-Request-Id"]); ($"keep_origin", VBool true)]].

Definition GEMINI_IMAGE_4K_TEMPLATE : list val :=
  [VObj [($"description", VStr $"Set imageSize to 4K when model contains gemini/image and ends with 4k.");
         ($"mode", VStr $"set"); ($"path", VStr $"generationConfig.imageConfig.imageSize"); ($"value", VStr $"4K");
         ($"conditions", VArr [condition_value $"original_model" $"contains" $"gemini";
                               condition_value $"original_model" $"contains" $"image";
                               condition_value $"original_model" $"suffix" $"4k"]); ($"logic", VStr $"AND")]].

Definition buildPassHeadersTemplate (headers : list jsstr) : list val :=
  [VObj [($"mode", VStr $"pass_headers"); ($"value", strs headers); ($"keep_origin", VBool true)]].

Definition CODEX_CLI_HEADER_PASSTHROUGH_HEADERS : list jsstr :=
  [$"Originator"; $"Session_id"; $"User-Agent"; $"X-Codex-Beta-Features"; $"X-Codex-Turn-Metadata"].

Definition CLAUDE_CLI_HEADER_PASSTHROUGH_HEADERS : list jsstr :=
  [$"X-Stainless-Arch"; $"X-Stainless-Lang"; $"X-Stainless-Os"; $"X-Stainless-Package-Version";
   $"X-Stainless-Retry-Count"; $"X-Stainless-Runtime"; $"X-Stainless-Runtime-Version"; $"X-Stainless-Timeout";
   $"User-Agent"; $"X-App"; $"Anthropic-Beta"; $"Anthropic-Dangerous-Direct-Browser-Access"; $"Anthropic-Version"].

Definition AWS_BETA_TOKENS : object :=
  [($"advanced-tool-use-2025-11-20", VStr $"tool-search-tool-2025-10-19"); ($"bash_20241022", VNull);
   ($"bash_20250124", VNull); ($"code-execution-2025-08-25", VNull);
   ($"compact-2026-01-12", VStr $"compact-2026-01-12");
   ($"computer-use-2025-01-24", VStr $"computer-use-2025-01-24");
   ($"computer-use-2025-11-24", VStr $"computer-use-2025-11-24");
   ($"context-1m-2025-08-07", VStr $"context-1m-2025-08-07");
   ($"context-management-2025-06-27", VStr $"context-management-2025-06-27"); ($"effort-2025-11-24", VNull);
   ($"fast-mode-2026-02-01", VNull); ($"files-api-2025-04-14", VNull);
   ($"fine-grained-tool-streaming-2025-05-14", VNull);
   ($"interleaved-thinking-2025-05-14", VStr $"interleaved-thinking-2025-05-14"); ($"mcp-client-2025-11-20", VNull);
   ($"mcp-client-2025-04-04", VNull); ($"mcp-servers-2025-12-04", VNull); ($"output-128k-2025-02-19", VNull);
   ($"structured-output-2024-03-01", VNull); ($"prompt-caching-scope-2026-01-05", VNull);
   ($"skills-2025-10-02", VNull); ($"structured-outputs-2025-11-13", VNull); ($"text_editor_20241022", VNull);
   ($"text_editor_20250124", VNull); ($"token-efficient-tools-2025-02-19", VNull);
   ($"tool-search-tool-2025-10-19", VStr $"tool-search-tool-2025-10-19"); ($"web-fetch-2025-09-10", VNull);
   ($"web-search-2025-03-05", VNull); ($"oauth-2025-04-20", VNull)].

Definition AWS_BEDROCK_ANTHROPIC_COMPAT_TEMPLATE : list val :=
  [VObj [($"description", VStr $"Normalize anthropic-beta header tokens for Bedrock compatibility.");
         ($"mode", VStr $"set_header"); ($"path", VStr $"anthropic-beta"); ($"value", VObj AWS_BETA_TOKENS)];
   VObj [($"description", VStr $"Remove all tools[*].custom.input_examples before upstream relay.");
         ($"mode", VStr $"delete"); ($"path", VStr $"tools.*.custom.input_examples")]].

Inductive template_payload := LegacyPayload (o : object) | OperationsPayload (l : list val).
Record preset := Preset { t_group : jsstr; t_payload : template_payload }.

Definition TEMPLATE_PRESET_CONFIG : list (jsstr * preset) :=
  [($"operations_default", Preset $"basic" (OperationsPayload OPERATION_TEMPLATE));
   ($"legacy_default", Preset $"basic" (LegacyPayload LEGACY_TEMPLATE));
   ($"pass_headers_auth", Preset $"scenario" (OperationsPayload HEADER_PASSTHROUGH_TEMPLATE));
   ($"gemini_image_4k", Preset $"scenario" (OperationsPayload GEMINI_IMAGE_4K_TEMPLATE));
   ($"claude_cli_headers_passthrough", Preset $"scenario"
      (OperationsPayload (buildPassHeadersTemplate CLAUDE_CLI_HEADER_PASSTHROUGH_HEADERS)));
   ($"codex_cli_headers_passthrough", Preset $"scenario"
      (OperationsPayload (buildPassHeadersTemplate CODEX_CLI_HEADER_PASSTHROUGH_HEADERS)));
   ($"aws_bedrock_anthropic_beta_override", Preset $"scenario" (OperationsPayload AWS_BEDROCK_ANTHROPIC_COMPAT_TEMPLATE))].

(** ** State *)

Record editor := Editor {
  editMode : edit_mode; visualMode : visual_mode; legacyValue : jsstr; operations : list operation;
  jsonText : jsstr; jsonError : jsstr; operationSearch : jsstr; selectedOperationId : jsstr;
  expandedConditionMap : list (jsstr * list jsstr); templateGroupKey : jsstr; templatePresetKey : jsstr; seed : Z
}.

Section Editor.
Variable clock : Z -> Z.

(** The parts of the state a JSON text is loaded into. *)
Record loaded := Loaded {
  l_editMode : edit_mode; l_visualMode : visual_mode; l_legacyValue : jsstr; l_operations : list operation;
  l_jsonText : jsstr; l_jsonError : jsstr; l_seed : Z
}.

Definition pretty (v : val) : jsstr := default $"undefined" (stringify2 v).

Definition default_ops (s : Z) : list operation * Z :=
  let '(o, s') := createDefaultOperation clock s in ([o], s').

(** [list.length > 0 ? list.map(normalizeOperation) : [createDefaultOperation()]] *)
Definition load_ops (l : list val) (s : Z) : outcome (list operation * Z) :=
  match l with [] => Ret (default_ops s) | _ => map_seed (normalizeOperation clock) l s end.

Definition parseInitialState (rawValue : val) (s : Z) : outcome loaded :=
  let text := string_or_empty rawValue in
  let trimmed := trim text in
  let '(d, s1) := default_ops s in
  if negb (nonempty trimmed) then Ret (Loaded VisualEdit Operations [] d [] [] s1) else
  match parse trimmed with
  | None => Ret (Loaded JsonEdit Operations [] d text $"JSON 格式不正确" s1)
  | Some (VObj o) =>
    match prop $"operations" o with
    | Some (VArr l) =>
      bind_outcome (load_ops l s) (fun '(ops, s') => Ret (Loaded VisualEdit Operations [] ops (pretty (VObj o)) [] s'))
    | _ => Ret (Loaded VisualEdit Legacy (pretty (VObj o)) d (pretty (VObj o)) [] s1)
    end
  | Some v => Ret (Loaded JsonEdit Operations [] d (pretty v) [] s1)
  end.

Definition first_id (l : list operation) : jsstr := match l with o :: _ => o_id o | [] => [] end.

(** The state a modal is mounted in. *)
Definition mount (s : Z) : editor :=
  let '(d, s') := default_ops s in
  Editor VisualEdit Operations [] d [] [] [] [] [] $"basic" $"operations_default" s'.

(** The effect that loads the value when the modal is shown. *)
Definition open_modal (value : val) (e : editor) : outcome editor :=
  bind_outcome (parseInitialState value (seed e)) (fun n =>
  Ret (Editor (l_editMode n) (l_visualMode n) (l_legacyValue n) (l_operations n) (l_jsonText n) (l_jsonError n) []
         (first_id (l_operations n)) [] $"basic"
         (match l_visualMode n with Legacy => $"legacy_default" | Operations => $"operations_default" end) (l_seed n))).

(** The effect that keeps the selection on an existing rule. *)
Definition fix_selection (e : editor) : editor :=
  let sel := match operations e with
             | [] => []
             | o :: _ => if existsb (fun x => o_id x =s? selectedOperationId e) (operations e)
                         then selectedOperationId e else o_id o
             end in
  Editor (editMode e) (visualMode e) (legacyValue e) (operations e) (jsonText e) (jsonError e) (operationSearch e)
    sel (expandedConditionMap e) (templateGroupKey e) (templatePresetKey e) (seed e).

(** Field updates. *)
Definition set_ops (l : list operation) (e : editor) : editor :=
  Editor (editMode e) (visualMode e) (legacyValue e) l (jsonText e) (jsonError e) (operationSearch e)
    (selectedOperationId e) (expandedConditionMap e) (templateGroupKey e) (templatePresetKey e) (seed e).
Definition set_selected (i : jsstr) (e : editor) : editor :=
  Editor (editMode e) (visualMode e) (legacyValue e) (operations e) (jsonText e) (jsonError e) (operationSearch e)
    i (expandedConditionMap e) (templateGroupKey e) (templatePresetKey e) (seed e).
Definition set_expanded (m : list (jsstr * list jsstr)) (e : editor) : editor :=
  Editor (editMode e) (visualMode e) (legacyValue e) (operations e) (jsonText e) (jsonError e) (operationSearch e)
    (selectedOperationId e) m (templateGroupKey e) (templatePresetKey e) (seed e).
Definition set_json (text err : jsstr) (e : editor) : editor :=
  Editor (editMode e) (visualMode e) (legacyValue e) (operations e) text err (operationSearch e)
    (selectedOperationId e) (expandedConditionMap e) (templateGroupKey e) (templatePresetKey e) (seed e).
Definition set_editMode (m : edit_mode) (e : editor) : editor :=
  Editor m (visualMode e) (legacyValue e) (operations e) (jsonText e) (jsonError e) (operationSearch e)
    (selectedOperationId e) (expandedConditionMap e) (templateGroupKey e) (templatePresetKey e) (seed e).
Definition set_seed (s : Z) (e : editor) : editor :=
  Editor (editMode e) (visualMode e) (legacyValue e) (operations e) (jsonText e) (jsonError e) (operationSearch e)
    (selectedOperationId e) (expandedConditionMap e) (templateGroupKey e) (templatePresetKey e) s.
Definition set_template (g k : jsstr) (e : editor) : editor :=
  Editor (editMode e) (visualMode e) (legacyValue e) (operations e) (jsonText e) (jsonError e) (operationSearch e)
    (selectedOperationId e) (expandedConditionMap e) g k (seed e).
Definition set_visual (m : visual_mode) (legacy : jsstr) (e : editor) : editor :=
  Editor (editMode e) m legacy (operations e) (jsonText e) (jsonError e) (operationSearch e)
    (selectedOperationId e) (expandedConditionMap e) (templateGroupKey e) (templatePresetKey e) (seed e).

(** ** Saving and switching *)

Inductive build_error := BadRule (line : Z) (c : complaint) | Message (key : jsstr).

(** [verifyJSON] and [JSON.parse], an object expected. *)
Definition buildVisualJson (e : editor) : jsstr + build_error :=
  match visualMode e with
  | Legacy =>
    let trimmed := trim (legacyValue e) in
    if negb (nonempty trimmed) then inl [] else
    match parse trimmed with
    | None => inr (Message $"参数覆盖必须是合法的 JSON 格式！")
    | Some (VObj o) => inl (pretty (VObj o))
    | Some _ => inr (Message $"旧格式必须是 JSON 对象")
    end
  | Operations =>
    match buildOperationsJson true (operations e) with
    | inl text => inl text
    | inr (line, c) => inr (BadRule line c)
    end
  end.

(** The text handed to [onSave], or the error shown. *)
Definition handleSave (e : editor) : jsstr + build_error :=
  match editMode e with
  | JsonEdit =>
    let trimmed := trim (jsonText e) in
    if negb (nonempty trimmed) then inl [] else
    match parse trimmed with
    | None => inr (Message $"参数覆盖必须是合法的 JSON 格式！")
    | Some v => inl (pretty v)
    end
  | VisualEdit => buildVisualJson e
  end.

(** [message_of] is the translated text of an error. *)
Definition switchToJsonMode (message_of : build_error -> jsstr) (e : editor) : editor :=
  match editMode e with
  | JsonEdit => e
  | VisualEdit =>
    set_editMode JsonEdit
      match buildVisualJson e with
      | inl text => set_json text [] e
      | inr err =>
        set_json (match visualMode e with
                  | Legacy => legacyValue e
                  | Operations => match buildOperationsJson false (operations e) with inl t => t | inr _ => [] end
                  end)
                 (if nonempty (message_of err) then message_of err else $"参数配置有误") e
      end
  end.

(** [None] in the second component: nothing shown. *)
Definition switchToVisualMode (e : editor) : outcome (editor * option jsstr) :=
  match editMode e with
  | VisualEdit => Ret (e, None)
  | JsonEdit =>
    let trimmed := trim (jsonText e) in
    let '(d, s1) := default_ops (seed e) in
    let load m legacy ops s := set_editMode VisualEdit (set_json (jsonText e) []
          (set_seed s (set_selected (first_id ops) (set_ops ops (set_visual m legacy e))))) in
    if negb (nonempty trimmed) then Ret (load Operations [] d s1, None) else
    match parse trimmed with
    | None => Ret (e, Some $"参数覆盖必须是合法的 JSON 格式！")
    | Some (VObj o) =>
      match prop $"operations" o with
      | Some (VArr l) =>
        bind_outcome (load_ops l (seed e)) (fun '(ops, s') =>
        Ret (set_template $"basic" $"operations_default" (load Operations [] ops s'), None))
      | _ => Ret (set_template $"basic" $"legacy_default" (load Legacy (pretty (VObj o)) d s1), None)
      end
    | Some _ => Ret (e, Some $"参数覆盖必须是合法的 JSON 对象")
    end
  end.

(** ** Templates *)

Definition fillLegacyTemplate (payload : object) (e : editor) : editor :=
  let text := pretty (VObj payload) in
  let '(d, s) := default_ops (seed e) in
  set_editMode VisualEdit (set_json text [] (set_expanded []
    (set_seed s (set_selected (first_id d) (set_ops d (set_visual Legacy text e)))))).

Definition fillOperationsTemplate (payload : list val) (e : editor) : outcome editor :=
  bind_outcome (load_ops payload (seed e)) (fun '(ops, s) =>
  Ret (set_editMode VisualEdit (set_json (pretty (VObj [($"operations", VArr payload)])) [] (set_expanded []
    (set_seed s (set_selected (first_id ops) (set_ops ops (set_visual Operations (legacyValue e) e)))))))).

(** The current legacy object the template is put under; [inr]: the error shown. *)
Definition current_legacy (e : editor) : object + jsstr :=
  match visualMode e with
  | Operations => inl []
  | Legacy =>
    let trimmed := trim (legacyValue e) in
    if negb (nonempty trimmed) then inl [] else
    match parse trimmed with
    | None => inr $"当前旧格式 JSON 不合法，无法追加模板"
    | Some (VObj o) => inl o
    | Some _ => inr $"当前旧格式不是 JSON 对象，无法追加模板"
    end
  end.

Definition appendLegacyTemplate (payload : object) (e : editor) : editor * option jsstr :=
  match current_legacy e with
  | inr m => (e, Some m)
  | inl o => (fillLegacyTemplate (prop_assign (props_of payload) o) e, None)
  end.

Definition appendOperationsTemplate (payload : list val) (e : editor) : outcome editor :=
  bind_outcome (map_seed (normalizeOperation clock) payload (seed e)) (fun '(appended, s) =>
  let existing := match visualMode e with Operations => nonblank (operations e) | Legacy => [] end in
  let next := existing ++ appended in
  Ret (set_editMode VisualEdit (set_json [] [] (set_expanded []
    (set_seed s (set_selected (first_id next) (set_ops next (set_visual Operations [] e)))))))).

Definition clearValue (e : editor) : editor :=
  let '(d, s) := default_ops (seed e) in
  set_template $"basic" $"operations_default" (set_json [] [] (set_expanded []
    (set_seed s (set_selected (first_id d) (set_ops d (set_visual Operations [] e)))))).

Definition resetEditorState (e : editor) : editor := set_editMode VisualEdit (clearValue e).

Definition getSelectedTemplatePreset (e : editor) : preset :=
  default (Preset $"basic" (OperationsPayload OPERATION_TEMPLATE))
    (prop (templatePresetKey e) TEMPLATE_PRESET_CONFIG).

(** The effect that keeps the preset within the chosen group. *)
Definition fix_preset (e : editor) : editor :=
  let options := map fst (List.filter (fun kc => t_group kc.2 =s? templateGroupKey e) TEMPLATE_PRESET_CONFIG) in
  match options with
  | [] => e
  | k :: _ => if mem (templatePresetKey e) options then e else set_template (templateGroupKey e) k e
  end.

Definition fillTemplateFromLibrary (e : editor) : outcome editor :=
  match t_payload (getSelectedTemplatePreset e) with
  | LegacyPayload o => Ret (fillLegacyTemplate o e)
  | OperationsPayload l => fillOperationsTemplate l e
  end.

Definition appendTemplateFromLibrary (e : editor) : outcome (editor * option jsstr) :=
  match t_payload (getSelectedTemplatePreset e) with
  | LegacyPayload o => Ret (appendLegacyTemplate o e)
  | OperationsPayload l => bind_outcome (appendOperationsTemplate l e) (fun e' => Ret (e', None))
  end.

(** ** Rules *)

Definition update_op (i : jsstr) (f : operation -> operation) (l : list operation) : list operation :=
  map (fun o => if o_id o =s? i then f o else o) l.

(** A patch may set any field but the identifier. *)
Definition keeps_id (f : operation -> operation) : Prop := forall o, o_id (f o) = o_id o.

Definition updateOperation (i : jsstr) (f : operation -> operation) (e : editor) : editor :=
  set_ops (update_op i f (operations e)) e.

Definition set_value_text (v : jsstr) (o : operation) : operation :=
  Operation (o_id o) (description o) (path o) (mode o) v (keep_origin o) (from o) (to o) (logic o) (conditions o).
Definition set_path (v : jsstr) (o : operation) : operation :=
  Operation (o_id o) (description o) v (mode o) (value_text o) (keep_origin o) (from o) (to o) (logic o) (conditions o).
Definition set_from (v : jsstr) (o : operation) : operation :=
  Operation (o_id o) (description o) (path o) (mode o) (value_text o) (keep_origin o) v (to o) (logic o) (conditions o).
Definition set_to (v : jsstr) (o : operation) : operation :=
  Operation (o_id o) (description o) (path o) (mode o) (value_text o) (keep_origin o) (from o) v (logic o) (conditions o).
Definition set_conditions (cs : list cond) (o : operation) : operation :=
  Operation (o_id o) (description o) (path o) (mode o) (value_text o) (keep_origin o) (from o) (to o) (logic o) cs.

Definition find_op (i : jsstr) (l : list operation) : option operation := List.find (fun o => o_id o =s? i) l.

Inductive field_target := ToPath | ToFrom | ToTo.

(** [None]: an error is shown. *)
Definition applyBuiltinField (fieldKey : jsstr) (target : field_target) (e : editor) : option editor :=
  match find_op (selectedOperationId e) (operations e) with
  | None => None
  | Some o =>
    let m := op_mode o in
    let meta := meta_of m in
    let sync := m =s? $"sync_fields" in
    let value := if sync then buildSyncTargetSpec Json fieldKey else fieldKey in
    match target with
    | ToPath => if m_path meta || m_pathOptional meta || m_pathAlias meta
                then Some (updateOperation (o_id o) (set_path fieldKey) e) else None
    | ToFrom => if m_from meta || m_pathAlias meta || sync
                then Some (updateOperation (o_id o) (set_from value) e) else None
    | ToTo => if m_to meta || sync then Some (updateOperation (o_id o) (set_to value) e) else None
    end
  end.

Definition formatSelectedOperationValueAsJson (e : editor) : editor :=
  match find_op (selectedOperationId e) (operations e) with
  | None => e
  | Some o =>
    let raw := trim (value_text o) in
    if negb (nonempty raw) then e else
    match parse raw with
    | Some v => updateOperation (o_id o) (set_value_text (pretty v)) e
    | None => e
    end
  end.

Definition updateReturnErrorDraft (i : jsstr) (patch : error_draft -> error_draft) (e : editor) : editor :=
  match find_op i (operations e) with
  | None => e
  | Some o => updateOperation i (set_value_text (buildReturnErrorValueText (patch (parseReturnErrorDraft (value_text o))))) e
  end.

(** The updater may make identifiers of its own. *)
Definition updatePruneObjectsDraft (i : jsstr) (updater : prune_draft -> Z -> prune_draft * Z) (e : editor) : outcome editor :=
  match find_op i (operations e) with
  | None => Ret e
  | Some o =>
    bind_outcome (parsePruneObjectsDraft clock (value_text o) (seed e)) (fun '(d, s) =>
    let '(d', s') := updater d s in
    Ret (updateOperation i (set_value_text (buildPruneObjectsValueText d')) (set_seed s' e)))
  end.

Definition addPruneRule (i : jsstr) : editor -> outcome editor :=
  updatePruneObjectsDraft i (fun d s => let '(c, s') := createDefaultCondition clock s in
    (PruneDraft false (p_typeText d) (p_logic d) (p_recursive d) (p_rules d ++ [c]), s')).

Definition updatePruneRule (i ruleId : jsstr) (patch : cond -> cond) : editor -> outcome editor :=
  updatePruneObjectsDraft i (fun d s =>
    (PruneDraft (p_simpleMode d) (p_typeText d) (p_logic d) (p_recursive d)
       (map (fun c => if c_id c =s? ruleId then patch c else c) (p_rules d)), s)).

Definition removePruneRule (i ruleId : jsstr) : editor -> outcome editor :=
  updatePruneObjectsDraft i (fun d s =>
    (PruneDraft (p_simpleMode d) (p_typeText d) (p_logic d) (p_recursive d)
       (List.filter (fun c => negb (c_id c =s? ruleId)) (p_rules d)), s)).

Definition addOperation (e : editor) : editor :=
  let '(o, s) := createDefaultOperation clock (seed e) in
  set_selected (o_id o) (set_seed s (set_ops (operations e ++ [o]) e)).

Definition moveOperation (sourceId targetId : jsstr) (after : bool) (e : editor) : editor :=
  if negb (nonempty sourceId) || negb (nonempty targetId) || (sourceId =s? targetId) then e else
  set_selected sourceId (set_ops (reorderOperations (operations e) sourceId targetId after) e).

(** ** Dragging *)

Record drag := Drag { draggedOperationId : jsstr; dragOverOperationId : jsstr; dragOverAfter : bool }.

Definition resetOperationDragState : drag := Drag [] [] false.

Definition handleOperationDragStart (i : jsstr) (de : drag * editor) : drag * editor :=
  let '(d, e) := de in (Drag i (dragOverOperationId d) (dragOverAfter d), set_selected i e).

(** [lower]: the pointer is in the lower half of the row. *)
Definition handleOperationDragOver (i : jsstr) (lower : bool) (de : drag * editor) : drag * editor :=
  let '(d, e) := de in
  if negb (nonempty (draggedOperationId d)) || (draggedOperationId d =s? i) then de
  else (Drag (draggedOperationId d) i lower, e).

(** [data] is the text carried by the event. *)
Definition handleOperationDrop (data i : jsstr) (de : drag * editor) : drag * editor :=
  let '(d, e) := de in
  let sourceId := if nonempty (draggedOperationId d) then draggedOperationId d else data in
  (resetOperationDragState, moveOperation sourceId i ((dragOverOperationId d =s? i) && dragOverAfter d) e).

(** The object a rule is cloned from. *)
Definition clone_source (o : operation) : val :=
  VObj [($"description", VStr (description o)); ($"path", VStr (path o)); ($"mode", VStr (mode o));
        ($"value", parseLooseValue (value_text o)); ($"keep_origin", VBool (keep_origin o)); ($"from", VStr (from o));
        ($"to", VStr (to o)); ($"logic", VStr (logic o));
        ($"conditions", VArr (map (fun c => VObj [($"path", VStr (c_path c)); ($"mode", VStr (c_mode c));
            ($"value", parseLooseValue (c_value_text c)); ($"invert", VBool (c_invert c));
            ($"pass_missing_key", VBool (c_pass_missing_key c))]) (conditions o)))].

Fixpoint insert_after (i : jsstr) (x : operation) (l : list operation) : list operation :=
  match l with
  | [] => []
  | o :: r => if o_id o =s? i then o :: x :: r else o :: insert_after i x r
  end.

(** The clone is selected when the update function has run before the handler returns. *)
Definition duplicateOperation (eager : bool) (i : jsstr) (e : editor) : outcome editor :=
  match find_op i (operations e) with
  | None => Ret e
  | Some source =>
    bind_outcome (normalizeOperation clock (clone_source source) (seed e)) (fun '(cloned, s) =>
    let e' := set_seed s (set_ops (insert_after i cloned (operations e)) e) in
    Ret (if eager then set_selected (o_id cloned) e' else e'))
  end.

Definition removeOperation (i : jsstr) (e : editor) : editor :=
  let '(l, s) := match operations e with
                 | [] | [_] => default_ops (seed e)
                 | l => (List.filter (fun o => negb (o_id o =s? i)) l, seed e)
                 end in
  set_expanded (prop_delete i (expandedConditionMap e)) (set_seed s (set_ops l e)).

Definition expanded_of (i : jsstr) (e : editor) : list jsstr := default [] (prop i (expandedConditionMap e)).

Definition addCondition (i : jsstr) (e : editor) : editor :=
  let '(c, s) := createDefaultCondition clock (seed e) in
  set_expanded (prop_set i (expanded_of i e ++ [c_id c]) (expandedConditionMap e))
    (set_seed s (updateOperation i (fun o => set_conditions (conditions o ++ [c]) o) e)).

Definition updateCondition (i conditionId : jsstr) (patch : cond -> cond) (e : editor) : editor :=
  updateOperation i (fun o =>
    set_conditions (map (fun c => if c_id c =s? conditionId then patch c else c) (conditions o)) o) e.

Definition removeCondition (i conditionId : jsstr) (e : editor) : editor :=
  set_expanded (prop_set i (List.filter (fun x => negb (x =s? conditionId)) (expanded_of i e)) (expandedConditionMap e))
    (updateOperation i (fun o =>
      set_conditions (List.filter (fun c => negb (c_id c =s? conditionId)) (conditions o)) o) e).

Definition handleConditionCollapseChange (i : jsstr) (activeKeys : list jsstr) (e : editor) : editor :=
  set_expanded (prop_set i (filter_Boolean activeKeys) (expandedConditionMap e)) e.

Definition expandAllSelectedConditions (e : editor) : editor :=
  match find_op (selectedOperationId e) (operations e) with
  | Some o => if nonempty (selectedOperationId e)
              then set_expanded (prop_set (selectedOperationId e) (map c_id (conditions o)) (expandedConditionMap e)) e
              else e
  | None => e
  end.

Definition collapseAllSelectedConditions (e : editor) : editor :=
  if nonempty (selectedOperationId e)
  then set_expanded (prop_set (selectedOperationId e) [] (expandedConditionMap e)) e else e.

Definition handleJsonChange (nextValue : jsstr) (e : editor) : editor :=
  let trimmed := trim nextValue in
  set_json nextValue
    (if negb (nonempty trimmed) then [] else match parse trimmed with Some _ => [] | None => $"JSON格式错误" end) e.

Definition formatJson (e : editor) : editor :=
  let trimmed := trim (jsonText e) in
  if negb (nonempty trimmed) then e else
  match parse trimmed with Some v => set_json (pretty v) [] e | None => e end.

(** The rules shown for a search. *)
Definition searchable (o : operation) : jsstr :=
  toLowerCase (join [32] (filter_Boolean [description o; mode o; path o; from o; to o; value_text o])).

Definition filteredOperations (e : editor) : list operation :=
  let keyword := toLowerCase (trim (operationSearch e)) in
  if nonempty keyword then List.filter (fun o => includes keyword (searchable o)) (operations e) else operations e.

End Editor.
(** * Theorems *)

Section Invariant.
Variable clock : Z -> Z.

Definition id_text (k : Z) : jsstr := (nextLocalId clock k).1.

Lemma Ret_pair {A B} (a a' : A) (b b' : B) : Ret (a, b) = Ret (a', b') -> a = a' /\ b = b'.
Proof using. intros E. split; congruence. Qed.

Lemma split_last_inj (c : Z) a d a' d' :
  c ∉ d -> c ∉ d' -> a ++ c :: d = a' ++ c :: d' -> d = d'.
Proof using.
  intros Hd Hd' E. apply (f_equal (@rev Z)) in E. rewrite !rev_app_distr in E. cbn [rev] in E.
  rewrite <- !app_assoc in E. cbn [app] in E.
  assert (H : forall (x y : list Z) u v, c ∉ x -> c ∉ y -> x ++ c :: u = y ++ c :: v -> x = y).
  { clear. induction x as [|a x IH]; intros [|b y] u v Hx Hy E; cbn in E; [done| | |].
    - injection E as <- _. set_solver.
    - injection E as -> _. set_solver.
    - injection E as -> E. f_equal. eapply IH; [set_solver|set_solver|exact E]. }
  apply H in E; [|by rewrite list_elem_of_In, <- in_rev, <- list_elem_of_In..].
  rewrite <- (rev_involutive d), E. apply rev_involutive.
Qed.

Lemma digits_no_underscore k : 0 <= k -> 95 ∉ Z_to_str k.
Proof using.
  intros Hk. unfold Z_to_str. destruct (Z.ltb_spec k 0); [lia|]. intros H1.
  pose proof (dec_nonneg_digits k Hk) as H2. rewrite forallb_forall in H2. apply list_elem_of_In, H2 in H1. done.
Qed.

Lemma id_text_inj k k' : 0 <= k -> 0 <= k' -> id_text k = id_text k' -> k = k'.
Proof using.
  intros Hk Hk' E. unfold id_text, nextLocalId in E. cbn [fst] in E.
  rewrite !(app_assoc $"param_override_") in E. change ($"_" : jsstr) with [95] in E. cbn [app] in E.
  apply split_last_inj in E; [|by apply digits_no_underscore..].
  assert (Hs : forall z, 0 <= z -> Z_to_str z = dec_nonneg z) by (intros z Hz; unfold Z_to_str; by destruct (Z.ltb_spec z 0); [lia|]).
  rewrite !Hs in E by done. rewrite <- (dec_nonneg_val k), <- (dec_nonneg_val k'), E by done. done.
Qed.

(** Identifiers issued from the [lo]-th on, before the [hi]-th. *)
Definition issued (lo hi : Z) (i : jsstr) : Prop := exists k, lo <= k < hi /\ i = id_text k.
Definition fresh_ids (lo hi : Z) (ids : list jsstr) : Prop := NoDup ids /\ Forall (issued lo hi) ids.

Lemma fresh_app lo mid hi a b :
  0 <= lo <= mid -> mid <= hi -> fresh_ids lo mid a -> fresh_ids mid hi b -> fresh_ids lo hi (a ++ b).
Proof using.
  intros Hl Hh [Ha Ha'] [Hb Hb']. split.
  - apply NoDup_app. split; [done|]. split; [|done]. intros x Hx Hx'.
    rewrite Forall_forall in Ha', Hb'. destruct (Ha' x Hx) as (k & Hk & ->). destruct (Hb' _ Hx') as (k' & Hk' & E).
    apply id_text_inj in E; lia.
  - apply Forall_app. split; (eapply Forall_impl; [eassumption|]); intros x (k & Hk & ->); exists k; (split; [lia|done]).
Qed.

Lemma fresh_weaken lo lo' hi hi' ids : lo' <= lo -> hi <= hi' -> fresh_ids lo hi ids -> fresh_ids lo' hi' ids.
Proof using.
  intros H1 H2 [Hn Hf]. split; [done|]. eapply Forall_impl; [exact Hf|]. intros x (k & Hk & ->). exists k. split; [lia|done].
Qed.

Lemma fresh_one k : fresh_ids k (k + 1) [id_text k].
Proof using.
  split; [constructor; [set_solver|constructor]|]. constructor; [|constructor]. exists k. split; [lia|done].
Qed.

(** Every item of a mapped list gets an identifier of its own. *)
Lemma map_seed_fresh {A B} (f : A -> Z -> outcome (B * Z)) (key : B -> jsstr) (P : B -> Z -> Prop) l s ys s' :
  (forall x k y k', 0 <= k -> f x k = Ret (y, k') -> k < k' /\ key y = id_text k /\ P y k') ->
  (forall y k k', k <= k' -> P y k -> P y k') ->
  0 <= s -> map_seed f l s = Ret (ys, s') -> s <= s' /\ fresh_ids s s' (map key ys) /\ Forall (fun y => P y s') ys.
Proof using.
  intros Hf HP. revert s ys s'. induction l as [|x l IH]; intros s ys s' Hs E; cbn [map_seed] in E.
  - injection E as <- <-. split; [lia|]. split; [split; constructor|constructor].
  - destruct (f x s) as [[y s1]|] eqn:Ef; cbn [bind_outcome] in E; [|done].
    destruct (map_seed f l s1) as [[ys1 s2]|] eqn:El; cbn [bind_outcome] in E; [|done]. injection E as <- <-.
    destruct (Hf _ _ _ _ Hs Ef) as (H1 & H2 & H3). destruct (IH s1 ys1 s2 ltac:(lia) El) as (H4 & H5 & H6).
    split; [lia|]. split; [|constructor; [by eapply HP|done]]. cbn [map]. rewrite H2.
    apply (fresh_app s s1 s2 [id_text s]); [lia|lia| |done].
    apply (fresh_weaken s s (s + 1)); [lia|lia|apply fresh_one].
Qed.

(** The identifiers of a rule's conditions. *)
Definition conds_ok (o : operation) (hi : Z) : Prop := fresh_ids 0 hi (map c_id (conditions o)).

Lemma conds_ok_mono o k k' : k <= k' -> conds_ok o k -> conds_ok o k'.
Proof using. intros H. by apply fresh_weaken. Qed.

Lemma normalizeCondition_id v k c k' :
  normalizeCondition clock v k = Ret (c, k') -> k' = k + 1 /\ c_id c = id_text k.
Proof using.
  unfold normalizeCondition. destruct (match v with VNull => true | _ => false end); [done|].
  unfold nextLocalId. intros E. apply Ret_pair in E as [<- <-]. split; [done|reflexivity].
Qed.

Lemma normalizeOperation_id v k o k' :
  0 <= k -> normalizeOperation clock v k = Ret (o, k') -> k < k' /\ o_id o = id_text k /\ conds_ok o k'.
Proof using.
  intros Hk. unfold normalizeOperation. destruct (match v with VNull => true | _ => false end); [done|].
  unfold nextLocalId.
  assert (Hc : forall l cs s2, map_seed (normalizeCondition clock) l (k + 1) = Ret (cs, s2) ->
     k + 1 <= s2 /\ fresh_ids (k + 1) s2 (map c_id cs)).
  { intros l cs s2 E. apply (map_seed_fresh _ c_id (fun _ _ => True)) in E as (H1 & H2 & _); [done| |done|lia].
    intros x j y j' _ Ej. apply normalizeCondition_id in Ej as [-> ->]. split; [lia|done]. }
  assert (Hd : forall cs s2, Ret (([] : list cond), k + 1) = Ret (cs, s2) -> k + 1 <= s2 /\ fresh_ids (k + 1) s2 (map c_id cs)).
  { intros cs s2 [= <- <-]. split; [lia|]. split; constructor. }
  destruct (match get_any v $"conditions" with VArr l => map_seed (normalizeCondition clock) l (k + 1) | _ => Ret ([], k + 1) end)
    as [[cs s2]|] eqn:E; cbn [bind_outcome]; [|done].
  assert (Hs : k + 1 <= s2 /\ fresh_ids (k + 1) s2 (map c_id cs)) by (destruct (get_any v $"conditions"); eauto).
  intros E2. apply Ret_pair in E2 as [<- <-]. split; [lia|]. split; [reflexivity|]. unfold conds_ok. cbn [conditions].
  destruct Hs. by eapply (fresh_weaken (k + 1)); [lia|reflexivity|].
Qed.
(** ** The invariant *)

Definition good (l : list operation) (s : Z) : Prop :=
  0 <= s /\ fresh_ids 0 s (map o_id l) /\ Forall (fun o => conds_ok o s) l.
Definition Inv (e : editor) : Prop := good (operations e) (seed e).

Lemma good_mono l s s' : s <= s' -> good l s -> good l s'.
Proof using.
  intros H (H0 & H1 & H2). split; [lia|]. split; [by eapply fresh_weaken; [reflexivity|exact H|]|].
  eapply Forall_impl; [exact H2|]. intros o. by apply conds_ok_mono.
Qed.

Lemma good_perm l l' s : l ≡ₚ l' -> good l s -> good l' s.
Proof using.
  intros H (H0 & (H1 & H1') & H2). split; [done|].
  assert (Hm : map o_id l ≡ₚ map o_id l') by (by apply fmap_Permutation).
  split; [split; [by rewrite <- Hm|by rewrite <- Hm]|by rewrite <- H].
Qed.

Lemma fresh_lfilter {A} (key : A -> jsstr) (f : A -> bool) hi l :
  fresh_ids 0 hi (map key l) -> fresh_ids 0 hi (map key (List.filter f l)).
Proof using.
  intros [H1 H2]. split; [by apply NoDup_map_lfilter|]. rewrite Forall_map in *. by apply Forall_lfilter.
Qed.

Lemma good_filter f l s : good l s -> good (List.filter f l) s.
Proof using.
  intros (H0 & H1 & H2). split; [done|]. split; [by apply fresh_lfilter|by apply Forall_lfilter].
Qed.

Lemma good_update i f l s :
  keeps_id f -> (forall o, conds_ok o s -> conds_ok (f o) s) -> good l s -> good (update_op i f l) s.
Proof using.
  intros Hf Hc (H0 & H1 & H2). split; [done|].
  assert (E : map o_id (update_op i f l) = map o_id l).
  { unfold update_op. rewrite map_map. apply map_ext. intros o. destruct (_ =s? _); [apply Hf|done]. }
  rewrite E. split; [done|]. unfold update_op. apply Forall_map. eapply Forall_impl; [exact H2|].
  intros o Ho. cbn. destruct (_ =s? _); auto.
Qed.

Lemma good_app l l2 s s' :
  s <= s' -> good l s -> fresh_ids s s' (map o_id l2) -> Forall (fun o => conds_ok o s') l2 -> good (l ++ l2) s'.
Proof using.
  intros Hs (H0 & H1 & H2) H3 H4. split; [lia|]. split.
  - rewrite map_app. by apply (fresh_app 0 s s'); [lia|lia| |].
  - apply Forall_app. split; [|done]. eapply Forall_impl; [exact H2|]. intros o. by apply conds_ok_mono.
Qed.

Lemma good_nil s : 0 <= s -> good [] s.
Proof using. intros H. split; [done|]. split; [split; constructor|constructor]. Qed.

Lemma default_op_fresh s o s' :
  0 <= s -> createDefaultOperation clock s = (o, s') -> s < s' /\ fresh_ids s s' [o_id o] /\ conds_ok o s'.
Proof using.
  intros Hs. unfold createDefaultOperation, nextLocalId. intros E. injection E as <- <-.
  split; [lia|]. split; [apply (fresh_one s)|split; constructor].
Qed.

Lemma good_default s l s' : 0 <= s -> default_ops clock s = (l, s') -> good l s' /\ s <= s'.
Proof using.
  intros Hs. unfold default_ops. destruct (createDefaultOperation clock s) as [o s1] eqn:E. intros [= <- <-].
  destruct (default_op_fresh s o s1 Hs E) as (H1 & H2 & H3). split; [|lia].
  by apply (good_app [] [o] s s1); [lia|by apply good_nil| |constructor; [|constructor]].
Qed.

Lemma load_fresh l s ops s' :
  0 <= s -> map_seed (normalizeOperation clock) l s = Ret (ops, s') ->
  s <= s' /\ fresh_ids s s' (map o_id ops) /\ Forall (fun o => conds_ok o s') ops.
Proof using.
  intros Hs E. eapply (map_seed_fresh _ o_id conds_ok) in E; [exact E| |intros; by eapply conds_ok_mono|done].
  intros x k y k' Hk. by apply normalizeOperation_id.
Qed.

Lemma good_load l s ops s' : 0 <= s -> load_ops clock l s = Ret (ops, s') -> good ops s' /\ s <= s'.
Proof using.
  intros Hs. unfold load_ops. destruct l as [|v l].
  - destruct (default_ops clock s) as [d0 s0] eqn:Ed. intros E. apply Ret_pair in E as [<- <-]. by apply (good_default s).
  - intros E. apply load_fresh in E as (H1 & H2 & H3); [|done]. split; [|done].
    by apply (good_app [] ops s s'); [|apply good_nil| |].
Qed.

Lemma insert_after_perm i x l :
  insert_after i x l ≡ₚ x :: l \/ insert_after i x l = l.
Proof using.
  induction l as [|o l IH]; cbn [insert_after]; [by right|]. destruct (_ =s? _); [left; apply perm_swap|].
  destruct IH as [IH| ->]; [left|by right]. rewrite IH. apply perm_swap.
Qed.

Lemma good_insert i x l s s' :
  s <= s' -> good l s -> fresh_ids s s' [o_id x] -> conds_ok x s' -> good (insert_after i x l) s'.
Proof using.
  intros Hs Hg Hf Hc. destruct (insert_after_perm i x l) as [H| ->]; [|by eapply good_mono].
  eapply good_perm; [symmetry; exact H|]. eapply (good_perm (l ++ [x])); [by rewrite Permutation_app_comm|].
  by apply (good_app l [x] s s'); [| | |constructor; [|constructor]].
Qed.

Lemma conditions_fresh l s cs s' :
  0 <= s -> map_seed (normalizeCondition clock) l s = Ret (cs, s') -> s <= s' /\ fresh_ids s s' (map c_id cs).
Proof using.
  intros Hs E. apply (map_seed_fresh _ c_id (fun _ _ => True)) in E as (H1 & H2 & _); [done| |done|done].
  intros x j y j' _ Ej. apply normalizeCondition_id in Ej as [-> ->]. split; [lia|done].
Qed.

Lemma where_fresh w s r s' : 0 <= s -> where_rules clock w s = Ret (r, s') -> s <= s' /\ fresh_ids s s' (map c_id r).
Proof using.
  intros Hs E. apply (map_seed_fresh _ c_id (fun _ _ => True)) in E as (H1 & H2 & _); [done| |done|done].
  intros x j y j' _ Ej. apply normalizeCondition_id in Ej as [-> ->]. split; [lia|done].
Qed.

Lemma fresh_nil s : fresh_ids s s [].
Proof using. split; constructor. Qed.

(** The rules of a prune draft get new identifiers each time the text is read. *)
Lemma prune_fresh text s d s' :
  0 <= s -> parsePruneObjectsDraft clock text s = Ret (d, s') -> s <= s' /\ fresh_ids s s' (map c_id (p_rules d)).
Proof using.
  intros Hs. pose proof (fresh_nil s) as H0. unfold parsePruneObjectsDraft. cbn zeta.
  destruct (negb _); [intros [= <- <-]; split; [lia|done]|].
  destruct (parse _) as [v|]; [|intros [= <- <-]; split; [lia|done]]. destruct v; try (intros [= <- <-]; split; [lia|done]).
  unfold prune_rules.
  destruct (match get _ $"where" with VObj w => where_rules clock w s | _ => Ret ([], s) end) as [[r1 s1]|] eqn:E1; cbn [bind_outcome]; [|done].
  assert (s <= s1 /\ fresh_ids s s1 (map c_id r1)) as [H1 H1'].
  { destruct (get _ $"where"); try (injection E1 as <- <-; split; [lia|done]). by apply where_fresh in E1. }
  destruct (match get _ $"conditions" with VArr l => _ | VObj w => _ | _ => _ end) as [[r2 s2]|] eqn:E2; cbn [bind_outcome]; [|done].
  assert (s1 <= s2 /\ fresh_ids s1 s2 (map c_id r2)) as [H2 H2'].
  { destruct (get _ $"conditions"); try (injection E2 as <- <-; split; [lia|apply fresh_nil]);
      [apply conditions_fresh in E2; [done|lia]|apply where_fresh in E2; [done|lia]]. }
  intros E. apply Ret_pair in E as [<- <-]. cbn [p_rules]. rewrite map_app. split; [lia|].
  by apply (fresh_app s s1); [lia|lia| |].
Qed.

Lemma prune_seed text s d s' : 0 <= s -> parsePruneObjectsDraft clock text s = Ret (d, s') -> s <= s'.
Proof using. intros Hs E. by apply prune_fresh in E as [H _]. Qed.

(** ** Reachable editors *)

(** A patch of a condition may set any field but the identifier; a patch of a rule may set
    any field but the identifier and the conditions, which have handlers of their own. *)
Definition keeps_conditions (f : operation -> operation) : Prop := forall o, conditions (f o) = conditions o.
Definition keeps_cond_id (f : cond -> cond) : Prop := forall c, c_id (f c) = c_id c.

Inductive step : editor -> editor -> Prop :=
| step_open v e e' : open_modal clock v e = Ret e' -> step e e'
| step_render e : step e (set_seed (seed e + 1) e)
| step_selection e : step e (fix_selection e)
| step_select i e : step e (set_selected i e)
| step_template g k e : step e (set_template g k e)
| step_preset e : step e (fix_preset e)
| step_json text e : step e (handleJsonChange text e)
| step_format e : step e (formatJson e)
| step_to_json m e : step e (switchToJsonMode m e)
| step_to_visual e e' m : switchToVisualMode clock e = Ret (e', m) -> step e e'
| step_fill e e' : fillTemplateFromLibrary clock e = Ret e' -> step e e'
| step_append e e' m : appendTemplateFromLibrary clock e = Ret (e', m) -> step e e'
| step_reset e : step e (resetEditorState clock e)
| step_update i f e : keeps_id f -> keeps_conditions f -> step e (updateOperation i f e)
| step_field k t e e' : applyBuiltinField k t e = Some e' -> step e e'
| step_format_value e : step e (formatSelectedOperationValueAsJson e)
| step_error_draft i p e : step e (updateReturnErrorDraft i p e)
| step_prune_add i e e' : addPruneRule clock i e = Ret e' -> step e e'
| step_prune_update i r p e e' : updatePruneRule clock i r p e = Ret e' -> step e e'
| step_prune_remove i r e e' : removePruneRule clock i r e = Ret e' -> step e e'
| step_add e : step e (addOperation clock e)
| step_move s t a e : step e (moveOperation s t a e)
| step_duplicate b i e e' : duplicateOperation clock b i e = Ret e' -> step e e'
| step_remove i e : step e (removeOperation clock i e)
| step_add_condition i e : step e (addCondition clock i e)
| step_update_condition i c p e : keeps_cond_id p -> step e (updateCondition i c p e)
| step_remove_condition i c e : step e (removeCondition i c e)
| step_collapse i l e : step e (handleConditionCollapseChange i l e)
| step_expand_all e : step e (expandAllSelectedConditions e)
| step_collapse_all e : step e (collapseAllSelectedConditions e).

Lemma Inv_update i f e :
  keeps_id f -> (forall o s, conds_ok o s -> conds_ok (f o) s) -> Inv e -> Inv (updateOperation i f e).
Proof using. intros H1 H2 H. by apply good_update; [|intros o; apply H2|]. Qed.

Lemma keeps_conds f : keeps_conditions f -> forall o s, conds_ok o s -> conds_ok (f o) s.
Proof using. intros H o s. unfold conds_ok. by rewrite H. Qed.

Lemma Inv_loaded v e e' : Inv e -> open_modal clock v e = Ret e' -> Inv e'.
Proof using.
  intros (Hs & _). unfold open_modal. destruct (parseInitialState clock v (seed e)) as [n|] eqn:E; [|done].
  cbn [bind_outcome]. intros [= <-]. change (good (l_operations n) (l_seed n)). revert E. unfold parseInitialState.
  destruct (default_ops clock (seed e)) as [d s1] eqn:Ed. destruct (good_default _ _ _ Hs Ed) as [Hd _]. cbn zeta.
  destruct (negb (nonempty _)); [by intros [= <-]|]. destruct (parse _) as [w|]; [|by intros [= <-]].
  destruct w as [| |?|?|?|?|o]; try (by intros [= <-]).
  destruct (prop _ o) as [w|]; [|by intros [= <-]]. destruct w; try (by intros [= <-]).
  destruct (load_ops clock _ _) as [[ops s']|] eqn:El; cbn [bind_outcome]; [|done]. intros [= <-].
  by apply (good_load _ _ _ _ Hs El).
Qed.

Lemma Inv_to_visual e e' m : Inv e -> switchToVisualMode clock e = Ret (e', m) -> Inv e'.
Proof using.
  intros H. pose proof H as (Hs & _). unfold switchToVisualMode. destruct (editMode e); [by intros [= <- _]|].
  destruct (default_ops clock (seed e)) as [d s1] eqn:Ed. destruct (good_default _ _ _ Hs Ed) as [Hd _]. cbn zeta.
  destruct (negb (nonempty _)); [by intros [= <- _]|]. destruct (parse _) as [w|]; [|by intros [= <- _]].
  destruct w as [| |?|?|?|?|o]; try (by intros [= <- _]).
  destruct (prop _ o) as [w|]; [|by intros [= <- _]]. destruct w; try (by intros [= <- _]).
  destruct (load_ops clock _ _) as [[ops s']|] eqn:El; cbn [bind_outcome]; [|done]. intros [= <- _].
  by apply (good_load _ _ _ _ Hs El).
Qed.

Lemma Inv_fill_legacy o e : Inv e -> Inv (fillLegacyTemplate clock o e).
Proof using.
  intros (Hs & _). unfold fillLegacyTemplate. destruct (default_ops clock (seed e)) as [d s] eqn:Ed.
  by apply (good_default _ _ _ Hs Ed).
Qed.

Lemma Inv_append_ops l e e' : Inv e -> appendOperationsTemplate clock l e = Ret e' -> Inv e'.
Proof using.
  intros H. pose proof H as (Hs & _). unfold appendOperationsTemplate.
  destruct (map_seed _ _ _) as [[a s]|] eqn:El; cbn [bind_outcome]; [|done]. intros [= <-].
  apply load_fresh in El as (H1 & H2 & H3); [|done]. change (good (match visualMode e with Operations => nonblank (operations e) | Legacy => [] end ++ a) s).
  apply (good_app _ _ (seed e)); [done| |done|done]. destruct (visualMode e); [by apply good_filter|by apply good_nil].
Qed.

Lemma Inv_prune i u e e' :
  (forall d s d' s', u d s = (d', s') -> s <= s') -> Inv e -> updatePruneObjectsDraft clock i u e = Ret e' -> Inv e'.
Proof using.
  intros Hu H. unfold updatePruneObjectsDraft. destruct (find_op i (operations e)) as [o|]; [|by intros [= <-]].
  destruct (parsePruneObjectsDraft clock (value_text o) (seed e)) as [[d s]|] eqn:Ep; cbn [bind_outcome]; [|done].
  destruct (u d s) as [d' s'] eqn:Eu. intros [= <-]. apply Inv_update; [done|by apply keeps_conds|].
  change (good (operations e) s'). apply (good_mono _ (seed e)); [|done]. apply Hu in Eu. etrans; [|exact Eu].
  eapply prune_seed; [|exact Ep]. by destruct H.
Qed.

Lemma Inv_duplicate b i e e' : Inv e -> duplicateOperation clock b i e = Ret e' -> Inv e'.
Proof using.
  intros H. pose proof H as (Hs & _). unfold duplicateOperation. destruct (find_op i (operations e)) as [o|]; [|by intros [= <-]].
  destruct (normalizeOperation clock _ _) as [[x s]|] eqn:En; cbn [bind_outcome]; [|done]. cbn zeta.
  apply normalizeOperation_id in En as (H1 & H2 & H3); [|done]. intros E. apply (f_equal (fun r => match r with Ret a => Some a | Throw => None end)) in E.
  assert (Hg : good (insert_after i x (operations e)) s).
  { apply (good_insert _ _ _ (seed e)); [lia|done| |done]. rewrite H2.
    apply (fresh_weaken (seed e) (seed e) (seed e + 1)); [lia|lia|apply fresh_one]. }
  destruct b; injection E as <-; exact Hg.
Qed.

Lemma Inv_add_condition i e : Inv e -> Inv (addCondition clock i e).
Proof using.
  intros H. unfold addCondition, createDefaultCondition, nextLocalId. set (c := Cond _ _ _ _ _ _).
  change (good (update_op i (fun o => set_conditions (conditions o ++ [c]) o) (operations e)) (seed e + 1)).
  destruct H as (Hs & H1 & H2). split; [lia|].
  assert (E : map o_id (update_op i (fun o => set_conditions (conditions o ++ [c]) o) (operations e)) = map o_id (operations e)).
  { unfold update_op. rewrite map_map. apply map_ext. intros o. by destruct (_ =s? _). }
  rewrite E. split; [by eapply fresh_weaken; [reflexivity| |exact H1]; lia|].
  unfold update_op. apply Forall_map. eapply Forall_impl; [exact H2|]. intros o Ho. cbn.
  destruct (_ =s? _); [|by eapply conds_ok_mono; [|exact Ho]; lia]. unfold conds_ok. cbn [set_conditions conditions].
  rewrite map_app. apply (fresh_app 0 (seed e)); [lia|lia|done|apply (fresh_one (seed e))].
Qed.

Lemma step_Inv e e' : Inv e -> step e e' -> Inv e'.
Proof using.
  intros H Hst. pose proof H as (Hs & _).
  destruct Hst as [v e e' E|e|e|i e|g k e|e|x e|e|m e|e e' m E|e e' E|e e' m E|e|i f e Hf Hc|k t e e' E|e|i p e|i e e' E|i r p e e' E|i r e e' E|e|s t a e|b i e e' E|i e|i e|i c p e Hp|i c e|i l e|e|e];
    try exact H.
  - by eapply Inv_loaded.
  - change (good (operations e) (seed e + 1)). by eapply (good_mono _ (seed e)); [lia|].
  - unfold fix_preset. cbn zeta. destruct (map _ _); [done|]. by destruct (mem _ _).
  - unfold formatJson. cbn zeta. destruct (negb _); [done|]. by destruct (parse _).
  - unfold switchToJsonMode. destruct (editMode e); [|done]. by destruct (buildVisualJson e).
  - by eapply Inv_to_visual.
  - unfold fillTemplateFromLibrary in E. destruct (t_payload _) as [o|l]; [injection E as <-; by apply Inv_fill_legacy|].
    unfold fillOperationsTemplate in E. destruct (load_ops clock l (seed e)) as [[ops s]|] eqn:El; cbn [bind_outcome] in E; [|done].
    injection E as <-. by apply (good_load _ _ _ _ Hs El).
  - unfold appendTemplateFromLibrary in E. destruct (t_payload _) as [o|l].
    + unfold appendLegacyTemplate in E. destruct (current_legacy e) as [cur|]; injection E as <- _; [by apply Inv_fill_legacy|done].
    + destruct (appendOperationsTemplate clock l e) as [x|] eqn:Ea; cbn [bind_outcome] in E; [|done]. injection E as <- _.
      by eapply Inv_append_ops.
  - unfold resetEditorState, clearValue. destruct (default_ops clock (seed e)) as [d s] eqn:Ed. by apply (good_default _ _ _ Hs Ed).
  - by apply Inv_update; [|apply keeps_conds|].
  - unfold applyBuiltinField in E. destruct (find_op _ _) as [o|]; [|done]. cbn zeta in E.
    destruct t; destruct (_ || _) in E; try done; injection E as <-; by apply Inv_update; [|apply keeps_conds|].
  - unfold formatSelectedOperationValueAsJson. destruct (find_op _ _) as [o|]; [|done]. cbn zeta.
    destruct (negb _); [done|]. destruct (parse _); [|done]. by apply Inv_update; [|apply keeps_conds|].
  - unfold updateReturnErrorDraft. destruct (find_op _ _) as [o|]; [|done]. by apply Inv_update; [|apply keeps_conds|].
  - eapply Inv_prune; [|exact H|exact E]. intros d s d' s'. unfold createDefaultCondition, nextLocalId. intros [= _ <-]. lia.
  - eapply Inv_prune; [|exact H|exact E]. intros d s d' s' [= _ <-]. lia.
  - eapply Inv_prune; [|exact H|exact E]. intros d s d' s' [= _ <-]. lia.
  - unfold addOperation. destruct (createDefaultOperation clock (seed e)) as [o s] eqn:Eo.
    destruct (default_op_fresh _ _ _ Hs Eo) as (H1 & H2 & H3).
    change (good (operations e ++ [o]) s).
    by apply (good_app _ [o] (seed e)); [lia| | |constructor; [|constructor]].
  - unfold moveOperation. destruct (_ || _); [done|]. eapply (good_perm (operations e)); [symmetry; apply reorder_perm|done].
  - by eapply Inv_duplicate.
  - unfold removeOperation. destruct (default_ops clock (seed e)) as [d s] eqn:Ed. destruct (good_default _ _ _ Hs Ed) as [Hd _].
    destruct (operations e) as [|o1 [|o2 l]] eqn:Eo; [exact Hd|exact Hd|]. rewrite <- Eo. by apply (good_filter _ (operations e)).
  - by apply Inv_add_condition.
  - apply Inv_update; [done| |done]. intros o s Ho. unfold conds_ok in *. cbn [set_conditions conditions]. rewrite map_map.
    erewrite map_ext; [exact Ho|]. intros x. cbn. destruct (_ =s? _); [apply Hp|done].
  - apply (Inv_update i); [done| |done]. intros o s Ho. by apply fresh_lfilter.
  - unfold expandAllSelectedConditions. destruct (find_op _ _); [|done]. by destruct (nonempty _).
  - unfold collapseAllSelectedConditions. by destruct (nonempty _).
Qed.

Inductive reach : editor -> Prop :=
| reach_mount s : 0 <= s -> reach (mount clock s)
| reach_next e e' : reach e -> step e e' -> reach e'.

Lemma reach_Inv e : reach e -> Inv e.
Proof using.
  induction 1 as [s Hs|e e' _ IH Hs]; [|by eapply step_Inv]. unfold mount. destruct (default_ops clock s) as [d s'] eqn:E.
  by apply (good_default _ _ _ Hs E).
Qed.

(** C7: whatever sequence of edits, templates, drags, mode switches and renders led to a
    state, its rules have distinct identifiers and so have the conditions of each rule, so
    that an edit addressed to a rule or a condition reaches one only. *)
Theorem reach_rule_ids_unique e :
  reach e -> NoDup (map o_id (operations e)) /\ Forall (fun o => NoDup (map c_id (conditions o))) (operations e).
Proof using.
  intros H. apply reach_Inv in H as (_ & [H1 _] & H2). split; [done|]. eapply Forall_impl; [exact H2|]. by intros o [].
Qed.

(** The identifiers a prune rule is shown with are gone when its text is read again, so an
    edit or a removal addressed to a shown rule changes no rule: both do what a change of
    nothing would do. *)
Theorem prune_rule_edits_lost e i ruleId patch :
  Inv e -> issued 0 (seed e) ruleId ->
  updatePruneRule clock i ruleId patch e = updatePruneObjectsDraft clock i (fun d s => (d, s)) e
  /\ removePruneRule clock i ruleId e = updatePruneObjectsDraft clock i (fun d s => (d, s)) e.
Proof using.
  intros (Hs & _) (k & Hk & ->). unfold updatePruneRule, removePruneRule, updatePruneObjectsDraft.
  destruct (find_op i (operations e)) as [o|]; [|done].
  destruct (parsePruneObjectsDraft clock (value_text o) (seed e)) as [[d s]|] eqn:E; cbn [bind_outcome]; [|done].
  apply prune_fresh in E as (H1 & _ & H2); [|done].
  assert (Hne : Forall (fun c => (c_id c =s? id_text k) = false) (p_rules d)).
  { rewrite Forall_map in H2. eapply Forall_impl; [exact H2|]. intros c (k' & Hk' & E). apply str_eqb_neq. rewrite E.
    intros Ei. apply id_text_inj in Ei; lia. }
  assert (Em : map (fun c => if c_id c =s? id_text k then patch c else c) (p_rules d) = p_rules d).
  { clear -Hne. induction Hne as [|c l Hc _ IH]; [done|]. cbn [map]. by rewrite Hc, IH. }
  assert (Ef : List.filter (fun c => negb (c_id c =s? id_text k)) (p_rules d) = p_rules d).
  { clear -Hne. induction Hne as [|c l Hc _ IH]; [done|]. cbn [List.filter]. by rewrite Hc, IH. }
  rewrite Em, Ef. by destruct d.
Qed.

(** A prune rule that is added is written nowhere: the text after the addition is the text
    of the draft without it, whatever the draft holds. *)
Theorem added_prune_rule_dropped e i e' :
  addPruneRule clock i e = Ret e' ->
  exists u, updatePruneObjectsDraft clock i (fun d s =>
      (PruneDraft false (p_typeText d) (p_logic d) (p_recursive d) (p_rules d), s)) e = Ret u
    /\ operations e' = operations u.
Proof using.
  unfold addPruneRule, updatePruneObjectsDraft. destruct (find_op i (operations e)) as [o|]; [|intros [= <-]; by exists e].
  destruct (parsePruneObjectsDraft clock (value_text o) (seed e)) as [[d s]|]; cbn [bind_outcome]; [|done].
  unfold createDefaultCondition, nextLocalId. intros E. eexists. split; [reflexivity|].
  apply (f_equal (fun r => match r with Ret a => operations a | Throw => [] end)) in E. rewrite <- E.
  unfold updateOperation. cbn [operations set_ops set_seed]. do 2 f_equal. unfold buildPruneObjectsValueText, prune_payload.
  cbn [p_simpleMode p_typeText p_logic p_recursive p_rules]. rewrite List.filter_app. cbn [List.filter c_path].
  replace (nonempty (trim [])) with false by done. by rewrite app_nil_r.
Qed.

(** After the selection effect a rule is selected whenever there is one, and it is one
    of the rules. *)
Theorem selection_names_a_rule e :
  operations e <> [] -> exists o, o ∈ operations (fix_selection e) /\ o_id o = selectedOperationId (fix_selection e).
Proof using.
  intros Hne. unfold fix_selection. cbn [operations selectedOperationId]. destruct (operations e) as [|o l] eqn:Eo; [done|].
  destruct (existsb _ (o :: l)) eqn:E; [|exists o; split; [set_solver|done]].
  apply existsb_exists in E as (x & Hx & Hi). exists x. split; [by apply list_elem_of_In|by apply str_eqb_eq].
Qed.

End Invariant.

(** Dragging a rule over the lower half of another and dropping it there puts it directly
    after that rule, selects it and ends the drag. *)
Theorem drag_drop_reorders (d : drag) e s t data :
  s <> [] -> t <> [] -> s <> t ->
  handleOperationDrop data t (handleOperationDragOver t true (handleOperationDragStart s (d, e)))
  = (resetOperationDragState, set_selected s (set_ops (reorderOperations (operations e) s t true) (set_selected s e))).
Proof.
  intros Hs Ht Hne. unfold handleOperationDragStart, handleOperationDragOver. cbn [draggedOperationId].
  assert (Hn : nonempty s = true) by (by destruct s). assert (Hn' : nonempty t = true) by (by destruct t).
  apply str_eqb_neq in Hne. rewrite Hn, Hne. cbn [negb orb]. unfold handleOperationDrop.
  cbn [draggedOperationId dragOverOperationId dragOverAfter]. rewrite Hn. unfold moveOperation.
  rewrite Hn, Hn', Hne. cbn [negb orb]. by rewrite (proj2 (str_eqb_eq t t) eq_refl).
Qed.

Definition rule_keys : list jsstr :=
  [$"description"; $"mode"; $"path"; $"value"; $"keep_origin"; $"from"; $"to"; $"conditions"; $"logic"].

(** The same properties, in any order. *)
Definition same_rule (v w : val) : Prop := Forall (fun k => get_any v k = get_any w k) rule_keys.

Definition same_setting (p : template_payload) (v : val) : Prop :=
  match p with
  | LegacyPayload o => v = VObj o
  | OperationsPayload l => exists l', v = VObj [($"operations", VArr l')] /\ Forall2 same_rule l l'
  end.

Lemma same_rule_check v w : map (get_any v) rule_keys = map (get_any w) rule_keys -> same_rule v w.
Proof.
  unfold same_rule. induction rule_keys as [|k l IH]; [constructor|]. cbn [map]. intros [= H1 H2]. constructor; [done|auto].
Qed.

(** Every template of the library, filled in, passes the validation and is saved with the
    rules it has, property by property: no preset leaves the editor in a state it refuses
    to save or saves differently. *)
Theorem filled_templates_save clock e k p :
  In (k, p) TEMPLATE_PRESET_CONFIG ->
  exists e' text v, fillTemplateFromLibrary clock (set_template (t_group p) k e) = Ret e'
    /\ handleSave e' = inl text /\ parse text = Some v /\ same_setting (t_payload p) v.
Proof.
  intros H. cbn in H. repeat destruct H as [H|H]; try (injection H as <- <-); [..|done].
  all: eexists _, _, _; split; [reflexivity|split; [vm_compute; reflexivity|split; [vm_compute; reflexivity|]]];
    first [reflexivity|eexists; split; [reflexivity|]; repeat (constructor; [apply same_rule_check; vm_compute; reflexivity|]); constructor].
Qed.

(** ** Instances *)

Lemma drag_drop_reorders_witness :
  (handleOperationDrop [] $"a" (handleOperationDragOver $"a" true (handleOperationDragStart $"b"
     (resetOperationDragState, set_ops [sample_rule $"a"; sample_rule $"b"] (mount (fun _ => 0) 0))))).1
  = resetOperationDragState.
Proof. rewrite drag_drop_reorders; [done|by vm_compute..]. Defined.

Lemma filled_templates_save_witness :
  exists e' text v, fillTemplateFromLibrary (fun _ => 0) (set_template $"basic" $"operations_default" (mount (fun _ => 0) 0)) = Ret e'
    /\ handleSave e' = inl text /\ parse text = Some v /\ same_setting (OperationsPayload OPERATION_TEMPLATE) v.
Proof.
  apply (filled_templates_save (fun _ => 0) (mount (fun _ => 0) 0) $"operations_default"
           (Preset $"basic" (OperationsPayload OPERATION_TEMPLATE))). by left.
Defined.

Lemma reach_rule_ids_unique_witness :
  NoDup (map o_id (operations (addCondition (fun _ => 0) $"x" (addOperation (fun _ => 0) (mount (fun _ => 0) 0))))).
Proof.
  apply (reach_rule_ids_unique (fun _ => 0)). eapply reach_next; [|apply step_add_condition].
  eapply reach_next; [|apply step_add]. by apply reach_mount.
Defined.

Definition prune_editor : editor :=
  updateOperation (id_text (fun _ => 0) 0)
    (set_value_text (pretty (VObj [($"conditions", VArr [VObj [($"path", VStr $"type")]])])))
    (addOperation (fun _ => 0) (mount (fun _ => 0) 0)).

Lemma prune_editor_reached : reach (fun _ => 0) prune_editor.
Proof.
  eapply reach_next; [|by apply step_update]. eapply reach_next; [|apply step_add]. by apply reach_mount.
Qed.

Lemma prune_rule_edits_lost_witness :
  removePruneRule (fun _ => 0) (id_text (fun _ => 0) 0) (id_text (fun _ => 0) 1) prune_editor
  = updatePruneObjectsDraft (fun _ => 0) (id_text (fun _ => 0) 0) (fun d s => (d, s)) prune_editor.
Proof.
  apply (prune_rule_edits_lost (fun _ => 0) prune_editor (id_text (fun _ => 0) 0) (id_text (fun _ => 0) 1) id).
  - apply reach_Inv, prune_editor_reached.
  - exists 1. split; [by vm_compute|done].
Defined.

Lemma added_prune_rule_dropped_witness :
  exists e' u, addPruneRule (fun _ => 0) (id_text (fun _ => 0) 0) prune_editor = Ret e'
    /\ updatePruneObjectsDraft (fun _ => 0) (id_text (fun _ => 0) 0) (fun d s =>
         (PruneDraft false (p_typeText d) (p_logic d) (p_recursive d) (p_rules d), s)) prune_editor = Ret u
    /\ operations e' = operations u.
Proof.
  eexists. destruct (added_prune_rule_dropped (fun _ => 0) prune_editor (id_text (fun _ => 0) 0) _ eq_refl) as (u & H1 & H2).
  exists u. split; [reflexivity|]. by split.
Defined.

Lemma selection_names_a_rule_witness :
  exists o, o ∈ operations (fix_selection (mount (fun _ => 0) 0))
    /\ o_id o = selectedOperationId (fix_selection (mount (fun _ => 0) 0)).
Proof. apply (selection_names_a_rule (mount (fun _ => 0) 0)). by vm_compute. Defined.

End ParamOverrideEditor.
