(* ===== verification/ParamOverrideRoundtrip.v ===== *)
(** * Parameter override rules: saving and opening again

    The text [buildOperationsJson] writes is read by [parseInitialState] into rules that
    write the same text: the composition of the codec of [ParamOverride], the handlers of
    [ParamOverrideEditor] and [JSON.parse]/[JSON.stringify]. *)
From S2P Require Import Prelude JSNum JSValue Json ParamOverride ParamOverrideEditor.
#[local] Open Scope Z_scope.
#[local] Arguments js _ : simpl never.

Module ParamOverrideRoundtrip.
Import ParamOverride ParamOverrideEditor.

(** ** Objects with optional properties *)

Definition present (fs : list (jsstr * option val)) : object :=
  omap (fun kv => match kv.2 with Some v => Some (kv.1, v) | None => None end) fs.

Lemma present_cons k v fs :
  present ((k, v) :: fs) = match v with Some w => (k, w) :: present fs | None => present fs end.
Proof. by destruct v. Qed.

Lemma present_keys fs : keys (present fs) `sublist_of` map fst fs.
Proof.
  induction fs as [|[k [v|]] fs IH]; rewrite ?present_cons; [constructor| |].
  - by apply sublist_skip.
  - by apply sublist_cons.
Qed.

Lemma present_prop k fs :
  NoDup (map fst fs) -> prop k (present fs) = match prop k fs with Some (Some v) => Some v | _ => None end.
Proof.
  induction fs as [|[k' w] fs IH]; [done|]. cbn [map fst]. intros [Hk Hn]%NoDup_cons. rewrite present_cons. cbn [prop].
  destruct (str_eqb_spec k k') as [->|Hne].
  - destruct w; cbn [prop]; [by destruct (str_eqb_spec k' k')|]. apply prop_None. intros Hin. apply Hk.
    by eapply elem_of_sublist; [|apply present_keys].
  - destruct w; cbn [prop]; [|by apply IH]. destruct (str_eqb_spec k k'); [done|]. by apply IH.
Qed.

Lemma present_wf fs :
  plain_keys (map fst fs) = true -> Forall (fun kv => match kv.2 with Some v => json_wf v | None => True end) fs ->
  json_wf (VObj (present fs)).
Proof.
  intros Hk Hf. eapply json_wf_plain; [exact Hk|apply present_keys|]. clear Hk.
  induction fs as [|[k [v|]] fs IH]; rewrite ?present_cons; inversion_clear Hf; [constructor|constructor; auto|auto].
Qed.

Definition when {A} (b : bool) (x : A) : option A := if b then Some x else None.

(** ** Text values *)

(** A text the editor can hold for a value: it is no JSON, or a JSON string that is no
    JSON itself, or another JSON value; white space around it is white space of JSON. *)
Definition value_ok (t : jsstr) : Prop :=
  Forall unit16 t /\ parse (trim t) = parse t
  /\ match parse t with
     | None => True
     | Some (VStr s) => Forall unit16 s /\ trim s = s /\ s <> [] /\ parse s = None
     | Some v => json_wf v
     end.

Lemma blank_units : Forall unit16 [].
Proof. constructor. Qed.

Lemma loose_wf t : value_ok t -> json_wf (parseLooseValue t).
Proof.
  intros (Hu & _ & Hp). unfold parseLooseValue. destruct (nonempty (trim t)); [|apply blank_units].
  destruct (parse t) as [[]|]; cbn [from_option id]; try done. by destruct Hp.
Qed.

(** What a text becomes when its value is shown again. *)
Definition shown_value (t : jsstr) : jsstr := toValueText (parseLooseValue t).

Inductive shown_case (t : jsstr) : Prop :=
| ShownBlank : nonempty (trim t) = false -> parseLooseValue t = VStr [] -> shown_value t = [] -> shown_case t
| ShownText : nonempty (trim t) = true -> parse t = None -> parse (trim t) = None ->
    parseLooseValue t = VStr t -> shown_value t = t -> shown_case t
| ShownString s : nonempty (trim t) = true -> parse (trim t) = Some (VStr s) -> parseLooseValue t = VStr s ->
    shown_value t = s -> trim s = s -> s <> [] -> parse s = None -> shown_case t
| ShownJson v text : nonempty (trim t) = true -> parse (trim t) = Some v -> parseLooseValue t = v ->
    (forall s, v <> VStr s) -> shown_value t = text -> trim text = text -> text <> [] -> parse text = Some v ->
    shown_case t.

Lemma shown_cases t : value_ok t -> shown_case t.
Proof.
  intros Hok. pose proof (loose_wf t Hok) as Hw. destruct Hok as (Hu & Ht & Hp).
  destruct (nonempty (trim t)) eqn:En.
  2:{ assert (E : parseLooseValue t = VStr []) by (unfold parseLooseValue; by rewrite En).
      apply ShownBlank; [done|done|unfold shown_value; by rewrite E]. }
  destruct (parse t) as [v|] eqn:Ep.
  2:{ assert (E : parseLooseValue t = VStr t) by (unfold parseLooseValue; by rewrite En, Ep).
      apply ShownText; [done|done|done|done|unfold shown_value; by rewrite E]. }
  assert (E : parseLooseValue t = v) by (unfold parseLooseValue; by rewrite En, Ep).
  destruct (match v with VStr _ => true | _ => false end) eqn:Ev.
  - destruct v as [| | | |s| |]; try done. destruct Hp as (_ & H1 & H2 & H3).
    by apply (ShownString t s); [| | |unfold shown_value; by rewrite E| | |].
  - rewrite E in Hw. destruct (ser_Some [] [] v Hw) as [text Et].
    destruct (ser_head _ _ _ _ Hw Et) as (c & r & Hc & _).
    apply (ShownJson t v text); [done|done|done|by intros s ->| |by eapply trim_id, ser_edges|by rewrite Hc|by apply parse_stringify].
    unfold shown_value. rewrite E. unfold toValueText, stringify. rewrite Et. by destruct v.
Qed.

(** Showing a value and reading it again gives the value. *)
Lemma loose_stable t : value_ok t -> parseLooseValue (shown_value t) = parseLooseValue t.
Proof.
  intros H. destruct (shown_cases t H) as [_ -> ->|_ _ _ _ ->|s _ _ -> -> Hs Hne Hp|v text _ _ -> _ -> Hs Hne Hp]; [done..| |];
    unfold parseLooseValue; rewrite Hs, Hp; [by destruct s|by destruct text].
Qed.

Definition as_object (v : option val) : option object := match v with Some (VObj o) => Some o | _ => None end.

(** The checks of a value see no difference. *)
Lemma shown_same t :
  value_ok t ->
  nonempty (trim (shown_value t)) = nonempty (trim t)
  /\ as_object (parse (trim (shown_value t))) = as_object (parse (trim t))
  /\ parseLooseValue (trim (shown_value t)) = parseLooseValue (trim t).
Proof.
  intros H. destruct (shown_cases t H) as [Ht _ ->|_ _ _ _ ->|s Ht Hp _ -> Hs Hne Hn|v text Ht Hp _ Hv -> Hs Hne Hn].
  - by destruct (trim t).
  - done.
  - rewrite Ht, Hp, Hs, Hn. unfold parseLooseValue. rewrite trim_idem, Ht, Hp, Hs, Hn. by destruct s.
  - rewrite Ht, Hp, Hs, Hn. unfold parseLooseValue. rewrite trim_idem, Ht, Hp, Hs, Hn. by destruct text.
Qed.

Lemma return_error_by_object r :
  return_error_complaint r = if negb (nonempty r) then Some NoValue else
    match as_object (parse r) with
    | Some o => if nonempty (text_or_blank (get (VObj o) $"message")) then None else Some ErrorNeedsMessage
    | None => None
    end.
Proof. unfold return_error_complaint. destruct (negb _); [done|]. by destruct (parse r) as [[]|]. Qed.

Lemma prune_by_object r r' :
  nonempty r = nonempty r' -> as_object (parse r) = as_object (parse r') -> prune_complaint r = prune_complaint r'.
Proof.
  intros Hn Ho. unfold prune_complaint. rewrite Hn. destruct (negb _); [done|].
  destruct (parse r) as [[]|], (parse r') as [[]|]; cbn [as_object] in Ho; by simplify_eq.
Qed.

(** ** Rules *)

Definition condition_ok (c : cond) : Prop :=
  mem (c_mode c) CONDITION_MODE_VALUES = true /\ Forall unit16 (c_path c) /\ value_ok (c_value_text c).

Definition operation_ok (o : operation) : Prop :=
  mem (mode o) OPERATION_MODE_VALUES = true
  /\ Forall unit16 (description o) /\ Forall unit16 (path o) /\ Forall unit16 (from o) /\ Forall unit16 (to o)
  /\ value_ok (value_text o) /\ Forall condition_ok (conditions o).

Definition condition_fields (c : cond) : list (jsstr * option val) :=
  [($"path", Some (VStr (trim (c_path c)))); ($"mode", Some (VStr (if nonempty (c_mode c) then c_mode c else $"full")));
   ($"value", Some (parseLooseValue (c_value_text c))); ($"invert", when (c_invert c) (VBool true));
   ($"pass_missing_key", when (c_pass_missing_key c) (VBool true))].

Definition condition_payloads (o : operation) : list val := omap buildConditionPayload (conditions o).

Definition operation_fields (o : operation) : list (jsstr * option val) :=
  let meta := meta_of (op_mode o) in
  let cs := condition_payloads o in
  let some := match cs with [] => false | _ => true end in
  [($"mode", Some (VStr (op_mode o)));
   ($"description", when (nonempty (trim (description o))) (VStr (trim (description o))));
   ($"path", when (m_path meta || (m_pathOptional meta && nonempty (trim (path o)))) (VStr (trim (path o))));
   ($"value", when (m_value meta) (parseLooseValue (value_text o)));
   ($"keep_origin", when (m_keepOrigin meta && keep_origin o) (VBool true));
   ($"from", when (m_from meta || nonempty (from_value o)) (VStr (from_value o)));
   ($"to", when (m_to meta || nonempty (to_value o)) (VStr (to_value o)));
   ($"conditions", when some (VArr cs));
   ($"logic", when some (VStr (if logic o =s? $"AND" then $"AND" else $"OR")))].

Lemma condition_payload_fields c :
  buildConditionPayload c = if nonempty (trim (c_path c)) then Some (VObj (present (condition_fields c))) else None.
Proof.
  unfold buildConditionPayload, condition_fields. cbn zeta. destruct (nonempty (trim (c_path c))); [|done].
  cbn [negb]. unfold when. by destruct (c_invert c), (c_pass_missing_key c).
Qed.

Lemma present_when b k v fs : present ((k, when b v) :: fs) = opt_prop b k v ++ present fs.
Proof. by destruct b. Qed.

Lemma operation_payload_fields o : buildOperation o = VObj (present (operation_fields o)).
Proof.
  unfold buildOperation, operation_fields. cbn zeta. fold (condition_payloads o). f_equal.
  rewrite present_cons, !present_when. cbn [app]. by destruct (condition_payloads o).
Qed.

(** ** Reading a payload *)

Definition field (k : jsstr) (fs : list (jsstr * option val)) : val :=
  match prop k fs with Some (Some v) => v | _ => VUndef end.

Lemma get_present k fs : plain_keys (map fst fs) = true -> get_any (VObj (present fs)) k = field k fs.
Proof.
  intros [Hn%bool_decide_eq_true _]%andb_true_iff. unfold get_any, field. cbn [entries]. rewrite present_prop by done.
  by destruct (prop k fs) as [[]|].
Qed.

Lemma trim_units t : Forall unit16 t -> Forall unit16 (trim t).
Proof.
  intros H. destruct (trimStart_suffix t) as [p E]. rewrite E in H. apply Forall_app in H as [_ H].
  unfold trim, trimEnd. destruct (trimStart_suffix (rev (trimStart t))) as [q E'].
  assert (H2 : Forall unit16 (rev (trimStart t))) by (by apply Forall_rev). rewrite E' in H2.
  apply Forall_app in H2 as [_ H2]. by apply Forall_rev.
Qed.

Lemma condition_plain c : plain_keys (map fst (condition_fields c)) = true.
Proof. by vm_compute. Qed.

Lemma operation_plain o : plain_keys (map fst (operation_fields o)) = true.
Proof. by vm_compute. Qed.

Lemma mode_units (l : list jsstr) m :
  forallb (fun s => nonempty s && forallb (fun c => (0 <=? c) && (c <? 65536)) s) l = true -> mem m l = true ->
  nonempty m = true /\ Forall unit16 m.
Proof.
  intros Hl (x & Hx & E)%existsb_exists. apply str_eqb_eq in E as ->. rewrite forallb_forall in Hl. apply Hl in Hx. bsplit.
  split; [done|by apply unit16_check].
Qed.

Lemma condition_mode c :
  condition_ok c -> nonempty (c_mode c) = true /\ Forall unit16 (c_mode c).
Proof. intros (H & _). by apply (mode_units CONDITION_MODE_VALUES); [vm_compute|]. Qed.

Lemma operation_mode o :
  operation_ok o -> nonempty (mode o) = true /\ Forall unit16 (mode o) /\ op_mode o = mode o.
Proof.
  intros (H & _). apply (mode_units OPERATION_MODE_VALUES) in H as [H1 H2]; [|by vm_compute].
  split; [done|]. split; [done|]. unfold op_mode. by rewrite H1.
Qed.

Lemma condition_payload_wf c p : condition_ok c -> buildConditionPayload c = Some p -> json_wf p.
Proof.
  intros Hc. pose proof (condition_mode c Hc) as [Hm Hmu]. destruct Hc as (_ & Hu & Hv). rewrite condition_payload_fields.
  destruct (nonempty (trim _)); [|done]. intros E%Some_inj. subst p. apply present_wf; [apply condition_plain|].
  unfold condition_fields. rewrite Hm.
  constructor; [by apply trim_units|]. constructor; [done|]. constructor; [by apply loose_wf|].
  constructor; [by destruct (c_invert c)|]. constructor; [by destruct (c_pass_missing_key c)|constructor].
Qed.

(** ** Validity *)

(** What a mode requires is part of what it stores. *)
Definition mode_consistent (m : jsstr) : bool :=
  let meta := meta_of m in
  implb (mem m FROM_REQUIRED_MODES) (m_from meta) && implb (mem m TO_REQUIRED_MODES) (m_to meta)
  && implb (mem m VALUE_REQUIRED_MODES) (m_value meta) && implb (m_pathAlias meta) (m_from meta && m_to meta)
  && implb ((m =s? $"return_error") || (m =s? $"prune_objects") || (m =s? $"pass_headers")) (m_value meta)
  && implb (m =s? $"set") (m_path meta).

Lemma modes_consistent m : mem m OPERATION_MODE_VALUES = true -> mode_consistent m = true.
Proof.
  intros (x & Hx & E)%existsb_exists. apply str_eqb_eq in E as ->. revert x Hx. apply forallb_forall. by vm_compute.
Qed.

Lemma consistent_spec m (meta := meta_of m) :
  mode_consistent m = true ->
  (mem m FROM_REQUIRED_MODES = true -> m_from meta = true) /\ (mem m TO_REQUIRED_MODES = true -> m_to meta = true)
  /\ (mem m VALUE_REQUIRED_MODES = true -> m_value meta = true)
  /\ (m_pathAlias meta = true -> m_from meta = true /\ m_to meta = true)
  /\ ((m =s? $"return_error") || (m =s? $"prune_objects") || (m =s? $"pass_headers") = true -> m_value meta = true)
  /\ ((m =s? $"set") = true -> m_path meta = true).
Proof. unfold mode_consistent. cbn zeta. rewrite !andb_true_iff, !implb_true_iff, andb_true_iff. tauto. Qed.

Record valid (o : operation) : Prop := Valid {
  valid_path : m_path (meta_of (op_mode o)) = true -> nonempty (trim (path o)) = true;
  valid_from : m_from (meta_of (op_mode o)) = true -> nonempty (trim (from o)) = true;
  valid_to : m_to (meta_of (op_mode o)) = true -> nonempty (trim (to o)) = true;
  valid_value : mem (op_mode o) VALUE_REQUIRED_MODES = true -> nonempty (trim (value_text o)) = true;
  valid_error : (op_mode o =s? $"return_error") = true -> return_error_complaint (trim (value_text o)) = None;
  valid_prune : (op_mode o =s? $"prune_objects") = true -> prune_complaint (trim (value_text o)) = None;
  valid_headers : (op_mode o =s? $"pass_headers") = true -> pass_headers_complaint (trim (value_text o)) = None
}.

Lemma check_None b c : check b c = None <-> b = false.
Proof. by destruct b. Qed.

Lemma first_of_None {A} (x : option A) l : first_of (x :: l) = None <-> x = None /\ first_of l = None.
Proof. destruct x; cbn; naive_solver. Qed.

Lemma needs_None (a b : bool) : a && negb b = false <-> (a = true -> b = true).
Proof. destruct a, b; naive_solver. Qed.

Lemma if_None {A} (b : bool) (x : option A) : (if b then x else None) = None <-> (b = true -> x = None).
Proof. destruct b; naive_solver. Qed.

(** A rule passes the validation when it is valid. *)
Lemma complaint_valid o :
  mode_consistent (op_mode o) = true -> operation_complaint o = None <-> valid o.
Proof.
  intros Hm. unfold operation_complaint. cbn zeta. rewrite !first_of_None, !check_None, !needs_None, !if_None. split.
  - intros (H1 & _ & _ & H4 & H5 & H6 & H7 & H8 & H9 & _). by split.
  - intros [H1 H2 H3 H4 H5 H6 H7]. apply consistent_spec in Hm as (C1 & C2 & _).
    repeat split; try done.
    + destruct (mem (op_mode o) FROM_REQUIRED_MODES) eqn:E; [|done]. cbn [andb]. by rewrite H2 by auto.
    + destruct (mem (op_mode o) TO_REQUIRED_MODES) eqn:E; [|done]. cbn [andb]. by rewrite H3 by auto.
Qed.

Lemma valid_nonblank o : mode_consistent (op_mode o) = true -> valid o -> isOperationBlank o = false.
Proof.
  intros Hm Hv. unfold isOperationBlank. destruct (mode o =s? $"set") eqn:E; [|done]. cbn [andb].
  assert (Eo : (op_mode o =s? $"set") = true).
  { apply str_eqb_eq in E. unfold op_mode. rewrite E. by vm_compute. }
  apply consistent_spec in Hm as (_ & _ & _ & _ & _ & C). by rewrite (valid_path o Hv) by auto.
Qed.

Section Reading.
Variable clock : Z -> Z.

(** A stored condition is read into one that is stored the same way. *)
Lemma condition_reads c p s :
  condition_ok c -> buildConditionPayload c = Some p ->
  exists c', normalizeCondition clock p s = Ret (c', s + 1) /\ buildConditionPayload c' = Some p.
Proof using.
  intros Hc. pose proof (condition_mode c Hc) as [Hm _]. destruct Hc as (Hmem & _ & Hv). rewrite condition_payload_fields.
  destruct (nonempty (trim (c_path c))) eqn:En; [|done]. intros E%Some_inj. subst p.
  set (fs := condition_fields c). eexists. split.
  { unfold normalizeCondition, nextLocalId. cbv iota. rewrite !get_present by apply condition_plain. reflexivity. }
  rewrite condition_payload_fields. cbn [c_path c_mode c_value_text c_invert c_pass_missing_key].
  change (field $"path" fs) with (VStr (trim (c_path c))).
  change (field $"mode" fs) with (VStr (if nonempty (c_mode c) then c_mode c else $"full")).
  change (field $"value" fs) with (parseLooseValue (c_value_text c)). rewrite Hm.
  assert (Hi : eq_bool (field $"invert" fs) true = c_invert c).
  { change (field $"invert" fs) with (match when (c_invert c) (VBool true) with Some v => v | None => VUndef end). by destruct (c_invert c). }
  assert (Hp : eq_bool (field $"pass_missing_key" fs) true = c_pass_missing_key c).
  { change (field $"pass_missing_key" fs) with (match when (c_pass_missing_key c) (VBool true) with Some v => v | None => VUndef end).
    by destruct (c_pass_missing_key c). }
  cbn [string_or_empty mode_or]. rewrite Hmem, trim_idem, En, Hi, Hp. do 3 f_equal.
  subst fs. unfold condition_fields. cbn [c_path c_mode c_value_text c_invert c_pass_missing_key].
  fold (shown_value (c_value_text c)). by rewrite trim_idem, Hm, loose_stable.
Qed.

Lemma conditions_read cs s :
  Forall condition_ok cs ->
  exists cs' s', map_seed (normalizeCondition clock) (omap buildConditionPayload cs) s = Ret (cs', s')
    /\ omap buildConditionPayload cs' = omap buildConditionPayload cs.
Proof using.
  revert s. induction cs as [|c cs IH]; intros s H; inversion_clear H as [|?? Hc Hcs]; [by exists [], s|].
  cbn [omap list_omap]. destruct (buildConditionPayload c) as [p|] eqn:Ep.
  - destruct (condition_reads c p s Hc Ep) as (c' & E & Ec'). destruct (IH (s + 1) Hcs) as (cs' & s' & Es & E').
    exists (c' :: cs'), s'. cbn [map_seed]. rewrite E. cbn [bind_outcome]. rewrite Es. cbn [bind_outcome omap list_omap].
    split; [done|]. rewrite Ec'. by f_equal.
  - by apply IH.
Qed.

(** The rule a stored rule is read into. *)
Definition read_back (o : operation) (i : jsstr) (cs : list cond) : operation :=
  let meta := meta_of (op_mode o) in
  Operation i (trim (description o))
    (if m_path meta || m_pathOptional meta then trim (path o) else [])
    (op_mode o) (if m_value meta then shown_value (value_text o) else []) (m_keepOrigin meta && keep_origin o)
    (if m_from meta then trim (from o) else []) (trim (to o))
    (match condition_payloads o with [] => $"OR" | _ => if logic o =s? $"AND" then $"AND" else $"OR" end) cs.

Lemma from_value_valid o :
  mode_consistent (op_mode o) = true -> valid o ->
  from_value o = if m_from (meta_of (op_mode o)) then trim (from o) else [].
Proof using.
  intros Hm Hv. unfold from_value. cbn zeta. apply consistent_spec in Hm as (_ & _ & _ & C & _).
  pose proof (valid_from o Hv) as Hf. destruct (m_from (meta_of (op_mode o))) eqn:E.
  - rewrite Hf by done. by destruct (m_pathAlias _).
  - destruct (m_pathAlias _); [|done]. destruct C; congruence.
Qed.

Lemma to_value_valid o :
  mode_consistent (op_mode o) = true -> valid o -> to_value o = trim (to o).
Proof using.
  intros Hm Hv. unfold to_value. cbn zeta. apply consistent_spec in Hm as (_ & _ & _ & C & _).
  pose proof (valid_to o Hv) as Hf. destruct (m_to (meta_of (op_mode o))) eqn:E.
  - rewrite Hf by done. by destruct (m_pathAlias _).
  - destruct (m_pathAlias _); [|done]. destruct C; congruence.
Qed.

Definition opt_field (v : option val) : val := default VUndef v.

Definition some_payload (o : operation) : bool := match condition_payloads o with [] => false | _ => true end.

Lemma when_text b (t : jsstr) : string_or_empty (opt_field (when b (VStr t))) = if b then t else [].
Proof using. by destruct b. Qed.

Lemma when_nonempty (t : jsstr) : (if nonempty t then t else []) = t.
Proof using. by destruct t. Qed.

Lemma read_mode m l d : mem m l = true -> mode_or l (VStr m) d = m.
Proof using. intros H. cbn [mode_or]. by rewrite H. Qed.

Lemma read_keep b : eq_bool (opt_field (when b (VBool true))) true = b.
Proof using. by destruct b. Qed.

Lemma read_value b t :
  toValueText (opt_field (when b (parseLooseValue t))) = if b then shown_value t else [].
Proof using. by destruct b. Qed.

Lemma read_logic o :
  (if upper_is (opt_field (when (some_payload o) (VStr (if logic o =s? $"AND" then $"AND" else $"OR")))) $"OR" $"AND"
   then $"AND" else $"OR")
  = match condition_payloads o with [] => $"OR" | _ => if logic o =s? $"AND" then $"AND" else $"OR" end.
Proof using. unfold some_payload. destruct (condition_payloads o); [by vm_compute|]. by destruct (logic o =s? $"AND"); vm_compute. Qed.

Lemma operation_reads o s :
  operation_ok o -> valid o ->
  exists cs s', normalizeOperation clock (buildOperation o) s = Ret (read_back o (nextLocalId clock s).1 cs, s')
    /\ omap buildConditionPayload cs = condition_payloads o.
Proof using.
  intros Hok Hv. pose proof (operation_mode o Hok) as (_ & _ & Em). destruct Hok as (Hm & _ & _ & _ & _ & _ & Hcs).
  pose proof (modes_consistent _ Hm) as Hc. rewrite <- Em in Hc, Hm.
  destruct (conditions_read (conditions o) (s + 1) Hcs) as (cs & s' & E & Ecs). fold (condition_payloads o) in E, Ecs.
  rewrite operation_payload_fields. unfold normalizeOperation, nextLocalId. cbv iota.
  rewrite !get_present by apply operation_plain. set (fs := operation_fields o).
  assert (Ec : match field $"conditions" fs with
               | VArr l => map_seed (normalizeCondition clock) l (s + 1) | _ => Ret ([], s + 1) end = Ret (cs, s')).
  { change (field $"conditions" fs) with (opt_field (when (some_payload o) (VArr (condition_payloads o)))).
    revert E. unfold some_payload. by destruct (condition_payloads o). }
  exists cs, s'. rewrite Ec. cbn [bind_outcome]. split; [|done].
  change (field $"mode" fs) with (VStr (op_mode o)).
  change (field $"description" fs) with (opt_field (when (nonempty (trim (description o))) (VStr (trim (description o))))).
  change (field $"path" fs) with (opt_field (when (m_path (meta_of (op_mode o))
    || (m_pathOptional (meta_of (op_mode o)) && nonempty (trim (path o)))) (VStr (trim (path o))))).
  change (field $"value" fs) with (opt_field (when (m_value (meta_of (op_mode o))) (parseLooseValue (value_text o)))).
  change (field $"keep_origin" fs) with (opt_field (when (m_keepOrigin (meta_of (op_mode o)) && keep_origin o) (VBool true))).
  change (field $"from" fs) with (opt_field (when (m_from (meta_of (op_mode o)) || nonempty (from_value o)) (VStr (from_value o)))).
  change (field $"to" fs) with (opt_field (when (m_to (meta_of (op_mode o)) || nonempty (to_value o)) (VStr (to_value o)))).
  change (field $"logic" fs) with (opt_field (when (some_payload o) (VStr (if logic o =s? $"AND" then $"AND" else $"OR")))).
  clearbody fs. rewrite !when_text, !when_nonempty, read_mode, read_logic, read_keep, read_value by done.
  rewrite from_value_valid, to_value_valid by done. unfold read_back. cbn zeta. do 3 f_equal.
  - by destruct (m_path _), (m_pathOptional _), (trim (path o)).
  - destruct (m_from _); [done|]. done.
  - by destruct (m_to _), (trim (to o)).
Qed.

End Reading.

Lemma read_back_mode o i cs : nonempty (mode o) = true -> op_mode (read_back o i cs) = op_mode o.
Proof. intros H. unfold read_back. cbn zeta. unfold op_mode at 1. cbn [mode]. unfold op_mode. by rewrite !H. Qed.

(** The checks of a value, by what they look at. *)
Lemma shown_checks t :
  value_ok t ->
  return_error_complaint (trim (shown_value t)) = return_error_complaint (trim t)
  /\ prune_complaint (trim (shown_value t)) = prune_complaint (trim t)
  /\ pass_headers_complaint (trim (shown_value t)) = pass_headers_complaint (trim t).
Proof.
  intros (Hn & Ho & Hl)%shown_same. split; [by rewrite !return_error_by_object, Hn, Ho|].
  split; [by apply prune_by_object|]. unfold pass_headers_complaint. by rewrite Hn, Hl.
Qed.

Lemma read_back_valid o i cs : operation_ok o -> valid o -> valid (read_back o i cs).
Proof.
  intros Hok Hv. pose proof (operation_mode o Hok) as (Hne & _ & Em).
  destruct Hok as (Hm & _ & _ & _ & _ & Ht & _). apply modes_consistent in Hm. rewrite <- Em in Hm.
  destruct (shown_same _ Ht) as [Hn _]. destruct (shown_checks _ Ht) as (H1 & H2 & H3).
  pose proof (read_back_mode o i cs Hne) as E. apply consistent_spec in Hm as (_ & _ & C1 & _ & C2 & _).
  destruct Hv as [V1 V2 V3 V4 V5 V6 V7].
  split; rewrite E; intros Hr; unfold read_back; cbn [path from to value_text].
  - rewrite Hr. cbn [orb]. by rewrite trim_idem, V1.
  - by rewrite Hr, trim_idem, V2.
  - by rewrite trim_idem, V3.
  - replace (m_value _) with true by (symmetry; auto). by rewrite Hn, V4.
  - replace (m_value _) with true by (symmetry; apply C2; by rewrite Hr). by rewrite H1, V5.
  - replace (m_value _) with true by (symmetry; apply C2; by rewrite Hr, orb_true_r). by rewrite H2, V6.
  - replace (m_value _) with true by (symmetry; apply C2; by rewrite Hr, !orb_true_r). by rewrite H3, V7.
Qed.

Lemma read_back_payload o i cs :
  operation_ok o -> valid o -> omap buildConditionPayload cs = condition_payloads o ->
  buildOperation (read_back o i cs) = buildOperation o.
Proof.
  intros Hok Hv Hcs. pose proof (read_back_valid o i cs Hok Hv) as Hv'. pose proof (operation_mode o Hok) as (Hne & _ & Em).
  destruct Hok as (Hm & _ & _ & _ & _ & Ht & _). apply modes_consistent in Hm. rewrite <- Em in Hm.
  pose proof (read_back_mode o i cs Hne) as E. set (o' := read_back o i cs) in *.
  assert (Hc : condition_payloads o' = condition_payloads o) by done.
  rewrite !operation_payload_fields. do 2 f_equal. unfold operation_fields. cbn zeta.
  rewrite !from_value_valid, !to_value_valid, E, Hc by (by rewrite ?E).
  subst o'. unfold read_back. cbn [description path value_text keep_origin from to logic conditions]. rewrite !trim_idem.
  repeat match goal with |- _ :: _ = _ :: _ => f_equal end.
  - destruct (m_path _); cbn [orb]; [by rewrite trim_idem|]. by destruct (m_pathOptional _); cbn [andb]; rewrite ?trim_idem.
  - destruct (m_value _); [|done]. by rewrite loose_stable.
  - by destruct (m_keepOrigin _).
  - destruct (m_from _); [|done]. by rewrite trim_idem.
  - destruct (condition_payloads o); [done|]. by destruct (logic o =s? $"AND"); vm_compute.
Qed.

Lemma operation_payload_wf o : operation_ok o -> valid o -> json_wf (buildOperation o).
Proof.
  intros Hok Hv. pose proof (operation_mode o Hok) as (_ & Hmu & Em).
  destruct Hok as (Hm & Hd & Hp & Hf & Ht & Hval & Hcs). apply modes_consistent in Hm. rewrite <- Em in Hm, Hmu.
  rewrite operation_payload_fields. apply present_wf; [apply operation_plain|].
  assert (Hw : forall b (v : val), json_wf v -> match when b v with Some v => json_wf v | None => True end) by (by intros []).
  assert (Hpl : Forall json_wf (condition_payloads o)).
  { unfold condition_payloads. clear -Hcs. induction Hcs as [|c cs Hc _ IH]; [constructor|]. cbn [omap list_omap].
    destruct (buildConditionPayload c) as [p|] eqn:E; [|done]. constructor; [by eapply condition_payload_wf|done]. }
  unfold operation_fields. cbn zeta. rewrite from_value_valid, to_value_valid by done.
  repeat (constructor; [first [exact Hmu|apply Hw; cbn [snd]]|]); try constructor.
  - by apply trim_units.
  - by apply trim_units.
  - by apply loose_wf.
  - destruct (m_from _); [by apply trim_units|apply blank_units].
  - by apply trim_units.
  - by apply json_wf_arr.
  - destruct (logic o =s? $"AND"); by apply unit16_check; vm_compute.
Qed.

(** ** The whole text *)

Definition sound (o : operation) : Prop := operation_ok o /\ valid o.

Lemma validate_sound k l :
  Forall operation_ok l -> validate_from k l = None -> Forall sound l.
Proof.
  revert k. induction l as [|o l IH]; intros k H; inversion_clear H as [|?? Ho Hl]; [constructor|]. cbn [validate_from].
  destruct (operation_complaint o) eqn:E; [done|]. intros Hr. constructor; [|by eapply IH]. split; [done|].
  apply complaint_valid; [|done]. pose proof (operation_mode o Ho) as (_ & _ & ->). apply modes_consistent. by destruct Ho.
Qed.

Lemma operations_text_spec l :
  Forall sound l -> exists text c t,
    stringify2 (VObj [($"operations", VArr (map buildOperation l))]) = Some text
    /\ operations_text l = text /\ text = c :: t /\ trim text = text
    /\ parse text = Some (VObj [($"operations", VArr (map buildOperation l))]).
Proof.
  intros Hl. set (v := VObj _).
  assert (Hw : json_wf v).
  { apply (json_wf_plain [$"operations"]); [by vm_compute|done|]. constructor; [|constructor]. apply json_wf_arr, Forall_map.
    eapply Forall_impl; [exact Hl|]. intros o [Ho Hv]. by apply operation_payload_wf. }
  destruct (ser_Some [32; 32] [] v Hw) as [text E]. destruct (ser_head _ _ _ _ Hw E) as (c & t & Ec & _).
  exists text, c, t. split; [done|]. split; [unfold operations_text, stringify2; fold v; by rewrite E|]. split; [done|].
  split; [by eapply trim_id, ser_edges|by apply parse_stringify2].
Qed.

Lemma nonblank_consistent l :
  Forall (fun o => mode_consistent (op_mode o) = true /\ valid o) l -> nonblank l = l /\ forall k, validate_from k l = None.
Proof.
  induction 1 as [|o l [Hm Hv] _ [IH1 IH2]]; [done|]. unfold nonblank in *. cbn [List.filter validate_from].
  rewrite valid_nonblank by done. cbn [negb]. rewrite IH1. split; [done|]. intros k.
  by rewrite (proj2 (complaint_valid o Hm) Hv).
Qed.

Section Reopen.
Variable clock : Z -> Z.

Lemma operations_read l s :
  Forall sound l -> exists l' s',
    map_seed (normalizeOperation clock) (map buildOperation l) s = Ret (l', s')
    /\ map buildOperation l' = map buildOperation l
    /\ Forall (fun o => mode_consistent (op_mode o) = true /\ valid o) l'.
Proof using.
  revert s. induction l as [|o l IH]; intros s H; inversion_clear H as [|?? [Ho Hv] Hl]; [by exists [], s|].
  destruct (operation_reads clock o s Ho Hv) as (cs & s1 & E & Ec). destruct (IH s1 Hl) as (l' & s' & El & Em & Hf).
  exists (read_back o (nextLocalId clock s).1 cs :: l'), s'. cbn [map map_seed]. rewrite E. cbn [bind_outcome].
  rewrite El. cbn [bind_outcome]. split; [done|]. split; [rewrite Em; f_equal; by apply read_back_payload|].
  constructor; [|done]. split; [|by apply read_back_valid]. pose proof (operation_mode o Ho) as (Hn & _ & Eo).
  rewrite read_back_mode, Eo by done. apply modes_consistent. by destruct Ho.
Qed.

(** C2: saving the visual editor with at least one rule that is not blank and opening the
    modal on the saved text gives an editor that stores the same rules and saves the same
    text: no rule, condition, value or flag is lost or changed by a round trip through the
    stored setting. The rules and conditions have modes of the lists, and every value text,
    with no white space around it but that of JSON, is no JSON, or JSON that is not a
    string, or a JSON string whose content is trimmed, not empty and no JSON itself
    ([operation_ok], [value_ok]): the other JSON strings come back with another type,
    [string_value_retyped]. *)
Theorem save_reopen_same e e0 text :
  editMode e = VisualEdit -> visualMode e = Operations -> Forall operation_ok (operations e) ->
  handleSave e = inl text -> text <> [] ->
  exists e', open_modal clock (VStr text) e0 = Ret e' /\ editMode e' = VisualEdit /\ visualMode e' = Operations
    /\ map buildOperation (operations e') = map buildOperation (nonblank (operations e)) /\ handleSave e' = inl text.
Proof using.
  intros Hm Hv Hok Hsave Hne. unfold handleSave in Hsave. rewrite Hm in Hsave. unfold buildVisualJson in Hsave. rewrite Hv in Hsave.
  unfold buildOperationsJson in Hsave. assert (Hok' : Forall operation_ok (nonblank (operations e))) by (by apply Forall_lfilter).
  destruct (nonblank (operations e)) as [|o l] eqn:En; [by injection Hsave as <-|]. rewrite <- En in *.
  destruct (validateOperations _) as [[k c]|] eqn:Ev; [done|]. injection Hsave as <-.
  apply (validate_sound 1) in Ev; [|done]. set (ops := nonblank (operations e)) in *.
  destruct (operations_text_spec ops Ev) as (text & c & t & Es & Et & Ec & Htr & Hp).
  destruct (operations_read ops (seed e0) Ev) as (l' & s' & El & Em & Hf). destruct (nonblank_consistent l' Hf) as [Hnb Hval].
  assert (Hld : load_ops clock (map buildOperation ops) (seed e0) = Ret (l', s')).
  { unfold load_ops. rewrite En in *. exact El. }
  rewrite Et in *. unfold open_modal, parseInitialState. cbn [string_or_empty]. rewrite Htr.
  destruct (default_ops clock (seed e0)) as [d s1]. replace (nonempty text) with true by (by rewrite Ec). cbn [negb].
  rewrite Hp. cbn [prop]. replace ($"operations" =s? $"operations") with true by (by vm_compute). rewrite Hld.
  cbn [bind_outcome]. eexists. split; [reflexivity|]. split; [done|]. split; [done|]. split; [exact Em|].
  unfold handleSave, buildVisualJson. cbn [editMode visualMode operations l_editMode l_visualMode l_operations].
  unfold buildOperationsJson. rewrite Hnb. destruct l' as [|o' l']; [by rewrite En in Em|].
  unfold validateOperations. rewrite Hval. unfold operations_text. rewrite Em. by rewrite Es.
Qed.

End Reopen.

(** ** Drafts of return_error *)

Definition status_ok (n : num) : bool :=
  bool_decide (default_status n = n) && isFinite n && bool_decide (jnum (String_num n) = Some (n, [])).

Lemma statuses_ok k : 100 <= k <= 599 -> status_ok (of_Z k) = true.
Proof.
  intros Hk. assert (H : forallb (fun i => status_ok (of_Z (100 + Z.of_nat i))) (seq 0 500) = true) by (by vm_compute).
  rewrite forallb_forall in H. specialize (H (Z.to_nat (k - 100))). replace (100 + Z.of_nat (Z.to_nat (k - 100))) with k in H by lia.
  apply H, in_seq. lia.
Qed.

Definition error_fields (d : error_draft) : list (jsstr * option val) :=
  [($"message", Some (VStr (trim (d_message d)))); ($"status_code", Some (VNum (default_status (d_statusCode d))));
   ($"code", when (nonempty (trim (d_code d))) (VStr (trim (d_code d))));
   ($"type", when (nonempty (trim (d_type d))) (VStr (trim (d_type d))));
   ($"skip_retry", when (negb (d_skipRetry d)) (VBool false))].

Lemma error_payload_fields d : error_payload d = present (error_fields d).
Proof.
  unfold error_fields, error_payload. rewrite !present_cons. cbn [app]. do 2 f_equal. unfold when.
  by destruct (nonempty (trim (d_code d))), (nonempty (trim (d_type d))), (d_skipRetry d).
Qed.

Lemma get_of_present k fs : plain_keys (map fst fs) = true -> get (VObj (present fs)) k = field k fs.
Proof. intros H. by rewrite <- get_present. Qed.

Lemma text_or_blank_trim t : text_or_blank (VStr (trim t)) = trim t.
Proof. unfold text_or_blank. cbn [truthy String_val]. rewrite when_nonempty. apply trim_idem. Qed.

(** A detailed error draft survives being written to the value text and read again. *)
Theorem error_draft_roundtrip d k :
  d_simpleMode d = false -> d_statusCode d = of_Z k -> 100 <= k <= 599 ->
  Forall unit16 (d_message d) -> Forall unit16 (d_code d) -> Forall unit16 (d_type d) ->
  parseReturnErrorDraft (buildReturnErrorValueText d)
  = ErrorDraft (trim (d_message d)) (of_Z k) (trim (d_code d)) (trim (d_type d)) (d_skipRetry d) false.
Proof.
  intros Hs Hk Hr Hm Hc Ht. unfold buildReturnErrorValueText. rewrite Hs. pose proof (statuses_ok k Hr) as Hst.
  unfold status_ok in Hst. apply andb_true_iff in Hst as [[Hd%bool_decide_eq_true Hf]%andb_true_iff Hj%bool_decide_eq_true].
  rewrite error_payload_fields. set (fs := error_fields d). assert (Hp : plain_keys (map fst fs) = true) by (by vm_compute).
  assert (Hw : json_wf (VObj (present fs))).
  { apply present_wf; [done|]. unfold fs, error_fields. rewrite Hk, Hd.
    constructor; [by apply trim_units|]. constructor; [by split|].
    constructor; [destruct (nonempty (trim (d_code d))); [by apply trim_units|done]|].
    constructor; [destruct (nonempty (trim (d_type d))); [by apply trim_units|done]|].
    constructor; [by destruct (d_skipRetry d)|constructor]. }
  destruct (ser_Some [] [] _ Hw) as [text E]. unfold stringify. rewrite E. cbn [from_option id].
  unfold parseReturnErrorDraft. rewrite (trim_id text) by (by eapply ser_edges).
  destruct (ser_head _ _ _ _ Hw E) as (c & tl & Ec & _). replace (nonempty text) with true by (by rewrite Ec). cbn [negb].
  rewrite (parse_stringify _ _ Hw E). unfold error_draft_of. rewrite !get_of_present by done.
  change (field $"message" fs) with (VStr (trim (d_message d))).
  change (field $"status_code" fs) with (VNum (default_status (d_statusCode d))).
  change (field $"msg" fs) with VUndef.
  change (field $"code" fs) with (opt_field (when (nonempty (trim (d_code d))) (VStr (trim (d_code d))))).
  change (field $"type" fs) with (opt_field (when (nonempty (trim (d_type d))) (VStr (trim (d_type d))))).
  change (field $"skip_retry" fs) with (opt_field (when (negb (d_skipRetry d)) (VBool false))).
  assert (Ho : forall t, text_or_blank (opt_field (when (nonempty (trim t)) (VStr (trim t)))) = trim t).
  { intros t. pose proof (text_or_blank_trim t) as H. by destruct (trim t). }
  rewrite !Ho, Hk, Hd. cbn [Number_val]. rewrite Hd. cbn [truthy]. pose proof (text_or_blank_trim (d_message d)) as H.
  destruct (trim (d_message d)); cbn [nonempty]; rewrite ?H; by destruct (d_skipRetry d).
Qed.

(** ** Instances *)

Lemma error_draft_roundtrip_witness :
  parseReturnErrorDraft (buildReturnErrorValueText (ErrorDraft $" no quota" (of_Z 429) $"quota" [] false false))
  = ErrorDraft $"no quota" (of_Z 429) $"quota" [] false false.
Proof.
  rewrite (error_draft_roundtrip (ErrorDraft $" no quota" (of_Z 429) $"quota" [] false false) 429);
    [by vm_compute|done|done|lia|apply unit16_check; by vm_compute..].
Defined.

Definition sample_clock : Z -> Z := fun _ => 1700000000000.

Definition sample_rules : list operation :=
  [Operation $"a" $"default" $" temperature" $"set" $"0.5" true [] [] $"AND"
     [Cond $"c" $"model" $"prefix" $"openai/" false true; Cond $"d" [] $"full" $"x" false false];
   Operation $"b" [] [] $"set" [] false [] [] $"OR" [];
   Operation $"e" [] $"ignored" $"copy_header" [] false $"X-A" $"X-B" $"OR" []].

Definition sample_editor : editor := set_ops sample_rules (mount sample_clock 0).

Lemma text_value_ok t : forallb (fun c => (0 <=? c) && (c <? 65536)) t = true -> parse (trim t) = None -> parse t = None -> value_ok t.
Proof. intros Hu Ht Hp. split; [by apply unit16_check|]. rewrite Hp. done. Qed.

Lemma sample_rules_ok : Forall operation_ok sample_rules.
Proof.
  assert (Hu : forall t, forallb (fun c => (0 <=? c) && (c <? 65536)) t = true -> Forall unit16 t) by apply unit16_check.
  assert (He : value_ok []) by (by apply text_value_ok; vm_compute).
  constructor; [|constructor; [|constructor; [|constructor]]].
  - split; [by vm_compute|]. do 4 (split; [by apply Hu; vm_compute|]). split.
    + split; [by apply Hu; vm_compute|]. split; [by vm_compute|]. vm_compute. by split.
    + constructor; [|constructor; [|constructor]].
      * split; [by vm_compute|]. split; [by apply Hu; vm_compute|]. by apply text_value_ok; vm_compute.
      * split; [by vm_compute|]. split; [by apply Hu; vm_compute|]. by apply text_value_ok; vm_compute.
  - split; [by vm_compute|]. do 4 (split; [by apply Hu; vm_compute|]). split; [done|constructor].
  - split; [by vm_compute|]. do 4 (split; [by apply Hu; vm_compute|]). split; [done|constructor].
Qed.

Definition sample_text : jsstr := match handleSave sample_editor with inl t => t | inr _ => [] end.

Lemma save_reopen_same_witness :
  handleSave sample_editor = inl sample_text /\ length (map buildOperation (nonblank sample_rules)) = 2%nat
  /\ exists e', open_modal sample_clock (VStr sample_text) (mount sample_clock 7) = Ret e' /\ handleSave e' = inl sample_text.
Proof.
  split; [by vm_compute|]. split; [by vm_compute|].
  destruct (save_reopen_same sample_clock sample_editor (mount sample_clock 7) sample_text) as (e' & E & _ & _ & _ & Hs);
    [done|done|exact sample_rules_ok|by vm_compute|by vm_compute|].
  exists e'. exact (conj E Hs).
Defined.

End ParamOverrideRoundtrip.
