(* ===== verification/TieredPricing.v ===== *)
(** * The visual editor of tiered prices

    [web/src/pages/Setting/Ratio/components/TieredPricingEditor.jsx] and
    [web/src/constants/billing.constants.js]: the visual configuration, the expression it is
    written as and the parser that reads it back, the editing of tiers and conditions, and the
    editor's modes and effects.  A tier is a record: its fields are set by the editor only, and
    the prices of the optional variables are properties that may be missing. *)
From S2P Require Import Prelude JSNum JSValue Regex RequestRuleExpr RequestRuleRoundtrip RequestRuleGroups.
#[local] Open Scope Z_scope.
#[local] Arguments js _ : simpl never.

Module TieredPricing.
Import RequestRuleExpr.

(** ** Data *)

(** BILLING_CACHE_VAR_MAP: the optional variables, with the field of a tier each prices. *)
Definition CACHE_VAR_MAP : list (jsstr * jsstr) :=
  [($"cache_read_unit_cost", $"cr"); ($"cache_create_unit_cost", $"cc"); ($"cache_create_1h_unit_cost", $"cc1h");
   ($"image_unit_cost", $"img"); ($"image_output_unit_cost", $"img_o"); ($"audio_input_unit_cost", $"ai");
   ($"audio_output_unit_cost", $"ao")].

Inductive cache_mode := Timed | Generic.

Record tcond := TCond { var : jsstr; op : jsstr; tvalue : val }.

Record tier := Tier {
  tconditions : list tcond; input_unit_cost : num; output_unit_cost : num; label : jsstr;
  cache : option cache_mode; costs : list (jsstr * num)
}.

(** [Number(x) || 0] *)
Definition or_zero (n : num) : num := if num_truthy n then n else n0.

Definition cost_of (field : jsstr) (t : tier) : num := or_zero (default n0 (prop field (costs t))).

Definition getTierCacheMode (t : tier) : cache_mode :=
  match cache t with
  | Some m => m
  | None => match prop $"cache_create_1h_unit_cost" (costs t) with
            | Some n => if nltb n0 n then Timed else Generic
            | None => Generic
            end
  end.

Definition normalizeVisualTier (t : tier) : tier :=
  Tier (tconditions t) (input_unit_cost t) (output_unit_cost t) (label t) (Some (getTierCacheMode t)) (costs t).

Definition createDefaultVisualConfig : list tier := [normalizeVisualTier (Tier [] n0 n0 $"base" (Some Generic) [])].

(** A configuration is the list of its tiers; [None] is null. *)
Definition normalizeVisualConfig (c : option (list tier)) : list tier :=
  match c with
  | None | Some [] => createDefaultVisualConfig
  | Some tiers => map normalizeVisualTier tiers
  end.

(** ** The expression of a configuration *)

Definition has_value (v : val) : bool := match v with VUndef | VNull => false | VStr s => nonempty s | _ => true end.

Definition cond_text (c : tcond) : jsstr := var c ++ $" " ++ op c ++ $" " ++ String_val (tvalue c).

Definition buildConditionStr (cs : list tcond) : jsstr :=
  join $" && "
    (map cond_text (List.filter (fun c => nonempty (var c) && nonempty (op c) && has_value (tvalue c)) cs)).

Definition cost_parts (t : tier) : list jsstr :=
  flat_map (fun '(field, v) =>
    if neqb (cost_of field t) n0 then [] else [v ++ $" * " ++ String_num (cost_of field t)]) CACHE_VAR_MAP.

Definition buildTierBodyExpr (t : tier) : jsstr :=
  join $" + " ([$"p * " ++ String_num (or_zero (input_unit_cost t));
                $"c * " ++ String_num (or_zero (output_unit_cost t))] ++ cost_parts t).

Definition tier_text (l : jsstr) (t : tier) : jsstr :=
  $"tier(" ++ [34] ++ l ++ [34] ++ $", " ++ buildTierBodyExpr t ++ $")".

Definition NO_PRICE : jsstr := $"p * 0 + c * 0".

Definition label_or (l d : jsstr) : jsstr := if nonempty l then l else d.

Fixpoint tier_parts (i : Z) (tiers : list tier) : list jsstr :=
  match tiers with
  | [] => []
  | t :: r =>
    let body := tier_text (label_or (label t) ($"第" ++ Z_to_str (i + 1) ++ $"档")) t in
    let cond := buildConditionStr (tconditions t) in
    (match r with
     | [] => body
     | _ => if nonempty cond then cond ++ $" ? " ++ body else body
     end) :: tier_parts (i + 1) r
  end.

Definition generateExprFromVisualConfig (c : option (list tier)) : jsstr :=
  match c with
  | None | Some [] => NO_PRICE
  | Some [t] =>
    let body := tier_text (label_or (label t) $"default") t in
    let cond := buildConditionStr (tconditions t) in
    if nonempty cond then cond ++ $" ? " ++ body ++ $" : " ++ NO_PRICE else body
  | Some tiers => join $" : " (tier_parts 0 tiers)
  end.

(** ** Patterns *)

(** [\s*] *)
Definition ws : re := Star (Chr is_ws).

(** [[\d.eE+]] *)
Definition condchar (c : Z) : bool := is_digit c || in_set $".eE+" c.

(** [p\s*\*\s*([\d.eE+-]+)] and the same for the other variables *)
Definition re_term (v : jsstr) (n : Z) : re :=
  (Lit_units v ++ ws ++ Ch 42 ++ ws ++ Grp n (Plus (Chr numchar)))%re.

(** [(?:\s*\+\s*v\s*\*\s*([\d.eE+-]+))?] *)
Definition re_opt_term (v : jsstr) (n : Z) : re := Opt (ws ++ Ch 43 ++ ws ++ re_term v n)%re.

Fixpoint re_opt_terms (l : list (jsstr * jsstr)) (n : Z) : re :=
  match l with
  | [] => Eps
  | (_, v) :: r => (re_opt_term v n ++ re_opt_terms r (n + 1))%re
  end.

(** The body of a tier; its groups are numbered from [n]. *)
Definition re_body (n : Z) : re :=
  (re_term $"p" n ++ ws ++ Ch 43 ++ ws ++ re_term $"c" (n + 1) ++ re_opt_terms CACHE_VAR_MAP (n + 2))%re.

(** A tier; its label is group [n]. *)
Definition re_tier (n : Z) : re :=
  (Lit "tier(" ++ Ch 34 ++ Grp n (Star (Chr not_dquote)) ++ Ch 34 ++ Ch 44 ++ ws ++ re_body (n + 1) ++ Ch 41)%re.

Definition re_var : re := (Lit "p" || Lit "c" || Lit "len")%re.
Definition re_op : re := (Lit "<" || Lit "<=" || Lit ">" || Lit ">=")%re.
Definition re_cond : re := (re_var ++ ws ++ re_op ++ ws ++ Plus (Chr condchar))%re.
Definition re_conds : re := Grp 1 (re_cond ++ Star (ws ++ Ch 38 ++ Ch 38 ++ ws ++ re_cond))%re.
Definition re_tiers : re := (Opt (re_conds ++ ws ++ Ch 63 ++ ws) ++ re_tier 2)%re.

(** One condition, in groups. *)
Definition re_one_cond : re := (Grp 1 re_var ++ ws ++ Grp 2 re_op ++ ws ++ Grp 3 (Plus (Chr condchar)))%re.
Definition re_and : re := (ws ++ Ch 38 ++ Ch 38 ++ ws)%re.
Definition re_version : re := (Ch 118 ++ Plus (Chr is_digit) ++ Ch 58 ++ Grp 1 (Star (Chr any)))%re.

(** The first match from the left: what follows it, and its groups. *)
Fixpoint find_match (r : re) (s : jsstr) : option (jsstr * captures) :=
  match run r (s, []) with
  | st :: _ => Some st
  | [] => match s with [] => None | _ :: s' => find_match r s' end
  end.

(** The loop over [exec] with the g flag; a match consumes at least one character here. *)
Fixpoint find_all (r : re) (fuel : nat) (s : jsstr) : list captures :=
  match fuel with
  | O => []
  | S f => match find_match r s with
           | Some (rest, cs) => cs :: find_all r f rest
           | None => []
           end
  end.

(** [s.split(re)] for a pattern that does not match the empty text. *)
Fixpoint split_re (r : re) (skip : nat) (cur s : jsstr) : list jsstr :=
  match s with
  | [] => [rev cur]
  | c :: s' =>
    match skip with
    | S k => split_re r k cur s'
    | O => match run r (s, []) with
           | (rest, _) :: _ => rev cur :: split_re r (length s - length rest - 1) [] s'
           | [] => split_re r 0 (c :: cur) s'
           end
    end
  end.

(** ** Reading an expression *)

Definition parse_cond (cp : jsstr) : list tcond :=
  match exec re_one_cond (trim cp) with
  | Some cs => [TCond (cap 1 cs) (cap 2 cs) (VNum (Number_str (cap 3 cs)))]
  | None => []
  end.

Definition parse_conds (condStr : jsstr) : list tcond :=
  if nonempty condStr then flat_map parse_cond (split_re re_and 0 [] condStr) else [].

(** The prices of the optional variables, captured from group [n] on. *)
Fixpoint parse_costs (l : list (jsstr * jsstr)) (n : Z) (cs : captures) : list (jsstr * num) :=
  match l with
  | [] => []
  | (field, _) :: r =>
    match capture n cs with
    | Some w => [(field, Number_str w)]
    | None => []
    end ++ parse_costs r (n + 1) cs
  end.

(** The tier whose label is group [n]. *)
Definition parse_tier (conds : list tcond) (n : Z) (cs : captures) : tier :=
  normalizeVisualTier
    (Tier conds (Number_str (cap (n + 1) cs)) (Number_str (cap (n + 2) cs)) (cap n cs) None
       (parse_costs CACHE_VAR_MAP (n + 3) cs)).

Definition strip_ws (s : jsstr) : jsstr := List.filter (fun c => negb (is_ws c)) s.

Definition tryParseVisualConfig (expr : jsstr) : option (list tier) :=
  if negb (nonempty expr) then None else
  let expr := match exec re_version expr with Some cs => cap 1 cs | None => expr end in
  match exec (re_tier 1) expr with
  | Some cs => Some (normalizeVisualConfig (Some [parse_tier [] 1 cs]))
  | None =>
    match map (fun cs => parse_tier (parse_conds (cap 1 cs)) 2 cs) (find_all re_tiers (length expr) expr) with
    | [] => None
    | tiers =>
      let cfg := normalizeVisualConfig (Some tiers) in
      if strip_ws (generateExprFromVisualConfig (Some cfg)) =s? strip_ws expr then Some cfg else None
    end
  end.

(** The presets of the editor are read as configurations. *)
Definition tier_sample : jsstr :=
  $"len <= 200000 && c < 5 ? tier(" ++ [34] ++ $"standard" ++ [34] ++ $", p * 3 + c * 15 + cr * 0.3 + cc1h * 6) : tier("
  ++ [34] ++ $"long" ++ [34] ++ $", p * 6 + c * 22.5)".

End TieredPricing.
