(* ===== verification/TieredRoundtrip.v ===== *)
(** * Visual tiers are read back from the expression they are written as

    The patterns of [TieredPricing] on generated texts.  [first r st st'] says that the
    engine's first answer is [st']; where a greedy choice is the right one the parts of a
    pattern compose, and elsewhere the refused choices are shown to fail. *)
From S2P Require Import Prelude JSNum JSValue Regex RequestRuleExpr RequestRuleRoundtrip RequestRuleGroups TieredPricing.
#[local] Open Scope Z_scope.
#[local] Arguments js _ : simpl never.

Module TieredRoundtrip.
Import RequestRuleExpr RequestRuleRoundtrip RequestRuleGroups TieredPricing.

(** ** First answers *)

Definition first (r : re) (st st' : mstate) : Prop := exists l, run r st = st' :: l.
Definition fails (r : re) (st : mstate) : Prop := run r st = [].

Lemma flat_map_head {A B} (f : A -> list B) pre x post y l :
  Forall (fun z => f z = []) pre -> f x = y :: l -> exists l', flat_map f (pre ++ x :: post) = y :: l'.
Proof.
  intros Hp Hx. induction Hp as [|z pre Hz _ IH]; cbn [app flat_map]; [rewrite Hx; by eexists|].
  rewrite Hz. exact IH.
Qed.

Lemma first_seq_after a b st pre st1 post st2 :
  run a st = pre ++ st1 :: post -> Forall (fails b) pre -> first b st1 st2 -> first (Seq a b) st st2.
Proof. intros E Hp [l Hl]. unfold first. cbn [run]. rewrite E. by eapply flat_map_head. Qed.

Lemma first_seq a b st st1 st2 : first a st st1 -> first b st1 st2 -> first (Seq a b) st st2.
Proof. intros [l E]. by apply (first_seq_after a b st [] st1 l). Qed.

Lemma first_alt_l a b st st' : first a st st' -> first (Alt a b) st st'.
Proof. intros [l E]. unfold first. cbn [run]. rewrite E. by eexists. Qed.

Lemma first_alt_r a b st st' : fails a st -> first b st st' -> first (Alt a b) st st'.
Proof. unfold fails, first. cbn [run]. intros ->. done. Qed.

Lemma first_eps st : first Eps st st.
Proof. by exists []. Qed.

Lemma first_eos cs : first Eos ([], cs) ([], cs).
Proof. by exists []. Qed.

Lemma first_ch c s cs : first (Ch c) (c :: s, cs) (s, cs).
Proof. exists []. unfold Ch. cbn. by rewrite Z.eqb_refl. Qed.

Lemma first_lit_units w s cs : first (Lit_units w) (w ++ s, cs) (s, cs).
Proof.
  induction w as [|c w IH]; cbn [Lit_units app]; [apply first_eps|]. eapply first_seq; [apply first_ch|exact IH].
Qed.

Lemma first_lit w s cs : first (Lit w) (js w ++ s, cs) (s, cs).
Proof. apply first_lit_units. Qed.

Lemma take_prefix (w r : jsstr) : take (length (w ++ r) - length r) (w ++ r) = w.
Proof. rewrite length_app. replace (length w + length r - length r)%nat with (length w) by lia. apply take_app_length. Qed.

Lemma first_grp n a w r cs cs1 : first a (w ++ r, cs) (r, cs1) -> first (Grp n a) (w ++ r, cs) (r, (n, w) :: cs1).
Proof.
  intros [l E]. unfold first. cbn [run]. rewrite E. cbn [map fst snd]. eexists. f_equal. f_equal. f_equal. f_equal.
  apply take_prefix.
Qed.

(** What stops a run of a class. *)
Definition stops (p : Z -> bool) (s : jsstr) : Prop := match s with [] => True | c :: _ => p c = false end.

Lemma first_star_chr p w s cs : forallb p w = true -> stops p s -> first (Star (Chr p)) (w ++ s, cs) (s, cs).
Proof.
  intros Hw Hs. unfold first. cbn [run fst].
  assert (H : forall n, (length (w ++ s) <= n)%nat -> exists l, iterate (run (Chr p)) n (w ++ s, cs) = (s, cs) :: l).
  { revert Hw. induction w as [|c w IH]; intros Hw n Hn; cbn [app] in *.
    - destruct n as [|n]; [by eexists|]. cbn [iterate].
      assert (run (Chr p) (s, cs) = []) as -> by (destruct s; cbn; [done|]; cbn in Hs; by rewrite Hs). by eexists.
    - destruct n as [|n]; [cbn in Hn; lia|]. cbn in Hw. bsplit. cbn [iterate].
      assert (run (Chr p) (c :: w ++ s, cs) = [(w ++ s, cs)]) as -> by (cbn; by rewrite H). cbn [flat_map fst].
      destruct (Nat.ltb_spec (length (w ++ s)) (length (c :: w ++ s))); [|cbn in *; lia].
      destruct (IH ltac:(done) n ltac:(cbn in Hn; lia)) as [l ->]. rewrite app_nil_r. by eexists. }
  apply H. done.
Qed.

Lemma first_plus_chr p w s cs :
  w <> [] -> forallb p w = true -> stops p s -> first (Plus (Chr p)) (w ++ s, cs) (s, cs).
Proof.
  intros Hn Hw Hs. destruct w as [|c w]; [done|]. cbn in Hw. bsplit. unfold Plus. eapply first_seq; [|by apply first_star_chr].
  exists []. cbn. by rewrite H.
Qed.

(** One space, and none. *)
Lemma first_ws1 s cs : stops is_ws s -> first ws (32 :: s, cs) (s, cs).
Proof. intros H. by apply (first_star_chr is_ws [32]). Qed.
Lemma first_ws0 s cs : stops is_ws s -> first ws (s, cs) (s, cs).
Proof. intros H. by apply (first_star_chr is_ws []). Qed.

(** A repetition whose iterations are first answers. *)
Inductive chain (a : re) : mstate -> mstate -> Prop :=
| chain_stop st : fails a st -> chain a st st
| chain_next st st1 st' : first a st st1 -> (length st1.1 < length st.1)%nat -> chain a st1 st' -> chain a st st'.

Lemma first_star a st st' : chain a st st' -> first (Star a) st st'.
Proof.
  intros H. unfold first. cbn [run].
  assert (Hn : forall n, (length st.1 <= n)%nat -> exists l, iterate (run a) n st = st' :: l); [|by apply Hn].
  induction H as [st H|st st1 st' [l H] Hl _ IH]; intros n Hn.
  - destruct n as [|n]; cbn [iterate]; [by eexists|]. rewrite H. by eexists.
  - destruct n as [|n]; [lia|]. cbn [iterate]. rewrite H. cbn [flat_map].
    destruct (Nat.ltb_spec (length st1.1) (length st.1)); [|lia]. destruct (IH n ltac:(lia)) as [l' ->]. by eexists.
Qed.

(** ** Failures *)

Lemma fails_iff r st : fails r st <-> forall st', st' ∉ run r st.
Proof. unfold fails. destruct (run r st) as [|x l]; [split; [intros _ st'; apply not_elem_of_nil|done]|]. split; [done|]. intros H. destruct (H x). by left. Qed.

Lemma fails_seq_l a b st : fails a st -> fails (Seq a b) st.
Proof. unfold fails. cbn [run]. by intros ->. Qed.

Lemma fails_seq a b st : (forall st1, st1 ∈ run a st -> fails b st1) -> fails (Seq a b) st.
Proof.
  intros H. apply fails_iff. intros st' ([? ?] & H1 & H2)%run_seq. apply H in H1. rewrite H1 in H2. by apply elem_of_nil in H2.
Qed.

Lemma fails_alt a b st : fails a st -> fails b st -> fails (Alt a b) st.
Proof. unfold fails. cbn [run]. by intros -> ->. Qed.

Lemma fails_ch c s cs : match s with [] => True | x :: _ => x <> c end -> fails (Ch c) (s, cs).
Proof. unfold fails, Ch. cbn. destruct s as [|x s]; [done|]. intros H. destruct (Z.eqb_spec c x); [congruence|done]. Qed.

Lemma fails_lit_units c w s cs : match s with [] => True | x :: _ => x <> c end -> fails (Lit_units (c :: w)) (s, cs).
Proof. intros H. apply fails_seq_l. by apply fails_ch. Qed.

(** White space in front of another character is skipped in one way. *)
Lemma ws_det w s w' s' :
  forallb is_ws w = true -> forallb is_ws w' = true -> stops is_ws s -> stops is_ws s' -> s <> [] -> s' <> [] ->
  w ++ s = w' ++ s' -> w = w' /\ s = s'.
Proof.
  revert w'. induction w as [|c w IH]; intros [|c' w'] Hw Hw' Hs Hs' Hn Hn' E; cbn in *; bsplit; simplify_eq.
  - done.
  - cbn in Hs. congruence.
  - cbn in Hs'. congruence.
  - destruct (IH w') as [-> ->]; auto.
Qed.

(** Skipping white space and failing on what follows, for every amount skipped. *)
Lemma fails_ws b w s cs :
  forallb is_ws w = true -> s <> [] -> stops is_ws s ->
  (forall u r, w = u ++ r -> r <> [] -> fails b (r ++ s, cs)) -> fails b (s, cs) -> fails (Seq ws b) (w ++ s, cs).
Proof.
  intros Hw Hn Hs Hmid Hb. apply fails_seq. intros st1 (u & r & E & Hu & ->)%run_star_chr.
  assert (H : (exists r', r = r' ++ s /\ w = u ++ r')).
  { revert u Hu E. induction w as [|c w IH]; intros [|c' u] Hu E; cbn in *; bsplit; simplify_eq.
    - by exists [].
    - cbn in Hs. congruence.
    - by exists (c :: w).
    - destruct (IH ltac:(done) ltac:(intros u' r' -> Hr'; by apply (Hmid (c' :: u') r')) u) as (r' & -> & ->); [done|done|].
      by exists r'. }
  destruct H as (r' & -> & ->). destruct r' as [|x r']; [done|]. by apply (Hmid u).
Qed.

Lemma fails_ws1 b s cs :
  s <> [] -> stops is_ws s -> fails b (32 :: s, cs) -> fails b (s, cs) -> fails (Seq ws b) (32 :: s, cs).
Proof.
  intros Hn Hs H1 H2. apply (fails_ws b [32]); [done|done|done| |done]. intros [|x u] r E Hr; cbn in E.
  - by subst r.
  - injection E as <- E. symmetry in E. by apply app_eq_nil in E as [_ ->].
Qed.

Lemma fails_ws0 b s cs : s <> [] -> stops is_ws s -> fails b (s, cs) -> fails (Seq ws b) (s, cs).
Proof.
  intros Hn Hs H. apply (fails_ws b []); [done|done|done| |done]. intros u r E Hr. symmetry in E. by apply app_eq_nil in E as [_ ->].
Qed.

(** ** Terms *)

(** The text of a number, and what may follow it. *)
Definition num_text (N : jsstr) : Prop := N <> [] /\ forallb numchar N = true.

Lemma numchar_not_ws c : numchar c = true -> is_ws c = false.
Proof. intros H. by destruct (numchar_facts c H). Qed.

Lemma num_text_stops N s : num_text N -> stops is_ws (N ++ s).
Proof. intros [Hn Hf]. destruct N as [|c N]; [done|]. cbn in *. bsplit. by apply numchar_not_ws. Qed.

Definition term_text (v N : jsstr) : jsstr := v ++ $" * " ++ N.

Lemma first_term v n N rest cs :
  num_text N -> stops numchar rest -> first (re_term v n) (term_text v N ++ rest, cs) (rest, (n, N) :: cs).
Proof.
  intros HN Hr. unfold term_text, re_term. rewrite <- !app_assoc. js_lit. cbn [app].
  eapply first_seq; [apply first_lit_units|]. eapply first_seq; [by apply first_ws1|]. eapply first_seq; [apply first_ch|].
  eapply first_seq; [apply first_ws1; by apply num_text_stops|]. apply first_grp. destruct HN. by apply first_plus_chr.
Qed.

Lemma first_opt_term v n N rest cs :
  stops is_ws v -> v <> [] -> num_text N -> stops numchar rest ->
  first (re_opt_term v n) ($" + " ++ term_text v N ++ rest, cs) (rest, (n, N) :: cs).
Proof.
  intros Hv Hn HN Hr. unfold re_opt_term, Opt. js_lit. cbn [app]. apply first_alt_l.
  eapply first_seq; [by apply first_ws1|]. eapply first_seq; [apply first_ch|].
  eapply first_seq; [apply first_ws1|by apply first_term]. unfold term_text. by destruct v.
Qed.

(** A variable that cannot be mistaken for the beginning of another: neither a prefix of it,
    or one that is followed by a character that is no space and no star. *)
Fixpoint distinct_var (v v' : jsstr) : bool :=
  match v, v' with
  | [], x :: _ => negb (is_ws x) && negb (x =? 42)
  | [], [] => false
  | _ :: _, [] => true
  | a :: r, b :: r' => if a =? b then distinct_var r r' else true
  end.

Lemma fails_term v v' n rest cs :
  distinct_var v v' = true -> forallb (fun c => negb (is_ws c)) v = true ->
  fails (re_term v n) (v' ++ $" * " ++ rest, cs).
Proof.
  intros Hd Hw. apply fails_iff. intros st' H. unfold re_term in H.
  apply run_seq in H as ([s1 c1] & (r1 & E & E1)%run_lit_units & H). injection E1 as -> ->.
  apply run_seq in H as ([s2 c2] & (w & r2 & -> & Hws & E2)%run_star_chr & H). injection E2 as -> ->.
  apply run_seq in H as ([s3 c3] & (r3 & -> & E3)%run_ch & _). clear E3. revert E Hd Hw. js_lit. cbn [app].
  revert v'. induction v as [|a v IH]; intros [|b v'] E Hd Hw; cbn [distinct_var app forallb] in *; bsplit.
  - done.
  - destruct w as [|x w]; cbn in E; simplify_eq; cbn in Hws; bsplit; congruence || done.
  - injection E as <- _. done.
  - injection E as <- E. rewrite Z.eqb_refl in Hd. by apply (IH v').
Qed.

Lemma fails_opt_body v n s cs :
  v <> [] -> forallb (fun c => negb (is_ws c)) v = true ->
  (exists v' rest, s = $" + " ++ v' ++ $" * " ++ rest /\ distinct_var v v' = true /\ stops is_ws v' /\ v' <> [])
  \/ (exists rest, s = 41 :: rest) ->
  fails (ws ++ Ch 43 ++ ws ++ re_term v n)%re (s, cs).
Proof.
  intros Hnv Hv [(v' & rest & -> & Hd & Hs & Hn)|(rest & ->)].
  - js_lit. cbn [app]. apply fails_ws1; [done|done|apply fails_seq_l; by apply fails_ch|].
    apply fails_seq. intros st1 (r & E & ->)%run_ch. injection E as <-.
    apply fails_ws1; [by destruct v'|by destruct v'| |].
    + apply fails_seq_l. destruct v as [|a v]; [done|]. cbn in Hv. bsplit. apply fails_lit_units. intros <-. discriminate.
    + pose proof (fails_term v v' n rest cs Hd Hv) as H. js_lit_in H. exact H.
  - apply fails_ws0; [done|done|]. apply fails_seq_l. by apply fails_ch.
Qed.

(** ** The optional prices *)

Definition cost_text (t : tier) (kv : jsstr * jsstr) : jsstr :=
  if neqb (cost_of kv.1 t) n0 then [] else $" + " ++ term_text kv.2 (String_num (cost_of kv.1 t)).

Definition costs_text (l : list (jsstr * jsstr)) (t : tier) : jsstr := flat_map (cost_text t) l.

Fixpoint cost_caps (l : list (jsstr * jsstr)) (n : Z) (t : tier) (cs : captures) : captures :=
  match l with
  | [] => cs
  | (f, _) :: r =>
    cost_caps r (n + 1) t (if neqb (cost_of f t) n0 then cs else (n, String_num (cost_of f t)) :: cs)
  end.

(** Names of variables: without white space, and none can be mistaken for a later one. *)
Definition var_name (v : jsstr) : bool := nonempty v && forallb (fun c => negb (is_ws c)) v.
Fixpoint vars_ok (l : list (jsstr * jsstr)) : bool :=
  match l with
  | [] => true
  | (_, v) :: r => var_name v && forallb (fun kv => distinct_var v kv.2) r && vars_ok r
  end.

Lemma var_name_facts v : var_name v = true -> v <> [] /\ stops is_ws v /\ forallb (fun c => negb (is_ws c)) v = true.
Proof. unfold var_name. intros H. bsplit. destruct v as [|c v]; [done|]. split; [done|]. split; [|done]. cbn in *. by bsplit. Qed.

Lemma vars_ok_names l kv : vars_ok l = true -> In kv l -> var_name kv.2 = true.
Proof.
  induction l as [|[f v] l IH]; cbn; [done|]. intros H [<-|Hin]; bsplit; [done|auto].
Qed.

Lemma costs_text_shape l t :
  costs_text l t = [] \/ exists kv rest, In kv l /\ costs_text l t = $" + " ++ kv.2 ++ $" * " ++ rest.
Proof.
  unfold costs_text. induction l as [|kv l IH]; cbn [flat_map]; [by left|].
  unfold cost_text at 1 3. destruct (neqb _ _); cbn [app].
  - destruct IH as [->|(kv' & rest & Hin & ->)]; [by left|]. right. exists kv', rest. split; [by right|done].
  - right. exists kv. eexists. split; [by left|]. unfold term_text. rewrite <- !app_assoc. reflexivity.
Qed.

Lemma costs_text_stops l t rest : stops numchar (costs_text l t ++ 41 :: rest).
Proof.
  destruct (costs_text_shape l t) as [->|(kv & r & _ & ->)]; [done|]. js_lit. done.
Qed.

Definition prices_ok (t : tier) : Prop := forall f v, In (f, v) CACHE_VAR_MAP -> num_text (String_num (cost_of f t)).

Lemma first_costs l n t rest cs :
  vars_ok l = true -> (forall f v, In (f, v) l -> num_text (String_num (cost_of f t))) ->
  first (re_opt_terms l n) (costs_text l t ++ 41 :: rest, cs) (41 :: rest, cost_caps l n t cs).
Proof.
  revert n cs. induction l as [|[f v] l IH]; intros n cs Hv Hp; cbn [re_opt_terms cost_caps]; [apply first_eps|].
  assert (Hpl : forall f' v', In (f', v') l -> num_text (String_num (cost_of f' t))) by (intros f' v' Hin; apply (Hp f' v'); by right).
  cbn [vars_ok] in Hv. bsplit. destruct (var_name_facts v ltac:(done)) as (Hn & Hs & Hw).
  unfold costs_text. cbn [flat_map]. fold (costs_text l t). unfold cost_text at 1. cbn [fst snd].
  destruct (neqb (cost_of f t) n0); cbn [app].
  - eapply first_seq; [|by apply IH]. unfold re_opt_term, Opt. apply first_alt_r; [|apply first_eps].
    apply fails_opt_body; [done|done|]. destruct (costs_text_shape l t) as [->|(kv & r & Hin & ->)]; [right; by eexists|left].
    rewrite forallb_forall in H1. destruct (var_name_facts kv.2) as (? & ? & _); [by eapply vars_ok_names|].
    exists kv.2, (r ++ 41 :: rest). rewrite <- !app_assoc. auto.
  - rewrite <- !app_assoc. eapply first_seq; [|by apply IH]. apply first_opt_term; [done|done|eapply Hp; by left|].
    apply costs_text_stops.
Qed.

Lemma cache_vars_ok : vars_ok CACHE_VAR_MAP = true.
Proof. by vm_compute. Qed.

(** ** A tier *)

Lemma body_text t :
  buildTierBodyExpr t
  = term_text $"p" (String_num (or_zero (input_unit_cost t))) ++ $" + "
    ++ term_text $"c" (String_num (or_zero (output_unit_cost t))) ++ costs_text CACHE_VAR_MAP t.
Proof.
  unfold buildTierBodyExpr, cost_parts, costs_text.
  assert (H : forall l x, join $" + " (x :: flat_map (fun '(field, v) =>
      if neqb (cost_of field t) n0 then [] else [v ++ $" * " ++ String_num (cost_of field t)]) l)
    = x ++ flat_map (cost_text t) l).
  { induction l as [|[f v] l IH]; intros x; cbn [flat_map]; [by rewrite app_nil_r|]. unfold cost_text at 1. cbn [fst snd].
    destruct (neqb _ _); cbn [app]; [apply IH|]. change (join $" + " (x :: ?y :: ?l)) with (x ++ $" + " ++ join $" + " (y :: l)).
    rewrite IH. unfold term_text. by rewrite <- !app_assoc. }
  cbn [app]. change (join $" + " (?x :: ?y :: ?l)) with (x ++ $" + " ++ join $" + " (y :: l)). rewrite H.
  unfold term_text. by rewrite <- !app_assoc.
Qed.

Definition in_text (t : tier) : jsstr := String_num (or_zero (input_unit_cost t)).
Definition out_text (t : tier) : jsstr := String_num (or_zero (output_unit_cost t)).

Definition tier_caps (n : Z) (l : jsstr) (t : tier) (cs : captures) : captures :=
  cost_caps CACHE_VAR_MAP (n + 3) t ((n + 2, out_text t) :: (n + 1, in_text t) :: (n, l) :: cs).

Lemma first_tier n l t rest cs :
  forallb not_dquote l = true -> num_text (in_text t) -> num_text (out_text t) -> prices_ok t ->
  first (re_tier n) (tier_text l t ++ rest, cs) (rest, tier_caps n l t cs).
Proof.
  intros Hl Hi Ho Hp. unfold re_tier, tier_text. rewrite <- !app_assoc. eapply first_seq; [apply first_lit|].
  cbn [app]. eapply first_seq; [apply first_ch|].
  eapply first_seq; [apply first_grp; by apply first_star_chr|]. eapply first_seq; [apply first_ch|].
  js_lit. cbn [app]. eapply first_seq; [apply first_ch|].
  eapply first_seq; [apply first_ws1; rewrite body_text; unfold term_text; by js_lit|].
  rewrite body_text. rewrite <- !app_assoc. fold (in_text t) (out_text t). unfold re_body.
  replace (n + 1 + 1) with (n + 2) by lia. replace (n + 1 + 2) with (n + 3) by lia.
  eapply first_seq; [|apply first_ch].
  eapply first_seq; [apply first_term; [done|by js_lit]|]. js_lit. cbn [app].
  eapply first_seq; [by apply first_ws1|]. eapply first_seq; [apply first_ch|].
  eapply first_seq; [apply first_ws1; unfold term_text; by js_lit|].
  eapply first_seq; [apply (first_term [99]); [done|apply costs_text_stops]|].
  apply first_costs; [apply cache_vars_ok|exact Hp].
Qed.

(** ** What the groups hold *)

Lemma capture_cost_caps l n t cs j : j < n -> capture j (cost_caps l n t cs) = capture j cs.
Proof.
  revert n cs. induction l as [|[f v] l IH]; intros n cs Hj; cbn [cost_caps]; [done|]. rewrite IH by lia.
  destruct (neqb _ _); [done|]. cbn [capture]. destruct (Z.eqb_spec j n); [lia|done].
Qed.

(** The prices that are written. *)
Definition written_costs (l : list (jsstr * jsstr)) (t : tier) : list (jsstr * num) :=
  flat_map (fun '(f, _) => if neqb (cost_of f t) n0 then [] else [(f, cost_of f t)]) l.

Lemma parse_costs_caps l n t cs :
  (forall j, n <= j -> capture j cs = None) ->
  (forall f v, In (f, v) l -> Number_str (String_num (cost_of f t)) = cost_of f t) ->
  parse_costs l n (cost_caps l n t cs) = written_costs l t.
Proof.
  revert n cs. induction l as [|[f v] l IH]; intros n cs Hc Hn; cbn [parse_costs cost_caps]; [done|].
  unfold written_costs. cbn [flat_map]. fold (written_costs l t). rewrite capture_cost_caps by lia.
  destruct (neqb (cost_of f t) n0).
  - rewrite Hc by lia. cbn [app]. apply IH; [intros j Hj; apply Hc; lia|intros f' v' H; apply (Hn f' v'); by right].
  - cbn [capture]. rewrite Z.eqb_refl. rewrite (Hn f v) by (by left). cbn [app]. f_equal. apply IH.
    + intros j Hj. cbn [capture]. destruct (Z.eqb_spec j n); [lia|]. apply Hc. lia.
    + intros f' v' H; apply (Hn f' v'); by right.
Qed.

(** A number that is read back from its text. *)
Definition num_ok (n : num) : Prop := num_text (String_num n) /\ Number_str (String_num n) = n.

Record tier_ok (t : tier) : Prop := TierOk {
  ok_label : forallb not_dquote (label t) = true;
  ok_input : num_ok (or_zero (input_unit_cost t));
  ok_output : num_ok (or_zero (output_unit_cost t));
  ok_costs : forall f v, In (f, v) CACHE_VAR_MAP -> num_ok (cost_of f t)
}.

(** The tier that is read back: its label, its written prices, the cache mode they imply. *)
Definition canon (cs : list tcond) (l : jsstr) (t : tier) : tier :=
  normalizeVisualTier
    (Tier cs (or_zero (input_unit_cost t)) (or_zero (output_unit_cost t)) l None (written_costs CACHE_VAR_MAP t)).

Lemma parse_tier_caps conds n l t cs :
  (forall j, n < j -> capture j cs = None) -> tier_ok t ->
  parse_tier conds n (tier_caps n l t cs) = canon conds l t.
Proof.
  intros Hc [_ [_ Hi] [_ Ho] Hp]. unfold parse_tier, canon, tier_caps, cap. rewrite !capture_cost_caps by lia.
  cbn [capture]. rewrite !Z.eqb_refl, (proj2 (Z.eqb_neq (n + 1) (n + 2))), (proj2 (Z.eqb_neq n (n + 2))),
    (proj2 (Z.eqb_neq n (n + 1))) by lia. cbn [from_option id].
  unfold in_text, out_text. rewrite Hi, Ho, parse_costs_caps; [done| |intros f v H; by apply (Hp f v)].
  intros j Hj. cbn [capture]. rewrite (proj2 (Z.eqb_neq j (n + 2))), (proj2 (Z.eqb_neq j (n + 1))), (proj2 (Z.eqb_neq j n)) by lia.
  apply Hc. lia.
Qed.

(** ** Conditions *)

Definition VARS : list jsstr := [$"p"; $"c"; $"len"].
Definition OPS : list jsstr := [$"<"; $"<="; $">"; $">="].

Definition cond_num (n : num) : Prop :=
  String_num n <> [] /\ forallb condchar (String_num n) = true /\ Number_str (String_num n) = n.

Definition cond_ok (c : tcond) : Prop :=
  In (var c) VARS /\ In (op c) OPS /\ exists n, tvalue c = VNum n /\ cond_num n.

Lemma condchar_numchar c : condchar c = true -> numchar c = true.
Proof.
  unfold condchar, numchar. intros [->|H]%orb_true_iff; [done|]. apply orb_true_iff. right. revert H. js_lit. cbn.
  rewrite !orb_true_iff. tauto.
Qed.

Lemma cond_num_stops n s : cond_num n -> stops is_ws (String_num n ++ s).
Proof.
  intros (Hn & Hf & _). destruct (String_num n) as [|c N]; [done|]. cbn in *. bsplit. by apply numchar_not_ws, condchar_numchar.
Qed.

Lemma run_var v r cs : In v VARS -> exists l, run re_var (v ++ r, cs) = (r, cs) :: l.
Proof.
  intros [<-|[<-|[<-|[]]]]; eexists; unfold re_var, Lit; js_lit; reflexivity.
Qed.

(** The comparison that is written is found, after a shorter one that fails. *)
Lemma run_op o r cs :
  In o OPS -> exists pre, run re_op (o ++ 32 :: r, cs) = pre ++ [(32 :: r, cs)]
    /\ Forall (fun st => st = (61 :: 32 :: r, cs)) pre.
Proof.
  intros [<-|[<-|[<-|[<-|[]]]]].
  - exists []. split; [unfold re_op, Lit; js_lit; reflexivity|constructor].
  - exists [(61 :: 32 :: r, cs)]. split; [unfold re_op, Lit; js_lit; reflexivity|by repeat constructor].
  - exists []. split; [unfold re_op, Lit; js_lit; reflexivity|constructor].
  - exists [(61 :: 32 :: r, cs)]. split; [unfold re_op, Lit; js_lit; reflexivity|by repeat constructor].
Qed.

Lemma fails_after_op (b : re) r cs :
  (forall cs', fails b (61 :: r, cs')) -> fails (ws ++ b)%re (61 :: r, cs).
Proof. intros H. by apply fails_ws0. Qed.

Lemma fails_plus_chr p c s cs : p c = false -> fails (Plus (Chr p)) (c :: s, cs).
Proof. intros H. apply fails_seq_l. unfold fails. cbn. by rewrite H. Qed.

Lemma cond_text_eq c n : tvalue c = VNum n -> cond_text c = var c ++ 32 :: (op c ++ 32 :: String_num n).
Proof. intros E. unfold cond_text. rewrite E. cbn [String_val]. by js_lit. Qed.

Lemma first_cond c rest cs :
  cond_ok c -> stops condchar rest -> first re_cond (cond_text c ++ rest, cs) (rest, cs).
Proof.
  intros (Hv & Ho & n & En & Hn) Hr. rewrite (cond_text_eq c n En). rewrite <- app_assoc. cbn [app]. rewrite <- app_assoc.
  unfold re_cond. eapply first_seq; [by apply run_var|].
  eapply first_seq; [apply first_ws1; by destruct Ho as [<-|[<-|[<-|[<-|[]]]]]; js_lit|]. cbn [app].
  destruct (run_op (op c) (String_num n ++ rest) cs Ho) as (pre & E & Hp). eapply first_seq_after; [exact E| |].
  - eapply Forall_impl; [exact Hp|]. intros st ->. apply fails_after_op. intros cs'. by apply fails_plus_chr.
  - eapply first_seq; [apply first_ws1; by apply cond_num_stops|]. destruct Hn as (? & ? & _). by apply first_plus_chr.
Qed.

(** One condition on its own, with its groups. *)
Lemma exec_one_cond c n :
  cond_ok c -> tvalue c = VNum n -> cond_num n ->
  exec re_one_cond (cond_text c) = Some [(3, String_num n); (2, op c); (1, var c)].
Proof.
  intros (Hv & Ho & _) En Hn. rewrite (cond_text_eq c n En). unfold exec.
  assert (H : first (re_one_cond ++ Eos)%re (var c ++ 32 :: (op c ++ 32 :: String_num n), []) ([], [(3, String_num n); (2, op c); (1, var c)])).
  { unfold re_one_cond. eapply first_seq; [|apply first_eos].
    eapply first_seq; [apply first_grp; by apply run_var|].
    eapply first_seq; [apply first_ws1; by destruct Ho as [<-|[<-|[<-|[<-|[]]]]]; js_lit|]. cbn [app].
    destruct (run_op (op c) (String_num n) [(1, var c)] Ho) as (pre & E & Hp).
    set (txt := op c ++ 32 :: String_num n) in *.
    eapply (first_seq_after _ _ _ (map (fun st' => (st'.1, (2, take (length txt - length st'.1) txt) :: st'.2)) pre)
      (32 :: String_num n, (2, op c) :: [(1, var c)]) []).
    - cbn [run]. rewrite E, map_app. cbn [map fst snd]. do 2 f_equal. f_equal. f_equal. f_equal. apply take_prefix.
    - apply Forall_map. eapply Forall_impl; [exact Hp|]. intros st ->. cbn [fst snd]. apply fails_after_op. intros cs'.
      apply fails_iff. intros st' (w & r & E' & Hw & Hf & _)%run_grp_plus_chr. destruct w as [|x w]; [done|].
      injection E' as <- _. cbn in Hf. discriminate.
    - eapply first_seq; [apply first_ws1; pose proof (cond_num_stops n [] Hn) as H; by rewrite app_nil_r in H|].
      destruct Hn as (? & ? & _). rewrite <- (app_nil_r (String_num n)) at 1. apply first_grp. by apply first_plus_chr. }
  destruct H as [l ->]. done.
Qed.

(** ** Lists of conditions *)

Lemma join_flat sep x (l : list jsstr) : join sep (x :: l) = x ++ flat_map (fun y => sep ++ y) l.
Proof.
  revert x. induction l as [|y l IH]; intros x; [cbn; by rewrite app_nil_r|].
  change (join sep (x :: y :: l)) with (x ++ sep ++ join sep (y :: l)). rewrite IH. cbn [flat_map]. by rewrite <- app_assoc.
Qed.

Definition more_conds (cs : list tcond) : jsstr := flat_map (fun y => $" && " ++ y) (map cond_text cs).

Lemma cond_text_head c : cond_ok c -> exists x r, cond_text c = x :: r /\ is_ws x = false /\ condchar x = false /\ x <> 116 /\ x <> 118.
Proof.
  intros (Hv & _). unfold cond_text. destruct Hv as [<-|[<-|[<-|[]]]]; eexists _, _; (split; [js_lit; reflexivity|done]).
Qed.

Lemma more_conds_stops cs rest : stops condchar (more_conds cs ++ 32 :: rest).
Proof. destruct cs as [|c cs]; [done|]. unfold more_conds. cbn [map flat_map]. by js_lit. Qed.

Lemma chain_conds cs rest caps :
  Forall cond_ok cs ->
  chain (ws ++ Ch 38 ++ Ch 38 ++ ws ++ re_cond)%re (more_conds cs ++ 32 :: 63 :: rest, caps) (32 :: 63 :: rest, caps).
Proof.
  induction 1 as [|c cs Hc _ IH].
  - apply chain_stop. apply fails_ws1; [done|done|by apply fails_seq_l, fails_ch|by apply fails_seq_l, fails_ch].
  - unfold more_conds. cbn [map flat_map]. fold (more_conds cs). rewrite <- !app_assoc. js_lit. cbn [app].
    destruct (cond_text_head c Hc) as (x & r & E & Hx & _).
    eapply chain_next; [| |exact IH].
    + eapply first_seq; [by apply first_ws1|]. eapply first_seq; [apply first_ch|]. eapply first_seq; [apply first_ch|].
      eapply first_seq; [apply first_ws1; by rewrite E|]. apply first_cond; [done|apply more_conds_stops].
    + cbn [fst length]. rewrite (length_app (cond_text c)). lia.
Qed.

Lemma first_conds c cs rest caps :
  Forall cond_ok (c :: cs) ->
  first re_conds ((cond_text c ++ more_conds cs) ++ 32 :: 63 :: rest, caps)
    (32 :: 63 :: rest, (1, cond_text c ++ more_conds cs) :: caps).
Proof.
  intros H. inversion_clear H as [|?? Hc Hcs]. unfold re_conds. apply first_grp. rewrite <- app_assoc.
  eapply first_seq; [apply first_cond; [done|apply more_conds_stops]|]. by apply first_star, chain_conds.
Qed.

(** ** A tier with or without conditions *)

Definition entry_text (cs : list tcond) (l : jsstr) (t : tier) : jsstr :=
  match cs with
  | [] => tier_text l t
  | c :: r => (cond_text c ++ more_conds r) ++ $" ? " ++ tier_text l t
  end.

Definition entry_caps (cs : list tcond) (l : jsstr) (t : tier) : captures :=
  tier_caps 2 l t (match cs with [] => [] | c :: r => [(1, cond_text c ++ more_conds r)] end).

Lemma tier_text_head l t rest : exists r, tier_text l t ++ rest = 116 :: r.
Proof. unfold tier_text. js_lit. by eexists. Qed.

Lemma first_entry cs l t rest :
  Forall cond_ok cs -> tier_ok t -> forallb not_dquote l = true ->
  first re_tiers (entry_text cs l t ++ rest, []) (rest, entry_caps cs l t).
Proof.
  intros Hcs [_ [Hi _] [Ho _] Hp] Hl. unfold re_tiers, entry_text, entry_caps. destruct cs as [|c cs].
  - eapply first_seq; [|apply first_tier; auto; intros f v H; by apply (Hp f v)]. unfold Opt. apply first_alt_r; [|apply first_eps].
    destruct (tier_text_head l t rest) as [r ->]. apply fails_seq_l. unfold re_conds, fails. cbn [run].
    change (map ?f ?m = []) with (map f m = []). assert (fails re_cond (116 :: r, [])) as ->; [|done].
    apply fails_seq_l. unfold fails, re_var, Lit. js_lit. reflexivity.
  - rewrite <- !app_assoc. rewrite (app_assoc (cond_text c)). js_lit. cbn [app].
    eapply first_seq; [|apply first_tier; auto; intros f v H; by apply (Hp f v)]. unfold Opt. apply first_alt_l.
    eapply first_seq; [by apply first_conds|]. eapply first_seq; [by apply first_ws1|]. eapply first_seq; [apply first_ch|].
    apply first_ws1. by destruct (tier_text_head l t rest) as [r ->].
Qed.

(** The search finds nothing before a variable or a tier. *)
Lemma fails_entry_head c s : c ∉ [112; 99; 108; 116] -> fails re_tiers (c :: s, []).
Proof.
  intros H. rewrite !not_elem_of_cons in H. destruct H as (H1 & H2 & H3 & H4 & _).
  assert (Hl : forall x w, c <> x -> fails (Lit_units (x :: w)) (c :: s, [])) by (intros; by apply fails_lit_units).
  assert (Hc : fails re_cond (c :: s, [])).
  { apply fails_seq_l. unfold re_var, Lit. js_lit. by apply fails_alt; [apply fails_alt|]; apply Hl. }
  apply fails_seq. intros st1 [H|H]%run_alt.
  - exfalso. assert (fails (re_conds ++ ws ++ Ch 63 ++ ws)%re (c :: s, [])) as Hf; [|rewrite Hf in H; by apply elem_of_nil in H].
    apply fails_seq_l. unfold re_conds, fails. cbn [run]. by rewrite Hc.
  - apply run_eps in H as ->. apply fails_seq_l. unfold Lit. js_lit. by apply Hl.
Qed.

(** ** Splitting at the conjunctions *)

Lemma no_and_here u s w r :
  38 ∉ u -> u <> [] -> is_ws (List.last u 0) = false -> forallb is_ws w = true -> u ++ s <> w ++ 38 :: r.
Proof.
  revert w. induction u as [|a u IH]; intros w Ha Hn Hl Hw E; [done|]. apply not_elem_of_cons in Ha as [Ha Hu].
  destruct w as [|b w]; cbn in E; injection E as -> E; [done|]. cbn in Hw. bsplit.
  destruct u as [|a' u]; [cbn in Hl; congruence|]. by apply (IH w).
Qed.

Lemma fails_and s : (forall w r, forallb is_ws w = true -> s <> w ++ 38 :: r) -> fails re_and (s, []).
Proof.
  intros H. apply fails_iff. intros st' Hin. unfold re_and in Hin.
  apply run_seq in Hin as ([s1 c1] & (w & r & -> & Hw & E)%run_star_chr & Hin). injection E as -> ->.
  apply run_seq in Hin as ([s2 c2] & (r' & -> & _)%run_ch & _). by apply (H w r').
Qed.

Lemma split_here r c s rest cs l cur :
  run r (c :: s, []) = (rest, cs) :: l ->
  split_re r 0 cur (c :: s) = rev cur :: split_re r (length (c :: s) - length rest - 1) [] s.
Proof. intros E. cbn [split_re]. by rewrite E. Qed.

Lemma split_piece x cur y :
  38 ∉ x -> x = [] \/ is_ws (List.last x 0) = false -> stops is_ws y ->
  split_re re_and 0 cur (x ++ $" && " ++ y) = (rev cur ++ x) :: split_re re_and 0 [] y.
Proof.
  intros Hx Hl Hy. revert cur. induction x as [|a x IH]; intros cur.
  - js_lit. cbn [app].
    assert (H : first re_and (32 :: 38 :: 38 :: 32 :: y, []) (y, [])).
    { unfold re_and. eapply first_seq; [by apply first_ws1|]. eapply first_seq; [apply first_ch|]. eapply first_seq; [apply first_ch|].
      by apply first_ws1. }
    destruct H as [l H]. rewrite (split_here _ _ _ _ _ _ _ H), app_nil_r. f_equal.
    match goal with |- split_re _ ?k _ _ = _ => replace k with 3%nat by (cbn [length]; lia) end. done.
  - destruct Hl as [?|Hl]; [done|]. cbn [app split_re].
    assert (fails re_and (a :: x ++ $" && " ++ y, [])) as ->.
    { apply fails_and. intros w r Hw. by apply (no_and_here (a :: x)). }
    apply not_elem_of_cons in Hx as [_ Hx]. rewrite IH; [cbn [rev]; by rewrite <- app_assoc|done|].
    destruct x as [|b x]; [by left|by right].
Qed.

Lemma split_last x cur : 38 ∉ x -> split_re re_and 0 cur x = [rev cur ++ x].
Proof.
  revert cur. induction x as [|a x IH]; intros cur Hx; cbn [split_re]; [by rewrite app_nil_r|].
  assert (fails re_and (a :: x, [])) as ->.
  { apply fails_and. intros w r _ E. apply Hx. rewrite E. set_solver. }
  apply not_elem_of_cons in Hx as [_ Hx]. rewrite IH by done. cbn [rev]. by rewrite <- app_assoc.
Qed.

Lemma cond_text_facts c :
  cond_ok c -> (38 ∉ cond_text c) /\ is_ws (List.last (cond_text c) 0) = false /\ trim (cond_text c) = cond_text c.
Proof.
  intros Hok. destruct (cond_text_head c Hok) as (x & r & Eh & Hx & _). destruct Hok as (Hv & Ho & n & En & Hn & Hf & _).
  rewrite (cond_text_eq c n En) in *.
  assert (Hlast : is_ws (List.last (var c ++ 32 :: (op c ++ 32 :: String_num n)) 0) = false).
  { destruct (exists_last Hn) as (l & z & E). rewrite E in Hf |- *. rewrite forallb_app in Hf. cbn in Hf. bsplit.
    assert (var c ++ 32 :: op c ++ 32 :: l ++ [z] = (var c ++ 32 :: op c ++ 32 :: l) ++ [z]) as -> by (by rewrite <- !app_assoc; cbn; rewrite <- app_assoc).
    rewrite List.last_last. by apply numchar_not_ws, condchar_numchar. }
  split; [|split; [done|]].
  - rewrite !elem_of_app, !elem_of_cons, elem_of_app, elem_of_cons. intros H.
    assert (Hnum : 38 ∉ String_num n).
    { intros Hin%list_elem_of_In. rewrite forallb_forall in Hf. by apply Hf in Hin. }
    revert H. destruct Hv as [<-|[<-|[<-|[]]]]; destruct Ho as [<-|[<-|[<-|[<-|[]]]]]; js_lit; set_solver.
  - apply trim_id. rewrite Eh in *. cbn -[List.last]. by rewrite Hx, Hlast.
Qed.

Lemma parse_one_cond c : cond_ok c -> parse_cond (cond_text c) = [c].
Proof.
  intros Hok. destruct (cond_text_facts c Hok) as (_ & _ & Ht). pose proof Hok as (_ & _ & n & En & Hn).
  unfold parse_cond. rewrite Ht, (exec_one_cond c n) by done. cbn. destruct Hn as (_ & _ & ->). destruct c. cbn in *. by subst.
Qed.

Lemma split_conds c cs :
  Forall cond_ok (c :: cs) -> split_re re_and 0 [] (cond_text c ++ more_conds cs) = map cond_text (c :: cs).
Proof.
  revert c. induction cs as [|d cs IH]; intros c H; inversion_clear H as [|?? Hc Hcs].
  - unfold more_conds. cbn [map flat_map]. rewrite app_nil_r. destruct (cond_text_facts c Hc) as (? & _). by rewrite split_last.
  - unfold more_conds. cbn [map flat_map]. fold (more_conds cs). rewrite <- app_assoc.
    destruct (cond_text_facts c Hc) as (? & ? & _). rewrite split_piece; [cbn [rev app]; f_equal; by apply IH|done|by right|].
    inversion_clear Hcs as [|?? Hd _]. destruct (cond_text_head d Hd) as (x & r & -> & ? & _). done.
Qed.

Lemma parse_conds_text c cs : Forall cond_ok (c :: cs) -> parse_conds (cond_text c ++ more_conds cs) = c :: cs.
Proof.
  intros H. unfold parse_conds. rewrite split_conds by done.
  assert (nonempty (cond_text c ++ more_conds cs) = true) as ->.
  { inversion_clear H as [|?? Hc _]. by destruct (cond_text_head c Hc) as (x & r & -> & _). }
  induction H as [|d ds Hd _ IH]; [done|]. cbn [map flat_map]. by rewrite parse_one_cond, IH.
Qed.

(** ** All tiers of a text *)

Definition entry := (list tcond * jsstr * tier)%type.
Definition entry_str (e : entry) : jsstr := entry_text e.1.1 e.1.2 e.2.
Definition entry_cs (e : entry) : captures := entry_caps e.1.1 e.1.2 e.2.
Definition entry_tier (e : entry) : tier := canon e.1.1 e.1.2 e.2.

Definition entry_ok (e : entry) : Prop :=
  Forall cond_ok e.1.1 /\ tier_ok e.2 /\ forallb not_dquote e.1.2 = true.

Lemma find_match_first r s st : first r (s, []) st -> find_match r s = Some st.
Proof. intros [l E]. destruct s; cbn [find_match]; by rewrite E. Qed.

Lemma find_match_skip r c s : fails r (c :: s, []) -> find_match r (c :: s) = find_match r s.
Proof. intros E. cbn [find_match]. by rewrite E. Qed.

Lemma find_all_same r f s s' : find_match r s = find_match r s' -> find_all r f s = find_all r f s'.
Proof. intros E. destruct f; cbn [find_all]; [done|]. by rewrite E. Qed.

Lemma find_all_entries es fuel :
  Forall entry_ok es -> (length es <= fuel)%nat ->
  find_all re_tiers fuel (join $" : " (map entry_str es)) = map entry_cs es.
Proof.
  revert fuel. induction es as [|e es IH]; intros fuel H Hf.
  - destruct fuel; [done|]. by vm_compute.
  - inversion_clear H as [|?? (Hc & Ht & Hl) Hes]. destruct fuel as [|fuel]; [cbn in Hf; lia|]. cbn [length] in Hf.
    cbn [map]. destruct es as [|e' es].
    + cbn [map join find_all]. pose proof (first_entry e.1.1 e.1.2 e.2 [] Hc Ht Hl) as H. rewrite app_nil_r in H.
      unfold entry_str. rewrite (find_match_first _ _ _ H). by destruct fuel.
    + change (join $" : " (entry_str e :: map entry_str (e' :: es)))
        with (entry_str e ++ $" : " ++ join $" : " (map entry_str (e' :: es))).
      cbn [find_all]. unfold entry_str at 1. rewrite (find_match_first _ _ _ (first_entry _ _ _ _ Hc Ht Hl)). cbn [map].
      f_equal. etrans; [|exact (IH fuel Hes ltac:(cbn in *; lia))]. apply find_all_same.
      js_lit. cbn [app]. do 3 (rewrite find_match_skip by (apply fails_entry_head; set_solver)). done.
Qed.

(** The groups of an entry are read as its tier. *)
Lemma parse_entry e :
  entry_ok e -> parse_tier (parse_conds (cap 1 (entry_cs e))) 2 (entry_cs e) = entry_tier e.
Proof.
  intros (Hc & Ht & Hl). unfold entry_cs, entry_caps, entry_tier. set (cs0 := match e.1.1 with [] => [] | _ => _ end).
  assert (Hcap : cap 1 (tier_caps 2 e.1.2 e.2 cs0) = cap 1 cs0).
  { unfold cap, tier_caps. rewrite capture_cost_caps by lia. reflexivity. }
  rewrite Hcap. assert (Hp : parse_conds (cap 1 cs0) = e.1.1).
  { unfold cs0. destruct e.1.1 as [|c cs]; [done|]. by apply parse_conds_text. }
  rewrite Hp. apply parse_tier_caps; [|done]. intros j Hj. unfold cs0. destruct e.1.1; [done|]. cbn [capture].
  destruct (Z.eqb_spec j 1); [lia|done].
Qed.

(** ** Configurations *)

Definition complete (c : tcond) : bool := nonempty (var c) && nonempty (op c) && has_value (tvalue c).
Definition written_conds (t : tier) : list tcond := List.filter complete (tconditions t).

Lemma cond_str_eq t :
  buildConditionStr (tconditions t) = match written_conds t with [] => [] | c :: r => cond_text c ++ more_conds r end.
Proof.
  unfold buildConditionStr. fold complete. fold (written_conds t). destruct (written_conds t) as [|c r]; [done|].
  cbn [map]. apply join_flat.
Qed.

Definition default_label (i : Z) : jsstr := $"第" ++ Z_to_str (i + 1) ++ $"档".

(** The tiers from the i-th on; the last one is written without conditions. *)
Fixpoint entries (i : Z) (tiers : list tier) : list entry :=
  match tiers with
  | [] => []
  | t :: r => ((match r with [] => [] | _ => written_conds t end), label_or (label t) (default_label i), t) :: entries (i + 1) r
  end.

Lemma entry_text_cond t l body :
  body = tier_text l t ->
  (if nonempty (buildConditionStr (tconditions t)) then buildConditionStr (tconditions t) ++ $" ? " ++ body else body)
  = entry_text (written_conds t) l t
  \/ ~ Forall cond_ok (written_conds t).
Proof.
  intros ->. rewrite cond_str_eq. unfold entry_text. destruct (written_conds t) as [|c r]; [by left|].
  destruct (decide (cond_text c ++ more_conds r = [])) as [E|Hn].
  - right. intros H. inversion_clear H as [|?? Hc _]. destruct (cond_text_head c Hc) as (x & r' & E' & _). by rewrite E' in E.
  - left. by destruct (cond_text c ++ more_conds r).
Qed.

Lemma tier_parts_entries i tiers :
  Forall (fun t => Forall cond_ok (written_conds t)) tiers -> tier_parts i tiers = map entry_str (entries i tiers).
Proof.
  revert i. induction tiers as [|t r IH]; intros i H; cbn [tier_parts entries map]; [done|].
  inversion_clear H as [|?? Ht Hr]. f_equal; [|by apply IH]. unfold entry_str. cbn [fst snd]. destruct r as [|t' r]; [done|].
  destruct (entry_text_cond t (label_or (label t) (default_label i)) _ eq_refl) as [E|E]; [exact E|done].
Qed.

Lemma default_label_ok i : 0 <= i -> default_label i <> [] /\ forallb not_dquote (default_label i) = true.
Proof.
  intros Hi. unfold default_label. split; [js_lit; done|]. rewrite !forallb_app. js_lit. cbn [forallb].
  assert (forallb not_dquote (Z_to_str (i + 1)) = true) as ->; [|done].
  unfold Z_to_str. destruct (Z.ltb_spec (i + 1) 0); [lia|]. apply forallb_forall. intros c Hc.
  pose proof (dec_nonneg_digits (i + 1) ltac:(lia)) as H1. rewrite forallb_forall in H1. apply H1 in Hc.
  unfold is_digit, not_dquote in *. lia.
Qed.

Lemma label_or_ok l d :
  forallb not_dquote l = true -> d <> [] -> forallb not_dquote d = true -> label_or l d <> [] /\ forallb not_dquote (label_or l d) = true.
Proof. unfold label_or. by destruct l. Qed.

Definition tier_fine (t : tier) : Prop := tier_ok t /\ Forall cond_ok (written_conds t).

Lemma entries_ok i tiers : 0 <= i -> Forall tier_fine tiers -> Forall entry_ok (entries i tiers).
Proof.
  revert i. induction tiers as [|t r IH]; intros i Hi H; cbn [entries]; [constructor|]. inversion_clear H as [|?? [Ht Hc] Hr].
  constructor; [|apply IH; [lia|done]]. split; [by destruct r|]. split; [done|]. destruct (default_label_ok i Hi).
  by apply label_or_ok; [apply (ok_label t Ht)| |].
Qed.

(** ** The tiers that are read are written the same way *)

Lemma or_zero_idem n : or_zero (or_zero n) = or_zero n.
Proof. unfold or_zero. destruct (num_truthy n) eqn:E; [by rewrite E|]. by vm_compute. Qed.

Lemma or_zero_zero n : neqb (or_zero n) n0 = true -> or_zero n = n0.
Proof.
  unfold or_zero. destruct (num_truthy n) eqn:E; [|done]. intros H. exfalso. destruct n as [[]|[]| |[]]; done.
Qed.

Lemma prop_written f l t :
  NoDup (map fst l) ->
  prop f (written_costs l t) = if existsb (fun kv => f =s? kv.1) l && negb (neqb (cost_of f t) n0) then Some (cost_of f t) else None.
Proof.
  induction l as [|[f' v] l IH]; [done|]. cbn [map fst existsb]. intros [Hf Hl]%NoDup_cons. unfold written_costs. cbn [flat_map].
  fold (written_costs l t). destruct (str_eqb_spec f f') as [->|Hne]; cbn [orb].
  - destruct (neqb (cost_of f' t) n0) eqn:E; cbn [app prop negb andb].
    + rewrite IH by done. by rewrite andb_false_r.
    + by destruct (str_eqb_spec f' f').
  - destruct (neqb (cost_of f' t) n0); cbn [app prop]; [by apply IH|]. destruct (str_eqb_spec f f'); [done|]. by apply IH.
Qed.

Lemma cost_of_canon f v cs l t : In (f, v) CACHE_VAR_MAP -> cost_of f (canon cs l t) = cost_of f t.
Proof.
  intros Hin. unfold cost_of at 1, canon, normalizeVisualTier. cbn [costs].
  rewrite prop_written by (apply (bool_decide_unpack _); by vm_compute).
  assert (existsb (fun kv => f =s? kv.1) CACHE_VAR_MAP = true) as ->.
  { apply existsb_exists. exists (f, v). split; [done|]. by apply str_eqb_eq. }
  cbn [andb]. destruct (neqb (cost_of f t) n0) eqn:E; cbn [negb from_option id].
  - unfold cost_of in *. apply or_zero_zero in E. rewrite E. by vm_compute.
  - unfold cost_of. apply or_zero_idem.
Qed.

Lemma cost_text_canon cs l t kv : In kv CACHE_VAR_MAP -> cost_text (canon cs l t) kv = cost_text t kv.
Proof. destruct kv as [f v]. intros H. unfold cost_text. cbn [fst snd]. by rewrite (cost_of_canon f v). Qed.

Lemma tier_text_canon cs l l' t : tier_text l' (canon cs l t) = tier_text l' t.
Proof.
  unfold tier_text. do 5 f_equal. f_equal. rewrite !body_text. unfold canon, normalizeVisualTier at 1 2. cbn [input_unit_cost output_unit_cost].
  rewrite !or_zero_idem. do 3 f_equal. unfold costs_text.
  assert (H : forall m, (forall kv, In kv m -> In kv CACHE_VAR_MAP) -> flat_map (cost_text (canon cs l t)) m = flat_map (cost_text t) m).
  { induction m as [|kv m IH]; intros Hm; [done|]. cbn [flat_map]. rewrite cost_text_canon by (apply Hm; by left).
    f_equal. apply IH. intros kv' Hk. apply Hm. by right. }
  by apply H.
Qed.

Lemma cond_ok_complete c : cond_ok c -> complete c = true.
Proof.
  intros (Hv & Ho & n & En & _). unfold complete. rewrite En.
  destruct Hv as [<-|[<-|[<-|[]]]]; destruct Ho as [<-|[<-|[<-|[<-|[]]]]]; by vm_compute.
Qed.

Lemma written_conds_canon cs l t : Forall cond_ok cs -> written_conds (canon cs l t) = cs.
Proof.
  intros H. unfold written_conds. cbn. induction H as [|c cs Hc _ IH]; [done|]. cbn [List.filter]. by rewrite cond_ok_complete, IH.
Qed.

Lemma entry_text_canon cs cs' l l' t : entry_text cs' l' (canon cs l t) = entry_text cs' l' t.
Proof. unfold entry_text. by rewrite tier_text_canon. Qed.

Lemma label_or_id l d d' : d <> [] -> label_or (label_or l d) d' = label_or l d.
Proof. unfold label_or. destruct l; [by destruct d|done]. Qed.

Lemma entries_canon i tiers :
  0 <= i -> Forall tier_fine tiers ->
  map entry_str (entries i (map entry_tier (entries i tiers))) = map entry_str (entries i tiers).
Proof.
  revert i. induction tiers as [|t r IH]; intros i Hi H; [done|]. inversion_clear H as [|?? [Ht Hc] Hr].
  cbn [entries map]. f_equal; [|apply IH; [lia|done]]. unfold entry_str, entry_tier. cbn [fst snd].
  rewrite entry_text_canon. f_equal.
  - destruct r as [|t' r]; [done|]. cbn [entries map]. by apply written_conds_canon.
  - destruct (default_label_ok i Hi). by apply label_or_id.
Qed.

Lemma entry_tiers_fine i tiers :
  Forall tier_fine tiers -> Forall (fun t => Forall cond_ok (written_conds t)) (map entry_tier (entries i tiers)).
Proof.
  revert i. induction tiers as [|t r IH]; intros i H; [constructor|]. inversion_clear H as [|?? [Ht Hc] Hr].
  cbn [entries map]. constructor; [|by apply IH]. unfold entry_tier. cbn [fst snd]. rewrite written_conds_canon; by destruct r.
Qed.

Lemma normalize_entry e : normalizeVisualTier (entry_tier e) = entry_tier e.
Proof. done. Qed.

Lemma normalize_entries es : es <> [] -> normalizeVisualConfig (Some (map entry_tier es)) = map entry_tier es.
Proof.
  intros H. destruct es as [|e es]; [done|]. unfold normalizeVisualConfig. cbn [map]. f_equal. rewrite map_map. by apply map_ext.
Qed.

(** ** The round trip *)

Definition conditioned (t : tier) : Prop := written_conds t <> [].

(** All tiers but the last. *)
Fixpoint all_but_last {A} (P : A -> Prop) (l : list A) : Prop :=
  match l with [] | [_] => True | x :: r => P x /\ all_but_last P r end.

Record config_ok (tiers : list tier) : Prop := ConfigOk {
  ok_some : tiers <> [];
  ok_tiers : Forall tier_fine tiers;
  ok_conditioned : all_but_last conditioned tiers
}.

(** The configuration a written one is read as. *)
Definition canon_config (tiers : list tier) : list tier :=
  match tiers with
  | [t] => [canon (written_conds t) (label_or (label t) $"default") t]
  | _ => map entry_tier (entries 0 tiers)
  end.

Lemma exec_of_first r s st : first (Seq r Eos) (s, []) st -> exec r s = Some st.2.
Proof. intros [l E]. unfold exec. rewrite E. by destruct st. Qed.

Lemma exec_of_fails r s : fails r (s, []) -> exec r s = None.
Proof. intros E. unfold exec. by rewrite (fails_seq_l r Eos _ E). Qed.

Lemma no_version c s : c <> 118 -> exec re_version (c :: s) = None.
Proof. intros H. apply exec_of_fails. apply fails_seq_l. by apply fails_ch. Qed.

Lemma no_single c s n : c <> 116 -> exec (re_tier n) (c :: s) = None.
Proof. intros H. apply exec_of_fails. apply fails_seq_l. unfold Lit. js_lit. by apply fails_lit_units. Qed.

(** Reading a text that starts with a condition. *)
Lemma parse_conditioned c s es tiers :
  c <> 118 -> c <> 116 -> find_all re_tiers (length (c :: s)) (c :: s) = map entry_cs es -> es <> [] -> Forall entry_ok es ->
  generateExprFromVisualConfig (Some (map entry_tier es)) = c :: s -> tiers = map entry_tier es ->
  tryParseVisualConfig (c :: s) = Some tiers.
Proof.
  intros Hv Ht Hf Hes Hok Hg ->. unfold tryParseVisualConfig. cbn [nonempty negb]. rewrite no_version, no_single by done.
  rewrite Hf, map_map.
  assert (map (fun e => parse_tier (parse_conds (cap 1 (entry_cs e))) 2 (entry_cs e)) es = map entry_tier es) as ->.
  { apply map_ext_Forall. eapply Forall_impl; [exact Hok|]. apply parse_entry. }
  destruct es as [|e es]; [done|]. pose proof (normalize_entries (e :: es) Hes) as Hn. cbn [map] in *. rewrite Hn, Hg.
  by destruct (str_eqb_spec (strip_ws (c :: s)) (strip_ws (c :: s))).
Qed.

Lemma entry_head cs l t : Forall cond_ok cs -> cs <> [] -> exists c s, entry_text cs l t = c :: s /\ c <> 118 /\ c <> 116.
Proof.
  intros H Hn. destruct cs as [|c cs]; [done|]. inversion_clear H as [|?? Hc _]. unfold entry_text.
  destruct (cond_text_head c Hc) as (x & r & -> & _ & _ & H1 & H2). by eexists x, _.
Qed.

Lemma entries_length i tiers : length (entries i tiers) = length tiers.
Proof. revert i. induction tiers as [|t r IH]; intros i; [done|]. cbn. by rewrite IH. Qed.

Lemma join_length es : (length es <= length (join $" : " (map entry_str es)))%nat.
Proof.
  assert (H : forall e : entry, (1 <= length (entry_str e))%nat).
  { intros [[cs l] t]. unfold entry_str, entry_text. cbn [fst snd].
    assert (Ht : (1 <= length (tier_text l t))%nat) by (unfold tier_text; js_lit; cbn; lia).
    destruct cs; [done|]. rewrite !length_app. lia. }
  destruct es as [|e es]; [cbn; lia|]. cbn [map]. rewrite join_flat, length_app. pose proof (H e).
  assert (length es <= length (flat_map (fun y => $" : " ++ y) (map entry_str es)))%nat; [|cbn; lia].
  induction es as [|e' es IH]; [cbn; lia|]. cbn [map flat_map length]. rewrite !length_app. pose proof (H e'). lia.
Qed.

Lemma generate_many l : (2 <= length l)%nat -> generateExprFromVisualConfig (Some l) = join $" : " (tier_parts 0 l).
Proof. destruct l as [|? [|? ?]]; cbn; [lia|lia|done]. Qed.

Lemma roundtrip_many t t' r (tiers := t :: t' :: r) :
  config_ok tiers -> tryParseVisualConfig (generateExprFromVisualConfig (Some tiers)) = Some (canon_config tiers).
Proof.
  intros [_ Hf [Hc _]]. assert (He : Forall entry_ok (entries 0 tiers)) by (by apply entries_ok).
  assert (Hw : Forall (fun t => Forall cond_ok (written_conds t)) tiers) by (eapply Forall_impl; [exact Hf|]; by intros ? [_ ?]).
  rewrite generate_many by (cbn; lia). rewrite tier_parts_entries by done.
  destruct (entry_head (written_conds t) (label_or (label t) (default_label 0)) t) as (x & s & Ex & H1 & H2);
    [by inversion_clear Hw|done|].
  set (text := join $" : " (map entry_str (entries 0 tiers))).
  assert (exists s', text = x :: s') as [s' Et].
  { unfold text, tiers. cbn [entries map]. rewrite join_flat. unfold entry_str at 1. cbn [fst snd]. rewrite Ex. by eexists. }
  rewrite Et. apply (parse_conditioned x s' (entries 0 tiers)); [done|done| |done|done| |done].
  - rewrite <- Et. apply find_all_entries; [done|apply join_length].
  - rewrite generate_many by (rewrite length_map, entries_length; cbn; lia).
    rewrite tier_parts_entries by (by apply entry_tiers_fine). by rewrite entries_canon.
Qed.

(** The text of a single tier with the conditions, prices and label of [t]. *)
Lemma generate_one t u :
  Forall cond_ok (written_conds t) -> written_conds u = written_conds t -> (forall k, tier_text k u = tier_text k t) ->
  label_or (label u) $"default" = label_or (label t) $"default" ->
  generateExprFromVisualConfig (Some [u])
  = match written_conds t with
    | [] => tier_text (label_or (label t) $"default") t
    | cs => entry_text cs (label_or (label t) $"default") t ++ $" : " ++ NO_PRICE
    end.
Proof.
  intros Hc Hu Htu Hlu. unfold generateExprFromVisualConfig. rewrite Hlu, Htu, cond_str_eq, Hu. unfold entry_text.
  destruct (written_conds t) as [|c r]; [done|]. inversion_clear Hc as [|?? Hc' _].
  destruct (cond_text_head c Hc') as (x & s & E & _). rewrite E. cbn [app nonempty]. rewrite <- !app_assoc. done.
Qed.

Lemma generate_one_canon t :
  Forall cond_ok (written_conds t) ->
  generateExprFromVisualConfig (Some [canon (written_conds t) (label_or (label t) $"default") t])
  = generateExprFromVisualConfig (Some [t]).
Proof.
  intros Hc. rewrite (generate_one t t) by done. apply generate_one; [done|by apply written_conds_canon| |].
  - intros k. apply tier_text_canon.
  - cbn. by apply label_or_id; vm_compute.
Qed.

Lemma roundtrip_one t :
  config_ok [t] -> tryParseVisualConfig (generateExprFromVisualConfig (Some [t])) = Some (canon_config [t]).
Proof.
  intros [_ Hf _]. inversion_clear Hf as [|?? [Ht Hc] _]. pose proof (generate_one_canon t Hc) as Hg.
  pose proof (generate_one t t Hc eq_refl (fun k => eq_refl) eq_refl) as Hg1.
  unfold canon_config. set (l := label_or (label t) $"default") in *.
  assert (Hl : l <> [] /\ forallb not_dquote l = true) by (apply label_or_ok; [apply (ok_label t Ht)|by vm_compute|by vm_compute]).
  destruct Hl as [Hln Hl]. set (e := (written_conds t, l, t) : entry). assert (He : entry_ok e) by (split; [exact Hc|split; [exact Ht|exact Hl]]).
  destruct (decide (written_conds t = [])) as [Ew|Ew].
  - rewrite Hg1, Ew.
    assert (H : first (Seq (re_tier 1) Eos) (tier_text l t, []) ([], tier_caps 1 l t [])).
    { destruct Ht as [_ [Hi _] [Ho _] Hp]. eapply first_seq; [|apply first_eos]. rewrite <- (app_nil_r (tier_text l t)).
      apply first_tier; auto. intros f v H. by apply (Hp f v). }
    destruct (tier_text_head l t []) as [s Es]. rewrite app_nil_r in Es. unfold tryParseVisualConfig. rewrite Es. cbn [nonempty negb].
    rewrite no_version by done. rewrite <- Es, (exec_of_first _ _ _ H). cbn [snd]. by rewrite parse_tier_caps.
  - assert (Hg2 : generateExprFromVisualConfig (Some [t]) = entry_str e ++ $" : " ++ NO_PRICE).
    { rewrite Hg1. unfold entry_str, e. cbn [fst snd]. by destruct (written_conds t). }
    rewrite Hg2. destruct (entry_head (written_conds t) l t Hc Ew) as (x & s & Ex & H1 & H2).
    assert (Et : entry_str e ++ $" : " ++ NO_PRICE = x :: s ++ $" : " ++ NO_PRICE) by (unfold entry_str, e; cbn [fst snd]; by rewrite Ex).
    rewrite Et. apply (parse_conditioned x _ [e]); [done|done| |done|by constructor| |done].
    + rewrite <- Et. destruct (length (entry_str e ++ $" : " ++ NO_PRICE)) as [|k] eqn:Ek; [by rewrite Et in Ek|]. cbn [find_all].
      unfold entry_str, e. cbn [fst snd]. rewrite (find_match_first _ _ _ (first_entry _ _ _ _ Hc Ht Hl)). cbn [map].
      f_equal. destruct k as [|k]; [done|]. cbn [find_all].
      assert (find_match re_tiers ($" : " ++ NO_PRICE) = None) as -> by (by vm_compute). done.
    + cbn [map]. unfold entry_tier, e. cbn [fst snd]. by rewrite Hg, Hg2.
Qed.

Lemma parse_generated tiers :
  config_ok tiers -> tryParseVisualConfig (generateExprFromVisualConfig (Some tiers)) = Some (canon_config tiers).
Proof.
  intros H. destruct tiers as [|t [|t' r]]; [by destruct (ok_some _ H)|by apply roundtrip_one|by apply roundtrip_many].
Qed.

Lemma generate_canon tiers :
  config_ok tiers -> generateExprFromVisualConfig (Some (canon_config tiers)) = generateExprFromVisualConfig (Some tiers).
Proof.
  intros [_ Hf _]. destruct tiers as [|t [|t' r]]; [done| |].
  - inversion_clear Hf as [|?? [_ Hc] _]. by apply generate_one_canon.
  - unfold canon_config. rewrite !generate_many by (rewrite ?length_map, ?entries_length; cbn; lia).
    rewrite !tier_parts_entries; [by rewrite entries_canon| |by apply entry_tiers_fine].
    eapply Forall_impl; [exact Hf|]; by intros ? [_ ?].
Qed.

(** C12: the expression the visual editor writes for tiers of which all but the last have a
    complete condition, whose labels have no double quote and whose numbers are read back
    from their decimal text ([config_ok]) is read back as the same configuration: the same
    prices, the conditions that were complete and the labels that were shown; and the
    configuration read back is written as the same expression. *)
Theorem visual_config_roundtrip tiers :
  config_ok tiers ->
  tryParseVisualConfig (generateExprFromVisualConfig (Some tiers)) = Some (canon_config tiers)
  /\ generateExprFromVisualConfig (Some (canon_config tiers)) = generateExprFromVisualConfig (Some tiers).
Proof. intros H. split; [by apply parse_generated|by apply generate_canon]. Qed.

End TieredRoundtrip.
