(* ===== verification/TieredText.v ===== *)
(** * The texts of the visual editor as billing expressions

    The generated expressions combine with request rules and split from them again: they
    are trimmed, balanced, not wrapped, and have no factor that could be taken for a rule. *)
From S2P Require Import Prelude JSNum JSValue Regex RequestRuleExpr RequestRuleRoundtrip RequestRuleGroups TieredPricing TieredRoundtrip.
#[local] Open Scope Z_scope.
#[local] Arguments js _ : simpl never.

Module TieredText.
Import RequestRuleExpr RequestRuleRoundtrip RequestRuleGroups TieredPricing TieredRoundtrip.

(** ** Pieces: a flat prefix and an argument list *)

(** Neither a parenthesis nor a star. *)
Definition quiet (c : Z) : bool := plain c && negb (c =? 42).

Record piece := Piece { pre : jsstr; args : jsstr }.
Definition piece_text (p : piece) : jsstr := pre p ++ 40 :: (args p ++ [41]).
Definition pieces_text (ps : list piece) : jsstr := flat_map piece_text ps.

Record piece_ok (p : piece) : Prop := PieceOk {
  pre_quiet : forallb quiet (pre p) = true;
  pre_last : is_ws (List.last (pre p) 0) = false;
  args_plain : forallb plain (args p) = true
}.

Lemma quiet_plain s : forallb quiet s = true -> forallb plain s = true.
Proof. apply forallb_impl. intros c H. unfold quiet in H. by bsplit. Qed.

Lemma quiet_star s : forallb quiet s = true -> 42 ∉ s.
Proof.
  intros H Hin%list_elem_of_In. rewrite forallb_forall in H. by specialize (H _ Hin).
Qed.

Lemma balanced_piece p : piece_ok p -> balanced (piece_text p).
Proof.
  intros [Hq _ Ha]. apply balanced_app; [by apply balanced_plain, quiet_plain|]. by apply balanced_parens, balanced_plain.
Qed.

Lemma balanced_pieces ps : Forall piece_ok ps -> balanced (pieces_text ps).
Proof. induction 1 as [|p ps Hp _ IH]; [done|]. unfold pieces_text. cbn [flat_map]. by apply balanced_app; [apply balanced_piece|]. Qed.

Lemma unsplit_app sep a b : unsplit sep a -> unsplit sep b -> unsplit sep (a ++ b).
Proof. intros Ha Hb rest cur. by rewrite <- app_assoc, Ha, Hb, rev_app_distr, app_assoc. Qed.

Lemma unsplit_piece p : piece_ok p -> unsplit $" * " (piece_text p).
Proof.
  intros [Hq Hl Ha]. apply unsplit_app.
  - intros rest cur. js_lit. apply split_flat; [by apply quiet_star|done|]. by apply lev_plain, quiet_plain.
  - apply unsplit_parens; [done|done|done|by apply balanced_plain].
Qed.

Lemma unsplit_pieces ps : Forall piece_ok ps -> unsplit $" * " (pieces_text ps).
Proof. induction 1 as [|p ps Hp _ IH]; [done|]. unfold pieces_text. cbn [flat_map]. by apply unsplit_app; [apply unsplit_piece|]. Qed.

Lemma pieces_last ps : ps <> [] -> exists s, pieces_text ps = s ++ [41].
Proof.
  intros H. destruct (exists_last H) as (ps' & p & ->). unfold pieces_text. rewrite flat_map_app. cbn [flat_map]. rewrite app_nil_r.
  unfold piece_text at 2. exists (flat_map piece_text ps' ++ pre p ++ 40 :: args p).
  by rewrite <- !app_assoc.
Qed.

(** ** Texts that are a whole billing expression *)

(** What splitting and combining need of a base expression. *)
Record base_text (s : jsstr) : Prop := BaseText {
  bt_nonempty : s <> [];
  bt_trim : trim s = s;
  bt_balanced : balanced s;
  bt_end : endsWith $" : 1" s = false;
  bt_unwrap : unwrapOuterParens s = s;
  bt_alone : splitBillingExprAndRequestRules s = Ret (s, [])
}.

(** The first character is neither blank nor a parenthesis. *)
Definition head_ok (s : jsstr) : Prop := match s with [] => False | c :: _ => is_ws c = false /\ c <> 40 end.

Lemma head_ok_app a b : head_ok a -> head_ok (a ++ b).
Proof. by destruct a. Qed.

Lemma head_edges s x : head_ok s -> is_ws x = false -> edges_ok (s ++ [x]) = true.
Proof.
  intros H Hx. destruct s as [|c s]; [done|]. destruct H as [Hc _]. cbn [app].
  apply (edges_ok_app [c] (s ++ [x])); [done|by destruct s| |]; [done|]. by rewrite List.last_last.
Qed.

Lemma head_not_wrapped s : head_ok s -> trim s = s -> unwrapOuterParens s = s.
Proof.
  intros H Ht. unfold unwrapOuterParens. rewrite Ht. cbn [unwrap_loop]. unfold hasFullOuterParens.
  destruct s as [|c s]; [done|]. destruct H as [_ Hc]. js_lit. cbn [startsWith]. by destruct (Z.eqb_spec 40 c).
Qed.

Lemma ends_other s x : x <> 49 -> endsWith $" : 1" (s ++ [x]) = false.
Proof.
  intros H. unfold endsWith. rewrite rev_app_distr. js_lit. cbn [rev app startsWith]. by destruct (Z.eqb_spec 49 x).
Qed.

Lemma pieces_base ps : Forall piece_ok ps -> ps <> [] -> head_ok (pieces_text ps) -> base_text (pieces_text ps).
Proof.
  intros Hok Hn Hh. pose proof (balanced_pieces ps Hok) as Hb. pose proof (unsplit_pieces ps Hok) as Hu.
  destruct (pieces_last ps Hn) as [s E]. rewrite E in *. clear E.
  assert (Hs : head_ok s \/ s = []) by (destruct s; [by right|by left]).
  assert (He : edges_ok (s ++ [41]) = true) by (destruct Hs as [Hs| ->]; [by apply head_edges|done]).
  assert (Ht : trim (s ++ [41]) = s ++ [41]) by (by apply trim_id).
  assert (Hne : nonempty (s ++ [41]) = true) by (by destruct s).
  split; [by destruct s|done|done|by apply ends_other|by apply head_not_wrapped|].
  unfold splitBillingExprAndRequestRules. rewrite Ht, Hne. cbn [negb].
  assert (splitTopLevelMultiply (s ++ [41]) = [s ++ [41]]) as ->; [|done].
  unfold splitTopLevelMultiply. rewrite <- (app_nil_r (s ++ [41])) at 1. rewrite Hu. cbn [split_loop]. rewrite app_nil_r, rev_involutive, Ht.
  unfold filter_Boolean. cbn [List.filter]. by rewrite Hne.
Qed.

(** A text with one factor that does not start like a rule. *)
Lemma not_rule s : head_ok s -> trim s = s -> unsplit $" * " s -> is_rule_part s = Ret false.
Proof.
  intros Hh Ht Hu. unfold is_rule_part, tryParseRequestRuleExpr. rewrite Ht. destruct s as [|c s]; [done|]. cbn [nonempty negb].
  assert (splitTopLevelMultiply (c :: s) = [c :: s]) as ->.
  { unfold splitTopLevelMultiply. rewrite <- (app_nil_r (c :: s)) at 1. rewrite Hu. cbn [split_loop]. by rewrite app_nil_r, rev_involutive, Ht. }
  cbn [parse_groups]. unfold tryParseRuleGroupFactor.
  assert (exec re_group (c :: s) = None) as ->; [|done].
  apply exec_of_fails. apply fails_seq_l, fails_ch. by destruct Hh.
Qed.

(** A single tier with conditions: otherwise the price is zero. *)
Lemma zero_branch_base p : piece_ok p -> head_ok (piece_text p) -> base_text (piece_text p ++ $" : " ++ NO_PRICE).
Proof.
  intros Hp Hh. set (part := piece_text p ++ $" : p").
  assert (Hhead : forall u, head_ok (piece_text p ++ u)) by (intros u; by apply head_ok_app).
  assert (E : piece_text p ++ $" : " ++ NO_PRICE = part ++ $" * 0 + c * 0").
  { unfold part. rewrite <- app_assoc. by f_equal. }
  assert (Hu : unsplit $" * " part).
  { apply unsplit_app; [by apply unsplit_piece|]. intros rest cur. js_lit. apply split_flat; [set_solver|done|by vm_compute]. }
  assert (Ht : trim part = part).
  { apply trim_id. unfold part. replace (piece_text p ++ $" : p") with ((piece_text p ++ $" : ") ++ [112]) by (rewrite <- app_assoc; by js_lit).
    by apply head_edges. }
  assert (Htt : trim (part ++ $" * 0 + c * 0") = part ++ $" * 0 + c * 0").
  { apply trim_id. replace (part ++ $" * 0 + c * 0") with ((part ++ $" * 0 + c * ") ++ [48]) by (rewrite <- app_assoc; by js_lit).
    apply head_edges; [|done]. unfold part. rewrite <- app_assoc. apply Hhead. }
  assert (Hph : head_ok part) by apply Hhead.
  rewrite E. split.
  - by destruct part.
  - done.
  - unfold part. rewrite <- app_assoc. apply balanced_app; [by apply balanced_piece|]. by vm_compute.
  - replace (part ++ $" * 0 + c * 0") with ((part ++ $" * 0 + c * ") ++ [48]) by (rewrite <- app_assoc; by js_lit). by apply ends_other.
  - apply head_not_wrapped; [by apply head_ok_app|done].
  - unfold splitBillingExprAndRequestRules. rewrite Htt.
    assert (nonempty (part ++ $" * 0 + c * 0") = true) as -> by (by destruct part). cbn [negb].
    assert (splitTopLevelMultiply (part ++ $" * 0 + c * 0") = [part; $"0 + c"; $"0"]) as ->.
    { unfold splitTopLevelMultiply. rewrite Hu, app_nil_r.
      change (split_loop $" * " $" * 0 + c * 0" 0 0 (rev part)) with (trim (rev (rev part)) :: [$"0 + c"; $"0"]).
      rewrite rev_involutive, Ht. unfold filter_Boolean. cbn [List.filter]. by destruct part. }
    cbn [length Nat.leb partition_parts]. rewrite not_rule by done.
    assert (is_rule_part $"0 + c" = Ret false) as -> by (by vm_compute). assert (is_rule_part $"0" = Ret false) as -> by (by vm_compute). done.
Qed.

(** ** The generated texts *)

Definition entry_pre (cs : list tcond) : jsstr :=
  match cs with
  | [] => $"tier"
  | c :: r => (cond_text c ++ more_conds r) ++ $" ? tier"
  end.

Definition tier_args (l : jsstr) (t : tier) : jsstr := 34 :: (l ++ 34 :: ($", " ++ buildTierBodyExpr t)).

Lemma entry_piece cs l t : entry_text cs l t = piece_text (Piece (entry_pre cs) (tier_args l t)).
Proof.
  unfold entry_text, piece_text, entry_pre, tier_args, tier_text. cbn [pre args].
  destruct cs as [|c r]; js_lit; cbn [app]; rewrite <- ?app_assoc; cbn [app]; rewrite <- ?app_assoc; done.
Qed.

Lemma term_plain v N : forallb plain v = true -> num_text N -> forallb plain (term_text v N) = true.
Proof.
  intros Hv [_ HN]. unfold term_text. rewrite !forallb_app, Hv. assert (forallb plain N = true) as -> by (eapply forallb_impl; [apply numchar_plain|done]).
  by vm_compute.
Qed.

Lemma costs_plain l t :
  (forall f v, In (f, v) l -> forallb plain v = true /\ num_text (String_num (cost_of f t))) -> forallb plain (costs_text l t) = true.
Proof.
  induction l as [|[f v] l IH]; intros H; [done|]. unfold costs_text. cbn [flat_map]. fold (costs_text l t). rewrite forallb_app, IH.
  2:{ intros f' v' Hin. apply (H f' v'). by right. }
  rewrite andb_true_r. unfold cost_text. cbn [fst snd]. destruct (neqb _ _); [done|]. rewrite forallb_app.
  destruct (H f v) as [Hv Hn]; [by left|]. by rewrite term_plain.
Qed.

Lemma cache_vars_plain f v : In (f, v) CACHE_VAR_MAP -> forallb plain v = true.
Proof.
  intros H. assert (Hb : forallb (fun kv => forallb plain kv.2) CACHE_VAR_MAP = true) by (by vm_compute).
  rewrite forallb_forall in Hb. exact (Hb _ H).
Qed.

Lemma body_plain t : tier_ok t -> forallb plain (buildTierBodyExpr t) = true.
Proof.
  intros [_ [Hi _] [Ho _] Hp]. rewrite body_text, !forallb_app, !term_plain by done. rewrite costs_plain; [by vm_compute|].
  intros f v H. split; [by eapply cache_vars_plain|]. by destruct (Hp f v H).
Qed.

Lemma cond_quiet c : cond_ok c -> forallb quiet (cond_text c) = true.
Proof.
  intros (Hv & Ho & n & En & _ & Hf & _). rewrite (cond_text_eq c n En).
  assert (Hn : forallb quiet (String_num n) = true).
  { eapply forallb_impl; [|exact Hf]. intros x Hx. unfold quiet. rewrite numchar_plain by (by apply condchar_numchar).
    destruct (Z.eqb_spec x 42) as [->|]; [by vm_compute in Hx|done]. }
  rewrite !forallb_app. cbn [forallb]. rewrite forallb_app. cbn [forallb]. rewrite Hn.
  destruct Hv as [<-|[<-|[<-|[]]]]; destruct Ho as [<-|[<-|[<-|[<-|[]]]]]; by vm_compute.
Qed.

Lemma entry_pre_ok cs : Forall cond_ok cs -> forallb quiet (entry_pre cs) = true /\ is_ws (List.last (entry_pre cs) 0) = false /\ head_ok (entry_pre cs).
Proof.
  intros H. destruct cs as [|c cs]; [by vm_compute|]. inversion_clear H as [|?? Hc Hcs]. unfold entry_pre.
  split; [|split].
  - rewrite !forallb_app, cond_quiet by done. assert (forallb quiet (more_conds cs) = true) as ->; [|by vm_compute].
    induction Hcs as [|c' cs Hc' _ IH]; [done|]. unfold more_conds in *. cbn [map flat_map]. rewrite !forallb_app, cond_quiet, IH by done. by vm_compute.
  - by rewrite last_app_nonnil.
  - apply head_ok_app, head_ok_app. destruct Hc as (Hv & _). unfold cond_text. by destruct Hv as [<-|[<-|[<-|[]]]]; js_lit.
Qed.

Definition plain_label (l : jsstr) : Prop := forallb plain l = true.

Lemma args_ok l t : tier_ok t -> plain_label l -> forallb plain (tier_args l t) = true.
Proof.
  intros Ht Hl. unfold tier_args. cbn [forallb]. rewrite !forallb_app. cbn [forallb]. rewrite forallb_app, Hl, body_plain by done. by vm_compute.
Qed.

Lemma entry_piece_ok cs l t sep :
  Forall cond_ok cs -> tier_ok t -> plain_label l -> forallb quiet sep = true -> piece_ok (Piece (sep ++ entry_pre cs) (tier_args l t)).
Proof.
  intros Hc Ht Hl Hs. destruct (entry_pre_ok cs Hc) as (Hq & Hw & Hh). split; cbn [pre args].
  - by rewrite forallb_app, Hs, Hq.
  - rewrite last_app_nonnil; [done|by destruct (entry_pre cs)].
  - by apply args_ok.
Qed.

Definition entry_piece_of (sep : jsstr) (e : entry) : piece := Piece (sep ++ entry_pre e.1.1) (tier_args e.1.2 e.2).

Lemma entries_pieces e es :
  join $" : " (map entry_str (e :: es)) = pieces_text (entry_piece_of [] e :: map (entry_piece_of $" : ") es).
Proof.
  cbn [map]. rewrite join_flat. unfold pieces_text. cbn [flat_map]. f_equal; [unfold entry_str; by rewrite entry_piece|].
  induction es as [|e' es IH]; [done|]. cbn [map flat_map]. f_equal; [|done].
  unfold entry_str, entry_piece_of, piece_text. cbn [pre args]. rewrite entry_piece. unfold piece_text. cbn [pre args]. by rewrite <- app_assoc.
Qed.

Lemma default_label_plain i : 0 <= i -> plain_label (default_label i).
Proof.
  intros Hi. unfold plain_label, default_label. rewrite !forallb_app. apply andb_true_iff. split; [by vm_compute|].
  apply andb_true_iff. split; [|by vm_compute]. unfold Z_to_str. destruct (Z.ltb_spec (i + 1) 0); [lia|].
  eapply forallb_impl; [|apply dec_nonneg_digits; lia]. intros c Hc. unfold is_digit, plain in *. lia.
Qed.

Lemma label_or_plain l d : plain_label l -> plain_label d -> plain_label (label_or l d).
Proof. unfold label_or. by destruct l. Qed.

Lemma entries_pieces_ok i tiers sep :
  0 <= i -> Forall tier_fine tiers -> Forall (fun t => plain_label (label t)) tiers -> forallb quiet sep = true ->
  Forall piece_ok (map (entry_piece_of sep) (entries i tiers)).
Proof.
  intros Hi Hf Hl Hs. revert i Hi Hl. induction Hf as [|t r [Ht Hc] Hf IH]; intros i Hi Hl; [constructor|].
  inversion_clear Hl. cbn [entries map]. constructor; [|apply IH; [lia|done]].
  apply entry_piece_ok; [by destruct r|done| |done]. cbn [fst snd]. apply label_or_plain; [done|by apply default_label_plain].
Qed.

(** The expression of a configuration whose labels have no parentheses. *)
Lemma generated_base tiers :
  config_ok tiers -> Forall (fun t => plain_label (label t)) tiers -> base_text (generateExprFromVisualConfig (Some tiers)).
Proof.
  intros [Hn Hf _] Hl. destruct tiers as [|t [|t' r]]; [done| |].
  - inversion_clear Hf as [|?? [Ht Hc] _]. inversion_clear Hl as [|?? Hlt _]. rewrite (generate_one t t) by done.
    set (l := label_or (label t) $"default"). assert (Hll : plain_label l) by (by apply label_or_plain).
    pose proof (entry_piece_ok (written_conds t) l t [] Hc Ht Hll eq_refl) as Hp. cbn [app] in Hp.
    destruct (entry_pre_ok _ Hc) as (_ & _ & Hh). revert Hp Hh. destruct (written_conds t) as [|c cs]; intros Hp Hh.
    + change (tier_text l t) with (entry_text [] l t). rewrite entry_piece, <- (app_nil_r (piece_text _)). apply (pieces_base [_]); [by constructor|done|].
      apply head_ok_app. by apply head_ok_app.
    + rewrite entry_piece. apply zero_branch_base; [done|]. by apply head_ok_app.
  - rewrite generate_many by (cbn; lia). rewrite tier_parts_entries by (eapply Forall_impl; [exact Hf|]; by intros ? [_ ?]).
    pose proof (entries_pieces_ok 0 _ [] ltac:(lia) Hf Hl eq_refl) as H0.
    pose proof (entries_pieces_ok 0 _ $" : " ltac:(lia) Hf Hl eq_refl) as H1.
    destruct (entries 0 (t :: t' :: r)) as [|e es] eqn:E; [done|]. rewrite entries_pieces. apply pieces_base; [|done|].
    + constructor; [by inversion_clear H0|by inversion_clear H1].
    + unfold pieces_text. cbn [flat_map]. apply head_ok_app, head_ok_app. cbn [entries] in E. injection E as <- _.
      cbn [fst snd app pre]. apply entry_pre_ok. inversion_clear Hf as [|?? [_ Hc] _]. done.
Qed.

End TieredText.
