(* ===== verification/TieredEditor.v ===== *)
(** * The tiered price editor: handlers, effects, modes

    [web/src/pages/Setting/Ratio/components/TieredPricingEditor.jsx]: the price input, the
    handlers of the tier cards and of the rule cards, the presets, and the component
    itself, whose two modes share the billing expression and the request rules with the
    model being edited.  A commit of the component runs the effects whose dependencies
    changed, and applies what they call on the parent
    ([handleBillingExprChange], [handleRequestRuleExprChange] of
    [useModelPricingEditorState.js]) to the model. *)
From S2P Require Import Prelude JSNum JSValue Regex RequestRuleExpr RequestRuleRoundtrip RequestRuleGroups TieredPricing TieredRoundtrip.
From Stdlib Require Import SpecFloat.
#[local] Open Scope Z_scope.
#[local] Arguments js _ : simpl never.

Module TieredEditor.
Import RequestRuleExpr RequestRuleRoundtrip RequestRuleGroups TieredPricing TieredRoundtrip.

(** ** The price input *)

Definition unitCostToPrice (uc : num) : num := or_zero uc.
Definition priceToUnitCost (price : num) : num := or_zero price.

Definition price_text (price : num) : jsstr := if neqb price n0 then [] else String_num price.

(** The text when the input is mounted. *)
Definition price_mount (unitCost : num) : jsstr := price_text (unitCostToPrice unitCost).

(** The effect, run when the price of the model changed. *)
Definition price_effect (price : num) (text : jsstr) : jsstr :=
  if negb (nonempty text) && neqb price n0 then text
  else if negb (isNaN (Number_str text)) && neqb (Number_str text) price then text
  else price_text price.

(** The new text, and the unit cost the parent is told, if any. *)
Definition price_change (v : jsstr) : jsstr * option num :=
  (v, if negb (nonempty v) then Some n0
      else if isNaN (Number_str v) then None
      else Some (priceToUnitCost (Number_str v))).

(** Typing [v] into an input that shows [unitCost]: the text and the unit cost after the
    parent was told and the effect ran. *)
Definition type_price (unitCost : num) (v : jsstr) : jsstr * num :=
  match price_change v with
  | (text, None) => (text, unitCost)
  | (text, Some uc) => (price_effect (unitCostToPrice uc) text, uc)
  end.

(** ** The tiers *)

(** What a card changes of its tier. *)
Inductive patch :=
| PLabel (l : jsstr)
| PConditions (cs : list tcond)
| PInput (n : num)
| POutput (n : num)
| PCost (field : jsstr) (n : num)
| PCacheMode (m : cache_mode).

(** [{ ...tier, ...patch }]; the patch of a cache mode is the one [handleCacheModeChange] makes. *)
Definition apply_patch (p : patch) (t : tier) : tier :=
  match p with
  | PLabel l => Tier (tconditions t) (input_unit_cost t) (output_unit_cost t) l (cache t) (costs t)
  | PConditions cs => Tier cs (input_unit_cost t) (output_unit_cost t) (label t) (cache t) (costs t)
  | PInput n => Tier (tconditions t) n (output_unit_cost t) (label t) (cache t) (costs t)
  | POutput n => Tier (tconditions t) (input_unit_cost t) n (label t) (cache t) (costs t)
  | PCost f n => Tier (tconditions t) (input_unit_cost t) (output_unit_cost t) (label t) (cache t) (prop_set f n (costs t))
  | PCacheMode m =>
    Tier (tconditions t) (input_unit_cost t) (output_unit_cost t) (label t) (Some m)
      (match m with
       | Generic => prop_set $"cache_create_1h_unit_cost" n0 (costs t)
       | Timed => costs t
       end)
  end.

Definition updateTier (config : option (list tier)) (index : nat) (p : patch) : list tier :=
  alter (fun t => normalizeVisualTier (apply_patch p t)) index (normalizeVisualConfig config).

Definition first_condition : tcond := TCond $"len" $"<" (VNum (of_Z 200000)).

(** The last tier gets a condition, when it has none. *)
Fixpoint condition_last (l : list tier) : list tier :=
  match l with
  | [] => []
  | [t] => [match tconditions t with [] => apply_patch (PConditions [first_condition]) t | _ => t end]
  | t :: r => t :: condition_last r
  end.

Definition new_tier (n : Z) : tier := Tier [] n0 n0 ($"第" ++ Z_to_str n ++ $"档") (Some Generic) [].

Definition addTier (config : option (list tier)) : list tier :=
  let tiers := condition_last (normalizeVisualConfig config) in
  tiers ++ [new_tier (Z.of_nat (length tiers) + 1)].

(** The last tier loses its conditions. *)
Fixpoint clear_last (l : list tier) : list tier :=
  match l with
  | [] => []
  | [t] => [apply_patch (PConditions []) t]
  | t :: r => t :: clear_last r
  end.

Fixpoint remove_at {A} (i : nat) (l : list A) : list A :=
  match l, i with
  | [], _ => []
  | _ :: r, O => r
  | x :: r, S j => x :: remove_at j r
  end.

(** [None]: nothing is reported. *)
Definition removeTier (config : option (list tier)) (index : nat) : option (list tier) :=
  let tiers := normalizeVisualConfig config in
  if (length tiers <=? 1)%nat then None else Some (clear_last (remove_at index tiers)).

(** The handlers of a card: the patch each reports. *)
Definition updateCondition (conditions : list tcond) (ci : nat) (c : tcond) : patch :=
  PConditions (<[ci := c]> conditions).

Definition removeCondition (conditions : list tcond) (ci : nat) : patch := PConditions (remove_at ci conditions).

Definition addCondition (conditions : list tcond) : option patch :=
  if (2 <=? length conditions)%nat then None
  else
    let nextVar := if existsb (fun c => var c =s? $"len") conditions then $"c" else $"len" in
    Some (PConditions (conditions ++ [TCond nextVar $"<" (VNum (of_Z 200000))])).

(** ** The request rules *)

(** The controls of a condition row; each works on the normalized condition. *)
Inductive row_edit :=
| RSource (s : source) | RTimeFunc (f : time_func) | RTimezone (tz : jsstr) | RMode (m : mode)
| RRangeStart (v : jsstr) | RRangeEnd (v : jsstr) | RValue (v : jsstr) | RPath (p : jsstr).

Definition edit_condition (e : row_edit) (c : cond) : cond :=
  let n := normalizeCondition c in
  match e with
  | RSource SOURCE_TIME => normalizeCondition (time_cond Hour $"Asia/Shanghai" MATCH_GTE VUndef VUndef VUndef)
  | RSource s => normalizeCondition (req_cond s [] MATCH_EQ VUndef)
  | RTimeFunc f => Cond (source_ n) (path n) (mode_ n) (value n) (Some f) (timezone n) (rangeStart n) (rangeEnd n)
  | RTimezone tz => Cond (source_ n) (path n) (mode_ n) (value n) (timeFunc n) (Some tz) (rangeStart n) (rangeEnd n)
  | RMode m =>
    let v := if bool_decide (source_ n <> Some SOURCE_TIME) && bool_decide (m = MATCH_EXISTS) then VStr [] else value n in
    normalizeCondition (Cond (source_ n) (path n) (Some m) v (timeFunc n) (timezone n) (rangeStart n) (rangeEnd n))
  | RRangeStart v => Cond (source_ n) (path n) (mode_ n) (value n) (timeFunc n) (timezone n) (VStr v) (rangeEnd n)
  | RRangeEnd v => Cond (source_ n) (path n) (mode_ n) (value n) (timeFunc n) (timezone n) (rangeStart n) (VStr v)
  | RValue v => Cond (source_ n) (path n) (mode_ n) (VStr v) (timeFunc n) (timezone n) (rangeStart n) (rangeEnd n)
  | RPath p => Cond (source_ n) (Some p) (mode_ n) (value n) (timeFunc n) (timezone n) (rangeStart n) (rangeEnd n)
  end.

(** The handlers of a rule card. *)
Definition rule_updateCondition (g : group) (ci : nat) (c : cond) : group := Group (<[ci := c]> (conditions g)) (multiplier g).

Definition rule_removeCondition (g : group) (ci : nat) : group :=
  Group (match remove_at ci (conditions g) with [] => [createEmptyCondition] | l => l end) (multiplier g).

Definition rule_addCondition (g : group) (c : cond) : group := Group (conditions g ++ [c]) (multiplier g).

Definition rule_multiplier_change (g : group) (v : jsstr) : group := Group (conditions g) v.

(** ** The component *)

Inductive emode := Visual | Raw.

#[export] Instance emode_eq_dec : EqDecision emode.
Proof. solve_decision. Defined.

Record ed := Ed {
  editorMode : emode; visualConfig : option (list tier); rawExpr : jsstr; requestRuleGroups : list group
}.

(** The model the component edits: its name, and the two expressions it shares. *)
Record props := Props { model_name : jsstr; currentExpr : jsstr; currentRequestRuleExpr : jsstr }.

(** What the component calls on its parent. *)
Inductive call_ := OnExprChange (e : jsstr) | OnRequestRuleExprChange (e : jsstr).

Definition on_call (p : props) (c : call_) : props :=
  match c with
  | OnExprChange e => Props (model_name p) e (currentRequestRuleExpr p)
  | OnRequestRuleExprChange e => Props (model_name p) (currentExpr p) e
  end.

Definition effectiveExpr (s : ed) : outcome jsstr :=
  match editorMode s with
  | Visual => Ret (generateExprFromVisualConfig (visualConfig s))
  | Raw => match splitBillingExprAndRequestRules (rawExpr s) with
           | Ret (billingExpr, _) => Ret billingExpr
           | Throw => Throw
           end
  end.

(** The effect that loads a model. *)
Definition load_effect (e : jsstr) (s : ed) : ed :=
  match tryParseVisualConfig e with
  | Some parsed => Ed Visual (Some parsed) e (requestRuleGroups s)
  | None => if nonempty e then Ed Raw None e (requestRuleGroups s)
            else Ed Visual (Some createDefaultVisualConfig) [] (requestRuleGroups s)
  end.

(** The effect that follows the rules of the model. *)
Definition rules_effect (parsed : option (list group)) (s : ed) : ed :=
  Ed (editorMode s) (visualConfig s) (rawExpr s) (default [] parsed).

(** The effect that reports the expression. *)
Definition sync_effect (eff current : jsstr) : list call_ := if eff =s? current then [] else [OnExprChange eff].

(** The dependencies the effects last ran with: rules, name, effective expression. *)
Record deps := Deps { d_rules : jsstr; d_name : jsstr; d_expr : jsstr }.

Record world := World { w_props : props; w_ed : ed; w_deps : option deps }.

Definition changed (old : option deps) (f : deps -> jsstr) (v : jsstr) : bool :=
  match old with None => true | Some d => negb (f d =s? v) end.

(** The first render: nothing ran yet. *)
Definition mount (p : props) : outcome world :=
  match tryParseRequestRuleExpr (currentRequestRuleExpr p) with
  | Ret parsed => Ret (World p (Ed Visual None [] (default [] parsed)) None)
  | Throw => Throw
  end.

(** A commit: the effects run, in order, with the values of the render, then the calls
    update the parent and the component is rendered again. *)
Definition commit (w : world) : outcome (world * list call_) :=
  match tryParseRequestRuleExpr (currentRequestRuleExpr (w_props w)), effectiveExpr (w_ed w) with
  | Ret parsed, Ret eff =>
    let p := w_props w in
    let s1 := if changed (w_deps w) d_rules (currentRequestRuleExpr p) then rules_effect parsed (w_ed w) else w_ed w in
    let s2 := if changed (w_deps w) d_name (model_name p) then load_effect (currentExpr p) s1 else s1 in
    let calls := if changed (w_deps w) d_expr eff then sync_effect eff (currentExpr p) else [] in
    Ret (World (fold_left on_call calls p) s2 (Some (Deps (currentRequestRuleExpr p) (model_name p) eff)), calls)
  | _, _ => Throw
  end.

(** *** Handlers *)

Definition set_groups (gs : list group) (s : ed) : ed := Ed (editorMode s) (visualConfig s) (rawExpr s) gs.

Definition handleRequestRuleGroupsChange (gs : list group) (s : ed) : ed * list call_ :=
  (set_groups gs s, [OnRequestRuleExprChange (buildRequestRuleExpr gs)]).

Definition handleVisualChange (c : list tier) (s : ed) : ed * list call_ :=
  (Ed (editorMode s) (Some c) (rawExpr s) (requestRuleGroups s), []).

Definition handleRawChange (v : jsstr) (s : ed) : outcome (ed * list call_) :=
  match splitBillingExprAndRequestRules v with
  | Ret (_, ruleStr) =>
    Ret (Ed (editorMode s) (visualConfig s) v (requestRuleGroups s), [OnRequestRuleExprChange ruleStr])
  | Throw => Throw
  end.

Definition or_str (a b : jsstr) : jsstr := if nonempty a then a else b.

Definition handleModeSwitch (m : emode) (s : ed) : outcome (ed * list call_) :=
  match m with
  | Visual =>
    match splitBillingExprAndRequestRules (rawExpr s) with
    | Ret (billingExpr, ruleStr) =>
      match tryParseRequestRuleExpr ruleStr with
      | Ret parsedGroups =>
        Ret (Ed Visual (Some (default createDefaultVisualConfig (tryParseVisualConfig billingExpr))) (rawExpr s)
               (default [] parsedGroups), [OnRequestRuleExprChange ruleStr])
      | Throw => Throw
      end
    | Throw => Throw
    end
  | Raw =>
    let expr := generateExprFromVisualConfig (visualConfig s) in
    let ruleExpr := buildRequestRuleExpr (requestRuleGroups s) in
    Ret (Ed Raw (visualConfig s) (or_str (combineBillingExpr expr ruleExpr) expr) (requestRuleGroups s), [])
  end.

Record preset := Preset { preset_key : jsstr; preset_expr : jsstr; preset_rules : list group }.

Definition applyPreset (p : preset) (s : ed) : ed * list call_ :=
  let ruleExpr := buildRequestRuleExpr (preset_rules p) in
  let combined := or_str (combineBillingExpr (preset_expr p) ruleExpr) (preset_expr p) in
  let '(m, c) := match tryParseVisualConfig (preset_expr p) with
                 | Some parsed => (editorMode s, Some parsed)
                 | None => (Raw, None)
                 end in
  (Ed m c combined (preset_rules p), [OnRequestRuleExprChange ruleExpr]).

(** An event: a handler runs, the parent is told, the component is rendered again. *)
Definition after_event (w : world) (r : ed * list call_) : world :=
  World (fold_left on_call r.2 (w_props w)) r.1 (w_deps w).

(** The rules part of the form: replace a card, remove one, add one. *)
Definition change_group (gi : nat) (g : group) (s : ed) : ed * list call_ :=
  handleRequestRuleGroupsChange (<[gi := g]> (requestRuleGroups s)) s.
Definition remove_group (gi : nat) (s : ed) : ed * list call_ :=
  handleRequestRuleGroupsChange (remove_at gi (requestRuleGroups s)) s.
Definition add_group (s : ed) : ed * list call_ :=
  handleRequestRuleGroupsChange (requestRuleGroups s ++ [createEmptyRuleGroup]) s.

(** ** The presets *)

Definition shanghai : jsstr := $"Asia/Shanghai".

(** The presets of the groups of [PRESET_GROUPS], in order; group names and labels are shown only. *)
Definition PRESET_GROUPS : list preset :=
  [Preset $"flat"
    ($"tier(" ++ dq ++ $"base" ++ dq ++ $", p * 2 + c * 4)")
    [];
   Preset $"claude-opus"
    ($"tier(" ++ dq ++ $"base" ++ dq ++ $", p * 5 + c * 25 + cr * 0.5 + cc * 6.25 + cc1h * 10)")
    [];
   Preset $"gpt-5.4"
    ($"len <= 272000 ? tier(" ++ dq ++ $"standard" ++ dq ++ $", p * 2.5 + c * 15 + cr * 0.25) : tier(" ++ dq ++ $"long_context" ++ dq ++ $", p * 5 + c * 22.5 + cr * 0.5)")
    [];
   Preset $"claude-sonnet"
    ($"len <= 200000 ? tier(" ++ dq ++ $"standard" ++ dq ++ $", p * 3 + c * 15 + cr * 0.3 + cc * 3.75 + cc1h * 6) : tier(" ++ dq ++ $"long_context" ++ dq ++ $", p * 6 + c * 22.5 + cr * 0.6 + cc * 7.5 + cc1h * 12)")
    [];
   Preset $"qwen3-max"
    ($"len <= 32000 ? tier(" ++ dq ++ $"short" ++ dq ++ $", p * 1.2 + c * 6 + cr * 0.24 + cc * 1.5) : len <= 128000 ? tier(" ++ dq ++ $"mid" ++ dq ++ $", p * 2.4 + c * 12 + cr * 0.48 + cc * 3) : tier(" ++ dq ++ $"long" ++ dq ++ $", p * 3 + c * 15 + cr * 0.6 + cc * 3.75)")
    [];
   Preset $"glm-4.5-air"
    ($"len < 32000 && c < 200 ? tier(" ++ dq ++ $"short_output" ++ dq ++ $", p * 0.8 + c * 2 + cr * 0.16) : len < 32000 && c >= 200 ? tier(" ++ dq ++ $"long_output" ++ dq ++ $", p * 0.8 + c * 6 + cr * 0.16) : tier(" ++ dq ++ $"mid_context" ++ dq ++ $", p * 1.2 + c * 8 + cr * 0.24)")
    [];
   Preset $"doubao-seed-1.8"
    ($"len <= 32000 && c <= 200 ? tier(" ++ dq ++ $"discount" ++ dq ++ $", p * 0.8 + c * 2 + cr * 0.16 + cc * 0.17) : len <= 32000 ? tier(" ++ dq ++ $"short" ++ dq ++ $", p * 0.8 + c * 8 + cr * 0.16 + cc * 0.17) : len <= 128000 ? tier(" ++ dq ++ $"mid" ++ dq ++ $", p * 1.2 + c * 16 + cr * 0.16 + cc * 0.17) : tier(" ++ dq ++ $"long" ++ dq ++ $", p * 2.4 + c * 24 + cr * 0.16 + cc * 0.17)")
    [];
   Preset $"gpt-image-1-mini"
    ($"tier(" ++ dq ++ $"base" ++ dq ++ $", p * 2 + c * 8 + img * 2.5)")
    [];
   Preset $"gemini-2.5-flash"
    ($"tier(" ++ dq ++ $"base" ++ dq ++ $", p * 0.3 + c * 2.5 + cr * 0.03 + ai * 1.0)")
    [];
   Preset $"gemini-3-pro-image"
    ($"tier(" ++ dq ++ $"base" ++ dq ++ $", p * 2 + c * 12 + img_o * 120)")
    [];
   Preset $"qwen3-omni-flash"
    ($"tier(" ++ dq ++ $"base" ++ dq ++ $", p * 0.43 + c * 3.06 + img * 0.78 + ai * 3.81 + ao * 15.11)")
    [];
   Preset $"claude-opus-fast"
    ($"tier(" ++ dq ++ $"base" ++ dq ++ $", p * 5 + c * 25 + cr * 0.5 + cc * 6.25 + cc1h * 10)")
    [Group [req_cond SOURCE_HEADER $"anthropic-beta" MATCH_CONTAINS (VStr $"fast-mode-2026-02-01")] $"6"];
   Preset $"gpt-5.4-tiers"
    ($"len <= 272000 ? tier(" ++ dq ++ $"standard" ++ dq ++ $", p * 2.5 + c * 15 + cr * 0.25) : tier(" ++ dq ++ $"long_context" ++ dq ++ $", p * 5 + c * 22.5 + cr * 0.5)")
    [Group [req_cond SOURCE_PARAM $"service_tier" MATCH_EQ (VStr $"priority")] $"2";
     Group [req_cond SOURCE_PARAM $"service_tier" MATCH_EQ (VStr $"flex")] $"0.5"];
   Preset $"night-discount"
    ($"tier(" ++ dq ++ $"base" ++ dq ++ $", p * 3 + c * 15)")
    [Group [time_cond Hour shanghai MATCH_RANGE VUndef (VStr $"21") (VStr $"6")] $"0.5"];
   Preset $"weekend-discount"
    ($"tier(" ++ dq ++ $"base" ++ dq ++ $", p * 3 + c * 15)")
    [Group [time_cond Weekday shanghai MATCH_EQ (VStr $"0") VUndef VUndef] $"0.8";
     Group [time_cond Weekday shanghai MATCH_EQ (VStr $"6") VUndef VUndef] $"0.8"];
   Preset $"new-year-promo"
    ($"tier(" ++ dq ++ $"base" ++ dq ++ $", p * 3 + c * 15)")
    [Group [time_cond Month shanghai MATCH_EQ (VStr $"1") VUndef VUndef;
            time_cond Day shanghai MATCH_EQ (VStr $"1") VUndef VUndef] $"0.5"]].

End TieredEditor.
