(* ===== verification/TieredEditorProofs.v ===== *)
(** * The tiered price editor: what it promises

    Opening settles on the model's expression; an event of the editor reaches the model;
    switching modes changes neither prices nor rules; rule cards that are not complete are
    lost when another card changes the rules; the tier cards keep their shape; typed
    prices stay as typed; every preset is read. *)
From S2P Require Import Prelude JSNum JSValue Regex RequestRuleExpr RequestRuleRoundtrip RequestRuleGroups TieredPricing TieredRoundtrip TieredText TieredEditor.
From Stdlib Require Import SpecFloat.
#[local] Open Scope Z_scope.
#[local] Arguments js _ : simpl never.

Module TieredEditorProofs.
Import RequestRuleExpr RequestRuleRoundtrip RequestRuleGroups TieredPricing TieredRoundtrip TieredText TieredEditor.

(** ** Settling *)

(** Nothing is left to run: the effects ran with the present values, and the model has the
    expression of the editor. *)
Record settled (w : world) : Prop := Settled {
  st_rules : exists parsed, tryParseRequestRuleExpr (currentRequestRuleExpr (w_props w)) = Ret parsed;
  st_expr : effectiveExpr (w_ed w) = Ret (currentExpr (w_props w));
  st_deps : w_deps w = Some (Deps (currentRequestRuleExpr (w_props w)) (model_name (w_props w)) (currentExpr (w_props w)))
}.

Lemma settled_idle w : settled w -> commit w = Ret (w, []).
Proof.
  intros [[parsed Hr] He Hd]. unfold commit. rewrite Hr, He, Hd. destruct w as [[nm e r] s d]. cbn in *. subst d.
  by rewrite !str_eqb_refl.
Qed.

Lemma effective_groups m c r gs gs' : effectiveExpr (Ed m c r gs) = effectiveExpr (Ed m c r gs').
Proof. done. Qed.

Lemma effective_rules parsed s : effectiveExpr (rules_effect parsed s) = effectiveExpr s.
Proof. done. Qed.

Lemma sync_props eff p : fold_left on_call (sync_effect eff (currentExpr p)) p = Props (model_name p) eff (currentRequestRuleExpr p).
Proof. unfold sync_effect. destruct (str_eqb_spec eff (currentExpr p)) as [->|]; [by destruct p|done]. Qed.

(** A commit that loads no model settles. *)
Lemma commit_settles p s d parsed e :
  tryParseRequestRuleExpr (currentRequestRuleExpr p) = Ret parsed -> effectiveExpr s = Ret e ->
  d_name d = model_name p -> (d_expr d = e -> currentExpr p = e) ->
  exists calls,
    commit (World p s (Some d))
    = Ret (World (Props (model_name p) e (currentRequestRuleExpr p))
                 (if d_rules d =s? currentRequestRuleExpr p then s else rules_effect parsed s)
                 (Some (Deps (currentRequestRuleExpr p) (model_name p) e)), calls)
    /\ settled (World (Props (model_name p) e (currentRequestRuleExpr p))
                 (if d_rules d =s? currentRequestRuleExpr p then s else rules_effect parsed s)
                 (Some (Deps (currentRequestRuleExpr p) (model_name p) e))).
Proof.
  intros Hr He Hn Hx. unfold commit. cbn [w_props w_ed w_deps changed]. rewrite Hr, He, Hn, str_eqb_refl. cbn [negb].
  eexists. split.
  - f_equal. f_equal. f_equal; [|by destruct (d_rules d =s? _)]. destruct (str_eqb_spec (d_expr d) e) as [E|E]; cbn [negb].
    + cbn. rewrite <- (Hx E) at 1. by destruct p.
    + apply sync_props.
  - split; cbn; [by exists parsed| |done]. by destruct (d_rules d =s? _).
Qed.

(** *** Opening *)

Lemma open_commits p parsed e :
  tryParseRequestRuleExpr (currentRequestRuleExpr p) = Ret parsed ->
  effectiveExpr (load_effect (currentExpr p) (Ed Visual None [] (default [] parsed))) = Ret e ->
  exists w0 w1 w2 c1 c2,
    mount p = Ret w0 /\ commit w0 = Ret (w1, c1) /\ commit w1 = Ret (w2, c2) /\ settled w2
    /\ w_props w2 = Props (model_name p) e (currentRequestRuleExpr p)
    /\ w_ed w2 = load_effect (currentExpr p) (Ed Visual None [] (default [] parsed)).
Proof.
  intros Hr He. unfold mount. rewrite Hr.
  set (s0 := Ed Visual None [] (default [] parsed)) in *.
  assert (H1 : commit (World p s0 None)
    = Ret (World (Props (model_name p) NO_PRICE (currentRequestRuleExpr p)) (load_effect (currentExpr p) s0)
             (Some (Deps (currentRequestRuleExpr p) (model_name p) NO_PRICE)), sync_effect NO_PRICE (currentExpr p))).
  { unfold commit. cbn [w_props w_ed w_deps changed]. rewrite Hr. change (effectiveExpr s0) with (Ret NO_PRICE). cbv iota beta zeta.
    rewrite sync_props. done. }
  set (p1 := Props (model_name p) NO_PRICE (currentRequestRuleExpr p)) in *.
  destruct (commit_settles p1 (load_effect (currentExpr p) s0) (Deps (currentRequestRuleExpr p) (model_name p) NO_PRICE) parsed e)
    as (c2 & H2 & Hs); [exact Hr|exact He|done|done|]. cbn [d_rules p1 model_name currentRequestRuleExpr] in H2, Hs.
  rewrite str_eqb_refl in H2, Hs. eexists _, _, _, _, c2. split; [done|]. split; [exact H1|]. split; [exact H2|]. done.
Qed.

(** Opening the editor on a model settles after two commits, whatever its expression: the
    model then has the expression of the editor that loaded it (the first commit reports
    the empty price, the second corrects it), and its rules are untouched. *)
Theorem opening_settles p parsed e :
  tryParseRequestRuleExpr (currentRequestRuleExpr p) = Ret parsed ->
  effectiveExpr (load_effect (currentExpr p) (Ed Visual None [] (default [] parsed))) = Ret e ->
  exists w0 w1 w2 c1 c2,
    mount p = Ret w0 /\ commit w0 = Ret (w1, c1) /\ commit w1 = Ret (w2, c2) /\ commit w2 = Ret (w2, [])
    /\ w_props w2 = Props (model_name p) e (currentRequestRuleExpr p)
    /\ w_ed w2 = load_effect (currentExpr p) (Ed Visual None [] (default [] parsed)).
Proof.
  intros Hr He. destruct (open_commits p parsed e Hr He) as (w0 & w1 & w2 & c1 & c2 & H0 & H1 & H2 & Hs & H).
  exists w0, w1, w2, c1, c2. by rewrite (settled_idle w2 Hs).
Qed.

(** A model whose expression the visual editor wrote keeps it when it is opened, and the
    form shows its tiers. *)
Theorem opening_keeps_expression nm tiers gs :
  config_ok tiers -> Forall wf_group gs ->
  let p := Props nm (generateExprFromVisualConfig (Some tiers)) (buildRequestRuleExpr gs) in
  exists w0 w1 w2 c1 c2,
    mount p = Ret w0 /\ commit w0 = Ret (w1, c1) /\ commit w1 = Ret (w2, c2) /\ commit w2 = Ret (w2, [])
    /\ w_props w2 = p
    /\ w_ed w2 = Ed Visual (Some (canon_config tiers)) (generateExprFromVisualConfig (Some tiers)) gs.
Proof.
  intros Hc Hg p. destruct (open_commits p (Some gs) (currentExpr p)) as (w0 & w1 & w2 & c1 & c2 & H0 & H1 & H2 & Hs & Hp & Hw).
  - by apply parse_built.
  - unfold load_effect, p. cbn [currentExpr]. rewrite parse_generated by done. unfold effectiveExpr. cbn [editorMode visualConfig].
    by rewrite generate_canon.
  - exists w0, w1, w2, c1, c2. rewrite (settled_idle w2 Hs), Hp, Hw. unfold load_effect, p. cbn [currentExpr].
    by rewrite parse_generated.
Qed.

(** *** Events *)

(** After an event the model has what the editor shows, and the cards follow the rules of
    the model if the event changed them. *)
Lemma event_settles w s calls (p := fold_left on_call calls (w_props w)) parsed e :
  settled w -> model_name p = model_name (w_props w) -> currentExpr p = currentExpr (w_props w) ->
  tryParseRequestRuleExpr (currentRequestRuleExpr p) = Ret parsed -> effectiveExpr s = Ret e ->
  exists w' c,
    commit (after_event w (s, calls)) = Ret (w', c) /\ settled w'
    /\ w_props w' = Props (model_name p) e (currentRequestRuleExpr p)
    /\ w_ed w' = if currentRequestRuleExpr (w_props w) =s? currentRequestRuleExpr p then s else rules_effect parsed s.
Proof.
  intros [Hr0 He0 Hd] Hn Hx Hr He. unfold after_event. cbn [fst snd]. rewrite Hd.
  destruct (commit_settles p s (Deps (currentRequestRuleExpr (w_props w)) (model_name (w_props w)) (currentExpr (w_props w))) parsed e)
    as (c & H1 & Hs); [done|done|done|cbn; by rewrite Hx|].
  cbn [d_rules] in H1, Hs. eexists _, c. split; [exact H1|]. done.
Qed.

(** ** Rule cards *)

Definition complete_group (g : group) : bool := nonempty (buildRuleGroupFactor g).

Lemma build_complete gs : buildRequestRuleExpr gs = buildRequestRuleExpr (List.filter complete_group gs).
Proof.
  unfold buildRequestRuleExpr. f_equal. induction gs as [|g gs IH]; [done|]. cbn [map List.filter].
  unfold complete_group at 1. unfold filter_Boolean in *. cbn [List.filter]. destruct (nonempty (buildRuleGroupFactor g)) eqn:E; [|done].
  cbn [map List.filter]. by rewrite E, IH.
Qed.

(** A card is complete and read back, or it is not written at all. *)
Definition card_ok (g : group) : Prop := wf_group g \/ buildRuleGroupFactor g = [].

Lemma cards_parse gs :
  Forall card_ok gs -> tryParseRequestRuleExpr (buildRequestRuleExpr gs) = Ret (Some (List.filter complete_group gs)).
Proof.
  intros H. rewrite build_complete. apply parse_built. apply List.Forall_forall. intros g [Hg Hc]%filter_In.
  rewrite List.Forall_forall in H. destruct (H g Hg) as [|E]; [done|]. unfold complete_group in Hc. by rewrite E in Hc.
Qed.

(** When a change of the cards changes the rules of the model, the cards that are not
    complete (a multiplier that was cleared, an empty condition) disappear from the form;
    a change that does not change the rules keeps every card. *)
Theorem incomplete_cards_lost w gs :
  settled w -> editorMode (w_ed w) = Visual -> Forall card_ok gs ->
  exists w' c,
    commit (after_event w (handleRequestRuleGroupsChange gs (w_ed w))) = Ret (w', c) /\ commit w' = Ret (w', [])
    /\ w_props w' = Props (model_name (w_props w)) (currentExpr (w_props w)) (buildRequestRuleExpr gs)
    /\ requestRuleGroups (w_ed w')
       = if currentRequestRuleExpr (w_props w) =s? buildRequestRuleExpr gs then gs else List.filter complete_group gs.
Proof.
  intros Hw Hm Hg. pose proof (st_expr w Hw) as He.
  destruct (event_settles w (set_groups gs (w_ed w)) [OnRequestRuleExprChange (buildRequestRuleExpr gs)]
              (Some (List.filter complete_group gs)) (currentExpr (w_props w))) as (w' & c & H1 & Hs & Hp & Hed);
    [done|done|done|by apply cards_parse| |].
  { revert He. unfold effectiveExpr, set_groups. by rewrite Hm. }
  exists w', c. split; [exact H1|]. rewrite (settled_idle w' Hs), Hp, Hed. cbn [fold_left on_call currentRequestRuleExpr]. 
  by destruct (_ =s? _).
Qed.

(** ** Modes *)

Lemma combined_splits s gs :
  base_text s -> Forall wf_group gs ->
  splitBillingExprAndRequestRules (or_str (combineBillingExpr s (buildRequestRuleExpr gs)) s) = Ret (s, buildRequestRuleExpr gs).
Proof.
  intros [Hn Ht Hb He Hu Ha] Hg. destruct (decide (gs = [])) as [->|Hne].
  - unfold combineBillingExpr. change (trim (buildRequestRuleExpr [])) with (@nil Z). rewrite Ht.
    destruct s as [|c s]; [done|]. exact Ha.
  - rewrite <- Hu at 3. rewrite <- (split_combine s gs) by done. f_equal. unfold or_str.
    destruct (nonempty _) eqn:E; [done|]. exfalso. pose proof (split_combine s gs Hn Ht Hb He Hg Hne) as H.
    destruct (combineBillingExpr s _) as [|]; [|done]. change (splitBillingExprAndRequestRules []) with (Ret (@nil Z, @nil Z)) in H. rewrite Hu in H.
    injection H as H _. by destruct s.
Qed.

(** C11: take a settled editor whose form can be read back ([config_ok]: no double quote in
    a label, every tier but the last with a complete condition, numbers that are read back
    from their text), whose labels have no parentheses and whose rule cards are well formed
    and are the rules of the model. Switching to the expression and back settles after every
    switch and leaves the model as it was in both modes, the same price and the same rules;
    the cards are the same, and the form has its tiers as they are written: complete
    conditions only, and the labels that were shown ([canon_config]). *)
Theorem mode_switch_roundtrip w tiers raw gs :
  settled w -> w_ed w = Ed Visual (Some tiers) raw gs -> currentRequestRuleExpr (w_props w) = buildRequestRuleExpr gs ->
  config_ok tiers -> Forall (fun t => plain_label (label t)) tiers -> Forall wf_group gs ->
  exists r1 w1 c1 r2 w2 c2,
    handleModeSwitch Raw (w_ed w) = Ret r1 /\ commit (after_event w r1) = Ret (w1, c1) /\ commit w1 = Ret (w1, [])
    /\ editorMode (w_ed w1) = Raw /\ w_props w1 = w_props w
    /\ handleModeSwitch Visual (w_ed w1) = Ret r2 /\ commit (after_event w1 r2) = Ret (w2, c2) /\ commit w2 = Ret (w2, [])
    /\ w_ed w2 = Ed Visual (Some (canon_config tiers)) (rawExpr (w_ed w1)) gs /\ w_props w2 = w_props w.
Proof.
  intros Hw Hed Hr Hc Hl Hg. pose proof (st_expr w Hw) as He. rewrite Hed in He |- *.
  set (T := generateExprFromVisualConfig (Some tiers)) in *.
  assert (HT : T = currentExpr (w_props w)) by (by apply Ret_inj). clear He. rename HT into He.
  set (raw' := or_str (combineBillingExpr T (buildRequestRuleExpr gs)) T).
  pose proof (combined_splits T gs (generated_base tiers Hc Hl) Hg) as Hs. fold raw' in Hs.
  assert (Hp : w_props w = Props (model_name (w_props w)) T (buildRequestRuleExpr gs)) by (rewrite He, <- Hr; by destruct (w_props w)).
  destruct (event_settles w (Ed Raw (Some tiers) raw' gs) [] (Some gs) T) as (w1 & c1 & H1 & Hs1 & Hp1 & Hed1).
  { done. } { done. } { done. } { cbn [fold_left]. rewrite Hr. by apply parse_built. }
  { unfold effectiveExpr. cbn [editorMode rawExpr]. by rewrite Hs. }
  cbn [fold_left] in Hp1, Hed1. rewrite str_eqb_refl in Hed1. rewrite Hr, <- Hp in Hp1.
  destruct (event_settles w1 (Ed Visual (Some (canon_config tiers)) raw' gs) [OnRequestRuleExprChange (buildRequestRuleExpr gs)] (Some gs) T)
    as (w2 & c2 & H2 & Hs2 & Hp2 & Hed2); [done|done|done|by apply parse_built| |].
  { unfold effectiveExpr. cbn [editorMode visualConfig]. by rewrite generate_canon. }
  cbn [fold_left on_call currentRequestRuleExpr model_name] in Hp2, Hed2. rewrite Hp1 in Hp2, Hed2. rewrite <- Hp in Hp2. rewrite Hr, str_eqb_refl in Hed2.
  eexists _, w1, c1, _, w2, c2. split; [reflexivity|]. split; [exact H1|]. split; [by apply settled_idle|].
  rewrite Hed1. split; [done|]. split; [done|]. split.
  { unfold handleModeSwitch. cbn [rawExpr]. rewrite Hs, parse_built by done. unfold T. rewrite parse_generated by done. reflexivity. }
  cbn [from_option id default]. split; [exact H2|]. split; [by apply settled_idle|]. by rewrite Hed2.
Qed.

(** ** The tier cards *)

(** What the selects of a condition row offer. *)
Definition cond_shape (c : tcond) : Prop := In (var c) VARS /\ In (op c) OPS.

Definition conds_shape (cs : list tcond) : Prop := (length cs <= 2)%nat /\ Forall cond_shape cs.

(** At least one tier, at most two conditions each, none on the last of several tiers. *)
Definition shape (c : list tier) : Prop :=
  c <> [] /\ forall i t, c !! i = Some t ->
    conds_shape (tconditions t) /\ (S i = length c -> (2 <= length c)%nat -> tconditions t = []).

(** The card of tier [i] shows its conditions: it is not the last one, or the only one. *)
Definition shows_conditions (i : nat) (c : list tier) : Prop := S i <> length c \/ length c = 1%nat.

Definition keeps_conditions (p : patch) : bool := match p with PConditions _ => false | _ => true end.

(** The events of the form on its configuration: the edits of its cards, a preset, a fresh
    start, and a switch to the expression and back, or a later opening, of a form that can be
    read back. *)
Inductive vstep (c : list tier) : list tier -> Prop :=
| v_field i p : keeps_conditions p = true -> vstep c (updateTier (Some c) i p)
| v_update i t ci x : c !! i = Some t -> shows_conditions i c -> (ci < length (tconditions t))%nat -> cond_shape x ->
    vstep c (updateTier (Some c) i (updateCondition (tconditions t) ci x))
| v_remove_cond i t ci : c !! i = Some t -> shows_conditions i c ->
    vstep c (updateTier (Some c) i (removeCondition (tconditions t) ci))
| v_add_cond i t p : c !! i = Some t -> shows_conditions i c -> addCondition (tconditions t) = Some p ->
    vstep c (updateTier (Some c) i p)
| v_add : vstep c (addTier (Some c))
| v_remove i c' : removeTier (Some c) i = Some c' -> vstep c c'
| v_preset p c' : In p PRESET_GROUPS -> tryParseVisualConfig (preset_expr p) = Some c' -> vstep c c'
| v_fresh : vstep c createDefaultVisualConfig
| v_reopen c' : config_ok c -> tryParseVisualConfig (generateExprFromVisualConfig (Some c)) = Some c' -> vstep c c'.

(** The same, and opening or switching to a text that was written elsewhere. *)
Inductive astep (c : list tier) : list tier -> Prop :=
| a_form c' : vstep c c' -> astep c c'
| a_read e c' : tryParseVisualConfig e = Some c' -> astep c c'.

(** A tier at least, and conditions on what is offered only. *)
Definition offered (c : list tier) : Prop := c <> [] /\ Forall (fun t => Forall cond_shape (tconditions t)) c.

Lemma config_some c : c <> [] -> normalizeVisualConfig (Some c) = map normalizeVisualTier c.
Proof. by destruct c. Qed.

Lemma lookup_map {A B} (f : A -> B) l i : map f l !! i = f <$> l !! i.
Proof. apply list_lookup_fmap. Qed.

Lemma shape_normalize c : shape c -> shape (map normalizeVisualTier c).
Proof.
  intros [Hn H]. split; [by destruct c|]. intros i t. rewrite lookup_map, length_map. destruct (c !! i) eqn:E; [|done].
  intros [= <-]. exact (H i _ E).
Qed.

(** A patch keeps the shape when the conditions it leaves do. *)
Lemma shape_update c i p :
  shape c ->
  (forall t, c !! i = Some t -> conds_shape (tconditions (apply_patch p t))
     /\ (S i = length c -> (2 <= length c)%nat -> tconditions (apply_patch p t) = [])) ->
  shape (updateTier (Some c) i p).
Proof.
  intros [Hn H] Hp. unfold updateTier. rewrite config_some by done. split.
  - intros E%(f_equal length). rewrite length_alter, length_map in E. by destruct c.
  - intros j t. rewrite length_alter, length_map. destruct (decide (j = i)) as [->|Hj].
    + rewrite list_lookup_alter_eq, lookup_map. destruct (c !! i) as [u|] eqn:E; [|done]. intros Et%Some_inj. subst t.
      specialize (Hp u eq_refl). destruct p; exact Hp.
    + rewrite list_lookup_alter_ne by done. rewrite lookup_map. destruct (c !! j) as [u|] eqn:E; [|done].
      intros Et%Some_inj. subst t. exact (H j u E).
Qed.

Lemma shape_conditions c i cs : shape c -> shows_conditions i c -> conds_shape cs -> shape (updateTier (Some c) i (PConditions cs)).
Proof. intros Hc Hi Hs. apply shape_update; [done|]. intros t _. split; [done|]. intros E1 E2. destruct Hi; lia. Qed.

Lemma conds_insert cs ci x : conds_shape cs -> cond_shape x -> conds_shape (<[ci := x]> cs).
Proof. intros [Hl Hf] Hx. split; [by rewrite length_insert|by apply Forall_insert]. Qed.

Lemma remove_at_length {A} i (l : list A) : (length (remove_at i l) <= length l)%nat.
Proof. revert i. induction l as [|x l IH]; intros [|i]; cbn; [lia|lia|lia|]. specialize (IH i). lia. Qed.

Lemma remove_at_shorter {A} i (l : list A) : (length l <= S (length (remove_at i l)))%nat.
Proof. revert i. induction l as [|x l IH]; intros [|i]; cbn; [lia|lia|lia|]. specialize (IH i). lia. Qed.

Lemma remove_at_in {A} i (l : list A) x : In x (remove_at i l) -> In x l.
Proof.
  revert i. induction l as [|y l IH]; intros [|i]; cbn; [done|done|by right|]. intros [->|H]; [by left|right; by eapply IH].
Qed.

Lemma conds_remove cs ci : conds_shape cs -> conds_shape (remove_at ci cs).
Proof.
  intros [Hl Hf]. split; [pose proof (remove_at_length ci cs); lia|]. apply List.Forall_forall. intros x Hx%remove_at_in.
  rewrite List.Forall_forall in Hf. by apply Hf.
Qed.

Lemma conds_add cs p : conds_shape cs -> addCondition cs = Some p -> exists cs', p = PConditions cs' /\ conds_shape cs'.
Proof.
  intros [Hl Hf]. unfold addCondition. destruct (Nat.leb_spec 2 (length cs)); [done|]. intros E%Some_inj. subst p.
  eexists. split; [reflexivity|]. split; [rewrite length_app; cbn; lia|]. apply Forall_app. split; [done|]. constructor; [|done].
  unfold cond_shape. cbn [var op]. destruct (existsb _ _); cbn; tauto.
Qed.

Lemma condition_last_spec l i t :
  condition_last l !! i = Some t ->
  exists u, l !! i = Some u
    /\ t = if (S i =? length l)%nat then match tconditions u with [] => apply_patch (PConditions [first_condition]) u | _ => u end else u.
Proof.
  revert i. induction l as [|x [|y l] IH]; intros i; [done| |].
  - destruct i as [|i]; [|done]. intros E%Some_inj. subst t. by exists x.
  - destruct i as [|i]; [intros E%Some_inj; subst t; by exists x|]. intros H. apply (IH i H).
Qed.

Lemma condition_last_length l : length (condition_last l) = length l.
Proof. induction l as [|x [|y l] IH]; [done|done|]. cbn [condition_last length] in *. by rewrite IH. Qed.

Lemma clear_last_spec l i t :
  clear_last l !! i = Some t ->
  exists u, l !! i = Some u /\ t = if (S i =? length l)%nat then apply_patch (PConditions []) u else u.
Proof.
  revert i. induction l as [|x [|y l] IH]; intros i; [done| |].
  - destruct i as [|i]; [|done]. intros E%Some_inj. subst t. by exists x.
  - destruct i as [|i]; [intros E%Some_inj; subst t; by exists x|]. intros H. apply (IH i H).
Qed.

Lemma clear_last_length l : length (clear_last l) = length l.
Proof. induction l as [|x [|y l] IH]; [done|done|]. cbn [clear_last length] in *. by rewrite IH. Qed.

Lemma shape_add c : shape c -> shape (addTier (Some c)).
Proof.
  intros Hc. pose proof (shape_normalize c Hc) as Hs. unfold addTier. rewrite config_some by (by destruct Hc).
  set (l := map normalizeVisualTier c) in *. destruct Hs as [Hn H]. split; [by destruct (condition_last l)|].
  intros i t. rewrite length_app, condition_last_length. cbn [length]. destruct (decide (i < length l)%nat) as [Hi|Hi].
  - rewrite lookup_app_l by (by rewrite condition_last_length). intros (u & Hu & ->)%condition_last_spec. split; [|lia].
    destruct (H i u Hu) as [Hcs _]. destruct (_ =? _)%nat; [|done]. destruct (tconditions u) eqn:E; [|by rewrite E].
    cbn. split; [cbn; lia|]. constructor; [|done]. split; cbn; tauto.
  - rewrite lookup_app_r, condition_last_length by (rewrite condition_last_length; lia). intros Ht%list_elem_of_lookup_2.
    apply list_elem_of_singleton in Ht. subst t. split; [split; cbn; [lia|constructor]|done].
Qed.

Lemma shape_remove c i c' : shape c -> removeTier (Some c) i = Some c' -> shape c'.
Proof.
  intros Hc. pose proof (shape_normalize c Hc) as [_ H]. unfold removeTier. rewrite config_some by (by destruct Hc).
  set (l := map normalizeVisualTier c) in *. destruct (Nat.leb_spec (length l) 1) as [|Hlen]; [done|]. intros E%Some_inj. subst c'.
  pose proof (remove_at_shorter i l) as Hr.
  split.
  - intros E%(f_equal length). rewrite clear_last_length in E. cbn in E. lia.
  - intros j t (u & Hu & ->)%clear_last_spec. rewrite clear_last_length.
    apply list_elem_of_lookup_2, list_elem_of_In, remove_at_in, list_elem_of_In, list_elem_of_lookup in Hu as [k Hk].
    destruct (H k u Hk) as [Hcs _]. destruct (Nat.eqb_spec (S j) (length (remove_at i l))); [|done].
    split; [split; cbn; [lia|constructor]|done].
Qed.

(** *** Reading *)

Definition conds_shapeb (cs : list tcond) : bool :=
  (length cs <=? 2)%nat && forallb (fun c => bool_decide (var c ∈ VARS) && bool_decide (op c ∈ OPS)) cs.
Definition shapeb (c : list tier) : bool :=
  match last c with
  | Some t => forallb (fun t => conds_shapeb (tconditions t)) c && ((length c <=? 1)%nat || match tconditions t with [] => true | _ => false end)
  | None => false
  end.

Lemma conds_shapeb_spec cs : conds_shapeb cs = true -> conds_shape cs.
Proof.
  unfold conds_shapeb. intros [L%Nat.leb_le F]%andb_true_iff. split; [done|]. rewrite forallb_forall in F. apply List.Forall_forall. intros c Hc.
  apply F in Hc. apply andb_true_iff in Hc as [V%bool_decide_eq_true O%bool_decide_eq_true]. split; by apply list_elem_of_In.
Qed.

Lemma shapeb_spec c : shapeb c = true -> shape c.
Proof.
  unfold shapeb. destruct (last c) as [t|] eqn:E; [|done]. intros [F L]%andb_true_iff. split; [by destruct c|]. intros i u Hu. split.
  - apply conds_shapeb_spec. rewrite forallb_forall in F. by apply F, list_elem_of_In, list_elem_of_lookup_2 with i.
  - intros Hi Hl. rewrite last_lookup, <- Hi in E. cbn in E. rewrite Hu in E. injection E as ->.
    apply orb_true_iff in L as [L%Nat.leb_le|L]; [lia|]. by destruct (tconditions t).
Qed.

Lemma preset_shape p c : In p PRESET_GROUPS -> tryParseVisualConfig (preset_expr p) = Some c -> shape c.
Proof.
  intros Hp E. apply shapeb_spec.
  assert (F : forallb (fun p => match tryParseVisualConfig (preset_expr p) with Some c => shapeb c | None => true end) PRESET_GROUPS = true)
    by (vm_compute; reflexivity).
  rewrite forallb_forall in F. apply F in Hp. by rewrite E in Hp.
Qed.

Lemma default_shape : shape createDefaultVisualConfig.
Proof. apply shapeb_spec. vm_compute. reflexivity. Qed.

Lemma written_shape t : conds_shape (tconditions t) -> conds_shape (written_conds t).
Proof.
  intros [L F]. unfold written_conds. split; [pose proof (filter_length_le complete (tconditions t)); lia|]. apply List.Forall_forall.
  intros x [Hx _]%filter_In. rewrite List.Forall_forall in F. by apply F.
Qed.

Lemma entries_lookup c i j e :
  entries i c !! j = Some e -> exists t, c !! j = Some t /\ e.1.1 = if (S j =? length c)%nat then [] else written_conds t.
Proof.
  revert i j. induction c as [|t r IH]; intros i j; [done|]. destruct j as [|j].
  - intros E%Some_inj. subst e. exists t. split; [done|]. by destruct r.
  - intros (u & Hu & E)%IH. by exists u.
Qed.

Lemma shape_canon c : shape c -> shape (canon_config c).
Proof.
  intros [Hn H]. destruct c as [|t [|t' r]]; [done| |].
  - split; [done|]. intros [|i] u; [|done]. intros E%Some_inj. subst u. destruct (H 0%nat t eq_refl) as [Hc _].
    split; [by apply written_shape|cbn; lia].
  - set (c := t :: t' :: r) in *. assert (L : length (canon_config c) = length c) by (unfold canon_config, c; by rewrite length_map, entries_length).
    split; [intros E; rewrite E in L; done|]. intros i u. rewrite L. change (canon_config c) with (map entry_tier (entries 0 c)).
    rewrite lookup_map. destruct (entries 0 c !! i) as [e|] eqn:E; [|done]. intros Eu%Some_inj. subst u.
    apply entries_lookup in E as (v & Hv & E). change (tconditions (entry_tier e)) with e.1.1. rewrite E. destruct (H i v Hv) as [Hc _].
    destruct (Nat.eqb_spec (S i) (length c)); [split; [split; cbn; [lia|constructor]|done]|]. split; [by apply written_shape|lia].
Qed.

Lemma vstep_shape c c' : vstep c c' -> shape c -> shape c'.
Proof.
  intros H Hc. pose proof Hc as [_ Hs].
  destruct H as [i p Hp|i t ci x Ht Hi Hci Hx|i t ci Ht Hi|i t p Ht Hi Hp| |i c' Hr|p c' Hp E| |c' Hok E].
  - apply shape_update; [done|]. intros t Ht. destruct p; (done || exact (Hs i t Ht)).
  - apply shape_conditions; [done|done|]. apply conds_insert; [by eapply Hs|done].
  - apply shape_conditions; [done|done|]. apply conds_remove. by eapply Hs.
  - destruct (conds_add (tconditions t) p) as (cs & -> & Hcs); [by eapply Hs|done|]. by apply shape_conditions.
  - by apply shape_add.
  - by eapply shape_remove.
  - by eapply preset_shape.
  - apply default_shape.
  - rewrite parse_generated in E by done. injection E as <-. by apply shape_canon.
Qed.

(** *** Texts written elsewhere *)

Lemma run_var_in st st' : st' ∈ run re_var st -> exists w, w ∈ VARS /\ st = (w ++ st'.1, st'.2).
Proof.
  destruct st as [s cs]. unfold re_var. rewrite !run_alt, !run_lit. 
  intros H; repeat (destruct H as [H|H]); destruct H as (r & -> & ->); eexists; (split; [|reflexivity]);
    apply list_elem_of_In; cbn; tauto.
Qed.

Lemma run_op_in st st' : st' ∈ run re_op st -> exists w, w ∈ OPS /\ st = (w ++ st'.1, st'.2).
Proof.
  destruct st as [s cs]. unfold re_op. rewrite !run_alt, !run_lit.
  intros H; repeat (destruct H as [H|H]); destruct H as (r & -> & ->); eexists; (split; [|reflexivity]); apply list_elem_of_In; cbn; tauto.
Qed.

(** A group around a pattern that matches words of a list captures one of them. *)
Lemma run_grp_in n a (l : list jsstr) s cs st' :
  (forall st st', st' ∈ run a st -> exists w, w ∈ l /\ st = (w ++ st'.1, st'.2)) ->
  st' ∈ run (Grp n a) (s, cs) -> exists w, w ∈ l /\ st'.2 = (n, w) :: cs.
Proof.
  intros Ha. rewrite run_grp by (intros st1 (w & _ & E)%Ha; injection E as -> _; by exists w).
  intros (w & r & cs1 & -> & Hr & ->). apply Ha in Hr as (w' & Hw & E). injection E as E <-. apply app_inv_tail in E as <-. by exists w.
Qed.

Lemma run_ws_caps st st' : st' ∈ run ws st -> st'.2 = st.2.
Proof. destruct st as [s cs]. unfold ws. intros (w & r & _ & _ & ->)%run_star_chr. done. Qed.

Lemma parse_cond_shape cp : Forall cond_shape (parse_cond cp).
Proof.
  unfold parse_cond. destruct (exec re_one_cond (trim cp)) as [cs|] eqn:E; [|constructor]. constructor; [|constructor].
  assert (M : exists r, (r, cs) ∈ run (Seq re_one_cond Eos) (trim cp, [])).
  { unfold exec in E. destruct (run (Seq re_one_cond Eos) (trim cp, [])) as [|[r cs'] l]; [done|]. injection E as <-. exists r. left. }
  destruct M as [r M]. apply run_seq in M as ([s1 c1] & M & [_ E1]%run_eos). injection E1 as _ <-. unfold re_one_cond in M.
  apply run_seq in M as ([s2 c2] & V & M). apply (run_grp_in 1 re_var VARS) in V as (v & Hv & V); [|apply run_var_in]. cbn in V. subst c2.
  apply run_seq in M as ([s3 c3] & W%run_ws_caps & M). cbn in W. subst c3.
  apply run_seq in M as ([s4 c4] & O & M). apply (run_grp_in 2 re_op OPS) in O as (o & Ho & O); [|apply run_op_in]. cbn in O. subst c4.
  apply run_seq in M as ([s5 c5] & W%run_ws_caps & M). cbn in W. subst c5.
  apply run_grp_plus_chr in M as (w & r' & _ & _ & _ & M). injection M as _ ->. split; by apply list_elem_of_In.
Qed.

Lemma parse_conds_shape e : Forall cond_shape (parse_conds e).
Proof.
  unfold parse_conds. destruct (nonempty e); [|constructor]. apply List.Forall_forall. intros x [cp [_ H]]%in_flat_map.
  pose proof (parse_cond_shape cp) as F. rewrite List.Forall_forall in F. by apply F.
Qed.

Lemma offered_normalize c : c <> [] -> Forall (fun t => Forall cond_shape (tconditions t)) c -> offered (normalizeVisualConfig (Some c)).
Proof. intros Hn F. rewrite config_some by done. split; [by destruct c|]. apply List.Forall_map. exact F. Qed.

Lemma offered_parsed e c : tryParseVisualConfig e = Some c -> offered c.
Proof.
  unfold tryParseVisualConfig. destruct (negb _); [done|]. cbv zeta. destruct (exec (re_tier 1) _) as [cs|].
  - intros E%Some_inj. subst c. apply offered_normalize; [done|]. constructor; [constructor|constructor].
  - set (l := map _ _). assert (F : Forall (fun t => Forall cond_shape (tconditions t)) l).
    { apply List.Forall_map. apply List.Forall_forall. intros cs _. apply parse_conds_shape. }
    clearbody l. destruct l as [|t l]; [done|]. destruct (_ =s? _); [|done]. intros E%Some_inj. subst c. by apply offered_normalize.
Qed.

Lemma offered_update c i p :
  offered c -> (forall t, c !! i = Some t -> Forall cond_shape (tconditions (apply_patch p t))) -> offered (updateTier (Some c) i p).
Proof.
  intros [Hn F] Hp. unfold updateTier. rewrite config_some by done. split.
  - intros E%(f_equal length). rewrite length_alter, length_map in E. by destruct c.
  - apply Forall_lookup. intros j t. destruct (decide (j = i)) as [->|Hj].
    + rewrite list_lookup_alter_eq, lookup_map. destruct (c !! i) as [u|] eqn:E; [|done]. intros Et%Some_inj. subst t. specialize (Hp u eq_refl).
      by destruct p.
    + rewrite list_lookup_alter_ne by done. rewrite lookup_map. destruct (c !! j) as [u|] eqn:E; [|done]. intros Et%Some_inj. subst t.
      rewrite Forall_lookup in F. exact (F j u E).
Qed.

Lemma offered_conds (t : tier) c i : offered c -> c !! i = Some t -> Forall cond_shape (tconditions t).
Proof. intros [_ F] E. rewrite Forall_lookup in F. exact (F i t E). Qed.

Lemma offered_add c : offered c -> offered (addTier (Some c)).
Proof.
  intros [Hn F]. unfold addTier. rewrite config_some by done. set (l := map normalizeVisualTier c).
  assert (Fl : Forall (fun t => Forall cond_shape (tconditions t)) l) by (by apply List.Forall_map). split; [by destruct (condition_last l)|].
  apply Forall_app. split; [|repeat constructor]. apply Forall_lookup. intros i t (u & Hu & ->)%condition_last_spec.
  rewrite Forall_lookup in Fl. specialize (Fl i u Hu). destruct (_ =? _)%nat; [|done]. destruct (tconditions u) eqn:E; [|by rewrite E].
  constructor; [|constructor]. split; cbn; tauto.
Qed.

Lemma offered_remove c i c' : offered c -> removeTier (Some c) i = Some c' -> offered c'.
Proof.
  intros [Hn F]. unfold removeTier. rewrite config_some by done. set (l := map normalizeVisualTier c).
  assert (Fl : Forall (fun t => Forall cond_shape (tconditions t)) l) by (by apply List.Forall_map).
  destruct (Nat.leb_spec (length l) 1) as [|Hlen]; [done|]. intros E%Some_inj. subst c'. split.
  - intros E%(f_equal length). rewrite clear_last_length in E. cbn in E.
    pose proof (remove_at_shorter i l). lia.
  - apply Forall_lookup. intros j t (u & Hu & ->)%clear_last_spec. destruct (_ =? _)%nat; [constructor|].
    apply list_elem_of_lookup_2, list_elem_of_In, remove_at_in in Hu. rewrite List.Forall_forall in Fl. by apply Fl.
Qed.

Lemma offered_shape c : shape c -> offered c.
Proof. intros [Hn H]. split; [done|]. apply Forall_lookup. intros i t E. by destruct (H i t E) as [[_ F] _]. Qed.

Lemma astep_offered c c' : astep c c' -> offered c -> offered c'.
Proof.
  intros [c1 H|e c1 E] Hc; [|by eapply offered_parsed].
  destruct H as [i p Hp|i t ci x Ht Hi Hci Hx|i t ci Ht Hi|i t p Ht Hi Hp| |i c2 Hr|p c2 Hp E| |c2 Hok E].
  - apply offered_update; [done|]. intros t Ht. destruct p; (done || exact (offered_conds t c i Hc Ht)).
  - apply offered_update; [done|]. intros u Hu. apply Forall_insert; [by eapply offered_conds|done].
  - apply offered_update; [done|]. intros u Hu. apply List.Forall_forall. intros x Hx%remove_at_in.
    pose proof (offered_conds t c i Hc Ht) as F. rewrite List.Forall_forall in F. by apply F.
  - apply offered_update; [done|]. intros u Hu. unfold addCondition in Hp. destruct (_ <=? _)%nat; [done|]. injection Hp as <-.
    apply Forall_app. split; [by eapply offered_conds|]. constructor; [|constructor]. unfold cond_shape. cbn [var op]. destruct (existsb _ _); cbn; tauto.
  - by apply offered_add.
  - by eapply offered_remove.
  - by eapply offered_parsed.
  - apply offered_shape, default_shape.
  - by eapply offered_parsed.
Qed.

(** C14: a form that starts new keeps its shape through edits of its cards, presets, fresh
    starts and mode switches or reopenings of a form that can be read back ([config_ok]), in
    any order: there is a tier, every tier has at most two conditions on the variables and
    operators offered, and the last of several tiers has none, the one that always applies.
    A form opened on any stored text, and switched to any other, still has a tier and
    conditions on what is offered only; a text written elsewhere may give a tier more than
    two conditions. *)
Theorem reach_tiers_shape c :
  (rtc vstep createDefaultVisualConfig c -> shape c) /\
  (forall e c0, tryParseVisualConfig e = Some c0 \/ c0 = createDefaultVisualConfig -> rtc astep c0 c -> offered c).
Proof.
  split.
  - intros H. pose proof default_shape as Hc. induction H as [|x y z Hxy _ IH]; [done|]. apply IH. by eapply vstep_shape.
  - intros e c0 H0 H. assert (Hc : offered c0) by (destruct H0 as [E| ->]; [by eapply offered_parsed|apply offered_shape, default_shape]). clear H0.
    induction H as [|x y z Hxy _ IH]; [done|]. apply IH. by eapply astep_offered.
Qed.

(** A middle tier without a condition is written before a colon with no question mark. *)
Theorem missing_condition_text t t' :
  written_conds t = [] ->
  generateExprFromVisualConfig (Some [t; t'])
  = tier_text (label_or (label t) (default_label 0)) t ++ $" : " ++ tier_text (label_or (label t') (default_label 1)) t'.
Proof.
  intros H. rewrite generate_many by (cbn; lia). cbn [tier_parts join]. rewrite cond_str_eq, H. cbn [nonempty].
  unfold default_label. done.
Qed.

(** ** Prices as typed *)

Lemma neqb_refl n : isNaN n = false -> neqb n n = true.
Proof.
  unfold neqb, SFeqb, SFcompare. destruct n as [[]|[]| |[] m e]; try done; intros _; by rewrite Z.compare_refl, Pos.compare_cont_refl.
Qed.

Lemma or_zero_same n : isNaN n = false -> neqb n (or_zero n) = true.
Proof. intros H. unfold or_zero. destruct (num_truthy n) eqn:E; [by apply neqb_refl|]. by destruct n as [[]|[]| |]. Qed.

Lemma effect_keeps n v : Number_str v = n -> isNaN n = false -> price_effect (or_zero (or_zero n)) v = v.
Proof.
  intros Hv Hn. unfold price_effect. rewrite Hv, Hn, or_zero_idem, or_zero_same by done. by destruct (_ && _).
Qed.

(** What is typed into a price stays as typed, [7.] included; the price of the model is the
    number typed, zero for an empty text, and unchanged while the text is not a number. *)
Theorem typed_price_kept uc v :
  (type_price uc v).1 = v
  /\ (type_price uc v).2
     = if nonempty v then (if isNaN (Number_str v) then uc else priceToUnitCost (Number_str v)) else n0.
Proof.
  unfold type_price, price_change. destruct (nonempty v) eqn:E; cbn [negb].
  - destruct (isNaN (Number_str v)) eqn:En; [done|]. cbn [fst snd]. split; [|done]. by apply effect_keeps.
  - destruct v; [|done]. done.
Qed.

(** ** Presets *)

Definition preset_ok (p : preset) : bool :=
  let '(s, calls) := applyPreset p (Ed Visual None [] []) in
  match splitBillingExprAndRequestRules (rawExpr s), tryParseRequestRuleExpr (buildRequestRuleExpr (preset_rules p)) with
  | Ret (b, r), Ret (Some gs) =>
    bool_decide (editorMode s = Visual) && (b =s? preset_expr p) && (r =s? buildRequestRuleExpr (preset_rules p))
    && (buildRequestRuleExpr gs =s? r) && Nat.eqb (length gs) (length (preset_rules p))
    && match visualConfig s with
       | Some c =>
         match tryParseVisualConfig (generateExprFromVisualConfig (Some c)) with
         | Some c' => generateExprFromVisualConfig (Some c') =s? generateExprFromVisualConfig (Some c)
         | None => false
         end
       | None => false
       end
  | _, _ => false
  end.

(** Every preset stays in the form: its expression is read as tiers, its rules as cards,
    and its raw text splits into that expression and those rules. *)
Theorem presets_load : Forall (fun p => preset_ok p = true) PRESET_GROUPS.
Proof. apply List.Forall_forall. apply forallb_forall. by vm_compute. Qed.

(** ** Witnesses *)

Definition q (s : string) : num := Number_str (js s).

Definition sample_tiers : list tier :=
  [Tier [TCond $"len" $"<=" (VNum (of_Z 200000)); TCond $"c" $"<" (VNum (of_Z 500))] (q "3") (q "15") $"standard" (Some Timed)
     [($"cache_read_unit_cost", q "0.3"); ($"cache_create_1h_unit_cost", q "6")];
   Tier [] (q "6") (q "22.5") [] (Some Generic) []].

Definition num_okb (n : num) : bool :=
  nonempty (String_num n) && forallb numchar (String_num n) && bool_decide (Number_str (String_num n) = n).

Definition cond_okb (c : tcond) : bool :=
  bool_decide (var c ∈ VARS) && bool_decide (op c ∈ OPS)
  && match tvalue c with
     | VNum n => nonempty (String_num n) && forallb condchar (String_num n) && bool_decide (Number_str (String_num n) = n)
     | _ => false
     end.

Definition tier_fineb (t : tier) : bool :=
  forallb not_dquote (label t) && num_okb (or_zero (input_unit_cost t)) && num_okb (or_zero (output_unit_cost t))
  && forallb (fun kv => num_okb (cost_of kv.1 t)) CACHE_VAR_MAP && forallb cond_okb (written_conds t).

Lemma num_okb_ok n : num_okb n = true -> num_ok n.
Proof.
  unfold num_okb. intros H. bsplit. split; [split; [by destruct (String_num n)|done]|]. by apply (bool_decide_unpack _), Is_true_eq_left.
Qed.

Lemma cond_okb_ok c : cond_okb c = true -> cond_ok c.
Proof.
  unfold cond_okb. intros H. bsplit. destruct (tvalue c) as [| | |n| | |] eqn:E; try done. bsplit.
  repeat match goal with H : bool_decide _ = true |- _ => apply bool_decide_eq_true in H end.
  split; [by apply list_elem_of_In|]. split; [by apply list_elem_of_In|]. exists n. split; [done|].
  split; [by destruct (String_num n)|done].
Qed.

Lemma tier_fineb_ok t : tier_fineb t = true -> tier_fine t.
Proof.
  unfold tier_fineb. intros H. bsplit. split.
  - split; [done|by apply num_okb_ok|by apply num_okb_ok|]. intros f v Hin. apply num_okb_ok.
    match goal with H : forallb _ CACHE_VAR_MAP = true |- _ => rewrite forallb_forall in H; exact (H _ Hin) end.
  - apply List.Forall_forall. intros c Hc. apply cond_okb_ok.
    match goal with H : forallb cond_okb _ = true |- _ => rewrite forallb_forall in H; exact (H _ Hc) end.
Qed.

Lemma sample_tiers_ok : config_ok sample_tiers.
Proof.
  split; [done| |].
  - apply List.Forall_forall. intros t Ht. apply tier_fineb_ok. revert t Ht. apply forallb_forall. by vm_compute.
  - split; [|done]. unfold conditioned. by vm_compute.
Qed.

Definition sample_props : props :=
  Props $"m" (generateExprFromVisualConfig (Some sample_tiers)) (buildRequestRuleExpr sample_groups).

Lemma visual_config_roundtrip_witness :
  config_ok sample_tiers
  /\ tryParseVisualConfig (generateExprFromVisualConfig (Some sample_tiers)) = Some (canon_config sample_tiers).
Proof. split; [apply sample_tiers_ok|]. apply (visual_config_roundtrip sample_tiers), sample_tiers_ok. Defined.

Lemma opening_settles_witness :
  exists w0 w1 w2 c1 c2,
    mount (Props $"m" $"p * 2" []) = Ret w0 /\ commit w0 = Ret (w1, c1) /\ commit w1 = Ret (w2, c2) /\ commit w2 = Ret (w2, [])
    /\ w_props w2 = Props $"m" $"p * 2" [] /\ w_ed w2 = Ed Raw None $"p * 2" [].
Proof. apply (opening_settles (Props $"m" $"p * 2" []) (Some []) $"p * 2"); by vm_compute. Defined.

Lemma opening_keeps_expression_witness :
  exists w0 w1 w2 c1 c2,
    mount sample_props = Ret w0 /\ commit w0 = Ret (w1, c1) /\ commit w1 = Ret (w2, c2) /\ commit w2 = Ret (w2, [])
    /\ w_props w2 = sample_props
    /\ w_ed w2 = Ed Visual (Some (canon_config sample_tiers)) (generateExprFromVisualConfig (Some sample_tiers)) sample_groups.
Proof. apply (opening_keeps_expression $"m" sample_tiers sample_groups); [apply sample_tiers_ok|apply sample_wf]. Defined.

(** A settled editor in the form. *)
Definition sample_world : world :=
  World sample_props (Ed Visual (Some sample_tiers) [] sample_groups)
    (Some (Deps (currentRequestRuleExpr sample_props) $"m" (currentExpr sample_props))).

Lemma sample_settled : settled sample_world.
Proof. split; [exists (Some sample_groups); apply parse_built, sample_wf|done|done]. Qed.

Lemma mode_switch_roundtrip_witness :
  exists r1 w1 c1 r2 w2 c2,
    handleModeSwitch Raw (w_ed sample_world) = Ret r1 /\ commit (after_event sample_world r1) = Ret (w1, c1) /\ commit w1 = Ret (w1, [])
    /\ editorMode (w_ed w1) = Raw /\ w_props w1 = sample_props
    /\ handleModeSwitch Visual (w_ed w1) = Ret r2 /\ commit (after_event w1 r2) = Ret (w2, c2) /\ commit w2 = Ret (w2, [])
    /\ w_ed w2 = Ed Visual (Some (canon_config sample_tiers)) (rawExpr (w_ed w1)) sample_groups /\ w_props w2 = sample_props.
Proof.
  apply (mode_switch_roundtrip sample_world sample_tiers [] sample_groups);
    [apply sample_settled|reflexivity|reflexivity|apply sample_tiers_ok| |apply sample_wf].
  repeat constructor.
Defined.

(** The multiplier of the first card is cleared: the card is gone. *)
Definition cleared_groups : list group :=
  match sample_groups with g :: r => rule_multiplier_change g [] :: r | [] => [] end.

Lemma incomplete_cards_lost_witness :
  exists w' c,
    commit (after_event sample_world (handleRequestRuleGroupsChange cleared_groups (w_ed sample_world))) = Ret (w', c)
    /\ length (requestRuleGroups (w_ed w')) = (length sample_groups - 1)%nat.
Proof.
  destruct (incomplete_cards_lost sample_world cleared_groups sample_settled eq_refl) as (w' & c & H1 & _ & _ & H2).
  - constructor; [right; by vm_compute|]. assert (H : Forall wf_group (tail sample_groups)) by (pose proof sample_wf as H; by inversion H).
    eapply Forall_impl; [exact H|]. by left.
  - exists w', c. split; [exact H1|]. rewrite H2. by vm_compute.
Defined.

Lemma reach_tiers_shape_witness :
  rtc vstep createDefaultVisualConfig (addTier (Some createDefaultVisualConfig)) /\ shape (addTier (Some createDefaultVisualConfig))
  /\ exists c, tryParseVisualConfig tier_sample = Some c /\ offered c.
Proof.
  assert (R : rtc vstep createDefaultVisualConfig (addTier (Some createDefaultVisualConfig))) by (apply rtc_once; constructor).
  split; [exact R|]. split; [exact (proj1 (reach_tiers_shape _) R)|].
  destruct (tryParseVisualConfig tier_sample) as [c|] eqn:E; [|exfalso; revert E; vm_compute; discriminate].
  exists c. split; [reflexivity|]. exact (proj2 (reach_tiers_shape c) tier_sample c (or_introl E) (rtc_refl _ _)).
Defined.

End TieredEditorProofs.
