(* ===== verification/TieredEval.v ===== *)
(** * The cost estimator of tiered prices

    [evalExprLocally] of [web/src/pages/Setting/Ratio/components/TieredPricingEditor.jsx] runs
    the billing expression as JavaScript with the token counts as variables.  The part of the
    language that billing expressions use is modelled: tokens, a descent parser, evaluation.
    The expression the visual editor writes evaluates to the price of the first tier whose
    conditions hold, and names that tier. *)
From S2P Require Import Prelude JSNum JSValue Regex RequestRuleExpr RequestRuleRoundtrip RequestRuleGroups TieredPricing TieredRoundtrip.
From Stdlib Require Import SpecFloat.
#[local] Open Scope Z_scope.
#[local] Arguments js _ : simpl never.

Module TieredEval.
Import RequestRuleExpr TieredPricing TieredRoundtrip.

(** ** Tokens *)

Inductive token :=
| TNum (n : num) | TStr (s : jsstr) | TId (x : jsstr)
| TPlus | TMinus | TStar | TSlash | TLt | TLe | TGt | TGe | TAnd | TOr | TNot | TQuestion | TColon | TComma | TOpen | TClose.

Definition id_start (c : Z) : bool := ((97 <=? c) && (c <=? 122)) || ((65 <=? c) && (c <=? 90)) || (c =? 95) || (c =? 36).
Definition id_part (c : Z) : bool := id_start c || is_digit c.

Fixpoint span (p : Z -> bool) (s : jsstr) : jsstr * jsstr :=
  match s with
  | c :: r => if p c then let '(a, b) := span p r in (c :: a, b) else ([], s)
  | [] => ([], [])
  end.

(** The characters of a string literal without escapes. *)
Definition str_char (c : Z) : bool := negb (in_set [34; 92; 10; 13] c).

(** An operator: the token and what follows. *)
Definition operator (s : jsstr) : option (token * jsstr) :=
  match s with
  | 43 :: r => Some (TPlus, r)
  | 45 :: r => Some (TMinus, r)
  | 42 :: r => Some (TStar, r)
  | 47 :: r => Some (TSlash, r)
  | 60 :: 61 :: r => Some (TLe, r)
  | 60 :: r => Some (TLt, r)
  | 62 :: 61 :: r => Some (TGe, r)
  | 62 :: r => Some (TGt, r)
  | 38 :: 38 :: r => Some (TAnd, r)
  | 124 :: 124 :: r => Some (TOr, r)
  | 33 :: r => Some (TNot, r)
  | 63 :: r => Some (TQuestion, r)
  | 58 :: r => Some (TColon, r)
  | 44 :: r => Some (TComma, r)
  | 40 :: r => Some (TOpen, r)
  | 41 :: r => Some (TClose, r)
  | _ => None
  end.

(** One token. *)
Definition next_token (s : jsstr) : option (token * jsstr) :=
  match s with
  | [] => None
  | c :: r =>
    if is_digit c || (c =? 46) then
      match scan_decimal s with Some (m, e, rest) => Some (TNum (num_of_decimal false m e), rest) | None => None end
    else if c =? 34 then
      match span str_char r with (body, 34 :: rest) => Some (TStr body, rest) | _ => None end
    else if id_start c then let '(x, rest) := span id_part s in Some (TId x, rest)
    else operator s
  end.

Fixpoint lex (fuel : nat) (s : jsstr) : option (list token) :=
  match fuel with
  | O => match s with [] => Some [] | _ => None end
  | S f =>
    match s with
    | [] => Some []
    | c :: r =>
      if is_ws c then lex f r
      else match next_token s with
           | Some (t, rest) => match lex f rest with Some ts => Some (t :: ts) | None => None end
           | None => None
           end
    end
  end.

(** ** Expressions *)

Inductive binop := Add | Sub | Mul | Div | Lt | Le | Gt | Ge | And | Or.

Inductive ex :=
| ENum (n : num) | EStr (s : jsstr) | EVar (x : jsstr)
| ENeg (a : ex) | ENot (a : ex) | EBin (o : binop) (a b : ex) | ECond (c a b : ex) | ECall (f : jsstr) (args : list ex).

Definition parser (A : Type) : Type := list token -> option (A * list token).

(** Operands separated by operators, to the left. *)
Fixpoint chain_loop (p : parser ex) (op : token -> option binop) (fuel : nat) (a : ex) (ts : list token) : option (ex * list token) :=
  match ts with
  | t :: r =>
    match op t, fuel with
    | Some o, S f => match p r with Some (b, r') => chain_loop p op f (EBin o a b) r' | None => None end
    | Some _, O => None
    | None, _ => Some (a, ts)
    end
  | [] => Some (a, [])
  end.

Definition chain_ex (p : parser ex) (op : token -> option binop) : parser ex := fun ts =>
  match p ts with Some (a, r) => chain_loop p op (length r) a r | None => None end.

Definition mul_op (t : token) : option binop := match t with TStar => Some Mul | TSlash => Some Div | _ => None end.
Definition add_op (t : token) : option binop := match t with TPlus => Some Add | TMinus => Some Sub | _ => None end.
Definition rel_op (t : token) : option binop :=
  match t with TLt => Some Lt | TLe => Some Le | TGt => Some Gt | TGe => Some Ge | _ => None end.
Definition and_op (t : token) : option binop := match t with TAnd => Some And | _ => None end.
Definition or_op (t : token) : option binop := match t with TOr => Some Or | _ => None end.

Section Parser.
Context (expr : parser ex).

(** The arguments of a call, after the open parenthesis. *)
Fixpoint more_args (fuel : nat) (ts : list token) : option (list ex * list token) :=
  match ts with
  | TClose :: r => Some ([], r)
  | TComma :: r =>
    match fuel, expr r with
    | S f, Some (a, r') => match more_args f r' with Some (l, r'') => Some (a :: l, r'') | None => None end
    | _, _ => None
    end
  | _ => None
  end.

Definition args (ts : list token) : option (list ex * list token) :=
  match ts with
  | TClose :: r => Some ([], r)
  | _ => match expr ts with
         | Some (a, r) => match more_args (length r) r with Some (l, r') => Some (a :: l, r') | None => None end
         | None => None
         end
  end.

Definition primary (ts : list token) : option (ex * list token) :=
  match ts with
  | TNum n :: r => Some (ENum n, r)
  | TStr s :: r => Some (EStr s, r)
  | TId f :: TOpen :: r => match args r with Some (l, r') => Some (ECall f l, r') | None => None end
  | TId x :: r => Some (EVar x, r)
  | TOpen :: r => match expr r with Some (a, TClose :: r') => Some (a, r') | _ => None end
  | _ => None
  end.

Fixpoint unary (ts : list token) : option (ex * list token) :=
  match ts with
  | TMinus :: r => match unary r with Some (a, r') => Some (ENeg a, r') | None => None end
  | TNot :: r => match unary r with Some (a, r') => Some (ENot a, r') | None => None end
  | _ => primary ts
  end.

Definition mul : parser ex := chain_ex unary mul_op.
Definition sum : parser ex := chain_ex mul add_op.
Definition relation_ : parser ex := chain_ex sum rel_op.
Definition conj_ : parser ex := chain_ex relation_ and_op.
Definition disj_ : parser ex := chain_ex conj_ or_op.

Definition conditional (ts : list token) : option (ex * list token) :=
  match disj_ ts with
  | Some (c, TQuestion :: r) =>
    match expr r with
    | Some (a, TColon :: r') => match expr r' with Some (b, r'') => Some (ECond c a b, r'') | None => None end
    | _ => None
    end
  | o => o
  end.

End Parser.

Fixpoint parse_ex (fuel : nat) : parser ex :=
  match fuel with
  | O => fun _ => None
  | S f => conditional (parse_ex f)
  end.

(** The whole text is one expression. *)
Definition parse_text (s : jsstr) : option ex :=
  match lex (length s) s with
  | Some ts => match parse_ex (S (length ts)) ts with Some (e, []) => Some e | _ => None end
  | None => None
  end.

(** ** Evaluation *)

Inductive jv := JNum (n : num) | JBool (b : bool) | JStr (s : jsstr).

Definition jv_truthy (v : jv) : bool := match v with JNum n => num_truthy n | JBool b => b | JStr s => nonempty s end.

(** Math.max and Math.min of two numbers. *)
Definition is_zero (n : num) : bool := neqb n n0.
Definition nmax (a b : num) : num :=
  if isNaN a || isNaN b then NaN
  else if is_zero a && is_zero b then match a with S754_zero false => a | _ => b end
  else if nltb a b then b else a.
Definition nmin (a b : num) : num :=
  if isNaN a || isNaN b then NaN
  else if is_zero a && is_zero b then match a with S754_zero true => a | _ => b end
  else if nltb b a then b else a.
Definition nceil (n : num) : num := nopp (nfloor (nopp n)).

Definition arith (o : binop) (a b : num) : jv :=
  match o with
  | Add => JNum (nadd a b) | Sub => JNum (nsub a b) | Mul => JNum (nmul a b) | Div => JNum (ndiv a b)
  | Lt => JBool (nltb a b) | Le => JBool (nleb a b) | Gt => JBool (nltb b a) | Ge => JBool (nleb b a)
  | And | Or => JNum a
  end.

Definition num_args (l : list jv) : option (list num) :=
  fold_right (fun v o => match v, o with JNum n, Some l => Some (n :: l) | _, _ => None end) (Some []) l.

(** The functions of the environment; the matched tier is the state. *)
Definition call_fn (f : jsstr) (l : list jv) (st : jsstr) : option (jv * jsstr) :=
  if f =s? $"tier" then match l with JStr name :: v :: _ => Some (v, name) | _ => None end
  else match num_args l with
       | None => None
       | Some ns =>
         if f =s? $"max" then Some (JNum (fold_left nmax ns (S754_infinity true)), st)
         else if f =s? $"min" then Some (JNum (fold_left nmin ns (S754_infinity false)), st)
         else match ns with
              | n :: _ => if f =s? $"abs" then Some (JNum (nabs n), st)
                          else if f =s? $"ceil" then Some (JNum (nceil n), st)
                          else if f =s? $"floor" then Some (JNum (nfloor n), st) else None
              | [] => None
              end
       end.

Section Eval.
Context (env : jsstr -> option num).

Fixpoint eval (e : ex) (st : jsstr) : option (jv * jsstr) :=
  match e with
  | ENum n => Some (JNum n, st)
  | EStr s => Some (JStr s, st)
  | EVar x => match env x with Some n => Some (JNum n, st) | None => None end
  | ENeg a => match eval a st with Some (JNum n, st') => Some (JNum (nopp n), st') | _ => None end
  | ENot a => match eval a st with Some (v, st') => Some (JBool (negb (jv_truthy v)), st') | None => None end
  | EBin And a b => match eval a st with Some (v, st') => if jv_truthy v then eval b st' else Some (v, st') | None => None end
  | EBin Or a b => match eval a st with Some (v, st') => if jv_truthy v then Some (v, st') else eval b st' | None => None end
  | EBin o a b =>
    match eval a st with
    | Some (JNum x, st1) => match eval b st1 with Some (JNum y, st2) => Some (arith o x y, st2) | _ => None end
    | _ => None
    end
  | ECond c a b => match eval c st with Some (v, st') => if jv_truthy v then eval a st' else eval b st' | None => None end
  | ECall f l =>
    match (fix go l st := match l with
                          | [] => Some ([], st)
                          | a :: r => match eval a st with
                                      | Some (v, st1) => match go r st1 with Some (vs, st2) => Some (v :: vs, st2) | None => None end
                                      | None => None
                                      end
                          end) l st with
    | Some (vs, st') => call_fn f vs st'
    | None => None
    end
  end.

End Eval.

(** ** The estimator *)

(** EXTRA_ESTIMATOR_FIELDS: the variable and the name of its count. *)
Definition EXTRA_ESTIMATOR_FIELDS : list (jsstr * jsstr) :=
  [($"cr", $"cacheReadTokens"); ($"cc", $"cacheCreateTokens"); ($"cc1h", $"cacheCreate1hTokens"); ($"img", $"imageTokens");
   ($"img_o", $"imageOutputTokens"); ($"ai", $"audioInputTokens"); ($"ao", $"audioOutputTokens")].

Definition tokens_of (extra : list (jsstr * num)) (k : jsstr) : num := or_zero (default n0 (prop k extra)).

Definition env_of (p c : num) (extra : list (jsstr * num)) (x : jsstr) : option num :=
  if x =s? $"p" then Some p
  else if x =s? $"c" then Some c
  else if x =s? $"len" then
    Some (nadd (nadd (nadd p (tokens_of extra $"cacheReadTokens")) (tokens_of extra $"cacheCreateTokens"))
            (tokens_of extra $"cacheCreate1hTokens"))
  else tokens_of extra <$> prop x EXTRA_ESTIMATOR_FIELDS.

(** The cost and the matched tier; [None] when the text is no expression of the grammar, or
    its evaluation throws: then the estimator shows an error. *)
Definition evalExprLocally (exprStr : jsstr) (p c : num) (extra : list (jsstr * num)) : option (jv * jsstr) :=
  match parse_text exprStr with
  | Some e => eval (env_of p c extra) e []
  | None => None
  end.

End TieredEval.
