(* ===== verification/TieredEvalProofs.v ===== *)
(** * The estimate is the price of the matching tier

    Lexing, parsing and evaluation of the expressions the visual editor writes. *)
From S2P Require Import Prelude JSNum JSValue Json Regex RequestRuleExpr RequestRuleRoundtrip RequestRuleGroups TieredPricing TieredRoundtrip TieredEditorProofs TieredEval.
From Stdlib Require Import SpecFloat.
#[local] Open Scope Z_scope.
#[local] Arguments js _ : simpl never.

Module TieredEvalProofs.
Import RequestRuleExpr RequestRuleRoundtrip RequestRuleGroups TieredPricing TieredRoundtrip TieredEval.

(** ** Lexing *)

Lemma lex_more f g s ts : lex f s = Some ts -> (f <= g)%nat -> lex g s = Some ts.
Proof.
  revert g s ts. induction f as [|f IH]; intros g s ts; cbn [lex].
  - destruct s; [|done]. intros [= <-] _. by destruct g.
  - intros H Hg. destruct g as [|g]; [lia|]. cbn [lex]. destruct s as [|c s]; [done|]. destruct (is_ws c); [by apply IH; [|lia]|].
    destruct (next_token (c :: s)) as [[t rest]|]; [|done]. destruct (lex f rest) as [ts'|] eqn:E; [|done].
    by rewrite (IH g _ _ E) by lia.
Qed.

(** [w] is read as the tokens [tw], whatever follows that satisfies [B]. *)
Definition lexes (B : jsstr -> Prop) (w : jsstr) (tw : list token) : Prop :=
  forall rest f ts, B rest -> lex f rest = Some ts -> lex (length w + f) (w ++ rest) = Some (tw ++ ts).

(** After a word: the end, a space or a delimiter. *)
Definition brk (s : jsstr) : Prop := match s with [] => True | c :: _ => In c [32; 40; 41; 44] end.
Definition free (s : jsstr) : Prop := True.

Lemma lexes_app B1 B2 a ta b tb :
  lexes B1 a ta -> lexes B2 b tb -> (forall rest, B2 rest -> B1 (b ++ rest)) -> lexes B2 (a ++ b) (ta ++ tb).
Proof.
  intros Ha Hb HB rest f ts Hr Hf. rewrite <- !app_assoc, length_app, <- Nat.add_assoc. apply Ha; [by apply HB|]. by apply Hb.
Qed.

Lemma lexes_weaken (B B' : jsstr -> Prop) w tw : (forall r, B' r -> B r) -> lexes B w tw -> lexes B' w tw.
Proof. intros H Hw rest f ts Hr. apply Hw. by apply H. Qed.

(** A delimiter before anything. *)
Lemma lexes_free_app a ta B b tb : lexes free a ta -> lexes B b tb -> lexes B (a ++ b) (ta ++ tb).
Proof. intros Ha Hb. by eapply lexes_app. Qed.

(** A word before a text that starts with a delimiter. *)
Lemma lexes_brk_app a ta B b tb : lexes brk a ta -> lexes B b tb -> (forall rest, brk (b ++ rest)) -> lexes B (a ++ b) (ta ++ tb).
Proof. intros Ha Hb H. by eapply lexes_app. Qed.

Lemma lexes_space : lexes free [32] [].
Proof. intros rest f ts _ H. exact H. Qed.

Lemma lexes_token B c w t :
  is_ws c = false -> (forall rest, B rest -> next_token ((c :: w) ++ rest) = Some (t, rest)) -> lexes B (c :: w) [t].
Proof.
  intros Hc H rest f ts Hr Hf. specialize (H rest Hr). cbn [app] in *. change (length (c :: w) + f)%nat with (S (length w + f)). cbn [lex].
  rewrite Hc, H. by rewrite (lex_more f _ rest ts Hf) by lia.
Qed.

Ltac lex_op := intros; apply lexes_token; [done|]; by intros [|? ?].

Lemma lexes_punct c t : In (c, t) [(43, TPlus); (42, TStar); (63, TQuestion); (58, TColon); (44, TComma); (40, TOpen); (41, TClose)] -> lexes free [c] [t].
Proof. intros H. apply lexes_token; [|intros rest _]; by destruct H as [[= <- <-]|[[= <- <-]|[[= <- <-]|[[= <- <-]|[[= <- <-]|[[= <- <-]|[[= <- <-]|[]]]]]]]]. Qed.

Lemma lexes_and : lexes free $"&&" [TAnd].
Proof. js_lit. by apply lexes_token. Qed.

Definition op_token (o : jsstr) : token :=
  if o =s? $"<" then TLt else if o =s? $"<=" then TLe else if o =s? $">" then TGt else TGe.

Lemma brk_head rest : brk rest -> rest = [] \/ exists c r, rest = c :: r /\ In c [32; 40; 41; 44].
Proof. destruct rest as [|c r]; [by left|]. right. by exists c, r. Qed.

Lemma lexes_rel o : In o OPS -> lexes brk o [op_token o].
Proof.
  intros H. destruct H as [<-|[<-|[<-|[<-|[]]]]]; js_lit; (apply lexes_token; [done|]);
    intros rest [->|(c & r & -> & Hc)]%brk_head; try done; by destruct Hc as [<-|[<-|[<-|[<-|[]]]]].
Qed.

Lemma span_all p w rest : forallb p w = true -> (match rest with [] => True | c :: _ => p c = false end) -> span p (w ++ rest) = (w, rest).
Proof.
  induction w as [|c w IH]; cbn [app span forallb].
  - intros _ H. destruct rest as [|c r]; [done|]. cbn. by rewrite H.
  - intros H Hr. bsplit. by rewrite H, IH.
Qed.

Definition ident (x : jsstr) : bool := match x with c :: _ => id_start c && forallb id_part x | [] => false end.

Lemma lexes_ident x : ident x = true -> lexes brk x [TId x].
Proof.
  destruct x as [|c x]; [done|]. unfold ident. intros H. bsplit.
  assert (Hc : is_ws c = false /\ is_digit c = false /\ (c =? 46) = false /\ (c =? 34) = false).
  { unfold id_start in H. unfold is_ws, is_digit. lia. }
  destruct Hc as (H1 & H2 & H3 & H4). apply lexes_token; [done|]. intros rest Hr. unfold next_token. cbn [app]. rewrite H2, H3, H4, H.
  cbn [orb]. change (c :: x ++ rest) with ((c :: x) ++ rest). rewrite span_all; [done|done|].
  destruct rest as [|d r]; [done|]. by destruct Hr as [<-|[<-|[<-|[<-|[]]]]].
Qed.

Lemma lexes_string l : forallb str_char l = true -> lexes free (34 :: (l ++ [34])) [TStr l].
Proof.
  intros H. apply lexes_token; [done|]. intros rest _. unfold next_token. cbn [app]. cbn [is_digit Z.leb Z.compare Pos.compare andb orb Z.eqb].
  rewrite <- app_assoc. rewrite span_all; [done|done|done].
Qed.

(** ** Numbers *)

Definition starts_digit (s : jsstr) : bool := match s with c :: _ => is_digit c | [] => false end.

Lemma digit_cases c : is_digit c = true -> In c [48; 49; 50; 51; 52; 53; 54; 55; 56; 57].
Proof. unfold is_digit. cbn [In]. lia. Qed.

(** No radix prefix. *)
Lemma number_of_digits s :
  starts_digit s = true -> forallb numchar s = true ->
  Number_str s = match scan_decimal s with Some (m, e, []) => num_of_decimal false m e | _ => NaN end.
Proof.
  intros Hd Hf. unfold Number_str.
  assert (trim s = s) as ->.
  { apply trim_id. rewrite forallb_forall in Hf. destruct s as [|c r]; [done|]. unfold edges_ok.
    assert (Hl : In (List.last (c :: r) 0) (c :: r)).
    { rewrite (app_removelast_last 0 (l := c :: r)) at 2 by done. apply in_app_iff. right. by left. }
    rewrite (numchar_not_ws c) by (apply Hf; by left). by rewrite numchar_not_ws by (by apply Hf). }
  destruct s as [|c r]; [done|]. apply digit_cases in Hd.
  destruct Hd as [<-|Hd].
  - destruct r as [|d r]; [done|]. cbn [forallb] in Hf. bsplit.
    assert (Hx : forall x, numchar x = false -> (d =? x) = false) by (intros x Hx; destruct (Z.eqb_spec d x) as [->|]; congruence).
    by rewrite !Hx by (by vm_compute).
  - by repeat destruct Hd as [<-|Hd].
Qed.

(** The text of the number is a literal that denotes it. *)
Definition lit (n : num) : Prop :=
  exists m e, scan_decimal (String_num n) = Some (m, e, []) /\ num_of_decimal false m e = n /\ starts_digit (String_num n) = true.

Lemma lit_of_num_ok n : num_ok n -> starts_digit (String_num n) = true -> lit n.
Proof.
  intros [[_ Hf] E] Hd. rewrite number_of_digits in E by done.
  assert (Hnan : n <> NaN) by (intros ->; by vm_compute in Hd).
  destruct (scan_decimal (String_num n)) as [[[m e] [|? ?]]|] eqn:Es; [|done|done]. by exists m, e.
Qed.

Lemma brk_delim rest : brk rest -> delim rest.
Proof. intros [->|(c & r & -> & Hc)]%brk_head; [done|]. by destruct Hc as [<-|[<-|[<-|[<-|[]]]]]. Qed.

Lemma scan_decimal_app s rest m e : delim rest -> scan_decimal s = Some (m, e, []) -> scan_decimal (s ++ rest) = Some (m, e, rest).
Proof.
  intros Hr. unfold scan_decimal. destruct (span_digits s) as [ip r] eqn:E.
  rewrite (span_digits_app s rest ip r E) by (destruct r; [by apply delim_digit|done]).
  assert (Hexp : forall ds u k, (match ds with [] => None | x :: l => let '(e, r'') := scan_exponent u in Some (dec_val (x :: l), e - k, r'') end) = Some (m, e, []) ->
    (match ds with [] => None | x :: l => let '(e, r'') := scan_exponent (u ++ rest) in Some (dec_val (x :: l), e - k, r'') end) = Some (m, e, rest)).
  { intros [|d ds] u k; [done|]. destruct (scan_exponent u) as [x v] eqn:Ex. intros [= <- <- ->].
    rewrite (scan_exponent_app u rest x [] Hr Ex); [done|]. by intros <-. }
  destruct r as [|c r].
  - cbn [app]. assert (match rest with 46 :: t => let '(f, u) := span_digits t in match ip, f with [], [] => ([], rest) | _, _ => (f, u) end | _ => ([], rest) end = ([] : jsstr, rest)) as ->.
    { destruct rest as [|c r]; [done|]. destruct Hr as (_ & Hc & _). destruct c as [|p|p]; [done| |done]. by repeat (destruct p as [p|p|]; try done). }
    by apply (Hexp (ip ++ []) []).
  - destruct (Z.eqb_spec c 46) as [->|Hc].
    + cbn [app]. destruct (span_digits r) as [f u] eqn:F.
      rewrite (span_digits_app r rest f u F) by (destruct u; [by apply delim_digit|done]).
      destruct ip as [|x ip]; [destruct f as [|y f]; [done|]|]; apply Hexp.
    + assert (Hm : forall (A : Type) (x : jsstr -> A) (y : A) (z : jsstr), match c :: z with 46 :: t => x t | _ => y end = y).
      { intros A x y z. destruct c as [|p|p]; [done| |done]. by repeat (destruct p as [p|p|]; try done). }
      cbn [app]. rewrite !(Hm _ (fun t => let '(f, u) := span_digits t in match ip, f with [], [] => ([], _) | _, _ => (f, u) end)).
      apply (Hexp (ip ++ []) (c :: r)).
Qed.

Lemma lexes_num n : lit n -> lexes brk (String_num n) [TNum n].
Proof.
  intros (m & e & Hs & Hn & Hd). destruct (String_num n) as [|c s] eqn:E; [done|]. apply lexes_token.
  - unfold starts_digit in Hd. unfold is_digit in Hd. unfold is_ws. lia.
  - intros rest Hr%brk_delim. unfold next_token. cbn [app]. cbn [starts_digit] in Hd. rewrite Hd. cbn [orb].
    change (c :: s ++ rest) with ((c :: s) ++ rest). rewrite (scan_decimal_app (c :: s) rest m e Hr Hs). by rewrite Hn.
Qed.

(** ** The written texts *)

(** A separator: an operator between blanks. *)
Lemma lexes_sep c t : lexes free [c] [t] -> lexes free (32 :: [c] ++ [32]) [t].
Proof.
  intros H. change (32 :: [c] ++ [32]) with ([32] ++ ([c] ++ [32])). change [t] with ([] ++ ([t] ++ [])).
  apply lexes_free_app; [apply lexes_space|]. apply lexes_free_app; [done|apply lexes_space].
Qed.

Lemma lexes_list {A} (txt : A -> jsstr) (tk : A -> list token) sep t x l :
  lexes free (32 :: sep) [t] -> (forall y, In y (x :: l) -> lexes brk (txt y) (tk y)) ->
  lexes brk (txt x ++ flat_map (fun y => (32 :: sep) ++ txt y) l) (tk x ++ flat_map (fun y => t :: tk y) l).
Proof.
  intros Hs. revert x. induction l as [|y l IH]; intros x H; cbn [flat_map].
  - rewrite !app_nil_r. apply H. by left.
  - rewrite <- app_assoc. eapply lexes_brk_app; [apply H; by left| |intros rest; by left].
    change ((t :: tk y) ++ ?r) with ([t] ++ (tk y ++ r)). apply lexes_free_app; [done|].
    apply IH. intros z Hz. apply H. by right.
Qed.

Definition toks_term (x : jsstr * num) : list token := [TId x.1; TStar; TNum x.2].
Definition term_str (x : jsstr * num) : jsstr := term_text x.1 (String_num x.2).
Definition term_fine (x : jsstr * num) : Prop := ident x.1 = true /\ lit x.2.

Lemma lexes_term x : term_fine x -> lexes brk (term_str x) (toks_term x).
Proof.
  intros [Hv Hn]. unfold term_str, term_text, toks_term. change [TId x.1; TStar; TNum x.2] with ([TId x.1] ++ ([TStar] ++ [TNum x.2])).
  eapply lexes_brk_app; [by apply lexes_ident| |intros rest; by left]. apply lexes_free_app; [|by apply lexes_num].
  apply (lexes_sep 42). apply lexes_punct. right. by left.
Qed.

(** A sum of priced counts. *)
Definition terms := ((jsstr * num) * list (jsstr * num))%type.
Definition terms_str (ts : terms) : jsstr := term_str ts.1 ++ flat_map (fun y => $" + " ++ term_str y) ts.2.
Definition toks_terms (ts : terms) : list token := toks_term ts.1 ++ flat_map (fun y => TPlus :: toks_term y) ts.2.
Definition terms_fine (ts : terms) : Prop := term_fine ts.1 /\ Forall term_fine ts.2.

Lemma lexes_terms ts : terms_fine ts -> lexes brk (terms_str ts) (toks_terms ts).
Proof.
  intros [H Hl]. apply (lexes_list term_str toks_term [43; 32] TPlus); [apply (lexes_sep 43), lexes_punct; by left|].
  intros y [<-|Hy]; [by apply lexes_term|]. apply lexes_term. rewrite List.Forall_forall in Hl. by apply Hl.
Qed.

(** The prices of a tier, as its text has them: input and output always, the others unless zero. *)
Definition tier_terms (t : tier) : terms :=
  (($"p", or_zero (input_unit_cost t)),
   ($"c", or_zero (output_unit_cost t))
   :: flat_map (fun '(f, v) => if neqb (cost_of f t) n0 then [] else [(v, cost_of f t)]) CACHE_VAR_MAP).

Definition no_terms : terms := (($"p", n0), [($"c", n0)]).

Lemma body_terms t : buildTierBodyExpr t = terms_str (tier_terms t).
Proof.
  rewrite body_text. unfold terms_str, tier_terms, costs_text. cbn [fst snd flat_map]. unfold term_str at 1 2. cbn [fst snd].
  rewrite <- !app_assoc. do 4 f_equal.
  induction CACHE_VAR_MAP as [|[f v] l IH]; [done|]. cbn [flat_map]. rewrite flat_map_app, <- IH. f_equal.
  unfold cost_text. cbn [fst snd]. destruct (neqb _ _); [done|]. cbn [flat_map]. by rewrite app_nil_r.
Qed.

Lemma no_price_terms : NO_PRICE = terms_str no_terms.
Proof. by vm_compute. Qed.

(** What the numbers and labels of a tier have to be. *)
Record readable (t : tier) : Prop := Readable {
  rd_label : forallb str_char (label t) = true;
  rd_input : lit (or_zero (input_unit_cost t));
  rd_output : lit (or_zero (output_unit_cost t));
  rd_costs : forall f v, In (f, v) CACHE_VAR_MAP -> lit (cost_of f t);
  rd_conds : Forall (fun c => exists n, tvalue c = VNum n /\ lit n) (written_conds t)
}.

Lemma tier_terms_fine t : readable t -> terms_fine (tier_terms t).
Proof.
  intros [_ Hi Ho Hc _]. split; [by split; [vm_compute|]|]. unfold tier_terms. cbn [snd]. constructor; [by split; [vm_compute|]|].
  assert (Hid : forall f v, In (f, v) CACHE_VAR_MAP -> ident v = true).
  { assert (Hb : forallb (fun kv => ident kv.2) CACHE_VAR_MAP = true) by (by vm_compute). rewrite forallb_forall in Hb.
    intros f v H. exact (Hb _ H). }
  apply List.Forall_forall. intros y ([f v] & Hin & Hy)%in_flat_map. destruct (neqb _ _); [done|].
  destruct Hy as [<-|[]]. split; [by eapply Hid|by eapply Hc].
Qed.

Definition toks_tier (l : jsstr) (t : tier) : list token := [TId $"tier"; TOpen; TStr l; TComma] ++ toks_terms (tier_terms t) ++ [TClose].

Lemma lexes_tier l t : readable t -> forallb str_char l = true -> lexes free (tier_text l t) (toks_tier l t).
Proof.
  intros Ht Hl. unfold tier_text, toks_tier. rewrite body_terms.
  replace ($"tier(" ++ [34] ++ l ++ [34] ++ $", " ++ terms_str (tier_terms t) ++ $")")
    with ($"tier" ++ [40] ++ (34 :: (l ++ [34])) ++ [44] ++ [32] ++ terms_str (tier_terms t) ++ [41]).
  2:{ js_lit. cbn [app]. by rewrite <- !app_assoc. }
  change ([TId $"tier"; TOpen; TStr l; TComma] ++ ?r) with ([TId $"tier"] ++ [TOpen] ++ [TStr l] ++ [TComma] ++ [] ++ r).
  eapply lexes_brk_app; [apply lexes_ident; by vm_compute| |intros rest; right; by left].
  apply lexes_free_app; [apply lexes_punct; cbn; tauto|]. apply lexes_free_app; [by apply lexes_string|].
  apply lexes_free_app; [apply lexes_punct; cbn; tauto|]. apply lexes_free_app; [apply lexes_space|].
  eapply lexes_brk_app; [by apply lexes_terms, tier_terms_fine|apply lexes_punct; cbn; tauto|]. intros rest. right; right; by left.
Qed.

Definition cond_val (c : tcond) : num := match tvalue c with VNum n => n | _ => n0 end.
Definition toks_cond (c : tcond) : list token := [TId (var c); op_token (op c); TNum (cond_val c)].
Definition cond_fine (c : tcond) : Prop := cond_ok c /\ lit (cond_val c).

Lemma lexes_cond c : cond_fine c -> lexes brk (cond_text c) (toks_cond c).
Proof.
  intros [(Hv & Ho & n & En & _) Hl]. rewrite (cond_text_eq c n En). unfold toks_cond, cond_val in *. rewrite En in *.
  change (var c ++ 32 :: (op c ++ 32 :: String_num n)) with (var c ++ [32] ++ (op c ++ [32] ++ String_num n)).
  change [TId (var c); op_token (op c); TNum n] with ([TId (var c)] ++ [] ++ [op_token (op c)] ++ [] ++ [TNum n]).
  eapply lexes_brk_app; [apply lexes_ident; by destruct Hv as [<-|[<-|[<-|[]]]]; vm_compute| |intros rest; by left].
  apply lexes_free_app; [apply lexes_space|]. eapply lexes_brk_app; [by apply lexes_rel| |intros rest; by left].
  apply lexes_free_app; [apply lexes_space|]. by apply lexes_num.
Qed.

Definition toks_conds (c : tcond) (r : list tcond) : list token := toks_cond c ++ flat_map (fun d => TAnd :: toks_cond d) r.

Lemma lexes_conds c r : Forall cond_fine (c :: r) -> lexes brk (cond_text c ++ more_conds r) (toks_conds c r).
Proof.
  intros H. unfold more_conds. rewrite flat_map_concat_map, map_map, <- flat_map_concat_map.
  apply (lexes_list cond_text toks_cond [38; 38; 32] TAnd).
  - change (32 :: [38; 38; 32]) with ([32] ++ $"&&" ++ [32]). change [TAnd] with ([] ++ [TAnd] ++ []).
    apply lexes_free_app; [apply lexes_space|]. apply lexes_free_app; [apply lexes_and|apply lexes_space].
  - intros d Hd. apply lexes_cond. rewrite List.Forall_forall in H. by apply H.
Qed.

(** A tier with its conditions, what is tried when they fail, and a text for it. *)
Record guarded := Guarded { g_cond : tcond; g_more : list tcond; g_label : jsstr; g_tier : tier }.
Definition guarded_str (g : guarded) : jsstr := entry_text (g_cond g :: g_more g) (g_label g) (g_tier g) ++ $" : ".
Definition toks_guarded (g : guarded) : list token :=
  toks_conds (g_cond g) (g_more g) ++ TQuestion :: (toks_tier (g_label g) (g_tier g) ++ [TColon]).
Record guarded_fine (g : guarded) : Prop := GuardedFine {
  gf_conds : Forall cond_fine (g_cond g :: g_more g);
  gf_label : forallb str_char (g_label g) = true;
  gf_tier : readable (g_tier g)
}.

Lemma lexes_guarded g : guarded_fine g -> lexes free (guarded_str g) (toks_guarded g).
Proof.
  intros [Hc Hl Ht]. unfold guarded_str, toks_guarded, entry_text. rewrite <- !app_assoc. rewrite app_assoc.
  change (TQuestion :: ?r) with ([TQuestion] ++ r).
  eapply lexes_brk_app; [by apply lexes_conds| |intros rest; by left].
  apply lexes_free_app; [apply (lexes_sep 63), lexes_punct; cbn; tauto|].
  apply lexes_free_app; [by apply lexes_tier|]. apply (lexes_sep 58), lexes_punct; cbn; tauto.
Qed.

(** The last alternative: a tier, or no price. *)
Definition last_alt := option (jsstr * tier).
Definition last_str (o : last_alt) : jsstr := match o with Some (l, t) => tier_text l t | None => NO_PRICE end.
Definition toks_last (o : last_alt) : list token := match o with Some (l, t) => toks_tier l t | None => toks_terms no_terms end.
Definition last_fine (o : last_alt) : Prop := match o with Some (l, t) => forallb str_char l = true /\ readable t | None => True end.

Lemma lit_n0 : lit n0.
Proof. by exists 0, 0. Qed.

Lemma lexes_last o : last_fine o -> lexes brk (last_str o) (toks_last o).
Proof.
  destruct o as [[l t]|]; cbn [last_fine last_str toks_last].
  - intros [Hl Ht]. by eapply lexes_weaken; [|apply lexes_tier].
  - intros _. rewrite no_price_terms. apply lexes_terms. split; [split; [by vm_compute|apply lit_n0]|].
    constructor; [split; [by vm_compute|apply lit_n0]|constructor].
Qed.

Definition plan := (list guarded * last_alt)%type.
Definition plan_str (p : plan) : jsstr := flat_map guarded_str p.1 ++ last_str p.2.
Definition toks_plan (p : plan) : list token := flat_map toks_guarded p.1 ++ toks_last p.2.
Definition plan_fine (p : plan) : Prop := Forall guarded_fine p.1 /\ last_fine p.2.

Lemma lex_plan p : plan_fine p -> lex (length (plan_str p)) (plan_str p) = Some (toks_plan p).
Proof.
  intros [Hg Hl].
  assert (H : lexes brk (plan_str p) (toks_plan p)).
  { unfold plan_str, toks_plan. destruct p as [gs o]. cbn [fst snd] in *. induction Hg as [|g gs Hg _ IH]; [by apply lexes_last|].
    cbn [flat_map]. rewrite <- !app_assoc. apply lexes_free_app; [by apply lexes_guarded|done]. }
  specialize (H [] 0%nat [] I eq_refl). by rewrite !app_nil_r, Nat.add_0_r in H.
Qed.

(** ** Parsing *)

(** No operator of the level comes next. *)
Definition stop (op : token -> option binop) (ts : list token) : Prop := match ts with t :: _ => op t = None | [] => True end.

(** After a condition or an expression. *)
Definition ends (ts : list token) : Prop :=
  match ts with [] => True | t :: _ => In t [TClose; TComma; TColon; TQuestion; TAnd] end.

Definition parses (p : parser ex) (F : list token -> Prop) (tw : list token) (e : ex) : Prop :=
  forall rest, F rest -> p (tw ++ rest) = Some (e, rest).

Lemma chain_loop_stop p op f a ts : stop op ts -> chain_loop p op f a ts = Some (a, ts).
Proof. destruct ts as [|t r]; [by destruct f|]. intros H. destruct f; cbn [chain_loop]; unfold stop in H; by rewrite H. Qed.

Lemma chain_list {A} (p : parser ex) (op : token -> option binop) (F : list token -> Prop) (tk : A -> list token) (e : A -> ex) t o x l :
  op t = Some o -> (forall y, In y (x :: l) -> parses p (fun r => F r \/ exists r', r = t :: r') (tk y) (e y)) ->
  (forall r, F r -> stop op r) ->
  parses (chain_ex p op) F (tk x ++ flat_map (fun y => t :: tk y) l) (fold_left (fun a y => EBin o a (e y)) l (e x)).
Proof.
  intros Ho H Hs rest Hr. unfold chain_ex. rewrite <- app_assoc, H; [|by left|].
  2:{ destruct l as [|y l]; [by left|right; by eexists]. }
  assert (Hf : (length (flat_map (fun y => t :: tk y) l) <= length (flat_map (fun y => t :: tk y) l ++ rest))%nat) by (rewrite length_app; lia).
  revert Hf. generalize (length (flat_map (fun y => t :: tk y) l ++ rest)) as f. generalize (e x) as a.
  assert (Hl : forall y, In y l -> parses p (fun r => F r \/ exists r', r = t :: r') (tk y) (e y)) by (intros y Hy; apply H; by right).
  clear H. induction l as [|y l IH]; intros a f Hf; cbn [flat_map app fold_left] in *; [by apply chain_loop_stop, Hs|].
  cbn [length] in Hf. rewrite length_app in Hf. destruct f as [|f]; [lia|]. cbn [chain_loop]. rewrite Ho, <- app_assoc, Hl; [|by left|].
  - apply IH; [intros z Hz; apply Hl; by right|lia].
  - destruct l as [|z l]; [by left|right; by eexists].
Qed.

(** One operand. *)
Lemma chain_one (p : parser ex) (op : token -> option binop) (F : list token -> Prop) tw e :
  parses p F tw e -> (forall r, F r -> stop op r) -> parses (chain_ex p op) F tw e.
Proof. intros H Hs rest Hr. unfold chain_ex. rewrite H by done. by apply chain_loop_stop, Hs. Qed.

(** Two operands. *)
Lemma chain_two (p : parser ex) (op : token -> option binop) (F : list token -> Prop) (ta tb : list token) a b t o :
  op t = Some o -> parses p (fun r => exists r', r = t :: r') ta a -> parses p F tb b -> (forall r, F r -> stop op r) ->
  parses (chain_ex p op) F (ta ++ t :: tb) (EBin o a b).
Proof.
  intros Ho Ha Hb Hs rest Hr. unfold chain_ex. rewrite <- app_assoc. cbn [app]. rewrite Ha by (by eexists). cbn [length chain_loop].
  rewrite Ho, Hb by done. by apply chain_loop_stop, Hs.
Qed.

Lemma parses_weaken p (F F' : list token -> Prop) tw e : (forall r, F' r -> F r) -> parses p F tw e -> parses p F' tw e.
Proof. intros H Hp rest Hr. by apply Hp, H. Qed.

Lemma ends_stop ts : ends ts -> stop mul_op ts /\ stop add_op ts /\ stop rel_op ts /\ stop or_op ts.
Proof. destruct ts as [|t r]; [done|]. by intros [<-|[<-|[<-|[<-|[<-|[]]]]]]. Qed.

(** After a whole expression that is not a condition. *)
Definition closes (ts : list token) : Prop := match ts with [] => True | t :: _ => In t [TClose; TComma; TColon] end.

Lemma closes_ends ts : closes ts -> ends ts.
Proof. destruct ts as [|t r]; [done|]. cbn. tauto. Qed.

Section Levels.
Context (expr : parser ex).

(** From sums up to a whole expression. *)
Lemma up_from_sum F tw e : (forall r, F r -> ends r) -> parses (sum expr) F tw e -> parses (relation_ expr) F tw e.
Proof. intros HF H. apply chain_one; [done|]. intros r Hr. by apply ends_stop, HF. Qed.

Lemma up_from_relation F tw e : (forall r, F r -> closes r \/ exists r', r = TQuestion :: r') -> parses (relation_ expr) F tw e -> parses (disj_ expr) F tw e.
Proof.
  intros HF H. apply chain_one; [apply chain_one; [done|]|]; intros r [Hr|[r' ->]]%HF; try done;
    (destruct r as [|t r]; [done|]; by destruct Hr as [<-|[<-|[<-|[]]]]).
Qed.

Lemma up_to_conditional tw e : parses (disj_ expr) closes tw e -> parses (conditional expr) closes tw e.
Proof.
  intros H rest Hr. unfold conditional. rewrite H by done. destruct rest as [|t r]; [done|]. by destruct Hr as [<-|[<-|[<-|[]]]].
Qed.

Lemma unary_var v F : (forall r, F r -> match r with TOpen :: _ => False | _ => True end) -> parses (unary expr) F [TId v] (EVar v).
Proof. intros HF rest Hr%HF. cbn. destruct rest as [|[] r]; done. Qed.

Lemma unary_num n : parses (unary expr) (fun _ => True) [TNum n] (ENum n).
Proof. by intros rest _. Qed.

Definition e_term (x : jsstr * num) : ex := EBin Mul (EVar x.1) (ENum x.2).
Definition e_terms (ts : terms) : ex := fold_left (fun a y => EBin Add a (e_term y)) ts.2 (e_term ts.1).

Lemma parses_term x : parses (mul expr) (stop mul_op) (toks_term x) (e_term x).
Proof.
  apply (chain_two _ _ _ [TId x.1] [TNum x.2] _ _ TStar Mul); [done| | |done].
  - apply unary_var. by intros r [r' ->].
  - by eapply parses_weaken; [|apply unary_num].
Qed.

Lemma parses_terms ts : parses (sum expr) ends (toks_terms ts) (e_terms ts).
Proof.
  apply (chain_list _ _ _ toks_term e_term TPlus Add); [done| |].
  - intros y _. eapply parses_weaken; [|apply parses_term]. intros r [Hr|[r' ->]]; [by apply ends_stop|done].
  - intros r Hr. by apply ends_stop.
Qed.

Lemma sum_number n : parses (sum expr) ends [TNum n] (ENum n).
Proof.
  apply chain_one; [apply chain_one|]; [|intros r Hr; by apply ends_stop..]. by eapply parses_weaken; [|apply unary_num].
Qed.

Definition rel_of (o : jsstr) : binop := if o =s? $"<" then Lt else if o =s? $"<=" then Le else if o =s? $">" then Gt else Ge.
Definition e_cond (c : tcond) : ex := EBin (rel_of (op c)) (EVar (var c)) (ENum (cond_val c)).
Definition e_conds (c : tcond) (r : list tcond) : ex := fold_left (fun a y => EBin And a (e_cond y)) r (e_cond c).

Lemma parses_cond c : In (op c) OPS -> parses (relation_ expr) ends (toks_cond c) (e_cond c).
Proof.
  intros Ho. apply (chain_two _ _ _ [TId (var c)] [TNum (cond_val c)] _ _ (op_token (op c))).
  - by destruct Ho as [<-|[<-|[<-|[<-|[]]]]]; vm_compute.
  - assert (Hs : exists o, rel_op (op_token (op c)) = Some o) by (destruct Ho as [<-|[<-|[<-|[<-|[]]]]]; by eexists).
    destruct Hs as [o Hs]. apply chain_one; [apply chain_one; [apply unary_var|]|]; intros r [r' ->]; destruct (op_token (op c)); try done.
  - apply sum_number.
  - intros r Hr. by apply ends_stop.
Qed.

Lemma parses_conds c r :
  Forall (fun d => In (op d) OPS) (c :: r) -> parses (disj_ expr) (fun ts => exists r', ts = TQuestion :: r') (toks_conds c r) (e_conds c r).
Proof.
  intros H. apply chain_one; [|by intros ts [r' ->]]. apply (chain_list _ _ _ toks_cond e_cond TAnd And); [done| |by intros ts [r' ->]].
  intros y Hy. eapply parses_weaken; [|apply parses_cond; rewrite List.Forall_forall in H; by apply H].
  intros ts [[r' ->]|[r' ->]]; cbn; tauto.
Qed.

End Levels.

Lemma parse_terms f ts : parses (parse_ex (S f)) closes (toks_terms ts) (e_terms ts).
Proof.
  apply up_to_conditional, up_from_relation; [by left|]. apply up_from_sum; [by apply closes_ends|].
  eapply parses_weaken; [|apply parses_terms]. apply closes_ends.
Qed.

(** An operand on its own. *)
Lemma parse_operand f tw e : parses (unary (parse_ex f)) closes tw e -> parses (parse_ex (S f)) closes tw e.
Proof.
  intros H. apply up_to_conditional, up_from_relation; [by left|]. apply up_from_sum; [by apply closes_ends|].
  apply chain_one; [apply chain_one; [done|]|]; intros r Hr; by apply ends_stop, closes_ends.
Qed.

Definition e_tier (l : jsstr) (t : tier) : ex := ECall $"tier" [EStr l; e_terms (tier_terms t)].

Lemma parse_tier_call f l t : parses (parse_ex (S (S f))) closes (toks_tier l t) (e_tier l t).
Proof.
  apply parse_operand. intros rest _. unfold toks_tier. cbn [app unary primary]. unfold args.
  pose proof (parse_operand f [TStr l] (EStr l) (fun r _ => eq_refl)) as Hs.
  assert (E : parse_ex (S f) (TStr l :: TComma :: (toks_terms (tier_terms t) ++ [TClose]) ++ rest)
    = Some (EStr l, TComma :: (toks_terms (tier_terms t) ++ [TClose]) ++ rest)) by (apply (Hs (TComma :: _)); right; by left).
  rewrite E. cbn [length more_args]. rewrite <- app_assoc. rewrite parse_terms by (by left). cbn [app]. done.
Qed.

Definition e_last (o : last_alt) : ex := match o with Some (l, t) => e_tier l t | None => e_terms no_terms end.
Definition e_guarded (g : guarded) (e : ex) : ex := ECond (e_conds (g_cond g) (g_more g)) (e_tier (g_label g) (g_tier g)) e.
Definition e_plan (p : plan) : ex := foldr e_guarded (e_last p.2) p.1.

Lemma parse_guarded f g rest :
  guarded_fine g ->
  parse_ex (S (S (S f))) (toks_guarded g ++ rest)
  = match parse_ex (S (S f)) rest with Some (b, r) => Some (e_guarded g b, r) | None => None end.
Proof.
  intros [Hc _ _]. change (parse_ex (S (S (S f)))) with (conditional (parse_ex (S (S f)))). unfold conditional, toks_guarded.
  rewrite <- app_assoc. rewrite parses_conds; [| |by eexists].
  2:{ eapply Forall_impl; [exact Hc|]. by intros d [(_ & Ho & _) _]. }
  cbn [app]. rewrite <- app_assoc. rewrite parse_tier_call by (right; right; by left). done.
Qed.

Lemma parse_plan p f : plan_fine p -> (length p.1 + 2 <= f)%nat -> parse_ex f (toks_plan p) = Some (e_plan p, []).
Proof.
  destruct p as [gs o]. intros [Hg _]. unfold toks_plan, e_plan. cbn [fst snd] in *. revert f.
  induction Hg as [|g gs Hg _ IH]; intros f Hf; cbn [length flat_map foldr] in *.
  - destruct f as [|[|f]]; [lia|lia|]. cbn [app]. rewrite <- (app_nil_r (toks_last o)).
    destruct o as [[l t]|]; [by apply parse_tier_call|by apply parse_terms].
  - destruct f as [|[|[|f]]]; [lia|lia|lia|]. rewrite <- app_assoc, parse_guarded by done. by rewrite IH by lia.
Qed.

Lemma parse_text_plan p : plan_fine p -> parse_text (plan_str p) = Some (e_plan p).
Proof.
  intros H. unfold parse_text. rewrite lex_plan, parse_plan; [done|done| |done].
  unfold toks_plan. rewrite length_app.
  assert (length p.1 <= length (flat_map toks_guarded p.1))%nat.
  { clear H. induction p.1 as [|g gs IH]; [done|]. cbn [flat_map length]. rewrite length_app. unfold toks_guarded at 1. rewrite length_app. cbn [length]. lia. }
  assert (1 <= length (toks_last p.2))%nat by (destruct p.2 as [[? ?]|]; cbn; lia). lia.
Qed.

(** ** What the text means *)

Section Meaning.
Context (count : jsstr -> num).

(** A number compared as a condition says. *)
Definition compare_as (o : jsstr) (a b : num) : bool :=
  if o =s? $"<" then nltb a b else if o =s? $"<=" then nleb a b else if o =s? $">" then nltb b a else nleb b a.

Definition cond_holds (c : tcond) : bool := compare_as (op c) (count (var c)) (cond_val c).

(** All complete conditions of the tier hold. *)
Definition tier_matches (t : tier) : bool := forallb cond_holds (written_conds t).

(** The price of the counts: input and output, then every other priced count. *)
Definition tier_cost (t : tier) : num :=
  fold_left (fun a '(f, v) => if neqb (cost_of f t) n0 then a else nadd a (nmul (count v) (cost_of f t))) CACHE_VAR_MAP
    (nadd (nmul (count $"p") (or_zero (input_unit_cost t))) (nmul (count $"c") (or_zero (output_unit_cost t)))).

(** The first tier whose conditions hold; the last one needs none. *)
Fixpoint first_match (i : Z) (tiers : list tier) : option (jsstr * tier) :=
  match tiers with
  | [] => None
  | t :: r =>
    let shown := (label_or (label t) (default_label i), t) in
    match r with [] => Some shown | _ => if tier_matches t then Some shown else first_match (i + 1) r end
  end.

Definition applicable (tiers : list tier) : option (jsstr * tier) :=
  match tiers with
  | [t] => if tier_matches t then Some (label_or (label t) $"default", t) else None
  | _ => first_match 0 tiers
  end.

(** The price and the label of the tier that applies; otherwise nothing is charged. *)
Definition quote_price (tiers : list tier) : num * jsstr :=
  match applicable tiers with
  | Some (l, t) => (tier_cost t, l)
  | None => (nadd (nmul (count $"p") n0) (nmul (count $"c") n0), [])
  end.

End Meaning.

(** ** The plan of a configuration *)

Fixpoint plan_from (i : Z) (tiers : list tier) : plan :=
  match tiers with
  | [] => ([], None)
  | t :: r =>
    let l := label_or (label t) (default_label i) in
    match r, written_conds t with
    | [], _ => ([], Some (l, t))
    | _, [] => plan_from (i + 1) r
    | _, c :: cs => let '(gs, o) := plan_from (i + 1) r in (Guarded c cs l t :: gs, o)
    end
  end.

Definition plan_of (tiers : list tier) : plan :=
  match tiers with
  | [t] =>
    let l := label_or (label t) $"default" in
    match written_conds t with
    | [] => ([], Some (l, t))
    | c :: cs => ([Guarded c cs l t], None)
    end
  | _ => plan_from 0 tiers
  end.

Lemma plan_from_str i t r :
  all_but_last conditioned (t :: r) -> join $" : " (map entry_str (entries i (t :: r))) = plan_str (plan_from i (t :: r)).
Proof.
  revert i t. induction r as [|t' r IH]; intros i t H; [done|]. destruct H as [Hc Hr].
  change (entries i (t :: t' :: r)) with ((written_conds t, label_or (label t) (default_label i), t) :: entries (i + 1) (t' :: r)).
  change (plan_from i (t :: t' :: r)) with
    (match written_conds t with
     | [] => plan_from (i + 1) (t' :: r)
     | c :: cs => let '(gs, o) := plan_from (i + 1) (t' :: r) in (Guarded c cs (label_or (label t) (default_label i)) t :: gs, o)
     end).
  cbn [map]. change (join $" : " (?x :: map entry_str (entries ?j (t' :: r))))
    with (x ++ $" : " ++ join $" : " (map entry_str (entries j (t' :: r)))).
  rewrite IH by done. unfold conditioned in Hc. destruct (written_conds t) as [|c cs]; [done|].
  destruct (plan_from (i + 1) (t' :: r)) as [gs o]. unfold plan_str, entry_str, guarded_str. cbn [fst snd flat_map g_cond g_more g_label g_tier].
  by rewrite <- !app_assoc.
Qed.

Lemma plan_of_str tiers : config_ok tiers -> generateExprFromVisualConfig (Some tiers) = plan_str (plan_of tiers).
Proof.
  intros [Hn Hf Hc]. destruct tiers as [|t [|t' r]]; [done| |].
  - inversion_clear Hf as [|?? [_ Hcs] _]. rewrite (generate_one t t) by done. unfold plan_of, plan_str.
    destruct (written_conds t) as [|c cs]; [done|]. cbn [fst snd flat_map last_str]. unfold guarded_str. cbn [g_cond g_more g_label g_tier].
    by rewrite app_nil_r, <- app_assoc.
  - rewrite generate_many by (cbn; lia). rewrite tier_parts_entries; [by apply plan_from_str|].
    eapply Forall_impl; [exact Hf|]. by intros ? [_ ?].
Qed.

Lemma str_label l d : forallb str_char l = true -> forallb str_char d = true -> forallb str_char (label_or l d) = true.
Proof. unfold label_or. by destruct l. Qed.

Lemma str_default_label i : 0 <= i -> forallb str_char (default_label i) = true.
Proof.
  intros Hi. unfold default_label. rewrite !forallb_app. apply andb_true_iff. split; [by vm_compute|].
  apply andb_true_iff. split; [|by vm_compute]. unfold Z_to_str. destruct (Z.ltb_spec (i + 1) 0); [lia|].
  eapply forallb_impl; [|apply dec_nonneg_digits; lia]. intros c Hc%digit_cases. by repeat destruct Hc as [<-|Hc].
Qed.

Definition usable (t : tier) : Prop := tier_fine t /\ readable t.

Lemma written_fine t : usable t -> Forall cond_fine (written_conds t).
Proof.
  intros [[_ Hc] [_ _ _ _ Hl]]. apply List.Forall_forall. intros c Hin. rewrite List.Forall_forall in Hc, Hl. split; [by apply Hc|].
  destruct (Hl c Hin) as (n & E & Hn). unfold cond_val. by rewrite E.
Qed.

Lemma guarded_of_tier t l c cs :
  usable t -> forallb str_char l = true -> written_conds t = c :: cs -> guarded_fine (Guarded c cs l t).
Proof. intros Hu Hl E. split; cbn; [rewrite <- E; by apply written_fine|done|by destruct Hu]. Qed.

Lemma plan_from_fine i tiers : 0 <= i -> Forall usable tiers -> plan_fine (plan_from i tiers).
Proof.
  revert i. induction tiers as [|t r IH]; intros i Hi H; [by split|]. inversion_clear H as [|?? Ht Hr].
  specialize (IH (i + 1) ltac:(lia) Hr). cbn [plan_from].
  assert (Hl : forallb str_char (label_or (label t) (default_label i)) = true) by (apply str_label; [apply Ht|by apply str_default_label]).
  destruct r as [|t' r]; [split; [constructor|]; split; [done|apply Ht]|]. destruct (written_conds t) as [|c cs] eqn:E; [done|].
  destruct (plan_from (i + 1) (t' :: r)) as [gs o]. destruct IH as [Hg Ho]. split; [|done]. constructor; [by apply guarded_of_tier|done].
Qed.

Lemma plan_of_fine tiers : Forall usable tiers -> plan_fine (plan_of tiers).
Proof.
  intros H. destruct tiers as [|t [|t' r]]; [by split| |by apply plan_from_fine]. inversion_clear H as [|?? Ht _]. unfold plan_of.
  assert (Hl : forallb str_char (label_or (label t) $"default") = true) by (apply str_label; [apply Ht|by vm_compute]).
  destruct (written_conds t) as [|c cs] eqn:E; [by split; [constructor|split; [done|apply Ht]]|].
  split; [|done]. constructor; [by apply guarded_of_tier|constructor].
Qed.

(** ** Evaluation *)

Section Run.
Context (env : jsstr -> option num) (count : jsstr -> num).

Definition known (v : jsstr) : Prop := env v = Some (count v).

Lemma eval_sum l a n st :
  (forall y, In y l -> known y.1) -> eval env a st = Some (JNum n, st) ->
  eval env (fold_left (fun a y => EBin Add a (e_term y)) l a) st
  = Some (JNum (fold_left (fun s y => nadd s (nmul (count y.1) y.2)) l n), st).
Proof.
  revert a n. induction l as [|y l IH]; intros a n Hk Ha; [done|]. cbn [fold_left]. apply IH; [intros z Hz; apply Hk; by right|].
  cbn [eval e_term]. rewrite Ha, (Hk y) by (by left). done.
Qed.

Lemma eval_terms ts st :
  known ts.1.1 -> (forall y, In y ts.2 -> known y.1) ->
  eval env (e_terms ts) st
  = Some (JNum (fold_left (fun s y => nadd s (nmul (count y.1) y.2)) ts.2 (nmul (count ts.1.1) ts.1.2)), st).
Proof. intros H Hl. apply eval_sum; [done|]. cbn [eval e_term]. by rewrite H. Qed.

Lemma eval_cond c st : In (op c) OPS -> known (var c) -> eval env (e_cond c) st = Some (JBool (cond_holds count c), st).
Proof.
  intros Ho Hv. unfold e_cond, cond_holds, compare_as, rel_of. destruct Ho as [<-|[<-|[<-|[<-|[]]]]]; js_lit; cbn [eval str_eqb Z.eqb Pos.eqb andb]; by rewrite Hv.
Qed.

Lemma eval_conds c r st :
  Forall (fun d => In (op d) OPS /\ known (var d)) (c :: r) ->
  eval env (e_conds c r) st = Some (JBool (forallb (cond_holds count) (c :: r)), st).
Proof.
  intros H. inversion_clear H as [|?? [Ho Hk] Hr]. unfold e_conds. cbn [forallb].
  assert (Hc : eval env (e_cond c) st = Some (JBool (cond_holds count c), st)) by (by apply eval_cond).
  revert Hc. generalize (e_cond c) as a, (cond_holds count c) as b. induction Hr as [|d r [Hod Hkd] _ IH]; intros a b Ha; cbn [fold_left forallb].
  - by rewrite andb_true_r.
  - rewrite andb_assoc. apply IH. cbn [eval]. rewrite Ha. cbn [jv_truthy]. destruct b; [by apply eval_cond|done].
Qed.

(** The variables of generated texts are known. *)
Context (known_all : forall v, In v ([$"p"; $"c"; $"len"] ++ map snd CACHE_VAR_MAP) -> known v).

Lemma known_terms t y : In y (tier_terms t).2 -> known y.1.
Proof using known_all.
  unfold tier_terms. cbn [snd]. intros [<-|([f v] & Hin & Hy)%in_flat_map]; [apply known_all; right; by left|].
  destruct (neqb _ _); [done|]. destruct Hy as [<-|[]]. apply known_all. apply in_app_iff. right. by apply (in_map snd _ _ Hin).
Qed.

Lemma eval_tier l t st : eval env (e_tier l t) st = Some (JNum (tier_cost count t), l).
Proof using known_all.
  unfold e_tier. cbn [eval]. rewrite eval_terms; [|apply known_all; by left|apply known_terms].
  unfold call_fn. change ($"tier" =s? $"tier") with true. cbv iota beta. do 3 f_equal.
  unfold tier_terms, tier_cost. cbn [fst snd fold_left]. generalize (nadd (nmul (count $"p") (or_zero (input_unit_cost t))) (nmul (count $"c") (or_zero (output_unit_cost t)))).
  clear known_all. induction CACHE_VAR_MAP as [|[f v] l' IH]; intros n; [done|]. cbn [flat_map fold_left]. rewrite fold_left_app, IH. by destruct (neqb _ _).
Qed.

(** The first alternative whose conditions hold. *)
Fixpoint choose (gs : list guarded) (o : last_alt) : option (jsstr * tier) :=
  match gs with
  | [] => o
  | g :: r => if forallb (cond_holds count) (g_cond g :: g_more g) then Some (g_label g, g_tier g) else choose r o
  end.

Definition charge (o : option (jsstr * tier)) : num * jsstr :=
  match o with
  | Some (l, t) => (tier_cost count t, l)
  | None => (nadd (nmul (count $"p") n0) (nmul (count $"c") n0), [])
  end.

Lemma eval_plan p : plan_fine p -> eval env (e_plan p) [] = Some (JNum (charge (choose p.1 p.2)).1, (charge (choose p.1 p.2)).2).
Proof using known_all.
  destruct p as [gs o]. intros [Hg _]. unfold e_plan. cbn [fst snd] in *. induction Hg as [|g gs [Hc _ _] _ IH]; cbn [foldr choose].
  - destruct o as [[l t]|]; cbn [e_last charge fst snd]; [apply eval_tier|].
    rewrite eval_terms; [done|apply known_all; by left|]. intros y [<-|[]]. apply known_all. right; by left.
  - unfold e_guarded at 1. cbn [eval]. rewrite eval_conds.
    + cbn [jv_truthy]. destruct (forallb _ _); [apply eval_tier|exact IH].
    + eapply Forall_impl; [exact Hc|]. intros d [(Hv & Ho & _) _]. split; [done|]. apply known_all. apply in_app_iff. by left.
Qed.

Lemma choose_from i t r : all_but_last conditioned (t :: r) -> choose (plan_from i (t :: r)).1 (plan_from i (t :: r)).2 = first_match count i (t :: r).
Proof using Type.
  revert i t. induction r as [|t' r IH]; intros i t H; [done|]. destruct H as [Hc Hr]. specialize (IH (i + 1) t' Hr).
  change (plan_from i (t :: t' :: r)) with
    (match written_conds t with
     | [] => plan_from (i + 1) (t' :: r)
     | c :: cs => let '(gs, o) := plan_from (i + 1) (t' :: r) in (Guarded c cs (label_or (label t) (default_label i)) t :: gs, o)
     end).
  change (first_match count i (t :: t' :: r)) with
    (if tier_matches count t then Some (label_or (label t) (default_label i), t) else first_match count (i + 1) (t' :: r)).
  rewrite <- IH. unfold tier_matches, conditioned in *. destruct (written_conds t) as [|c cs]; [done|].
  by destruct (plan_from (i + 1) (t' :: r)) as [gs o].
Qed.

Lemma choose_applicable tiers :
  all_but_last conditioned tiers -> charge (choose (plan_of tiers).1 (plan_of tiers).2) = quote_price count tiers.
Proof using Type.
  intros H. unfold quote_price. fold (charge (applicable count tiers)). f_equal. destruct tiers as [|t [|t' r]]; [done| |by apply choose_from].
  unfold plan_of, applicable, tier_matches. by destruct (written_conds t).
Qed.

End Run.

(** ** The estimate *)

(** Labels without escapes, numbers that are not negative. *)
Definition estimable (t : tier) : bool :=
  forallb str_char (label t) && starts_digit (String_num (or_zero (input_unit_cost t)))
  && starts_digit (String_num (or_zero (output_unit_cost t)))
  && forallb (fun '(f, _) => starts_digit (String_num (cost_of f t))) CACHE_VAR_MAP
  && forallb (fun c => starts_digit (String_num (cond_val c))) (written_conds t).

Lemma estimable_usable t : tier_fine t -> estimable t = true -> usable t.
Proof.
  intros Hf H. split; [done|]. destruct Hf as [[_ Hi Ho Hp] Hc]. unfold estimable in H. bsplit.
  repeat match goal with H : forallb _ CACHE_VAR_MAP = true |- _ => rewrite forallb_forall in H | H : forallb _ (written_conds t) = true |- _ => rewrite forallb_forall in H end.
  split; [done|by apply lit_of_num_ok|by apply lit_of_num_ok| |].
  - intros f v Hin. apply lit_of_num_ok; [by eapply Hp|]. by match goal with H : forall x, In x CACHE_VAR_MAP -> _ |- _ => apply (H (f, v)) end.
  - rewrite List.Forall_forall in Hc |- *. intros c Hin. destruct (Hc c Hin) as (_ & _ & n & En & Hn1 & Hn2 & Hn3). exists n. split; [done|].
    match goal with H : forall x, In x (written_conds t) -> _ |- _ => specialize (H c Hin); rename H into Hd end.
    unfold cond_val in Hd. rewrite En in Hd. apply lit_of_num_ok; [|done]. split; [|done]. split; [done|].
    eapply forallb_impl; [|exact Hn2]. apply condchar_numchar.
Qed.

(** The token counts the estimator was given. *)
Definition counts (p c : num) (extra : list (jsstr * num)) (x : jsstr) : num := default n0 (env_of p c extra x).

Lemma counts_known p c extra v : In v ([$"p"; $"c"; $"len"] ++ map snd CACHE_VAR_MAP) -> known (env_of p c extra) (counts p c extra) v.
Proof.
  intros H. unfold known, counts. assert (E : is_Some (env_of p c extra v)); [|by destruct E as [n ->]].
  revert v H. apply List.Forall_forall. repeat constructor; by eexists.
Qed.

(** C13: for tiers that can be read back ([config_ok]: every tier but the last has a
    complete condition, no double quote in a label), whose labels need no escape and whose
    numbers are not negative ([estimable]), the estimator charges the generated expression
    what the configuration says: the price of the first tier whose conditions the token
    counts meet, under the label that tier shows, with the tiers below it as the fallback in
    order. A tier without a condition above the last one gives no expression that can be
    read, [missing_condition_text]. *)
Theorem estimate_refines_tiers tiers p c extra (quote := quote_price (counts p c extra) tiers) :
  config_ok tiers -> Forall (fun t => estimable t = true) tiers ->
  evalExprLocally (generateExprFromVisualConfig (Some tiers)) p c extra = Some (JNum quote.1, quote.2).
Proof.
  intros Hok He. unfold evalExprLocally. rewrite plan_of_str by done.
  assert (Hp : plan_fine (plan_of tiers)).
  { apply plan_of_fine. apply List.Forall_forall. intros t Ht. rewrite List.Forall_forall in He.
    apply estimable_usable; [|by apply He]. destruct Hok as [_ Hf _]. rewrite List.Forall_forall in Hf. by apply Hf. }
  rewrite parse_text_plan by done. rewrite (eval_plan _ (counts p c extra)); [|apply counts_known|done].
  unfold quote. rewrite choose_applicable; [done|by destruct Hok].
Qed.

Lemma estimate_refines_tiers_witness :
  config_ok TieredEditorProofs.sample_tiers /\ Forall (fun t => estimable t = true) TieredEditorProofs.sample_tiers
  /\ evalExprLocally (generateExprFromVisualConfig (Some TieredEditorProofs.sample_tiers)) (of_Z 1000) (of_Z 600) []
     = Some (JNum (of_Z 19500), default_label 1).
Proof.
  assert (He : Forall (fun t => estimable t = true) TieredEditorProofs.sample_tiers) by (repeat constructor; by vm_compute).
  split; [apply TieredEditorProofs.sample_tiers_ok|]. split; [exact He|].
  assert (Hq : quote_price (counts (of_Z 1000) (of_Z 600) []) TieredEditorProofs.sample_tiers = (of_Z 19500, default_label 1)) by (by vm_compute).
  rewrite (estimate_refines_tiers TieredEditorProofs.sample_tiers (of_Z 1000) (of_Z 600) [] TieredEditorProofs.sample_tiers_ok He).
  by rewrite Hq.
Defined.

End TieredEvalProofs.
