(* ===== verification/Chat.v ===== *)
(** * The playground's conversation

    [web/src/hooks/playground/useMessageActions.jsx], [useMessageEdit.jsx] and the message
    handlers of [web/src/pages/Playground/index.jsx]: sending, regenerating, deleting,
    editing and switching the role of messages.  A message is an object: its reference is
    modelled, because the handlers look a message up by reference before they look it up
    by its identifier.  Identifiers come from a counter of the page ([helpers/utils.jsx]).
    Answers arrive through the functions of [Stream]. *)
From S2P Require Import Prelude JSNum JSValue Json Playground Api Stream.
#[local] Open Scope Z_scope.
#[local] Arguments js _ : simpl never.

Module Chat.
Import Messages Payload.

(** ** Data *)

(** A message: its reference, the fields the handlers read, the other properties. *)
Record msg := Msg { ref : Z; mid : val; role : val; content : val; rest : object }.

Definition known_field (k : jsstr) : bool := (k =s? $"id") || (k =s? $"role") || (k =s? $"content").

Definition of_val (n : Z) (v : val) : msg :=
  Msg n (get_any v $"id") (get_any v $"role") (get_any v $"content")
    (List.filter (fun kv => negb (known_field kv.1)) (entries v)).

Definition to_val (m : msg) : val :=
  VObj ([($"role", role m); ($"content", content m); ($"id", mid m)] ++ rest m).

(** [a === b] on primitive values; identifiers are never objects. *)
Definition strict_eq (a b : val) : bool :=
  match a, b with
  | VUndef, VUndef | VNull, VNull => true
  | VBool x, VBool y => Bool.eqb x y
  | VNum x, VNum y => neqb x y
  | VStr x, VStr y => x =s? y
  | _, _ => false
  end.

Definition same_id (a b : msg) : bool := strict_eq (mid a) (mid b).

Definition has_role (r : string) (m : msg) : bool := eq_str (role m) (js r).

(** What a handler asks for besides the new messages. *)
Inductive chat_effect :=
| SendRequest (payload : val) (stream : bool)
| SaveLater (l : list msg)
| SendLater (text : val)
| ImagesOffLater
| JsonError.

Record chat := Chat {
  messages : list msg;
  messageId : Z; next_ref : Z;
  editingMessageId : val; editingMessageRef : option Z; editValue : val;
  (** the open question after an edit: the index, and the messages with the edit *)
  confirm : option (nat * list msg);
  (** the messages a regeneration was confirmed for, until its timer fires *)
  regenerating : list (list msg);
  inputs : val; parameterEnabled : val; customRequestMode : bool; customRequestBody : jsstr
}.

Definition put_messages (l : list msg) (s : chat) : chat :=
  Chat l (messageId s) (next_ref s) (editingMessageId s) (editingMessageRef s) (editValue s) (confirm s) (regenerating s)
    (inputs s) (parameterEnabled s) (customRequestMode s) (customRequestBody s).
Definition set_counters (i n : Z) (s : chat) : chat :=
  Chat (messages s) i n (editingMessageId s) (editingMessageRef s) (editValue s) (confirm s) (regenerating s)
    (inputs s) (parameterEnabled s) (customRequestMode s) (customRequestBody s).
Definition set_editing (i : val) (r : option Z) (v : val) (s : chat) : chat :=
  Chat (messages s) (messageId s) (next_ref s) i r v (confirm s) (regenerating s)
    (inputs s) (parameterEnabled s) (customRequestMode s) (customRequestBody s).
Definition set_confirm (c : option (nat * list msg)) (p : list (list msg)) (s : chat) : chat :=
  Chat (messages s) (messageId s) (next_ref s) (editingMessageId s) (editingMessageRef s) (editValue s) c p
    (inputs s) (parameterEnabled s) (customRequestMode s) (customRequestBody s).

(** [{ ...m, k: v }] is a new object. *)
Fixpoint update_where (p : msg -> bool) (f : msg -> msg) (n : Z) (l : list msg) : list msg * Z :=
  match l with
  | [] => ([], n)
  | m :: r =>
    if p m then let '(r', n') := update_where p f (n + 1) r in
                (Msg n (mid (f m)) (role (f m)) (content (f m)) (rest (f m)) :: r', n')
    else let '(r', n') := update_where p f n r in (m :: r', n')
  end.

Fixpoint findIndex (p : msg -> bool) (l : list msg) : option nat :=
  match l with
  | [] => None
  | m :: r => if p m then Some O else S <$> findIndex p r
  end.

(** By reference, then by identifier. *)
Definition locate (r : option Z) (i : val) (l : list msg) : option nat :=
  match findIndex (fun m => bool_decide (Some (ref m) = r)) l with
  | Some n => Some n
  | None => findIndex (fun m => strict_eq (mid m) i) l
  end.

(** ** Sending *)

(** [inputs.imageUrls.filter((url) => url.trim() !== '')] *)
Definition image_urls (v : val) : outcome (list jsstr) :=
  match get_any v $"imageUrls" with
  | VArr l =>
    (fix go l := match l with
                 | [] => Ret []
                 | VStr u :: r => bind_outcome (go r) (fun us => Ret (if nonempty (trim u) then u :: us else us))
                 | _ :: _ => Throw
                 end) l
  | _ => Throw
  end.

Definition onMessageSend (now : num) (text : jsstr) (s : chat) : outcome (chat * list chat_effect) :=
  let '(userMessage, i1) := createMessage now (messageId s) (VStr $"user") (VStr text) [] in
  let '(loadingMessage, i2) := createLoadingAssistantMessage now i1 in
  let n := next_ref s in
  if customRequestMode s && nonempty (customRequestBody s) then
    match parse (customRequestBody s) with
    | None => Ret (set_counters i2 n s, [JsonError])
    | Some customPayload =>
      bind_outcome (get_or_throw customPayload $"stream") (fun stream =>
      let newMessages := messages s ++ [of_val n userMessage; of_val (n + 1) loadingMessage] in
      Ret (put_messages newMessages (set_counters i2 (n + 2) s),
           [SendRequest customPayload (negb (eq_bool stream false)); SaveLater newMessages]))
    end
  else
    bind_outcome (image_urls (inputs s)) (fun validImageUrls =>
    let imageEnabled := truthy (get_any (inputs s) $"imageEnabled") in
    let '(userMessageWithImages, i3) :=
      createMessage now i2 (VStr $"user") (buildMessageContent text validImageUrls imageEnabled) [] in
    let newMessages := messages s ++ [of_val n userMessageWithImages] in
    let payload := VObj (buildApiPayload (map to_val newMessages) None (inputs s) (parameterEnabled s)) in
    let messagesWithLoading := newMessages ++ [of_val (n + 1) loadingMessage] in
    Ret (put_messages messagesWithLoading (set_counters i3 (n + 2) s),
         [SendRequest payload (truthy (get_any (inputs s) $"stream"))]
         ++ (if imageEnabled then [ImagesOffLater] else []) ++ [SaveLater messagesWithLoading])).

(** ** Regenerating *)

(** The last user message before index [n]. *)
Fixpoint user_before (n : nat) (l : list msg) : option nat :=
  match n with
  | O => None
  | S k => match l !! k with
           | Some m => if has_role "user" m then Some k else user_before k l
           | None => user_before k l
           end
  end.

Definition resend_from (k : nat) (m : msg) (s : chat) : outcome (chat * list chat_effect) :=
  bind_outcome (getTextContent (to_val m)) (fun text =>
  Ret (put_messages (take k (messages s)) s, [SendLater text])).

Definition handleMessageReset (target : msg) (s : chat) : outcome (chat * list chat_effect) :=
  match locate (Some (ref target)) (mid target) (messages s) with
  | None => Ret (s, [])
  | Some n =>
    if has_role "user" target then resend_from n target s
    else if has_role "assistant" target || has_role "system" target then
      match user_before n (messages s) with
      | Some k => match messages s !! k with Some m => resend_from k m s | None => Ret (s, []) end
      | None => Ret (s, [])
      end
    else Ret (s, [])
  end.

(** ** Deleting *)

Definition drop_two (n : nat) (l : list msg) : list msg := take n l ++ drop (n + 2) l.

(** The answer [onOk] of the question. *)
Definition handleMessageDelete (target : msg) (s : chat) : chat * list chat_effect :=
  match locate (Some (ref target)) (mid target) (messages s) with
  | None => (s, [])
  | Some n =>
    let others := List.filter (fun m => negb (same_id m target)) (messages s) in
    let updatedMessages :=
      match messages s !! S n with
      | Some nextMessage =>
        if has_role "user" target && has_role "assistant" nextMessage then drop_two n (messages s) else others
      | None => others
      end in
    (put_messages updatedMessages s, [SaveLater updatedMessages])
  end.

(** ** Switching the role *)

Definition toggleable (m : msg) : bool := has_role "assistant" m || has_role "system" m.

Definition set_role (r : val) (m : msg) : msg := Msg (ref m) (mid m) r (content m) (rest m).

Definition handleRoleToggle (target : msg) (s : chat) : chat * list chat_effect :=
  if negb (toggleable target) then (s, [])
  else
    let newRole := if has_role "assistant" target then VStr $"system" else VStr $"assistant" in
    let '(updatedMessages, n) :=
      update_where (fun m => same_id m target && toggleable m) (set_role newRole) (next_ref s) (messages s) in
    (put_messages updatedMessages (set_counters (messageId s) n s), [SaveLater updatedMessages]).

(** ** Expanding the reasoning *)

Definition toggleReasoningExpansion (i : val) (s : chat) : chat :=
  let '(l, n) :=
    update_where (fun m => strict_eq (mid m) i && has_role "assistant" m)
      (fun m => Msg (ref m) (mid m) (role m) (content m)
                  (prop_set $"isReasoningExpanded"
                     (VBool (negb (truthy (default VUndef (prop $"isReasoningExpanded" (rest m)))))) (rest m)))
      (next_ref s) (messages s) in
  put_messages l (set_counters (messageId s) n s).

Definition handleClearMessages (s : chat) : chat * list chat_effect := (put_messages [] s, [SaveLater []]).

(** ** Editing *)

Definition handleMessageEdit (target : msg) (s : chat) : outcome chat :=
  bind_outcome (getTextContent (to_val target)) (fun text =>
  Ret (set_editing (mid target) (Some (ref target)) text s)).

Definition setEditValue (v : val) (s : chat) : chat := set_editing (editingMessageId s) (editingMessageRef s) v s.

Definition handleEditCancel (s : chat) : chat := set_editing VNull None (VStr []) s.

(** The parts of a content; reading the type of a hole throws. *)
Fixpoint edit_parts (v : jsstr) (l : list val) : outcome (list val) :=
  match l with
  | [] => Ret []
  | item :: r =>
    bind_outcome (get_or_throw item $"type") (fun ty =>
    bind_outcome (edit_parts v r) (fun r' =>
    Ret ((if eq_str ty $"text" then VObj (prop_set $"text" (VStr v) (entries item)) else item) :: r')))
  end.

Definition edited_content (v : jsstr) (c : val) : outcome val :=
  match c with
  | VArr l => bind_outcome (edit_parts v l) (fun l' => Ret (VArr l'))
  | _ => Ret (VStr v)
  end.

Definition set_content (c : val) (m : msg) : msg := Msg (ref m) (mid m) (role m) c (rest m).

(** [editValue.trim()] *)
Definition trimmed_edit (v : val) : outcome jsstr := match v with VStr t => Ret (trim t) | _ => Throw end.

Definition handleEditSave (s : chat) : outcome (chat * list chat_effect) :=
  if negb (truthy (editingMessageId s)) then Ret (s, [])
  else
    bind_outcome (trimmed_edit (editValue s)) (fun text =>
    if negb (nonempty text) then Ret (s, [])
    else
      match locate (editingMessageRef s) (editingMessageId s) (messages s) with
      | None => Throw
      | Some n =>
        match messages s !! n with
        | None => Throw
        | Some target =>
          bind_outcome (edited_content text (content target)) (fun newContent =>
          let '(updatedMessages, k) :=
            update_where (fun m => strict_eq (mid m) (editingMessageId s)) (set_content newContent) (next_ref s) (messages s) in
          let s' := set_editing VNull None (VStr []) (set_counters (messageId s) k s) in
          let hasReply := match messages s !! S n with Some m => has_role "assistant" m | None => false end in
          if has_role "user" target && hasReply
          then Ret (set_confirm (Some (n, updatedMessages)) (regenerating s) s', [])
          else Ret (put_messages updatedMessages s', [SaveLater updatedMessages]))
        end
      end).

(** The answers to the question. *)
Definition confirm_regenerate (s : chat) : chat * list chat_effect :=
  match confirm s with
  | None => (s, [])
  | Some (n, updatedMessages) =>
    let messagesUntilUser := take (n + 1) updatedMessages in
    (put_messages messagesUntilUser (set_confirm None (regenerating s ++ [messagesUntilUser]) s), [SaveLater messagesUntilUser])
  end.

Definition confirm_save_only (s : chat) : chat * list chat_effect :=
  match confirm s with
  | None => (s, [])
  | Some (_, updatedMessages) =>
    (put_messages updatedMessages (set_confirm None (regenerating s) s), [SaveLater updatedMessages])
  end.

(** The timer of a confirmed regeneration. *)
Definition regenerate_timer (now : num) (s : chat) : chat * list chat_effect :=
  match regenerating s with
  | [] => (s, [])
  | messagesUntilUser :: r =>
    let payload := VObj (buildApiPayload (map to_val messagesUntilUser) None (inputs s) (parameterEnabled s)) in
    let '(loading, i) := createLoadingAssistantMessage now (messageId s) in
    (set_confirm (confirm s) r
       (put_messages (messages s ++ [of_val (next_ref s) loading]) (set_counters i (next_ref s + 1) s)),
     [SendRequest payload (truthy (get_any (inputs s) $"stream"))])
  end.

(** ** The start of a session *)

(** The texts are translations. *)
Definition getDefaultMessages (user assistant : jsstr) : list val :=
  let at_ := VNum (of_Z 1715676751919) in
  [VObj [($"role", VStr $"user"); ($"id", VStr $"2"); ($"createAt", at_); ($"content", VStr user)];
   VObj [($"role", VStr $"assistant"); ($"id", VStr $"3"); ($"createAt", at_); ($"content", VStr assistant);
         ($"reasoningContent", VStr []); ($"isReasoningExpanded", VBool false)]].

Fixpoint of_vals (n : Z) (l : list val) : list msg :=
  match l with [] => [] | v :: r => of_val n v :: of_vals (n + 1) r end.

(** The page is loaded with the messages; the counter of identifiers starts at 4. *)
Definition start (loaded : list val) (inputs parameterEnabled : val) : chat :=
  Chat (of_vals 0 loaded) 4 (Z.of_nat (length loaded)) VNull None (VStr []) None [] inputs parameterEnabled false [].

(** ** Identifiers *)

(** The identifier of a message is not among its other properties. *)
Definition clean (m : msg) : Prop := prop $"id" (rest m) = None.

(** Identifiers of the counter below [n], no two the same. *)
Definition id_below (n : Z) (m : msg) : Prop := exists k, (0 <= k < n /\ clean m) /\ mid m = VStr (Z_to_str k).

Definition ids_ok (n : Z) (l : list msg) : Prop := Forall (id_below n) l /\ NoDup (map mid l).

Lemma ids_sub n l l' : ids_ok n l' -> l `sublist_of` l' -> ids_ok n l.
Proof.
  intros [Hf Hn] Hs. split.
  - apply Forall_forall. intros m Hm. rewrite Forall_forall in Hf. apply Hf. by eapply elem_of_sublist.
  - eapply sublist_NoDup; [exact Hn|]. by apply fmap_sublist.
Qed.

Lemma ids_mono n n' l : n <= n' -> ids_ok n l -> ids_ok n' l.
Proof.
  intros Hle [Hf Hn]. split; [|done]. eapply Forall_impl; [exact Hf|]. intros m (k & [Hk Hc] & E). exists k. split; [split; [lia|done]|done].
Qed.

Lemma below_fresh n l k m : Forall (id_below n) l -> 0 <= n <= k -> mid m = VStr (Z_to_str k) -> forall m', m' ∈ l -> mid m' <> mid m.
Proof.
  intros Hf Hk Hm m' Hin. rewrite Forall_forall in Hf. destruct (Hf m' Hin) as (k' & [Hk' _] & E). rewrite E, Hm. intros [= E'].
  apply Z_to_str_inj in E'; lia.
Qed.

Lemma ids_add n l m k :
  0 <= k < n -> clean m -> mid m = VStr (Z_to_str k) -> (forall m', m' ∈ l -> mid m' <> mid m) -> ids_ok n l -> ids_ok n (l ++ [m]).
Proof.
  intros Hk Hcl Hm Hfr [Hf Hn]. split.
  - apply Forall_app. split; [done|]. constructor; [|done]. by exists k.
  - rewrite map_app. cbn [map]. apply NoDup_app. split; [done|]. split; [|apply NoDup_singleton]. intros v Hv%list_elem_of_fmap.
    destruct Hv as (m' & -> & Hin). rewrite list_elem_of_singleton. by apply Hfr.
Qed.

(** Two new messages with new identifiers. *)
Lemma ids_two n l m1 m2 k1 k2 n' :
  ids_ok n l -> 0 <= n -> n <= k1 < n' -> n <= k2 < n' -> k1 <> k2 -> clean m1 -> clean m2 -> mid m1 = VStr (Z_to_str k1) -> mid m2 = VStr (Z_to_str k2) ->
  ids_ok n' (l ++ [m1; m2]).
Proof.
  intros Hl H0 H1 H2 Hne C1 C2 E1 E2. change [m1; m2] with ([m1] ++ [m2]). rewrite app_assoc. pose proof Hl as [Hf _].
  apply (ids_add _ _ _ k2); [lia|done|done| |].
  - intros m' [Hin|Hin%list_elem_of_singleton]%elem_of_app; [apply (below_fresh n l k2); (done || lia)|]. subst m'. rewrite E1, E2.
    intros [= E]. apply Z_to_str_inj in E; lia.
  - apply (ids_add _ _ _ k1); [lia|done|done|apply (below_fresh n l k1); (done || lia)|]. apply (ids_mono n); [lia|done].
Qed.

(** What the invariant reads of a message. *)
Definition tag (m : msg) : val * option val := (mid m, prop $"id" (rest m)).

Lemma ids_same n l l' : map tag l = map tag l' -> ids_ok n l -> ids_ok n l'.
Proof.
  intros E [Hf Hn]. split.
  - apply Forall_forall. intros m Hm. assert (Hin : tag m ∈ map tag l) by (rewrite E; by apply list_elem_of_fmap; exists m).
    apply list_elem_of_fmap in Hin as (m' & Em & Hm'). rewrite Forall_forall in Hf. destruct (Hf m' Hm') as (k & [Hk Hc] & E').
    injection Em as E1 E2. exists k. unfold clean in *. rewrite E1, E2. done.
  - assert (Em : forall l, map mid l = map fst (map tag l)) by (intros x; by rewrite map_map). by rewrite Em, <- E, <- Em.
Qed.

Lemma filter_sub {A} (p : A -> bool) l : List.filter p l `sublist_of` l.
Proof. induction l as [|x l IH]; cbn; [done|]. destruct (p x); by constructor. Qed.

Lemma drop_two_sub n l : drop_two n l `sublist_of` l.
Proof.
  unfold drop_two. rewrite <- (take_drop n l) at 3. apply sublist_app; [done|]. rewrite <- drop_drop. apply sublist_drop.
Qed.

Lemma update_where_ids p f n l : (forall m, tag (f m) = tag m) -> map tag (update_where p f n l).1 = map tag l.
Proof.
  intros Hf. revert n. induction l as [|m l IH]; intros n; [done|]. cbn [update_where]. destruct (p m).
  - specialize (IH (n + 1)). destruct (update_where p f (n + 1) l). cbn in *. rewrite IH. f_equal. exact (Hf m).
  - specialize (IH n). destruct (update_where p f n l). cbn in *. by rewrite IH.
Qed.

Lemma of_created now i r c n : mid (of_val n (createMessage now i r c []).1) = VStr (Z_to_str i).
Proof. done. Qed.

Lemma of_loading now i n : mid (of_val n (createLoadingAssistantMessage now i).1) = VStr (Z_to_str i).
Proof. done. Qed.

Lemma of_val_clean n v : clean (of_val n v).
Proof.
  unfold clean, of_val. cbn [rest]. apply prop_None. intros (kv & E & H)%list_elem_of_fmap. apply list_elem_of_In, filter_In in H as [_ H].
  rewrite <- E in H. unfold known_field in H. by rewrite str_eqb_refl in H.
Qed.

(** ** Answers *)

(** What happens to the messages while an answer is asked for and arrives: a request is
    sent, an event of its source or its answer arrives, or it is stopped. *)
Inductive answering (t : jsstr -> jsstr) (w : Stream.Stream.world) : Stream.Stream.world -> Prop :=
| a_send payload stream ts start f r te v w' :
    Stream.Stream.sendRequest t payload stream ts start f r te w = Ret (v, w') -> answering t w w'
| a_event e r perr v v' w' : Stream.Stream.on_event t e r perr v w = Ret (v', w') -> answering t w w'
| a_stop w' : Stream.Stream.onStopGenerator w = Ret w' -> answering t w w'.

(** An object whose identifier a spread copies. *)
Definition lone (v : val) : Prop := exists o, v = VObj o /\ prop $"id" (props_of o) = prop $"id" o.

(** A message and what replaces it have the same identifier. *)
Definition keep (m v : val) : Prop := lone m -> lone v /\ get_any v $"id" = get_any m $"id".

(** The list is the same, or its last message is replaced. *)
Definition keeps (l l' : list val) : Prop := l' = l \/ exists before m v, l = before ++ [m] /\ l' = before ++ [v] /\ keep m v.

Lemma keep_refl m : keep m m.
Proof. by intros H. Qed.

Lemma keeps_refl l : keeps l l.
Proof. by left. Qed.

Lemma keeps_trans a b c : keeps a b -> keeps b c -> keeps a c.
Proof.
  intros [->|(p & m & v & -> & -> & K1)] [->|(q & m' & u & E & -> & K2)]; [by left|by right; exists q, m', u|by right; exists p, m, v|].
  apply app_inj_tail in E as [<- <-]. right. exists p, m, u. split; [done|]. split; [done|]. intros [L E1]%K1. apply K2 in L as [L E2].
  by rewrite E2, E1.
Qed.

Lemma assign_absent {V} (o l : list (jsstr * V)) k : prop k l = None -> prop k (prop_assign o l) = prop k o.
Proof.
  unfold prop_assign. revert o. induction l as [|[k1 v1] l IH]; intros o; [done|]. cbn [prop fold_left fst snd].
  destruct (str_eqb_spec k k1) as [->|Hk]; [done|]. intros H. by rewrite IH, prop_set_ne.
Qed.

Lemma keep_assign m l : prop $"id" l = None -> keep m (VObj (prop_assign (props_of (entries m)) l)).
Proof.
  intros Hl (o & -> & Ho). cbn [entries]. split.
  - eexists. split; [reflexivity|]. rewrite props_of_canonical; [done|]. apply prop_assign_is_canonical, prop_assign_is_canonical. constructor.
  - unfold get_any. cbn [entries]. by rewrite assign_absent, Ho.
Qed.

Lemma keeps_update f l : keep (Stream.Stream.last_message l) (f (Stream.Stream.last_message l)) -> keeps l (Stream.Stream.update_last f l).
Proof.
  destruct (list.last l) as [m|] eqn:E.
  - apply last_Some in E as [before ->]. rewrite Stream.Stream.last_message_app, Stream.Stream.update_last_app. intros K. right. by exists before, m, (f m).
  - apply last_None in E as ->. intros _. by left.
Qed.

Ltac no_id := unfold Stream.Stream.applyAutoCollapseLogic; vm_compute; reflexivity.

Lemma stream_keeps chunk kind w : keeps (Stream.Stream.messages w) (Stream.Stream.messages (Stream.Stream.streamMessageUpdate chunk kind w)).
Proof.
  apply keeps_update. unfold Stream.Stream.stream_last. destruct (_ && _); [|apply keep_refl]. destruct kind; apply keep_assign; no_id.
Qed.

Lemma complete_keeps status w w' : Stream.Stream.completeMessage status w = Ret w' -> keeps (Stream.Stream.messages w) (Stream.Stream.messages w').
Proof.
  unfold Stream.Stream.completeMessage. cbv zeta. destruct (is_nullish _); [done|]. destruct (Stream.Stream.final _); [intros <-%Ret_inj; by left|].
  intros <-%Ret_inj. assert (K : keeps (Stream.Stream.messages w) (Stream.Stream.update_last (Stream.Stream.complete_last status) (Stream.Stream.messages w)))
    by (apply keeps_update, keep_assign; no_id).
  by destruct (_ || _).
Qed.

Section Answering.
Variable t : jsstr -> jsstr.
Implicit Types (w : Stream.Stream.world) (s : Stream.Stream.stream).

Lemma fail_stream_keeps text w w' : Stream.Stream.fail_stream t text w = Ret w' -> keeps (Stream.Stream.messages w) (Stream.Stream.messages w').
Proof using. intros H%complete_keeps. eapply keeps_trans; [apply stream_keeps|exact H]. Qed.

Lemma failed_keeps r message code w : keeps (Stream.Stream.messages w) (Stream.Stream.messages (Stream.Stream.request_failed t r message code w)).
Proof using.
  unfold Stream.Stream.request_failed. cbv zeta. cbn [Stream.Stream.messages Stream.Stream.with_messages Stream.Stream.show_response
    Stream.Stream.setActiveDebugTab Stream.Stream.setDebugData]. apply keeps_update. unfold Stream.Stream.finish_loading.
  destruct (Stream.Stream.status_is _ _); [|apply keep_refl]. apply keep_assign. no_id.
Qed.

Lemma plain_keeps payload ts f r te w :
  keeps (Stream.Stream.messages w) (Stream.Stream.messages (Stream.Stream.handleNonStreamRequest t payload ts f r te w)).
Proof using.
  unfold Stream.Stream.handleNonStreamRequest. cbv zeta. set (w1 := Stream.Stream.start_request _ _ _ _ _).
  change (Stream.Stream.messages w) with (Stream.Stream.messages w1). destruct f as [message|status text body|data]; [apply failed_keeps| |].
  - destruct (Stream.Stream.error_body body) as [b e]. apply (failed_keeps _ _ _ (Stream.Stream.show_response _ w1)).
  - set (w2 := Stream.Stream.show_response _ w1). change (Stream.Stream.messages w1) with (Stream.Stream.messages w2).
    destruct (bind_outcome _ _) as [[o|]|] eqn:E; [|apply keeps_refl|apply failed_keeps].
    apply keeps_update. unfold Stream.Stream.finish_loading. destruct (Stream.Stream.status_is _ _); [|apply keep_refl]. apply keep_assign.
    destruct (Stream.Stream.first_choice data) as [c|]; [|done]. cbn [bind_outcome] in E. destruct (truthy c); [|done].
    unfold Stream.Stream.answer_fields in E. destruct (Stream.Stream.think_content _ _) as [[x y]|]; [|done]. cbn [bind_outcome] in E.
    injection E as <-. no_id.
Qed.

Lemma delta_keeps delta k kind w : keeps (Stream.Stream.messages w) (Stream.Stream.messages (Stream.Stream.apply_delta delta k kind w)).
Proof using. unfold Stream.Stream.apply_delta. cbv zeta. destruct (truthy _); [apply stream_keeps|apply keeps_refl]. Qed.

Lemma message_keeps data perr s w s' w' :
  Stream.Stream.on_message t data perr s w = Ret (s', w') -> keeps (Stream.Stream.messages w) (Stream.Stream.messages w').
Proof using.
  unfold Stream.Stream.on_message. destruct (data =s? $"[DONE]").
  - destruct (Stream.Stream.completeMessage _ _) as [w1|] eqn:E; [|done]. intros H%Ret_inj. injection H as _ <-. exact (complete_keeps _ _ _ E).
  - assert (B : forall s1 w1, bind_outcome (Stream.Stream.bad_message t data perr s1 w1) (fun w' => Ret (s1, w')) = Ret (s', w') ->
                 keeps (Stream.Stream.messages w1) (Stream.Stream.messages w')).
    { intros s1 w1. destruct (Stream.Stream.bad_message t data perr s1 w1) as [w2|] eqn:E; [|done]. intros H%Ret_inj. injection H as _ <-.
      exact (fail_stream_keeps _ _ _ E). }
    destruct (parse data) as [payload|]; [|apply B]. cbv zeta. set (w1 := Stream.Stream.setDebugData _ (Stream.Stream.first_response s w)).
    assert (M : Stream.Stream.messages w = Stream.Stream.messages w1)
      by (unfold w1, Stream.Stream.first_response; by destruct (Stream.Stream.hasReceivedFirstResponse s)).
    destruct (Stream.Stream.delta_of payload) as [delta|]; [|intros H%B; by rewrite M]. intros H%Ret_inj. injection H as _ <-. rewrite M.
    destruct (truthy delta); [|apply keeps_refl]. unfold Stream.Stream.apply_deltas. do 2 (eapply keeps_trans; [|apply delta_keeps]). apply delta_keeps.
Qed.

Lemma event_keeps e r perr s w s' w' :
  Stream.Stream.on_event t e r perr s w = Ret (s', w') -> keeps (Stream.Stream.messages w) (Stream.Stream.messages w').
Proof using.
  destruct e as [data|data rs|ers st rs]; cbn [Stream.Stream.on_event].
  - apply message_keeps.
  - intros H%Ret_inj. injection H as _ <-. unfold Stream.Stream.on_error. destruct (_ || _); [apply keeps_refl|].
    destruct (Stream.Stream.error_of t data) as [m c]. cbv zeta. apply keeps_update. unfold Stream.Stream.fail_last.
    destruct (_ && _); [|apply keep_refl]. apply keep_assign. no_id.
  - destruct (Stream.Stream.on_readystatechange t ers st rs r s w) as [w1|] eqn:E; [|done]. intros H%Ret_inj. injection H as _ <-.
    revert E. unfold Stream.Stream.on_readystatechange. cbv zeta. destruct (_ && _); [|intros <-%Ret_inj; apply keeps_refl].
    intros H. exact (fail_stream_keeps _ _ _ H).
Qed.

Lemma send_keeps payload stream ts start f r te w v w' :
  Stream.Stream.sendRequest t payload stream ts start f r te w = Ret (v, w') -> keeps (Stream.Stream.messages w) (Stream.Stream.messages w').
Proof using.
  unfold Stream.Stream.sendRequest, Stream.Stream.handleSSE. cbv zeta. destruct stream.
  - destruct start as [[m rep]|]; cbn [bind_outcome]; [|intros H%Ret_inj; injection H as _ <-; apply keeps_refl].
    destruct (Stream.Stream.fail_stream t _ _) as [w1|] eqn:E; [|done]. cbn [bind_outcome]. intros H%Ret_inj. injection H as _ <-.
    exact (fail_stream_keeps _ _ _ E).
  - intros H%Ret_inj. injection H as _ <-. apply plain_keeps.
Qed.

Lemma stop_keeps w w' : Stream.Stream.onStopGenerator w = Ret w' -> keeps (Stream.Stream.messages w) (Stream.Stream.messages w').
Proof using.
  unfold Stream.Stream.onStopGenerator. cbv zeta. destruct (Stream.Stream.messages w) as [|x l] eqn:M; [intros <-%Ret_inj; rewrite <- M; apply keeps_refl|].
  rewrite <- M. destruct (is_nullish _); [done|]. destruct (Stream.Stream.waiting _); [|intros <-%Ret_inj; apply keeps_refl].
  destruct (Stream.Stream.stopped_message _) as [m'|] eqn:E; [|done]. cbn [bind_outcome]. intros <-%Ret_inj. apply keeps_update.
  unfold Stream.Stream.stopped_message in E. destruct (process_content _ _) as [[c r]|]; [|done]. cbn [bind_outcome] in E. apply Ret_inj in E as <-.
  apply keep_assign. no_id.
Qed.

End Answering.

(** Asking for an answer, its arrival and its stop change the last message only, and never
    its identifier. *)
Lemma answering_keeps t w w' : answering t w w' -> keeps (Stream.Stream.messages w) (Stream.Stream.messages w').
Proof. intros [*|*|*]; [by eapply send_keeps|by eapply event_keeps|by eapply stop_keeps]. Qed.

Lemma to_val_lone m : clean m -> lone (to_val m) /\ get_any (to_val m) $"id" = mid m.
Proof.
  intros C. assert (E : forall o, prop $"id" (prop_assign o (rest m)) = prop $"id" o) by (intros o; by apply assign_absent).
  split; [|reflexivity]. eexists. split; [reflexivity|]. unfold props_of, prop_assign in *. rewrite fold_left_app, E. reflexivity.
Qed.

(** ** Sessions *)

Definition set_settings (inp pe : val) (s : chat) : chat :=
  Chat (messages s) (messageId s) (next_ref s) (editingMessageId s) (editingMessageRef s) (editValue s) (confirm s) (regenerating s)
    inp pe (customRequestMode s) (customRequestBody s).

(** The events of a conversation.  An answer replaces the last message by a new object;
    events that leave the list as it is are no steps.  The own request body stays off. *)
Inductive step (s : chat) : chat -> Prop :=
| s_send now text s' e : onMessageSend now text s = Ret (s', e) -> step s s'
| s_reset target s' e : handleMessageReset target s = Ret (s', e) -> step s s'
| s_delete target : step s (handleMessageDelete target s).1
| s_role target : step s (handleRoleToggle target s).1
| s_expand i : step s (toggleReasoningExpansion i s)
| s_clear : step s (handleClearMessages s).1
| s_edit target s' : handleMessageEdit target s = Ret s' -> step s s'
| s_type v : step s (setEditValue v s)
| s_cancel : step s (handleEditCancel s)
| s_save s' e : handleEditSave s = Ret (s', e) -> step s s'
| s_regenerate : step s (confirm_regenerate s).1
| s_save_only : step s (confirm_save_only s).1
| s_timer now : step s (regenerate_timer now s).1
| s_settings inp pe : step s (set_settings inp pe s)
| s_stream t w w' before m v :
    Stream.Stream.messages w = map to_val (messages s) -> answering t w w' ->
    messages s = before ++ [m] -> Stream.Stream.messages w' = map to_val before ++ [v] ->
    step s (put_messages (before ++ [of_val (next_ref s) v]) (set_counters (messageId s) (next_ref s + 1) s)).

(** The messages shown, and those an open question would restore. *)
Record Inv (s : chat) : Prop := MkInv {
  inv_counter : 0 <= messageId s;
  inv_messages : ids_ok (messageId s) (messages s);
  inv_confirm : forall n l, confirm s = Some (n, l) -> ids_ok (messageId s) l
}.

Lemma send_inv now text s s' e : Inv s -> onMessageSend now text s = Ret (s', e) -> Inv s'.
Proof.
  intros [H0 Hm Hc]. unfold onMessageSend, createMessage, createLoadingAssistantMessage, createMessage, generateMessageId. cbv iota beta zeta.
  destruct (customRequestMode s && nonempty (customRequestBody s)).
  - destruct (parse (customRequestBody s)) as [p|].
    + destruct (get_or_throw p $"stream") as [st|]; cbn [bind_outcome]; [|done]. intros E%Ret_inj%(f_equal fst). cbn [fst] in E. subst s'.
      split; cbn; [lia| |intros n l Hl; apply (ids_mono (messageId s)); [lia|by eapply Hc]].
      apply (ids_two (messageId s) _ _ _ (messageId s) (messageId s + 1)); (done || lia || apply of_val_clean).
    + intros E%Ret_inj%(f_equal fst). cbn [fst] in E. subst s'.
      split; cbn; [lia|apply (ids_mono (messageId s)); [lia|done]|intros n l Hl; apply (ids_mono (messageId s)); [lia|by eapply Hc]].
  - destruct (image_urls (inputs s)) as [us|]; cbn [bind_outcome]; [|done]. intros E%Ret_inj%(f_equal fst). cbn [fst] in E. subst s'.
    split; cbn; [lia| |intros n l Hl; apply (ids_mono (messageId s)); [lia|by eapply Hc]].
    rewrite <- app_assoc. apply (ids_two (messageId s) _ _ _ (messageId s + 1 + 1) (messageId s + 1)); (done || lia || apply of_val_clean).
Qed.

Lemma shrink_inv s l : Inv s -> l `sublist_of` messages s -> Inv (put_messages l s).
Proof. intros [H0 Hm Hc] Hl. split; cbn; [done|by eapply ids_sub|done]. Qed.

Lemma same_ids_inv s l n : Inv s -> map tag l = map tag (messages s) -> Inv (put_messages l (set_counters (messageId s) n s)).
Proof. intros [H0 Hm Hc] E. split; cbn; [done|by apply (ids_same _ (messages s))|done]. Qed.

Lemma reset_inv target s s' e : Inv s -> handleMessageReset target s = Ret (s', e) -> Inv s'.
Proof.
  intros Hs. assert (Hr : forall k m, resend_from k m s = Ret (s', e) -> Inv s').
  { intros k m. unfold resend_from. destruct (getTextContent _); cbn [bind_outcome]; [|done]. intros E%Ret_inj%(f_equal fst). cbn [fst] in E. subst s'.
    apply shrink_inv; [done|apply sublist_take]. }
  assert (Hi : Ret (s, []) = Ret (s', e) -> Inv s') by (by intros [= -> _]).
  unfold handleMessageReset. destruct (locate _ _ _) as [n|]; [|done]. destruct (has_role "user" target); [apply Hr|].
  destruct (_ || _); [|done]. destruct (user_before n (messages s)) as [k|]; [|done]. destruct (messages s !! k); [apply Hr|done].
Qed.

Lemma delete_inv target s : Inv s -> Inv (handleMessageDelete target s).1.
Proof.
  intros Hs. unfold handleMessageDelete. destruct (locate _ _ _) as [n|]; [|done]. cbn [fst]. apply shrink_inv; [done|].
  destruct (messages s !! S n); [|apply filter_sub]. destruct (_ && _); [apply drop_two_sub|apply filter_sub].
Qed.

Lemma save_inv s s' e : Inv s -> handleEditSave s = Ret (s', e) -> Inv s'.
Proof.
  intros Hs. unfold handleEditSave. destruct (truthy _); cbn [negb]; [|by intros [= -> _]].
  destruct (trimmed_edit _) as [text|]; cbn [bind_outcome]; [|done]. destruct (nonempty text); cbn [negb]; [|by intros [= -> _]].
  destruct (locate _ _ _) as [n|]; [|done]. destruct (messages s !! n) as [t|]; [|done].
  destruct (edited_content _ _) as [c|]; cbn [bind_outcome]; [|done].
  pose proof (update_where_ids (fun m => strict_eq (mid m) (editingMessageId s)) (set_content c) (next_ref s) (messages s) ltac:(done)) as E.
  destruct (update_where _ _ _ _) as [l k]. cbn [fst] in E. destruct Hs as [H0 Hm Hc].
  assert (Hl : ids_ok (messageId s) l) by (by apply (ids_same _ (messages s))).
  destruct (_ && _); intros Es%Ret_inj%(f_equal fst); cbn [fst] in Es; subst s'; split; cbn; try done. by intros ?? [= _ <-].
Qed.

Lemma answer_inv t w w' before m v s :
  Stream.Stream.messages w = map to_val (messages s) -> answering t w w' ->
  messages s = before ++ [m] -> Stream.Stream.messages w' = map to_val before ++ [v] -> Inv s ->
  Inv (put_messages (before ++ [of_val (next_ref s) v]) (set_counters (messageId s) (next_ref s + 1) s)).
Proof.
  intros Hw Ha%answering_keeps Hm Hw' Hs. apply same_ids_inv; [done|]. rewrite Hm, !map_app. f_equal. cbn [map]. f_equal.
  destruct Hs as [_ [Hf _] _]. rewrite Hm in Hf. apply Forall_app in Hf as [_ Hf]. apply Forall_singleton in Hf as (k & [_ Hc] & _).
  pose proof (to_val_lone m Hc) as [L E]. rewrite Hw, Hw', Hm, map_app in Ha. cbn [map] in Ha.
  assert (K : get_any v $"id" = mid m).
  { destruct Ha as [H|(p & m0 & u & H1 & H2 & K)].
    - apply app_inj_tail in H as [_ ->]. exact E.
    - apply app_inj_tail in H1 as [_ <-]. apply app_inj_tail in H2 as [_ <-]. apply K in L as [_ L]. by rewrite L. }
  unfold tag. rewrite (of_val_clean (next_ref s) v), Hc. cbn [mid of_val]. by rewrite K.
Qed.

Lemma step_inv s s' : step s s' -> Inv s -> Inv s'.
Proof.
  intros H Hs. pose proof Hs as [H0 Hm Hc]. destruct H; try (split; cbn; done).
  - by eapply send_inv.
  - by eapply reset_inv.
  - by apply delete_inv.
  - unfold handleRoleToggle. destruct (toggleable target); cbn [negb]; [|done].
    match goal with |- context [update_where ?p ?f _ _] =>
      pose proof (update_where_ids p f (next_ref s) (messages s) ltac:(done)) as E end.
    destruct (update_where _ _ _ _). by apply same_ids_inv.
  - unfold toggleReasoningExpansion. match goal with |- context [update_where ?p ?f _ _] =>
      pose proof (update_where_ids p f (next_ref s) (messages s) ltac:(intros x; unfold tag; cbn [mid rest]; by rewrite prop_set_ne)) as E end.
    destruct (update_where _ _ _ _). by apply same_ids_inv.
  - apply shrink_inv; [done|apply sublist_nil_l].
  - revert H. unfold handleMessageEdit. destruct (getTextContent _); cbn [bind_outcome]; [|done]. intros E%Ret_inj. subst s'. by split.
  - by eapply save_inv.
  - unfold confirm_regenerate. destruct (confirm s) as [[n l]|] eqn:E; [|done]. split; cbn; [done| |done].
    eapply ids_sub; [by eapply Hc|apply sublist_take].
  - unfold confirm_save_only. destruct (confirm s) as [[n l]|] eqn:E; [|done]. split; cbn; [done|by eapply Hc|done].
  - unfold regenerate_timer. destruct (regenerating s) as [|l r]; [done|]. cbn [createLoadingAssistantMessage createMessage generateMessageId].
    split; cbn; [lia| |intros n l' Hl'; apply (ids_mono (messageId s)); [lia|by eapply Hc]].
    destruct Hm as [Hf Hn]. apply (ids_add _ _ _ (messageId s)); [lia|apply of_val_clean|done|by apply (below_fresh (messageId s) _ (messageId s))|].
    apply (ids_mono (messageId s)); [lia|done].
  - by eapply answer_inv.
Qed.

(** C15: in a conversation that starts with the default messages and never uses an own
    request body no two messages ever have the same identifier, in whatever order messages
    are sent, answered, edited, deleted, regenerated and switched: the functions of [Stream]
    replace the last message only and keep its identifier. With an own request body
    identifiers repeat, [custom_body_repeats_ids]. *)
Theorem reach_message_ids_unique user assistant inp pe s :
  rtc step (start (getDefaultMessages user assistant) inp pe) s -> NoDup (map mid (messages s)).
Proof.
  intros H. assert (Hs : Inv (start (getDefaultMessages user assistant) inp pe)).
  { split; [done| |done]. split.
    2:{ change (NoDup [VStr $"2"; VStr $"3"]). apply NoDup_cons. split; [|apply NoDup_singleton].
        rewrite list_elem_of_singleton. by vm_compute. }
    constructor; [exists 2; split; [split; [done|apply of_val_clean]|by vm_compute]|].
    constructor; [exists 3; split; [split; [done|apply of_val_clean]|by vm_compute]|done]. }
  revert Hs. induction H as [x|x y z Hxy _ IH]; [by intros [_ [_ ?] _]|]. intros Hs. apply IH. by eapply step_inv.
Qed.

(** ** Deleting *)

Lemma findIndex_unique p a m b :
  (forall x, x ∈ a -> p x = false) -> p m = true -> findIndex p (a ++ m :: b) = Some (length a).
Proof.
  intros Ha Hm. induction a as [|x a IH]; cbn; [by rewrite Hm|]. rewrite Ha by set_solver. rewrite IH; [done|set_solver].
Qed.

Lemma locate_here a m b i : NoDup (map ref (a ++ m :: b)) -> locate (Some (ref m)) i (a ++ m :: b) = Some (length a).
Proof.
  intros H. unfold locate. rewrite findIndex_unique; [done| |by apply bool_decide_eq_true].
  intros x Hx. apply bool_decide_eq_false. intros [= E]. rewrite map_app in H. apply NoDup_app in H as (_ & H & _).
  apply (H (ref x)); [by apply list_elem_of_fmap; exists x|]. cbn. rewrite E. set_solver.
Qed.

Lemma filter_others a m b i :
  mid m = VStr i -> NoDup (map mid (a ++ m :: b)) -> List.filter (fun x => negb (same_id x m)) (a ++ m :: b) = a ++ b.
Proof.
  intros Hi H. rewrite map_app in H. cbn in H. apply NoDup_app in H as (_ & Hd & Hn). apply NoDup_cons in Hn as [Hb _].
  assert (Hk : forall x, mid x <> mid m -> negb (same_id x m) = true).
  { intros x Hx. unfold same_id, strict_eq. rewrite Hi in *. destruct (mid x); try done. destruct (str_eqb_spec s i) as [->|]; [done|done]. }
  rewrite List.filter_app. cbn [List.filter]. assert (same_id m m = true) as -> by (unfold same_id; rewrite Hi; apply str_eqb_refl). cbn [negb].
  f_equal; apply lfilter_id; intros x Hx; apply Hk; intros E.
  - apply (Hd (mid x)); [apply list_elem_of_fmap; by exists x|]. rewrite E. set_solver.
  - apply Hb. rewrite <- E. apply list_elem_of_fmap; by exists x.
Qed.

(** The messages that remain: a question goes with the reply that follows it. *)
Definition without (target : msg) (after : list msg) : list msg :=
  match after with
  | m :: r => if has_role "user" target && has_role "assistant" m then r else after
  | [] => []
  end.

(** When identifiers are distinct, deleting a message removes that message, and the reply
    that follows it if it is a question; everything else stays in order and is saved. *)
Theorem delete_exact s a target b i :
  messages s = a ++ target :: b -> mid target = VStr i -> NoDup (map ref (messages s)) -> NoDup (map mid (messages s)) ->
  handleMessageDelete target s = (put_messages (a ++ without target b) s, [SaveLater (a ++ without target b)]).
Proof.
  intros E Hi Hr Hn. unfold handleMessageDelete. rewrite E in *. rewrite locate_here by done. rewrite (filter_others a target b i) by done.
  assert (El : (a ++ target :: b) !! S (length a) = b !! O).
  { rewrite lookup_app_r by lia. replace (S (length a) - length a)%nat with 1%nat by lia. by destruct b. }
  rewrite El. destruct b as [|m r]; cbn [lookup list_lookup without]; [done|].
  destruct (_ && _); [|done]. assert (drop_two (length a) (a ++ target :: m :: r) = a ++ r) as ->; [|done].
  unfold drop_two. rewrite take_app_length. f_equal. rewrite <- drop_drop, drop_app_length. done.
Qed.

(** ** Regenerating *)

Lemma user_before_skip l a u c n :
  l = a ++ u :: c -> has_role "user" u = true -> (length a < n <= length a + 1 + length c)%nat ->
  (forall k m, (length a < k < n)%nat -> l !! k = Some m -> has_role "user" m = false) ->
  user_before n l = Some (length a).
Proof.
  intros -> Hu. induction n as [|n IH]; intros Hn Hc; [lia|]. cbn [user_before]. destruct (decide (n = length a)) as [->|Hne].
  - rewrite list_lookup_middle by done. by rewrite Hu.
  - destruct ((a ++ u :: c) !! n) as [m|] eqn:E; [|apply IH; [lia|intros k m Hk; apply Hc; lia]].
    rewrite (Hc n m) by (done || lia). apply IH; [lia|intros k m' Hk; apply Hc; lia].
Qed.

(** Regenerating a reply cuts the conversation before the question it answers, and sends
    the text of that question again. *)
Theorem reset_resends s a u c target b text :
  messages s = a ++ u :: c ++ target :: b -> NoDup (map ref (messages s)) ->
  has_role "user" u = true -> Forall (fun m => has_role "user" m = false) c -> toggleable target = true ->
  getTextContent (to_val u) = Ret text ->
  handleMessageReset target s = Ret (put_messages a s, [SendLater text]).
Proof.
  intros E Hr Hu Hc Ht Htext. unfold handleMessageReset.
  assert (E' : messages s = (a ++ u :: c) ++ target :: b) by (rewrite E, <- app_assoc; done).
  rewrite E' in Hr |- *. rewrite locate_here by done.
  assert (has_role "user" target = false) as ->.
  { unfold toggleable, has_role, eq_str in *. destruct (role target); try done. apply orb_true_iff in Ht as [H|H]; apply str_eqb_eq in H; subst; done. }
  fold (toggleable target). rewrite Ht. rewrite <- E', E.
  rewrite (user_before_skip _ a u (c ++ target :: b)); [|done|done|rewrite !length_app; cbn; lia|].
  - rewrite list_lookup_middle by done. unfold resend_from. rewrite Htext. cbn [bind_outcome]. by rewrite E, take_app_length.
  - intros k m Hk. rewrite length_app in Hk. cbn [length] in Hk. rewrite lookup_app_r by lia.
    destruct (k - length a)%nat as [|j] eqn:Ej; [lia|]. change ((u :: c ++ target :: b) !! S j) with ((c ++ target :: b) !! j).
    rewrite lookup_app_l by lia. intros Hm.
    rewrite Forall_forall in Hc. apply Hc. by eapply list_elem_of_lookup_2.
Qed.

(** ** A restored conversation *)

Lemma findIndex_some p l m : m ∈ l -> p m = true -> is_Some (findIndex p l).
Proof.
  intros Hin Hm. induction l as [|x l IH]; [by apply not_elem_of_nil in Hin|]. cbn. destruct (p x) eqn:E; [done|].
  apply elem_of_cons in Hin as [->|Hin]; [congruence|]. destruct (IH Hin) as [n ->]. done.
Qed.

(** Deleting a reply deletes every message with its identifier. *)
Lemma delete_by_id s m i :
  m ∈ messages s -> has_role "user" m = false -> mid m = VStr i ->
  messages (handleMessageDelete m s).1 = List.filter (fun x => negb (same_id x m)) (messages s).
Proof.
  intros Hin Hu Hi. unfold handleMessageDelete, locate.
  destruct (findIndex_some (fun x => bool_decide (Some (ref x) = Some (ref m))) (messages s) m Hin ltac:(by apply bool_decide_eq_true)) as [n ->].
  rewrite Hu. cbn [andb]. by destruct (messages s !! S n).
Qed.

(** The counter starts again with the page: the reply to the first question of a new visit
    has the identifier of the reply to the first question of the visit before, and deleting
    it deletes that older reply as well. *)
Theorem restored_reply_deleted_too user assistant inp pe now text now' text' s1 e1 s2 e2 :
  onMessageSend now text (start (getDefaultMessages user assistant) inp pe) = Ret (s1, e1) ->
  onMessageSend now' text' (start (map to_val (messages s1)) inp pe) = Ret (s2, e2) ->
  exists old new,
    messages s2 !! 3%nat = Some old /\ messages s2 !! 5%nat = Some new /\ mid old = mid new
    /\ (forall x, x ∈ messages (handleMessageDelete new s2).1 -> mid x <> mid old).
Proof.
  unfold onMessageSend, createMessage, createLoadingAssistantMessage, createMessage, generateMessageId. cbn [start customRequestMode andb inputs].
  cbv iota beta zeta. destruct (image_urls inp) as [us|] eqn:Eu; cbn [bind_outcome]; [|done].
  intros E1%Ret_inj%(f_equal (fun x => messages x.1)). cbn [fst messages put_messages start] in E1. rewrite <- E1. clear E1.
  intros E2%Ret_inj%(f_equal fst). cbn [fst] in E2. subst s2. clear e2.
  eexists _, _. split; [reflexivity|]. split; [reflexivity|]. split; [reflexivity|].
  intros x. erewrite delete_by_id; [|apply (list_elem_of_lookup_2 _ 5); reflexivity|reflexivity|reflexivity].
  intros Hx E. apply list_elem_of_In, filter_In in Hx as [_ Hx]. unfold same_id in Hx. rewrite E in Hx. by vm_compute in Hx.
Qed.

(** ** Editing *)

Lemma update_none p f n l : (forall x, x ∈ l -> p x = false) -> update_where p f n l = (l, n).
Proof.
  induction l as [|x l IH]; intros H; [done|]. cbn [update_where]. rewrite H by set_solver. rewrite IH; [done|set_solver].
Qed.

Lemma update_one p f n a t b :
  (forall x, x ∈ a ++ b -> p x = false) -> p t = true ->
  update_where p f n (a ++ t :: b) = (a ++ Msg n (mid (f t)) (role (f t)) (content (f t)) (rest (f t)) :: b, n + 1).
Proof.
  intros H Ht. induction a as [|x a IH]; cbn [app update_where].
  - rewrite Ht, update_none; [done|exact H].
  - rewrite (H x) by set_solver. rewrite IH; [done|set_solver].
Qed.

Lemma id_unique a t b i x :
  mid t = VStr i -> NoDup (map mid (a ++ t :: b)) -> x ∈ a ++ b -> strict_eq (mid x) (VStr i) = false.
Proof.
  intros Ht H Hx. rewrite map_app in H. cbn in H. apply NoDup_app in H as (_ & Hd & Hn). apply NoDup_cons in Hn as [Hb _].
  destruct (mid x) eqn:E; try done. cbn. destruct (str_eqb_spec s i) as [->|]; [|done]. exfalso.
  apply elem_of_app in Hx as [Hx|Hx].
  - apply (Hd (mid x)); [apply list_elem_of_fmap; by exists x|]. rewrite E, Ht. set_solver.
  - apply Hb. rewrite Ht, <- E. apply list_elem_of_fmap. by exists x.
Qed.

(** The message being edited, with its new content. *)
Definition edited (s : chat) (target : msg) (c : val) : msg := Msg (next_ref s) (mid target) (role target) c (rest target).

(** When identifiers are distinct, saving an edit replaces the content of that message only.
    After a question with a reply the list stays as it is until the user answers: then
    the edited question is the last message, or everything after it is kept. *)
Theorem edit_exact s a target b i v c :
  messages s = a ++ target :: b -> mid target = VStr i -> NoDup (map ref (messages s)) -> NoDup (map mid (messages s)) ->
  editingMessageId s = VStr i -> editingMessageRef s = Some (ref target) -> i <> [] ->
  editValue s = VStr v -> trim v <> [] -> edited_content (trim v) (content target) = Ret c ->
  let asks := has_role "user" target && match b with m :: _ => has_role "assistant" m | [] => false end in
  exists s' e,
    handleEditSave s = Ret (s', e)
    /\ messages s' = (if asks then messages s else a ++ edited s target c :: b)
    /\ (asks = true -> messages (confirm_regenerate s').1 = a ++ [edited s target c]
                       /\ messages (confirm_save_only s').1 = a ++ edited s target c :: b).
Proof.
  intros E Hi Hr Hn Hid Href Hne Hv Ht Hc asks. unfold handleEditSave. rewrite Hid, Hv, Href, E.
  assert (truthy (VStr i) = true) as -> by (by destruct i). cbn [negb trimmed_edit bind_outcome].
  assert (nonempty (trim v) = true) as -> by (by destruct (trim v)). cbn [negb].
  rewrite E in Hr, Hn. rewrite locate_here, list_lookup_middle by done. rewrite Hc. cbn [bind_outcome].
  rewrite update_one; [|intros x Hx; by eapply id_unique|rewrite Hi; apply str_eqb_refl]. cbv iota beta.
  assert (El : (a ++ target :: b) !! S (length a) = b !! O).
  { rewrite lookup_app_r by lia. replace (S (length a) - length a)%nat with 1%nat by lia. by destruct b. }
  rewrite El. assert (match b !! O with Some m => has_role "assistant" m | None => false end
                      = match b with m :: _ => has_role "assistant" m | [] => false end) as -> by (by destruct b).
  fold asks. destruct asks.
  - eexists _, _. split; [reflexivity|]. split; [cbn; by rewrite E|]. intros _. unfold confirm_regenerate, confirm_save_only. cbn [confirm set_confirm].
    cbn [fst messages put_messages]. split; [|done]. rewrite firstn_app_2. done.
  - eexists _, _. split; [reflexivity|]. split; [done|done].
Qed.

(** ** An own request body *)

(** The messages become those of the request body ([syncCustomBodyToMessage]). *)
Definition from_body (ms : list val) (body : jsstr) (s : chat) : chat :=
  Chat (of_vals (next_ref s) ms) (messageId s) (next_ref s + Z.of_nat (length ms)) (editingMessageId s) (editingMessageRef s) (editValue s)
    (confirm s) (regenerating s) (inputs s) (parameterEnabled s) true body.

Definition four_questions : jsstr :=
  default [] (stringify (VObj [($"messages", VArr (map (fun q => VObj [($"role", VStr $"user"); ($"content", VStr q)]) [$"a"; $"b"; $"c"; $"d"]))])).

(** An own body with four messages numbers them from 1 while the counter of the page still
    is at 4: the next message that is sent has the identifier of the fourth. *)
Theorem custom_body_repeats_ids :
  exists r ms s e m m', Sync.syncCustomBodyToMessage true four_questions n0 (Sync.Refs false false [] []) = (r, Some ms)
    /\ onMessageSend n0 $"e" (from_body ms four_questions (start (getDefaultMessages [] []) VNull VNull)) = Ret (s, e)
    /\ messages s !! 3%nat = Some m /\ messages s !! 4%nat = Some m' /\ mid m = mid m'.
Proof. eexists _, _, _, _, _, _. split; [vm_compute; reflexivity|]. split; [vm_compute; reflexivity|]. split; [vm_compute; reflexivity|]. split; vm_compute; reflexivity. Qed.

(** ** Witnesses *)

Definition sample_inputs : val := VObj [($"model", VStr $"m"); ($"stream", VBool true); ($"imageUrls", VArr [])].
Definition sample_start : chat := start (getDefaultMessages $"hi" $"hello") sample_inputs (VObj []).
Definition sample_sent : chat :=
  match onMessageSend n0 $"a question" sample_start with Ret (s, _) => s | Throw => sample_start end.
Definition sample_question : msg := of_val 0 (List.nth 0 (getDefaultMessages $"hi" $"hello") VUndef).
Definition sample_reply : msg := of_val 1 (List.nth 1 (getDefaultMessages $"hi" $"hello") VUndef).

Lemma reach_message_ids_unique_witness : rtc step sample_start sample_sent /\ NoDup (map mid (messages sample_sent)).
Proof.
  assert (H : rtc step sample_start sample_sent).
  { apply rtc_once. destruct (onMessageSend n0 $"a question" sample_start) as [[s e]|] eqn:E; [|by vm_compute in E].
    assert (sample_sent = s) as -> by (unfold sample_sent; by rewrite E). by eapply s_send. }
  split; [exact H|]. exact (reach_message_ids_unique $"hi" $"hello" sample_inputs (VObj []) sample_sent H).
Defined.

Lemma sample_distinct : NoDup (map ref (messages sample_start)) /\ NoDup (map mid (messages sample_start)).
Proof.
  split; (apply NoDup_cons; split; [|apply NoDup_singleton]); rewrite list_elem_of_singleton; by vm_compute.
Qed.

Lemma delete_exact_witness : handleMessageDelete sample_question sample_start = (put_messages [] sample_start, [SaveLater []]).
Proof.
  destruct sample_distinct as [H1 H2]. exact (delete_exact sample_start [] sample_question [sample_reply] $"2" eq_refl eq_refl H1 H2).
Defined.

Lemma reset_resends_witness : handleMessageReset sample_reply sample_start = Ret (put_messages [] sample_start, [SendLater (VStr $"hi")]).
Proof.
  destruct sample_distinct as [H1 _]. apply (reset_resends sample_start [] sample_question [] sample_reply [] (VStr $"hi")); try done.
Defined.

Lemma restored_reply_deleted_too_witness :
  exists s2 e2 old new,
    onMessageSend n0 $"again" (start (map to_val (messages sample_sent)) sample_inputs (VObj [])) = Ret (s2, e2)
    /\ messages s2 !! 3%nat = Some old /\ messages s2 !! 5%nat = Some new /\ mid old = mid new
    /\ (forall x, x ∈ messages (handleMessageDelete new s2).1 -> mid x <> mid old).
Proof.
  destruct (onMessageSend n0 $"a question" sample_start) as [[s1 e1]|] eqn:E1; [|by vm_compute in E1].
  assert (sample_sent = s1) as -> by (unfold sample_sent; by rewrite E1).
  destruct (onMessageSend n0 $"again" (start (map to_val (messages s1)) sample_inputs (VObj []))) as [[s2 e2]|] eqn:E2.
  - destruct (restored_reply_deleted_too $"hi" $"hello" sample_inputs (VObj []) n0 $"a question" n0 $"again" s1 e1 s2 e2 E1 E2) as (old & new & H).
    exists s2, e2, old, new. exact (conj eq_refl H).
  - exfalso. revert E2. unfold onMessageSend. cbn [start customRequestMode andb]. done.
Defined.

Definition sample_editing : chat := set_editing (VStr $"3") (Some 1) (VStr $"better") sample_start.

Lemma edit_exact_witness :
  exists s' e, handleEditSave sample_editing = Ret (s', e)
    /\ messages s' = [sample_question; edited sample_editing sample_reply (VStr $"better")].
Proof.
  destruct sample_distinct as [H1 H2].
  destruct (edit_exact sample_editing [sample_question] sample_reply [] $"3" $"better" (VStr $"better") eq_refl eq_refl H1 H2 eq_refl eq_refl)
    as (s' & e & Hs & Hm & _); [by vm_compute|reflexivity|by vm_compute|reflexivity|].
  exists s', e. exact (conj Hs Hm).
Defined.

End Chat.
