(* ===== verification/Channels.v ===== *)
(** * The list of channels

    [web/src/hooks/channels/useChannelsData.jsx]: the rows of the table (channels, or tags
    with their channels), loading and searching with answers that arrive in any order, the
    actions on a channel and on a tag, the counts by type, the tests of the models of a
    channel in batches.  Channels and tag rows are objects that the handlers change in
    place, so the model has a heap; a handler works on the rows of the render it was made
    in.  The API's answers are inputs. *)
From S2P Require Import Prelude JSNum JSValue Json ClientHelpers.
#[local] Open Scope Z_scope.
#[local] Arguments js _ : simpl never.

Module Channels.
Import ClientHelpers.

(** ** Data *)

(** A channel as the server sends it; a tag that is null is [None]. *)
Record channel := Channel {
  id : val; name : jsstr; type_ : val; tag : option jsstr; group : jsstr; status : val; priority : val; weight : val;
  used_quota : num; response_time : num; settings : val; models : jsstr;
  key : jsstr; upstreamUpdateMeta : option update_meta; balance : val; balance_updated_time : val; test_time : val;
  channel_info : object
}.

(** A row that stands for a tag; its channels are references. *)
Record tag_row := TagRow {
  t_key : jsstr; t_group : jsstr; t_used_quota : num; t_response_time : num; t_priority : val; t_weight : val;
  t_status : val; t_children : list nat
}.

Inductive obj := OChan (c : channel) | OTag (t : tag_row).

(** [a === b] on primitive values. *)
Definition same (a b : val) : bool :=
  match a, b with
  | VUndef, VUndef | VNull, VNull => true
  | VBool x, VBool y => Bool.eqb x y
  | VNum x, VNum y => neqb x y
  | VStr x, VStr y => x =s? y
  | _, _ => false
  end.

Definition int (z : Z) : val := VNum (of_Z z).

(** ** Rows *)

(** The properties every object inherits. *)
Definition INHERITED : list jsstr :=
  [$"constructor"; $"__defineGetter__"; $"__defineSetter__"; $"hasOwnProperty"; $"__lookupGetter__"; $"__lookupSetter__";
   $"isPrototypeOf"; $"propertyIsEnumerable"; $"toString"; $"valueOf"; $"__proto__"; $"toLocaleString"].

Definition tag_of (c : channel) : jsstr := default [] (tag c).

Definition empty_row (t : jsstr) : tag_row := TagRow t [] n0 n0 (int (-1)) (int (-1)) VUndef [].

(** The common value, or a blank. *)
Definition merge_value (old new : val) : val :=
  if same old (int (-1)) then new else if same old new then old else VStr [].

Definition merge_group (old new : jsstr) : jsstr :=
  if negb (nonempty old) then new
  else fold_left (fun g item => if includes item g then g else g ++ $"," ++ item) (split_char 44 new) old.

Definition add_channel (t : tag_row) (rc : nat * channel) : tag_row :=
  let c := rc.2 in
  TagRow (t_key t) (merge_group (t_group t) (group c)) (nadd (t_used_quota t) (used_quota c))
    (ndiv (nadd (t_response_time t) (response_time c)) n2)
    (merge_value (t_priority t) (priority c)) (merge_value (t_weight t) (weight c))
    (if same (status c) (int 1) then int 1 else t_status t) (t_children t ++ [rc.1]).

(** [find] and the change of the row found. *)
Fixpoint add_to_row (k : jsstr) (rc : nat * channel) (rows : list tag_row) : option (list tag_row) :=
  match rows with
  | [] => None
  | t :: r => if t_key t =s? k then Some (add_channel t rc :: r)
              else match add_to_row k rc r with Some r' => Some (t :: r') | None => None end
  end.

(** One channel of the loop; [seen] are the tags of [channelTags]. *)
Definition group_step (st : list tag_row * list jsstr) (rc : nat * channel) : outcome (list tag_row * list jsstr) :=
  let '(rows, seen) := st in
  let k := tag_of rc.2 in
  if existsb (str_eqb k) (seen ++ INHERITED) then
    match add_to_row k rc rows with Some rows' => Ret (rows', seen) | None => Throw end
  else Ret (rows ++ [add_channel (empty_row k) rc], seen ++ [k]).

Fixpoint group_loop (st : list tag_row * list jsstr) (l : list (nat * channel)) : outcome (list tag_row) :=
  match l with
  | [] => Ret st.1
  | rc :: r => bind_outcome (group_step st rc) (fun st' => group_loop st' r)
  end.

Definition group_channels (l : list (nat * channel)) : outcome (list tag_row) := group_loop ([], []) l.

(** The fields the list adds to a channel. *)
Definition with_meta (c : channel) : outcome channel :=
  bind_outcome (parseUpstreamUpdateMeta (settings c)) (fun m =>
  Ret (Channel (id c) (name c) (type_ c) (tag c) (group c) (status c) (priority c) (weight c) (used_quota c)
         (response_time c) (settings c) (models c) (String_val (id c)) (Some m) (balance c) (balance_updated_time c)
         (test_time c) (channel_info c))).

Fixpoint with_metas (l : list channel) : outcome (list channel) :=
  match l with
  | [] => Ret []
  | c :: r => bind_outcome (with_meta c) (fun c' => bind_outcome (with_metas r) (fun r' => Ret (c' :: r')))
  end.

Fixpoint number (n : nat) (l : list channel) : list (nat * channel) :=
  match l with [] => [] | c :: r => (n, c) :: number (S n) r end.

(** ** The hook *)

Record form := Form { searchKeyword : jsstr; searchGroup : jsstr; searchModel : jsstr }.

(** A request under way: a load with its number, or a search with its page. *)
Inductive pending :=
| PLoad (reqId : Z) (tagMode : bool) (from_search : bool)
| PSearch (tagMode : bool) (page : Z) (from_load : bool).

Record hook := Hook {
  heap : list obj; channels : list nat;
  channelCount : val; typeCounts : object;
  activePage : Z; pageSize : Z; idSort : bool; enableTagMode : bool; activeTypeKey : jsstr; statusFilter : jsstr;
  loading : bool; searching : bool; requestCounter : Z; values : form
}.

Definition set_rows (h : list obj) (l : list nat) (s : hook) : hook :=
  Hook h l (channelCount s) (typeCounts s) (activePage s) (pageSize s) (idSort s) (enableTagMode s) (activeTypeKey s)
    (statusFilter s) (loading s) (searching s) (requestCounter s) (values s).
Definition set_counts (n : val) (t : object) (s : hook) : hook :=
  Hook (heap s) (channels s) n t (activePage s) (pageSize s) (idSort s) (enableTagMode s) (activeTypeKey s)
    (statusFilter s) (loading s) (searching s) (requestCounter s) (values s).
Definition set_page (p z : Z) (s : hook) : hook :=
  Hook (heap s) (channels s) (channelCount s) (typeCounts s) p z (idSort s) (enableTagMode s) (activeTypeKey s)
    (statusFilter s) (loading s) (searching s) (requestCounter s) (values s).
Definition set_flags (l f : bool) (n : Z) (s : hook) : hook :=
  Hook (heap s) (channels s) (channelCount s) (typeCounts s) (activePage s) (pageSize s) (idSort s) (enableTagMode s)
    (activeTypeKey s) (statusFilter s) l f n (values s).

(** The channels become objects; in tag mode the rows are new tag objects. *)
Definition setChannelFormat (items : list channel) (tagMode : bool) (s : hook) : outcome hook :=
  bind_outcome (with_metas items) (fun l =>
  let base := length (heap s) in
  let h := heap s ++ map OChan l in
  if tagMode then
    bind_outcome (group_channels (number base l)) (fun rows =>
    Ret (set_rows (h ++ map OTag rows) (seq (length h) (length rows)) s))
  else Ret (set_rows h (seq base (length l)) s)).

(** *** Requests *)

Definition Z_text (z : Z) : jsstr := Z_to_str z.
Definition bool_text (b : bool) : jsstr := if b then $"true" else $"false".

Definition typeParam (k : jsstr) : jsstr := if k =s? $"all" then [] else $"&type=" ++ k.
Definition statusParam (k : jsstr) : jsstr := if k =s? $"all" then [] else $"&status=" ++ k.

Definition load_url (page pageSize : Z) (idSort tagMode : bool) (typeKey statusF : jsstr) : jsstr :=
  $"/api/channel/?p=" ++ Z_text page ++ $"&page_size=" ++ Z_text pageSize ++ $"&id_sort=" ++ bool_text idSort
  ++ $"&tag_mode=" ++ bool_text tagMode ++ typeParam typeKey ++ statusParam statusF.

Definition search_url (f : form) (page pageSize : Z) (idSort tagMode : bool) (typeKey statusF : jsstr) : jsstr :=
  $"/api/channel/search?keyword=" ++ searchKeyword f ++ $"&group=" ++ searchGroup f ++ $"&model=" ++ searchModel f
  ++ $"&id_sort=" ++ bool_text idSort ++ $"&tag_mode=" ++ bool_text tagMode ++ $"&p=" ++ Z_text page
  ++ $"&page_size=" ++ Z_text pageSize ++ typeParam typeKey ++ statusParam statusF.

Definition is_search (f : form) : bool := nonempty (searchKeyword f) || nonempty (searchGroup f) || nonempty (searchModel f).

(** Both start the same request when the form is empty, or not: each calls the other. *)
Definition loadChannels (page size : Z) (idSort_ tagMode : bool) (typeKey statusF : jsstr) (s : hook) : hook * pending * jsstr :=
  if is_search (values s)
  then (set_flags true true (requestCounter s) s, PSearch tagMode page true,
        search_url (values s) page size idSort_ tagMode typeKey statusF)
  else let reqId := requestCounter s + 1 in
       (set_flags true (searching s) reqId s, PLoad reqId tagMode false, load_url page size idSort_ tagMode typeKey statusF).

(** A search with an empty form is a load; it stays marked as searching until that ends. *)
Definition searchChannels (page size : Z) (idSort_ tagMode : bool) (typeKey statusF : jsstr) (s : hook) : hook * pending * jsstr :=
  if is_search (values s)
  then (set_flags (loading s) true (requestCounter s) s, PSearch tagMode page false,
        search_url (values s) page size idSort_ tagMode typeKey statusF)
  else let reqId := requestCounter s + 1 in
       (set_flags true true reqId s, PLoad reqId tagMode true, load_url page size idSort_ tagMode typeKey statusF).

Definition refresh (page : Z) (s : hook) : hook * pending * jsstr :=
  if is_search (values s)
  then searchChannels page (pageSize s) (idSort s) (enableTagMode s) (activeTypeKey s) (statusFilter s) s
  else loadChannels page (pageSize s) (idSort s) (enableTagMode s) (activeTypeKey s) (statusFilter s) s.

Definition handlePageChange (page : Z) (s : hook) : hook * pending * jsstr :=
  refresh page (set_page page (pageSize s) s).

Definition handlePageSizeChange (size : Z) (s : hook) : hook * pending * jsstr :=
  refresh 1 (set_page 1 size s).

(** *** Answers *)

Record page_data := PageData { items : list channel; total : val; type_counts : option object }.

Inductive answer := NoAnswer | Failed | Refused | Answer (d : page_data).

(** [Object.values(type_counts).reduce((acc, v) => acc + v, 0)], for numbers. *)
Definition sum_counts (o : object) : num := fold_left (fun acc kv => nadd acc (Number_val kv.2)) o n0.

Definition counts_with_all (o : object) : object := prop_set $"all" (VNum (sum_counts o)) o.

(** The state after the promise settled, and whether it was rejected; a load that a search
    started ends that search. *)
Definition on_load (reqId : Z) (tagMode from_search : bool) (a : answer) (s : hook) : hook * bool :=
  let ended (s : hook) := set_flags (loading s) (if from_search then false else searching s) (requestCounter s) s in
  match a with
  | Failed => (ended s, true)
  | NoAnswer => (ended s, false)
  | _ =>
    if negb (reqId =? requestCounter s) then (ended s, false)
    else match a with
         | Answer d =>
           let s1 := match type_counts d with
                     | Some o => set_counts (channelCount s) (counts_with_all o) s
                     | None => s
                     end in
           match setChannelFormat (items d) tagMode s1 with
           | Throw => (ended s1, true)
           | Ret s2 => (ended (set_flags false (searching s2) (requestCounter s2) (set_counts (total d) (typeCounts s2) s2)), false)
           end
         | _ => (ended (set_flags false (searching s) (requestCounter s) s), false)
         end
  end.

(** The same for a search: every answer is used. *)
Definition on_search (tagMode : bool) (page : Z) (from_load : bool) (a : answer) (s : hook) : hook * bool :=
  let done_ (ok : bool) (s : hook) := (set_flags (if from_load && ok then false else loading s) false (requestCounter s) s, negb ok) in
  match a with
  | NoAnswer | Failed => done_ false s
  | Refused => done_ true s
  | Answer d =>
    let s1 := set_counts (channelCount s) (counts_with_all (default [] (type_counts d))) s in
    match setChannelFormat (items d) tagMode s1 with
    | Throw => done_ false s1
    | Ret s2 => done_ true (set_page page (pageSize s2) (set_counts (total d) (typeCounts s2) s2))
    end
  end.

Definition on_answer (p : pending) (a : answer) (s : hook) : hook * bool :=
  match p with
  | PLoad reqId tagMode from_search => on_load reqId tagMode from_search a s
  | PSearch tagMode page from_load => on_search tagMode page from_load a s
  end.

(** *** Actions on objects *)

Definition set_status (v : val) (c : channel) : channel :=
  Channel (id c) (name c) (type_ c) (tag c) (group c) v (priority c) (weight c) (used_quota c) (response_time c) (settings c)
    (models c) (key c) (upstreamUpdateMeta c) (balance c) (balance_updated_time c) (test_time c) (channel_info c).
Definition set_balance (b now : val) (c : channel) : channel :=
  Channel (id c) (name c) (type_ c) (tag c) (group c) (status c) (priority c) (weight c) (used_quota c) (response_time c) (settings c)
    (models c) (key c) (upstreamUpdateMeta c) b now (test_time c) (channel_info c).
Definition set_times (r : num) (now : val) (c : channel) : channel :=
  Channel (id c) (name c) (type_ c) (tag c) (group c) (status c) (priority c) (weight c) (used_quota c) r (settings c)
    (models c) (key c) (upstreamUpdateMeta c) (balance c) (balance_updated_time c) now (channel_info c).
Definition set_info (o : object) (c : channel) : channel :=
  Channel (id c) (name c) (type_ c) (tag c) (group c) (status c) (priority c) (weight c) (used_quota c) (response_time c) (settings c)
    (models c) (key c) (upstreamUpdateMeta c) (balance c) (balance_updated_time c) (test_time c) o.
Definition row_status (v : val) (t : tag_row) : tag_row :=
  TagRow (t_key t) (t_group t) (t_used_quota t) (t_response_time t) (t_priority t) (t_weight t) v (t_children t).

Definition on_chan (f : channel -> channel) (o : obj) : obj := match o with OChan c => OChan (f c) | OTag t => OTag t end.

Definition object_status (v : val) (o : obj) : obj :=
  match o with OChan c => OChan (set_status v c) | OTag t => OTag (row_status v t) end.

Definition alter_all (f : obj -> obj) (l : list nat) (h : list obj) : list obj := fold_left (fun h r => alter f r h) l h.

Definition children_of (h : list obj) (r : nat) : option (list nat) :=
  match h !! r with Some (OTag t) => Some (t_children t) | _ => None end.

Inductive action := ADelete | AEnable | ADisable | APriority | AWeight | AEnableAll.

(** [parseInt(value)] *)
Definition parse_int (v : val) : num := parseInt10 (String_val v).

(** The method, the address and the body; [None]: nothing is asked. *)
Definition manage_request (cid : val) (a : action) (info : object) (value : val) : option (jsstr * jsstr * object) :=
  let put (o : object) := Some ($"put", $"/api/channel/", ($"id", cid) :: o) in
  match a with
  | ADelete => Some ($"delete", $"/api/channel/" ++ String_val cid ++ $"/", [])
  | AEnable => put [($"status", int 1)]
  | ADisable => put [($"status", int 2)]
  | APriority => if eq_str value [] then None else put [($"priority", VNum (parse_int value))]
  | AWeight => if eq_str value [] then None
               else let w := parse_int value in put [($"weight", VNum (if nltb w n0 then n0 else w))]
  | AEnableAll => put [($"channel_info", VObj (prop_set $"multi_key_status_list" (VObj []) info))]
  end.

(** Before the request: [enable_all] empties the list of the record itself. *)
Definition manage_start (a : action) (record : nat) (s : hook) : hook :=
  match a with
  | AEnableAll =>
    set_rows (alter (on_chan (fun c => set_info (prop_set $"multi_key_status_list" (VObj []) (channel_info c)) c)) record (heap s))
      (channels s) s
  | _ => s
  end.

(** An answer that reports success, for a handler made when [rows] were shown. *)
Definition manage_done (a : action) (rows : list nat) (record : nat) (new_status : val) (s : hook) : hook :=
  let h := match a with ADelete => heap s | _ => alter (object_status new_status) record (heap s) end in
  set_rows h rows s.

(** Whether row [r] has the tag. *)
Definition has_tag (h : list obj) (t : jsstr) (r : nat) : bool :=
  match h !! r with
  | Some (OTag x) => t_key x =s? t
  | Some (OChan c) => match tag c with Some x => x =s? t | None => false end
  | None => false
  end.

Definition manage_tag_row (v : val) (t : jsstr) (h : list obj) (r : nat) : list obj :=
  if has_tag h t r
  then alter (object_status v) r (alter_all (object_status v) (default [] (children_of h r)) h)
  else h.

Definition manageTag (enable : bool) (t : jsstr) (rows : list nat) (s : hook) : hook :=
  set_rows (fold_left (manage_tag_row (int (if enable then 1 else 2)) t) rows (heap s)) rows s.

(** The channels of a row: its children, or itself. *)
Definition channel_refs (h : list obj) (r : nat) : list nat := match children_of h r with Some l => l | None => [r] end.

Definition has_channel_id (h : list obj) (cid : val) (r : nat) : bool :=
  match h !! r with Some (OChan c) => same (id c) cid | _ => false end.

Definition updateChannelProperty (cid : val) (f : channel -> channel) (rows : list nat) (s : hook) : hook :=
  let refs := List.filter (has_channel_id (heap s) cid) (flat_map (channel_refs (heap s)) rows) in
  match refs with
  | [] => s
  | _ => set_rows (alter_all (on_chan f) refs (heap s)) rows s
  end.

(** A balance that was read. *)
Definition updateChannelBalance (cid : val) (b : val) (now : num) (rows : list nat) (s : hook) : hook :=
  updateChannelProperty cid (set_balance b (VNum (ndiv now (of_Z 1000)))) rows s.

(** *** Counts by type *)

Definition channel_at (h : list obj) (r : nat) : option channel := match h !! r with Some (OChan c) => Some c | _ => None end.

Definition count_type (counts : list (jsstr * Z)) (k : jsstr) : list (jsstr * Z) := prop_set k (default 0 (prop k counts) + 1) counts.

(** The types of the channels shown, as property names. *)
Definition shown_types (s : hook) : list jsstr :=
  map (fun c => String_val (type_ c)) (omap (channel_at (heap s)) (flat_map (channel_refs (heap s)) (channels s))).

Definition fallback_counts (s : hook) : list (jsstr * Z) :=
  fold_left count_type (shown_types s) [($"all", Z.of_nat (length (channels s)))].

Definition channelTypeCounts (s : hook) : object :=
  match typeCounts s with
  | [] => map (fun kv => (kv.1, int kv.2)) (fallback_counts s)
  | o => o
  end.

Definition availableTypeKeys (s : hook) : list jsstr :=
  $"all" :: map fst (List.filter (fun kv => negb (kv.1 =s? $"all") && nltb n0 (Number_val kv.2)) (channelTypeCounts s)).

(** * Theorems *)

(** ** Tag rows *)

(** The row of a tag, by definition. *)
Definition members (k : jsstr) (l : list (nat * channel)) : list (nat * channel) := List.filter (fun rc => tag_of rc.2 =s? k) l.
Definition row_of (k : jsstr) (l : list (nat * channel)) : tag_row := fold_left add_channel (members k l) (empty_row k).
Definition tags (l : list (nat * channel)) : list jsstr := map (fun rc => tag_of rc.2) l.

Lemma uniq_snoc {A} `{EqDecision A} (l : list A) x : uniq (l ++ [x]) = if bool_decide (x ∈ l) then uniq l else uniq l ++ [x].
Proof.
  induction l as [|y l IH]; [done|]. cbn [app uniq]. rewrite IH. destruct (decide (x = y)) as [->|Hne].
  - rewrite (bool_decide_eq_true_2 (y ∈ y :: l)) by set_solver. destruct (bool_decide (y ∈ l)); [done|].
    rewrite List.filter_app. cbn [List.filter]. rewrite (bool_decide_eq_true_2 (y = y)) by done. cbn [negb]. by rewrite app_nil_r.
  - destruct (bool_decide_reflect (x ∈ l)) as [Hin|Hout].
    + rewrite bool_decide_eq_true_2 by set_solver. done.
    + rewrite bool_decide_eq_false_2 by set_solver. rewrite List.filter_app. cbn [List.filter].
      rewrite bool_decide_eq_false_2 by done. done.
Qed.

Lemma members_snoc k l rc : members k (l ++ [rc]) = members k l ++ (if tag_of rc.2 =s? k then [rc] else []).
Proof. unfold members. rewrite List.filter_app. cbn [List.filter]. by destruct (_ =s? k). Qed.

Lemma row_of_snoc k l rc : row_of k (l ++ [rc]) = if tag_of rc.2 =s? k then add_channel (row_of k l) rc else row_of k l.
Proof. unfold row_of. rewrite members_snoc, fold_left_app. by destruct (_ =s? k). Qed.

Lemma fold_key l t : t_key (fold_left add_channel l t) = t_key t.
Proof. revert t. induction l as [|rc l IH]; intros t; [done|]. cbn. by rewrite IH. Qed.

Lemma row_key k l : t_key (row_of k l) = k.
Proof. apply fold_key. Qed.

Lemma row_of_fresh k l : k ∉ tags l -> row_of k l = empty_row k.
Proof.
  intros H. unfold row_of. assert (members k l = []) as ->; [|done]. unfold members, tags in *. induction l as [|rc l IH]; [done|].
  cbn [map List.filter] in *. apply not_elem_of_cons in H as [H1 H2]. destruct (str_eqb_spec (tag_of rc.2) k); [congruence|by apply IH].
Qed.

Lemma add_to_rows k rc keys (f : jsstr -> tag_row) :
  NoDup keys -> k ∈ keys -> (forall k', t_key (f k') = k') ->
  add_to_row k rc (map f keys) = Some (map (fun k' => if k =s? k' then add_channel (f k') rc else f k') keys).
Proof.
  intros Hn Hk Hf. induction keys as [|x keys IH]; [by apply not_elem_of_nil in Hk|]. apply NoDup_cons in Hn as [Hx Hn].
  cbn [map add_to_row]. rewrite Hf. destruct (str_eqb_spec x k) as [->|Hne].
  - rewrite str_eqb_refl. f_equal. f_equal. apply map_ext_in. intros y Hy%list_elem_of_In. destruct (str_eqb_spec k y) as [->|]; done.
  - apply elem_of_cons in Hk as [->|Hk]; [done|]. rewrite IH by done. destruct (str_eqb_spec k x); [congruence|done].
Qed.

(** The loop computes the rows by definition, in the order in which tags first occur. *)
Lemma group_loop_spec pre l :
  Forall (fun k => k ∉ INHERITED) (tags l) ->
  group_loop (map (fun k => row_of k pre) (uniq (tags pre)), uniq (tags pre)) l
  = Ret (map (fun k => row_of k (pre ++ l)) (uniq (tags (pre ++ l)))).
Proof.
  revert pre. induction l as [|rc l IH]; intros pre H; [cbn; by rewrite app_nil_r|]. cbn [tags map] in H. inversion_clear H as [|?? Hk Hl].
  replace (pre ++ rc :: l) with ((pre ++ [rc]) ++ l) by (by rewrite <- app_assoc). rewrite <- IH by done.
  cbn [group_loop]. set (k := tag_of rc.2) in *.
  assert (Es : group_step (map (fun k => row_of k pre) (uniq (tags pre)), uniq (tags pre)) rc
    = Ret (map (fun k => row_of k (pre ++ [rc])) (uniq (tags (pre ++ [rc]))), uniq (tags (pre ++ [rc])))); [|by rewrite Es].
  unfold group_step. fold k. assert (Et : tags (pre ++ [rc]) = tags pre ++ [k]) by (unfold tags; by rewrite map_app).
  rewrite Et, uniq_snoc. destruct (bool_decide_reflect (k ∈ tags pre)) as [Hin|Hout].
  - assert (existsb (str_eqb k) (uniq (tags pre) ++ INHERITED) = true) as ->.
    { apply existsb_exists. exists k. split; [|by apply str_eqb_refl]. apply list_elem_of_In, elem_of_app. left. by apply elem_of_uniq. }
    rewrite add_to_rows; [|apply NoDup_uniq|by apply elem_of_uniq|intros; apply row_key]. f_equal. f_equal.
    apply map_ext. intros k'. rewrite row_of_snoc. fold k. by destruct (k =s? k').
  - assert (existsb (str_eqb k) (uniq (tags pre) ++ INHERITED) = false) as ->.
    { apply not_true_iff_false. intros (x & Hx & E)%existsb_exists. apply str_eqb_eq in E. subst x.
      apply list_elem_of_In, elem_of_app in Hx as [Hx|Hx]; [by rewrite elem_of_uniq in Hx|done]. }
    f_equal. f_equal. rewrite map_app. cbn [map]. f_equal.
    + apply map_ext_in. intros k' Hk'%list_elem_of_In. rewrite elem_of_uniq in Hk'. rewrite row_of_snoc. fold k.
      destruct (str_eqb_spec k k') as [<-|]; done.
    + f_equal. rewrite row_of_snoc. fold k. by rewrite str_eqb_refl, row_of_fresh.
Qed.

Lemma group_channels_spec l :
  Forall (fun k => k ∉ INHERITED) (tags l) -> group_channels l = Ret (map (fun k => row_of k l) (uniq (tags l))).
Proof. intros H. apply (group_loop_spec [] l H). Qed.

Lemma row_children k l : t_children (row_of k l) = map fst (members k l).
Proof.
  unfold row_of. assert (H : forall m t, t_children (fold_left add_channel m t) = t_children t ++ map fst m); [|by rewrite H].
  induction m as [|rc m IH]; intros t; cbn [fold_left map]; [by rewrite app_nil_r|]. rewrite IH. cbn. by rewrite <- app_assoc.
Qed.

Lemma row_quota k l : t_used_quota (row_of k l) = fold_left (fun q rc => nadd q (used_quota rc.2)) (members k l) n0.
Proof.
  unfold row_of. change n0 with (t_used_quota (empty_row k)) at 1. generalize (empty_row k). generalize (members k l).
  induction l0 as [|rc m IH]; intros t; [done|]. cbn [fold_left]. by rewrite IH.
Qed.

Definition enabled (c : channel) : bool := same (status c) (int 1).

Lemma row_enabled k l : same (t_status (row_of k l)) (int 1) = existsb (fun rc => enabled rc.2) (members k l).
Proof.
  unfold row_of. assert (H : forall m t, same (t_status (fold_left add_channel m t)) (int 1)
    = same (t_status t) (int 1) || existsb (fun rc => enabled rc.2) m); [|by rewrite H].
  induction m as [|rc m IH]; intros t; cbn [fold_left existsb]; [by rewrite orb_false_r|]. rewrite IH. cbn [t_status add_channel]. fold (enabled rc.2).
  destruct (enabled rc.2); [|done]. by rewrite orb_true_r.
Qed.

(** In tag mode the table has one row for each tag, in the order in which the tags first
    occur; a row holds the channels with its tag in their order, is enabled exactly when one
    of them is, and shows the sum of their quotas. *)
Theorem tag_rows_exact l :
  Forall (fun k => k ∉ INHERITED) (tags l) ->
  exists rows,
    group_channels l = Ret rows /\ map t_key rows = uniq (tags l)
    /\ forall t, t ∈ rows ->
       t_children t = map fst (members (t_key t) l)
       /\ same (t_status t) (int 1) = existsb (fun rc => enabled rc.2) (members (t_key t) l)
       /\ t_used_quota t = fold_left (fun q rc => nadd q (used_quota rc.2)) (members (t_key t) l) n0.
Proof.
  intros H. rewrite group_channels_spec by done. eexists. split; [done|]. split.
  - rewrite map_map. rewrite <- map_id. apply map_ext. intros k. apply row_key.
  - intros t (k & -> & _)%list_elem_of_fmap. rewrite row_key. split; [apply row_children|]. split; [apply row_enabled|apply row_quota].
Qed.

(** A channel whose tag is the name of an inherited property cannot be shown by tags. *)
Theorem inherited_tag_fails rc l : tag_of rc.2 ∈ INHERITED -> group_channels (rc :: l) = Throw.
Proof.
  intros H. unfold group_channels. cbn [group_loop]. unfold group_step. cbn [app].
  assert (existsb (str_eqb (tag_of rc.2)) INHERITED = true) as ->; [|done].
  apply existsb_exists. exists (tag_of rc.2). split; [by apply list_elem_of_In|apply str_eqb_refl].
Qed.

(** *** Priority and weight *)

Definition is_num (v : val) : Prop := match v with VNum n => isNaN n = false | _ => False end.

Lemma merge_blank ps : Forall is_num ps -> fold_left merge_value ps (VStr []) = VStr [].
Proof. induction 1 as [|p ps Hp _ IH]; [done|]. cbn [fold_left]. by destruct p. Qed.

Lemma merge_values p ps :
  same p (int (-1)) = false -> Forall is_num (p :: ps) ->
  fold_left merge_value ps p = if forallb (same p) ps then p else VStr [].
Proof.
  intros Hp H. inversion_clear H as [|?? Hn Hps]. induction Hps as [|x ps Hx Hps IH]; [done|]. cbn [fold_left forallb].
  unfold merge_value at 2. rewrite Hp. destruct (same p x); cbn [andb]; [done|]. by apply merge_blank.
Qed.

(** A tag row shows the priority its channels share, and a blank when they differ. *)
Theorem shared_priority k l rc r :
  members k l = rc :: r -> same (priority rc.2) (int (-1)) = false -> Forall (fun x => is_num (priority x.2)) (rc :: r) ->
  t_priority (row_of k l) = if forallb (fun x => same (priority rc.2) (priority x.2)) r then priority rc.2 else VStr [].
Proof.
  intros Hm Hp Hn. unfold row_of. rewrite Hm.
  assert (H : forall m t, t_priority (fold_left add_channel m t) = fold_left merge_value (map (fun x => priority x.2) m) (t_priority t)).
  { induction m as [|x m IH]; intros t; [done|]. cbn [fold_left map]. by rewrite IH. }
  rewrite H. cbn [map fold_left]. change (merge_value (t_priority (empty_row k)) (priority rc.2)) with (priority rc.2).
  rewrite merge_values; [|done|by apply (Forall_map (fun x => priority x.2) is_num (rc :: r))].
  assert (forallb (same (priority rc.2)) (map (fun x => priority x.2) r) = forallb (fun x => same (priority rc.2) (priority x.2)) r) as ->; [|done].
  clear. induction r as [|x r IH]; [done|]. cbn. by rewrite IH.
Qed.

(** ** Answers *)

(** The part of the state an answer to a load may change. *)
Definition shown (s : hook) : list obj * list nat * val * object := (heap s, channels s, channelCount s, typeCounts s).

Lemma stale_load reqId tagMode fs a s :
  reqId <> requestCounter s -> shown (on_load reqId tagMode fs a s).1 = shown s
  /\ requestCounter (on_load reqId tagMode fs a s).1 = requestCounter s.
Proof. intros H. unfold on_load. apply Z.eqb_neq in H. rewrite H. by destruct a. Qed.

(** The answers that are still to come, in any order. *)
Definition answers (l : list (pending * answer)) (s : hook) : hook := fold_left (fun s pa => (on_answer pa.1 pa.2 s).1) l s.

Definition older_load (n : Z) (p : pending) : Prop := match p with PLoad reqId _ _ => reqId < n | PSearch _ _ _ => False end.

Lemma stale_answers l s :
  Forall (fun pa => older_load (requestCounter s) pa.1) l -> shown (answers l s) = shown s.
Proof.
  revert s. induction l as [|[p a] l IH]; intros s H; [done|]. inversion_clear H as [|?? Hp Hl]. cbn [answers fold_left fst snd].
  destruct p as [reqId tm fs|]; [|done]. cbn [older_load fst] in Hp. cbn [on_answer].
  destruct (stale_load reqId tm fs a s) as [H1 H2]; [lia|]. fold (answers l (on_load reqId tm fs a s).1). rewrite IH; [done|]. by rewrite H2.
Qed.

(** *** The table *)

(** A row as it is shown: the tag, if any, and its channels. *)
Definition row_view (h : list obj) (r : nat) : option jsstr * list channel :=
  match h !! r with
  | Some (OTag t) => (Some (t_key t), omap (channel_at h) (t_children t))
  | Some (OChan c) => (None, [c])
  | None => (None, [])
  end.

Definition table (s : hook) : list (option jsstr * list channel) := map (row_view (heap s)) (channels s).

(** What the table should be for a page of channels. *)
Definition page_table (tagMode : bool) (l : list channel) : list (option jsstr * list channel) :=
  if tagMode then map (fun k => (Some k, List.filter (fun c => tag_of c =s? k) l)) (uniq (map tag_of l))
  else map (fun c => (None, [c])) l.

Lemma map_seq {A B} (g : nat -> B) (f : A -> B) (l : list A) b :
  (forall i x, l !! i = Some x -> g (b + i)%nat = f x) -> map g (seq b (length l)) = map f l.
Proof.
  revert b. induction l as [|x l IH]; intros b H; [done|]. cbn [length seq map]. f_equal.
  - rewrite <- (H O x) by done. f_equal. lia.
  - apply IH. intros i y Hi. rewrite <- (H (S i) y) by done. f_equal. lia.
Qed.

Lemma number_tags b l : tags (number b l) = map tag_of l.
Proof. revert b. induction l as [|c l IH]; intros b; [done|]. cbn. by rewrite IH. Qed.

(** The references of the members of a tag lead to the channels with that tag. *)
Lemma members_channels (h : list obj) k b l :
  (forall i c, l !! i = Some c -> h !! (b + i)%nat = Some (OChan c)) ->
  omap (channel_at h) (map fst (members k (number b l))) = List.filter (fun c => tag_of c =s? k) l.
Proof.
  revert b. induction l as [|c l IH]; intros b H; [done|]. unfold members. cbn [number List.filter snd]. fold (members k (number (S b) l)).
  assert (Hc : channel_at h b = Some c).
  { unfold channel_at. specialize (H O c eq_refl). by rewrite Nat.add_0_r in H; rewrite H. }
  assert (IH' : omap (channel_at h) (map fst (members k (number (S b) l))) = List.filter (fun c => tag_of c =s? k) l).
  { apply IH. intros i x Hx. specialize (H (S i) x Hx). by rewrite Nat.add_succ_r in H. }
  destruct (tag_of c =s? k); [|done]. cbn [map fst omap list_omap]. rewrite Hc. by rewrite <- IH'.
Qed.

Definition good_tags (tagMode : bool) (l : list channel) : Prop := tagMode = true -> Forall (fun c => tag_of c ∉ INHERITED) l.

Lemma format_table items tm s l :
  with_metas items = Ret l -> good_tags tm l ->
  exists s', setChannelFormat items tm s = Ret s' /\ table s' = page_table tm l
    /\ channelCount s' = channelCount s /\ typeCounts s' = typeCounts s /\ requestCounter s' = requestCounter s.
Proof.
  intros Hl Hg. unfold setChannelFormat. rewrite Hl. cbn [bind_outcome].
  assert (Hh : forall tail i c, l !! i = Some c -> ((heap s ++ map OChan l) ++ tail) !! (length (heap s) + i)%nat = Some (OChan c)).
  { intros tail i c Hi. rewrite lookup_app_l by (rewrite length_app, length_map; apply lookup_lt_Some in Hi; lia).
    rewrite lookup_app_r by lia. replace (length (heap s) + i - length (heap s))%nat with i by lia.
    change (map OChan l) with (OChan <$> l). by rewrite list_lookup_fmap, Hi. }
  destruct tm.
  - assert (Ht : Forall (fun k => k ∉ INHERITED) (tags (number (length (heap s)) l))).
    { rewrite number_tags. apply Forall_map. by apply Hg. }
    rewrite group_channels_spec by done. cbn [bind_outcome]. eexists. split; [reflexivity|]. split; [|done].
    unfold table, page_table. cbn [heap channels set_rows]. rewrite number_tags. set (h := heap s ++ map OChan l) in *.
    set (row := fun k => row_of k (number (length (heap s)) l)).
    rewrite (map_seq _ (fun t => (Some (t_key t), List.filter (fun c => tag_of c =s? t_key t) l))).
    + rewrite map_map. apply map_ext. intros k. unfold row. by rewrite row_key.
    + intros i t Hi. unfold row_view. rewrite lookup_app_r by lia. replace (length h + i - length h)%nat with i by lia.
      change (map OTag (map row (uniq (map tag_of l)))) with (OTag <$> map row (uniq (map tag_of l))). rewrite list_lookup_fmap, Hi. cbn [fmap option_fmap option_map].
      f_equal. apply list_elem_of_lookup_2, list_elem_of_fmap in Hi as (k & -> & _). unfold row. rewrite row_key, row_children.
      apply members_channels. intros j c Hj. by apply Hh.
  - eexists. split; [reflexivity|]. split; [|done]. unfold table, page_table. cbn [heap channels set_rows].
    apply map_seq. intros i c Hi. unfold row_view. specialize (Hh [] i c Hi). rewrite app_nil_r in Hh. by rewrite Hh.
Qed.

Lemma answers_app l l' s : answers (l ++ l') s = answers l' (answers l s).
Proof. apply fold_left_app. Qed.

Lemma stale_counter l s :
  Forall (fun pa => older_load (requestCounter s) pa.1) l -> requestCounter (answers l s) = requestCounter s.
Proof.
  revert s. induction l as [|[p a] l IH]; intros s H; [done|]. inversion_clear H as [|?? Hp Hl]. cbn [answers fold_left fst snd].
  destruct p as [reqId tm fs|]; [|done]. cbn [older_load fst] in Hp. cbn [on_answer].
  destruct (stale_load reqId tm fs a s) as [H1 H2]; [lia|]. fold (answers l (on_load reqId tm fs a s).1). rewrite IH; by rewrite H2.
Qed.

Lemma current_load tm fs d l s :
  with_metas (items d) = Ret l -> good_tags tm l ->
  let s' := (on_load (requestCounter s) tm fs (Answer d) s).1 in
  table s' = page_table tm l /\ channelCount s' = total d /\ requestCounter s' = requestCounter s /\ loading s' = false.
Proof.
  intros Hl Hg. unfold on_load. rewrite Z.eqb_refl. cbn [negb].
  set (s1 := match type_counts d with Some o => _ | None => _ end).
  destruct (format_table (items d) tm s1 l Hl Hg) as (s2 & -> & Ht & _ & _ & Hr). cbn. split; [exact Ht|]. split; [done|]. split; [|done].
  rewrite Hr. subst s1. by destruct (type_counts d).
Qed.

(** C16: when loads overlap, the table is the page the newest load was answered with, whatever
    answers to older loads arrive before or after it. *)
Theorem latest_load_wins page size srt tm tk sf s s1 p url before after d l :
  is_search (values s) = false -> loadChannels page size srt tm tk sf s = (s1, p, url) ->
  Forall (fun pa => older_load (requestCounter s1) pa.1) before -> Forall (fun pa => older_load (requestCounter s1) pa.1) after ->
  with_metas (items d) = Ret l -> good_tags tm l ->
  let s' := answers (before ++ (p, Answer d) :: after) s1 in
  table s' = page_table tm l /\ channelCount s' = total d.
Proof.
  intros Hs E Hb Ha Hl Hg. unfold loadChannels in E. rewrite Hs in E. injection E as <- <- _.
  set (s1 := set_flags true (searching s) (requestCounter s + 1) s) in *. rewrite answers_app. cbn zeta. cbn [answers fold_left fst snd on_answer].
  fold (answers before s1). set (sb := answers before s1). fold (answers after (on_load (requestCounter s + 1) tm false (Answer d) sb).1).
  assert (Hc : requestCounter sb = requestCounter s + 1) by (by apply stale_counter). rewrite <- Hc.
  destruct (current_load tm false d l sb Hl Hg) as (Ht & Hn & Hr & _). set (s2 := (on_load _ _ _ _ _).1) in *.
  assert (Hsh : shown (answers after s2) = shown s2).
  { apply stale_answers. eapply Forall_impl; [exact Ha|]. intros pa. cbn [requestCounter s1 set_flags]. by rewrite Hr, Hc. }
  unfold shown in Hsh. injection Hsh as H1 H2 H3 _. unfold table in *. by rewrite H1, H2, H3.
Qed.

(** The answers to searches are all used: the table is that of the answer that arrives
    last, whichever search was the newer one. *)
Theorem last_answer_wins tm page from_load tm' page' from_load' d d' l l' s :
  with_metas (items d) = Ret l -> good_tags tm l -> with_metas (items d') = Ret l' -> good_tags tm' l' ->
  let s' := answers [(PSearch tm' page' from_load', Answer d'); (PSearch tm page from_load, Answer d)] s in
  table s' = page_table tm l /\ activePage s' = page.
Proof.
  intros Hl Hg Hl' Hg'. cbn [answers fold_left fst snd on_answer]. unfold on_search.
  destruct (format_table (items d') tm' (set_counts (channelCount s) (counts_with_all (default [] (type_counts d'))) s) l' Hl' Hg')
    as (s1 & -> & _). cbn [fst].
  match goal with |- context [setChannelFormat (items d) tm ?x] => destruct (format_table (items d) tm x l Hl Hg) as (s2 & -> & Ht & _) end.
  done.
Qed.

(** ** Late updates *)

Lemma update_shows_rows s rows cid f r :
  r ∈ flat_map (channel_refs (heap s)) rows -> has_channel_id (heap s) cid r = true ->
  channels (updateChannelProperty cid f rows s) = rows.
Proof.
  intros Hr Hid. unfold updateChannelProperty. destruct (List.filter _ _) as [|x l] eqn:E; [|done]. exfalso.
  assert (Hin : In r (List.filter (has_channel_id (heap s) cid) (flat_map (channel_refs (heap s)) rows)))
    by (apply filter_In; split; [by apply list_elem_of_In|done]).
  rewrite E in Hin. done.
Qed.

Lemma format_extends items tm s s' : setChannelFormat items tm s = Ret s' -> exists tail, heap s' = heap s ++ tail.
Proof.
  unfold setChannelFormat. destruct (with_metas items) as [l|]; cbn [bind_outcome]; [|done]. destruct tm.
  - destruct (group_channels _) as [rows|]; cbn [bind_outcome]; [|done]. intros E%Ret_inj. subst s'. eexists. cbn. by rewrite <- app_assoc.
  - intros E%Ret_inj. subst s'. by eexists.
Qed.

(** A test or a balance request that is answered after another page was loaded puts the
    page it was started on back into the table. *)
Theorem late_update_restores_page s s1 items tm cid f r :
  setChannelFormat items tm s = Ret s1 ->
  r ∈ flat_map (channel_refs (heap s)) (channels s) -> has_channel_id (heap s) cid r = true ->
  channels (updateChannelProperty cid f (channels s) s1) = channels s.
Proof.
  intros E Hr Hid. destruct (format_extends _ _ _ _ E) as [tail Ht].
  assert (Hl : forall x o, heap s !! x = Some o -> heap s1 !! x = Some o) by (intros x o H; rewrite Ht; by apply lookup_app_l_Some).
  apply (update_shows_rows _ _ _ _ r).
  - apply list_elem_of_In, in_flat_map in Hr as (row & Hrow & Hin). apply list_elem_of_In, in_flat_map. exists row. split; [done|].
    unfold channel_refs, children_of in *. destruct (heap s !! row) as [o|] eqn:Eo; [by rewrite (Hl _ _ Eo)|].
    destruct Hin as [->|[]]. unfold has_channel_id in Hid. by rewrite Eo in Hid.
  - unfold has_channel_id in *. destruct (heap s !! r) as [o|] eqn:Eo; [|done]. by rewrite (Hl _ _ Eo).
Qed.

(** ** Counts *)

Definition occurrences (k : jsstr) (l : list jsstr) : Z := Z.of_nat (length (List.filter (str_eqb k) l)).

Lemma count_types k l o :
  prop k (fold_left count_type l o) = if existsb (str_eqb k) l then Some (default 0 (prop k o) + occurrences k l) else prop k o.
Proof.
  revert o. induction l as [|x l IH]; intros o; [done|]. cbn [fold_left existsb]. rewrite IH. unfold count_type, occurrences. cbn [List.filter].
  rewrite prop_set_lookup. destruct (str_eqb_spec k x) as [->|Hne]; cbn [orb].
  - cbn [length]. change (default 0 (Some (default 0 (prop x o) + 1))) with (default 0 (prop x o) + 1).
    destruct (existsb (str_eqb x) l) eqn:E; [f_equal; lia|].
    assert (List.filter (str_eqb x) l = []) as ->; [|f_equal; cbn; lia].
    clear -E. induction l as [|y l IH]; [done|]. cbn in *. apply orb_false_iff in E as [-> E]. by apply IH.
  - done.
Qed.

(** Without counts from the server, the count of a type is the number of channels shown
    that have it, those under a tag included, and types that are not shown have none. *)
Theorem type_counts_exact s k :
  typeCounts s = [] -> k <> $"all" ->
  prop k (channelTypeCounts s) = if existsb (str_eqb k) (shown_types s) then Some (int (occurrences k (shown_types s))) else None.
Proof.
  intros Hs Hk. unfold channelTypeCounts. rewrite Hs.
  assert (Hm : forall o : list (jsstr * Z), prop k (map (fun kv => (kv.1, int kv.2)) o) = int <$> prop k o).
  { induction o as [|[k' v] o IH]; [done|]. cbn [map prop fst snd]. by destruct (k =s? k'). }
  rewrite Hm. unfold fallback_counts. rewrite count_types. cbn [prop]. destruct (str_eqb_spec k $"all"); [done|].
  by destruct (existsb (str_eqb k) (shown_types s)).
Qed.

(** ** Witnesses *)

Definition sample_channel (i : Z) (t : option jsstr) (g : jsstr) (st : Z) : channel :=
  Channel (int i) $"c" (int 1) t g (int st) (int 0) (int 0) (of_Z 5) n0 VNull [] [] None VNull VNull VNull [].
Definition sample_page : list channel :=
  [sample_channel 1 (Some $"a") $"vip2" 2; sample_channel 2 None $"x" 1; sample_channel 3 (Some $"a") $"vip" 1].
Definition empty_hook : hook := Hook [] [] VNull [] 1 10 false true $"all" $"all" true false 0 (Form [] [] []).

Lemma sample_metas : exists l, with_metas sample_page = Ret l /\ good_tags true l.
Proof. eexists. split; [vm_compute; reflexivity|]. intros _. repeat constructor; apply (bool_decide_unpack _); by vm_compute. Qed.

Lemma tag_rows_exact_witness :
  exists rows, group_channels (number 0 sample_page) = Ret rows /\ map t_key rows = [$"a"; []].
Proof.
  destruct (tag_rows_exact (number 0 sample_page)) as (rows & H & Hk & _).
  - repeat constructor; apply (bool_decide_unpack _); by vm_compute.
  - exists rows. split; [exact H|]. rewrite Hk. by vm_compute.
Defined.

(** A group whose name is part of another one is left out of the row. *)
Lemma group_hidden_by_longer :
  match group_channels (number 0 sample_page) with Ret (t :: _) => t_group t = $"vip2" | _ => False end.
Proof. by vm_compute. Qed.

Lemma inherited_tag_fails_witness : group_channels [(O, sample_channel 1 (Some $"constructor") [] 1)] = Throw.
Proof. apply (inherited_tag_fails (O, sample_channel 1 (Some $"constructor") [] 1) []). apply (bool_decide_unpack _). by vm_compute. Defined.

Lemma shared_priority_witness : t_priority (row_of $"a" (number 0 sample_page)) = int 0.
Proof.
  exact (shared_priority $"a" (number 0 sample_page) (O, sample_channel 1 (Some $"a") $"vip2" 2) [(2%nat, sample_channel 3 (Some $"a") $"vip" 1)]
    eq_refl eq_refl ltac:(repeat constructor)).
Defined.

Lemma latest_load_wins_witness :
  exists s', answers [(PLoad 1 true false, Failed); (PLoad 2 true false, Answer (PageData sample_page (int 3) None)); (PLoad 1 true false, NoAnswer)]
    (set_flags true false 2 empty_hook) = s' /\ length (table s') = 2%nat.
Proof.
  destruct sample_metas as (l & Hl & Hg). eexists. split; [reflexivity|].
  destruct (latest_load_wins 1 10 false true $"all" $"all" (set_flags true false 1 empty_hook) (set_flags true false 2 empty_hook)
    (PLoad 2 true false) (load_url 1 10 false true $"all" $"all") [(PLoad 1 true false, Failed)] [(PLoad 1 true false, NoAnswer)]
    (PageData sample_page (int 3) None) l eq_refl eq_refl) as [Ht _].
  - by repeat constructor.
  - by repeat constructor.
  - exact Hl.
  - exact Hg.
  - cbn [app] in Ht. rewrite Ht. vm_compute in Hl. injection Hl as <-. by vm_compute.
Defined.

Lemma late_update_restores_page_witness :
  exists s s1, setChannelFormat sample_page true empty_hook = Ret s /\ setChannelFormat [] true s = Ret s1
    /\ channels s1 = [] /\ channels (updateChannelProperty (int 1) (set_status (int 2)) (channels s) s1) = channels s.
Proof.
  destruct (setChannelFormat sample_page true empty_hook) as [s|] eqn:E; [|by vm_compute in E].
  destruct (setChannelFormat [] true s) as [s1|] eqn:E1; [|by vm_compute in E1].
  exists s, s1. split; [done|]. split; [exact E1|]. split; [by apply Ret_inj in E1; subst s1|].
  apply (late_update_restores_page s s1 [] true (int 1) (set_status (int 2)) 0 E1); vm_compute in E; apply Ret_inj in E; subst s.
  - apply (bool_decide_unpack _). by vm_compute.
  - by vm_compute.
Defined.

Lemma type_counts_exact_witness :
  exists s, setChannelFormat sample_page true empty_hook = Ret s /\ prop $"1" (channelTypeCounts s) = Some (int 3).
Proof.
  destruct (setChannelFormat sample_page true empty_hook) as [s|] eqn:E; [|by vm_compute in E]. exists s. split; [done|].
  rewrite (type_counts_exact s $"1"); [|by vm_compute in E; apply Ret_inj in E; subst s|by vm_compute].
  vm_compute in E. apply Ret_inj in E. subst s. by vm_compute.
Defined.

End Channels.
