(* ===== verification/ChannelTests.v ===== *)
(** * Tests of the models of a channel

    [testChannel], [batchTestModels], [stopBatchTesting] and [handleCloseModal] of
    [web/src/hooks/channels/useChannelsData.jsx]: the models are tested in batches of five;
    a batch is started when all tests of the one before have ended, and none is started after
    the user stopped.  The functions read the flag of the render they were made in and the
    flag of the reference; the answers arrive in any order. *)
From S2P Require Import Prelude JSNum JSValue Json ClientHelpers Channels.
#[local] Open Scope Z_scope.
#[local] Arguments js _ : simpl never.

Module ChannelTests.
Import ClientHelpers Channels.

(** ** Data *)

Record result := Result { r_success : bool; r_message : val; r_time : num; r_timestamp : num; r_errorCode : val }.

(** The answer to a test: what the server says, or the error of the request. *)
Inductive test_answer :=
| Tested (success : bool) (message : val) (time : option num) (error_code : val)
| TestFailed (message : val).

Record tests := Tests {
  hook_ : hook;
  modelTestResults : list (jsstr * result); testingModels : list jsstr;
  isBatchTesting : bool; shouldStop : bool;
  (** the run of [batchTestModels]: the batches to come, the tests under way; the models
      tested so far *)
  queue : list (list jsstr); running : list jsstr; started : list jsstr
}.

(** What the closures of a run have of their render. *)
Record closure := Closure { record_id : val; shown_rows : list nat; batching : bool }.

Definition testKey (c : closure) (model : jsstr) : jsstr := String_val (record_id c) ++ $"-" ++ model.

Definition test_url (c : closure) (model endpointType : jsstr) (stream : bool) : jsstr :=
  $"/api/channel/test/" ++ String_val (record_id c) ++ $"?model=" ++ model
  ++ (if nonempty endpointType then $"&endpoint_type=" ++ endpointType else []) ++ (if stream then $"&stream=true" else []).

(** ** One test *)

Definition add_testing (m : jsstr) (l : list jsstr) : list jsstr := if bool_decide (m ∈ l) then l else l ++ [m].
Definition del_testing (m : jsstr) (l : list jsstr) : list jsstr := List.filter (fun x => negb (x =s? m)) l.

(** Starting: [false] when the run was stopped, as the closure sees it. *)
Definition testChannel_start (c : closure) (m : jsstr) (s : tests) : tests * bool :=
  if shouldStop s && batching c then (s, false)
  else (Tests (hook_ s) (modelTestResults s) (add_testing m (testingModels s)) (isBatchTesting s) (shouldStop s) (queue s)
          (running s) (started s), true).

Definition record_result (k : jsstr) (r : result) (s : tests) : tests :=
  Tests (hook_ s) (prop_set k r (modelTestResults s)) (testingModels s) (isBatchTesting s) (shouldStop s) (queue s) (running s) (started s).

Definition set_hook (h : hook) (s : tests) : tests :=
  Tests h (modelTestResults s) (testingModels s) (isBatchTesting s) (shouldStop s) (queue s) (running s) (started s).

(** The answer: the result, the times of the channel, and the end of the test in any case. *)
Definition testChannel_end (c : closure) (m : jsstr) (a : test_answer) (now : num) (s : tests) : tests :=
  let s1 :=
    match a with
    | Tested success message time error_code =>
      if shouldStop s && batching c then s
      else
        let t := match time with Some t => if num_truthy t then t else n0 | None => n0 end in
        let code := if truthy error_code then error_code else VNull in
        let s1 := record_result (testKey c m) (Result success message t now code) s in
        if success
        then set_hook (updateChannelProperty (record_id c)
                         (set_times (nmul (default NaN time) (of_Z 1000)) (VNum (ndiv now (of_Z 1000)))) (shown_rows c) (hook_ s1)) s1
        else s1
    | TestFailed message => record_result (testKey c m) (Result false message n0 now VNull) s
    end in
  Tests (hook_ s1) (modelTestResults s1) (del_testing m (testingModels s1)) (isBatchTesting s1) (shouldStop s1) (queue s1) (running s1) (started s1).

(** ** A run *)

Definition concurrencyLimit : nat := 5.

(** [for (let i = 0; i < models.length; i += 5) models.slice(i, i + 5)] *)
Fixpoint batches (fuel : nat) (models : list jsstr) : list (list jsstr) :=
  match fuel, models with
  | S f, _ :: _ => take concurrencyLimit models :: batches f (drop concurrencyLimit models)
  | _, _ => []
  end.

Definition matching_models (models keyword : jsstr) : list jsstr :=
  List.filter (fun m => includes (toLowerCase keyword) (toLowerCase m)) (split_char 44 models).

Definition clear_results (c : closure) (models : list jsstr) (r : list (jsstr * result)) : list (jsstr * result) :=
  fold_left (fun r m => prop_delete (testKey c m) r) models r.

(** [None]: refused, with a message. *)
Definition batchTestModels (c : closure) (models keyword : jsstr) (s : tests) : option tests :=
  let l := matching_models models keyword in
  if negb (nonempty models) then None
  else match l with
       | [] => None
       | _ => Some (Tests (hook_ s) (clear_results c l (modelTestResults s)) (testingModels s) true false (batches (length l) l) [] [])
       end.

(** The next batch: all its tests are started. *)
Definition start_batch (c : closure) (b : list jsstr) (s : tests) : tests :=
  fold_left (fun s m => let '(s', ok) := testChannel_start c m s in
                        Tests (hook_ s') (modelTestResults s') (testingModels s') (isBatchTesting s') (shouldStop s') (queue s')
                          (if ok then running s' ++ [m] else running s') (if ok then started s' ++ [m] else started s')) b s.

Definition next_batch (c : closure) (s : tests) : tests :=
  match queue s with
  | [] => s
  | b :: q => start_batch c b (Tests (hook_ s) (modelTestResults s) (testingModels s) (isBatchTesting s) (shouldStop s) q (running s) (started s))
  end.

(** The run ends: stopped, or all batches done. *)
Definition end_run (s : tests) : tests :=
  Tests (hook_ s) (modelTestResults s) (testingModels s) false (shouldStop s) [] (running s) (started s).

(** The message at the end of a run that was not stopped. *)
Definition statistics (c : closure) (models : list jsstr) (r : list (jsstr * result)) : nat * nat :=
  let ok m := match prop (testKey c m) r with Some x => r_success x | None => false end in
  (length (List.filter ok models), length (List.filter (fun m => negb (ok m)) models)).

(** *** The user *)

Definition stopBatchTesting (s : tests) : tests :=
  Tests (hook_ s) (modelTestResults s) [] false true (queue s) (running s) (started s).

Definition handleCloseModal (s : tests) : tests :=
  Tests (hook_ s) (modelTestResults s) [] false (shouldStop s || isBatchTesting s) (queue s) (running s) (started s).

(** *** Interleavings *)

Fixpoint remove_first (m : jsstr) (l : list jsstr) : list jsstr :=
  match l with [] => [] | x :: r => if x =s? m then r else x :: remove_first m r end.

Definition answered (m : jsstr) (s : tests) : tests :=
  Tests (hook_ s) (modelTestResults s) (testingModels s) (isBatchTesting s) (shouldStop s) (queue s) (remove_first m (running s)) (started s).

Inductive run_step (c : closure) (s : tests) : tests -> Prop :=
| r_batch : running s = [] -> shouldStop s = false -> queue s <> [] -> run_step c s (next_batch c s)
| r_stopped : running s = [] -> shouldStop s = true -> run_step c s (end_run s)
| r_done : running s = [] -> queue s = [] -> run_step c s (end_run s)
| r_answer m a now : m ∈ running s -> run_step c s (answered m (testChannel_end c m a now s))
| r_stop : run_step c s (stopBatchTesting s)
| r_close : run_step c s (handleCloseModal s).

(** * Theorems *)

Lemma batches_concat n l : (length l <= n)%nat -> concat (batches n l) = l.
Proof.
  revert l. induction n as [|n IH]; intros l Hl; [by destruct l; [|cbn in Hl; lia]|]. destruct l as [|x l]; [done|].
  cbn [batches]. cbn [concat]. rewrite IH; [apply take_drop|]. rewrite length_drop. unfold concurrencyLimit. cbn [length] in *. lia.
Qed.

Lemma batches_small n l : Forall (fun b => b <> [] /\ (length b <= concurrencyLimit)%nat) (batches n l).
Proof.
  revert l. induction n as [|n IH]; intros l; [constructor|]. destruct l as [|x l]; [constructor|]. cbn [batches].
  constructor; [|apply IH]. split; [done|]. rewrite length_take. lia.
Qed.

Definition has_result (c : closure) (s : tests) (m : jsstr) : Prop := is_Some (prop (testKey c m) (modelTestResults s)).

(** What holds during a run over the models [l]. *)
Record run_ok (c : closure) (l : list jsstr) (s : tests) : Prop := RunOk {
  ok_prefix : exists r, l = started s ++ concat (queue s) ++ r;
  ok_all : shouldStop s = false -> l = started s ++ concat (queue s);
  ok_queue : Forall (fun b => (length b <= concurrencyLimit)%nat) (queue s);
  ok_running : (length (running s) <= concurrencyLimit)%nat;
  ok_results : forall m, m ∈ started s -> m ∈ running s \/ has_result c s m;
  ok_ended : shouldStop s = false -> isBatchTesting s = false -> queue s = []
}.

Lemma remove_first_in m x l : x ∈ l -> x <> m -> x ∈ remove_first m l.
Proof.
  induction l as [|y l IH]; [done|]. cbn [remove_first]. intros [->|H]%elem_of_cons Hne; destruct (str_eqb_spec y m); subst; try set_solver.
Qed.

Lemma remove_first_length m l : (length (remove_first m l) <= length l)%nat.
Proof. induction l as [|y l IH]; [done|]. cbn. destruct (y =s? m); cbn; lia. Qed.

Section Run.
Context (c : closure) (Hc : batching c = false).

Lemma start_batch_cons m b s :
  start_batch c (m :: b) s
  = start_batch c b (Tests (hook_ s) (modelTestResults s) (add_testing m (testingModels s)) (isBatchTesting s) (shouldStop s) (queue s)
                       (running s ++ [m]) (started s ++ [m])).
Proof using Hc.
  change (start_batch c (m :: b) s) with
    (start_batch c b (let '(s', ok) := testChannel_start c m s in
       Tests (hook_ s') (modelTestResults s') (testingModels s') (isBatchTesting s') (shouldStop s') (queue s')
         (if ok then running s' ++ [m] else running s') (if ok then started s' ++ [m] else started s'))).
  unfold testChannel_start. by rewrite Hc, andb_false_r.
Qed.

Lemma start_batch_spec b s :
  let s' := start_batch c b s in
  running s' = running s ++ b /\ started s' = started s ++ b /\ queue s' = queue s /\ shouldStop s' = shouldStop s
  /\ isBatchTesting s' = isBatchTesting s /\ modelTestResults s' = modelTestResults s.
Proof using Hc.
  revert s. induction b as [|m b IH]; intros s; [cbn; by rewrite !app_nil_r|]. rewrite start_batch_cons.
  match goal with |- context [start_batch c b ?x] => destruct (IH x) as (H1 & H2 & H3 & H4 & H5 & H6) end.
  cbv zeta. rewrite H1, H2, H3, H4, H5, H6. cbn. by rewrite <- !app_assoc.
Qed.

(** An answer leaves the run as it is, except that it records a result. *)
Lemma end_spec m a now s :
  let s' := testChannel_end c m a now s in
  running s' = running s /\ started s' = started s /\ queue s' = queue s /\ shouldStop s' = shouldStop s
  /\ isBatchTesting s' = isBatchTesting s
  /\ exists r, modelTestResults s' = prop_set (testKey c m) r (modelTestResults s).
Proof using Hc.
  unfold testChannel_end. rewrite Hc, andb_false_r. destruct a as [[] message time code|message]; cbn; (repeat split); by eexists.
Qed.

Lemma run_step_ok l s s' : run_step c s s' -> run_ok c l s -> run_ok c l s'.
Proof using Hc.
  intros H [Hp Ha Hq Hr Hres He]. destruct H as [Hrun Hstop Hne|Hrun Hstop|Hrun Hqe|m a now Hin| |].
  - unfold next_batch. destruct (queue s) as [|b q] eqn:Eq; [done|].
    match goal with |- context [start_batch c b ?x] => destruct (start_batch_spec b x) as (H1 & H2 & H3 & H4 & H5 & H6) end.
    inversion_clear Hq as [|?? Hb Hq']. split; rewrite ?H1, ?H2, ?H3, ?H4, ?H5; cbn in *.
    + destruct Hp as [r Hp]. exists r. by rewrite Hp, <- !app_assoc.
    + intros E. by rewrite Ha, <- !app_assoc.
    + done.
    + by rewrite Hrun.
    + intros m [Hm|Hm]%elem_of_app; [|left; set_solver]. destruct (Hres m Hm) as [Hx|Hx]; [left; set_solver|right]. unfold has_result. by rewrite H6.
    + intros _ Eb. specialize (He Hstop Eb). discriminate.
  - split; cbn; try done. { destruct Hp as [r Hp]. exists (concat (queue s) ++ r). done. } { by rewrite Hstop. }
  - split; cbn; try done. { by rewrite Hqe in Hp. } { intros E. by rewrite (Ha E), Hqe. }
  - destruct (end_spec m a now s) as (H1 & H2 & H3 & H4 & H5 & r & H6). unfold answered.
    split; unfold has_result; cbn [running started queue shouldStop isBatchTesting modelTestResults]; rewrite ?H1, ?H2, ?H3, ?H4, ?H5, ?H6; try done.
    + pose proof (remove_first_length m (running s)). lia.
    + intros x Hx. destruct (decide (x = m)) as [->|Hxm].
      * right. by rewrite prop_set_eq.
      * destruct (Hres x Hx) as [Hin'|[r' Hr']]; [left; by apply remove_first_in|right].
        rewrite prop_set_lookup. destruct (_ =s? _); [done|]. by exists r'.
  - split; cbn; done.
  - split; cbn; try done; destruct (shouldStop s), (isBatchTesting s); cbn in *; try done; auto.
Qed.

Lemma batch_start_ok models keyword s s' :
  batchTestModels c models keyword s = Some s' -> run_ok c (matching_models models keyword) s'.
Proof using.
  unfold batchTestModels. destruct (nonempty models); cbn [negb]; [|done]. destruct (matching_models models keyword) as [|x l] eqn:E; [done|].
  intros Es%Some_inj. subst s'. assert (Hb : concat (batches (length (x :: l)) (x :: l)) = x :: l) by (by apply batches_concat).
  split; cbn [started queue running shouldStop isBatchTesting]; cbn [app]; try done.
  - exists []. by rewrite Hb, app_nil_r.
  - eapply Forall_impl; [apply batches_small|]. by intros b [_ ?].
  - cbn. unfold concurrencyLimit. lia.
  - intros m Hm. by apply not_elem_of_nil in Hm.
Qed.

(** C17: a run tests the matching models in order, each once, at most five at a time; every test
    that ended has its result; a run that was not stopped tests them all. *)
Theorem batch_run_exact models keyword s0 s1 s (l := matching_models models keyword) :
  batchTestModels c models keyword s0 = Some s1 -> rtc (run_step c) s1 s ->
  (exists r, l = started s ++ r) /\ (length (running s) <= 5)%nat
  /\ (forall m, m ∈ started s -> m ∈ running s \/ has_result c s m)
  /\ (shouldStop s = false -> isBatchTesting s = false -> started s = l).
Proof using Hc.
  intros E H. assert (Hs : run_ok c l s).
  { apply batch_start_ok in E. fold l in E. induction H as [|x y z Hxy _ IH]; [done|]. apply IH. by eapply run_step_ok. }
  destruct Hs as [[r Hp] Ha _ Hr Hres He]. split; [by eexists|]. split; [done|]. split; [done|].
  intros E1 E2. rewrite (Ha E1), (He E1 E2). cbn. by rewrite app_nil_r.
Qed.

(** After the user stopped no further test is started, in whatever order answers arrive. *)
Theorem stopped_run_starts_nothing s s' :
  shouldStop s = true -> rtc (run_step c) s s' -> started s' = started s /\ shouldStop s' = true.
Proof using Hc.
  intros Hs H. induction H as [|x y z Hxy _ IH]; [done|].
  assert (Hy : started y = started x /\ shouldStop y = true).
  { destruct Hxy as [? Hn ?|? ?|? ?|m a now Hin| |]; try done; [congruence| |cbn; by rewrite Hs].
    destruct (end_spec m a now x) as (_ & H2 & _ & H4 & _). unfold answered. cbn [started shouldStop]. by rewrite H2, H4. }
  destruct Hy as [Hy1 Hy2]. destruct (IH Hy2) as [-> H2]. done.
Qed.

(** The answer to a test that was under way when the user stopped is still recorded, and
    shown: the function that receives it has the flag of an older render. *)
Theorem stopped_answer_recorded m success message time code now s :
  shouldStop s = true -> has_result c (testChannel_end c m (Tested success message time code) now s) m.
Proof using Hc.
  intros _. destruct (end_spec m (Tested success message time code) now s) as (_ & _ & _ & _ & _ & r & H). unfold has_result. by rewrite H, prop_set_eq.
Qed.

End Run.

(** The message counts every model once. *)
Theorem statistics_total c models r : let '(ok, failed) := statistics c models r in (ok + failed)%nat = length models.
Proof.
  unfold statistics. induction models as [|m l IH]; [done|]. cbn [List.filter].
  destruct (prop (testKey c m) r) as [x|]; [destruct (r_success x)|]; cbn [negb length]; lia.
Qed.

(** ** Witnesses *)

Definition sample_closure : closure := Closure (int 1) [] false.
Definition sample_tests : tests := Tests empty_hook [] [] false false [] [] [].
Definition sample_models : jsstr := $"a,b,c,d,e,f".
Definition sample_run : tests := default sample_tests (batchTestModels sample_closure sample_models [] sample_tests).

Lemma batch_run_exact_witness :
  exists s, rtc (run_step sample_closure) sample_run s /\ length (running s) = 5%nat /\ (length (running s) <= 5)%nat.
Proof.
  exists (next_batch sample_closure sample_run).
  assert (H : rtc (run_step sample_closure) sample_run (next_batch sample_closure sample_run)) by (apply rtc_once, r_batch; by vm_compute).
  split; [exact H|]. split; [by vm_compute|].
  exact (proj1 (proj2 (batch_run_exact sample_closure eq_refl sample_models [] sample_tests sample_run _ eq_refl H))).
Defined.

Lemma stopped_run_starts_nothing_witness :
  started (end_run (stopBatchTesting sample_run)) = [] /\ shouldStop (end_run (stopBatchTesting sample_run)) = true.
Proof.
  apply (stopped_run_starts_nothing sample_closure eq_refl (stopBatchTesting sample_run)); [by vm_compute|]. apply rtc_once, r_stopped; by vm_compute.
Defined.

Lemma stopped_answer_recorded_witness :
  has_result sample_closure (testChannel_end sample_closure $"a" (Tested true VNull None VNull) n0 (stopBatchTesting sample_run)) $"a".
Proof. exact (stopped_answer_recorded sample_closure eq_refl $"a" true VNull None VNull n0 (stopBatchTesting sample_run) eq_refl). Defined.

End ChannelTests.
