(* ===== verification/UpstreamUpdates.v ===== *)
(** * Updates of the upstream models of channels

    [web/src/hooks/channels/useChannelUpstreamUpdates.jsx]: the dialog with the models found
    upstream, and the four requests (apply, apply all, detect, detect all), each guarded by a
    reference that is set while it runs.  A successful request ends only when the list of
    channels was read again. *)
From S2P Require Import Prelude JSNum JSValue Json ClientHelpers.
#[local] Open Scope Z_scope.
#[local] Arguments js _ : simpl never.

Module UpstreamUpdates.
Import ClientHelpers.

(** ** Data *)

Inductive kind := KApply | KApplyAll | KDetect | KDetectAll.

#[export] Instance kind_eq_dec : EqDecision kind.
Proof. solve_decision. Defined.

(** Where a request is: waiting for its answer, or for the list. *)
Inductive phase := Asked | Refreshing.

Record ups := Ups {
  showUpstreamUpdateModal : bool; upstreamUpdateChannel : option val;
  upstreamUpdateAddModels : list jsstr; upstreamUpdateRemoveModels : list jsstr; upstreamUpdatePreferredTab : jsstr;
  (** the loading indicators; [KDetect] has none *)
  loading_of : kind -> bool;
  (** the references *)
  inFlight : kind -> bool;
  under_way : list (kind * phase)
}.

Definition upd (f : kind -> bool) (k : kind) (b : bool) : kind -> bool := fun k' => if bool_decide (k' = k) then b else f k'.

Definition set_run (l f : kind -> bool) (w : list (kind * phase)) (s : ups) : ups :=
  Ups (showUpstreamUpdateModal s) (upstreamUpdateChannel s) (upstreamUpdateAddModels s) (upstreamUpdateRemoveModels s)
    (upstreamUpdatePreferredTab s) l f w.

(** ** The dialog *)

Definition nonempty_list {A} (l : list A) : bool := match l with [] => false | _ => true end.

(** The channel is a record or missing; its identifier is [cid]. *)
Definition openUpstreamUpdateModal (cid : val) (pendingAdd pendingRemove : val) (preferredTab : jsstr) (s : ups) : outcome ups :=
  bind_outcome (normalizeModelList pendingAdd) (fun add =>
  bind_outcome (normalizeModelList pendingRemove) (fun remove =>
  if negb (truthy cid) || (negb (nonempty_list add) && negb (nonempty_list remove)) then Ret s
  else Ret (Ups true (Some cid) add remove (if preferredTab =s? $"remove" then $"remove" else $"add")
              (loading_of s) (inFlight s) (under_way s)))).

Definition closeUpstreamUpdateModal (s : ups) : ups :=
  Ups false None [] [] $"add" (loading_of s) (inFlight s) (under_way s).

(** ** Requests *)

Record apply_body := ApplyBody { b_id : val; add_models : list jsstr; ignore_models : list jsstr; remove_models : list jsstr }.

(** What [applyUpstreamUpdates] sends for the models selected in the dialog. *)
Definition apply_request (cid : val) (shown : list jsstr) (selectedAdd selectedRemove : list jsstr) : apply_body :=
  ApplyBody cid selectedAdd (List.filter (fun m => negb (bool_decide (m ∈ selectedAdd))) shown) selectedRemove.

Inductive sent := SApply (b : apply_body) | SApplyAll | SDetect (cid : val) | SDetectAll.

Definition begin_ (k : kind) (s : ups) : ups :=
  set_run (match k with KDetect => loading_of s | _ => upd (loading_of s) k true end) (upd (inFlight s) k true)
    (under_way s ++ [(k, Asked)]) s.

(** [finally] *)
Definition finish (k : kind) (s : ups) : ups :=
  set_run (match k with KDetect => loading_of s | _ => upd (loading_of s) k false end) (upd (inFlight s) k false)
    (List.filter (fun kp => negb (bool_decide (kp.1 = k))) (under_way s)) s.

Definition has_channel (s : ups) : option val :=
  match upstreamUpdateChannel s with Some cid => if truthy cid then Some cid else None | None => None end.

(** The selections are arrays of the dialog; an exception of the normalization is caught. *)
Definition applyUpstreamUpdates (selectedAdd selectedRemove : val) (s : ups) : ups * option sent :=
  if inFlight s KApply then (s, None)
  else match has_channel s with
       | None => (closeUpstreamUpdateModal s, None)
       | Some cid =>
         match normalizeModelList selectedAdd, normalizeModelList selectedRemove with
         | Ret a, Ret r => (begin_ KApply s, Some (SApply (apply_request cid (upstreamUpdateAddModels s) a r)))
         | _, _ => (finish KApply (begin_ KApply s), None)
         end
       end.

Definition applyAllUpstreamUpdates (s : ups) : ups * option sent :=
  if inFlight s KApplyAll then (s, None) else (begin_ KApplyAll s, Some SApplyAll).

Definition detectChannelUpstreamUpdates (cid : val) (s : ups) : ups * option sent :=
  if inFlight s KDetect then (s, None) else if negb (truthy cid) then (s, None) else (begin_ KDetect s, Some (SDetect cid)).

Definition detectAllUpstreamUpdates (s : ups) : ups * option sent :=
  if inFlight s KDetectAll then (s, None) else (begin_ KDetectAll s, Some SDetectAll).

(** The answer: success goes on with the list; refusals and errors end. *)
Definition refreshing (k : kind) (s : ups) : ups :=
  set_run (loading_of s) (inFlight s) (map (fun kp => if bool_decide (kp.1 = k) then (k, Refreshing) else kp) (under_way s)) s.

Definition on_answer (k : kind) (success : bool) (s : ups) : ups :=
  if success then refreshing k (if bool_decide (k = KApply) then closeUpstreamUpdateModal s else s) else finish k s.

(** The events. *)
Inductive step (s : ups) : ups -> Prop :=
| u_open cid a r tab s' : openUpstreamUpdateModal cid a r tab s = Ret s' -> step s s'
| u_close : step s (closeUpstreamUpdateModal s)
| u_apply a r : step s (applyUpstreamUpdates a r s).1
| u_apply_all : step s (applyAllUpstreamUpdates s).1
| u_detect cid : step s (detectChannelUpstreamUpdates cid s).1
| u_detect_all : step s (detectAllUpstreamUpdates s).1
| u_answer k success : (k, Asked) ∈ under_way s -> step s (on_answer k success s)
| u_refreshed k : (k, Refreshing) ∈ under_way s -> step s (finish k s).

Definition idle : ups := Ups false None [] [] $"add" (fun _ => false) (fun _ => false) [].

(** * Theorems *)

(** A reference is set exactly while its request is under way, once. *)
Record Inv (s : ups) : Prop := MkInv {
  inv_once : NoDup (map fst (under_way s));
  inv_flag : forall k, inFlight s k = true <-> k ∈ map fst (under_way s);
  inv_loading : forall k, loading_of s k = true -> inFlight s k = true;
  inv_detect : loading_of s KDetect = false
}.

Lemma begin_inv k s : Inv s -> inFlight s k = false -> Inv (begin_ k s).
Proof.
  intros [Hn Hf Hl Hd] Hk. assert (Hout : k ∉ map fst (under_way s)) by (intros H%Hf; congruence). split; cbn.
  - rewrite map_app. cbn. apply NoDup_app. split; [done|]. split; [|apply NoDup_singleton]. intros x Hx Hx'%list_elem_of_singleton. by subst x.
  - intros k'. rewrite map_app, elem_of_app. cbn. rewrite list_elem_of_singleton. unfold upd.
    destruct (bool_decide_reflect (k' = k)) as [->|Hne]; [tauto|]. rewrite Hf. tauto.
  - intros k' H. unfold upd. destruct (bool_decide_reflect (k' = k)) as [->|Hne]; [done|]. apply Hl.
    destruct k; [| |done|]; unfold upd in H; by rewrite bool_decide_eq_false_2 in H.
  - by destruct k.
Qed.

Lemma filter_kinds k w : map fst (List.filter (fun kp : kind * phase => negb (bool_decide (kp.1 = k))) w) = List.filter (fun x => negb (bool_decide (x = k))) (map fst w).
Proof. induction w as [|[k' p] w IH]; [done|]. cbn [List.filter map fst]. destruct (negb _); cbn [map fst]; by rewrite IH. Qed.

Lemma finish_inv k s : Inv s -> Inv (finish k s).
Proof.
  intros [Hn Hf Hl Hd]. split; cbn.
  - rewrite filter_kinds. by apply NoDup_lfilter.
  - intros k'. rewrite filter_kinds. unfold upd. split.
    + destruct (bool_decide_reflect (k' = k)) as [->|Hne]; [done|]. intros H%Hf. apply list_elem_of_In, filter_In. split; [by apply list_elem_of_In|].
      by rewrite bool_decide_eq_false_2.
    + intros [Hin Hk]%list_elem_of_In%filter_In. destruct (bool_decide_reflect (k' = k)) as [->|Hne]; [done|]. apply Hf. by apply list_elem_of_In.
  - intros k' H. unfold upd. destruct (bool_decide_reflect (k' = k)) as [->|Hne].
    + exfalso. destruct k; unfold upd in H; rewrite ?bool_decide_eq_true_2 in H by done; congruence.
    + apply Hl. destruct k; [| |done|]; unfold upd in H; by rewrite bool_decide_eq_false_2 in H.
  - by destruct k.
Qed.

Lemma refreshing_inv k s : Inv s -> Inv (refreshing k s).
Proof.
  intros [Hn Hf Hl Hd].
  assert (E : map fst (map (fun kp => if bool_decide (kp.1 = k) then (k, Refreshing) else kp) (under_way s)) = map fst (under_way s)).
  { rewrite map_map. apply map_ext. intros [k' p]. cbn [fst]. by destruct (bool_decide_reflect (k' = k)) as [->|]. }
  split; cbn; rewrite ?E; done.
Qed.

Lemma close_inv s : Inv s -> Inv (closeUpstreamUpdateModal s).
Proof. by intros [Hn Hf Hl Hd]; split. Qed.

Lemma ups_step_inv s s' : step s s' -> Inv s -> Inv s'.
Proof.
  intros H Hs. destruct H as [cid a r tab s' E| |a r| |cid| |k success Hin|k Hin].
  - revert E. unfold openUpstreamUpdateModal. destruct (normalizeModelList a); cbn [bind_outcome]; [|done].
    destruct (normalizeModelList r); cbn [bind_outcome]; [|done]. destruct (_ || _); intros E%Ret_inj; subst s'; [done|]. by destruct Hs; split.
  - by apply close_inv.
  - unfold applyUpstreamUpdates. destruct (inFlight s KApply) eqn:E; [done|]. destruct (has_channel s); [|by apply close_inv].
    destruct (normalizeModelList a), (normalizeModelList r); cbn [fst]; (try by apply begin_inv); by apply finish_inv, begin_inv.
  - unfold applyAllUpstreamUpdates. destruct (inFlight s KApplyAll) eqn:E; [done|]. by apply begin_inv.
  - unfold detectChannelUpstreamUpdates. destruct (inFlight s KDetect) eqn:E; [done|]. destruct (truthy cid); [|done]. by apply begin_inv.
  - unfold detectAllUpstreamUpdates. destruct (inFlight s KDetectAll) eqn:E; [done|]. by apply begin_inv.
  - unfold on_answer. destruct success; [|by apply finish_inv]. apply refreshing_inv. destruct (bool_decide _); [by apply close_inv|done].
  - by apply finish_inv.
Qed.

Lemma reach_inv s : rtc step idle s -> Inv s.
Proof.
  intros H. assert (Hi : Inv idle) by (split; cbn; [constructor| |done|done]; intros k; split; [done|intros Hk; by apply not_elem_of_nil in Hk]).
  revert Hi. induction H as [|x y z Hxy _ IH]; [done|]. intros Hx. apply IH. by eapply ups_step_inv.
Qed.

(** C18: whatever the order of clicks and answers, at most one request of each kind is under
    way, a kind is blocked exactly while its request is, and an indicator that turns always
    belongs to a request under way: none is left behind by an error. *)
Theorem one_request_of_each_kind s :
  rtc step idle s ->
  NoDup (map fst (under_way s)) /\ (forall k, inFlight s k = true <-> k ∈ map fst (under_way s))
  /\ (forall k, loading_of s k = true -> k ∈ map fst (under_way s)).
Proof. intros [Hn Hf Hl _]%reach_inv. split; [done|]. split; [done|]. intros k Hk. by apply Hf, Hl. Qed.

(** Every model that was shown as new is either added or ignored, and none is both; nothing
    that was not shown is ignored. *)
Theorem apply_partition cid shown a r m :
  let b := apply_request cid shown a r in
  (m ∈ ignore_models b <-> m ∈ shown /\ m ∉ add_models b)
  /\ (m ∈ shown -> (m ∈ add_models b /\ m ∉ ignore_models b) \/ ((m ∉ add_models b) /\ m ∈ ignore_models b)).
Proof.
  cbn. assert (H : (m ∈ List.filter (fun x => negb (bool_decide (x ∈ a))) shown) <-> (m ∈ shown /\ m ∉ a)).
  { rewrite list_elem_of_In, filter_In, <- list_elem_of_In. destruct (bool_decide_reflect (m ∈ a)) as [Hm|Hm]; cbn.
    - split; [by intros [_ ?]|by intros [_ []]].
    - split; intros [H1 _]; by split. }
  split; [exact H|]. intros Hm. destruct (decide (m ∈ a)); [left|right]; rewrite H; tauto.
Qed.

Lemma one_request_of_each_kind_witness :
  rtc step idle (detectAllUpstreamUpdates idle).1 /\ NoDup (map fst (under_way (detectAllUpstreamUpdates idle).1)).
Proof.
  assert (H : rtc step idle (detectAllUpstreamUpdates idle).1) by (apply rtc_once; constructor).
  split; [exact H|]. exact (proj1 (one_request_of_each_kind _ H)).
Defined.

End UpstreamUpdates.
