(* ===== verification/RatioSync.v ===== *)
(** * Synchronisation of prices with upstreams

    [web/src/pages/Setting/Ratio/UpstreamRatioSync.jsx]: channels are selected, their prices
    are fetched and compared with the local ones by the server, the administrator picks
    values per model and field, and the picks are written into the ten price options.  A
    fixed price excludes ratios; when a pick changes the kind of a model's price, a dialog
    asks first.  Objects are property lists, endpoints a finite map; the server's answers
    are inputs. *)
From stdpp Require Import gmap.
From S2P Require Import Prelude JSNum JSValue Json ClientHelpers Channels.
#[local] Open Scope Z_scope.
#[local] Arguments js _ : simpl never.

Module RatioSync.

(** ** Data *)

(** One field of a model: the local value, the value of each upstream and whether it is trusted. *)
Record diff := Diff { current : val; upstreams : object; confidence : object }.

Definition diffs := list (jsstr * list (jsstr * diff)).
Definition resolved := list (jsstr * object).

Record channel := Channel { ch_id : Z; ch_name : jsstr; base_url : jsstr; ch_type : Z }.

Record conflict := Conflict { c_channel : jsstr; c_model : jsstr; c_current : jsstr; c_newVal : jsstr }.

Record flags := Flags {
  modalVisible : bool; loading : bool; syncLoading : bool; confirmLoading : bool; confirmVisible : bool; hasSynced : bool
}.
Record chans := Chans { allChannels : list channel; selectedChannelIds : list Z; channelEndpoints : gmap Z jsstr }.
Record view := View { currentPage : Z; pageSize : Z; searchKeyword : jsstr; ratioTypeFilter : jsstr }.

(** The state of the page, and the options it was rendered with. *)
Record page := Page {
  fl : flags; ch : chans; vw : view; differences : diffs; resolutions : resolved; conflictItems : list conflict;
  options : list (jsstr * jsstr)
}.

(** ** Endpoints *)

Definition OFFICIAL_RATIO_PRESET_ID : Z := -100.
Definition OFFICIAL_RATIO_PRESET_NAME : jsstr := $"官方倍率预设".
Definition OFFICIAL_RATIO_PRESET_BASE_URL : jsstr := $"https://basellm.github.io".
Definition OFFICIAL_RATIO_PRESET_ENDPOINT : jsstr := $"/llm-metadata/api/newapi/ratio_config-v1-base.json".
Definition MODELS_DEV_PRESET_ID : Z := -101.
Definition MODELS_DEV_PRESET_NAME : jsstr := $"models.dev 价格预设".
Definition MODELS_DEV_PRESET_BASE_URL : jsstr := $"https://models.dev".
Definition MODELS_DEV_PRESET_ENDPOINT : jsstr := $"https://models.dev/api.json".
Definition DEFAULT_ENDPOINT : jsstr := $"/api/pricing".

Definition isOfficialRatioPreset (c : channel) : bool :=
  (ch_id c =? OFFICIAL_RATIO_PRESET_ID) || (base_url c =s? OFFICIAL_RATIO_PRESET_BASE_URL) || (ch_name c =s? OFFICIAL_RATIO_PRESET_NAME).
Definition isModelsDevPreset (c : channel) : bool :=
  (ch_id c =? MODELS_DEV_PRESET_ID) || (base_url c =s? MODELS_DEV_PRESET_BASE_URL) || (ch_name c =s? MODELS_DEV_PRESET_NAME).

Definition endpoint_of (c : channel) : jsstr :=
  if isModelsDevPreset c then MODELS_DEV_PRESET_ENDPOINT
  else if isOfficialRatioPreset c then OFFICIAL_RATIO_PRESET_ENDPOINT
  else if ch_type c =? 20 then $"openrouter"
  else DEFAULT_ENDPOINT.

Definition text_at (id : Z) (m : gmap Z jsstr) : jsstr := default [] (m !! id).

(** Endpoints that were typed before are kept. *)
Definition merge_endpoint (m : gmap Z jsstr) (c : channel) : gmap Z jsstr :=
  if nonempty (text_at (ch_id c) m) then m else <[ch_id c := endpoint_of c]> m.
Definition merge_endpoints (cs : list channel) (m : gmap Z jsstr) : gmap Z jsstr := fold_left merge_endpoint cs m.

(** ** Fields *)

Definition ratioSyncFields : list jsstr :=
  [$"model_ratio"; $"completion_ratio"; $"cache_ratio"; $"create_cache_ratio"; $"image_ratio"; $"audio_ratio"; $"audio_completion_ratio"].
Definition numericSyncFields : list jsstr := ratioSyncFields ++ [$"model_price"].
Definition syncFieldOrder : list jsstr := ratioSyncFields ++ [$"model_price"; $"billing_mode"; $"billing_expr"].

Definition mem (x : jsstr) (l : list jsstr) : bool := existsb (str_eqb x) l.

Definition getOrderedRatioTypes (filter : jsstr) (ratioTypes : list (jsstr * diff)) : list jsstr :=
  let ks := keys ratioTypes in
  let ordered := List.filter (fun f => mem f ks) syncFieldOrder ++ List.filter (fun f => negb (mem f syncFieldOrder)) ks in
  if nonempty filter then List.filter (fun f => f =s? filter) ordered else ordered.

Inductive category := Price | Tiered | Ratio.
#[export] Instance category_eq_dec : EqDecision category.
Proof. solve_decision. Defined.

Definition getBillingCategory (ratioType : jsstr) : category :=
  if ratioType =s? $"model_price" then Price
  else if (ratioType =s? $"billing_mode") || (ratioType =s? $"billing_expr") then Tiered
  else Ratio.

Definition capitalize (w : jsstr) : jsstr := match w with [] => [] | c :: r => toUpperCase [c] ++ r end.

Definition optionKeyBySyncField (ratioType : jsstr) : jsstr :=
  if ratioType =s? $"billing_mode" then $"billing_setting.billing_mode"
  else if ratioType =s? $"billing_expr" then $"billing_setting.billing_expr"
  else concat (map capitalize (split_char 95 ratioType)).

(** ** Picks *)

Definition getUpstreamValue (d : diffs) (model ratioType sourceName : jsstr) : val :=
  match prop model d with
  | Some fields => match prop ratioType fields with Some x => default VUndef (prop sourceName (upstreams x)) | None => VUndef end
  | None => VUndef
  end.

Definition isSelectableUpstreamValue (v : val) : bool := negb (is_nullish v) && negb (eq_str v $"same").

Definition getPreferredSyncField (d : diffs) (model ratioType sourceName : jsstr) : jsstr :=
  if negb (ratioType =s? $"billing_expr") && isSelectableUpstreamValue (getUpstreamValue d model $"billing_expr" sourceName)
  then $"billing_expr" else ratioType.

Definition shouldShowSyncField (d : diffs) (model ratioType sourceName : jsstr) : bool :=
  if negb (nonempty sourceName) then true else getPreferredSyncField d model ratioType sourceName =s? ratioType.

Definition deleteResolutionField (newRes : resolved) (model ratioType : jsstr) : resolved :=
  match prop model newRes with
  | None => newRes
  | Some r =>
    let r1 := prop_delete ratioType r in
    let r2 := if ratioType =s? $"billing_expr" then prop_delete $"billing_mode" r1 else r1 in
    let r3 := if ratioType =s? $"billing_mode" then prop_delete $"billing_expr" r2 else r2 in
    match r3 with [] => prop_delete model newRes | _ => prop_set model r3 newRes end
  end.

(** The picks of the model that stay beside a pick of the category. *)
Definition compatible (c : category) (rt : jsstr) : bool :=
  bool_decide (c = Tiered) || bool_decide (getBillingCategory rt = Tiered) || bool_decide (getBillingCategory rt = c).

(** The mode and the expression of a source go together. *)
Definition with_tiered (d : diffs) (model ratioType sourceName : jsstr) (r : object) : object :=
  let modeValue := getUpstreamValue d model $"billing_mode" sourceName in
  let exprValue := getUpstreamValue d model $"billing_expr" sourceName in
  let r1 := if isSelectableUpstreamValue modeValue then prop_set $"billing_mode" modeValue r
            else if ratioType =s? $"billing_expr" then prop_set $"billing_mode" (VStr $"tiered_expr") r else r in
  if isSelectableUpstreamValue exprValue then prop_set $"billing_expr" exprValue r1 else r1.

Definition selectValue (d : diffs) (model ratioType : jsstr) (value : val) (sourceName : jsstr) (prev : resolved) : resolved :=
  let preferred := if nonempty sourceName then getPreferredSyncField d model ratioType sourceName else ratioType in
  let v := if preferred =s? ratioType then value else getUpstreamValue d model preferred sourceName in
  let c := getBillingCategory preferred in
  let kept := List.filter (fun kv => compatible c kv.1) (default [] (prop model prev)) in
  let r := prop_set preferred v kept in
  let r' := if bool_decide (c = Tiered) && nonempty sourceName then with_tiered d model preferred sourceName r else r in
  prop_set model r' prev.

(** ** The table *)

Definition row_matches (v : view) (item : jsstr * list (jsstr * diff)) : bool :=
  (negb (nonempty (trim (searchKeyword v))) || includes (trim (toLowerCase (searchKeyword v))) (toLowerCase item.1))
  && (negb (nonempty (ratioTypeFilter v)) || has_prop (ratioTypeFilter v) item.2).

Definition filteredDataSource (v : view) (d : diffs) : diffs :=
  if negb (nonempty (trim (searchKeyword v))) && negb (nonempty (ratioTypeFilter v)) then d else List.filter (row_matches v) d.

Definition billingConflict (ratioTypes : list (jsstr * diff)) : bool :=
  has_prop $"model_price" ratioTypes && existsb (fun rt => has_prop rt ratioTypes) ratioSyncFields.

(** The rows and fields in the order the table shows them. *)
Definition cells (v : view) (d : diffs) : list (jsstr * jsstr) :=
  flat_map (fun row => map (fun rt => (row.1, rt)) (getOrderedRatioTypes (ratioTypeFilter v) row.2)) (filteredDataSource v d).

Definition upstreamNames (v : view) (d : diffs) : list jsstr :=
  uniq (flat_map (fun row => flat_map (fun rt => match prop rt row.2 with Some x => keys (upstreams x) | None => [] end)
                               (getOrderedRatioTypes (ratioTypeFilter v) row.2)) (filteredDataSource v d)).

(** A value that can be ticked in the column of the upstream. *)
Definition selectable (d : diffs) (upName : jsstr) (cell : jsstr * jsstr) : bool :=
  (getPreferredSyncField d cell.1 cell.2 upName =s? cell.2) && isSelectableUpstreamValue (getUpstreamValue d cell.1 cell.2 upName).

Definition pick (res : resolved) (model rt : jsstr) : val :=
  match prop model res with Some r => default VUndef (prop rt r) | None => VUndef end.

Definition selected (d : diffs) (res : resolved) (upName : jsstr) (cell : jsstr * jsstr) : bool :=
  selectable d upName cell && Channels.same (pick res cell.1 cell.2) (getUpstreamValue d cell.1 cell.2 upName).

Definition selectableCount (v : view) (d : diffs) (upName : jsstr) : nat := length (List.filter (selectable d upName) (cells v d)).
Definition selectedCount (v : view) (d : diffs) (res : resolved) (upName : jsstr) : nat := length (List.filter (selected d res upName) (cells v d)).
Definition allSelected (v : view) (d : diffs) (res : resolved) (upName : jsstr) : bool :=
  (0 <? selectableCount v d upName)%nat && (selectedCount v d res upName =? selectableCount v d upName)%nat.

Definition select_cell (d : diffs) (upName : jsstr) (res : resolved) (cell : jsstr * jsstr) : resolved :=
  if selectable d upName cell then selectValue d cell.1 cell.2 (getUpstreamValue d cell.1 cell.2 upName) upName res else res.

Definition deselect_cell (d : diffs) (upName : jsstr) (res : resolved) (cell : jsstr * jsstr) : resolved :=
  match getUpstreamValue d cell.1 cell.2 upName with VUndef => res | _ => deleteResolutionField res cell.1 cell.2 end.

Definition handleBulkSelect (v : view) (d : diffs) (upName : jsstr) (checked : bool) (res : resolved) : resolved :=
  fold_left (if checked then select_cell d upName else deselect_cell d upName) (cells v d) res.

(** A tick or an untick of one value. *)
Definition check_cell (d : diffs) (upName : jsstr) (checked : bool) (cell : jsstr * jsstr) (res : resolved) : resolved :=
  if checked then selectValue d cell.1 cell.2 (getUpstreamValue d cell.1 cell.2 upName) upName res
  else deleteResolutionField res cell.1 cell.2.

Definition getCurrentPageData {A} (v : view) (dataSource : list A) : list A :=
  let startIndex := (currentPage v - 1) * pageSize v in
  take (Z.to_nat (pageSize v)) (drop (Z.to_nat startIndex) dataSource).

(** ** Writing the picks *)

Definition OPTION_KEYS : list jsstr :=
  [$"ModelRatio"; $"CompletionRatio"; $"CacheRatio"; $"CreateCacheRatio"; $"ImageRatio"; $"AudioRatio"; $"AudioCompletionRatio";
   $"ModelPrice"; $"billing_setting.billing_mode"; $"billing_setting.billing_expr"].
Definition RATIO_KEYS : list jsstr :=
  [$"ModelRatio"; $"CompletionRatio"; $"CacheRatio"; $"CreateCacheRatio"; $"ImageRatio"; $"AudioRatio"; $"AudioCompletionRatio"].

Definition parse_option (opts : list (jsstr * jsstr)) (k : jsstr) : outcome val :=
  let raw := default [] (prop k opts) in
  match parse (if nonempty raw then raw else $"{}") with Some v => Ret v | None => Throw end.

Fixpoint parse_options (opts : list (jsstr * jsstr)) (ks : list jsstr) : outcome (list (jsstr * val)) :=
  match ks with
  | [] => Ret []
  | k :: r => bind_outcome (parse_option opts k) (fun v => bind_outcome (parse_options opts r) (fun l => Ret ((k, v) :: l)))
  end.

Definition currentRatios (opts : list (jsstr * jsstr)) : outcome (list (jsstr * val)) := parse_options opts OPTION_KEYS.

Definition ratio_at (cur : list (jsstr * val)) (k model : jsstr) : outcome val := get_or_throw (default VUndef (prop k cur)) model.

Fixpoint any_ratio (cur : list (jsstr * val)) (model : jsstr) (ks : list jsstr) : outcome bool :=
  match ks with
  | [] => Ret false
  | k :: r => bind_outcome (ratio_at cur k model) (fun v => match v with VUndef => any_ratio cur model r | _ => Ret true end)
  end.

Definition getLocalBillingCategory (cur : list (jsstr * val)) (model : jsstr) : outcome (option category) :=
  bind_outcome (ratio_at cur $"ModelPrice" model) (fun v =>
  match v with
  | VUndef => bind_outcome (any_ratio cur model RATIO_KEYS) (fun b => Ret (if b then Some Ratio else None))
  | _ => Ret (Some Price)
  end).

Definition hasPrice (ratios : object) : bool := has_prop $"model_price" ratios.
Definition hasRatio (ratios : object) : bool := existsb (fun rt => mem rt ratioSyncFields) (keys ratios).

Definition newCat (ratios : object) : category :=
  if hasPrice ratios then Price else if existsb (fun rt => has_prop rt ratios) ratioSyncFields then Ratio else Tiered.

(** Texts of the dialog. *)
Section Texts.
Context (t : jsstr -> jsstr).

Definition findSourceChannel (d : diffs) (model ratioType : jsstr) (value : val) : jsstr :=
  match prop model d with
  | Some fields =>
    match prop ratioType fields with
    | Some x => match List.find (fun kv => Channels.same kv.2 value) (upstreams x) with Some kv => kv.1 | None => t $"未知" end
    | None => t $"未知"
    end
  | None => t $"未知"
  end.

Definition shown (v : val) : jsstr := if is_nullish v then $"-" else String_val v.

Definition pair_text (a b : val) : jsstr :=
  t $"模型倍率" ++ $" : " ++ shown a ++ [10] ++ t $"补全倍率" ++ $" : " ++ shown b.

Definition current_text (cur : list (jsstr * val)) (model : jsstr) (c : category) : outcome jsstr :=
  match c with
  | Price => bind_outcome (ratio_at cur $"ModelPrice" model) (fun v => Ret (t $"固定价格" ++ $" : " ++ String_val v))
  | _ => bind_outcome (ratio_at cur $"ModelRatio" model) (fun a =>
         bind_outcome (ratio_at cur $"CompletionRatio" model) (fun b => Ret (pair_text a b)))
  end.

Definition new_text (ratios : object) (c : category) : jsstr :=
  match c with
  | Price => t $"固定价格" ++ $" : " ++ String_val (default VUndef (prop $"model_price" ratios))
  | _ => pair_text (default VUndef (prop $"model_ratio" ratios)) (default VUndef (prop $"completion_ratio" ratios))
  end.

Definition conflict_of (d : diffs) (cur : list (jsstr * val)) (mr : jsstr * object) : outcome (list conflict) :=
  bind_outcome (getLocalBillingCategory cur mr.1) (fun localCat =>
  match localCat with
  | Some lc =>
    if bool_decide (newCat mr.2 <> Tiered) && bool_decide (lc <> newCat mr.2) then
      bind_outcome (current_text cur mr.1 lc) (fun text =>
      Ret [Conflict (join $", " (uniq (map (fun kv => findSourceChannel d mr.1 kv.1 kv.2) mr.2))) mr.1 text (new_text mr.2 (newCat mr.2))])
    else Ret []
  | None => Ret []
  end).

Fixpoint conflicts_of (d : diffs) (cur : list (jsstr * val)) (res : resolved) : outcome (list conflict) :=
  match res with
  | [] => Ret []
  | mr :: r => bind_outcome (conflict_of d cur mr) (fun a => bind_outcome (conflicts_of d cur r) (fun b => Ret (a ++ b)))
  end.

End Texts.

Definition finals := list (jsstr * object).

Definition delete_in (model : jsstr) (k : jsstr) (f : finals) : finals :=
  match prop k f with Some o => prop_set k (prop_delete model o) f | None => f end.

Definition written (ratioType : jsstr) (v : val) : val := if mem ratioType numericSyncFields then VNum (parseFloat (String_val v)) else v.

(** [finalRatios[optionKey][model] = ...]; there is no such object for an unknown field. *)
Definition write_field (model : jsstr) (f : outcome finals) (kv : jsstr * val) : outcome finals :=
  bind_outcome f (fun f =>
  let k := optionKeyBySyncField kv.1 in
  match prop k f with Some o => Ret (prop_set k (prop_set model (written kv.1 kv.2) o) f) | None => Throw end).

Definition write_model (f : outcome finals) (mr : jsstr * object) : outcome finals :=
  bind_outcome f (fun f =>
  let f1 := if hasPrice mr.2 then fold_left (fun f k => delete_in mr.1 k f) RATIO_KEYS f else f in
  let f2 := if hasRatio mr.2 then delete_in mr.1 $"ModelPrice" f1 else f1 in
  fold_left (write_field mr.1) mr.2 (Ret f2)).

Definition finalRatios (cur : list (jsstr * val)) (res : resolved) : outcome finals :=
  fold_left write_model res (Ret (map (fun kv => (kv.1, entries kv.2)) cur)).

(** The requests: every option, written with two blanks of indentation. *)
Definition updates (f : finals) : list (jsstr * jsstr) := map (fun kv => (kv.1, default [] (stringify2 (VObj kv.2)))) f.

(** The fields that were written are no longer differences. *)
Definition drop_field (model : jsstr) (d : diffs) (ratioType : jsstr) : diffs :=
  match prop model d with
  | Some fields =>
    if has_prop ratioType fields then
      match prop_delete ratioType fields with [] => prop_delete model d | fields' => prop_set model fields' d end
    else d
  | None => d
  end.
Definition drop_model (d : diffs) (mr : jsstr * object) : diffs := fold_left (drop_field mr.1) (keys mr.2) d.
Definition drop_synced (res : resolved) (d : diffs) : diffs := fold_left drop_model res d.

(** ** The page *)

(** Requests under way; a sync keeps the picks it was started with. *)
Inductive in_flight := PChannels | PFetch (upstreams : list (channel * jsstr)) | PSync (res : resolved) (puts : list (jsstr * jsstr)) (dialog : bool).

(** What the server answers; [None] stands for a request that failed. *)
Definition channels_answer := option (list channel).
Definition fetch_answer := option diffs.
Definition sync_answer := option (list bool).

Inductive event :=
| EOpen | ESelect (ids : list Z) | EEndpoint (id : Z) (e : jsstr) | EClose | EConfirmChannels
| EChannels (a : channels_answer) | EFetched (a : fetch_answer) | ESynced (a : sync_answer)
| ECheck (upName : jsstr) (cell : jsstr * jsstr) (checked : bool) | EBulk (upName : jsstr) (checked : bool)
| EApply | EDialogOk | EDialogCancel
| ESearch (k : jsstr) | EFilter (f : jsstr) | EPage (p z : Z) | EOptions (o : list (jsstr * jsstr)).

Definition set_fl (f : flags) (s : page) : page := Page f (ch s) (vw s) (differences s) (resolutions s) (conflictItems s) (options s).
Definition set_ch (c : chans) (s : page) : page := Page (fl s) c (vw s) (differences s) (resolutions s) (conflictItems s) (options s).
Definition set_vw (v : view) (s : page) : page := Page (fl s) (ch s) v (differences s) (resolutions s) (conflictItems s) (options s).
Definition set_res (d : diffs) (r : resolved) (s : page) : page := Page (fl s) (ch s) (vw s) d r (conflictItems s) (options s).

Definition set_modal (b : bool) (s : page) : page :=
  let f := fl s in set_fl (Flags b (loading f) (syncLoading f) (confirmLoading f) (confirmVisible f) (hasSynced f)) s.
Definition set_loading (b : bool) (s : page) : page :=
  let f := fl s in set_fl (Flags (modalVisible f) b (syncLoading f) (confirmLoading f) (confirmVisible f) (hasSynced f)) s.
Definition set_syncLoading (b : bool) (s : page) : page :=
  let f := fl s in set_fl (Flags (modalVisible f) (loading f) b (confirmLoading f) (confirmVisible f) (hasSynced f)) s.
Definition set_confirm (l v : bool) (s : page) : page :=
  let f := fl s in set_fl (Flags (modalVisible f) (loading f) (syncLoading f) l v (hasSynced f)) s.
Definition set_synced (s : page) : page :=
  let f := fl s in set_fl (Flags (modalVisible f) (loading f) (syncLoading f) (confirmLoading f) (confirmVisible f) true) s.

Definition disabled (s : page) : bool := loading (fl s) || syncLoading (fl s) || confirmLoading (fl s).
(** A dialog covers the page. *)
Definition covered (s : page) : bool := modalVisible (fl s) || confirmVisible (fl s).

(** The answer to fetchAllChannels. *)
Definition on_channels (a : channels_answer) (s : page) : page :=
  set_loading false
    match a with
    | Some cs => set_ch (Chans cs (selectedChannelIds (ch s)) (merge_endpoints cs (channelEndpoints (ch s)))) s
    | None => s
    end.

Definition confirmChannelSelection (s : page) : page * list in_flight :=
  let sel := List.filter (fun c => existsb (Z.eqb (ch_id c)) (selectedChannelIds (ch s))) (allChannels (ch s)) in
  match sel with
  | [] => (s, [])
  | _ =>
    let endpoint c := let e := text_at (ch_id c) (channelEndpoints (ch s)) in if nonempty e then e else DEFAULT_ENDPOINT in
    (set_syncLoading true (set_modal false s), [PFetch (map (fun c => (c, endpoint c)) sel)])
  end.

(** The answer to fetchRatiosFromChannels. *)
Definition on_fetch (a : fetch_answer) (s : page) : page :=
  set_syncLoading false match a with Some d => set_synced (set_res d [] s) | None => s end.

(** The part of performSync before its requests are answered. *)
Definition performSync (dialog : bool) (cur : list (jsstr * val)) (s : page) : outcome (page * list in_flight) :=
  bind_outcome (finalRatios cur (resolutions s)) (fun f => Ret (set_loading true s, [PSync (resolutions s) (updates f) dialog])).

Definition on_sync (res : resolved) (dialog : bool) (a : sync_answer) (s : page) : page :=
  let ok := match a with Some l => forallb id l | None => false end in
  let s1 := if ok then set_res (drop_synced res (differences s)) [] s else s in
  let s2 := set_loading false s1 in
  if dialog then set_confirm false (if ok then false else confirmVisible (fl s2)) s2 else s2.

Section Page.
Context (t : jsstr -> jsstr).

(** A promise that is rejected leaves what was set before. *)
Definition applySync (s : page) : page * list in_flight :=
  match bind_outcome (currentRatios (options s)) (fun cur =>
        bind_outcome (conflicts_of t (differences s) cur (resolutions s)) (fun l =>
        match l with
        | [] => performSync false cur s
        | _ => let f := fl s in
               Ret (Page (Flags (modalVisible f) (loading f) (syncLoading f) (confirmLoading f) true (hasSynced f)) (ch s) (vw s)
                      (differences s) (resolutions s) l (options s), [])
        end)) with
  | Ret r => r
  | Throw => (s, [])
  end.

Definition confirm_ok (s : page) : page * list in_flight :=
  let s1 := set_confirm true (confirmVisible (fl s)) s in
  match currentRatios (options s) with
  | Throw => (s1, [])
  | Ret cur => match performSync true cur s1 with Ret r => r | Throw => (s, []) end
  end.

Definition world := (page * list in_flight)%type.

(** One event; [None] when the page does not allow it. *)
Definition step (w : world) (e : event) : option world :=
  let '(s, ps) := w in
  let go (r : page * list in_flight) := Some (r.1, ps ++ r.2) in
  match e with
  | EOpen =>
    if disabled s || covered s then None
    else go match allChannels (ch s) with
            | [] => (set_loading true (set_modal true s), [PChannels])
            | _ => (set_modal true s, [])
            end
  | ESelect ids => if modalVisible (fl s) then go (set_ch (Chans (allChannels (ch s)) ids (channelEndpoints (ch s))) s, []) else None
  | EEndpoint i x =>
    if modalVisible (fl s) then go (set_ch (Chans (allChannels (ch s)) (selectedChannelIds (ch s)) (<[i := x]> (channelEndpoints (ch s)))) s, [])
    else None
  | EClose => if modalVisible (fl s) then go (set_modal false s, []) else None
  | EConfirmChannels => if modalVisible (fl s) then go (confirmChannelSelection s) else None
  | EChannels a => match ps with PChannels :: r => Some (on_channels a s, r) | _ => None end
  | EFetched a => match ps with PFetch _ :: r => Some (on_fetch a s, r) | _ => None end
  | ESynced a => match ps with PSync res _ dialog :: r => Some (on_sync res dialog a s, r) | _ => None end
  | ECheck upName cell checked =>
    if disabled s || covered s || negb (selectable (differences s) upName cell) then None
    else go (set_res (differences s) (check_cell (differences s) upName checked cell (resolutions s)) s, [])
  | EBulk upName checked =>
    if disabled s || covered s then None
    else go (set_res (differences s) (handleBulkSelect (vw s) (differences s) upName checked (resolutions s)) s, [])
  | EApply => if disabled s || covered s || match resolutions s with [] => true | _ => false end then None else go (applySync s)
  | EDialogOk => if confirmVisible (fl s) && negb (confirmLoading (fl s)) then go (confirm_ok s) else None
  | EDialogCancel =>
    if confirmVisible (fl s) && negb (confirmLoading (fl s)) then go (set_confirm (confirmLoading (fl s)) false s, []) else None
  | ESearch k => if disabled s || covered s then None else go (set_vw (View 1 (pageSize (vw s)) k (ratioTypeFilter (vw s))) s, [])
  | EFilter f => if disabled s || covered s then None else go (set_vw (View 1 (pageSize (vw s)) (searchKeyword (vw s)) f) s, [])
  | EPage p z => go (set_vw (View p z (searchKeyword (vw s)) (ratioTypeFilter (vw s))) s, [])
  | EOptions o => go (Page (fl s) (ch s) (vw s) (differences s) (resolutions s) (conflictItems s) o, [])
  end.

End Page.

Definition page0 (opts : list (jsstr * jsstr)) : page :=
  Page (Flags false false false false false false) (Chans [] [] ∅) (View 1 10 [] []) [] [] [] opts.

End RatioSync.
