(* ===== verification/RatioSyncProofs.v ===== *)
(** * What the picks of a price synchronisation are, and what is written

    Consistency of the picks in every reachable state of the page, the exact contents of
    the written options, the dialog, and two properties of the header ticks. *)
From stdpp Require Import gmap.
From S2P Require Import Prelude JSNum JSValue Json ClientHelpers Channels RatioSync.
#[local] Open Scope Z_scope.
#[local] Arguments js _ : simpl never.

Module RatioSyncProofs.
Import RatioSync.

(** ** Property lists *)

Lemma elem_of_prop_delete {V} k k' (o : list (jsstr * V)) : k' ∈ keys (prop_delete k o) <-> k' <> k /\ k' ∈ keys o.
Proof. rewrite <- !prop_Some_keys, prop_delete_lookup. destruct (str_eqb_spec k' k) as [->|]; [|tauto]. split; [by intros [? ?]|tauto]. Qed.

Lemma prop_delete_NoDup {V} k (o : list (jsstr * V)) : NoDup (keys o) -> NoDup (keys (prop_delete k o)).
Proof. apply NoDup_map_lfilter. Qed.

Lemma keys_filter {V} (c : jsstr -> bool) (o : list (jsstr * V)) k :
  k ∈ keys (List.filter (fun kv => c kv.1) o) <-> c k = true /\ k ∈ keys o.
Proof.
  unfold keys. rewrite !list_elem_of_fmap. split.
  - intros ([k' v] & -> & [Hc H]%elem_of_lfilter). split; [done|]. by exists (k', v).
  - intros [Hc ([k' v] & -> & H)]. exists (k', v). split; [done|]. by apply elem_of_lfilter.
Qed.

Lemma prop_filter {V} (c : jsstr -> bool) (o : list (jsstr * V)) k v :
  prop k (List.filter (fun kv => c kv.1) o) = Some v -> c k = true /\ prop k o = Some v.
Proof.
  induction o as [|[k' v'] o IH]; cbn; [done|].
  destruct (c k') eqn:E; cbn; destruct (str_eqb_spec k k') as [->|]; [by intros [= ->]|done| |done].
  intros H. destruct (IH H). congruence.
Qed.

Lemma mem_elem x l : mem x l = true -> x ∈ l.
Proof. unfold mem. rewrite existsb_exists. intros (y & Hy & ->%str_eqb_eq). by apply list_elem_of_In. Qed.

(** ** Consistent picks *)

(** A value some upstream offers, or the mode that goes with an expression. *)
Definition offered (d : diffs) (m rt : jsstr) (v : val) : Prop :=
  (exists up, getUpstreamValue d m rt up = v /\ isSelectableUpstreamValue v = true) \/ (rt = $"billing_mode" /\ v = VStr $"tiered_expr").

(** The picks of a model. *)
Record entry_fine (d : diffs) (m : jsstr) (r : object) : Prop := EntryFine {
  ef_some : r <> [];
  ef_keys : NoDup (keys r);
  ef_kind : $"model_price" ∈ keys r -> Forall (fun rt => getBillingCategory rt <> Ratio) (keys r);
  ef_pair : $"billing_expr" ∈ keys r -> $"billing_mode" ∈ keys r;
  ef_offered : forall rt v, prop rt r = Some v -> offered d m rt v
}.

Definition res_fine (d : diffs) (res : resolved) : Prop :=
  NoDup (keys res) /\ forall m r, prop m res = Some r -> entry_fine d m r.

(** Upstreams have names. *)
Definition named (d : diffs) : Prop := forall m rt v, getUpstreamValue d m rt [] = v -> v = VUndef.

Lemma selectable_facts d up m rt :
  named d -> selectable d up (m, rt) = true ->
  nonempty up = true /\ getPreferredSyncField d m rt up = rt /\ isSelectableUpstreamValue (getUpstreamValue d m rt up) = true
  /\ (isSelectableUpstreamValue (getUpstreamValue d m $"billing_expr" up) = true -> rt = $"billing_expr").
Proof.
  intros Hn H. unfold selectable in H. cbn [fst snd] in H. bsplit. rewrite str_eqb_eq in *. split; [|split; [done|split; [done|]]].
  - destruct up; [|done]. pose proof (Hn m rt _ eq_refl) as E. rewrite E in *. done.
  - intros He. unfold getPreferredSyncField in *. rewrite He in *. destruct (str_eqb_spec rt $"billing_expr"); [done|]. by destruct rt.
Qed.

(** The same without the pairing of mode and expression. *)
Record body_fine (d : diffs) (m : jsstr) (r : object) : Prop := BodyFine {
  bf_keys : NoDup (keys r);
  bf_kind : $"model_price" ∈ keys r -> Forall (fun rt => getBillingCategory rt <> Ratio) (keys r);
  bf_offered : forall rt v, prop rt r = Some v -> offered d m rt v
}.

Lemma entry_body d m r : entry_fine d m r -> body_fine d m r.
Proof. intros [_ H1 H2 _ H3]. by split. Qed.

Lemma body_entry d m r : r <> [] -> ($"billing_expr" ∈ keys r -> $"billing_mode" ∈ keys r) -> body_fine d m r -> entry_fine d m r.
Proof. intros Hn Hp [H1 H2 H3]. by split. Qed.

Lemma body_nil d m : body_fine d m [].
Proof. split; [constructor|constructor|done]. Qed.

Lemma price_category rt : getBillingCategory rt = Price <-> rt = $"model_price".
Proof.
  unfold getBillingCategory. destruct (str_eqb_spec rt $"model_price"); [done|]. split; [|done]. by destruct (_ || _).
Qed.

(** Picks of another kind are given up. *)
Lemma body_kept d m rt r : body_fine d m r -> body_fine d m (List.filter (fun kv => compatible (getBillingCategory rt) kv.1) r).
Proof.
  intros [Hk Hkind Ho]. split.
  - by apply NoDup_map_lfilter.
  - intros [_ Hp]%keys_filter. specialize (Hkind Hp). rewrite Forall_forall in *. intros k [_ Hin]%keys_filter. by apply Hkind.
  - intros k v [_ H]%prop_filter. by apply Ho.
Qed.

Lemma body_set d m rt v r :
  body_fine d m r -> offered d m rt v ->
  (getBillingCategory rt = Ratio -> $"model_price" ∉ keys r) ->
  (getBillingCategory rt = Price -> Forall (fun k => getBillingCategory k <> Ratio) (keys r)) ->
  body_fine d m (prop_set rt v r).
Proof.
  intros [Hk Hkind Ho] Hv Hr Hp. split.
  - by apply prop_set_NoDup.
  - intros H. apply Forall_forall. intros k Hin. rewrite elem_of_prop_set in H, Hin.
    destruct H as [<-|H].
    + specialize (Hp eq_refl). rewrite Forall_forall in Hp. destruct Hin as [->|Hin]; [done|by apply Hp].
    + destruct Hin as [->|Hin]; [intros E; by apply Hr|]. specialize (Hkind H). rewrite Forall_forall in Hkind. by apply Hkind.
  - intros k w. rewrite prop_set_lookup. destruct (str_eqb_spec k rt) as [->|]; [by intros [= <-]|apply Ho].
Qed.

Lemma body_pick d m rt v r (c := getBillingCategory rt) :
  body_fine d m r -> offered d m rt v -> body_fine d m (prop_set rt v (List.filter (fun kv => compatible c kv.1) r)).
Proof.
  intros Hr Hv. apply body_set; [by apply body_kept|done| |].
  - intros E [Hc _]%keys_filter. unfold c in Hc. by rewrite E in Hc.
  - intros E. apply Forall_forall. intros k [Hc _]%keys_filter Ek. unfold c, compatible in Hc. by rewrite E, Ek in Hc.
Qed.

Lemma body_tiered d m rt v r : body_fine d m r -> getBillingCategory rt = Tiered -> offered d m rt v -> body_fine d m (prop_set rt v r).
Proof. intros Hr E Hv. apply body_set; [done|done|by rewrite E|by rewrite E]. Qed.

Lemma offered_up d m rt up : isSelectableUpstreamValue (getUpstreamValue d m rt up) = true -> offered d m rt (getUpstreamValue d m rt up).
Proof. left. by exists up. Qed.

Lemma tiered_fine d m rt up r :
  body_fine d m r -> rt ∈ keys r -> ($"billing_expr" ∈ keys r -> $"billing_mode" ∈ keys r \/ rt = $"billing_expr") ->
  (isSelectableUpstreamValue (getUpstreamValue d m $"billing_expr" up) = true -> rt = $"billing_expr") ->
  entry_fine d m (with_tiered d m rt up r).
Proof.
  intros Hb Hin Hp He. unfold with_tiered.
  set (r1 := if isSelectableUpstreamValue (getUpstreamValue d m $"billing_mode" up) then _ else _).
  assert (H1 : body_fine d m r1 /\ rt ∈ keys r1 /\ ($"billing_expr" ∈ keys r1 -> $"billing_mode" ∈ keys r1) /\ (rt = $"billing_expr" -> $"billing_mode" ∈ keys r1)).
  { unfold r1. destruct (isSelectableUpstreamValue (getUpstreamValue d m $"billing_mode" up)) eqn:Em; [|destruct (str_eqb_spec rt $"billing_expr") as [E|E]].
    - split; [apply body_tiered; [done|done|by apply offered_up]|]. rewrite !elem_of_prop_set. tauto.
    - split; [apply body_tiered; [done|done|by right]|]. rewrite !elem_of_prop_set. tauto.
    - tauto. }
  destruct H1 as (Hb1 & Hin1 & Hp1 & Hm1). destruct (isSelectableUpstreamValue (getUpstreamValue d m $"billing_expr" up)) eqn:Ee.
  - apply body_entry; [| |apply body_tiered; [done|done|by apply offered_up]].
    + intros E. assert (H : $"billing_expr" ∈ keys (prop_set $"billing_expr" (getUpstreamValue d m $"billing_expr" up) r1)) by (apply elem_of_prop_set; by left).
      rewrite E in H. by apply not_elem_of_nil in H.
    + rewrite !elem_of_prop_set. intros _. right. apply Hm1, He. done.
  - apply body_entry; [|done|done]. intros E. rewrite E in Hin1. by apply not_elem_of_nil in Hin1.
Qed.

Lemma select_fine d m rt up res :
  named d -> selectable d up (m, rt) = true -> res_fine d res -> res_fine d (selectValue d m rt (getUpstreamValue d m rt up) up res).
Proof.
  intros Hn Hs [Hk Hf]. destruct (selectable_facts d up m rt Hn Hs) as (Hup & Hpref & Hv & He).
  split; [by apply prop_set_NoDup|]. intros m' r'. unfold selectValue. rewrite Hup, Hpref, str_eqb_refl, prop_set_lookup.
  destruct (str_eqb_spec m' m) as [->|]; [|apply Hf]. intros [= <-].
  set (r0 := default [] (prop m res)).
  assert (H0 : body_fine d m r0 /\ ($"billing_expr" ∈ keys r0 -> $"billing_mode" ∈ keys r0)).
  { unfold r0. destruct (prop m res) as [r|] eqn:E; [|split; [apply body_nil|intros H; by apply not_elem_of_nil in H]].
    pose proof (Hf m r E) as H. split; [by apply entry_body|by apply H]. }
  destruct H0 as [Hb Hp]. set (r1 := prop_set rt _ _).
  assert (H1 : body_fine d m r1) by (apply body_pick; [done|by apply offered_up]).
  assert (Hin : rt ∈ keys r1) by (apply elem_of_prop_set; by left).
  assert (Hp1 : $"billing_expr" ∈ keys r1 -> $"billing_mode" ∈ keys r1 \/ rt = $"billing_expr").
  { unfold r1. rewrite !elem_of_prop_set, !keys_filter. intros [H|[_ H]]; [by right|]. left. right. split; [|by apply Hp].
    unfold compatible. rewrite !orb_true_iff. left. by right. }
  rewrite andb_true_r. case_bool_decide as Ec; [by apply tiered_fine|]. apply body_entry; [| |done].
  - intros E. rewrite E in Hin. by apply not_elem_of_nil in Hin.
  - intros H. destruct (Hp1 H) as [|E]; [done|]. by rewrite E in Ec.
Qed.

(** Fields are removed; mode and expression together. *)
Lemma body_delete d m rt r : body_fine d m r -> body_fine d m (prop_delete rt r).
Proof.
  intros [Hk Hkind Ho]. split; [by apply prop_delete_NoDup| |].
  - intros [_ Hp]%elem_of_prop_delete. specialize (Hkind Hp). rewrite Forall_forall in *. intros k [_ H]%elem_of_prop_delete. by apply Hkind.
  - intros k v. rewrite prop_delete_lookup. destruct (k =s? rt); [done|apply Ho].
Qed.

Lemma delete_fine d m rt res : res_fine d res -> res_fine d (deleteResolutionField res m rt).
Proof.
  intros [Hk Hf]. unfold deleteResolutionField. destruct (prop m res) as [r|] eqn:E; [|done]. pose proof (Hf m r E) as Hr.
  set (r1 := prop_delete rt r). set (r2 := if rt =s? $"billing_expr" then _ else r1). set (r3 := if rt =s? $"billing_mode" then _ else r2).
  assert (Hb : body_fine d m r3).
  { apply entry_body in Hr. unfold r3, r2, r1. repeat destruct (_ =s? _); by repeat apply body_delete. }
  assert (Hp : $"billing_expr" ∈ keys r3 -> $"billing_mode" ∈ keys r3).
  { pose proof (ef_pair d m r Hr) as Hp. unfold r3, r2, r1.
    destruct (str_eqb_spec rt $"billing_mode") as [->|Hm].
    - rewrite !elem_of_prop_delete. tauto.
    - destruct (str_eqb_spec rt $"billing_expr") as [->|He]; rewrite !elem_of_prop_delete; [tauto|]. intros [_ H]. split; [congruence|by apply Hp]. }
  destruct r3 as [|x r3'] eqn:E3.
  - split; [by apply prop_delete_NoDup|]. intros m' r'. rewrite prop_delete_lookup. destruct (m' =s? m); [done|apply Hf].
  - split; [by apply prop_set_NoDup|]. intros m' r'. rewrite prop_set_lookup. destruct (str_eqb_spec m' m) as [->|]; [|apply Hf].
    intros [= <-]. by apply body_entry.
Qed.

Lemma fold_invariant {A B} (P : A -> Prop) (f : A -> B -> A) l a : P a -> (forall a b, P a -> P (f a b)) -> P (fold_left f l a).
Proof. intros Ha Hf. revert a Ha. induction l as [|b l IH]; intros a Ha; cbn; auto. Qed.

Lemma bulk_fine v d up checked res : named d -> res_fine d res -> res_fine d (handleBulkSelect v d up checked res).
Proof.
  intros Hn H. unfold handleBulkSelect. destruct checked; apply fold_invariant; try done; intros a [m rt] Ha.
  - unfold select_cell. destruct (selectable d up (m, rt)) eqn:E; [|done]. by apply select_fine.
  - unfold deselect_cell. destruct (getUpstreamValue _ _ _ _); try done; by apply delete_fine.
Qed.

Lemma check_fine d up checked cell res :
  named d -> selectable d up cell = true -> res_fine d res -> res_fine d (check_cell d up checked cell res).
Proof. intros Hn Hs H. destruct cell as [m rt]. unfold check_cell. destruct checked; [by apply select_fine|by apply delete_fine]. Qed.

Lemma no_res_fine d : res_fine d [].
Proof. split; [constructor|done]. Qed.

(** ** Reachable states *)

(** The answers that carry differences have named upstreams. *)
Definition event_fine (e : event) : Prop := match e with EFetched (Some d) => named d | _ => True end.

Section Reach.
Context (t : jsstr -> jsstr).

Inductive reach (opts : list (jsstr * jsstr)) : world -> Prop :=
| reach_init : reach opts (page0 opts, [])
| reach_step w e w' : reach opts w -> event_fine e -> step t w e = Some w' -> reach opts w'.

(** At most one request is under way, a flag shows it, and a sync writes the picks that are shown. *)
Definition request_fine (s : page) (ps : list in_flight) : Prop :=
  match ps with
  | [] => loading (fl s) = false /\ syncLoading (fl s) = false
  | [PChannels] => loading (fl s) = true /\ syncLoading (fl s) = false /\ allChannels (ch s) = [] /\ confirmVisible (fl s) = false
  | [PFetch _] => loading (fl s) = false /\ syncLoading (fl s) = true /\ modalVisible (fl s) = false /\ confirmVisible (fl s) = false
  | [PSync res _ dialog] =>
    loading (fl s) = true /\ syncLoading (fl s) = false /\ modalVisible (fl s) = false /\ res = resolutions s /\ confirmLoading (fl s) = dialog
    /\ confirmVisible (fl s) = dialog
  | _ => False
  end.

Record world_fine (w : world) : Prop := WorldFine {
  wf_named : named (differences w.1);
  wf_res : res_fine (differences w.1) (resolutions w.1);
  wf_request : request_fine w.1 w.2;
  wf_dialogs : modalVisible (fl w.1) && confirmVisible (fl w.1) = false
}.

End Reach.

Lemma drop_field_value m d rt m' rt' up :
  getUpstreamValue (drop_field m d rt) m' rt' up = VUndef \/ getUpstreamValue (drop_field m d rt) m' rt' up = getUpstreamValue d m' rt' up.
Proof.
  unfold drop_field. destruct (prop m d) as [fields|] eqn:E; [|by right]. destruct (has_prop rt fields); [|by right].
  unfold getUpstreamValue. destruct (prop_delete rt fields) as [|x l] eqn:Ed.
  - rewrite prop_delete_lookup. destruct (str_eqb_spec m' m) as [->|]; [by left|by right].
  - rewrite prop_set_lookup. destruct (str_eqb_spec m' m) as [->|]; [|by right]. rewrite <- Ed, prop_delete_lookup, E.
    destruct (rt' =s? rt); [by left|by right].
Qed.

Lemma drop_synced_named res d : named d -> named (drop_synced res d).
Proof.
  intros H. unfold drop_synced. apply fold_invariant; [done|]. clear d H. intros d mr H. unfold drop_model. apply fold_invariant; [done|].
  clear d H. intros d rt H m' rt' v <-. destruct (drop_field_value mr.1 d rt m' rt' []) as [E|E]; [done|]. rewrite E. by eapply H.
Qed.

Lemma request_none s : request_fine s [] -> forall l, request_fine s l -> l = [].
Proof. intros [H1 H2] l H. destruct l as [|[] [|? ?]]; cbn in H; try tauto; destruct H as (? & ? & _); congruence. Qed.

(** A page that is not disabled waits for nothing. *)
Lemma idle_page s ps : request_fine s ps -> disabled s = false -> ps = [].
Proof.
  unfold disabled. intros H Hd. bsplit. destruct ps as [|[] [|? ?]]; cbn in H; try tauto; destruct H as (? & ? & _); congruence.
Qed.

Lemma dialog_idle s ps : request_fine s ps -> confirmVisible (fl s) = true -> confirmLoading (fl s) = false -> ps = [].
Proof.
  intros H Hv Hl. destruct ps as [|[| |res puts dialog] [|? ?]]; cbn in H; try tauto; destruct H as (? & ? & ? & H); try congruence.
  destruct H as (_ & ? & ?). congruence.
Qed.

(** The flags that matter to the requests. *)
Lemma request_same s s' ps :
  fl s' = fl s -> allChannels (ch s') = allChannels (ch s) -> resolutions s' = resolutions s -> request_fine s ps -> request_fine s' ps.
Proof. unfold request_fine. intros -> -> ->. done. Qed.

Lemma request_quiet s : disabled s = false -> request_fine s [].
Proof. unfold disabled. intros H. by bsplit. Qed.

Section Reachable.
Context (t : jsstr -> jsstr).

Lemma performSync_fine dialog cur s s' ps' :
  world_fine (s, []) -> modalVisible (fl s) = false -> confirmLoading (fl s) = dialog -> confirmVisible (fl s) = dialog ->
  performSync dialog cur s = Ret (s', ps') -> world_fine (s', ps').
Proof using Type.
  intros [Hn Hr Hq Hd] Hm Hc Hv. unfold performSync. destruct (finalRatios cur (resolutions s)) as [f|]; [|done]. cbn [bind_outcome].
  intros E%Ret_inj. injection E as <- <-. cbn in Hq. split; [done|done| |cbn; by rewrite Hm]. cbn. tauto.
Qed.

Lemma applySync_fine s : world_fine (s, []) -> disabled s = false -> covered s = false -> world_fine ((applySync t s).1, (applySync t s).2).
Proof using Type.
  intros Hw Hd Hc. unfold applySync, disabled, covered in *. bsplit.
  destruct (currentRatios (options s)) as [cur|]; [|done]. cbn [bind_outcome].
  destruct (conflicts_of t (differences s) cur (resolutions s)) as [l|]; [|done]. cbn [bind_outcome]. destruct l as [|c l].
  - destruct (performSync false cur s) as [[s' ps']|] eqn:E; [|done]. by eapply performSync_fine.
  - cbn [fst snd]. destruct Hw as [Hn Hr Hq Hdd]. split; [done|done|exact Hq|]. cbn. by match goal with H : modalVisible _ = false |- _ => rewrite H end.
Qed.

Lemma confirm_ok_fine s :
  world_fine (s, []) -> confirmVisible (fl s) = true -> confirmLoading (fl s) = false -> world_fine ((confirm_ok s).1, (confirm_ok s).2).
Proof using Type.
  intros Hw Hv Hl. assert (Hm : modalVisible (fl s) = false) by (pose proof (wf_dialogs _ Hw) as H; cbn in H; rewrite Hv, andb_true_r in H; done).
  unfold confirm_ok. assert (Hw1 : world_fine (set_confirm true (confirmVisible (fl s)) s, [])).
  { destruct Hw as [Hn Hr Hq Hdd]. split; [done|done|exact Hq|exact Hdd]. }
  destruct (currentRatios (options s)) as [cur|]; [|done].
  destruct (performSync true cur _) as [[s' ps']|] eqn:E; [|done]. by eapply (performSync_fine true); [exact Hw1| | | |exact E].
Qed.

Lemma on_sync_fine res dialog a s puts r :
  world_fine (s, PSync res puts dialog :: r) -> world_fine (on_sync res dialog a s, r).
Proof using Type.
  intros [Hn Hr Hq Hd]. destruct r as [|? ?]; [|done]. cbn in Hn, Hr, Hq, Hd. destruct Hq as (H1 & H2 & H3 & H4 & H5 & H6). unfold on_sync.
  set (ok := match a with Some l => forallb id l | None => false end). clearbody ok.
  destruct dialog, ok; split; cbn; rewrite ?H2, ?H3; try done; try (by apply drop_synced_named); try apply no_res_fine; by rewrite H2.
Qed.

Lemma confirm_channels_fine s ps :
  world_fine (s, ps) -> modalVisible (fl s) = true -> world_fine ((confirmChannelSelection s).1, ps ++ (confirmChannelSelection s).2).
Proof using Type.
  intros [Hn Hr Hq Hd] Hm. unfold confirmChannelSelection. destruct (List.filter _ (allChannels (ch s))) as [|c l] eqn:E.
  - rewrite app_nil_r. by split.
  - cbn in Hn, Hr, Hq, Hd. assert (ps = []) as ->.
    { destruct ps as [|[] [|? ?]]; cbn in Hq; try tauto; [destruct Hq as (_ & _ & Ha & _); by rewrite Ha in E| |]; destruct Hq as (_ & _ & ? & _); congruence. }
    cbn in Hq. rewrite Hm in Hd. cbn in Hd. split; cbn; try done. tauto.
Qed.

Lemma on_channels_fine a s r : world_fine (s, PChannels :: r) -> world_fine (on_channels a s, r).
Proof using Type.
  intros [Hn Hr Hq Hd]. destruct r as [|? ?]; [|done]. cbn in Hq. destruct Hq as (_ & H2 & _ & H4). destruct a; split; cbn; try done; by rewrite H4, andb_false_r.
Qed.

Lemma on_fetch_fine a s u r : world_fine (s, PFetch u :: r) -> event_fine (EFetched a) -> world_fine (on_fetch a s, r).
Proof using Type.
  intros [Hn Hr Hq Hd] He. destruct r as [|? ?]; [|done]. cbn in Hq. destruct Hq as (H1 & _ & H3 & H4).
  destruct a; split; cbn; try done; try apply no_res_fine; by rewrite H3.
Qed.

Ltac idle Hw :=
  repeat match goal with
  | H : (if ?b then None else _) = Some _ |- _ => destruct b eqn:?; [done|]
  | H : (if ?b then _ else None) = Some _ |- _ => destruct b eqn:?; [|done]
  | H : Some _ = Some _ |- _ => injection H as <-
  end; bsplit;
  repeat match goal with H : disabled ?s = false, ps : list in_flight |- _ => assert (ps = []) as -> by (exact (idle_page s ps (wf_request _ Hw) H)); revert H end; intros.

Lemma step_fine w e w' : world_fine w -> event_fine e -> step t w e = Some w' -> world_fine w'.
Proof using Type.
  destruct w as [s ps]. intros Hw He. destruct e; cbn [step]; intros H.
  - idle Hw. unfold covered in *. bsplit. destruct Hw as [Hn Hr Hq Hd]. cbn in *.
    destruct (allChannels (ch s)) eqn:E; split; cbn; try done; try tauto; by match goal with H : confirmVisible _ = false |- _ => rewrite H end.
  - idle Hw. destruct Hw as [Hn Hr Hq Hd]. rewrite app_nil_r. by split.
  - idle Hw. destruct Hw as [Hn Hr Hq Hd]. rewrite app_nil_r. by split.
  - idle Hw. destruct Hw as [Hn Hr Hq Hd]. rewrite app_nil_r. split; [done|done| |done]. cbn in *.
    destruct ps as [|[] [|? ?]]; cbn in *; try done; naive_solver.
  - idle Hw. by apply confirm_channels_fine.
  - destruct ps as [|[] r]; try done. injection H as <-. by apply on_channels_fine.
  - destruct ps as [|[] r]; try done. injection H as <-. by eapply on_fetch_fine.
  - destruct ps as [|[] r]; try done. injection H as <-. by eapply on_sync_fine.
  - idle Hw. destruct Hw as [Hn Hr Hq Hd]. split; [done| |done|done]. by apply check_fine.
  - idle Hw. destruct Hw as [Hn Hr Hq Hd]. split; [done| |done|done]. by apply bulk_fine.
  - idle Hw. cbn [app]. by apply applySync_fine.
  - idle Hw. assert (ps = []) as -> by (eapply dialog_idle; [exact (wf_request _ Hw)|done|done]). cbn [app]. by apply confirm_ok_fine.
  - idle Hw. destruct Hw as [Hn Hr Hq Hd]. assert (ps = []) as -> by (by eapply dialog_idle). split; [done|done|done|]. cbn. by rewrite andb_false_r.
  - idle Hw. destruct Hw as [Hn Hr Hq Hd]. by split.
  - idle Hw. destruct Hw as [Hn Hr Hq Hd]. by split.
  - idle Hw. destruct Hw as [Hn Hr Hq Hd]. rewrite app_nil_r. by split.
  - idle Hw. destruct Hw as [Hn Hr Hq Hd]. rewrite app_nil_r. by split.
Qed.

End Reachable.

Lemma page0_fine opts : world_fine (page0 opts, []).
Proof. split; [by intros m rt v <-|apply no_res_fine|done|done]. Qed.

Lemma reach_fine t opts w : reach t opts w -> world_fine w.
Proof. induction 1 as [|w e w' _ IH He Hs]; [apply page0_fine|by eapply step_fine]. Qed.

(** C21: whatever the order of clicks and answers, the picks of a model are values an upstream
    offers, never a fixed price together with ratios, an expression only with its mode; and
    a synchronisation under way is the only request and writes the picks that are shown. *)
Theorem reach_picks_consistent t opts w :
  reach t opts w ->
  res_fine (differences w.1) (resolutions w.1)
  /\ (forall res puts dialog, PSync res puts dialog ∈ w.2 -> w.2 = [PSync res puts dialog] /\ res = resolutions w.1).
Proof.
  intros [_ Hr Hq _]%reach_fine. split; [done|]. intros res puts dialog Hin. destruct w as [s ps]. cbn in *.
  destruct ps as [|p [|? ?]]; [by apply not_elem_of_nil in Hin| |by destruct p].
  apply list_elem_of_singleton in Hin as <-. cbn in Hq. tauto.
Qed.

(** ** What is written *)

Lemma option_keys : map optionKeyBySyncField syncFieldOrder = OPTION_KEYS.
Proof. by vm_compute. Qed.

Lemma option_key_known rt : rt ∈ syncFieldOrder -> optionKeyBySyncField rt ∈ OPTION_KEYS.
Proof. intros H. rewrite <- option_keys. by apply list_elem_of_fmap_2. Qed.

Lemma option_keys_NoDup : NoDup OPTION_KEYS.
Proof. apply (bool_decide_eq_true_1 (NoDup OPTION_KEYS)). by vm_compute. Qed.

Lemma option_key_inj rt rt' :
  rt ∈ syncFieldOrder -> rt' ∈ syncFieldOrder -> optionKeyBySyncField rt = optionKeyBySyncField rt' -> rt = rt'.
Proof.
  intros H H' E. apply list_elem_of_lookup in H as [i Hi]. apply list_elem_of_lookup in H' as [j Hj].
  assert (Hij : i = j); [|subst; congruence].
  eapply (NoDup_lookup OPTION_KEYS); [apply option_keys_NoDup| |]; rewrite <- option_keys, list_lookup_fmap.
  - rewrite Hi. done.
  - rewrite Hj. cbn. by rewrite E.
Qed.

Lemma ratio_keys_fields rt : rt ∈ syncFieldOrder -> mem (optionKeyBySyncField rt) RATIO_KEYS = mem rt ratioSyncFields.
Proof.
  assert (H : forallb (fun rt => Bool.eqb (mem (optionKeyBySyncField rt) RATIO_KEYS) (mem rt ratioSyncFields)) syncFieldOrder = true) by (by vm_compute).
  rewrite forallb_forall in H. intros Hin%list_elem_of_In. by apply eqb_prop, H.
Qed.

Lemma price_key rt : rt ∈ syncFieldOrder -> (optionKeyBySyncField rt =s? $"ModelPrice") = (rt =s? $"model_price").
Proof.
  assert (H : forallb (fun rt => Bool.eqb (optionKeyBySyncField rt =s? $"ModelPrice") (rt =s? $"model_price")) syncFieldOrder = true) by (by vm_compute).
  rewrite forallb_forall in H. intros Hin%list_elem_of_In. by apply eqb_prop, H.
Qed.

(** The value of a model in the option of a field. *)
Definition look (f : finals) (rt m : jsstr) : option val := prop m (default [] (prop (optionKeyBySyncField rt) f)).
Definition all_keys (f : finals) : Prop := Forall (fun k => is_Some (prop k f)) OPTION_KEYS.

Lemma all_keys_set k o f : all_keys f -> all_keys (prop_set k o f).
Proof. intros H. eapply Forall_impl; [exact H|]. intros k' Hk. cbn in *. rewrite prop_set_lookup. by destruct (k' =s? k). Qed.

Lemma delete_in_look m k f rt m' :
  look (delete_in m k f) rt m' = if (optionKeyBySyncField rt =s? k) && (m' =s? m) then None else look f rt m'.
Proof.
  unfold look, delete_in. destruct (prop k f) as [o|] eqn:E.
  - rewrite prop_set_lookup. destruct (str_eqb_spec (optionKeyBySyncField rt) k) as [->|]; [|done]. cbn. rewrite prop_delete_lookup, E. by destruct (m' =s? m).
  - destruct (str_eqb_spec (optionKeyBySyncField rt) k) as [->|]; [|done]. rewrite E. cbn. by destruct (m' =s? m).
Qed.

Lemma delete_in_keys m k f : all_keys f -> all_keys (delete_in m k f).
Proof. unfold delete_in. intros H. destruct (prop k f); [by apply all_keys_set|done]. Qed.

Lemma delete_all_look m ks f rt m' :
  look (fold_left (fun f k => delete_in m k f) ks f) rt m' = if mem (optionKeyBySyncField rt) ks && (m' =s? m) then None else look f rt m'.
Proof.
  revert f. induction ks as [|k ks IH]; intros f; [done|]. cbn [fold_left]. rewrite IH, delete_in_look. unfold mem. cbn [existsb].
  destruct (optionKeyBySyncField rt =s? k), (existsb _ ks), (m' =s? m); done.
Qed.

Definition known_fields (r : object) : Prop := NoDup (keys r) /\ Forall (fun rt => rt ∈ syncFieldOrder) (keys r).

Lemma write_fields_look m r f :
  all_keys f -> known_fields r ->
  exists f', fold_left (write_field m) r (Ret f) = Ret f' /\ all_keys f' /\
    forall rt m', rt ∈ syncFieldOrder ->
      look f' rt m' = if m' =s? m then match prop rt r with Some v => Some (written rt v) | None => look f rt m' end else look f rt m'.
Proof.
  revert f. induction r as [|[rt0 v0] r IH]; intros f Hk [Hd Hf].
  { exists f. split; [done|]. split; [done|]. intros rt m' _. by destruct (m' =s? m). }
  cbn [keys map] in Hd, Hf. apply NoDup_cons in Hd as [Hn Hd]. apply Forall_cons in Hf as [H0 Hf]. cbn [fst] in *.
  cbn [fold_left]. unfold write_field at 2. cbn [bind_outcome fst snd].
  pose proof (option_key_known rt0 H0) as Hkey. pose proof Hk as Hk'. unfold all_keys in Hk'. rewrite Forall_forall in Hk'.
  destruct (Hk' _ Hkey) as [o Eo]. rewrite Eo.
  destruct (IH (prop_set (optionKeyBySyncField rt0) (prop_set m (written rt0 v0) o) f)) as (f' & E & Hk1 & Hl); [by apply all_keys_set|done|].
  exists f'. split; [done|]. split; [done|]. intros rt m' Hrt. rewrite Hl by done. cbn [prop].
  assert (Hs : look (prop_set (optionKeyBySyncField rt0) (prop_set m (written rt0 v0) o) f) rt m'
    = if (rt =s? rt0) && (m' =s? m) then Some (written rt v0) else look f rt m').
  { unfold look. rewrite prop_set_lookup. destruct (str_eqb_spec rt rt0) as [->|Hne].
    - rewrite str_eqb_refl, Eo. cbn. rewrite prop_set_lookup. done.
    - destruct (str_eqb_spec (optionKeyBySyncField rt) (optionKeyBySyncField rt0)) as [Ek|]; [|done]. by apply option_key_inj in Ek. }
  rewrite Hs. destruct (m' =s? m); [|by rewrite andb_false_r]. rewrite andb_true_r.
  destruct (str_eqb_spec rt rt0) as [->|]; [|done]. destruct (prop rt0 r) eqn:Ep; [|done].
  exfalso. apply Hn. apply prop_Some_keys. by eexists.
Qed.

(** What a model's picks make of one of its values. *)
Definition excluded (r : object) (rt : jsstr) : bool := (hasPrice r && mem rt ratioSyncFields) || (hasRatio r && (rt =s? $"model_price")).
Definition resolve (r : object) (rt : jsstr) (old : option val) : option val :=
  match prop rt r with Some v => Some (written rt v) | None => if excluded r rt then None else old end.

Lemma write_model_look m r f :
  all_keys f -> known_fields r ->
  exists f', write_model (Ret f) (m, r) = Ret f' /\ all_keys f' /\
    forall rt m', rt ∈ syncFieldOrder -> look f' rt m' = if m' =s? m then resolve r rt (look f rt m') else look f rt m'.
Proof.
  intros Hk Hr. unfold write_model. cbn [bind_outcome fst snd].
  set (f1 := if hasPrice r then _ else f). set (f2 := if hasRatio r then _ else f1).
  assert (H1 : all_keys f1).
  { unfold f1. destruct (hasPrice r); [|done]. apply fold_invariant; [done|]. intros; by apply delete_in_keys. }
  assert (H2 : all_keys f2) by (unfold f2; destruct (hasRatio r); [by apply delete_in_keys|done]).
  destruct (write_fields_look m r f2 H2 Hr) as (f' & E & Hk' & Hl). exists f'. split; [done|]. split; [done|].
  intros rt m' Hrt. rewrite Hl by done. destruct (str_eqb_spec m' m) as [->|Hne].
  - unfold resolve, excluded. destruct (prop rt r); [done|].
    assert (L1 : look f1 rt m = if hasPrice r && mem rt ratioSyncFields then None else look f rt m).
    { unfold f1. destruct (hasPrice r); [|done]. by rewrite delete_all_look, str_eqb_refl, andb_true_r, ratio_keys_fields. }
    unfold f2. destruct (hasRatio r).
    + rewrite delete_in_look, str_eqb_refl, andb_true_r, price_key, L1 by done. cbn [andb]. destruct (rt =s? $"model_price"), (hasPrice r && _); done.
    + by rewrite L1, orb_false_r.
  - unfold f2, f1. destruct (str_eqb_spec m' m) as [|_]; [done|].
    destruct (hasRatio r), (hasPrice r); rewrite ?delete_in_look, ?delete_all_look; destruct (str_eqb_spec m' m); try done; by rewrite !andb_false_r.
Qed.

Definition known_res (res : resolved) : Prop := NoDup (keys res) /\ forall m r, prop m res = Some r -> known_fields r.

Lemma write_res_look res f :
  all_keys f -> known_res res ->
  exists f', fold_left write_model res (Ret f) = Ret f' /\ all_keys f' /\
    forall rt m, rt ∈ syncFieldOrder -> look f' rt m = match prop m res with Some r => resolve r rt (look f rt m) | None => look f rt m end.
Proof.
  revert f. induction res as [|[m0 r0] res IH]; intros f Hk [Hd Hf]; [by exists f|].
  cbn [keys map fst] in Hd. apply NoDup_cons in Hd as [Hn Hd].
  destruct (write_model_look m0 r0 f) as (f1 & E1 & Hk1 & Hl1); [done|apply (Hf m0); cbn; by rewrite str_eqb_refl|].
  cbn [fold_left]. rewrite E1. destruct (IH f1 Hk1) as (f' & E & Hk' & Hl).
  { split; [done|]. intros m r Hr. apply (Hf m). cbn. destruct (str_eqb_spec m m0) as [->|]; [|done]. exfalso. apply Hn. apply prop_Some_keys. by eexists. }
  exists f'. split; [done|]. split; [done|]. intros rt m Hrt. rewrite Hl, Hl1 by done. cbn [prop]. destruct (str_eqb_spec m m0) as [->|]; [|done].
  destruct (prop m0 res) eqn:Ep; [|done]. exfalso. apply Hn. apply prop_Some_keys. by eexists.
Qed.

Definition start_of (cur : list (jsstr * val)) : finals := map (fun kv => (kv.1, entries kv.2)) cur.

Lemma start_keys cur : keys cur = OPTION_KEYS -> all_keys (start_of cur).
Proof.
  intros E. unfold all_keys. rewrite <- E. apply Forall_forall. intros k Hk. apply prop_Some_keys. unfold start_of, keys. rewrite map_map. cbn. exact Hk.
Qed.

(** C22: a synchronisation writes every picked value into the option of its field, removes the
    ratios of a model that gets a fixed price and the fixed price of a model that gets
    ratios, and leaves everything else as it was. *)
Theorem sync_writes_exact cur res :
  keys cur = OPTION_KEYS -> known_res res ->
  exists f, finalRatios cur res = Ret f /\
    forall rt m, rt ∈ syncFieldOrder ->
      look f rt m = match prop m res with
                    | Some r => resolve r rt (look (start_of cur) rt m)
                    | None => look (start_of cur) rt m
                    end.
Proof.
  intros Hc Hr. destruct (write_res_look res (start_of cur) (start_keys cur Hc) Hr) as (f & E & _ & Hl). by exists f.
Qed.

Lemma ratio_fields_category rt : rt ∈ ratioSyncFields -> getBillingCategory rt = Ratio.
Proof.
  assert (H : forallb (fun rt => bool_decide (getBillingCategory rt = Ratio)) ratioSyncFields = true) by (by vm_compute).
  rewrite forallb_forall in H. intros Hin%list_elem_of_In. by apply (bool_decide_eq_true_1 _), H.
Qed.

(** No model that was picked for ends with a fixed price and a ratio. *)
Lemma sync_one_kind d cur res f m r :
  keys cur = OPTION_KEYS -> known_res res -> res_fine d res -> finalRatios cur res = Ret f -> prop m res = Some r ->
  hasPrice r || hasRatio r = true ->
  look f $"model_price" m = None \/ Forall (fun rt => look f rt m = None) ratioSyncFields.
Proof.
  intros Hc Hk Hf Ef Em Hp. destruct (write_res_look res (start_of cur) (start_keys cur Hc) Hk) as (f' & E & _ & Hl).
  change (finalRatios cur res = Ret f') in E. rewrite E in Ef. apply Ret_inj in Ef as ->.
  destruct Hf as [_ Hf]. destruct (Hf m r Em) as [_ _ Hkind _ _].
  destruct (hasPrice r) eqn:Hpr.
  - right. assert (Hin : $"model_price" ∈ keys r) by (apply prop_Some_keys; unfold hasPrice, has_prop in Hpr; by destruct (prop _ r)).
    specialize (Hkind Hin). rewrite Forall_forall in Hkind. apply Forall_forall. intros rt Hrt.
    assert (Ho : rt ∈ syncFieldOrder) by (apply elem_of_app; by left).
    rewrite Hl, Em by done. unfold resolve. destruct (prop rt r) eqn:Ep.
    + exfalso. apply (Hkind rt); [apply prop_Some_keys; by eexists|]. by apply ratio_fields_category.
    + unfold excluded. rewrite Hpr. assert (mem rt ratioSyncFields = true) as ->; [|done].
      unfold mem. apply existsb_exists. exists rt. split; [by apply list_elem_of_In|apply str_eqb_refl].
  - left. cbn [orb] in Hp. rewrite Hl, Em by (apply mem_elem; by vm_compute). unfold resolve.
    unfold hasPrice, has_prop in Hpr. destruct (prop $"model_price" r) eqn:Ep; [done|]. unfold excluded, hasPrice, has_prop. rewrite Ep, Hp. done.
Qed.

(** ** The header of a column *)

Lemma delete_pick res m rt m' rt' : pick res m' rt' = VUndef \/ (m' = m /\ rt' = rt) -> pick (deleteResolutionField res m rt) m' rt' = VUndef.
Proof.
  unfold deleteResolutionField. intros H. destruct (prop m res) as [r|] eqn:E.
  2:{ destruct H as [|[-> ->]]; [done|]. unfold pick. by rewrite E. }
  set (r3 := if rt =s? $"billing_mode" then _ else _).
  assert (H3 : prop rt' r3 = None \/ prop rt' r3 = prop rt' r /\ rt' <> rt).
  { unfold r3. destruct (rt =s? $"billing_mode"), (rt =s? $"billing_expr"); rewrite ?prop_delete_lookup;
      destruct (rt' =s? $"billing_expr"), (rt' =s? $"billing_mode"), (str_eqb_spec rt' rt); auto. }
  assert (Hr : m' = m -> default VUndef (prop rt' r3) = VUndef).
  { intros ->. destruct H3 as [->|[-> Hne]]; [done|]. destruct H as [H|[_ ?]]; [|done]. unfold pick in H. by rewrite E in H. }
  unfold pick in *. destruct r3 as [|x l] eqn:E3.
  - rewrite prop_delete_lookup. destruct (str_eqb_spec m' m); [done|]. destruct H as [H|[? _]]; [exact H|done].
  - rewrite prop_set_lookup. destruct (str_eqb_spec m' m) as [->|]; [by apply Hr|]. destruct H as [H|[? _]]; [exact H|done].
Qed.

Lemma deselect_pick d up res cell m rt : pick res m rt = VUndef -> pick (deselect_cell d up res cell) m rt = VUndef.
Proof. intros H. unfold deselect_cell. destruct (getUpstreamValue _ _ _ _); try done; apply delete_pick; by left. Qed.

Lemma deselect_all d up l res m rt :
  pick res m rt = VUndef \/ (m, rt) ∈ l -> getUpstreamValue d m rt up <> VUndef -> pick (fold_left (deselect_cell d up) l res) m rt = VUndef.
Proof.
  intros H Hv. revert res H. induction l as [|c l IH]; intros res H; cbn [fold_left]; [destruct H as [|H]; [done|by apply not_elem_of_nil in H]|].
  apply IH. destruct H as [H|[<-|H]%elem_of_cons]; [left; by apply deselect_pick| |by right].
  left. unfold deselect_cell. cbn [fst snd]. destruct (getUpstreamValue d m rt up); try done; apply delete_pick; by right.
Qed.

(** Unticking the header of an upstream also drops picks made from other upstreams: every
    pick of a field for which that upstream reports a value, even when the value is the
    local one and could not be ticked in its column. *)
Theorem untick_drops_other_picks v d up up' res m rt :
  (m, rt) ∈ cells v d -> getUpstreamValue d m rt up = VStr $"same" ->
  pick res m rt = getUpstreamValue d m rt up' -> isSelectableUpstreamValue (getUpstreamValue d m rt up') = true ->
  selectable d up (m, rt) = false /\ pick (handleBulkSelect v d up false res) m rt = VUndef.
Proof.
  intros Hc Hs _ _. split; [|apply deselect_all; [by right|by rewrite Hs]].
  unfold selectable. cbn [fst snd]. rewrite Hs. by rewrite andb_false_r.
Qed.

Lemma filter_full {A} (p q : A -> bool) l :
  (forall x, q x = true -> p x = true) -> length (List.filter q l) = length (List.filter p l) -> forall x, x ∈ l -> p x = true -> q x = true.
Proof.
  intros Hqp. assert (Hle : forall l, (length (List.filter q l) <= length (List.filter p l))%nat).
  { clear l. induction l as [|y l IH]; cbn; [done|]. destruct (q y) eqn:Eq; [rewrite (Hqp y Eq); cbn; lia|]. destruct (p y); cbn; lia. }
  induction l as [|y l IH]; cbn; intros E x Hx Hp; [by apply not_elem_of_nil in Hx|]. apply elem_of_cons in Hx as [<-|Hx].
  - destruct (q x) eqn:Eq; [done|]. rewrite Hp in E. cbn in E. specialize (Hle l). lia.
  - apply IH; [|done|done]. destruct (q y) eqn:Eq; [rewrite (Hqp y Eq) in E; cbn in E; lia|].
    destruct (p y); [|done]. cbn in E. specialize (Hle l). lia.
Qed.

Lemma selected_key d res up m rt : selected d res up (m, rt) = true -> exists r, prop m res = Some r /\ rt ∈ keys r.
Proof.
  unfold selected, selectable, pick. cbn [fst snd]. intros H. bsplit. destruct (prop m res) as [r|]; [|by destruct (getUpstreamValue d m rt up)].
  exists r. split; [done|]. apply prop_Some_keys. destruct (prop rt r); [done|]. cbn in *. by destruct (getUpstreamValue d m rt up).
Qed.

(** A column with a model for which the upstream offers both a fixed price and a ratio is never
    shown as completely selected: ticking its header selects again and cannot be undone there. *)
Theorem conflicting_column_never_full t opts w up m rt :
  reach t opts w ->
  (m, $"model_price") ∈ cells (vw w.1) (differences w.1) -> (m, rt) ∈ cells (vw w.1) (differences w.1) -> getBillingCategory rt = Ratio ->
  selectable (differences w.1) up (m, $"model_price") = true -> selectable (differences w.1) up (m, rt) = true ->
  allSelected (vw w.1) (differences w.1) (resolutions w.1) up = false.
Proof.
  intros Hreach Hc1 Hc2 Hcat Hs1 Hs2. destruct (reach_fine t opts w Hreach) as [_ [_ Hf] _ _].
  destruct (allSelected _ _ _ _) eqn:E; [|done]. exfalso. unfold allSelected in E. bsplit.
  match goal with H : (_ =? _)%nat = true |- _ => apply Nat.eqb_eq in H; rename H into Eq end.
  assert (Hall : forall x, x ∈ cells (vw w.1) (differences w.1) -> selectable (differences w.1) up x = true ->
    selected (differences w.1) (resolutions w.1) up x = true).
  { apply filter_full; [|exact Eq]. intros x Hx. unfold selected in Hx. by bsplit. }
  destruct (selected_key _ _ _ _ _ (Hall _ Hc1 Hs1)) as (r & Er & H1). destruct (selected_key _ _ _ _ _ (Hall _ Hc2 Hs2)) as (r' & Er' & H2).
  rewrite Er in Er'. injection Er' as <-. destruct (Hf m r Er) as [_ _ Hk _ _]. specialize (Hk H1). rewrite Forall_forall in Hk. by apply (Hk rt).
Qed.

(** ** The dialog *)

(** The local prices of a model. *)
Definition local (cur : list (jsstr * val)) (k m : jsstr) : option val := prop m (entries (default VUndef (prop k cur))).

(** Options read from JSON: objects without undefined members. *)
Definition json_option (v : val) : Prop := is_nullish v = false /\ Forall (fun kv => kv.2 <> VUndef) (entries v).
Definition json_options (cur : list (jsstr * val)) : Prop := keys cur = OPTION_KEYS /\ Forall (fun kv => json_option kv.2) cur.

(** The pick replaces a fixed price by ratios, or ratios by a fixed price. *)
Definition changes_kind (cur : list (jsstr * val)) (mr : jsstr * object) : bool :=
  let price := bool_decide (is_Some (local cur $"ModelPrice" mr.1)) in
  let ratio := existsb (fun k => bool_decide (is_Some (local cur k mr.1))) RATIO_KEYS in
  (hasPrice mr.2 && negb price && ratio) || (negb (hasPrice mr.2) && hasRatio mr.2 && price).

Lemma has_prop_iff {V} k (o : list (jsstr * V)) : has_prop k o = true <-> k ∈ keys o.
Proof. rewrite <- prop_Some_keys. unfold has_prop. destruct (prop k o); [naive_solver|]. split; [done|by intros [? ?]]. Qed.

Lemma hasRatio_any r : existsb (fun rt => has_prop rt r) ratioSyncFields = hasRatio r.
Proof.
  unfold hasRatio. apply eq_true_iff_eq. rewrite !existsb_exists. unfold mem. setoid_rewrite existsb_exists. split.
  - intros (rt & Hin & Hp%has_prop_iff). exists rt. split; [by apply list_elem_of_In|]. exists rt. split; [done|apply str_eqb_refl].
  - intros (rt & Hin & rt' & Hin' & ->%str_eqb_eq). exists rt'. split; [done|]. apply has_prop_iff. by apply list_elem_of_In.
Qed.

Lemma ratio_at_local cur k m :
  json_options cur -> k ∈ OPTION_KEYS -> ratio_at cur k m = Ret (default VUndef (local cur k m)) /\ local cur k m <> Some VUndef.
Proof.
  intros [Hk Hj] Hin. rewrite <- Hk in Hin. apply prop_Some_keys in Hin as [v Ev]. unfold ratio_at, local, get_or_throw. rewrite Ev. cbn [from_option id].
  apply prop_elem in Ev. rewrite Forall_forall in Hj. destruct (Hj _ Ev) as [Hn Hf]. cbn [snd] in *. rewrite Hn. split; [done|].
  intros E%prop_elem. rewrite Forall_forall in Hf. by apply (Hf _ E).
Qed.

Lemma any_ratio_local cur m ks :
  json_options cur -> Forall (fun k => k ∈ OPTION_KEYS) ks -> any_ratio cur m ks = Ret (existsb (fun k => bool_decide (is_Some (local cur k m))) ks).
Proof.
  intros Hj. induction 1 as [|k ks Hk _ IH]; [done|]. cbn [any_ratio existsb]. destruct (ratio_at_local cur k m Hj Hk) as [-> Hu]. cbn [bind_outcome].
  destruct (local cur k m) as [v|]; cbn [from_option id]; [|done]. destruct v; try done.
Qed.

Lemma ratio_keys_options : Forall (fun k => k ∈ OPTION_KEYS) RATIO_KEYS.
Proof.
  assert (H : forallb (fun k => mem k OPTION_KEYS) RATIO_KEYS = true) by (by vm_compute). rewrite forallb_forall in H.
  apply Forall_forall. intros k Hk%list_elem_of_In. by apply mem_elem, H.
Qed.

Lemma conflict_of_spec t d cur mr :
  json_options cur -> exists l, conflict_of t d cur mr = Ret l /\ map c_model l = if changes_kind cur mr then [mr.1] else [].
Proof.
  intros Hj. destruct mr as [m r]. unfold conflict_of, getLocalBillingCategory, newCat, changes_kind. cbn [fst snd]. rewrite hasRatio_any.
  assert (Hp : $"ModelPrice" ∈ OPTION_KEYS) by (apply mem_elem; by vm_compute).
  assert (H1 : $"ModelRatio" ∈ OPTION_KEYS) by (apply mem_elem; by vm_compute).
  assert (H2 : $"CompletionRatio" ∈ OPTION_KEYS) by (apply mem_elem; by vm_compute).
  destruct (ratio_at_local cur $"ModelPrice" m Hj Hp) as [E Hu]. rewrite E. cbn [bind_outcome].
  destruct (local cur $"ModelPrice" m) as [v|] eqn:El; cbn [from_option id].
  - assert (Hv : forall A (a b : A), match v with VUndef => a | _ => b end = b) by (intros A a b; by destruct v). rewrite Hv. cbn [bind_outcome].
    rewrite (bool_decide_true (is_Some (Some v))) by (by eexists). destruct (hasPrice r), (hasRatio r); cbn; rewrite ?E; eexists; (split; [reflexivity|done]).
  - rewrite any_ratio_local by (done || apply ratio_keys_options). cbn [bind_outcome]. rewrite (bool_decide_false (is_Some None)) by (by intros [? ?]).
    destruct (existsb _ RATIO_KEYS) eqn:Ex; cbn; [|eexists; split; [reflexivity|]; by destruct (hasPrice r), (hasRatio r)].
    destruct (ratio_at_local cur $"ModelRatio" m Hj H1) as [-> _]. destruct (ratio_at_local cur $"CompletionRatio" m Hj H2) as [-> _]. cbn.
    destruct (hasPrice r), (hasRatio r); eexists; (split; [reflexivity|done]).
Qed.

Lemma conflicts_spec t d cur res :
  json_options cur -> exists l, conflicts_of t d cur res = Ret l /\ map c_model l = map fst (List.filter (changes_kind cur) res).
Proof.
  intros Hj. induction res as [|mr res IH]; [by exists []|]. destruct (conflict_of_spec t d cur mr Hj) as (l1 & E1 & M1). destruct IH as (l2 & E2 & M2).
  exists (l1 ++ l2). cbn [conflicts_of List.filter]. rewrite E1, E2. cbn [bind_outcome]. split; [done|]. rewrite map_app, M1, M2. by destruct (changes_kind cur mr).
Qed.

(** Applying the picks asks first exactly when they change the kind of price of some model,
    and then names those models in order; otherwise the requests are sent at once. *)
Theorem apply_asks_exactly t s cur :
  currentRatios (options s) = Ret cur -> json_options cur -> known_res (resolutions s) ->
  let changed := map fst (List.filter (changes_kind cur) (resolutions s)) in
  let '(s', sent) := applySync t s in
  (changed <> [] -> sent = [] /\ confirmVisible (fl s') = true /\ map c_model (conflictItems s') = changed)
  /\ (changed = [] -> exists f, finalRatios cur (resolutions s) = Ret f /\ sent = [PSync (resolutions s) (updates f) false] /\ loading (fl s') = true).
Proof.
  intros Hc Hj Hk. cbn zeta. unfold applySync. rewrite Hc. cbn [bind_outcome].
  destruct (conflicts_spec t (differences s) cur (resolutions s) Hj) as (l & El & Ml). rewrite El. cbn [bind_outcome]. rewrite <- Ml.
  destruct l as [|c l].
  - destruct (write_res_look (resolutions s) (start_of cur) (start_keys cur (proj1 Hj)) Hk) as (f & Ef & _).
    change (finalRatios cur (resolutions s) = Ret f) in Ef. unfold performSync. rewrite Ef. cbn [bind_outcome].
    split; [done|]. intros _. by exists f.
  - split; [|done]. by intros _.
Qed.

(** ** Witnesses *)

Definition run (t : jsstr -> jsstr) (w : world) (es : list event) : option world :=
  fold_left (fun o e => match o with Some w => step t w e | None => None end) es (Some w).

Lemma reach_run t opts w es w' : reach t opts w -> Forall event_fine es -> run t w es = Some w' -> reach t opts w'.
Proof.
  unfold run. intros Hw Hes. revert w Hw. induction Hes as [|e es He _ IH]; intros w Hw; cbn [fold_left]; [by intros [= <-]|].
  destruct (step t w e) as [w1|] eqn:E; [apply IH; by eapply reach_step|]. intros H. exfalso. revert H. clear. by induction es.
Qed.

Lemma named_by_keys (d : diffs) : forallb (fun row => forallb (fun f => forallb (fun u => nonempty u.1) (upstreams f.2)) row.2) d = true -> named d.
Proof.
  intros H m rt v <-. unfold getUpstreamValue. destruct (prop m d) as [fields|] eqn:E1; [|done]. destruct (prop rt fields) as [x|] eqn:E2; [|done].
  destruct (prop [] (upstreams x)) as [u|] eqn:E3; [|done]. exfalso.
  apply prop_elem, list_elem_of_In in E1. apply prop_elem, list_elem_of_In in E2. apply prop_elem, list_elem_of_In in E3.
  rewrite forallb_forall in H. specialize (H _ E1). rewrite forallb_forall in H. specialize (H _ E2). rewrite forallb_forall in H. by specialize (H _ E3).
Qed.

Lemma cell_in (c : jsstr * jsstr) l : existsb (fun x => (x.1 =s? c.1) && (x.2 =s? c.2)) l = true -> c ∈ l.
Proof.
  rewrite existsb_exists. intros ([a b] & Hx & H). cbn in H. bsplit. rewrite str_eqb_eq in *. subst. apply list_elem_of_In. by destruct c.
Qed.

Definition num_v (z : Z) : val := VNum (of_Z z).
Definition sample_diffs : diffs :=
  [($"m1", [($"model_ratio", Diff (num_v 1) [($"A", num_v 2); ($"B", num_v 3)] []);
            ($"completion_ratio", Diff (num_v 4) [($"A", VStr $"same"); ($"B", num_v 5)] []);
            ($"model_price", Diff VNull [($"A", num_v 7)] [])]);
   ($"m2", [($"billing_expr", Diff VNull [($"B", VStr $"p * 2")] [])])].

Definition sample_options : list (jsstr * jsstr) := [($"ModelRatio", [123; 34; 109; 49; 34; 58; 49; 125])].

Definition sample_events : list event :=
  [EOpen; EChannels (Some [Channel 1 $"A" [] 1; Channel 2 $"B" [] 20]); ESelect [1; 2]; EConfirmChannels; EFetched (Some sample_diffs);
   ECheck $"A" ($"m1", $"model_ratio") true; ECheck $"B" ($"m1", $"completion_ratio") true; EBulk $"B" true; ECheck $"A" ($"m1", $"model_price") true].

Definition sample_page : option world := run id (page0 sample_options, []) sample_events.

Lemma sample_named : named sample_diffs.
Proof. apply named_by_keys. by vm_compute. Qed.

Lemma sample_runs : match sample_page with Some _ => true | None => false end = true.
Proof. by vm_compute. Qed.

Lemma sample_reached : exists w, sample_page = Some w /\ reach id sample_options w.
Proof.
  pose proof sample_runs as H. unfold sample_page in *. destruct (run id (page0 sample_options, []) sample_events) as [w|] eqn:E; [|done].
  exists w. split; [done|]. refine (reach_run id sample_options _ sample_events w (reach_init _ _) _ E).
  unfold sample_events. repeat (apply Forall_cons; split; [exact I || exact sample_named|]). by apply Forall_nil.
Qed.

Definition sample_res : resolved := [($"m1", [($"model_price", num_v 7)]); ($"m2", [($"billing_expr", VStr $"p * 2"); ($"billing_mode", VStr $"tiered_expr")])].

Lemma reach_picks_consistent_witness :
  exists w, sample_page = Some w /\ resolutions w.1 = sample_res /\ res_fine (differences w.1) (resolutions w.1).
Proof.
  destruct sample_reached as (w & E & H). exists w. split; [done|]. split; [|apply (reach_picks_consistent id sample_options w H)].
  assert (Hr : option_map (fun w => resolutions w.1) sample_page = Some sample_res) by (by vm_compute). rewrite E in Hr. by injection Hr.
Defined.

Definition known_resb (res : resolved) : bool :=
  bool_decide (NoDup (keys res)) && forallb (fun mr => bool_decide (NoDup (keys mr.2)) && forallb (fun rt => mem rt syncFieldOrder) (keys mr.2)) res.

Lemma known_resb_ok res : known_resb res = true -> known_res res.
Proof.
  unfold known_resb. intros H. bsplit. rewrite bool_decide_eq_true in *. split; [done|]. intros m r E%prop_elem%list_elem_of_In.
  match goal with H : forallb _ res = true |- _ => rewrite forallb_forall in H; specialize (H _ E); rename H into Hr end. cbn [snd] in Hr. bsplit.
  rewrite bool_decide_eq_true in *. split; [done|]. apply Forall_forall. intros rt Hin.
  match goal with H : forallb _ (keys r) = true |- _ => rewrite forallb_forall in H; specialize (H rt) end.
  apply list_elem_of_In. match goal with H : In rt (keys r) -> _ |- _ => apply list_elem_of_In in Hin; specialize (H Hin); rename H into Hm end.
  unfold mem in Hm. apply existsb_exists in Hm as (x & Hx & ->%str_eqb_eq). done.
Qed.

Definition sample_cur : list (jsstr * val) := match currentRatios sample_options with Ret c => c | Throw => [] end.

Lemma sync_writes_exact_witness :
  exists f, finalRatios sample_cur sample_res = Ret f
    /\ look f $"model_ratio" $"m1" = None /\ look f $"model_price" $"m1" = Some (num_v 7) /\ look f $"billing_expr" $"m2" = Some (VStr $"p * 2").
Proof.
  assert (Hk : known_res sample_res) by (apply known_resb_ok; by vm_compute).
  destruct (sync_writes_exact sample_cur sample_res) as (f & E & Hl); [by vm_compute|exact Hk|]. exists f. split; [exact E|].
  split; [|split]; (rewrite Hl; [by vm_compute|apply mem_elem; by vm_compute]).
Defined.

Definition sample_view : view := View 1 10 [] [].
Definition picks_of_both : resolved := [($"m1", [($"model_ratio", num_v 2); ($"completion_ratio", num_v 5)])].

Lemma untick_drops_other_picks_witness :
  pick picks_of_both $"m1" $"completion_ratio" = num_v 5 /\ selectable sample_diffs $"A" ($"m1", $"completion_ratio") = false
  /\ pick (handleBulkSelect sample_view sample_diffs $"A" false picks_of_both) $"m1" $"completion_ratio" = VUndef.
Proof.
  split; [by vm_compute|]. apply (untick_drops_other_picks sample_view sample_diffs $"A" $"B" picks_of_both $"m1" $"completion_ratio").
  - apply cell_in. by vm_compute.
  - by vm_compute.
  - by vm_compute.
  - by vm_compute.
Defined.

Lemma conflicting_column_never_full_witness :
  exists w, sample_page = Some w /\ allSelected (vw w.1) (differences w.1) (resolutions w.1) $"A" = false.
Proof.
  destruct sample_reached as (w & E & H). exists w. split; [done|].
  assert (Hd : option_map (fun w => (vw w.1, differences w.1)) sample_page = Some (sample_view, sample_diffs)) by (by vm_compute).
  rewrite E in Hd. injection Hd as Hv Hd.
  apply (conflicting_column_never_full id sample_options w $"A" $"m1" $"model_ratio" H); rewrite ?Hv, ?Hd; try (by vm_compute).
  - apply cell_in. by vm_compute.
  - apply cell_in. by vm_compute.
Defined.

Definition sample_state : page := match sample_page with Some w => w.1 | None => page0 [] end.

Definition is_defined (v : val) : bool := match v with VUndef => false | _ => true end.
Definition json_optionsb (cur : list (jsstr * val)) : bool :=
  bool_decide (keys cur = OPTION_KEYS) && forallb (fun kv => negb (is_nullish kv.2) && forallb (fun e => is_defined e.2) (entries kv.2)) cur.

Lemma json_optionsb_ok cur : json_optionsb cur = true -> json_options cur.
Proof.
  unfold json_optionsb. intros H. bsplit. rewrite bool_decide_eq_true in *. split; [done|]. apply List.Forall_forall. intros kv Hin.
  match goal with H : forallb _ cur = true |- _ => rewrite forallb_forall in H; specialize (H kv Hin); rename H into Hk end. bsplit.
  split; [done|]. apply List.Forall_forall. intros e He.
  match goal with H : forallb _ (entries kv.2) = true |- _ => rewrite forallb_forall in H; specialize (H e He) end. by destruct (e.2).
Qed.

Lemma sample_json : json_options sample_cur.
Proof. apply json_optionsb_ok. by vm_compute. Qed.

Lemma apply_asks_exactly_witness :
  exists s' sent, applySync id sample_state = (s', sent) /\ sent = [] /\ map c_model (conflictItems s') = [$"m1"].
Proof.
  assert (Hk : known_res (resolutions sample_state)) by (apply known_resb_ok; by vm_compute).
  pose proof (apply_asks_exactly id sample_state sample_cur ltac:(by vm_compute) sample_json Hk) as H.
  cbn zeta in H. destruct (applySync id sample_state) as [s' sent]. exists s', sent. split; [done|].
  destruct H as [H _]. assert (E : map fst (List.filter (changes_kind sample_cur) (resolutions sample_state)) = [$"m1"]) by (by vm_compute).
  rewrite E in H. destruct (H ltac:(discriminate)) as (H1 & _ & H2). split; [exact H1|exact H2].
Defined.

End RatioSyncProofs.
