(* ===== verification/FormValues.v ===== *)
(** * Values of forms

    Forms keep their fields in JavaScript objects, since the code adds and deletes fields;
    the helpers the forms of channels and settings share, and lemmas on the fields that an
    assignment leaves alone. *)
From S2P Require Import Prelude JSNum JSValue Json.
#[local] Open Scope Z_scope.
#[local] Arguments js _ : simpl never.

Module FormValues.

Definition fld (k : jsstr) (o : object) : val := default VUndef (prop k o).
Definition or_else (v d : val) : val := if truthy v then v else d.
Definition int (z : Z) : val := VNum (of_Z z).
Definition is_true (v : val) : bool := match v with VBool b => b | _ => false end.
Definition strs (l : list jsstr) : val := VArr (map VStr l).
Definition set_all (l : object) (o : object) : object := fold_left (fun o kv => prop_set kv.1 kv.2 o) l o.
Definition delete_all (ks : list jsstr) (o : object) : object := fold_left (fun o k => prop_delete k o) ks o.

(** [v.trim()] and the like on a value that must be a string. *)
Definition as_string (v : val) : outcome jsstr := match v with VStr s => Ret s | _ => Throw end.
Definition string_or_empty (v : val) : outcome jsstr := if truthy v then as_string v else Ret [].
(** [!v || v.trim() === ''] *)
Definition is_blank (v : val) : outcome bool :=
  if truthy v then bind_outcome (as_string v) (fun s => Ret (negb (nonempty (trim s)))) else Ret true.

(** [a === b] on primitive values. *)
Definition same_value (a b : val) : bool :=
  match a, b with
  | VUndef, VUndef | VNull, VNull => true
  | VBool x, VBool y => Bool.eqb x y
  | VNum x, VNum y => neqb x y
  | VStr x, VStr y => x =s? y
  | _, _ => false
  end.

(** [JSON.parse(v)] and [JSON.stringify(v)] *)
Definition parse_val (v : val) : outcome val := match parse (String_val v) with Some x => Ret x | None => Throw end.
Definition verifyJSON (s : jsstr) : bool := match parse s with Some _ => true | None => false end.
Definition json (v : val) : jsstr := default [] (stringify v).
Definition json2 (v : val) : jsstr := default [] (stringify2 v).

(** [list.map((m) => (m || '').trim())] *)
Fixpoint trimmed (l : list val) : outcome (list jsstr) :=
  match l with
  | [] => Ret []
  | v :: r => bind_outcome (string_or_empty v) (fun s => bind_outcome (trimmed r) (fun t => Ret (trim s :: t)))
  end.

(** [a.join(',')] of an array of values *)
Definition join_vals (l : list val) : jsstr := join $"," (map (fun v => if is_nullish v then [] else String_val v) l).

Definition is_int (v : val) (z : Z) : bool := match v with VNum n => neqb n (of_Z z) | _ => false end.

(** ** Fields that are left alone *)

Lemma set_all_other l (o : object) k : k ∉ keys l -> prop k (set_all l o) = prop k o.
Proof.
  unfold set_all. revert o. induction l as [|[k' v] l IH]; intros o H; cbn [fold_left fst snd]; [done|].
  cbn [keys map fst] in H. apply not_elem_of_cons in H as [Hn H]. rewrite IH by done. by apply prop_set_ne.
Qed.

Lemma set_all_in l (o : object) k v : NoDup (keys l) -> (k, v) ∈ l -> prop k (set_all l o) = Some v.
Proof.
  unfold set_all. revert o. induction l as [|[k' v'] l IH]; intros o Hd H; [by apply not_elem_of_nil in H|].
  cbn [keys map fst] in Hd. apply NoDup_cons in Hd as [Hn Hd]. cbn [fold_left fst snd]. apply elem_of_cons in H as [[= -> ->]|H]; [|by apply IH].
  change (prop k' (set_all l (prop_set k' v' o)) = Some v'). rewrite set_all_other by done. apply prop_set_eq.
Qed.

Lemma delete_all_lookup ks (o : object) k : prop k (delete_all ks o) = if existsb (str_eqb k) ks then None else prop k o.
Proof.
  unfold delete_all. revert o. induction ks as [|k' ks IH]; intros o; [done|]. cbn [fold_left existsb]. rewrite IH, prop_delete_lookup.
  destruct (k =s? k'), (existsb _ ks); done.
Qed.

Lemma fld_set_ne k k' v o : k' <> k -> fld k' (prop_set k v o) = fld k' o.
Proof. intros H. unfold fld. by rewrite prop_set_ne. Qed.

Lemma fld_set_eq k v o : fld k (prop_set k v o) = v.
Proof. unfold fld. by rewrite prop_set_eq. Qed.

Lemma fld_of_prop k o o' : prop k o = prop k o' -> fld k o = fld k o'.
Proof. unfold fld. by intros ->. Qed.

Lemma prop_replace_replace k v w (o : object) : prop_replace k w (prop_replace k v o) = prop_replace k w o.
Proof. induction o as [|[k' v'] o IH]; [done|]. cbn. destruct (k =s? k') eqn:E; cbn; rewrite E; [done|]. by rewrite IH. Qed.

Lemma prop_replace_app k w (o o' : object) : prop k o = None -> prop_replace k w (o ++ o') = o ++ prop_replace k w o'.
Proof. induction o as [|[k' v'] o IH]; [done|]. cbn. destruct (k =s? k'); [done|]. intros H. by rewrite IH. Qed.

Lemma prop_set_set k v w (o : object) : is_index k = false -> prop_set k w (prop_set k v o) = prop_set k w o.
Proof.
  intros Hi. assert (Hh : has_prop k (prop_set k v o) = true) by (unfold has_prop; by rewrite prop_set_eq).
  unfold prop_set at 1. rewrite Hh. unfold prop_set. destruct (has_prop k o) eqn:E; [apply prop_replace_replace|]. rewrite Hi.
  rewrite prop_replace_app by (unfold has_prop in E; by destruct (prop k o)). cbn. by rewrite str_eqb_refl.
Qed.

(** ** Texts that are read back *)

Lemma prop_set_same k (v : val) o : prop k o = Some v -> prop_set k v o = o.
Proof.
  intros H. unfold prop_set, has_prop. rewrite H. induction o as [|[k1 v1] o IH]; [done|]. cbn in *.
  destruct (str_eqb_spec k k1) as [->|]; [by injection H as ->|]. by rewrite IH.
Qed.

Lemma json2_reads v : json_wf v -> parse (json2 v) = Some v.
Proof.
  intros H. destruct (ser_Some [32; 32] [] v H) as [text E]. unfold json2, stringify2. rewrite E. cbn. by apply (parse_stringify2 v text).
Qed.

Lemma json_reads v : json_wf v -> parse (json v) = Some v.
Proof.
  intros H. destruct (ser_Some [] [] v H) as [text E]. unfold json, stringify. rewrite E. cbn. by apply (parse_stringify v text).
Qed.

(** ** Names in a list *)

Definition memk (k : jsstr) (l : list jsstr) : bool := existsb (str_eqb k) l.

Lemma memk_false k l : memk k l = false -> k ∉ l.
Proof.
  unfold memk. intros H Hin%list_elem_of_In. assert (existsb (str_eqb k) l = true); [|congruence].
  apply existsb_exists. exists k. split; [done|apply str_eqb_refl].
Qed.

Lemma memk_cons k x l : memk k (x :: l) = false -> k <> x /\ memk k l = false.
Proof. unfold memk. cbn [existsb]. intros [H1 H2]%orb_false_iff. by apply str_eqb_neq in H1. Qed.

Lemma memk_app k l l' : memk k (l ++ l') = false -> memk k l = false /\ memk k l' = false.
Proof. unfold memk. rewrite existsb_app. apply orb_false_iff. Qed.

Ltac split_mem := repeat match goal with H : memk _ (_ :: _) = false |- _ => apply memk_cons in H as [? H] end.

End FormValues.
