(* ===== verification/ChannelForm.v ===== *)
(** * The form of a channel

    [web/src/components/table/channels/modals/EditChannelModal.jsx]: the values of the form,
    the handlers that change them, how a channel is loaded into it, and what submitting it
    checks, asks and sends.  Values are JavaScript objects, since the code adds and deletes
    fields; the form widget keeps a copy of the values, which is an argument of the submit.
    The lists of models per channel type and the server are parameters. *)
From S2P Require Import Prelude JSNum JSValue Json FormValues StatusCodeRiskGuard.
#[local] Open Scope Z_scope.
#[local] Arguments js _ : simpl never.

Module ChannelForm.
Import FormValues StatusCodeRiskGuard.

(** ** Values *)

Definition is_type (o : object) (z : Z) : bool := match fld $"type" o with VNum n => neqb n (of_Z z) | _ => false end.

Definition originInputs : object :=
  [($"name", VStr []); ($"type", int 1); ($"key", VStr []); ($"openai_organization", VStr []); ($"max_input_tokens", int 0);
   ($"base_url", VStr []); ($"other", VStr []); ($"model_mapping", VStr []); ($"param_override", VStr []);
   ($"status_code_mapping", VStr []); ($"models", VArr []); ($"auto_ban", int 1); ($"test_model", VStr []);
   ($"groups", strs [$"default"]); ($"priority", int 0); ($"weight", int 0); ($"tag", VStr []); ($"multi_key_mode", VStr $"random");
   ($"force_format", VBool false); ($"thinking_to_content", VBool false); ($"proxy", VStr []);
   ($"pass_through_body_enabled", VBool false); ($"system_prompt", VStr []); ($"system_prompt_override", VBool false);
   ($"settings", VStr []); ($"vertex_key_type", VStr $"json"); ($"aws_key_type", VStr $"ak_sk"); ($"is_enterprise_account", VBool false);
   ($"allow_service_tier", VBool false); ($"disable_store", VBool false); ($"allow_safety_identifier", VBool false);
   ($"allow_include_obfuscation", VBool false); ($"allow_inference_geo", VBool false); ($"allow_speed", VBool false);
   ($"claude_beta_query", VBool false); ($"upstream_model_update_check_enabled", VBool false);
   ($"upstream_model_update_auto_sync_enabled", VBool false); ($"upstream_model_update_last_check_time", int 0);
   ($"upstream_model_update_last_detected_models", VArr []); ($"upstream_model_update_ignored_models", VStr [])].

(** ** State *)

(** An uploaded file; its text, when the widget has the file. *)
Record file := File { f_name : jsstr; f_text : option jsstr }.

Record key_state := KeyState {
  batch : bool; multiToSingle : bool; multiKeyMode : jsstr; isMultiKeyChannel : bool; useManualInput : bool; keyMode : jsstr;
  vertexKeys : list val; vertexFileList : list file
}.

(** What the channel was when it was loaded. *)
Record refs := Refs { initialBaseUrl : val; initialModels : list jsstr; initialModelMapping : val; initialStatusCodeMapping : val }.

Record form := Form {
  channelId : option Z; loading : bool; inputs : object; channelSettings : object; ks : key_state; rf : refs;
  autoBan : bool; isEnterpriseAccount : bool; isIonetChannel : bool; basicModels : list jsstr; customModel : jsstr;
  doubaoClicks : Z; doubaoApiEditUnlocked : bool; advancedSettingsOpen : bool; clipboardConfig : option (jsstr * jsstr)
}.

Definition isEdit (f : form) : bool := match channelId f with Some _ => true | None => false end.

Definition set_inputs (i : object) (f : form) : form :=
  Form (channelId f) (loading f) i (channelSettings f) (ks f) (rf f) (autoBan f) (isEnterpriseAccount f) (isIonetChannel f) (basicModels f)
    (customModel f) (doubaoClicks f) (doubaoApiEditUnlocked f) (advancedSettingsOpen f) (clipboardConfig f).
Definition set_channelSettings (c : object) (f : form) : form :=
  Form (channelId f) (loading f) (inputs f) c (ks f) (rf f) (autoBan f) (isEnterpriseAccount f) (isIonetChannel f) (basicModels f)
    (customModel f) (doubaoClicks f) (doubaoApiEditUnlocked f) (advancedSettingsOpen f) (clipboardConfig f).
Definition set_ks (k : key_state) (f : form) : form :=
  Form (channelId f) (loading f) (inputs f) (channelSettings f) k (rf f) (autoBan f) (isEnterpriseAccount f) (isIonetChannel f) (basicModels f)
    (customModel f) (doubaoClicks f) (doubaoApiEditUnlocked f) (advancedSettingsOpen f) (clipboardConfig f).
Definition set_basic (b : list jsstr) (f : form) : form :=
  Form (channelId f) (loading f) (inputs f) (channelSettings f) (ks f) (rf f) (autoBan f) (isEnterpriseAccount f) (isIonetChannel f) b
    (customModel f) (doubaoClicks f) (doubaoApiEditUnlocked f) (advancedSettingsOpen f) (clipboardConfig f).
Definition set_custom (c : jsstr) (f : form) : form :=
  Form (channelId f) (loading f) (inputs f) (channelSettings f) (ks f) (rf f) (autoBan f) (isEnterpriseAccount f) (isIonetChannel f) (basicModels f)
    c (doubaoClicks f) (doubaoApiEditUnlocked f) (advancedSettingsOpen f) (clipboardConfig f).
Definition set_clipboard (c : option (jsstr * jsstr)) (f : form) : form :=
  Form (channelId f) (loading f) (inputs f) (channelSettings f) (ks f) (rf f) (autoBan f) (isEnterpriseAccount f) (isIonetChannel f) (basicModels f)
    (customModel f) (doubaoClicks f) (doubaoApiEditUnlocked f) (advancedSettingsOpen f) c.
Definition set_doubao (n : Z) (b : bool) (f : form) : form :=
  Form (channelId f) (loading f) (inputs f) (channelSettings f) (ks f) (rf f) (autoBan f) (isEnterpriseAccount f) (isIonetChannel f) (basicModels f)
    (customModel f) n b (advancedSettingsOpen f) (clipboardConfig f).

Definition put (k : jsstr) (v : val) (f : form) : form := set_inputs (prop_set k v (inputs f)) f.

(** ** Handlers *)

Definition DOUBAO_URL : jsstr := $"https://ark.cn-beijing.volces.com".

Section Handlers.
Context (getChannelModels : val -> list jsstr).

Definition MJ_MODELS : list jsstr :=
  [$"mj_imagine"; $"mj_variation"; $"mj_reroll"; $"mj_blend"; $"mj_upscale"; $"mj_describe"; $"mj_uploads"].
Definition MJ_PLUS_MODELS : list jsstr :=
  [$"swap_face"; $"mj_imagine"; $"mj_video"; $"mj_edits"; $"mj_variation"; $"mj_reroll"; $"mj_blend"; $"mj_upscale"; $"mj_describe";
   $"mj_zoom"; $"mj_shorten"; $"mj_modal"; $"mj_inpaint"; $"mj_custom_zoom"; $"mj_high_variation"; $"mj_low_variation"; $"mj_pan"; $"mj_uploads"].

Definition type_models (v : val) : list jsstr :=
  if is_int v 2 then MJ_MODELS
  else if is_int v 5 then MJ_PLUS_MODELS
  else if is_int v 36 then [$"suno_music"; $"suno_lyrics"]
  else getChannelModels v.

Definition models_of (o : object) : list val := match fld $"models" o with VArr l => l | _ => [] end.

(** The part of handleInputChange for a change of the type; [was] are the inputs of the render. *)
Definition type_changed (was : object) (v : val) (f : form) : form :=
  let local := type_models v in
  let f1 := if is_int v 45 then put $"base_url" (VStr DOUBAO_URL) f else f in
  let f2 := match models_of was with [] => put $"models" (strs local) f1 | _ => f1 end in
  let k := ks f2 in
  let f3 := set_ks (KeyState (batch k) (multiToSingle k) (multiKeyMode k) (isMultiKeyChannel k) false (keyMode k) (vertexKeys k) (vertexFileList k))
              (set_basic local f2) in
  if is_int v 57 then
    let k := ks f3 in
    put $"vertex_files" (VArr []) (set_ks (KeyState false false $"random" (isMultiKeyChannel k) (useManualInput k) (keyMode k) [] []) f3)
  else f3.

(** A value that waits for the answer to the warning about [/v1]. *)
Definition handleInputChange (name : jsstr) (value : val) (f : form) : outcome (form * option val) :=
  if isIonetChannel f && isEdit f && existsb (str_eqb name) [$"type"; $"key"; $"base_url"] then Ret (f, None)
  else
    bind_outcome
      match name =s? $"models", value with
      | true, VArr l => bind_outcome (trimmed l) (fun t => Ret (strs (uniq t)))
      | _, _ => Ret value
      end (fun v =>
    bind_outcome (if name =s? $"base_url" then bind_outcome (as_string v) (fun s => Ret (endsWith $"/v1" s)) else Ret false) (fun ask =>
    if ask then Ret (f, Some v)
    else
      let f1 := put name v f in
      Ret (if name =s? $"type" then type_changed (inputs f) v f1 else f1, None))).

(** The answer to the warning. *)
Definition confirm_base_url (v : val) (f : form) : form := put $"base_url" v f.

Definition change (name : jsstr) (value : val) (f : form) : outcome form := bind_outcome (handleInputChange name value f) (fun r => Ret r.1).

(** [was] is the form of the render the handler belongs to. *)
Definition handleChannelSettingsChange (k : jsstr) (v : val) (was f : form) : outcome form :=
  let f1 := put k v (set_channelSettings (prop_set k v (channelSettings f)) f) in
  change $"setting" (VStr (json (VObj (prop_set k v (channelSettings was))))) f1.

(** [settings[key] = value]: assigning to a primitive throws, a named member of an array is not written. *)
Definition assign_text (s : val) (set : object -> object) : outcome jsstr :=
  match s with
  | VObj o => Ret (json (VObj (set o)))
  | VArr _ => Ret (json s)
  | _ => Throw
  end.

Definition parsed_settings (o : object) : val :=
  if truthy (fld $"settings" o) then catch (parse_val (fld $"settings" o)) (VObj []) else VObj [].

Definition handleChannelOtherSettingsChange (k : jsstr) (v : val) (was f : form) : outcome form :=
  let f1 := put k v (set_channelSettings (prop_set k v (channelSettings f)) f) in
  bind_outcome (assign_text (parsed_settings (inputs was)) (prop_set k v)) (fun s => change $"settings" (VStr s) f1).

Definition applyClipboardConfig (config : jsstr * jsstr) (f : form) : form :=
  set_clipboard None (set_inputs (prop_set $"base_url" (VStr config.2) (prop_set $"key" (VStr config.1) (inputs f))) f).

(** The text is read from the inputs of the render. *)
Definition formatJsonField (k : jsstr) (was f : form) : outcome form :=
  let v := fld k (inputs was) in
  bind_outcome (if is_nullish v then Ret [] else as_string v) (fun s =>
  let raw := trim s in
  if nonempty raw then match parse raw with Some x => change k (VStr (json2 x)) f | None => Ret f end else Ret f).

(** A credential from the authorization dialog. *)
Definition handleCodexOAuthGenerated (key : jsstr) (was : form) : outcome form :=
  bind_outcome (change $"key" (VStr key) was) (fun f => formatJsonField $"key" was f).

Definition handleApiConfigSecretClick (f : form) : form :=
  if is_type (inputs f) 45 then let next := doubaoClicks f + 1 in set_doubao next (doubaoApiEditUnlocked f || (10 <=? next)) f else f.
(** The effect on the type. *)
Definition doubao_effect (f : form) : form := if is_type (inputs f) 45 then f else set_doubao 0 false f.

(** *** Templates of the parameter override *)

Definition PARAM_OVERRIDE_LEGACY_TEMPLATE : object := [($"temperature", int 0)].
Definition PARAM_OVERRIDE_OPERATIONS : list val :=
  [VObj [($"path", VStr $"temperature"); ($"mode", VStr $"set"); ($"value", VNum (Number_str $"0.7"));
         ($"conditions", VArr [VObj [($"path", VStr $"model"); ($"mode", VStr $"prefix"); ($"value", VStr $"openai/")]]);
         ($"logic", VStr $"AND")]].

Definition param_text (f : form) : jsstr := match fld $"param_override" (inputs f) with VStr s => trim s | _ => [] end.

Definition parseParamOverrideInput (f : form) : outcome val :=
  if nonempty (param_text f) then match parse (param_text f) with Some v => Ret v | None => Throw end else Ret VNull.

Definition operations_of (v : val) : option (list val) := match v with VObj o => match fld $"operations" o with VArr l => Some l | _ => None end | _ => None end.

(** [legacy] and [fill] are the arguments of applyParamOverrideTemplate; an error is shown. *)
Definition template_text (legacy fill : bool) (current : val) : jsstr :=
  if legacy then
    if fill then json2 (VObj PARAM_OVERRIDE_LEGACY_TEMPLATE)
    else
      let own := match current, operations_of current with VObj o, None => o | _, _ => [] end in
      json2 (VObj (prop_assign PARAM_OVERRIDE_LEGACY_TEMPLATE own))
  else if fill then json2 (VObj [($"operations", VArr PARAM_OVERRIDE_OPERATIONS)])
  else json2 (VObj [($"operations", VArr (default [] (operations_of current) ++ PARAM_OVERRIDE_OPERATIONS))]).

Definition applyParamOverrideTemplate (legacy fill : bool) (f : form) : form :=
  catch (bind_outcome (parseParamOverrideInput f) (fun c => change $"param_override" (VStr (template_text legacy fill c)) f)) f.

Definition clearParamOverride (f : form) : outcome form := change $"param_override" (VStr []) f.

(** *** Models *)

Definition addCustomModels (f : form) : outcome form :=
  if nonempty (trim (customModel f)) then
    let names := map trim (split_char 44 (customModel f)) in
    let add (l : list val) (m : jsstr) := if nonempty m && negb (existsb (fun v => eq_str v m) l) then l ++ [VStr m] else l in
    change $"models" (VArr (fold_left add names (models_of (inputs f)))) (set_custom [] f)
  else Ret f.

(** The models of a group are added to those in the form. *)
Definition add_group_items (current items : list val) (f : form) : outcome form :=
  bind_outcome (trimmed (current ++ items)) (fun t => change $"models" (strs (uniq (filter_Boolean t))) f).

Definition group_items (items : val) : list val :=
  match items with
  | VArr l => l
  | VStr s => match parse (if nonempty s then s else $"[]") with Some (VArr l) => l | _ => [] end
  | _ => []
  end.

(** The models of an Ollama server. *)
Definition apply_models (ids : list val) (f : form) : outcome form :=
  match ids with
  | [] => Ret f
  | _ => change $"models" (strs (uniq (map String_val (models_of (inputs f)) ++ map String_val ids))) f
  end.

(** The dialog that picks the target of a redirected model. *)
Definition pick_mapping_target (mappingKey selected : jsstr) (f : form) : outcome form :=
  let name := trim selected in
  let key := trim mappingKey in
  if nonempty name && nonempty key then
    let parsed := match fld $"model_mapping" (inputs f) with
                  | VStr s => if nonempty (trim s) then match parse s with Some (VObj o) => o | _ => [] end else []
                  | VObj o => o
                  | _ => []
                  end in
    change $"model_mapping" (VStr (json2 (VObj (prop_set key (VStr name) parsed)))) f
  else Ret f.

(** *** Keys *)

Fixpoint read_files (l : list file) : list (file * val) :=
  match l with
  | [] => []
  | x :: r => match f_text x with
              | Some s => match parse s with Some v => (x, v) :: read_files r | None => read_files r end
              | None => read_files r
              end
  end.

Definition last_only {A} (l : list A) : list A := match rev l with [] => [] | x :: _ => [x] end.

(** What the widget keeps of the files is not looked into. *)
Definition files_val (l : list file) : val := VArr (map (fun x => VObj [($"name", VStr (f_name x))]) l).

Definition set_files (l : list file) (keys : list val) (f : form) : form :=
  let k := ks f in
  put $"vertex_files" (files_val l)
    (set_ks (KeyState (batch k) (multiToSingle k) (multiKeyMode k) (isMultiKeyChannel k) (useManualInput k) (keyMode k) keys l) f).

Definition handleVertexUploadChange (l : list file) (f : form) : form :=
  let good := read_files l in
  let kept := if negb (batch (ks f)) && (1 <? Z.of_nat (length good)) then last_only good else good in
  set_files (map fst kept) (map snd kept) f.

Definition set_batch (b m : bool) (mode : jsstr) (f : form) : form :=
  let k := ks f in set_ks (KeyState b m mode (isMultiKeyChannel k) (useManualInput k) (keyMode k) (vertexKeys k) (vertexFileList k)) f.

(** The tick of batch creation; with several files it asks before it is taken away. *)
Definition batch_asks (checked : bool) (f : form) : bool := negb checked && (1 <? Z.of_nat (length (vertexFileList (ks f)))).

Definition batch_changed (checked : bool) (f : form) : outcome form :=
  if checked then
    let k := ks f in
    let f1 := set_ks (KeyState true (multiToSingle k) (multiKeyMode k) (isMultiKeyChannel k) false (keyMode k) (vertexKeys k) (vertexFileList k)) f in
    if is_type (inputs f) 41 then change $"key" (VStr []) f1 else Ret f1
  else Ret (set_batch false false $"random" f).

Definition batch_confirmed (f : form) : form :=
  let k := ks f in
  let firstKey := match vertexKeys k with v :: _ => if truthy v then [v] else [] | [] => [] end in
  set_batch false false $"random" (set_files (take 1 (vertexFileList k)) firstKey f).

(** The tick of one channel with several keys. *)
Definition toggle_multi (f : form) : form :=
  let k := ks f in
  let next := negb (multiToSingle k) in
  let f1 := set_batch (batch k) next (multiKeyMode k) f in
  set_inputs (if next then prop_set $"multi_key_mode" (VStr (multiKeyMode k)) (inputs f) else prop_delete $"multi_key_mode" (inputs f)) f1.

Definition deduplicateKeys (text : jsstr) (f : form) : outcome form :=
  if nonempty (trim text) then change $"key" (VStr (join [10] (uniq (filter_Boolean (map trim (split_char 10 text)))))) f else Ret f.

(** File upload or manual input of a Vertex key. *)
Definition use_upload (f : form) : outcome form :=
  let k := ks f in
  change $"key" (VStr []) (set_ks (KeyState (batch k) (multiToSingle k) (multiKeyMode k) (isMultiKeyChannel k) false (keyMode k) (vertexKeys k) (vertexFileList k)) f).
Definition use_manual (f : form) : form :=
  let k := ks f in
  put $"vertex_files" (VArr []) (set_ks (KeyState (batch k) (multiToSingle k) (multiKeyMode k) (isMultiKeyChannel k) true (keyMode k) [] []) f).

End Handlers.

(** ** Loading a channel *)

(** The fields of [setting], and their values when it cannot be read. *)
Definition SETTING_FIELDS : list (jsstr * val) :=
  [($"force_format", VBool false); ($"thinking_to_content", VBool false); ($"proxy", VStr []);
   ($"pass_through_body_enabled", VBool false); ($"system_prompt", VStr []); ($"system_prompt_override", VBool false)].

Definition with_setting (data : object) : object :=
  let defaults := set_all SETTING_FIELDS data in
  if truthy (fld $"setting" data) then
    match parse_val (fld $"setting" data) with
    | Ret p => if is_nullish p then defaults else set_all (map (fun kd => (kd.1, or_else (get_any p kd.1) kd.2)) SETTING_FIELDS) data
    | Throw => defaults
    end
  else defaults.

Definition OTHER_FLAGS : list jsstr :=
  [$"allow_service_tier"; $"disable_store"; $"allow_safety_identifier"; $"allow_include_obfuscation"; $"allow_inference_geo"; $"allow_speed"; $"claude_beta_query"].

(** The fields of [settings] for a channel without readable settings. *)
Definition OTHER_DEFAULTS : object :=
  [($"vertex_key_type", VStr $"json"); ($"aws_key_type", VStr $"ak_sk"); ($"is_enterprise_account", VBool false)]
  ++ map (fun k => (k, VBool false)) OTHER_FLAGS
  ++ [($"upstream_model_update_check_enabled", VBool false); ($"upstream_model_update_auto_sync_enabled", VBool false);
      ($"upstream_model_update_last_check_time", int 0); ($"upstream_model_update_last_detected_models", VArr []);
      ($"upstream_model_update_ignored_models", VStr [])].

Definition other_fields (p : val) : object :=
  let g k := get_any p k in
  [($"azure_responses_version", or_else (g $"azure_responses_version") (VStr []));
   ($"vertex_key_type", or_else (g $"vertex_key_type") (VStr $"json")); ($"aws_key_type", or_else (g $"aws_key_type") (VStr $"ak_sk"));
   ($"is_enterprise_account", VBool (is_true (g $"openrouter_enterprise")))]
  ++ map (fun k => (k, or_else (g k) (VBool false))) OTHER_FLAGS
  ++ [($"upstream_model_update_check_enabled", VBool (is_true (g $"upstream_model_update_check_enabled")));
      ($"upstream_model_update_auto_sync_enabled", VBool (is_true (g $"upstream_model_update_auto_sync_enabled")));
      ($"upstream_model_update_last_check_time",
        let n := Number_val (g $"upstream_model_update_last_check_time") in VNum (if num_truthy n then n else n0));
      ($"upstream_model_update_last_detected_models",
        match g $"upstream_model_update_last_detected_models" with VArr l => VArr l | _ => VArr [] end);
      ($"upstream_model_update_ignored_models",
        match g $"upstream_model_update_ignored_models" with VArr l => VStr (join_vals l) | _ => VStr [] end)].

Definition with_settings (data : object) : object :=
  if truthy (fld $"settings" data) then
    let failed := set_all OTHER_DEFAULTS (prop_set $"region" (VStr []) (prop_set $"azure_responses_version" (VStr []) data)) in
    match parse_val (fld $"settings" data) with
    | Ret p => if is_nullish p then failed else set_all (other_fields p) data
    | Throw => failed
    end
  else set_all OTHER_DEFAULTS data.

(** [data.models === '' ? [] : data.models.split(',')] *)
Definition split_list (v : val) : outcome val :=
  bind_outcome (as_string v) (fun s => Ret (if nonempty s then strs (split_char 44 s) else VArr [])).

Definition with_lists (data : object) : outcome object :=
  bind_outcome (split_list (fld $"models" data)) (fun m =>
  let d1 := prop_set $"models" m data in
  bind_outcome (split_list (fld $"group" d1)) (fun g => Ret (prop_set $"groups" g d1))).

Definition with_mapping (data : object) : outcome object :=
  if eq_str (fld $"model_mapping" data) [] then Ret data
  else bind_outcome (parse_val (fld $"model_mapping" data)) (fun v => Ret (prop_set $"model_mapping" (VStr (json2 v)) data)).

Definition is_multi (data : object) : bool := is_true (get (or_else (fld $"channel_info" data) (VObj [])) $"is_multi_key").
Definition multi_mode (data : object) : val := or_else (get (or_else (fld $"channel_info" data) (VObj [])) $"multi_key_mode") (VStr $"random").
Definition with_mode (data : object) : object := if is_multi data then prop_set $"multi_key_mode" (multi_mode data) data else data.

Definition with_base_url (data : object) : object :=
  let u := fld $"base_url" data in
  if is_type data 45 && (negb (truthy u) || match u with VStr s => negb (nonempty (trim s)) | _ => false end)
  then prop_set $"base_url" (VStr DOUBAO_URL) data else data.

(** The inputs a channel is loaded into. *)
Definition load_inputs (data : object) : outcome object :=
  bind_outcome (with_lists data) (fun d1 =>
  bind_outcome (with_mapping d1) (fun d2 => Ret (with_base_url (with_settings (with_setting (with_mode d2)))))).

(** An external deployment owns the channel. *)
Definition managedByIonet (data : object) : bool :=
  if truthy (fld $"other_info" data)
  then match parse_val (fld $"other_info" data) with Ret (VObj o) => eq_str (fld $"source" o) $"ionet" | _ => false end
  else false.

Definition text_set (v : val) : outcome bool := if truthy v then bind_outcome (as_string v) (fun s => Ret (nonempty (trim s))) else Ret false.

Fixpoint any_text (ks : list jsstr) (data : object) : outcome bool :=
  match ks with
  | [] => Ret false
  | k :: r => bind_outcome (text_set (fld k data)) (fun b => if b then Ret true else any_text r data)
  end.

Definition hasAdvancedValues (data : object) : outcome bool :=
  bind_outcome (any_text [$"model_mapping"; $"param_override"; $"status_code_mapping"; $"header_override"; $"tag"; $"remark"] data) (fun a =>
  if a then Ret true
  else if truthy (fld $"priority" data) || truthy (fld $"weight" data) then Ret true
  else bind_outcome (any_text [$"proxy"; $"system_prompt"] data) (fun b =>
  Ret (b || existsb (fun k => truthy (fld k data))
              [$"thinking_to_content"; $"pass_through_body_enabled"; $"force_format"; $"claude_beta_query"; $"system_prompt_override"]))).

Definition text_of (v : val) : jsstr := match v with VStr s => s | _ => [] end.

(** The form once a successful answer was read.  A throw is an answer that cannot be read; the
    loading state is only left at the end, so the form stays in it. *)
Definition loadChannel (getChannelModels : val -> list jsstr) (data : object) (f : form) : outcome form :=
  bind_outcome (load_inputs data) (fun d =>
  bind_outcome (trimmed (models_of d)) (fun ms =>
  bind_outcome (hasAdvancedValues d) (fun adv =>
  let k := ks f in
  let multi := is_multi data in
  let k' := KeyState multi multi (if multi then String_val (multi_mode data) else multiKeyMode k) multi (useManualInput k) (keyMode k) (vertexKeys k) (vertexFileList k) in
  Ret (Form (channelId f) false d
         [($"force_format", fld $"force_format" d); ($"thinking_to_content", fld $"thinking_to_content" d); ($"proxy", fld $"proxy" d);
          ($"pass_through_body_enabled", fld $"pass_through_body_enabled" d); ($"system_prompt", fld $"system_prompt" d);
          ($"system_prompt_override", or_else (fld $"system_prompt_override" d) (VBool false))]
         k' (Refs (or_else (fld $"base_url" d) (VStr [])) (filter_Boolean ms) (or_else (fld $"model_mapping" d) (VStr []))
               (or_else (fld $"status_code_mapping" d) (VStr [])))
         (negb (is_int (fld $"auto_ban" d) 0)) (truthy (fld $"is_enterprise_account" d)) (managedByIonet d) (getChannelModels (fld $"type" d))
         (customModel f) (doubaoClicks f) (doubaoApiEditUnlocked f) (advancedSettingsOpen f || adv) (clipboardConfig f))))).

(** ** Submitting *)

(** A check of the submit: it goes on, stops with a message, or throws. *)
Inductive check (A : Type) := Go (a : A) | Halt (msg : jsstr) | Crash.
Arguments Go {A} a.
Arguments Halt {A} msg.
Arguments Crash {A}.

Definition bind_check {A B} (x : check A) (k : A -> check B) : check B :=
  match x with Go a => k a | Halt m => Halt m | Crash => Crash end.
Definition lift {A} (x : outcome A) : check A := match x with Ret a => Go a | Throw => Crash end.

Notation "'let!' x ':=' c 'in' k" := (bind_check c (fun x => k)) (at level 10, x name, c at level 100, k at level 200).

Definition MSG_BATCH : jsstr := $"Codex 渠道不支持批量创建".
Definition MSG_KEY : jsstr := $"请输入密钥！".
Definition MSG_KEY_JSON : jsstr := $"密钥必须是合法的 JSON 格式！".
Definition MSG_KEY_OBJECT : jsstr := $"密钥必须是 JSON 对象".
Definition MSG_ACCESS : jsstr := $"密钥 JSON 必须包含 access_token".
Definition MSG_ACCOUNT : jsstr := $"密钥 JSON 必须包含 account_id".
Definition MSG_VERTEX_JSON : jsstr := $"密钥格式无效，请输入有效的 JSON 格式密钥".
Definition MSG_VERTEX_FILES : jsstr := $"解析密钥文件失败".
Definition MSG_UPLOAD : jsstr := $"请上传密钥文件！".
Definition MSG_NAME_KEY : jsstr := $"请填写渠道名称和渠道密钥！".
Definition MSG_MODELS : jsstr := $"请至少选择一个模型！".
Definition MSG_URL : jsstr := $"请输入API地址！".
Definition MSG_MAPPING : jsstr := $"模型映射必须是合法的 JSON 格式！".
Definition MSG_CODES : jsstr := $"状态码复写包含无效的状态码".
Definition MSG_CANCEL : jsstr := $"cancel".

(** The key of a Codex channel is a JSON object with two members. *)
Definition codex_key (edit is_batch : bool) (li : object) : check object :=
  if negb (is_type li 57) then Go li
  else if is_batch then Halt MSG_BATCH
  else
    let! s := lift (string_or_empty (fld $"key" li)) in
    let rawKey := trim s in
    if negb (nonempty rawKey) then if edit then Go li else Halt MSG_KEY
    else match parse rawKey with
         | None => Halt MSG_KEY_JSON
         | Some (VObj o) =>
           let text k := trim (String_val (or_else (fld k o) (VStr []))) in
           if negb (nonempty (text $"access_token")) then Halt MSG_ACCESS
           else if negb (nonempty (text $"account_id")) then Halt MSG_ACCOUNT
           else Go (prop_set $"key" (VStr (json (VObj o))) li)
         | Some _ => Halt MSG_KEY_OBJECT
         end.

(** The files are read again when no key was kept; one unreadable file stops the submit. *)
Fixpoint parse_files (l : list file) : option (list val) :=
  match l with
  | [] => Some []
  | x :: r =>
    match f_text x with
    | None => parse_files r
    | Some s => match parse s, parse_files r with
                | Some v, Some vs => Some (if truthy v then v :: vs else vs)
                | _, _ => None
                end
    end
  end.

Definition vertex_key (edit : bool) (k : key_state) (li : object) : check object :=
  if negb (is_type li 41) then Go li
  else if eq_str (or_else (fld $"vertex_key_type" li) (VStr $"json")) $"api_key" then
    if edit then Go li else let! b := lift (is_blank (fld $"key" li)) in if b then Halt MSG_KEY else Go li
  else if useManualInput k then
    let! b := lift (is_blank (fld $"key" li)) in
    if b then if edit then Go li else Halt MSG_KEY
    else match parse_val (fld $"key" li) with
         | Ret v => Go (prop_set $"key" (VStr (json v)) li)
         | Throw => Halt MSG_VERTEX_JSON
         end
  else
    let! keys := match vertexKeys k, vertexFileList k with
                 | [], _ :: _ => match parse_files (vertexFileList k) with Some l => Go l | None => Halt MSG_VERTEX_FILES end
                 | l, _ => Go l
                 end in
    match keys with
    | [] => if edit then Go (prop_delete $"key" li) else Halt MSG_UPLOAD
    | v :: _ => Go (prop_set $"key" (VStr (if batch k then json (VArr keys) else json v)) li)
    end.

(** An empty key of an edited channel is not sent: the old one stays. *)
Definition drop_blank_key (edit : bool) (li : object) : check object :=
  let! b := if edit then lift (is_blank (fld $"key" li)) else Go false in
  Go (prop_delete $"vertex_files" (if b then prop_delete $"key" li else li)).

Definition required (edit : bool) (li : object) : check object :=
  if negb edit && (negb (truthy (fld $"name" li)) || negb (truthy (fld $"key" li))) then Halt MSG_NAME_KEY
  else match fld $"models" li with
       | VArr (_ :: _) =>
         let! b := if is_type li 45 then lift (is_blank (fld $"base_url" li)) else Go false in
         if b then Halt MSG_URL else Go li
       | _ => Halt MSG_MODELS
       end.

(** The mapping of models, when there is one. *)
Definition mapping_of_inputs (li : object) : check (option val) :=
  match fld $"model_mapping" li with
  | VStr s => if nonempty (trim s) then match parse s with Some v => Go (Some v) | None => Halt MSG_MAPPING end else Go None
  | _ => Go None
  end.

Definition hasModelConfigChanged (edit : bool) (r : refs) (models : list jsstr) (mapping : val) : bool :=
  negb edit || negb (bool_decide (models = initialModels r))
  || negb (trim (text_of mapping) =s? trim (text_of (initialModelMapping r))).

Definition missingModels (mapping : option val) (models : list jsstr) : list jsstr :=
  match mapping with
  | Some (VObj o) => List.filter (fun k => nonempty k && negb (existsb (str_eqb k) models)) (map trim (keys o))
  | _ => []
  end.

(** The JSON of the extra settings. *)
Definition setting_text (li : object) : jsstr :=
  json (VObj (map (fun kd => (kd.1, or_else (fld kd.1 li) kd.2)) SETTING_FIELDS)).

Definition flag_of (li : object) (k : jsstr) : jsstr * val := (k, VBool (is_true (fld k li))).

(** The other settings: each type has its own, the checks for new models are common. *)
Definition type_settings (li : object) (s : object) : object :=
  let s1 := if is_type li 20 then prop_set $"openrouter_enterprise" (VBool (is_true (fld $"is_enterprise_account" li))) s else s in
  let s2 := if is_type li 33 then prop_set $"aws_key_type" (or_else (fld $"aws_key_type" li) (VStr $"ak_sk")) s1 else s1 in
  let s3 := if is_type li 41 then prop_set $"vertex_key_type" (or_else (fld $"vertex_key_type" li) (VStr $"json")) s2
            else prop_delete $"vertex_key_type" s2 in
  if is_type li 1 then
    set_all (map (flag_of li) [$"allow_service_tier"; $"disable_store"; $"allow_safety_identifier"; $"allow_include_obfuscation"]) s3
  else if is_type li 14 then
    set_all (map (flag_of li) [$"allow_service_tier"; $"allow_inference_geo"; $"allow_speed"; $"claude_beta_query"]) s3
  else s3.

Definition ignored_models (li : object) : list jsstr :=
  uniq (filter_Boolean (map trim (split_char 44 (String_val (or_else (fld $"upstream_model_update_ignored_models" li) (VStr [])))))).

Definition update_settings (li : object) (s : object) : object :=
  let enabled := is_true (fld $"upstream_model_update_check_enabled" li) in
  let s1 := set_all [($"upstream_model_update_check_enabled", VBool enabled);
                     ($"upstream_model_update_auto_sync_enabled", VBool (enabled && is_true (fld $"upstream_model_update_auto_sync_enabled" li)));
                     ($"upstream_model_update_ignored_models", strs (ignored_models li))] s in
  let s2 := match fld $"upstream_model_update_last_detected_models" s1, enabled with
            | VArr _, true => s1
            | _, _ => prop_set $"upstream_model_update_last_detected_models" (VArr []) s1
            end in
  match fld $"upstream_model_update_last_check_time" s2 with
  | VNum _ => s2
  | _ => prop_set $"upstream_model_update_last_check_time" (int 0) s2
  end.

Definition TEMPORARY : list jsstr :=
  [$"force_format"; $"thinking_to_content"; $"proxy"; $"pass_through_body_enabled"; $"system_prompt"; $"system_prompt_override";
   $"is_enterprise_account"; $"vertex_key_type"; $"aws_key_type"; $"allow_service_tier"; $"disable_store"; $"allow_safety_identifier";
   $"allow_include_obfuscation"; $"allow_inference_geo"; $"allow_speed"; $"claude_beta_query"; $"upstream_model_update_check_enabled";
   $"upstream_model_update_auto_sync_enabled"; $"upstream_model_update_last_check_time"; $"upstream_model_update_last_detected_models";
   $"upstream_model_update_ignored_models"].

Definition tidy_url (li : object) : check object :=
  let u := fld $"base_url" li in
  if truthy u then let! s := lift (as_string u) in Go (if endsWith $"/" s then prop_set $"base_url" (VStr (removelast s)) li else li) else Go li.

Definition default_other (li : object) : object :=
  if is_type li 18 && eq_str (fld $"other" li) [] then prop_set $"other" (VStr $"v2.1") li else li.

Definition list_text (v : val) : check jsstr := match v with VArr l => Go (join_vals l) | _ => if truthy v then Crash else Go [] end.

(** The channel that is sent. *)
Definition channel_of (li : object) : check object :=
  let! li1 := tidy_url li in
  let li2 := default_other li1 in
  let li3 := prop_set $"setting" (VStr (setting_text li2)) li2 in
  let! s := lift (assign_text (parsed_settings li3) (fun s => update_settings li3 (type_settings li3 s))) in
  let li4 := delete_all TEMPORARY (prop_set $"settings" (VStr s) li3) in
  let li5 := prop_set $"auto_ban" (int (if truthy (fld $"auto_ban" li4) then 1 else 0)) li4 in
  let! m := list_text (fld $"models" li5) in
  let li6 := prop_set $"models" (VStr m) li5 in
  let! g := list_text (fld $"groups" li6) in
  Go (prop_set $"group" (VStr g) li6).

Inductive payload := Put (o : object) | Post (mode : jsstr) (multi_key_mode : option jsstr) (channel : object).

Definition payload_of (f : form) (li : object) : payload :=
  let k := ks f in
  match channelId f with
  | Some i => Put (prop_set $"key_mode" (if isMultiKeyChannel k then VStr (keyMode k) else VUndef) (prop_set $"id" (int i) li))
  | None =>
    let mode := if batch k then if multiToSingle k then $"multi_to_single" else $"batch" else $"single" in
    Post mode (if batch k && multiToSingle k then Some (multiKeyMode k) else None) li
  end.

(** What the submit does: it ends without a request or with one, or asks; adding the missing
    models also changes the form. *)
Inductive action := Cancel | SubmitAnyway | AddModels.
Inductive dialog :=
| Stopped (msg : jsstr) | Thrown | Sent (p : payload)
| AskMissing (missing : list jsstr) (k : action -> dialog)
| SetModels (l : list jsstr) (d : dialog)
| AskRisk (items : list jsstr) (k : bool -> dialog).

Definition run_check {A} (c : check A) (k : A -> dialog) : dialog :=
  match c with Go a => k a | Halt m => Stopped m | Crash => Thrown end.

Definition str_opt (v : val) : option jsstr := match v with VStr s => Some s | _ => None end.

(** The checks of the status codes, then the request. *)
Definition finish (f : form) (li : object) : dialog :=
  match collectInvalidStatusCodeEntries (str_opt (fld $"status_code_mapping" li)) with
  | _ :: _ => Stopped MSG_CODES
  | [] =>
    let send := run_check (channel_of li) (fun c => Sent (payload_of f c)) in
    match collectNewDisallowedStatusCodeRedirects (str_opt (initialStatusCodeMapping (rf f))) (str_opt (fld $"status_code_mapping" li)) with
    | [] => send
    | items => AskRisk items (fun ok => if ok then send else Stopped MSG_CANCEL)
    end
  end.

(** The checks before the first question. *)
Definition prepare (f : form) (values : object) : check object :=
  let! li1 := codex_key (isEdit f) (batch (ks f)) (prop_set $"param_override" (fld $"param_override" (inputs f)) values) in
  let! li2 := vertex_key (isEdit f) (ks f) li1 in
  let! li3 := drop_blank_key (isEdit f) li2 in
  required (isEdit f) li3.

Definition submit (f : form) (values : object) : dialog :=
  run_check (prepare f values) (fun li3 =>
  run_check (mapping_of_inputs li3) (fun mapping =>
  run_check (lift (trimmed (models_of li3))) (fun ms =>
  let models := filter_Boolean ms in
  let li := prop_set $"models" (strs models) li3 in
  let missing := missingModels mapping models in
  if match missing with [] => false | _ => true end && hasModelConfigChanged (isEdit f) (rf f) models (fld $"model_mapping" li) then
    AskMissing missing (fun a =>
      match a with
      | Cancel => Stopped MSG_CANCEL
      | SubmitAnyway => finish f li
      | AddModels => let all := uniq (models ++ missing) in SetModels all (finish f (prop_set $"models" (strs all) li))
      end)
  else finish f li))).

End ChannelForm.
