(* ===== verification/ChannelFormProofs.v ===== *)
(** * What the form of a channel sends

    The checks that every submit has passed, the questions it asked, and that a channel that
    is opened and saved without a change keeps its fields. *)
From S2P Require Import Prelude JSNum JSValue Json FormValues StatusCodeRiskGuard ChannelForm.
#[local] Open Scope Z_scope.
#[local] Arguments js _ : simpl never.

Module ChannelFormProofs.
Import FormValues StatusCodeRiskGuard ChannelForm.

Lemma is_type_same o o' z : prop $"type" o = prop $"type" o' -> is_type o z = is_type o' z.
Proof. intros H. unfold is_type. by rewrite (fld_of_prop _ _ _ H). Qed.

(** ** The checks *)

(** Case analysis on a check that went on. *)
Ltac go :=
  repeat match goal with
  | H : Go _ = Go _ |- _ => injection H as <-
  | H : Halt _ = Go _ |- _ => discriminate H
  | H : Crash = Go _ |- _ => discriminate H
  | H : bind_check ?c _ = Go _ |- _ => let E := fresh "E" in destruct c eqn:E; cbn [bind_check] in H; try discriminate H
  | H : (if ?b then _ else _) = Go _ |- _ => destruct b eqn:?
  | H : match ?x with _ => _ end = Go _ |- _ => destruct x eqn:?
  end; try discriminate.

Lemma bind_go {A B} (c : check A) (k : A -> check B) b : bind_check c k = Go b -> exists a, c = Go a /\ k a = Go b.
Proof. destruct c; cbn [bind_check]; [by eexists|done|done]. Qed.

Lemma Go_inj {A} (x y : A) : Go x = Go y -> x = y.
Proof. by intros [=]. Qed.

Definition PREPARED : list jsstr := [$"param_override"; $"key"; $"vertex_files"].

Lemma codex_frame edit b li li' k : codex_key edit b li = Go li' -> k <> $"key" -> prop k li' = prop k li.
Proof. unfold codex_key. intros H Hk. go; try done. by apply prop_set_ne. Qed.

Lemma vertex_frame edit ks li li' k : vertex_key edit ks li = Go li' -> k <> $"key" -> prop k li' = prop k li.
Proof.
  unfold vertex_key. intros H Hk. go; try done; try (by apply prop_set_ne); rewrite prop_delete_lookup; by destruct (str_eqb_spec k $"key").
Qed.

Lemma drop_frame edit li li' k : drop_blank_key edit li = Go li' -> k <> $"key" -> k <> $"vertex_files" -> prop k li' = prop k li.
Proof.
  unfold drop_blank_key. intros H Hk Hv. destruct (if edit then _ else _) as [b| |]; cbn [bind_check] in H; try done. injection H as <-.
  rewrite prop_delete_lookup. destruct (str_eqb_spec k $"vertex_files"); [done|]. destruct b; [|done]. rewrite prop_delete_lookup. by destruct (str_eqb_spec k $"key").
Qed.

Lemma required_same edit li li' : required edit li = Go li' -> li' = li.
Proof. unfold required. intros H. go; done. Qed.

Lemma prepare_frame f values li k : prepare f values = Go li -> memk k PREPARED = false -> prop k li = prop k values.
Proof.
  intros H Hk. unfold PREPARED in Hk. split_mem. unfold prepare in H. go. apply required_same in H as ->.
  match goal with H : drop_blank_key _ _ = Go _ |- _ => rewrite (drop_frame _ _ _ _ H) by done end.
  match goal with H : vertex_key _ _ _ = Go _ |- _ => rewrite (vertex_frame _ _ _ _ _ H) by done end.
  match goal with H : codex_key _ _ _ = Go _ |- _ => rewrite (codex_frame _ _ _ _ _ H) by done end.
  by apply prop_set_ne.
Qed.


(** ** What is sent *)

Definition SENT : list jsstr := [$"base_url"; $"other"; $"setting"; $"settings"; $"auto_ban"; $"models"; $"group"] ++ TEMPORARY.

Lemma tidy_frame li li' k : tidy_url li = Go li' -> k <> $"base_url" -> prop k li' = prop k li.
Proof. unfold tidy_url. intros H Hk. go; [|done]. destruct (endsWith _ _); [by apply prop_set_ne|done]. Qed.

Lemma other_frame li k : k <> $"other" -> prop k (default_other li) = prop k li.
Proof. intros Hk. unfold default_other. destruct (_ && _); [by apply prop_set_ne|done]. Qed.

(** The steps of a channel that is sent. *)
Lemma channel_steps li c :
  channel_of li = Go c ->
  exists li1 s m g, tidy_url li = Go li1
    /\ (let li2 := default_other li1 in
        let li3 := prop_set $"setting" (VStr (setting_text li2)) li2 in
        let li4 := delete_all TEMPORARY (prop_set $"settings" (VStr s) li3) in
        lift (assign_text (parsed_settings li3) (fun s => update_settings li3 (type_settings li3 s))) = Go s
        /\ list_text (fld $"models" (prop_set $"auto_ban" (int (if truthy (fld $"auto_ban" li4) then 1 else 0)) li4)) = Go m
        /\ c = prop_set $"group" (VStr g) (prop_set $"models" (VStr m) (prop_set $"auto_ban" (int (if truthy (fld $"auto_ban" li4) then 1 else 0)) li4))
        /\ list_text (fld $"groups" (prop_set $"models" (VStr m) (prop_set $"auto_ban" (int (if truthy (fld $"auto_ban" li4) then 1 else 0)) li4))) = Go g).
Proof.
  unfold channel_of. intros (li1 & E1 & H)%bind_go. exists li1.
  apply bind_go in H as (s & Es & H). exists s. apply bind_go in H as (m & Em & H). exists m. apply bind_go in H as (g & Eg & H). exists g.
  apply Go_inj in H. split; [done|]. cbv zeta. rewrite H. done.
Qed.

Lemma channel_frame li c k : channel_of li = Go c -> memk k SENT = false -> prop k c = prop k li.
Proof.
  intros H Hk. unfold SENT in Hk. cbn [app] in Hk. do 7 (apply memk_cons in Hk as [? Hk]). apply channel_steps in H as (li1 & s & m & g & E1 & H). cbv zeta in H. destruct H as (_ & _ & -> & _).
  rewrite !prop_set_ne, delete_all_lookup by done. change (existsb (str_eqb k) TEMPORARY) with (memk k TEMPORARY). rewrite Hk.
  rewrite !prop_set_ne, other_frame by done. by eapply tidy_frame.
Qed.


(** The channel in a request. *)
Definition channel_in (p : payload) : object := match p with Put o => o | Post _ _ c => c end.

Lemma payload_frame f li k : k <> $"id" -> k <> $"key_mode" -> prop k (channel_in (payload_of f li)) = prop k li.
Proof. intros H1 H2. unfold payload_of. destruct (channelId f); cbn [channel_in]; [|done]. by rewrite !prop_set_ne. Qed.

(** ** Questions and answers *)

Inductive answer := AAct (a : action) | ARisk (b : bool).

(** The answers that lead to a request. *)
Inductive sends : dialog -> list answer -> payload -> Prop :=
| sends_sent p : sends (Sent p) [] p
| sends_missing ms k a l p : sends (k a) l p -> sends (AskMissing ms k) (AAct a :: l) p
| sends_set ms d l p : sends d l p -> sends (SetModels ms d) l p
| sends_risk items k b l p : sends (k b) l p -> sends (AskRisk items k) (ARisk b :: l) p.

Lemma sends_check {A} (c : check A) (k : A -> dialog) l p : sends (run_check c k) l p -> exists a, c = Go a /\ sends (k a) l p.
Proof. destruct c; cbn [run_check]; intros H; [by eexists|inversion H|inversion H]. Qed.

Definition risky (f : form) (li : object) : list jsstr :=
  collectNewDisallowedStatusCodeRedirects (str_opt (initialStatusCodeMapping (rf f))) (str_opt (fld $"status_code_mapping" li)).

Lemma finish_sends f li l p :
  sends (finish f li) l p ->
  exists c, channel_of li = Go c /\ p = payload_of f c
    /\ collectInvalidStatusCodeEntries (str_opt (fld $"status_code_mapping" li)) = []
    /\ (risky f li = [] /\ l = [] \/ l = [ARisk true]).
Proof.
  unfold finish, risky. intros H. destruct (collectInvalidStatusCodeEntries _); [|by inversion H].
  set (send := run_check (channel_of li) _) in *.
  assert (Hs : forall l, sends send l p -> exists c, channel_of li = Go c /\ p = payload_of f c /\ l = []).
  { intros l' (c & E & Hc)%sends_check. inversion Hc; subst. by exists c. }
  destruct (collectNewDisallowedStatusCodeRedirects _ _) as [|x xs].
  - apply Hs in H as (c & E & -> & ->). exists c. auto 10.
  - inversion H as [| | |? ? b l' ? Hb]; subst. destruct b; [|by inversion Hb]. apply Hs in Hb as (c & E & -> & ->). exists c. auto.
Qed.

Lemma submit_sends f values l p :
  sends (submit f values) l p ->
  exists li ms l' (acts : list action), prepare f values = Go li
    /\ l = (map AAct acts ++ l') /\ (Cancel ∉ acts) /\ sends (finish f (prop_set $"models" (strs ms) li)) l' p
    /\ (exists mapping ts, mapping_of_inputs li = Go mapping /\ trimmed (models_of li) = Ret ts
        /\ (ms = filter_Boolean ts /\ (acts = [] \/ acts = [SubmitAnyway])
            \/ acts = [AddModels] /\ ms = uniq (filter_Boolean ts ++ missingModels mapping (filter_Boolean ts)))).
Proof.
  unfold submit. intros (li & E & H)%sends_check. exists li. apply sends_check in H as (mapping & Em & H). apply sends_check in H as (ts & Et & H).
  assert (Ets : trimmed (models_of li) = Ret ts) by (destruct (trimmed (models_of li)); [by apply Go_inj in Et as ->|done]).
  set (models := filter_Boolean ts) in *. destruct (_ && hasModelConfigChanged _ _ _ _).
  - inversion H as [|? ? a l1 ? Ha| |]; subst. destruct a.
    + by inversion Ha.
    + exists models, l1, [SubmitAnyway]. repeat split; try done; [by intros ?%list_elem_of_singleton|]. exists mapping, ts. split; [done|]. split; [done|]. left. auto.
    + inversion Ha as [| |? ? ? ? Hd|]; subst. exists (uniq (models ++ missingModels mapping models)), l1, [AddModels].
      split; [done|]. split; [done|]. split; [by intros ?%list_elem_of_singleton|].
      split; [|exists mapping, ts; split; [done|]; split; [done|]; by right].
      assert (Hset : forall v w : val, prop_set $"models" w (prop_set $"models" v li) = prop_set $"models" w li) by (intros; by apply prop_set_set).
      by rewrite Hset in Hd.
  - exists models, l, []. repeat split; try done; [by intros ?%not_elem_of_nil|]. exists mapping, ts. split; [done|]. split; [done|]. left. auto.
Qed.

(** The fields the submit may change. *)
Definition CHANGED : list jsstr := PREPARED ++ SENT ++ [$"id"; $"key_mode"].


(** ** The models that are sent *)

Lemma join_strs l : join_vals (map VStr l) = join $"," l.
Proof. unfold join_vals. rewrite map_map. cbn. by rewrite map_id. Qed.

Lemma channel_models li c ms : channel_of li = Go c -> fld $"models" li = strs ms -> fld $"models" c = VStr (join $"," ms).
Proof.
  intros H Hm. apply channel_steps in H as (li1 & s & m & g & E1 & H). cbv zeta in H. destruct H as (_ & Em & -> & _).
  rewrite fld_set_ne by done. rewrite fld_set_eq. f_equal. rewrite fld_set_ne in Em by done.
  assert (E : fld $"models" (delete_all TEMPORARY (prop_set $"settings" (VStr s) (prop_set $"setting" (VStr (setting_text (default_other li1))) (default_other li1)))) = strs ms).
  { unfold fld. rewrite delete_all_lookup. change (existsb (str_eqb $"models") TEMPORARY) with false. cbn iota.
    rewrite !prop_set_ne, other_frame by done. rewrite (tidy_frame _ _ _ E1) by done. exact Hm. }
  rewrite E in Em. unfold list_text, strs in Em. apply Go_inj in Em as <-. apply join_strs.
Qed.

Lemma mapping_same li li' : prop $"model_mapping" li = prop $"model_mapping" li' -> mapping_of_inputs li = mapping_of_inputs li'.
Proof. intros H. unfold mapping_of_inputs. by rewrite (fld_of_prop _ _ _ H). Qed.

(** The first answer adds the missing models. *)
Definition adds (l : list answer) : bool := match l with AAct AddModels :: _ => true | _ => false end.

(** The models that are sent are those of the form, trimmed, without blanks; after the answer
    that adds them, with the redirected models they lack. *)
Theorem sent_models_exact f values l p :
  sends (submit f values) l p ->
  exists ts mapping, trimmed (models_of values) = Ret ts /\ mapping_of_inputs values = Go mapping
    /\ let own := filter_Boolean ts in
       fld $"models" (channel_in p)
       = VStr (join $"," (if adds l then uniq (own ++ missingModels mapping own) else own)).
Proof.
  intros H. apply submit_sends in H as (li & ms & l' & acts & Ep & -> & Hc & Hf & mapping & ts & Em & Et & Hms).
  assert (Hp : forall k, memk k PREPARED = false -> prop k li = prop k values) by (intros k Hk; by eapply prepare_frame).
  exists ts, mapping. split; [|split].
  - rewrite <- Et. unfold models_of. by rewrite (fld_of_prop _ li values) by (by apply Hp; vm_compute).
  - rewrite <- Em. apply mapping_same. symmetry. by apply Hp; vm_compute.
  - cbn zeta. apply finish_sends in Hf as (c & Ec & -> & _ & Hr).
    rewrite (fld_of_prop _ _ c) by (by apply payload_frame). rewrite (channel_models _ _ ms Ec) by apply fld_set_eq.
    do 2 f_equal. destruct Hms as [[-> [-> | ->]]|[-> ->]]; [|done|done]. by destruct Hr as [[_ ->]| ->].
Qed.

(** ** Loading and saving without a change *)

Definition LOADED : list jsstr :=
  [$"models"; $"groups"; $"model_mapping"; $"multi_key_mode"; $"base_url"; $"region"; $"azure_responses_version"] ++ keys SETTING_FIELDS ++ keys OTHER_DEFAULTS.

Lemma lists_inv data d : with_lists data = Ret d -> exists m g, split_list (fld $"models" data) = Ret m /\ split_list (fld $"group" data) = Ret g
  /\ d = prop_set $"groups" g (prop_set $"models" m data).
Proof.
  unfold with_lists. destruct (split_list (fld $"models" data)) as [m|]; [|done]. cbn [bind_outcome]. rewrite fld_set_ne by done.
  destruct (split_list (fld $"group" data)) as [g|]; [|done]. cbn [bind_outcome]. intros <-%Ret_inj. by exists m, g.
Qed.

Lemma mapping_frame data d k : with_mapping data = Ret d -> k <> $"model_mapping" -> prop k d = prop k data.
Proof.
  unfold with_mapping. destruct (eq_str _ _); [by intros <-%Ret_inj|]. destruct (parse_val _); [|done]. cbn [bind_outcome]. intros <-%Ret_inj H. by apply prop_set_ne.
Qed.

Lemma setting_frame data k : k ∉ keys SETTING_FIELDS -> prop k (with_setting data) = prop k data.
Proof.
  intros H. unfold with_setting. destruct (truthy _); [|by apply set_all_other]. destruct (parse_val _) as [p|]; [|by apply set_all_other].
  destruct (is_nullish p); apply set_all_other; [done|]. unfold keys. rewrite map_map. exact H.
Qed.

Lemma other_keys p : keys (other_fields p) = $"azure_responses_version" :: keys OTHER_DEFAULTS.
Proof. unfold keys, other_fields, OTHER_DEFAULTS. rewrite !map_app, !map_map. cbn [map fst app]. reflexivity. Qed.

Lemma settings_frame data k : k ∉ keys OTHER_DEFAULTS -> k <> $"region" -> k <> $"azure_responses_version" -> prop k (with_settings data) = prop k data.
Proof.
  intros H H1 H2. unfold with_settings.
  assert (Hf : prop k (set_all OTHER_DEFAULTS (prop_set $"region" (VStr []) (prop_set $"azure_responses_version" (VStr []) data))) = prop k data).
  { rewrite set_all_other, !prop_set_ne by done. done. }
  destruct (truthy _); [|by apply set_all_other]. destruct (parse_val _) as [p|]; [|done]. destruct (is_nullish p); [done|].
  apply set_all_other. rewrite other_keys. by apply not_elem_of_cons.
Qed.

Lemma base_url_frame data k : k <> $"base_url" -> prop k (with_base_url data) = prop k data.
Proof. intros H. unfold with_base_url. destruct (_ && _); [by apply prop_set_ne|done]. Qed.

Lemma load_frame data d k : load_inputs data = Ret d -> memk k LOADED = false -> prop k d = prop k data.
Proof.
  intros H Hk. unfold LOADED in Hk. apply memk_app in Hk as [Hk Hk2]. apply memk_app in Hk2 as [Hk2 Hk3]. split_mem.
  apply memk_false in Hk2. apply memk_false in Hk3. unfold load_inputs in H.
  destruct (with_lists data) as [d1|] eqn:E1; [|done]. cbn [bind_outcome] in H. destruct (with_mapping d1) as [d2|] eqn:E2; [|done]. cbn [bind_outcome] in H.
  apply Ret_inj in H as <-. rewrite base_url_frame, settings_frame, setting_frame by done.
  assert (prop k (with_mode d2) = prop k d2) as -> by (unfold with_mode; destruct (is_multi d2); [by apply prop_set_ne|done]).
  rewrite (mapping_frame _ _ _ E2) by done. apply lists_inv in E1 as (m & g & _ & _ & ->). by rewrite !prop_set_ne.
Qed.

(** A field set while the lists and the mapping are read stays. *)
Lemma load_keeps data d1 d2 k :
  memk k ([$"multi_key_mode"; $"base_url"; $"region"; $"azure_responses_version"] ++ keys SETTING_FIELDS ++ keys OTHER_DEFAULTS) = false ->
  with_lists data = Ret d1 -> with_mapping d1 = Ret d2 -> prop k (with_base_url (with_settings (with_setting (with_mode d2)))) = prop k d2.
Proof.
  intros Hk E1 E2. apply memk_app in Hk as [Hk Hk2]. apply memk_app in Hk2 as [Hk2 Hk3]. split_mem.
  apply memk_false in Hk2. apply memk_false in Hk3. rewrite base_url_frame, settings_frame, setting_frame by done.
  unfold with_mode. destruct (is_multi d2); [by apply prop_set_ne|done].
Qed.

(** A channel as the server sends it: lists of trimmed names, a mapping that is JSON, no key. *)
Record server_channel (data : object) (ms gs : list jsstr) : Prop := ServerChannel {
  sc_models : fld $"models" data = VStr (join $"," ms) /\ ms <> [] /\ Forall (fun m => trim m = m /\ m <> [] /\ ~ In 44 m) ms;
  sc_groups : fld $"group" data = VStr (join $"," gs) /\ gs <> [] /\ Forall (fun g => g <> [] /\ ~ In 44 g) gs;
  sc_mapping : forall v, parse_val (fld $"model_mapping" data) = Ret v -> json_wf v;
  sc_key : is_blank (fld $"key" data) = Ret true;
  sc_codex : is_type data 57 = true -> is_multi data = false;
  sc_codes : collectInvalidStatusCodeEntries (str_opt (fld $"status_code_mapping" data)) = [];
  sc_url : truthy (fld $"base_url" data) = true -> exists u, fld $"base_url" data = VStr u;
  sc_settings : exists s, parsed_settings data = VObj s
}.

Lemma join_nonempty (l : list jsstr) : l <> [] -> Forall (fun x => x <> []) l -> join $"," l <> [].
Proof. intros Hn H. destruct H as [|x l Hx _]; [done|]. destruct l; [done|]. cbn [join]. by destruct x. Qed.

Lemma split_names k data l :
  fld k data = VStr (join $"," l) -> l <> [] -> Forall (fun x => x <> [] /\ ~ In 44 x) l -> split_list (fld k data) = Ret (strs l).
Proof.
  intros E Hn H. rewrite E. unfold split_list. cbn [as_string bind_outcome].
  assert (Hj : join $"," l <> []) by (apply join_nonempty; [done|eapply Forall_impl; [exact H|]; by intros ? []]).
  destruct (join $"," l) as [|c r] eqn:Ej; [done|]. cbn [nonempty]. rewrite <- Ej. change $"," with [44].
  rewrite split_join; [done|done|]. eapply Forall_impl; [exact H|]. by intros ? [].
Qed.

Lemma trimmed_names l : Forall (fun m => trim m = m /\ m <> [] /\ ~ In 44 m) l -> trimmed (map VStr l) = Ret l /\ filter_Boolean l = l.
Proof.
  induction 1 as [|m l (Ht & Hn & _) _ [IH1 IH2]]; [done|]. cbn [map trimmed]. unfold string_or_empty. cbn [truthy].
  destruct m as [|c m]; [done|]. cbn [nonempty as_string bind_outcome]. rewrite IH1. cbn [bind_outcome]. split; [by rewrite Ht|].
  unfold filter_Boolean in *. cbn [List.filter nonempty]. by rewrite IH2.
Qed.

Lemma blank_cases v : is_blank v = Ret true -> string_or_empty v = Ret [] \/ exists s, string_or_empty v = Ret s /\ nonempty (trim s) = false.
Proof.
  unfold is_blank, string_or_empty. destruct (truthy v); [|by left]. destruct v; try done. cbn. intros H. right. eexists. split; [done|].
  apply Ret_inj in H. by apply negb_true_iff.
Qed.

(** The checks of an edited channel without a new key. *)
Lemma prepare_edit f d :
  isEdit f = true -> is_blank (fld $"key" d) = Ret true -> (is_type d 57 = true -> batch (ks f) = false) ->
  useManualInput (ks f) = false -> vertexKeys (ks f) = [] -> vertexFileList (ks f) = [] ->
  (exists x l, fld $"models" d = VArr (x :: l)) -> (is_type d 45 = true -> is_blank (fld $"base_url" d) = Ret false) ->
  exists li, prepare f d = Go li /\ prop $"key" li = None.
Proof.
  intros He Hb Hc Hm Hv Hf (x & l & Ex) Hu. unfold prepare. set (v0 := prop_set $"param_override" _ d).
  assert (Ht : forall z, is_type v0 z = is_type d z) by (intros z; apply is_type_same, prop_set_ne; done).
  assert (Hk : fld $"key" v0 = fld $"key" d) by (by apply fld_set_ne).
  assert (E1 : codex_key (isEdit f) (batch (ks f)) v0 = Go v0).
  { unfold codex_key. rewrite Ht. destruct (is_type d 57); [|done]. cbn [negb]. rewrite Hc by done. rewrite Hk.
    destruct (blank_cases _ Hb) as [->|(s & -> & Es)]; cbn [lift bind_check]; [by rewrite He|]. rewrite Es. cbn [negb]. by rewrite He. }
  rewrite E1. cbn [bind_check].
  assert (E2 : exists li2, vertex_key (isEdit f) (ks f) v0 = Go li2 /\ (li2 = v0 \/ li2 = prop_delete $"key" v0)).
  { unfold vertex_key. rewrite Ht, Hm, Hv, Hf, He. destruct (is_type d 41); cbn [negb]; [|by eauto]. destruct (eq_str _ _); [by eauto|].
    cbn [bind_check]. by eauto. }
  destruct E2 as (li2 & -> & Hli2). cbn [bind_check].
  assert (E3 : is_blank (fld $"key" li2) = Ret true).
  { destruct Hli2 as [->| ->]; [by rewrite Hk|]. unfold fld. by rewrite prop_delete_lookup. }
  unfold drop_blank_key. rewrite He. rewrite E3. cbn [lift bind_check].
  set (li3 := prop_delete $"vertex_files" (prop_delete $"key" li2)). exists li3.
  assert (Hp : forall k, k <> $"key" -> k <> $"vertex_files" -> k <> $"param_override" -> prop k li3 = prop k d).
  { intros k H1 H2 H3. unfold li3. rewrite !prop_delete_lookup. destruct (str_eqb_spec k $"vertex_files"), (str_eqb_spec k $"key"); try done.
    destruct Hli2 as [->| ->]; [|rewrite prop_delete_lookup; destruct (str_eqb_spec k $"key"); [done|]]; by apply prop_set_ne. }
  split; [|unfold li3; by rewrite !prop_delete_lookup].
  unfold required. cbn [negb andb]. rewrite (fld_of_prop $"models" li3 d) by (by apply Hp). rewrite Ex.
  rewrite (is_type_same li3 d) by (by apply Hp). destruct (is_type d 45); [|done].
  rewrite (fld_of_prop $"base_url" li3 d) by (by apply Hp). by rewrite Hu.
Qed.

Lemma new_redirects_self s : collectNewDisallowedStatusCodeRedirects s s = [].
Proof.
  unfold collectNewDisallowedStatusCodeRedirects. destruct (collectDisallowedStatusCodeRedirects s) as [|x l] eqn:E; [done|].
  destruct (List.filter _ _) as [|y r] eqn:F; [done|]. exfalso. assert (H : y ∈ y :: r) by (by left).
  rewrite <- F in H. apply elem_of_lfilter in H as [H2 H1]. apply negb_true_iff, bool_decide_eq_false in H1. by apply H1.
Qed.

Lemma or_else_text v : str_opt (or_else v (VStr [])) = str_opt v \/ (str_opt (or_else v (VStr [])) = Some [] /\ str_opt v = None).
Proof. unfold or_else. destruct v as [| | | |s| |]; cbn; try (right; done) || (left; done); try (destruct (num_truthy _)); try destruct b; auto. destruct s; auto. Qed.

Lemma channel_total li s :
  (truthy (fld $"base_url" li) = true -> exists u, fld $"base_url" li = VStr u) -> parsed_settings li = VObj s ->
  (exists ms, fld $"models" li = strs ms) -> (exists gs, fld $"groups" li = strs gs) -> exists c, channel_of li = Go c.
Proof.
  intros Hu Hs [ms Em] [gs Eg]. unfold channel_of.
  assert (E1 : exists li1, tidy_url li = Go li1).
  { unfold tidy_url. destruct (truthy (fld $"base_url" li)); [|by eexists]. destruct (Hu eq_refl) as [u ->]. cbn. by eexists. }
  destruct E1 as [li1 E1]. rewrite E1. cbn [bind_check].
  assert (Hp : forall k, k <> $"base_url" -> k <> $"other" -> k <> $"setting" -> fld k (prop_set $"setting" (VStr (setting_text (default_other li1))) (default_other li1)) = fld k li).
  { intros k H1 H2 H3. rewrite fld_set_ne by done. apply fld_of_prop. rewrite other_frame by done. by apply (tidy_frame _ _ _ E1). }
  set (li3 := prop_set $"setting" _ _) in *.
  assert (Es : parsed_settings li3 = VObj s) by (unfold parsed_settings; rewrite Hp by done; exact Hs).
  rewrite Es. cbn [assign_text lift bind_check].
  set (li4 := delete_all TEMPORARY _). set (li5 := prop_set $"auto_ban" _ li4).
  assert (Hq : forall k, memk k TEMPORARY = false -> k <> $"auto_ban" -> k <> $"settings" -> k <> $"base_url" -> k <> $"other" -> k <> $"setting" -> fld k li5 = fld k li).
  { intros k H1 H2 H3 H4 H5 H6. unfold li5. rewrite fld_set_ne by done. rewrite <- Hp by done. apply fld_of_prop. unfold li4. rewrite delete_all_lookup.
    change (existsb (str_eqb k) TEMPORARY) with (memk k TEMPORARY). rewrite H1. by apply prop_set_ne. }
  rewrite Hq, Em by (by vm_compute). cbn [list_text strs bind_check]. rewrite fld_set_ne by done. rewrite Hq, Eg by (by vm_compute). cbn. by eexists.
Qed.

Lemma channel_group li c gs : channel_of li = Go c -> fld $"groups" li = strs gs -> fld $"group" c = VStr (join $"," gs).
Proof.
  intros H Hm. apply channel_steps in H as (li1 & s & m & g & E1 & H). cbv zeta in H. destruct H as (_ & _ & -> & Eg).
  rewrite fld_set_eq. f_equal. rewrite !fld_set_ne in Eg by done.
  assert (E : fld $"groups" (delete_all TEMPORARY (prop_set $"settings" (VStr s) (prop_set $"setting" (VStr (setting_text (default_other li1))) (default_other li1)))) = strs gs).
  { unfold fld. rewrite delete_all_lookup. change (existsb (str_eqb $"groups") TEMPORARY) with false. cbn iota.
    rewrite !prop_set_ne, other_frame by done. rewrite (tidy_frame _ _ _ E1) by done. exact Hm. }
  rewrite E in Eg. unfold list_text, strs in Eg. apply Go_inj in Eg as <-. apply join_strs.
Qed.

Lemma load_inv gcm data f f' :
  loadChannel gcm data f = Ret f' ->
  exists d ts, load_inputs data = Ret d /\ trimmed (models_of d) = Ret ts /\ inputs f' = d /\ channelId f' = channelId f
    /\ initialModels (rf f') = filter_Boolean ts /\ initialModelMapping (rf f') = or_else (fld $"model_mapping" d) (VStr [])
    /\ initialStatusCodeMapping (rf f') = or_else (fld $"status_code_mapping" d) (VStr [])
    /\ batch (ks f') = is_multi data /\ useManualInput (ks f') = useManualInput (ks f) /\ vertexKeys (ks f') = vertexKeys (ks f)
    /\ vertexFileList (ks f') = vertexFileList (ks f).
Proof.
  unfold loadChannel. destruct (load_inputs data) as [d|]; [|done]. cbn [bind_outcome]. destruct (trimmed (models_of d)) as [ts|] eqn:Et; [|done].
  cbn [bind_outcome]. destruct (hasAdvancedValues d); [|done]. cbn [bind_outcome]. intros <-%Ret_inj. exists d, ts. cbn. done.
Qed.

(** The mapping that is shown can be read again. *)
Lemma mapping_loaded data d :
  (forall v, parse_val (fld $"model_mapping" data) = Ret v -> json_wf v) -> with_mapping data = Ret d ->
  exists s mapping, fld $"model_mapping" d = VStr s /\ forall li, fld $"model_mapping" li = VStr s -> mapping_of_inputs li = Go mapping.
Proof.
  intros Hwf. unfold with_mapping, mapping_of_inputs. destruct (eq_str (fld $"model_mapping" data) []) eqn:E.
  - intros <-%Ret_inj. exists [], None. split; [|by intros li ->]. destruct (fld $"model_mapping" data) as [| | | |s| |]; try done. cbn in E. by apply str_eqb_eq in E as ->.
  - destruct (parse_val (fld $"model_mapping" data)) as [v|]; [|done]. cbn [bind_outcome]. intros <-%Ret_inj. specialize (Hwf v eq_refl).
    exists (json2 v), (if nonempty (trim (json2 v)) then Some v else None). split; [apply fld_set_eq|]. intros li ->. rewrite json2_reads by done. by destruct (nonempty _).
Qed.

(** A Doubao channel gets an address. *)
Lemma base_url_loaded data d :
  (truthy (fld $"base_url" data) = true -> exists u, fld $"base_url" data = VStr u) -> d = with_base_url data ->
  (truthy (fld $"base_url" d) = true -> exists u, fld $"base_url" d = VStr u) /\ (is_type d 45 = true -> is_blank (fld $"base_url" d) = Ret false).
Proof.
  intros Hu ->. assert (Ht : is_type (with_base_url data) 45 = is_type data 45) by (apply is_type_same; by apply base_url_frame). rewrite Ht.
  unfold with_base_url. destruct (is_type data 45) eqn:E; cbn [andb]; [|done].
  destruct (truthy (fld $"base_url" data)) eqn:Et; cbn [negb orb].
  - destruct (Hu eq_refl) as [u Eu]. rewrite Eu. destruct (nonempty (trim u)) eqn:En; cbn [negb].
    + rewrite Eu. split; [by eexists|]. intros _. unfold is_blank. rewrite <- Eu, Et. rewrite Eu. cbn. by rewrite En.
    + rewrite fld_set_eq. split; [by eexists|]. by intros _.
  - rewrite fld_set_eq. split; [by eexists|]. by intros _.
Qed.

Lemma loaded_facts data d ms gs :
  server_channel data ms gs -> load_inputs data = Ret d ->
  fld $"models" d = strs ms /\ fld $"groups" d = strs gs
  /\ (exists s mapping, fld $"model_mapping" d = VStr s /\ forall li, fld $"model_mapping" li = VStr s -> mapping_of_inputs li = Go mapping)
  /\ (truthy (fld $"base_url" d) = true -> exists u, fld $"base_url" d = VStr u)
  /\ (is_type d 45 = true -> is_blank (fld $"base_url" d) = Ret false).
Proof.
  intros [(Em & Hm & Hms) (Eg & Hg & Hgs) Hmap _ _ _ Hu _] H. unfold load_inputs in H.
  destruct (with_lists data) as [d1|] eqn:E1; [|done]. cbn [bind_outcome] in H. destruct (with_mapping d1) as [d2|] eqn:E2; [|done]. cbn [bind_outcome] in H.
  apply Ret_inj in H. pose proof (fun k Hk => load_keeps data d1 d2 k Hk E1 E2) as Hk. rewrite H in Hk.
  pose proof (lists_inv _ _ E1) as (m & g & Sm & Sg & Ed1).
  assert (Hnames : Forall (fun x => x <> [] /\ ~ In 44 x) ms) by (eapply Forall_impl; [exact Hms|]; by intros ? (_ & ? & ?)).
  rewrite (split_names _ _ _ Em Hm Hnames) in Sm. apply Ret_inj in Sm as <-. rewrite (split_names _ _ _ Eg Hg Hgs) in Sg. apply Ret_inj in Sg as <-.
  split; [|split; [|split]].
  - rewrite (fld_of_prop _ d d2) by (by apply Hk; vm_compute). rewrite (fld_of_prop _ d2 d1) by (by eapply mapping_frame). rewrite Ed1.
    rewrite fld_set_ne by done. apply fld_set_eq.
  - rewrite (fld_of_prop _ d d2) by (by apply Hk; vm_compute). rewrite (fld_of_prop _ d2 d1) by (by eapply mapping_frame). rewrite Ed1. apply fld_set_eq.
  - rewrite (fld_of_prop _ d d2) by (by apply Hk; vm_compute). apply (mapping_loaded d1); [|done].
    assert (fld $"model_mapping" d1 = fld $"model_mapping" data) as -> by (rewrite Ed1; by rewrite !fld_set_ne). exact Hmap.
  - set (x := with_settings (with_setting (with_mode d2))) in *.
    assert (Ex : fld $"base_url" x = fld $"base_url" data).
    { apply fld_of_prop. unfold x. rewrite settings_frame, setting_frame by (apply memk_false || done; by vm_compute).
      transitivity (prop $"base_url" d2); [unfold with_mode; destruct (is_multi d2); [by apply prop_set_ne|done]|].
      rewrite (mapping_frame _ _ _ E2) by done. rewrite Ed1. by rewrite !prop_set_ne. }
    apply (base_url_loaded x d); [by rewrite Ex|done].
Qed.

(** Once the first checks have passed, a channel that was opened and not changed is sent. *)
Lemma submit_loaded gcm data f f' i ms gs li :
  channelId f = Some i -> server_channel data ms gs -> loadChannel gcm data f = Ret f' -> prepare f' (inputs f') = Go li ->
  exists o, submit f' (inputs f') = Sent (Put o)
    /\ fld $"models" o = fld $"models" data /\ fld $"group" o = fld $"group" data /\ prop $"key" o = prop $"key" li
    /\ forall k, memk k (CHANGED ++ LOADED) = false -> prop k o = prop k data.
Proof.
  intros Hi Hs Hl Ep. apply load_inv in Hl as (d & ts & Ed & Et & Ein & Ei & Rm & Rmap & Rc & _ & _ & _ & _). rewrite Ein in *.
  destruct (loaded_facts data d ms gs Hs Ed) as (Fm & Fg & (mm & mapping & Emm & Hmap) & Hurl & Hblank).
  pose proof (fun k Hk => load_frame data d k Ed Hk) as Fr. pose proof Hs as [(Em & Hmn & Hms) (Eg & _ & _) _ _ _ Hcodes _ [s Es]].
  destruct (trimmed_names ms Hms) as [Htr Hfb]. unfold models_of in Et. rewrite Fm in Et. cbn in Et. rewrite Htr in Et. apply Ret_inj in Et as <-.
  pose proof (fun k Hk => prepare_frame f' d li k Ep Hk) as Fp.
  assert (Fpm : fld $"models" li = strs ms) by (rewrite (fld_of_prop _ li d) by (by apply Fp; vm_compute); exact Fm).
  unfold submit. rewrite Ep. cbn [run_check].
  rewrite (Hmap li) by (rewrite (fld_of_prop _ li d) by (by apply Fp; vm_compute); exact Emm). cbn [run_check].
  unfold models_of. rewrite Fpm. cbn [strs]. rewrite Htr. cbn [lift run_check]. rewrite Hfb.
  set (li' := prop_set $"models" (strs ms) li).
  assert (Hnc : hasModelConfigChanged (isEdit f') (rf f') ms (fld $"model_mapping" li') = false).
  { unfold hasModelConfigChanged, isEdit. rewrite Ei, Hi, Rm, Hfb, Rmap. rewrite bool_decide_true by done. cbn [negb orb].
    unfold li'. rewrite fld_set_ne by done. rewrite (fld_of_prop _ li d) by (by apply Fp; vm_compute). rewrite Emm. unfold or_else. cbn [truthy].
    destruct mm; cbn [nonempty text_of]; by rewrite str_eqb_refl. }
  rewrite Hnc, andb_false_r. unfold finish.
  assert (Fc : fld $"status_code_mapping" li' = fld $"status_code_mapping" data).
  { unfold li'. rewrite fld_set_ne by done. apply fld_of_prop. rewrite Fp, Fr by (by vm_compute). done. }
  rewrite Fc, Hcodes, Rc. rewrite (fld_of_prop _ d data) by (by apply Fr; vm_compute).
  assert (Hrisk : collectNewDisallowedStatusCodeRedirects (str_opt (or_else (fld $"status_code_mapping" data) (VStr []))) (str_opt (fld $"status_code_mapping" data)) = []).
  { destruct (or_else_text (fld $"status_code_mapping" data)) as [->|[-> ->]]; [apply new_redirects_self|done]. }
  rewrite Hrisk. destruct (channel_total li' s) as [c Ec].
  { unfold li'. rewrite fld_set_ne by done. rewrite (fld_of_prop _ li d) by (by apply Fp; vm_compute). exact Hurl. }
  { rewrite <- Es. unfold parsed_settings. assert (fld $"settings" li' = fld $"settings" data) as ->; [|done].
    unfold li'. rewrite fld_set_ne by done. apply fld_of_prop. rewrite Fp, Fr by (by vm_compute). done. }
  { exists ms. apply fld_set_eq. }
  { exists gs. unfold li'. rewrite fld_set_ne by done. rewrite (fld_of_prop _ li d) by (by apply Fp; vm_compute). exact Fg. }
  rewrite Ec. cbn [run_check]. unfold payload_of. rewrite Ei, Hi. eexists. split; [reflexivity|].
  set (o := prop_set $"key_mode" _ _).
  assert (Ho : forall k, k <> $"id" -> k <> $"key_mode" -> prop k o = prop k c) by (intros k H1 H2; unfold o; by rewrite !prop_set_ne).
  split; [|split; [|split]].
  - rewrite (fld_of_prop _ o c) by (by apply Ho). rewrite Em. apply (channel_models li'); [done|apply fld_set_eq].
  - rewrite (fld_of_prop _ o c) by (by apply Ho). rewrite Eg. apply (channel_group li'); [done|].
    unfold li'. rewrite fld_set_ne by done. rewrite (fld_of_prop _ li d) by (by apply Fp; vm_compute). exact Fg.
  - rewrite Ho by done. rewrite (channel_frame li' c $"key" Ec) by (by vm_compute). unfold li'. by rewrite prop_set_ne by done.
  - intros k Hk. apply memk_app in Hk as [Hk H3]. unfold CHANGED in Hk. apply memk_app in Hk as [H1 Hk]. apply memk_app in Hk as [H2 H4]. split_mem.
    rewrite Ho by done. rewrite (channel_frame li' c k Ec H2). unfold li'. rewrite prop_set_ne; [by rewrite (Fp k H1), (Fr k H3)|].
    unfold SENT in H2. cbn [app] in H2. do 7 (apply memk_cons in H2 as [? H2]). assumption.
Qed.

(** The first checks of a channel that was opened and not changed. *)
Lemma prepare_loaded gcm data f f' i ms gs :
  channelId f = Some i -> useManualInput (ks f) = false -> vertexKeys (ks f) = [] -> vertexFileList (ks f) = [] ->
  server_channel data ms gs -> loadChannel gcm data f = Ret f' -> exists li, prepare f' (inputs f') = Go li /\ prop $"key" li = None.
Proof.
  intros Hi Hm Hv Hf Hs Hl. apply load_inv in Hl as (d & ts & Ed & Et & -> & Ei & _ & _ & _ & Kb & Km & Kv & Kf).
  destruct (loaded_facts data d ms gs Hs Ed) as (Fm & _ & _ & _ & Hblank).
  pose proof (fun k Hk => load_frame data d k Ed Hk) as Fr. destruct Hs as [(_ & Hmn & _) _ _ Hkey Hcodex _ _ _].
  apply (prepare_edit f' d).
  - unfold isEdit. by rewrite Ei, Hi.
  - rewrite (fld_of_prop _ d data) by (by apply Fr; vm_compute). exact Hkey.
  - rewrite Kb. rewrite (is_type_same d data) by (by apply Fr; vm_compute). exact Hcodex.
  - by rewrite Km.
  - by rewrite Kv.
  - by rewrite Kf.
  - rewrite Fm. destruct ms; [done|]. by eexists _, _.
  - exact Hblank.
Qed.

(** C20: in a form with no Vertex keys or files left from an earlier upload and without
    manual input, a channel as the server sends it ([server_channel]: nonempty lists of
    trimmed names, no key, valid status codes, JSON settings and mapping) that is opened and
    saved without a change sends the models and the group it had, no key, and every field
    the form does not compute as it was. Keys left from an upload are sent with it,
    [kept_vertex_key_sent]. *)
Theorem edit_unchanged_saved gcm data f f' i ms gs :
  channelId f = Some i -> useManualInput (ks f) = false -> vertexKeys (ks f) = [] -> vertexFileList (ks f) = [] ->
  server_channel data ms gs -> loadChannel gcm data f = Ret f' ->
  exists o, submit f' (inputs f') = Sent (Put o)
    /\ fld $"models" o = fld $"models" data /\ fld $"group" o = fld $"group" data /\ prop $"key" o = None
    /\ forall k, memk k (CHANGED ++ LOADED) = false -> prop k o = prop k data.
Proof.
  intros Hi Hm Hv Hf Hs Hl. destruct (prepare_loaded gcm data f f' i ms gs Hi Hm Hv Hf Hs Hl) as (li & Ep & Hnokey).
  destruct (submit_loaded gcm data f f' i ms gs li Hi Hs Hl Ep) as (o & E & H1 & H2 & H3 & H4).
  exists o. rewrite H3. auto.
Qed.

(** ** Credentials and broken mappings *)

Definition locked (f : form) : bool := isIonetChannel f && isEdit f.

Lemma change_key gcm s f : locked f = false -> change gcm $"key" (VStr s) f = Ret (put $"key" (VStr s) f).
Proof. intros H. unfold change, handleInputChange. unfold locked in H. rewrite H. done. Qed.

(** When the form already shows a credential, the authorization dialog fills in the new one
    and the old one is put back: the field is formatted from the inputs of the earlier render. *)
Theorem codex_credential_restored gcm key was old v f :
  locked was = false -> fld $"key" (inputs was) = VStr old -> parse (trim old) = Some v ->
  handleCodexOAuthGenerated gcm key was = Ret f -> fld $"key" (inputs f) = VStr (json2 v).
Proof.
  intros Hl Ek Ep. unfold handleCodexOAuthGenerated. rewrite change_key by done. cbn [bind_outcome].
  unfold formatJsonField. rewrite Ek. cbn [is_nullish as_string bind_outcome].
  destruct (nonempty (trim old)) eqn:En; [|destruct (trim old); [by vm_compute in Ep|done]].
  rewrite Ep. assert (Hl' : locked (put $"key" (VStr key) was) = false) by exact Hl. rewrite (change_key gcm _ _ Hl').
  intros <-%Ret_inj. unfold put. cbn [inputs set_inputs]. apply fld_set_eq.
Qed.

(** A channel whose stored mapping is not JSON cannot be opened: the answer is not shown and
    the form stays in its loading state. *)
Theorem broken_mapping_not_opened gcm data f :
  fld $"model_mapping" data <> VStr [] -> parse_val (fld $"model_mapping" data) = Throw -> loadChannel gcm data f = Throw.
Proof.
  intros Hn Hp. unfold loadChannel, load_inputs. destruct (with_lists data) as [d1|] eqn:E; [|done]. cbn [bind_outcome].
  apply lists_inv in E as (m & g & _ & _ & ->). unfold with_mapping. rewrite !fld_set_ne by done.
  assert (eq_str (fld $"model_mapping" data) [] = false) as ->.
  { destruct (fld $"model_mapping" data) as [| | | |s| |]; try done. cbn. destruct (str_eqb_spec s []) as [->|]; [by destruct Hn|done]. }
  by rewrite Hp.
Qed.

(** ** Witnesses *)

Definition no_models : val -> list jsstr := fun _ => [].
Definition empty_keys : key_state := KeyState false false $"random" false false $"append" [] [].
Definition empty_form (i : option Z) : form :=
  Form i true originInputs [] empty_keys (Refs (VStr []) [] (VStr []) (VStr [])) true false false [] [] 0 false false None.

Definition sample_data : object :=
  [($"id", int 7); ($"type", int 1); ($"key", VStr []); ($"name", VStr $"main"); ($"models", VStr $"gpt-4,gpt-4o"); ($"group", VStr $"default,vip");
   ($"model_mapping", VStr []); ($"status_code_mapping", VStr []); ($"base_url", VStr []); ($"setting", VStr []); ($"settings", VStr []);
   ($"priority", int 0); ($"tag", VNull); ($"other_info", VStr [])].

Lemma sample_server : server_channel sample_data [$"gpt-4"; $"gpt-4o"] [$"default"; $"vip"].
Proof.
  split.
  - split; [by vm_compute|]. split; [done|]. repeat constructor; try (by vm_compute); intros H; vm_compute in H; intuition discriminate.
  - split; [by vm_compute|]. split; [done|]. repeat constructor; try (by vm_compute); intros H; vm_compute in H; intuition discriminate.
  - intros v H. by vm_compute in H.
  - by vm_compute.
  - by vm_compute.
  - by vm_compute.
  - intros H. by vm_compute in H.
  - exists []. by vm_compute.
Qed.

Definition opened : form := match loadChannel no_models sample_data (empty_form (Some 7)) with Ret f => f | Throw => empty_form None end.

Lemma sample_opens : loadChannel no_models sample_data (empty_form (Some 7)) = Ret opened.
Proof. by vm_compute. Qed.

Lemma edit_unchanged_saved_witness :
  exists o, submit opened (inputs opened) = Sent (Put o) /\ fld $"models" o = VStr $"gpt-4,gpt-4o" /\ prop $"name" o = Some (VStr $"main").
Proof.
  destruct (edit_unchanged_saved no_models sample_data (empty_form (Some 7)) opened 7 [$"gpt-4"; $"gpt-4o"] [$"default"; $"vip"]
    eq_refl eq_refl eq_refl eq_refl sample_server sample_opens) as (o & E & Hm & _ & _ & Hf).
  exists o. split; [exact E|]. split; [rewrite Hm; by vm_compute|]. rewrite Hf; by vm_compute.
Defined.

(** A new channel with a redirected model that is not in its list. *)
Definition new_values : object :=
  set_all [($"name", VStr $"n"); ($"key", VStr $"sk"); ($"models", strs [$" "]); ($"model_mapping", VStr [123; 34; 97; 34; 58; 34; 98; 34; 125])] originInputs.

Definition sent_by (d : dialog) (a : action) : option payload :=
  match d with
  | AskMissing _ k => match k a with SetModels _ (Sent p) => Some p | Sent p => Some p | _ => None end
  | Sent p => Some p
  | _ => None
  end.

Definition asks (d : dialog) : bool := match d with AskMissing _ _ => true | _ => false end.

Lemma sent_by_sends d a p : asks d = true -> sent_by d a = Some p -> sends d [AAct a] p.
Proof.
  destruct d as [| | |ms k| |]; try discriminate. cbn [sent_by]. intros _ H. apply sends_missing.
  destruct (k a) as [| |q| |l d|]; try discriminate; [apply Some_inj in H as ->; constructor|].
  destruct d; try discriminate. apply Some_inj in H as ->. apply sends_set. constructor.
Qed.

Definition added : payload := default (Put []) (sent_by (submit (empty_form None) new_values) AddModels).

Lemma asks_missing : asks (submit (empty_form None) new_values) = true.
Proof. vm_compute. reflexivity. Qed.

Lemma some_default {A} (d : A) (o : option A) : match o with Some _ => true | None => false end = true -> o = Some (default d o).
Proof. destruct o; [reflexivity|discriminate]. Qed.

Lemma added_some : match sent_by (submit (empty_form None) new_values) AddModels with Some _ => true | None => false end = true.
Proof. vm_compute. reflexivity. Qed.

Lemma added_sent : sends (submit (empty_form None) new_values) [AAct AddModels] added.
Proof. exact (sent_by_sends (submit (empty_form None) new_values) AddModels added asks_missing (some_default (Put []) (sent_by (submit (empty_form None) new_values) AddModels) added_some)). Qed.


Lemma sent_models_exact_witness : fld $"models" (channel_in added) = VStr $"a".
Proof.
  destruct (sent_models_exact (empty_form None) new_values [AAct AddModels] added added_sent) as (ts & mapping & Et & Em & H).
  cbn zeta in H. rewrite H.
  assert (E1 : trimmed (models_of new_values) = Ret [[]]) by (by vm_compute). rewrite E1 in Et. apply Ret_inj in Et as <-.
  assert (E2 : mapping_of_inputs new_values = Go (Some (VObj [($"a", VStr $"b")]))) by (by vm_compute). rewrite E2 in Em. apply Go_inj in Em as <-.
  by vm_compute.
Defined.

(** The check for models comes before blank names are dropped. *)
Example blank_models_sent :
  option_map (fun p => fld $"models" (channel_in p)) (sent_by (submit (empty_form None) new_values) SubmitAnyway) = Some (VStr []).
Proof. by vm_compute. Qed.

Definition shown_credential : form := set_inputs (prop_set $"key" (VStr $"[1]") originInputs) (empty_form (Some 7)).

Lemma codex_credential_restored_witness :
  exists f, handleCodexOAuthGenerated no_models $"[2]" shown_credential = Ret f /\ fld $"key" (inputs f) = VStr (json2 (VArr [int 1])).
Proof.
  destruct (handleCodexOAuthGenerated no_models $"[2]" shown_credential) as [f|] eqn:E; [|by vm_compute in E].
  exists f. split; [done|]. by apply (codex_credential_restored no_models $"[2]" shown_credential $"[1]" (VArr [int 1]) f); try (by vm_compute).
Defined.

Lemma broken_mapping_not_opened_witness :
  loadChannel no_models (prop_set $"model_mapping" (VStr $"{") sample_data) (empty_form (Some 7)) = Throw.
Proof. apply broken_mapping_not_opened; by vm_compute. Defined.

End ChannelFormProofs.
