(* ===== verification/ChannelFormLife.v ===== *)
(** * Opening and closing the form of a channel

    The rest of [web/src/components/table/channels/modals/EditChannelModal.jsx]: the effects
    that run when the form is opened or closed, the answers that fill its lists, and the lists
    that are computed from its fields.  The form stays mounted while it is closed, so what the
    reset leaves alone is there when another channel is opened. *)
From S2P Require Import Prelude JSNum JSValue Json FormValues StatusCodeRiskGuard ClientHelpers ChannelForm ChannelFormProofs.
#[local] Open Scope Z_scope.
#[local] Arguments js _ : simpl never.

Module ChannelFormLife.
Import FormValues StatusCodeRiskGuard ClientHelpers ChannelForm ChannelFormProofs.

(** ** Effects *)

Definition NO_SETTINGS : object := SETTING_FIELDS.

(** The keys, the uploaded files and the ticks of batch creation are not reset. *)
Definition resetModalState (f : form) : form :=
  let k := ks f in
  Form (channelId f) (loading f) originInputs NO_SETTINGS
    (KeyState (batch k) (multiToSingle k) (multiKeyMode k) (isMultiKeyChannel k) (useManualInput k) $"append" (vertexKeys k) (vertexFileList k))
    (rf f) (autoBan f) false (isIonetChannel f) (basicModels f) (customModel f) 0 false false None.

Definition set_manual (b : bool) (k : key_state) : key_state :=
  KeyState (batch k) (multiToSingle k) (multiKeyMode k) (isMultiKeyChannel k) b (keyMode k) (vertexKeys k) (vertexFileList k).

Section Open.
Context (getChannelModels : val -> list jsstr).

(** The effect on the identity of the channel; [was] are the inputs of the render. *)
Definition id_effect (was : object) (f : form) : form :=
  if isEdit f then f
  else
    let localModels := getChannelModels (fld $"type" was) in
    let r := rf f in
    Form (channelId f) (loading f) (prop_set $"models" (strs localModels) originInputs) (channelSettings f) (ks f)
      (Refs (VStr []) (initialModels r) (initialModelMapping r) (initialStatusCodeMapping r)) (autoBan f) (isEnterpriseAccount f) (isIonetChannel f)
      localModels (customModel f) (doubaoClicks f) (doubaoApiEditUnlocked f) (advancedSettingsOpen f) (clipboardConfig f).

(** The effect on the visibility, for a form that is shown; an edited channel is then loaded. *)
Definition visible_effect (expanded : bool) (f : form) : form :=
  Form (channelId f) (loading f || isEdit f) (inputs f) (channelSettings f) (set_manual false (ks f)) (rf f) (autoBan f) (isEnterpriseAccount f)
    (isIonetChannel f) (basicModels f) (customModel f) (doubaoClicks f) (doubaoApiEditUnlocked f) (isEdit f && expanded) (clipboardConfig f).

(** The references of a new channel. *)
Definition new_refs_effect (f : form) : form :=
  if isEdit f then f
  else
    Form (channelId f) (loading f) (inputs f) (channelSettings f) (ks f) (Refs (initialBaseUrl (rf f)) [] (VStr []) (VStr [])) (autoBan f)
      (isEnterpriseAccount f) (isIonetChannel f) (basicModels f) (customModel f) (doubaoClicks f) (doubaoApiEditUnlocked f) (advancedSettingsOpen f)
      (clipboardConfig f).

Definition set_id (i : option Z) (f : form) : form :=
  Form i (loading f) (inputs f) (channelSettings f) (ks f) (rf f) (autoBan f) (isEnterpriseAccount f) (isIonetChannel f) (basicModels f) (customModel f)
    (doubaoClicks f) (doubaoApiEditUnlocked f) (advancedSettingsOpen f) (clipboardConfig f).

Definition ionet_effect (f : form) : form :=
  if isEdit f then f
  else
    Form (channelId f) (loading f) (inputs f) (channelSettings f) (ks f) (rf f) (autoBan f) (isEnterpriseAccount f) false (basicModels f) (customModel f)
      (doubaoClicks f) (doubaoApiEditUnlocked f) (advancedSettingsOpen f) (clipboardConfig f).

(** A closed form is shown for a channel; an effect runs when what it depends on has changed. *)
Definition open_form (i : option Z) (expanded : bool) (f : form) : form :=
  let f0 := set_id i f in
  let f1 := if Bool.eqb (isEdit f0) (isEdit f) then f0 else ionet_effect f0 in
  let f2 := if bool_decide (channelId f = i) then f1 else id_effect (inputs f) f1 in
  new_refs_effect (visible_effect expanded f2).

(** The text of the clipboard is looked at when a new channel is opened. *)
Definition clipboard_read (text : jsstr) (f : form) : form :=
  match parseChannelConnectionString text with Some c => set_clipboard (Some c) f | None => f end.

Definition pasteFromClipboard (text : option jsstr) (f : form) : form :=
  match text with
  | Some s => match parseChannelConnectionString s with Some c => applyClipboardConfig c f | None => f end
  | None => f
  end.

(** The kind of a Vertex key; a single key has no files. *)
Definition vertex_key_type_changed (v : val) (was f : form) : outcome form :=
  bind_outcome (handleChannelOtherSettingsChange getChannelModels $"vertex_key_type" v was f) (fun f1 =>
  let k := ks f1 in
  Ret (if eq_str v $"api_key"
       then set_ks (KeyState false (multiToSingle k) (multiKeyMode k) (isMultiKeyChannel k) false (keyMode k) [] []) f1 else f1)).

End Open.

(** ** Lists that are shown *)

(** The object a text field holds, for the lists under the mapping. *)
Definition mapping_object (v : val) : option object :=
  match v with
  | VStr s => if nonempty (trim s) then match parse (trim s) with Some (VObj o) => Some o | _ => None end else None
  | _ => None
  end.

Definition redirectModelList (i : object) : list jsstr :=
  match mapping_object (fld $"model_mapping" i) with
  | Some o => uniq (filter_Boolean (omap (fun kv => match kv.2 with VStr s => Some (trim s) | _ => None end) o))
  | None => []
  end.

Definition redirectModelKeyList (i : object) : list jsstr :=
  match mapping_object (fld $"model_mapping" i) with
  | Some o => uniq (filter_Boolean (map trim (keys o)))
  | None => []
  end.

Definition LIMIT : nat := 8.

Definition upstreamDetectedModels (i : object) : list jsstr :=
  let l := match fld $"upstream_model_update_last_detected_models" i with VArr l => l | _ => [] end in
  uniq (filter_Boolean (map (fun m => trim (String_val (or_else m (VStr [])))) l)).

Definition detectedPreview (i : object) : list jsstr * nat :=
  let l := upstreamDetectedModels i in (take LIMIT l, length l - length (take LIMIT l))%nat.

(** The label over the parameter override. *)
Inductive override_label := Unset | Broken | Operations (n : nat) | Legacy (n : nat) | Custom.

Definition paramOverrideMeta (i : object) : override_label * jsstr :=
  let raw := match fld $"param_override" i with VStr s => trim s | _ => [] end in
  if nonempty raw then
    match parse raw with
    | None => (Broken, raw)
    | Some v =>
      let pretty := json2 v in
      match operations_of v, v with
      | Some l, _ => (Operations (length l), pretty)
      | None, VObj o => (Legacy (length o), pretty)
      | None, _ => (Custom, pretty)
      end
    end
  else (Unset, []).

(** The options of the model field: those of the server, then the models of the form. *)
Fixpoint add_options (l : list jsstr) (m : list jsstr) : list jsstr :=
  match l with
  | [] => m
  | v :: r => add_options r (if existsb (str_eqb v) m then m else m ++ [v])
  end.

Definition modelOptions (origin models : list jsstr) : list jsstr := add_options (map trim models) (add_options (map trim origin) []).

(** ** Answers that fill the lists *)

(** The names of all models; the related ones are those of two families. *)
Definition fetchModels (ids : list jsstr) (f : form) : list jsstr * list jsstr * form :=
  (map trim ids, ids, set_basic (List.filter (fun m => startsWith $"gpt-" m || startsWith $"text-" m) ids) f).

Inductive fetch_request := ById (i : Z) | ByKey (base_url type key : val).

(** What is asked for the upstream models; a new channel needs a key. *)
Definition fetch_models_request (f : form) : option fetch_request :=
  match channelId f with
  | Some i => Some (ById i)
  | None => if truthy (fld $"key" (inputs f)) then Some (ByKey (fld $"base_url" (inputs f)) (fld $"type" (inputs f)) (fld $"key" (inputs f))) else None
  end.

(** The answer: the models, or none when the request failed or was not made. *)
Definition fetchUpstreamModelList (f : form) (answer : fetch_request -> option (list jsstr)) : option (list jsstr) :=
  match fetch_models_request f with
  | Some r => option_map uniq (answer r)
  | None => None
  end.

Definition MODEL_FETCHABLE : list Z := [1; 4; 14; 34; 17; 26; 27; 24; 47; 25; 20; 23; 31; 40; 42; 48; 43].

(** The dialog for the target of a mapping: its models, its key and what is selected in it. *)
Definition openModelMappingValueModal (pairKey value : val) (fetched : list jsstr) (f : form) (answer : fetch_request -> option (list jsstr)) :
  option (list jsstr * jsstr * jsstr) :=
  let text v := trim (if is_nullish v then [] else String_val v) in
  if negb (nonempty (text pairKey)) || negb (existsb (is_type (inputs f)) MODEL_FETCHABLE) then None
  else
    let models := match fetched with [] => default [] (fetchUpstreamModelList f answer) | l => l end in
    match models with
    | [] => None
    | _ =>
      let names := uniq (filter_Boolean (map trim models)) in
      Some (names, text pairKey, if existsb (str_eqb (text value)) names then text value else [])
    end.

(** ** What another channel leaves behind *)

Lemma json_object_starts o : exists s, json (VObj o) = 123 :: s.
Proof.
  unfold json, stringify. cbn [ser]. unfold wrap. destruct (flat_map _ o); cbn [default app]; eexists; reflexivity.
Qed.

Lemma type_is d z : fld $"type" d = int z -> forall y, is_type d y = neqb (of_Z z) (of_Z y).
Proof. intros H y. unfold is_type. by rewrite H. Qed.

(** A Vertex channel that is edited while a key of another upload is kept gets that key. *)
Lemma prepare_kept_key f d o l x ml :
  fld $"type" d = int 41 -> eq_str (or_else (fld $"vertex_key_type" d) (VStr $"json")) $"api_key" = false ->
  useManualInput (ks f) = false -> batch (ks f) = false -> vertexKeys (ks f) = VObj o :: l ->
  isEdit f = true -> fld $"models" d = VArr (x :: ml) ->
  exists li, prepare f d = Go li /\ prop $"key" li = Some (VStr (json (VObj o))).
Proof.
  intros Ht Hk Hm Hb Hv He Hx. unfold prepare. set (v0 := prop_set $"param_override" _ d).
  assert (Hp : forall k, k <> $"param_override" -> fld k v0 = fld k d) by (intros k Hn; by apply fld_set_ne).
  assert (Ht0 : fld $"type" v0 = int 41) by (by rewrite Hp).
  unfold codex_key. rewrite (type_is v0 41 Ht0 57). change (neqb (of_Z 41) (of_Z 57)) with false. cbn [negb bind_check].
  unfold vertex_key. rewrite (type_is v0 41 Ht0 41). change (neqb (of_Z 41) (of_Z 41)) with true. cbn [negb].
  rewrite (Hp $"vertex_key_type") by done. rewrite Hk, Hm, Hv, Hb. cbn [bind_check].
  unfold drop_blank_key. rewrite He, fld_set_eq. destruct (json_object_starts o) as [s Es].
  unfold is_blank. cbn [truthy]. rewrite Es. cbn [nonempty as_string bind_outcome]. rewrite trim_nonempty by done. cbn [negb lift bind_check].
  exists (prop_delete $"vertex_files" (prop_set $"key" (VStr (123 :: s)) v0)).
  split; [|rewrite prop_delete_lookup; cbn; apply prop_set_eq].
  unfold required. cbn [negb andb].
  assert (Hq : forall k, k <> $"key" -> k <> $"vertex_files" -> k <> $"param_override" ->
    fld k (prop_delete $"vertex_files" (prop_set $"key" (VStr (123 :: s)) v0)) = fld k d).
  { intros k H1 H2 H3. rewrite <- Hp by done. apply fld_of_prop. rewrite prop_delete_lookup. destruct (str_eqb_spec k $"vertex_files"); [done|]. by apply prop_set_ne. }
  rewrite Hq, Hx by done. rewrite (type_is _ 41); [|by rewrite Hq]. reflexivity.
Qed.

(** Opening a channel keeps the keys and the files. *)
Lemma open_edit gcm j expanded f :
  channelId (open_form gcm (Some j) expanded f) = Some j /\ ks (open_form gcm (Some j) expanded f) = set_manual false (ks f).
Proof. unfold open_form. destruct (Bool.eqb _ _), (bool_decide _); split; reflexivity. Qed.

Lemma sent_id f values j c : channelId f = Some j -> submit f values = Sent (Put c) -> prop $"id" c = Some (int j).
Proof.
  intros Hi H. assert (Hs : sends (submit f values) [] (Put c)) by (rewrite H; constructor).
  apply submit_sends in Hs as (li & ms & l' & acts & _ & _ & _ & Hf & _). apply finish_sends in Hf as (o & _ & E & _).
  unfold payload_of in E. rewrite Hi in E. injection E as ->. rewrite prop_set_ne by done. apply prop_set_eq.
Qed.

(** Closing the form keeps the keys that were uploaded: a Vertex channel that is opened
    afterwards and saved without a change is sent with the key of the other channel. *)
Theorem kept_vertex_key_sent gcm f j expanded data ms gs f' o l :
  vertexKeys (ks f) = VObj o :: l ->
  server_channel data ms gs -> fld $"type" data = int 41 -> is_multi data = false ->
  loadChannel gcm data (open_form gcm (Some j) expanded (resetModalState f)) = Ret f' ->
  eq_str (or_else (fld $"vertex_key_type" (inputs f')) (VStr $"json")) $"api_key" = false ->
  exists c, submit f' (inputs f') = Sent (Put c) /\ prop $"id" c = Some (int j) /\ prop $"key" c = Some (VStr (json (VObj o))).
Proof.
  intros Hv Hs Ht Hm Hl Hk. set (f0 := open_form gcm (Some j) expanded (resetModalState f)) in *.
  destruct (open_edit gcm j expanded (resetModalState f)) as [Hi Hks]. fold f0 in Hi, Hks.
  assert (Hman : useManualInput (ks f0) = false) by (by rewrite Hks).
  assert (Hkeys : vertexKeys (ks f0) = VObj o :: l) by (rewrite Hks; exact Hv).
  pose proof (load_inv _ _ _ _ Hl) as (d & ts & Ed & _ & Ein & Ei & _ & _ & _ & Kb & Km & Kv & _).
  destruct (loaded_facts data d ms gs Hs Ed) as (Fm & _). pose proof (fun k Hk => load_frame data d k Ed Hk) as Fr.
  destruct (sc_models _ _ _ Hs) as (_ & Hmn & _). destruct ms as [|m ms']; [done|].
  destruct (prepare_kept_key f' (inputs f') o l (VStr m) (map VStr ms')) as (li & Ep & Hkey).
  - rewrite Ein. rewrite (fld_of_prop _ d data) by (by apply Fr; vm_compute). exact Ht.
  - exact Hk.
  - by rewrite Km.
  - by rewrite Kb.
  - by rewrite Kv.
  - unfold isEdit. by rewrite Ei, Hi.
  - by rewrite Ein, Fm.
  - destruct (submit_loaded gcm data f0 f' j (m :: ms') gs li Hi Hs Hl Ep) as (c & E & _ & _ & Hc & _).
    exists c. rewrite Hc. split; [exact E|]. split; [|exact Hkey]. by apply (sent_id f' (inputs f') j c); [rewrite Ei|].
Qed.

(** After a channel with several keys was edited, a new channel starts in the batch mode and is
    created with several keys. *)
Theorem multi_key_mode_kept gcm data f f' expanded channel :
  is_multi data = true -> loadChannel gcm data f = Ret f' ->
  payload_of (open_form gcm None expanded (resetModalState f')) channel = Post $"multi_to_single" (Some (String_val (multi_mode data))) channel.
Proof.
  intros Hm. unfold loadChannel. destruct (load_inputs data) as [d|]; [|done]. cbn [bind_outcome].
  destruct (trimmed (models_of d)); [|done]. cbn [bind_outcome]. destruct (hasAdvancedValues d); [|done]. cbn [bind_outcome].
  intros <-%Ret_inj. unfold open_form. rewrite Hm. destruct (Bool.eqb _ _), (bool_decide _); reflexivity.
Qed.

(** ** Witnesses *)

Definition uploaded : form :=
  handleVertexUploadChange [File $"a.json" (Some [123; 34; 107; 34; 58; 49; 125])] (empty_form None).

Definition vertex_data : object := prop_set $"type" (int 41) sample_data.

Definition reopened : form :=
  match loadChannel no_models vertex_data (open_form no_models (Some 8) false (resetModalState uploaded)) with Ret f => f | Throw => empty_form None end.

Lemma vertex_server : server_channel vertex_data [$"gpt-4"; $"gpt-4o"] [$"default"; $"vip"].
Proof.
  destruct sample_server as [Hm Hg Hmap Hk Hc Hcodes Hu [s Hs]].
  split.
  - unfold vertex_data. rewrite fld_set_ne by done. exact Hm.
  - unfold vertex_data. rewrite fld_set_ne by done. exact Hg.
  - unfold vertex_data. rewrite fld_set_ne by done. exact Hmap.
  - unfold vertex_data. rewrite fld_set_ne by done. exact Hk.
  - by vm_compute.
  - unfold vertex_data. rewrite fld_set_ne by done. exact Hcodes.
  - unfold vertex_data. rewrite fld_set_ne by done. exact Hu.
  - exists s. unfold parsed_settings, vertex_data. rewrite fld_set_ne by done. exact Hs.
Qed.

Lemma reopened_loads : loadChannel no_models vertex_data (open_form no_models (Some 8) false (resetModalState uploaded)) = Ret reopened.
Proof. vm_compute. reflexivity. Qed.

Lemma uploaded_keys : vertexKeys (ks uploaded) = [VObj [($"k", int 1)]].
Proof. vm_compute. reflexivity. Qed.

Lemma vertex_type : fld $"type" vertex_data = int 41.
Proof. vm_compute. reflexivity. Qed.

Lemma vertex_single : is_multi vertex_data = false.
Proof. vm_compute. reflexivity. Qed.

Lemma reopened_json : eq_str (or_else (fld $"vertex_key_type" (inputs reopened)) (VStr $"json")) $"api_key" = false.
Proof. vm_compute. reflexivity. Qed.

Lemma kept_vertex_key_sent_witness :
  exists c, submit reopened (inputs reopened) = Sent (Put c) /\ prop $"id" c = Some (int 8) /\ prop $"key" c = Some (VStr (json (VObj [($"k", int 1)]))).
Proof.
  exact (kept_vertex_key_sent no_models uploaded 8 false vertex_data [$"gpt-4"; $"gpt-4o"] [$"default"; $"vip"] reopened [($"k", int 1)] []
           uploaded_keys vertex_server vertex_type vertex_single reopened_loads reopened_json).
Defined.

Definition multi_data : object :=
  prop_set $"channel_info" (VObj [($"is_multi_key", VBool true); ($"multi_key_mode", VStr $"polling")]) sample_data.

Definition multi_opened : form := match loadChannel no_models multi_data (empty_form (Some 7)) with Ret f => f | Throw => empty_form None end.

Lemma multi_opens : loadChannel no_models multi_data (empty_form (Some 7)) = Ret multi_opened.
Proof. vm_compute. reflexivity. Qed.

Lemma multi_is : is_multi multi_data = true.
Proof. vm_compute. reflexivity. Qed.

Lemma multi_key_mode_kept_witness :
  payload_of (open_form no_models None false (resetModalState multi_opened)) [] = Post $"multi_to_single" (Some (String_val (multi_mode multi_data))) [].
Proof. exact (multi_key_mode_kept no_models multi_data (empty_form (Some 7)) multi_opened false [] multi_is multi_opens). Defined.

End ChannelFormLife.
