(* ===== verification/Affinity.v ===== *)
(** * Rules of channel affinity

    [web/src/pages/Setting/Operation/SettingsChannelAffinity.jsx]: the rules that bind a
    conversation to a channel, edited in a table or as JSON, the dialog that edits one rule,
    and the options that are saved.  Rules are the objects of the JSON text with an [id]; an
    [id] is compared as a primitive value. *)
From S2P Require Import Prelude JSNum JSValue Json FormValues ClientHelpers ParamOverrideEditor.
#[local] Open Scope Z_scope.
#[local] Arguments js _ : simpl never.

Module Affinity.
Import FormValues.

(** ** Texts *)

Definition KEY_ENABLED : jsstr := $"channel_affinity_setting.enabled".
Definition KEY_SWITCH_ON_SUCCESS : jsstr := $"channel_affinity_setting.switch_on_success".
Definition KEY_MAX_ENTRIES : jsstr := $"channel_affinity_setting.max_entries".
Definition KEY_DEFAULT_TTL : jsstr := $"channel_affinity_setting.default_ttl_seconds".
Definition KEY_RULES : jsstr := $"channel_affinity_setting.rules".

Definition normalizeStringList (v : val) : outcome (list jsstr) :=
  if truthy v then bind_outcome (as_string v) (fun s => Ret (filter_Boolean (map trim (split_char 10 s)))) else Ret [].

(** [jsonString || '[]'] *)
Definition rules_text (v : val) : jsstr := if truthy v then String_val v else $"[]".

Definition with_index (i : nat) (r : val) : object := prop_assign [($"id", int (Z.of_nat i))] (entries (or_else r (VObj []))).

Definition parseRulesJson (v : val) : list object :=
  match parse (rules_text v) with Some (VArr l) => imap with_index l | _ => [] end.

Definition strip (r : object) : object := prop_delete $"id" r.
Definition rulesToJson (rules : list object) : jsstr := json2 (VArr (map (fun r => VObj (strip r)) rules)).

Definition normalizeKeySource (src : val) : outcome object :=
  bind_outcome (string_or_empty (get_any src $"type")) (fun t =>
  bind_outcome (string_or_empty (get_any src $"key")) (fun k =>
  bind_outcome (string_or_empty (get_any src $"path")) (fun p =>
  Ret (if trim t =s? $"gjson"
       then [($"type", VStr (trim t)); ($"key", VStr []); ($"path", VStr (trim p))]
       else [($"type", VStr (trim t)); ($"key", VStr (trim k)); ($"path", VStr [])])))).

Fixpoint normalize_all (l : list val) : outcome (list object) :=
  match l with
  | [] => Ret []
  | x :: r => bind_outcome (normalizeKeySource x) (fun a => bind_outcome (normalize_all r) (fun t => Ret (a :: t)))
  end.

(** The names [base-2] to [base-999] are tried; [now] is the time. *)
Fixpoint try_names (n : nat) (i : Z) (existing : list jsstr) (base : jsstr) : option jsstr :=
  match n with
  | O => None
  | S n' => let c := base ++ $"-" ++ Z_to_str i in if existsb (str_eqb c) existing then try_names n' (i + 1) existing base else Some c
  end.

Definition makeUniqueName (now : Z) (existing : list jsstr) (baseName : jsstr) : jsstr :=
  let base := if nonempty (trim baseName) then trim baseName else $"rule" in
  if existsb (str_eqb base) existing then default (base ++ $"-" ++ Z_to_str now) (try_names 998 2 existing base) else base.

Definition MSG_INVALID : jsstr := $"Rules JSON is invalid".
Definition MSG_ARRAY : jsstr := $"Rules JSON must be an array".

(** [inl] is the message of a failure. *)
Definition tryParseRulesJsonArray (v : val) : jsstr + list val :=
  match parse (rules_text v) with
  | None => inl MSG_INVALID
  | Some (VArr l) => inr l
  | Some _ => inl MSG_ARRAY
  end.

Definition MSG_TEMPLATE_JSON : jsstr := $"参数覆盖模板 JSON 格式不正确".
Definition MSG_TEMPLATE_OBJECT : jsstr := $"参数覆盖模板 必须是 JSON 对象".

Definition parseOptionalObjectJson (text : jsstr) : jsstr + option object :=
  let raw := trim text in
  if nonempty raw then
    match parse raw with
    | None => inl MSG_TEMPLATE_JSON
    | Some (VObj o) => inr (Some o)
    | Some _ => inl MSG_TEMPLATE_OBJECT
    end
  else inr None.

(** [!!values?.x] *)
Definition flag (values : object) (k : jsstr) : val := VBool (truthy (fld k values)).

(** The rule the dialog stands for; a field that is not text throws. *)
Definition buildChannelAffinityRulePayload (values : object) (id : val) (modelRegex pathRegex : list jsstr) (keySources : list object)
  (userAgentInclude : list jsstr) (template : option object) : outcome object :=
  bind_outcome (string_or_empty (fld $"name" values)) (fun name =>
  bind_outcome (string_or_empty (fld $"value_regex" values)) (fun value =>
  Ret ([($"id", id); ($"name", VStr (trim name)); ($"model_regex", strs modelRegex); ($"path_regex", strs pathRegex);
        ($"key_sources", VArr (map VObj keySources)); ($"value_regex", VStr (trim value));
        ($"ttl_seconds", VNum (Number_val (or_else (fld $"ttl_seconds" values) (int 0))));
        ($"include_using_group", flag values $"include_using_group"); ($"include_model_name", flag values $"include_model_name");
        ($"include_rule_name", flag values $"include_rule_name"); ($"skip_retry_on_failure", flag values $"skip_retry_on_failure")]
       ++ match userAgentInclude with [] => [] | l => [($"user_agent_include", strs l)] end
       ++ match template with Some o => [($"param_override_template", VObj o)] | None => [] end))).

(** ** State *)

Inductive mode := Visual | JsonText.

Record modal := Modal { editingRule : object; isEdit : bool; paramTemplateDraft : jsstr }.

Record page := Page { inputs : object; inputsRow : object; editMode : mode; rules : list object; dialog : option modal }.

Definition page0 : page :=
  let i := [(KEY_ENABLED, VBool false); (KEY_SWITCH_ON_SUCCESS, VBool true); (KEY_MAX_ENTRIES, int 100000); (KEY_DEFAULT_TTL, int 3600);
            (KEY_RULES, VStr $"[]")] in
  Page i i Visual [] None.

Definition set_input (k : jsstr) (v : val) (s : page) : page :=
  Page (prop_set k v (inputs s)) (inputsRow s) (editMode s) (rules s) (dialog s).
Definition set_dialog (d : option modal) (s : page) : page := Page (inputs s) (inputsRow s) (editMode s) (rules s) d.
Definition text (s : page) : val := fld KEY_RULES (inputs s).

Definition effectiveDefaultTTLSeconds (s : page) : num :=
  let n := Number_val (or_else (fld KEY_DEFAULT_TTL (inputs s)) (int 0)) in if nltb n0 n then n else of_Z 3600.

(** The effect on the text and the mode. *)
Definition settle (was s : page) : page :=
  match editMode s with
  | Visual =>
    if match editMode was with Visual => same_value (text was) (text s) | JsonText => false end then s
    else Page (inputs s) (inputsRow s) Visual (parseRulesJson (text s)) (dialog s)
  | JsonText => s
  end.

(** ** The table and the text *)

Definition switchToJsonMode (s : page) : page :=
  Page (prop_set KEY_RULES (VStr (rulesToJson (rules s))) (inputs s)) (inputsRow s) JsonText (rules s) (dialog s).

Definition switchToVisualMode (s : page) : page :=
  match tryParseRulesJsonArray (VStr (rules_text (text s))) with
  | inl _ => s
  | inr _ => Page (inputs s) (inputsRow s) Visual (rules s) (dialog s)
  end.

Definition updateRulesState (next : list object) (s : page) : page :=
  Page (prop_set KEY_RULES (VStr (rulesToJson next)) (inputs s)) (inputsRow s) (editMode s) next (dialog s).

(** [map((r, idx) => ({ ...r, id: idx }))] *)
Definition renumber (l : list object) : list object := imap (fun i r => prop_set $"id" (int (Z.of_nat i)) r) l.

Definition gjson_source (p : jsstr) : val := VObj [($"type", VStr $"gjson"); ($"path", VStr p)].

Definition cli_template (name model path key : jsstr) (headers : list jsstr) : object :=
  [($"name", VStr name); ($"model_regex", strs [model]); ($"path_regex", strs [path]); ($"key_sources", VArr [gjson_source key]);
   ($"param_override_template", VObj [($"operations", VArr (ParamOverrideEditor.buildPassHeadersTemplate headers))]);
   ($"value_regex", VStr []); ($"ttl_seconds", int 0); ($"skip_retry_on_failure", VBool true); ($"include_using_group", VBool true);
   ($"include_rule_name", VBool true)].

Definition TEMPLATES : list object :=
  [cli_template $"codex cli trace" $"^gpt-.*$" $"/v1/responses" $"prompt_cache_key" ParamOverrideEditor.CODEX_CLI_HEADER_PASSTHROUGH_HEADERS;
   cli_template $"claude cli trace" $"^claude-.*$" $"/v1/messages" $"metadata.user_id" ParamOverrideEditor.CLAUDE_CLI_HEADER_PASSTHROUGH_HEADERS].

(** The trimmed names; a name that is not text throws. *)
Fixpoint rule_names (l : list object) : outcome (list jsstr) :=
  match l with
  | [] => Ret []
  | r :: t => bind_outcome (string_or_empty (fld $"name" r)) (fun n => bind_outcome (rule_names t) (fun ns => Ret (trim n :: ns)))
  end.

Fixpoint name_templates (now : Z) (existing : list jsstr) (l : list object) : list object :=
  match l with
  | [] => []
  | t :: r =>
    let n := makeUniqueName now existing (match fld $"name" t with VStr s => s | _ => [] end) in
    prop_set $"name" (VStr n) t :: name_templates now (existing ++ [n]) r
  end.

Definition doAppend (now : Z) (s : page) : outcome page :=
  bind_outcome (rule_names (rules s)) (fun names =>
  Ret (updateRulesState (renumber (rules s ++ name_templates now (filter_Boolean names) TEMPLATES)) s)).

Definition handleDeleteRule (id : val) (s : page) : page :=
  updateRulesState (renumber (List.filter (fun r => negb (same_value (fld $"id" r) id)) (rules s))) s.

(** ** The dialog of a rule *)

(** [(v || []).join('\n')] *)
Definition join_lines (v : val) : outcome jsstr :=
  match or_else v (VArr []) with
  | VArr l => Ret (join [10] (map (fun x => if is_nullish x then [] else String_val x) l))
  | _ => Throw
  end.

(** [v ?? d] *)
Definition nullish_or (v d : val) : val := if is_nullish v then d else v.

Definition buildModalFormValues (r : object) : outcome object :=
  bind_outcome (join_lines (fld $"model_regex" r)) (fun m =>
  bind_outcome (join_lines (fld $"path_regex" r)) (fun p =>
  bind_outcome (join_lines (fld $"user_agent_include" r)) (fun u =>
  Ret [($"name", or_else (fld $"name" r) (VStr [])); ($"model_regex_text", VStr m); ($"path_regex_text", VStr p);
       ($"user_agent_include_text", VStr u); ($"value_regex", or_else (fld $"value_regex" r) (VStr []));
       ($"ttl_seconds", VNum (Number_val (or_else (fld $"ttl_seconds" r) (int 0))));
       ($"skip_retry_on_failure", VBool (truthy (fld $"skip_retry_on_failure" r)));
       ($"include_using_group", nullish_or (fld $"include_using_group" r) (VBool true));
       ($"include_model_name", VBool (truthy (fld $"include_model_name" r)));
       ($"include_rule_name", nullish_or (fld $"include_rule_name" r) (VBool true));
       ($"param_override_template_json",
         VStr (if truthy (fld $"param_override_template" r) then json2 (fld $"param_override_template" r) else []))]))).

Definition draft_of (init : object) : jsstr := match fld $"param_override_template_json" init with VStr s => s | _ => [] end.

Definition new_rule : object :=
  [($"name", VStr []); ($"model_regex", VArr []); ($"path_regex", VArr []); ($"user_agent_include", VArr []);
   ($"key_sources", VArr [gjson_source []]); ($"value_regex", VStr []); ($"ttl_seconds", int 0); ($"skip_retry_on_failure", VBool false);
   ($"include_using_group", VBool true); ($"include_model_name", VBool false); ($"include_rule_name", VBool true)].

(** The dialog and the values its form starts with. *)
Definition openAddModal (s : page) : outcome (page * object) :=
  bind_outcome (buildModalFormValues new_rule) (fun init => Ret (set_dialog (Some (Modal new_rule false (draft_of init))) s, init)).

Definition shown_rule (r : object) : outcome object :=
  match or_else (fld $"key_sources" r) (VArr []) with
  | VArr l =>
    bind_outcome (normalize_all l) (fun ks =>
    Ret (prop_set $"key_sources" (VArr (map VObj ks))
           (prop_set $"user_agent_include" (match fld $"user_agent_include" r with VArr u => VArr u | _ => VArr [] end) r)))
  | _ => Throw
  end.

Definition handleEditRule (r : object) (s : page) : outcome (page * object) :=
  bind_outcome (shown_rule r) (fun next =>
  bind_outcome (buildModalFormValues next) (fun init => Ret (set_dialog (Some (Modal next true (draft_of init))) s, init))).

Definition MSG_SOURCES : jsstr := $"Key 来源不能为空".
Definition MSG_KEY : jsstr := $"Key 不能为空".
Definition MSG_PATH : jsstr := $"Path 不能为空".
Definition MSG_SOURCE_TYPE : jsstr := $"Key 来源类型不合法".

Fixpoint check_sources (l : list object) : option jsstr :=
  match l with
  | [] => None
  | x :: r =>
    let t := fld $"type" x in
    if eq_str t $"context_int" || eq_str t $"context_string" then if truthy (fld $"key" x) then check_sources r else Some MSG_KEY
    else if eq_str t $"gjson" then if truthy (fld $"path" x) then check_sources r else Some MSG_PATH
    else Some MSG_SOURCE_TYPE
  end.

Definition validateKeySources (v : val) : outcome (jsstr + list object) :=
  match or_else v (VArr []) with
  | VArr l =>
    bind_outcome (normalize_all l) (fun xs =>
    let ys := List.filter (fun x => truthy (fld $"type" x)) xs in
    Ret (match ys with
         | [] => inl MSG_SOURCES
         | _ => match check_sources ys with Some m => inl m | None => inr ys end
         end))
  | _ => Throw
  end.

Fixpoint find_index (p : object -> bool) (l : list object) : option nat :=
  match l with
  | [] => None
  | x :: r => if p x then Some O else option_map S (find_index p r)
  end.

(** [(r.name || '').trim()], for a name that is text. *)
Definition name_of (r : object) : jsstr := match fld $"name" r with VStr s => trim s | _ => [] end.

Definition edited_index (r : object) (l : list object) : option nat :=
  match find_index (fun x => same_value (fld $"id" x) (fld $"id" r)) l with
  | Some i => Some i
  | None => if truthy (fld $"name" r) then find_index (fun x => name_of x =s? name_of r) l else None
  end.

Definition MSG_MODELS : jsstr := $"模型正则不能为空".
Definition MSG_NAME : jsstr := $"名称不能为空".
Definition MSG_LOST : jsstr := $"规则未找到，请刷新后重试".
Definition MSG_CHECK : jsstr := $"请检查输入".

(** The rules after the dialog, or the message. *)
Definition saved_rules (m : modal) (values : object) (l : list object) : outcome (jsstr + list object) :=
  bind_outcome (normalizeStringList (fld $"model_regex_text" values)) (fun modelRegex =>
  match modelRegex with
  | [] => Ret (inl MSG_MODELS)
  | _ =>
    bind_outcome (validateKeySources (fld $"key_sources" (editingRule m))) (fun v =>
    match v with
    | inl e => Ret (inl e)
    | inr sources =>
      bind_outcome (normalizeStringList (fld $"user_agent_include_text" values)) (fun ua =>
      match parseOptionalObjectJson (paramTemplateDraft m) with
      | inl e => Ret (inl e)
      | inr template =>
        bind_outcome (normalizeStringList (fld $"path_regex_text" values)) (fun pathRegex =>
        bind_outcome (buildChannelAffinityRulePayload values (if isEdit m then fld $"id" (editingRule m) else int (Z.of_nat (length l)))
          modelRegex pathRegex sources ua template) (fun payload =>
        if negb (truthy (fld $"name" payload)) then Ret (inl MSG_NAME)
        else if isEdit m then
          Ret (match edited_index (editingRule m) l with Some i => inr (renumber (<[i := payload]> l)) | None => inl MSG_LOST end)
        else Ret (inr (renumber (l ++ [payload])))))
      end)
    end)
  end).

(** [values] is what the form gives, or none when it rejects its fields. *)
Definition handleModalSave (values : option object) (s : page) : page * option jsstr :=
  match dialog s, values with
  | Some m, Some v =>
    match saved_rules m v (rules s) with
    | Ret (inr next) => (set_dialog None (updateRulesState next s), None)
    | Ret (inl e) => (s, Some e)
    | Throw => (s, Some MSG_CHECK)
    end
  | _, _ => (s, Some MSG_CHECK)
  end.

Definition sources_of (m : modal) : list val := match or_else (fld $"key_sources" (editingRule m)) (VArr []) with VArr l => l | _ => [] end.

Definition set_sources (l : list val) (m : modal) : modal :=
  Modal (prop_set $"key_sources" (VArr l) (editingRule m)) (isEdit m) (paramTemplateDraft m).

(** Assigning past the end of an array extends it. *)
Definition array_set {A} (d : A) (i : nat) (x : A) (l : list A) : list A :=
  if (i <? length l)%nat then <[i := x]> l else l ++ replicate (i - length l) d ++ [x].

Definition updateKeySource (i : nat) (patch : object) (m : modal) : outcome modal :=
  let old := match sources_of m !! i with Some v => entries (or_else v (VObj [])) | None => [] end in
  bind_outcome (normalizeKeySource (VObj (prop_assign old patch))) (fun x => Ret (set_sources (array_set VUndef i (VObj x) (sources_of m)) m)).

Definition addKeySource (m : modal) : modal := set_sources (sources_of m ++ [gjson_source []]) m.
Definition removeKeySource (i : nat) (m : modal) : modal := set_sources (take i (sources_of m) ++ drop (S i) (sources_of m)) m.
Definition rename (v : val) (m : modal) : modal := Modal (prop_set $"name" v (editingRule m)) (isEdit m) (paramTemplateDraft m).
Definition updateParamTemplateDraft (v : val) (m : modal) : modal := Modal (editingRule m) (isEdit m) (match v with VStr s => s | _ => [] end).

Definition formatParamTemplateDraft (m : modal) : modal :=
  let raw := trim (paramTemplateDraft m) in
  if nonempty raw then match parse raw with Some v => updateParamTemplateDraft (VStr (json2 v)) m | None => m end else m.

Inductive template_label := Unset | Invalid | Set_.

Definition paramTemplatePreviewMeta (m : modal) : template_label * jsstr :=
  let raw := trim (paramTemplateDraft m) in
  if nonempty raw then match parse raw with Some v => (Set_, json2 v) | None => (Invalid, raw) end else (Unset, []).

(** The name whose cache is cleared; a rule whose name is not in the keys has none. *)
Definition confirmClearRuleCache (r : object) : option jsstr :=
  if nonempty (name_of r) && truthy (fld $"include_rule_name" r) then Some (name_of r) else None.

(** ** Options *)

Definition read_rules (v : val) : val :=
  match parse (rules_text v) with Some x => VStr (json2 x) | None => VStr (rules_text v) end.

Definition read_number (v : val) : val :=
  let n := Number_val (or_else v (int 0)) in VNum (if num_truthy n then n else n0).

Definition load_key (kv : jsstr * val) (i : object) : object :=
  let k := kv.1 in
  if (k =s? KEY_ENABLED) || (k =s? KEY_SWITCH_ON_SUCCESS) then prop_set k (VBool (ClientHelpers.toBoolean kv.2)) i
  else if (k =s? KEY_MAX_ENTRIES) || (k =s? KEY_DEFAULT_TTL) then prop_set k (read_number kv.2) i
  else if k =s? KEY_RULES then prop_set k (read_rules kv.2) i
  else i.

(** The effect on the options of the server. *)
Definition load_options (options : object) (s : page) : page :=
  let i := fold_left (fun i kv => load_key kv i) options (inputs s) in
  Page i i (editMode s) (parseRulesJson (fld KEY_RULES i)) (dialog s).

Definition compareObjects (a b : object) : list jsstr :=
  List.filter (fun k => match prop k a, prop k b with Some x, Some y => negb (same_value x y) | _, _ => false end) (keys a).

Definition MSG_UNCHANGED : jsstr := $"你似乎并没有修改什么".
Definition MSG_RULES : jsstr := $"规则 JSON 格式不正确".

(** The options that are written. *)
Definition onSubmit (s : page) : jsstr + list (jsstr * jsstr) :=
  match compareObjects (inputs s) (inputsRow s) with
  | [] => inl MSG_UNCHANGED
  | ks =>
    match parse (rules_text (text s)) with
    | None => inl MSG_RULES
    | Some v =>
      inr (map (fun k => (k, if k =s? KEY_RULES then json v
                             else let x := fld k (inputs s) in if is_nullish x then [] else String_val x)) ks)
    end
  end.

(** ** Events *)

(** The buttons over the table stay in both modes; the table is shown in one of them and the
    text in the other.  The dialog covers the page. *)
Inductive event :=
| EOptions (o : object) | EToggle (k : jsstr) (b : bool) | ENumber (k : jsstr) (v : val) | EText (t : jsstr)
| EJson | EVisual | EAppend (now : Z) | EDelete (r : object) | EAdd | EEdit (r : object)
| ECancel | ESave (values : option object) | EDraft (v : val) | EFormat | EName (v : val)
| ESource (i : nat) (patch : object) | EAddSource | ERemoveSource (i : nat).

Definition in_dialog (e : event) : bool :=
  match e with
  | ECancel | ESave _ | EDraft _ | EFormat | EName _ | ESource _ _ | EAddSource | ERemoveSource _ => true
  | _ => false
  end.

Definition allowed (s : page) (e : event) : Prop :=
  match e with
  | EOptions _ => True
  | EText _ => editMode s = JsonText /\ dialog s = None
  | EDelete r | EEdit r => editMode s = Visual /\ dialog s = None /\ r ∈ rules s
  | EToggle k _ => (k = KEY_ENABLED \/ k = KEY_SWITCH_ON_SUCCESS) /\ dialog s = None
  | ENumber k _ => (k = KEY_MAX_ENTRIES \/ k = KEY_DEFAULT_TTL) /\ dialog s = None
  | _ => if in_dialog e then is_Some (dialog s) else dialog s = None
  end.

Definition on_dialog (f : modal -> outcome modal) (s : page) : page :=
  match dialog s with Some m => match f m with Ret m' => set_dialog (Some m') s | Throw => s end | None => s end.

(** A handler that throws changes nothing. *)
Definition handle (e : event) (s : page) : page :=
  match e with
  | EOptions o => load_options o s
  | EToggle k b => set_input k (VBool b) s
  | ENumber k v => set_input k (VNum (Number_val (or_else v (int 0)))) s
  | EText t => set_input KEY_RULES (VStr t) s
  | EJson => switchToJsonMode s
  | EVisual => switchToVisualMode s
  | EAppend now => catch (doAppend now s) s
  | EDelete r => handleDeleteRule (fld $"id" r) s
  | EAdd => catch (bind_outcome (openAddModal s) (fun r => Ret r.1)) s
  | EEdit r => catch (bind_outcome (handleEditRule r s) (fun x => Ret x.1)) s
  | ECancel => set_dialog None s
  | ESave values => (handleModalSave values s).1
  | EDraft v => on_dialog (fun m => Ret (updateParamTemplateDraft v m)) s
  | EFormat => on_dialog (fun m => Ret (formatParamTemplateDraft m)) s
  | EName v => on_dialog (fun m => Ret (rename v m)) s
  | ESource i patch => on_dialog (updateKeySource i patch) s
  | EAddSource => on_dialog (fun m => Ret (addKeySource m)) s
  | ERemoveSource i => on_dialog (fun m => Ret (removeKeySource i m)) s
  end.

(** An event, then the effects of the commit. *)
Inductive reach : page -> Prop :=
| reach_start : reach page0
| reach_event s e : reach s -> allowed s e -> reach (settle s (handle e s)).

End Affinity.
