(* ===== verification/AffinityProofs.v ===== *)
(** * What the rules of channel affinity promise

    The table and the text agree, switching between them loses nothing, a rule that is opened
    and saved stays the same, new names are free, and what typing in the JSON mode loses. *)
From Stdlib Require Import SpecFloat.
From S2P Require Import Prelude JSNum JSValue Json FormValues ClientHelpers ParamOverrideEditor Affinity.
#[local] Open Scope Z_scope.
#[local] Arguments js _ : simpl never.

Module AffinityProofs.
Import FormValues Affinity.

(** ** The table and the text *)

(** The text is the JSON of the rules in the table, or the table is what the text reads as. *)
Definition agree (s : page) : Prop := text s = VStr (rulesToJson (rules s)) \/ rules s = parseRulesJson (text s).

Lemma text_update next s : text (updateRulesState next s) = VStr (rulesToJson next).
Proof. apply fld_set_eq. Qed.

Lemma same_value_strings a t : same_value a (VStr t) = true -> a = VStr t.
Proof. destruct a; try done. cbn. by intros <-%str_eqb_eq. Qed.

(** A handler either keeps the table, the text and the mode or makes them agree. *)
Lemma settle_agree was s :
  editMode s = Visual ->
  (agree s \/ (rules s = rules was /\ text s = text was /\ editMode was = Visual /\ agree was) \/ editMode was = JsonText) ->
  agree (settle was s).
Proof.
  intros Hm H. unfold settle. rewrite Hm. destruct (editMode was) eqn:Ew.
  - destruct (same_value (text was) (text s)) eqn:E; [|by right]. destruct H as [H|[(Hr & Ht & _ & H)|H]]; [done| |done].
    unfold agree in *. by rewrite Hr, Ht.
  - by right.
Qed.

Definition kept (was s : page) : Prop := rules s = rules was /\ text s = text was /\ editMode s = editMode was.

Lemma kept_refl s : kept s s.
Proof. done. Qed.

Lemma kept_input k v s : k <> KEY_RULES -> kept s (set_input k v s).
Proof. intros H. split; [done|]. split; [|done]. unfold text, set_input. cbn [inputs]. rewrite fld_set_ne; [done|congruence]. Qed.

Lemma kept_dialog d s : kept s (set_dialog d s).
Proof. done. Qed.

Lemma kept_on_dialog f s : kept s (on_dialog f s).
Proof. unfold on_dialog. destruct (dialog s) as [m|]; [|apply kept_refl]. destruct (f m); apply kept_refl || apply kept_dialog. Qed.

#[local] Hint Resolve kept_refl kept_input kept_dialog kept_on_dialog : core.

Lemma update_agree next s : agree (updateRulesState next s).
Proof. left. apply text_update. Qed.

Lemma handle_agree s e :
  allowed s e -> editMode (handle e s) = Visual -> agree (handle e s) \/ kept s (handle e s) \/ editMode s = JsonText.
Proof.
  intros Ha Hm. destruct e; cbn [handle] in *; try (right; left; by auto).
  - left. by right.
  - right; left. apply kept_input. destruct Ha as [[-> | ->] _]; done.
  - right; left. apply kept_input. destruct Ha as [[-> | ->] _]; done.
  - right; right. by destruct Ha.
  - destruct (editMode s) eqn:E; [|by right; right]. right; left. unfold switchToVisualMode, kept. by destruct (tryParseRulesJsonArray _).
  - unfold doAppend. destruct (rule_names (rules s)); cbn; [left; apply update_agree|right; left; done].
  - left. apply update_agree.
  - right; left. destruct (handleEditRule r s) as [[s' i]|] eqn:E; cbn; [|done]. unfold handleEditRule in E.
    destruct (shown_rule r); [|done]. cbn in E. destruct (buildModalFormValues _); [|done]. by injection E as <- _.
  - unfold handleModalSave. destruct (dialog s), values; try (right; left; done).
    destruct (saved_rules _ _ _) as [[e|next]|]; try (right; left; done). left. left. apply text_update.
Qed.

(** Whatever the order of edits, switches and answers, while the table is shown it and the text
    that will be saved agree. *)
Theorem reach_table_agrees s : reach s -> editMode s = Visual -> agree s.
Proof.
  induction 1 as [|s e _ IH Ha]; intros Hm; [by left|].
  assert (Hv : editMode (handle e s) = Visual).
  { unfold settle in Hm. destruct (editMode (handle e s)) eqn:E; congruence. }
  apply settle_agree; [done|]. destruct (handle_agree s e Ha Hv) as [H|[(Hr & Ht & He)|H]]; [by left| |by right; right].
  right; left. rewrite Hv in He. auto.
Qed.

(** ** Names of templates *)

Lemma try_names_none n i existing base :
  try_names n i existing base = None -> forall j, i <= j < i + Z.of_nat n -> base ++ $"-" ++ Z_to_str j ∈ existing.
Proof.
  revert i; induction n as [|n IH]; intros i H j Hj; [lia|]. cbn [try_names] in H. destruct (existsb _ _) eqn:E; [|done].
  destruct (Z.eq_dec j i) as [->|]; [|apply (IH (i + 1)); [done|lia]].
  apply existsb_exists in E as (x & Hx & ->%str_eqb_eq). by apply list_elem_of_In.
Qed.

Lemma try_names_fresh n i existing base x : try_names n i existing base = Some x -> x ∉ existing.
Proof.
  revert i; induction n as [|n IH]; intros i H; [done|]. cbn [try_names] in H. destruct (existsb _ _) eqn:E; [by eapply IH|].
  injection H as <-. by apply memk_false.
Qed.

(** A name made for a template is free, as long as there are fewer than 999 rules. *)
Theorem unique_name_free now existing baseName :
  (length existing < 999)%nat -> makeUniqueName now existing baseName ∉ existing.
Proof.
  intros Hl. unfold makeUniqueName. set (base := if nonempty (trim baseName) then _ else _).
  destruct (existsb (str_eqb base) existing) eqn:E; [|by apply memk_false].
  destruct (try_names 998 2 existing base) as [x|] eqn:Et; cbn [default]; [by eapply try_names_fresh|].
  exfalso. pose proof (try_names_none _ _ _ _ Et) as Hin.
  set (names := base :: map (fun k => base ++ $"-" ++ Z_to_str (Z.of_nat k)) (seq 2 998)).
  assert (Hd : NoDup names).
  { apply NoDup_cons. split.
    - intros (k & Hk & _)%list_elem_of_fmap. apply (f_equal length) in Hk. rewrite !length_app in Hk. change (length $"-") with 1%nat in Hk. lia.
    - apply NoDup_fmap_2_strong; [|apply NoDup_seq]. intros a b _ _ Hab. do 2 apply app_inv_head in Hab. apply Z_to_str_inj in Hab; lia. }
  assert (Hs : names ⊆ existing).
  { intros x [->|(k & -> & Hk)%list_elem_of_fmap]%elem_of_cons.
    - apply existsb_exists in E as (y & Hy & ->%str_eqb_eq). by apply list_elem_of_In.
    - apply elem_of_seq in Hk. apply Hin. lia. }
  assert (Hle : (length names <= length existing)%nat) by (apply submseteq_length, NoDup_submseteq; [exact Hd|exact Hs]). unfold names in Hle. cbn [length] in Hle.
  rewrite length_map, length_seq in Hle. lia.
Qed.

(** ** Rules with their position *)

Lemma delete_cons k k1 (v : val) o : prop_delete k ((k1, v) :: o) = if k =s? k1 then prop_delete k o else (k1, v) :: prop_delete k o.
Proof. unfold prop_delete. cbn. by destruct (k =s? k1). Qed.

Lemma delete_replace k k' (v : val) o : k <> k' -> prop_delete k (prop_replace k' v o) = prop_replace k' v (prop_delete k o).
Proof.
  intros H. induction o as [|[k1 v1] o IH]; [done|]. cbn [prop_replace]. rewrite delete_cons. destruct (str_eqb_spec k' k1) as [->|Hn].
  - rewrite delete_cons. destruct (str_eqb_spec k k1); [done|]. cbn. by rewrite str_eqb_refl.
  - rewrite delete_cons, IH. destruct (str_eqb_spec k k1); [done|]. cbn. by destruct (str_eqb_spec k' k1).
Qed.

Lemma insert_index_front k (v : val) o : Forall (fun x => is_index x = false) (keys o) -> prop_insert_index k v o = (k, v) :: o.
Proof. destruct o as [|[k1 v1] o]; [done|]. cbn. inversion_clear 1 as [|? ? H1 _]. by rewrite H1. Qed.

Lemma delete_insert_index k k' (v : val) o :
  is_index k = false -> is_index k' = true -> canonical o -> prop_delete k (prop_insert_index k' v o) = prop_insert_index k' v (prop_delete k o).
Proof.
  intros Hk Hk'. assert (Hkk : (k =s? k') = false) by (destruct (str_eqb_spec k k'); congruence).
  induction o as [|[k1 v1] o IH]; intros Hc; [cbn; by rewrite Hkk|]. cbn [prop_insert_index]. rewrite delete_cons.
  assert (Hc' : canonical o) by (by inversion Hc). destruct (str_eqb_spec k k1) as [<-|Hn].
  - rewrite Hk. cbn [andb]. rewrite !delete_cons, Hkk, str_eqb_refl. symmetry. apply insert_index_front.
    apply Forall_forall. intros x Hx. inversion_clear Hc as [|? ? _ Hf]. rewrite Forall_forall in Hf.
    assert (Hin : x ∈ keys o).
    { apply list_elem_of_fmap in Hx as (kv & -> & Hx). apply elem_of_lfilter in Hx as [Hx _]. apply list_elem_of_fmap. by exists kv. }
    specialize (Hf x Hin). unfold before in Hf. rewrite Hk in Hf. by destruct (is_index x).
  - cbn [prop_insert_index]. destruct (is_index k1 && _); rewrite !delete_cons.
    + destruct (str_eqb_spec k k1); [done|]. by rewrite IH.
    + rewrite Hkk. by destruct (str_eqb_spec k k1).
Qed.

Lemma delete_set_other k k' (v : val) o :
  is_index k = false -> k <> k' -> canonical o -> prop_delete k (prop_set k' v o) = prop_set k' v (prop_delete k o).
Proof.
  intros Hk Hn Hc. unfold prop_set, has_prop. rewrite prop_delete_lookup. destruct (str_eqb_spec k' k) as [->|_]; [done|].
  destruct (prop k' o); [by apply delete_replace|]. destruct (is_index k') eqn:E; [by apply delete_insert_index|].
  unfold prop_delete. rewrite List.filter_app. cbn. by destruct (str_eqb_spec k k').
Qed.

Lemma delete_assign k (o a : object) :
  is_index k = false -> (k ∉ keys o) -> canonical a -> prop_delete k (prop_assign a o) = prop_assign (prop_delete k a) o.
Proof.
  intros Hk. unfold prop_assign. revert a. induction o as [|[k1 v1] o IH]; intros a Hn Hc; [done|]. cbn [fold_left fst snd].
  cbn [keys map fst] in Hn. apply not_elem_of_cons in Hn as [H1 H2].
  rewrite IH by (done || by apply prop_set_canonical). by rewrite delete_set_other.
Qed.

(** An object of the JSON text without an [id]. *)
Definition plain_rule (v : val) : Prop := exists o, v = VObj o /\ json_wf v /\ prop $"id" o = None.

Lemma strip_index i o : json_wf (VObj o) -> prop $"id" o = None -> strip (with_index i (VObj o)) = o.
Proof.
  intros [Hp _]%json_wf_obj Hn%prop_None. unfold strip, with_index. cbn [or_else truthy entries].
  rewrite delete_assign; [|by vm_compute|done|repeat constructor]. exact Hp.
Qed.

Lemma strip_rules l : Forall plain_rule l -> forall n, map (fun r => VObj (strip r)) (imap (fun i => with_index (n + i)) l) = l.
Proof.
  induction 1 as [|x l (o & -> & Hw & Hn) _ IH]; intros n; [done|]. cbn [imap map]. rewrite Nat.add_0_r, strip_index by done. f_equal.
  rewrite <- (IH (S n)) at 2. f_equal. unfold imap at 1. apply imap_ext. intros i y _. cbn. by rewrite Nat.add_succ_r.
Qed.

Lemma rules_of_text l : Forall plain_rule l -> json_wf (VArr l).
Proof. intros H. apply json_wf_arr. eapply Forall_impl; [exact H|]. by intros x (o & _ & Hw & _). Qed.

Lemma json2_nonempty v : json_wf v -> nonempty (json2 v) = true.
Proof. intros H. pose proof (json2_reads v H) as E. destruct (json2 v); [by vm_compute in E|done]. Qed.

Lemma rules_text_json l : Forall plain_rule l -> rules_text (VStr (json2 (VArr l))) = json2 (VArr l).
Proof. intros H%rules_of_text. unfold rules_text. cbn [truthy]. by rewrite json2_nonempty. Qed.

Lemma parse_rules_json l : Forall plain_rule l -> parseRulesJson (VStr (json2 (VArr l))) = imap with_index l.
Proof. intros H. unfold parseRulesJson. rewrite rules_text_json by done. by rewrite json2_reads by (by apply rules_of_text). Qed.

Lemma rules_json_parse l : Forall plain_rule l -> rulesToJson (imap with_index l) = json2 (VArr l).
Proof. intros H. unfold rulesToJson. f_equal. f_equal. exact (strip_rules l H 0). Qed.

Lemma to_visual j l :
  text j = VStr (json2 (VArr l)) -> Forall plain_rule l -> switchToVisualMode j = Page (inputs j) (inputsRow j) Visual (rules j) (dialog j).
Proof.
  intros Ht Hl. unfold switchToVisualMode, tryParseRulesJsonArray. rewrite Ht, !rules_text_json by done.
  by rewrite json2_reads by (by apply rules_of_text).
Qed.

(** Switching to the text and back changes nothing, when the text was written from plain rules. *)
Lemma switch_and_back s l :
  editMode s = Visual -> prop KEY_RULES (inputs s) = Some (VStr (json2 (VArr l))) -> Forall plain_rule l -> rules s = imap with_index l ->
  let j := settle s (switchToJsonMode s) in settle j (switchToVisualMode j) = s.
Proof.
  intros Hm Ht Hl Hr. cbn zeta.
  assert (Hj : settle s (switchToJsonMode s) = Page (inputs s) (inputsRow s) JsonText (rules s) (dialog s)).
  { unfold settle, switchToJsonMode. cbn [editMode]. rewrite Hr, rules_json_parse by done. by rewrite prop_set_same. }
  rewrite Hj, (to_visual _ l) by (done || unfold text, fld; cbn [inputs]; by rewrite Ht).
  unfold settle, text. cbn [editMode inputs inputsRow rules dialog].
  assert (E : fld KEY_RULES (inputs s) = VStr (json2 (VArr l))) by (unfold fld; by rewrite Ht). rewrite E, parse_rules_json by done. destruct s as [i r m rs d]. cbn in *. by subst.
Qed.

(** ** Options *)

(** A value that is equal to itself: not NaN, not an object. *)
Definition steady (v : val) : bool := same_value v v.

Lemma truthy_neqb n : num_truthy n = true -> neqb n n = true.
Proof. unfold neqb, SFeqb, SFcompare. destruct n as [[]|[]| |[] m e]; try done; intros _; by rewrite Z.compare_refl, Pos.compare_cont_refl. Qed.

Lemma read_number_steady v : steady (read_number v) = true.
Proof. unfold steady, read_number. cbn [same_value]. destruct (num_truthy _) eqn:E; [by apply truthy_neqb|reflexivity]. Qed.

Lemma read_rules_steady v : steady (read_rules v) = true.
Proof. unfold steady, read_rules. destruct (parse _); cbn [same_value]; apply str_eqb_refl. Qed.

Lemma bool_steady b : steady (VBool b) = true.
Proof. by destruct b. Qed.

(** An option of the page sets its own field to a value that is equal to itself. *)
Lemma load_key_cases kv i : load_key kv i = i \/ exists v, load_key kv i = prop_set kv.1 v i /\ steady v = true.
Proof.
  unfold load_key. cbv zeta.
  generalize (kv.1 =s? KEY_ENABLED), (kv.1 =s? KEY_SWITCH_ON_SUCCESS), (kv.1 =s? KEY_MAX_ENTRIES), (kv.1 =s? KEY_DEFAULT_TTL), (kv.1 =s? KEY_RULES).
  intros a b c d e. destruct (a || b); [right; eexists; split; [reflexivity|apply bool_steady]|].
  destruct (c || d); [right; eexists; split; [reflexivity|apply read_number_steady]|].
  destruct e; [right; eexists; split; [reflexivity|apply read_rules_steady]|by left].
Qed.

Lemma load_key_other kv i k : k <> kv.1 -> prop k (load_key kv i) = prop k i.
Proof. intros H. destruct (load_key_cases kv i) as [->|(v & -> & _)]; [done|by apply prop_set_ne]. Qed.

Lemma load_key_rules v i : load_key (KEY_RULES, v) i = prop_set KEY_RULES (read_rules v) i.
Proof. reflexivity. Qed.

Lemma load_others o i k : k ∉ keys o -> prop k (fold_left (fun i kv => load_key kv i) o i) = prop k i.
Proof.
  revert i; induction o as [|kv o IH]; intros i H; [done|]. cbn [fold_left]. cbn [keys map] in H. apply not_elem_of_cons in H as [H1 H2].
  rewrite IH by done. by apply load_key_other.
Qed.

Lemma load_at K g o i v : (forall w i, load_key (K, w) i = prop_set K (g w) i) -> NoDup (keys o) -> prop K o = Some v ->
  prop K (fold_left (fun i kv => load_key kv i) o i) = Some (g v).
Proof.
  intros HK. revert i; induction o as [|[k w] o IH]; intros i Hd H; [done|]. cbn [fold_left]. cbn [keys map fst] in Hd. apply NoDup_cons in Hd as [Hn Hd].
  cbn [prop] in H. destruct (str_eqb_spec K k) as [<-|Hk]; [|exact (IH _ Hd H)].
  apply Some_inj in H as ->. rewrite load_others by exact Hn. rewrite HK. apply prop_set_eq.
Qed.

Lemma steady_key kv i : Forall (fun x => steady x.2 = true) i -> Forall (fun x => steady x.2 = true) (load_key kv i).
Proof. intros H. destruct (load_key_cases kv i) as [->|(v & -> & Hv)]; [done|by apply prop_set_Forall]. Qed.

Lemma compare_steady i : NoDup (keys i) -> Forall (fun x => steady x.2 = true) i -> compareObjects i i = [].
Proof.
  intros Hd H. unfold compareObjects. rewrite Forall_forall in H.
  destruct (List.filter _ _) as [|k l] eqn:E; [done|]. assert (Hin : k ∈ k :: l) by (by left). rewrite <- E in Hin.
  apply elem_of_lfilter in Hin as [_ Hk]. destruct (prop k i) as [v|] eqn:Ev; [|done].
  apply prop_elem in Ev. specialize (H _ Ev). cbn in H. unfold steady in H. by rewrite H in Hk.
Qed.

Lemma load_steady o i : Forall (fun x => steady x.2 = true) i -> Forall (fun x => steady x.2 = true) (fold_left (fun i kv => load_key kv i) o i).
Proof. revert i; induction o as [|kv o IH]; intros i H; [done|]. cbn [fold_left]. by apply IH, steady_key. Qed.

Lemma load_NoDup o i : NoDup (keys i) -> NoDup (keys (fold_left (fun i kv => load_key kv i) o i)).
Proof.
  revert i; induction o as [|kv o IH]; intros i H; [done|]. cbn [fold_left]. apply IH.
  destruct (load_key_cases kv i) as [->|(v & -> & _)]; [done|by apply prop_set_NoDup].
Qed.

Lemma submit_unchanged s : inputs s = inputsRow s -> NoDup (keys (inputs s)) -> Forall (fun x => steady x.2 = true) (inputs s) -> onSubmit s = inl MSG_UNCHANGED.
Proof. intros E Hd Hs. unfold onSubmit. rewrite <- E, compare_steady by done. done. Qed.

Definition page0_steady : bool := forallb (fun x => steady x.2) (inputs page0).

(** C23: the page opened on the options of the server shows their rules; switching to the text and
    back gives the same page, and there is nothing to save. *)
Theorem affinity_modes_roundtrip o t l :
  NoDup (keys o) -> prop KEY_RULES o = Some (VStr t) -> parse (rules_text (VStr t)) = Some (VArr l) -> Forall plain_rule l ->
  let s := settle page0 (load_options o page0) in
  let j := settle s (switchToJsonMode s) in
  map strip (rules s) = map (fun v => entries v) l /\ settle j (switchToVisualMode j) = s /\ onSubmit s = inl MSG_UNCHANGED.
Proof.
  intros Hd Hp Ep Hl. cbn zeta. set (i := fold_left (fun i kv => load_key kv i) o (inputs page0)).
  assert (Ei : prop KEY_RULES i = Some (VStr (json2 (VArr l)))).
  { unfold i. rewrite (load_at KEY_RULES read_rules o (inputs page0) (VStr t) load_key_rules Hd Hp). unfold read_rules. by rewrite Ep. }
  assert (Et : fld KEY_RULES i = VStr (json2 (VArr l))) by (unfold fld; by rewrite Ei).
  assert (Es : settle page0 (load_options o page0) = Page i i Visual (imap with_index l) None).
  { unfold settle, load_options, text. fold i. cbn [editMode inputs inputsRow rules dialog page0]. rewrite Et, parse_rules_json by done. by destruct (same_value _ _). }
  rewrite Es. split; [|split].
  - cbn [rules]. pose proof (strip_rules l Hl 0) as H. apply (f_equal (map entries)) in H. rewrite map_map in H. exact H.
  - by apply (switch_and_back _ l).
  - apply submit_unchanged; [done|apply load_NoDup|apply load_steady].
    + apply (bool_decide_eq_true_1 (NoDup (keys (inputs page0)))). vm_compute. reflexivity.
    + apply Forall_forall. intros x Hx. assert (H : page0_steady = true) by (by vm_compute). unfold page0_steady in H. rewrite forallb_forall in H.
      apply H. by apply list_elem_of_In.
Qed.

(** ** Positions *)

Definition to_int (n : num) : Z := match n with S754_finite s m e => (if s then -1 else 1) * Z.shiftl (Z.pos m) e | _ => 0 end.

Lemma neqb_int a b : neqb a b = true -> to_int a = to_int b.
Proof.
  unfold neqb, SFeqb, SFcompare. destruct a as [sa|sa| |sa ma ea], b as [sb|sb| |sb mb eb]; try done; try (by destruct sa); try (by destruct sb); try (by destruct sa, sb).
  destruct sa, sb; try done; destruct (Z.compare_spec ea eb) as [->|?|?]; try done; destruct (Pos.compare_cont Eq ma mb) eqn:E; try done;
    apply Pos.compare_eq in E as ->; intros _; reflexivity.
Qed.

Definition small : nat := 1000.

Lemma small_exact k : (k < small)%nat -> to_int (of_Z (Z.of_nat k)) = Z.of_nat k.
Proof.
  intros H. assert (E : forallb (fun k => to_int (of_Z (Z.of_nat k)) =? Z.of_nat k) (seq 0 small) = true) by (vm_compute; reflexivity).
  rewrite forallb_forall in E. apply Z.eqb_eq, E, in_seq. lia.
Qed.

Lemma small_same a b : (a < small)%nat -> (b < small)%nat -> same_value (int (Z.of_nat a)) (int (Z.of_nat b)) = true -> a = b.
Proof. intros Ha Hb H%neqb_int. rewrite !small_exact in H by done. lia. Qed.

Lemma same_int a : same_value (int (Z.of_nat a)) (int (Z.of_nat a)) = true \/ to_int (of_Z (Z.of_nat a)) = 0.
Proof.
  cbn [int same_value]. destruct (num_truthy (of_Z (Z.of_nat a))) eqn:E; [left; by apply truthy_neqb|right].
  by destruct (of_Z (Z.of_nat a)).
Qed.

Lemma small_self a : (a < small)%nat -> same_value (int (Z.of_nat a)) (int (Z.of_nat a)) = true.
Proof.
  intros H. destruct (same_int a) as [E|E]; [done|]. rewrite small_exact in E by done.
  assert (a = 0)%nat as -> by lia. vm_compute. reflexivity.
Qed.

(** The position of a rule is its [id]. *)
Definition ids_ok (l : list object) : Prop := forall j r, l !! j = Some r -> prop $"id" r = Some (int (Z.of_nat j)).

Lemma renumber_same l : ids_ok l -> renumber l = l.
Proof.
  intros H. unfold renumber. apply list_eq. intros j. rewrite list_lookup_imap.
  destruct (l !! j) as [r|] eqn:E; [|done]. cbn. f_equal. by apply prop_set_same, H.
Qed.

Lemma renumber_ids l : ids_ok (renumber l).
Proof.
  intros j r H. unfold renumber in H. rewrite list_lookup_imap in H. destruct (l !! j) as [x|]; [|done]. injection H as <-. apply prop_set_eq.
Qed.

Lemma find_id l i r : ids_ok l -> (length l <= small)%nat -> l !! i = Some r -> find_index (fun x => same_value (fld $"id" x) (fld $"id" r)) l = Some i.
Proof.
  intros Hi Hl Hr. assert (Er : fld $"id" r = int (Z.of_nat i)) by (unfold fld; by rewrite (Hi _ _ Hr)). rewrite Er.
  assert (Hil : (i < length l)%nat) by (by eapply lookup_lt_Some).
  assert (G : forall n l', (forall j x, l' !! j = Some x -> fld $"id" x = int (Z.of_nat (n + j))) -> (n + length l' <= small)%nat ->
    (n <= i < n + length l')%nat -> find_index (fun x => same_value (fld $"id" x) (int (Z.of_nat i))) l' = Some (i - n)%nat).
  { clear -Hil Hl. intros n l'. revert n. induction l' as [|x l' IH]; intros n Hx Hn Hb; cbn [length] in *; [lia|]. cbn [find_index].
    pose proof (Hx 0%nat x eq_refl) as E0. rewrite Nat.add_0_r in E0. rewrite E0. destruct (Nat.eq_dec n i) as [->|Hne].
    - rewrite small_self by (unfold small in *; lia). by rewrite Nat.sub_diag.
    - destruct (same_value _ _) eqn:Es; [apply small_same in Es; unfold small in *; lia|].
      rewrite (IH (S n)); [cbn; f_equal; lia| |lia|lia]. intros j y Hy. rewrite (Hx (S j) y Hy). f_equal. f_equal. lia. }
  rewrite (G 0%nat l); [by rewrite Nat.sub_0_r| |lia|lia]. intros j x Hx. unfold fld. by rewrite (Hi _ _ Hx).
Qed.

(** ** A rule as the dialog writes it *)

Inductive source := CtxInt (k : jsstr) | CtxString (k : jsstr) | Gjson (p : jsstr).

Definition source_object (x : source) : object :=
  match x with
  | CtxInt k => [($"type", VStr $"context_int"); ($"key", VStr k); ($"path", VStr [])]
  | CtxString k => [($"type", VStr $"context_string"); ($"key", VStr k); ($"path", VStr [])]
  | Gjson p => [($"type", VStr $"gjson"); ($"key", VStr []); ($"path", VStr p)]
  end.

Definition source_text (x : source) : jsstr := match x with CtxInt k | CtxString k => k | Gjson p => p end.
Definition neat (s : jsstr) : Prop := trim s = s /\ s <> [].
Definition neat_line (s : jsstr) : Prop := neat s /\ ~ In 10 s.

Record affinity_rule := AffinityRule {
  a_name : jsstr; a_models : list jsstr; a_paths : list jsstr; a_sources : list source; a_value : jsstr; a_ttl : num;
  a_group : bool; a_model : bool; a_rule : bool; a_skip : bool; a_agents : list jsstr; a_template : option object
}.

Definition rule_object (id : val) (a : affinity_rule) : object :=
  [($"id", id); ($"name", VStr (a_name a)); ($"model_regex", strs (a_models a)); ($"path_regex", strs (a_paths a));
   ($"key_sources", VArr (map VObj (map source_object (a_sources a)))); ($"value_regex", VStr (a_value a));
   ($"ttl_seconds", VNum (a_ttl a)); ($"include_using_group", VBool (a_group a)); ($"include_model_name", VBool (a_model a));
   ($"include_rule_name", VBool (a_rule a)); ($"skip_retry_on_failure", VBool (a_skip a))]
  ++ match a_agents a with [] => [] | l => [($"user_agent_include", strs l)] end
  ++ match a_template a with Some o => [($"param_override_template", VObj o)] | None => [] end.

Record rule_ok (a : affinity_rule) : Prop := RuleOk {
  ok_name : neat (a_name a);
  ok_models : a_models a <> [] /\ Forall neat_line (a_models a);
  ok_paths : Forall neat_line (a_paths a);
  ok_sources : a_sources a <> [] /\ Forall (fun x => neat (source_text x)) (a_sources a);
  ok_value : trim (a_value a) = a_value a;
  ok_ttl : num_truthy (a_ttl a) = true \/ a_ttl a = of_Z 0;
  ok_agents : Forall neat_line (a_agents a);
  ok_template : forall o, a_template a = Some o -> json_wf (VObj o)
}.

Lemma nonempty_true (s : jsstr) : s <> [] -> nonempty s = true.
Proof. by destruct s. Qed.

Lemma lines_roundtrip l : Forall neat_line l -> normalizeStringList (VStr (join [10] l)) = Ret l.
Proof.
  intros H. unfold normalizeStringList. cbn [truthy]. destruct l as [|x l]; [done|].
  assert (Hj : join [10] (x :: l) <> []).
  { inversion_clear H as [|? ? [[_ Hx] _] _]. destruct l; [done|]. cbn [join]. by destruct x. }
  rewrite nonempty_true by done. cbn [as_string bind_outcome]. rewrite split_join; [|done|eapply Forall_impl; [exact H|]; by intros ? [_ ?]].
  f_equal. clear Hj. induction H as [|y r [[Ht Hn] _] _ IH]; [done|]. cbn [map]. rewrite Ht. unfold filter_Boolean in *. cbn [List.filter].
  rewrite nonempty_true by done. by rewrite IH.
Qed.

Lemma join_lines_strs l : join_lines (strs l) = Ret (join [10] l).
Proof.
  unfold join_lines. change (or_else (strs l) (VArr [])) with (strs l). unfold strs. cbv iota. f_equal. f_equal.
  rewrite map_map. exact (map_id l).
Qed.

Lemma string_or_empty_str s : string_or_empty (VStr s) = Ret s.
Proof. unfold string_or_empty. cbn [truthy]. by destruct s. Qed.

Lemma normalize_object t k p :
  normalizeKeySource (VObj [($"type", VStr t); ($"key", VStr k); ($"path", VStr p)])
  = Ret (if trim t =s? $"gjson" then [($"type", VStr (trim t)); ($"key", VStr []); ($"path", VStr (trim p))]
         else [($"type", VStr (trim t)); ($"key", VStr (trim k)); ($"path", VStr [])]).
Proof.
  unfold normalizeKeySource. set (o := VObj _). assert (E1 : get_any o $"type" = VStr t) by reflexivity.
  assert (E2 : get_any o $"key" = VStr k) by reflexivity. assert (E3 : get_any o $"path" = VStr p) by reflexivity.
  rewrite E1, E2, E3, !string_or_empty_str. reflexivity.
Qed.

Lemma normalize_source x : neat (source_text x) -> normalizeKeySource (VObj (source_object x)) = Ret (source_object x).
Proof.
  intros [Ht _]. destruct x as [k|k|p]; cbn [source_text source_object] in *; rewrite normalize_object.
  - change (trim $"context_int") with $"context_int". change ($"context_int" =s? $"gjson") with false. cbn iota. by rewrite Ht.
  - change (trim $"context_string") with $"context_string". change ($"context_string" =s? $"gjson") with false. cbn iota. by rewrite Ht.
  - change (trim $"gjson") with $"gjson". change ($"gjson" =s? $"gjson") with true. cbn iota. by rewrite Ht.
Qed.

Lemma normalize_sources l : Forall (fun x => neat (source_text x)) l -> normalize_all (map VObj (map source_object l)) = Ret (map source_object l).
Proof. induction 1 as [|x l Hx _ IH]; [done|]. cbn [map normalize_all]. rewrite normalize_source by done. cbn [bind_outcome]. rewrite IH. reflexivity. Qed.

Lemma check_source x r : neat (source_text x) -> check_sources (source_object x :: r) = check_sources r.
Proof.
  intros [_ Hn]. assert (En : truthy (VStr (source_text x)) = true) by (by apply nonempty_true). destruct x; cbn [source_text] in En.
  - change (check_sources (source_object (CtxInt k) :: r)) with (if truthy (VStr k) then check_sources r else Some MSG_KEY). by rewrite En.
  - change (check_sources (source_object (CtxString k) :: r)) with (if truthy (VStr k) then check_sources r else Some MSG_KEY). by rewrite En.
  - change (check_sources (source_object (Gjson p) :: r)) with (if truthy (VStr p) then check_sources r else Some MSG_PATH). by rewrite En.
Qed.

Lemma valid_sources l :
  l <> [] -> Forall (fun x => neat (source_text x)) l -> validateKeySources (VArr (map VObj (map source_object l))) = Ret (inr (map source_object l)).
Proof.
  intros Hl H. unfold validateKeySources. change (or_else (VArr (map VObj (map source_object l))) (VArr [])) with (VArr (map VObj (map source_object l))). cbv iota.
  rewrite normalize_sources by done. cbn [bind_outcome].
  assert (Ef : List.filter (fun x => truthy (fld $"type" x)) (map source_object l) = map source_object l).
  { clear. induction l as [|x l IH]; [done|]. cbn [map List.filter]. assert (truthy (fld $"type" (source_object x)) = true) as -> by (by destruct x). by rewrite IH. }
  rewrite Ef. assert (Ec : check_sources (map source_object l) = None).
  { clear -H. induction H as [|x l Hx _ IH]; [done|]. cbn [map]. by rewrite check_source. }
  rewrite Ec. destruct l; [done|]. reflexivity.
Qed.

(** ** Opening a rule and saving it *)

Definition template_val (a : affinity_rule) : val := match a_template a with Some o => VObj o | None => VUndef end.
Definition template_json (a : affinity_rule) : jsstr := match a_template a with Some o => json2 (VObj o) | None => [] end.

(** The fields of the rule the dialog shows. *)
Record shows (id : val) (a : affinity_rule) (r : object) : Prop := Shows {
  sh_id : fld $"id" r = id;
  sh_name : fld $"name" r = VStr (a_name a);
  sh_models : fld $"model_regex" r = strs (a_models a);
  sh_paths : fld $"path_regex" r = strs (a_paths a);
  sh_sources : fld $"key_sources" r = VArr (map VObj (map source_object (a_sources a)));
  sh_value : fld $"value_regex" r = VStr (a_value a);
  sh_ttl : fld $"ttl_seconds" r = VNum (a_ttl a);
  sh_group : fld $"include_using_group" r = VBool (a_group a);
  sh_model : fld $"include_model_name" r = VBool (a_model a);
  sh_rule : fld $"include_rule_name" r = VBool (a_rule a);
  sh_skip : fld $"skip_retry_on_failure" r = VBool (a_skip a);
  sh_agents : fld $"user_agent_include" r = strs (a_agents a);
  sh_template : fld $"param_override_template" r = template_val a
}.

Lemma rule_shown id a : rule_ok a -> exists r, shown_rule (rule_object id a) = Ret r /\ shows id a r.
Proof.
  intros Ha. unfold shown_rule. set (o := rule_object id a).
  assert (Ek : fld $"key_sources" o = VArr (map VObj (map source_object (a_sources a)))) by reflexivity. rewrite Ek.
  change (or_else (VArr (map VObj (map source_object (a_sources a)))) (VArr [])) with (VArr (map VObj (map source_object (a_sources a)))). cbv iota.
  rewrite normalize_sources by apply (ok_sources a Ha). cbn [bind_outcome]. eexists. split; [reflexivity|].
  assert (Eu : match fld $"user_agent_include" o with VArr u => VArr u | _ => VArr [] end = strs (a_agents a)).
  { unfold o, rule_object. destruct (a_agents a) eqn:E; [|reflexivity]. by destruct (a_template a). }
  assert (Et : fld $"param_override_template" o = template_val a).
  { unfold o, rule_object, template_val. destruct (a_agents a) eqn:E, (a_template a); reflexivity. }
  rewrite Eu. split; rewrite ?fld_set_ne by done; try reflexivity; try apply fld_set_eq; exact Et.
Qed.

(** The values the form of the dialog starts with. *)
Definition start_values (a : affinity_rule) : object :=
  [($"name", VStr (a_name a)); ($"model_regex_text", VStr (join [10] (a_models a))); ($"path_regex_text", VStr (join [10] (a_paths a)));
   ($"user_agent_include_text", VStr (join [10] (a_agents a))); ($"value_regex", VStr (a_value a)); ($"ttl_seconds", VNum (a_ttl a));
   ($"skip_retry_on_failure", VBool (a_skip a)); ($"include_using_group", VBool (a_group a)); ($"include_model_name", VBool (a_model a));
   ($"include_rule_name", VBool (a_rule a)); ($"param_override_template_json", VStr (template_json a))].

Lemma text_or_else s : or_else (VStr s) (VStr []) = VStr s.
Proof. unfold or_else. cbn [truthy]. by destruct s. Qed.

Lemma ttl_kept a : rule_ok a -> Number_val (or_else (VNum (a_ttl a)) (int 0)) = a_ttl a.
Proof. intros [_ _ _ _ _ Ht _ _]. unfold or_else. cbn [truthy]. destruct (num_truthy (a_ttl a)) eqn:E; [done|]. destruct Ht as [?| ->]; [congruence|reflexivity]. Qed.

Lemma values_start id a r : rule_ok a -> shows id a r -> buildModalFormValues r = Ret (start_values a).
Proof.
  intros Ha [_ Hn Hm Hp _ Hv Ht Hg Hmo Hr Hs Hu Htp]. unfold buildModalFormValues. rewrite Hn, Hm, Hp, Hv, Ht, Hg, Hmo, Hr, Hs, Hu, Htp.
  rewrite !join_lines_strs. cbn [bind_outcome]. rewrite !text_or_else, ttl_kept by done. unfold start_values, template_json, template_val.
  destruct (a_template a), (a_skip a), (a_model a); reflexivity.
Qed.

Lemma template_read a : rule_ok a -> parseOptionalObjectJson (template_json a) = inr (a_template a).
Proof.
  intros Ha. unfold parseOptionalObjectJson, template_json. pose proof (ok_template a Ha) as Ht. destruct (a_template a) as [o|]; [|reflexivity].
  specialize (Ht o eq_refl). assert (Etr : trim (json2 (VObj o)) = json2 (VObj o)).
  { destruct (ser_Some [32; 32] [] _ Ht) as [x E]. unfold json2, stringify2. rewrite E. cbn [default]. apply trim_id. exact (ser_edges _ _ _ _ Ht E). }
  rewrite Etr, json2_nonempty, json2_reads by done. reflexivity.
Qed.

Lemma payload_same id a : rule_ok a ->
  buildChannelAffinityRulePayload (start_values a) id (a_models a) (a_paths a) (map source_object (a_sources a)) (a_agents a) (a_template a) = Ret (rule_object id a).
Proof.
  intros Ha. unfold buildChannelAffinityRulePayload. set (v := start_values a).
  assert (E1 : fld $"name" v = VStr (a_name a)) by reflexivity. assert (E2 : fld $"value_regex" v = VStr (a_value a)) by reflexivity.
  assert (E3 : fld $"ttl_seconds" v = VNum (a_ttl a)) by reflexivity.
  rewrite E1, E2, E3, !string_or_empty_str. cbn [bind_outcome]. rewrite ttl_kept by done. rewrite (proj1 (ok_name a Ha)), (ok_value a Ha).
  assert (F1 : flag v $"include_using_group" = VBool (a_group a)) by reflexivity.
  assert (F2 : flag v $"include_model_name" = VBool (a_model a)) by reflexivity.
  assert (F3 : flag v $"include_rule_name" = VBool (a_rule a)) by reflexivity.
  assert (F4 : flag v $"skip_retry_on_failure" = VBool (a_skip a)) by reflexivity.
  rewrite F1, F2, F3, F4. unfold rule_object. by destruct (a_agents a).
Qed.

Lemma saved_same i a r l :
  rule_ok a -> shows (int (Z.of_nat i)) a r -> ids_ok l -> (length l <= small)%nat -> l !! i = Some (rule_object (int (Z.of_nat i)) a) ->
  saved_rules (Modal r true (template_json a)) (start_values a) l = Ret (inr l).
Proof.
  intros Ha Hs Hi Hl Hr. unfold saved_rules. cbn [editingRule isEdit paramTemplateDraft]. set (v := start_values a).
  assert (E1 : fld $"model_regex_text" v = VStr (join [10] (a_models a))) by reflexivity.
  assert (E2 : fld $"user_agent_include_text" v = VStr (join [10] (a_agents a))) by reflexivity.
  assert (E3 : fld $"path_regex_text" v = VStr (join [10] (a_paths a))) by reflexivity.
  destruct (ok_models a Ha) as [Hm1 Hm2]. destruct (ok_sources a Ha) as [Hs1 Hs2].
  rewrite E1, E2, E3, !lines_roundtrip by (done || apply (ok_paths a Ha) || apply (ok_agents a Ha)). cbn [bind_outcome].
  rewrite (sh_sources _ _ _ Hs), valid_sources, template_read by done. cbn [bind_outcome]. unfold v. rewrite (sh_id _ _ _ Hs), payload_same by done. cbn [bind_outcome].
  assert (En : truthy (fld $"name" (rule_object (int (Z.of_nat i)) a)) = true).
  { change (nonempty (a_name a) = true). apply nonempty_true, (ok_name a Ha). }
  rewrite En. cbn [negb]. unfold edited_index.
  rewrite (sh_id _ _ _ Hs). change (int (Z.of_nat i)) with (fld $"id" (rule_object (int (Z.of_nat i)) a)) at 1.
  rewrite (find_id l i) by done. rewrite list_insert_id by done. rewrite renumber_same by done. by destruct (a_models a).
Qed.

(** A rule as the dialog writes it, opened in the dialog and saved without a change, leaves the
    table as it was. *)
Theorem affinity_edit_unchanged s i a :
  rule_ok a -> ids_ok (rules s) -> (length (rules s) <= small)%nat -> rules s !! i = Some (rule_object (int (Z.of_nat i)) a) ->
  exists s1 init, handleEditRule (rule_object (int (Z.of_nat i)) a) s = Ret (s1, init)
    /\ handleModalSave (Some init) s1 = (set_dialog None (updateRulesState (rules s) s1), None).
Proof.
  intros Ha Hi Hl Hr. destruct (rule_shown (int (Z.of_nat i)) a Ha) as (r & Es & Hs). unfold handleEditRule. rewrite Es. cbn [bind_outcome].
  rewrite (values_start _ a r Ha Hs). cbn [bind_outcome]. eexists _, _. split; [reflexivity|].
  unfold handleModalSave. cbn [dialog set_dialog rules]. change (draft_of (start_values a)) with (template_json a).
  rewrite (saved_same i) by done. reflexivity.
Qed.

(** ** What typing in the text loses *)

(** The buttons over the text work on the table of the moment the text was opened: filling in
    the templates, or saving a new rule, writes a text in which nothing that was typed is left. *)
Theorem json_edits_lost s t :
  editMode s = JsonText ->
  let typed := settle s (set_input KEY_RULES (VStr t) s) in
  (forall now s1, doAppend now typed = Ret s1 -> exists s0, doAppend now s = Ret s0 /\ text s1 = text s0)
  /\ (forall values s1, dialog s <> None -> handleModalSave (Some values) typed = (s1, None) ->
        exists s0, handleModalSave (Some values) s = (s0, None) /\ text s1 = text s0).
Proof.
  intros Hm. cbn zeta. assert (Et : settle s (set_input KEY_RULES (VStr t) s) = set_input KEY_RULES (VStr t) s).
  { unfold settle. cbn [editMode set_input]. by rewrite Hm. }
  rewrite Et. split.
  - intros now s1 H. unfold doAppend in *. cbn [rules set_input] in H. destruct (rule_names (rules s)); [|done]. cbn [bind_outcome] in *.
    apply Ret_inj in H as <-. eexists. split; [reflexivity|]. by rewrite !text_update.
  - intros values s1 _ H. unfold handleModalSave in *. cbn [dialog rules set_input] in H. destruct (dialog s) as [m|]; [|done].
    destruct (saved_rules m values (rules s)) as [[e|next]|]; try done. injection H as <-. eexists. split; [reflexivity|].
    transitivity (VStr (rulesToJson next)); [apply fld_set_eq|symmetry; apply fld_set_eq].
Qed.

(** ** Witnesses *)

Definition filled : page := settle page0 (handle (EAppend 5) page0).

Lemma filled_reached : reach filled.
Proof. apply reach_event; [apply reach_start|reflexivity]. Qed.

Lemma reach_table_agrees_witness : length (rules filled) = 2%nat /\ agree filled.
Proof. split; [vm_compute; reflexivity|]. apply reach_table_agrees; [exact filled_reached|vm_compute; reflexivity]. Defined.

Lemma unique_name_free_witness : makeUniqueName 0 [$"a"; $"a-2"] $" a " = $"a-3" /\ (makeUniqueName 0 [$"a"; $"a-2"] $" a " ∉ [$"a"; $"a-2"]).
Proof. split; [vm_compute; reflexivity|]. apply unique_name_free. cbn. lia. Defined.

Definition one_rule : val := VObj [($"name", VStr $"r"); ($"ttl_seconds", VNum n1)].
Definition one_text : jsstr := json (VArr [one_rule]).
Definition one_options : object := [(KEY_ENABLED, VStr $"true"); (KEY_RULES, VStr one_text)].

Lemma one_plain : Forall plain_rule [one_rule].
Proof.
  apply Forall_cons. split; [|apply Forall_nil; exact I]. eexists. split; [reflexivity|]. split; [|vm_compute; reflexivity].
  apply json_wf_obj. split; [vm_compute; reflexivity|].
  apply Forall_cons. split; [split; [apply unit16_check; vm_compute; reflexivity|apply unit16_check; vm_compute; reflexivity]|].
  apply Forall_cons. split; [split; [apply unit16_check; vm_compute; reflexivity|split; vm_compute; reflexivity]|]. apply Forall_nil; exact I.
Qed.

Lemma one_names : NoDup (keys one_options).
Proof. apply (bool_decide_eq_true_1 (NoDup (keys one_options))). vm_compute. reflexivity. Qed.

Lemma one_option : prop KEY_RULES one_options = Some (VStr one_text).
Proof. vm_compute. reflexivity. Qed.

Lemma one_parses : parse (rules_text (VStr one_text)) = Some (VArr [one_rule]).
Proof. vm_compute. reflexivity. Qed.

Lemma affinity_modes_roundtrip_witness :
  let s := settle page0 (load_options one_options page0) in onSubmit s = inl MSG_UNCHANGED /\ map strip (rules s) = [entries one_rule].
Proof.
  destruct (affinity_modes_roundtrip one_options one_text [one_rule] one_names one_option one_parses one_plain) as (H1 & _ & H3).
  split; [exact H3|exact H1].
Defined.

Definition one_affinity : affinity_rule :=
  AffinityRule $"r" [$"^gpt"] [] [Gjson $"user"; CtxInt $"id"] [] n1 true false true false [$"curl"] (Some [($"a", VBool true)]).

Definition one_page : page := Page (inputs page0) (inputsRow page0) Visual [rule_object (int 0) one_affinity] None.

Lemma one_ok : rule_ok one_affinity.
Proof.
  assert (Hl : forall s, edges_ok s = true -> nonempty s = true -> existsb (Z.eqb 10) s = false -> neat_line s).
  { intros s H1 H2 H3. split; [split; [by apply trim_id|by intros ->]|]. intros Hin. assert (existsb (Z.eqb 10) s = true); [|congruence].
    apply existsb_exists. exists 10. split; [done|apply Z.eqb_refl]. }
  split.
  - apply Hl; vm_compute; reflexivity.
  - split; [discriminate|]. apply Forall_cons. split; [apply Hl; vm_compute; reflexivity|apply Forall_nil; exact I].
  - apply Forall_nil; exact I.
  - split; [discriminate|]. apply Forall_cons. split; [apply Hl; vm_compute; reflexivity|].
    apply Forall_cons. split; [apply Hl; vm_compute; reflexivity|apply Forall_nil; exact I].
  - reflexivity.
  - left. vm_compute. reflexivity.
  - apply Forall_cons. split; [apply Hl; vm_compute; reflexivity|apply Forall_nil; exact I].
  - intros o [= <-]. apply json_wf_obj. split; [vm_compute; reflexivity|]. apply Forall_cons.
    split; [split; [apply unit16_check; vm_compute; reflexivity|exact I]|apply Forall_nil; exact I].
Qed.

Lemma one_ids : ids_ok (rules one_page).
Proof. intros [|j] r H; [|done]. cbn in H. injection H as <-. reflexivity. Qed.

Lemma affinity_edit_unchanged_witness :
  exists s1 init, handleEditRule (rule_object (int 0) one_affinity) one_page = Ret (s1, init)
    /\ handleModalSave (Some init) s1 = (set_dialog None (updateRulesState (rules one_page) s1), None).
Proof.
  apply (affinity_edit_unchanged one_page 0 one_affinity); [exact one_ok|exact one_ids|unfold small; cbn; lia|reflexivity].
Defined.

Definition in_text : page := settle page0 (switchToJsonMode page0).

Lemma json_edits_lost_witness :
  exists s1 s0, doAppend 5 (settle in_text (set_input KEY_RULES (VStr one_text) in_text)) = Ret s1 /\ doAppend 5 in_text = Ret s0 /\ text s1 = text s0.
Proof.
  destruct (json_edits_lost in_text one_text) as [H _]; [vm_compute; reflexivity|]. cbn zeta in H.
  destruct (doAppend 5 (settle in_text (set_input KEY_RULES (VStr one_text) in_text))) as [s1|] eqn:E; [|vm_compute in E; discriminate].
  destruct (H 5 s1 E) as (s0 & E0 & Ht). exists s1, s0. split; [reflexivity|]. split; [exact E0|exact Ht].
Defined.

End AffinityProofs.
