(* ===== verification/Billing.v ===== *)
(** * Prices in the usage log

    [web/src/helpers/render.jsx]: what the usage log shows for a request, as prices or as
    ratios, for models of the OpenAI kind, with audio, and of the Claude kind.  A text is the
    key of its translation with its variables; the translation is a parameter.  The formulas
    are written over any numbers with the operations they use, [Arith]: the program computes
    them with binary64 numbers ([num_arith]), and the theorems compare the formulas over the
    rationals ([Q_arith]), where sums and products are exact and only the rounding that the
    code writes itself, the six decimals of a ratio, is left. *)
From Stdlib Require Import SpecFloat QArith Qround.
From S2P Require Import Prelude JSNum JSValue Json FormValues ClientHelpers.
#[local] Open Scope Z_scope.
#[local] Arguments js _ : simpl never.

Module Billing.
Import ClientHelpers.

(** ** Numbers *)

Class Arith (K : Type) := {
  kz : Z -> K;
  kadd : K -> K -> K; ksub : K -> K -> K; kmul : K -> K -> K; kdiv : K -> K -> K;
  kltb : K -> K -> bool; keqb : K -> K -> bool; kfinite : K -> bool;
  kmax0 : K -> K;      (** [Math.max(x, 0)] *)
  kfix : K -> K        (** [formatRatioValue(x)] *)
}.

Definition formatRatioValue (n : num) : num := if isFinite n then Number_str (toFixed n 6) else n0.

#[export] Instance num_arith : Arith num := {
  kz := of_Z; kadd := nadd; ksub := nsub; kmul := nmul; kdiv := ndiv; kltb := nltb; keqb := neqb; kfinite := isFinite;
  kmax0 := fun x => if isNaN x then NaN else if nltb n0 x then x else n0;
  kfix := formatRatioValue
}.

Definition Qltb (a b : Q) : bool := negb (Qle_bool b a).

(** [toFixed(6)] of a rational: the closest number with six decimals, the one further from
    zero when there are two; numbers of 10^21 and more are left as they are. *)
Definition round6 (x : Q) : Q := Qmake (Qfloor (x * 1000000 + (1#2))%Q) 1000000.
Definition Qfix (x : Q) : Q :=
  if Qle_bool (inject_Z (10 ^ 21)) x || Qle_bool x (inject_Z (- 10 ^ 21)) then x
  else if Qltb x 0 then (- round6 (- x))%Q else round6 x.

#[export] Instance Q_arith : Arith Q := {
  kz := inject_Z; kadd := Qplus; ksub := Qminus; kmul := Qmult; kdiv := Qdiv; kltb := Qltb; keqb := Qeq_bool; kfinite := fun _ => true;
  kmax0 := fun x => if Qltb 0 x then x else 0%Q;
  kfix := Qfix
}.

Declare Scope k_scope.
Delimit Scope k_scope with k.
Infix "+" := kadd : k_scope.
Infix "-" := ksub : k_scope.
Infix "*" := kmul : k_scope.
Infix "/" := kdiv : k_scope.

(** ** Texts *)

(** [Price]: in the currency with six decimals; [Amount]: as a quota;
    [Compact]: in the currency without trailing zeros; [Plain]: as it is; [Word]: translated;
    [Raw]: not translated; [Nested]: lines joined; [Filtered]: the nonempty lines joined. *)
Inductive slot (K : Type) :=
| Price (usd : K) | Amount (usd : K) | Compact (usd : K) | Plain (n : K) | Word (s : jsstr) | Raw (s : jsstr) | Symbol
| Nested (sep : jsstr) (l : list (jsstr * list (jsstr * slot K)))
| Filtered (sep : jsstr) (l : list (jsstr * list (jsstr * slot K))).
Arguments Price {K} usd.
Arguments Amount {K} usd.
Arguments Compact {K} usd.
Arguments Plain {K} n.
Arguments Word {K} s.
Arguments Raw {K} s.
Arguments Symbol {K}.
Arguments Nested {K} sep l.
Arguments Filtered {K} sep l.

(** A line with an empty key is the texts of its slots, one after the other. *)
Definition line (K : Type) : Type := jsstr * list (jsstr * slot K).

(** An article has a note at its end unless it is switched off. *)
Inductive shown (K : Type) := Article (lines : list (line K)) (note : bool) | Single (l : line K).
Arguments Article {K} lines note.
Arguments Single {K} l.

Section Formulas.
Context {K : Type} `{Arith K}.

Definition pos (n : K) : bool := kltb (kz 0) n.
Definition minus_one (n : K) : bool := keqb n (kz (-1)).
Definition opt_line (b : bool) (l : line K) : list (line K) := if b then [l] else [].

(** ** Ratios of groups *)

Definition isValidGroupRatio (r : option K) : bool := match r with Some n => kfinite n && negb (minus_one n) | None => false end.

Definition LABEL_USER : jsstr := $"专属倍率".
Definition LABEL_GROUP : jsstr := $"分组倍率".

Definition getEffectiveRatio (groupRatio : K) (user_group_ratio : option K) : K * jsstr :=
  match user_group_ratio with
  | Some n => if isValidGroupRatio (Some n) then (n, LABEL_USER) else (groupRatio, LABEL_GROUP)
  | None => (groupRatio, LABEL_GROUP)
  end.

(** ** Which form is shown *)

(** [tokens]: quotas are shown as tokens. *)
Definition shouldUseRatioBillingProcess (tokens : bool) (modelPrice : K) : bool := minus_one modelPrice && tokens.

Inductive display := AsPrice | AsRatio.
Definition resolveBillingDisplayMode (tokens : bool) (displayMode : display) (modelPrice : K) : display :=
  if negb (minus_one modelPrice) then AsPrice
  else if tokens then AsRatio
  else displayMode.
Definition isPriceDisplayMode (tokens : bool) (displayMode : display) (modelPrice : K) : bool :=
  match resolveBillingDisplayMode tokens displayMode modelPrice with AsPrice => true | AsRatio => false end.

Definition per_million (n : K) : K := (n / kz 1000000)%k.
Definition per_thousand (n : K) : K := (n / kz 1000)%k.

(** The variables of the ratio of the group. *)
Definition ratio_vars (label : jsstr) (g : K) : list (jsstr * slot K) := [($"ratioType", Word label); ($"ratio", Plain g)].
Definition price_line (key name : jsstr) (usd : K) (vars : list (jsstr * slot K)) : line K := (key, [($"symbol", Symbol); (name, Price usd)] ++ vars).

(** ** Models of the OpenAI kind *)

Record usage := Usage {
  inputTokens : K; completionTokens : K; modelRatio : K; modelPrice : K; completionRatio : K; group_ratio : K; user_group_ratio : option K;
  cacheTokens : K; cacheRatio : K; image : bool; imageRatio : K; imageOutputTokens : K;
  webSearch : bool; webSearchCallCount : K; webSearchPrice : K; fileSearch : bool; fileSearchCallCount : K; fileSearchPrice : K;
  audioInputSeperatePrice : bool; audioInputTokens : K; audioInputPrice : K; imageGenerationCall : bool; imageGenerationCallPrice : K
}.

Definition group_of (u : usage) : K * jsstr := getEffectiveRatio (group_ratio u) (user_group_ratio u).
Definition inputRatioPrice (u : usage) : K := (modelRatio u * kz 2)%k.
Definition has_image (u : usage) : bool := image u && pos (imageOutputTokens u).

Definition effectiveInputTokens (u : usage) : K :=
  let n := if has_image u then (inputTokens u - imageOutputTokens u + imageOutputTokens u * imageRatio u)%k
           else (inputTokens u - cacheTokens u + cacheTokens u * cacheRatio u)%k in
  if pos (audioInputTokens u) then (n - audioInputTokens u)%k else n.

(** The total when prices are shown. *)
Definition price_total (u : usage) : K :=
  let g := (group_of u).1 in
  (per_million (effectiveInputTokens u) * inputRatioPrice u * g
   + per_million (audioInputTokens u) * audioInputPrice u * g
   + per_million (completionTokens u) * (modelRatio u * kz 2 * completionRatio u) * g
   + per_thousand (webSearchCallCount u) * webSearchPrice u * g
   + per_thousand (fileSearchCallCount u) * fileSearchPrice u * g
   + imageGenerationCallPrice u * g)%k.

(** The amounts when ratios are shown. *)
Definition textInputTokens (u : usage) : K := kmax0 (inputTokens u - cacheTokens u - audioInputTokens u)%k.
Definition imageInputTokens (u : usage) : K := if has_image u then imageOutputTokens u else kz 0.
Definition textInputAmount (u : usage) : K := (per_million (textInputTokens u) * inputRatioPrice u * (group_of u).1)%k.
Definition cacheInputAmount (u : usage) : K := (per_million (cacheTokens u) * inputRatioPrice u * kfix (cacheRatio u) * (group_of u).1)%k.
Definition imageInputAmount (u : usage) : K := (per_million (imageInputTokens u) * inputRatioPrice u * kfix (imageRatio u) * (group_of u).1)%k.
Definition audioInputAmount (u : usage) : K := (per_million (audioInputTokens u) * audioInputPrice u * (group_of u).1)%k.
Definition completionAmount (u : usage) : K :=
  (per_million (completionTokens u) * (modelRatio u * kz 2 * kfix (completionRatio u)) * (group_of u).1)%k.
Definition webSearchAmount (u : usage) : K := (per_thousand (webSearchCallCount u) * webSearchPrice u * (group_of u).1)%k.
Definition fileSearchAmount (u : usage) : K := (per_thousand (fileSearchCallCount u) * fileSearchPrice u * (group_of u).1)%k.
Definition imageGenerationAmount (u : usage) : K := (imageGenerationCallPrice u * (group_of u).1)%k.

Definition ratio_total (u : usage) : K :=
  (textInputAmount u + cacheInputAmount u + imageInputAmount u + audioInputAmount u + completionAmount u + webSearchAmount u
   + fileSearchAmount u + imageGenerationAmount u)%k.

Definition audioRatioValue (u : usage) : option K :=
  if audioInputSeperatePrice u && pos (audioInputPrice u) then Some (kfix (audioInputPrice u / inputRatioPrice u)%k) else None.

Definition web_shown (u : usage) : bool := webSearch u && pos (webSearchCallCount u).
Definition file_shown (u : usage) : bool := fileSearch u && pos (fileSearchCallCount u).
Definition generation_shown (u : usage) : bool := imageGenerationCall u && pos (imageGenerationCallPrice u).

(** A price per call. *)
Definition fixed_article (k1 k2 : jsstr) (price g : K) (label : jsstr) : shown K :=
  Article [price_line k1 $"price" price []; price_line k2 $"price" price (ratio_vars label g ++ [($"total", Price (price * g)%k)])] true.

Definition input_desc (u : usage) : line K :=
  let p := inputRatioPrice u in
  if has_image u then
    price_line $"(输入 {{nonImageInput}} tokens + 图片输入 {{imageInput}} tokens / 1M tokens * {{symbol}}{{price}}" $"price" p
      [($"nonImageInput", Plain (inputTokens u - imageOutputTokens u)%k); ($"imageInput", Plain (imageOutputTokens u))]
  else if pos (cacheTokens u) then
    ($"(输入 {{nonCacheInput}} tokens / 1M tokens * {{symbol}}{{price}} + 缓存 {{cacheInput}} tokens / 1M tokens * {{symbol}}{{cachePrice}}",
     [($"nonCacheInput", Plain (inputTokens u - cacheTokens u)%k); ($"cacheInput", Plain (cacheTokens u)); ($"symbol", Symbol); ($"price", Price p);
      ($"cachePrice", Price (modelRatio u * kz 2 * cacheRatio u)%k)])
  else if audioInputSeperatePrice u && pos (audioInputTokens u) then
    ($"(输入 {{nonAudioInput}} tokens / 1M tokens * {{symbol}}{{price}} + 音频输入 {{audioInput}} tokens / 1M tokens * {{symbol}}{{audioPrice}}",
     [($"nonAudioInput", Plain (inputTokens u - audioInputTokens u)%k); ($"audioInput", Plain (audioInputTokens u)); ($"symbol", Symbol);
      ($"price", Price p); ($"audioPrice", Price (audioInputPrice u))])
  else price_line $"(输入 {{input}} tokens / 1M tokens * {{symbol}}{{price}}" $"price" p [($"input", Plain (inputTokens u))].

Definition output_desc (u : usage) : line K :=
  ($"输出 {{completion}} tokens / 1M tokens * {{symbol}}{{compPrice}}) * {{ratioType}} {{ratio}}",
   [($"completion", Plain (completionTokens u)); ($"symbol", Symbol); ($"compPrice", Price (modelRatio u * kz 2 * completionRatio u)%k)]
   ++ ratio_vars (group_of u).2 (group_of u).1).

Definition extra_services (u : usage) : list (line K) :=
  let '(g, label) := group_of u in
  opt_line (web_shown u) (price_line $" + Web搜索 {{count}}次 / 1K 次 * {{symbol}}{{price}} * {{ratioType}} {{ratio}}" $"price" (webSearchPrice u)
    (($"count", Plain (webSearchCallCount u)) :: ratio_vars label g))
  ++ opt_line (file_shown u) (price_line $" + 文件搜索 {{count}}次 / 1K 次 * {{symbol}}{{price}} * {{ratioType}} {{ratio}}" $"price" (fileSearchPrice u)
    (($"count", Plain (fileSearchCallCount u)) :: ratio_vars label g))
  ++ opt_line (generation_shown u) (price_line $" + 图片生成调用 {{symbol}}{{price}} / 1次 * {{ratioType}} {{ratio}}" $"price" (imageGenerationCallPrice u)
    (ratio_vars label g)).

Definition price_lines (u : usage) : list (line K) :=
  let p := inputRatioPrice u in
  [price_line $"输入价格：{{symbol}}{{price}} / 1M tokens{{audioPrice}}" $"price" p
     [($"audioPrice", if audioInputSeperatePrice u
                      then Nested [] [([], [([], Raw $"，"); ([], Word $"音频输入价格"); ([], Raw $" "); ([], Symbol); ([], Price (audioInputPrice u));
                                            ([], Raw $" / 1M tokens")])]
                      else Raw [])];
   price_line $"输出价格：{{symbol}}{{total}} / 1M tokens" $"total" (modelRatio u * kz 2 * completionRatio u)%k []]
  ++ opt_line (pos (cacheTokens u)) (price_line $"缓存读取价格：{{symbol}}{{total}} / 1M tokens" $"total" (p * cacheRatio u)%k [])
  ++ opt_line (has_image u) (price_line $"图片输入价格：{{symbol}}{{total}} / 1M tokens" $"total" (modelRatio u * kz 2 * imageRatio u)%k [])
  ++ opt_line (web_shown u) (price_line $"Web搜索价格：{{symbol}}{{price}} / 1K 次" $"price" (webSearchPrice u) [])
  ++ opt_line (file_shown u) (price_line $"文件搜索价格：{{symbol}}{{price}} / 1K 次" $"price" (fileSearchPrice u) [])
  ++ opt_line (generation_shown u) (price_line $"图片生成调用：{{symbol}}{{price}} / 1次" $"price" (imageGenerationCallPrice u) [])
  ++ [($"{{inputDesc}} + {{outputDesc}}{{extraServices}} = {{symbol}}{{total}}",
       [($"inputDesc", Nested [] [input_desc u]); ($"outputDesc", Nested [] [output_desc u]); ($"extraServices", Nested [] (extra_services u));
        ($"symbol", Symbol); ($"total", Price (price_total u))])].

(** The heading of the ratios and one line per amount. *)
Definition ratio_heading (u : usage) : line K :=
  let '(g, label) := group_of u in
  ([], [($"parts", Filtered $"，"
    ([($"模型倍率 {{modelRatio}}", [($"modelRatio", Plain (kfix (modelRatio u)))]);
      ($"补全倍率 {{completionRatio}}", [($"completionRatio", Plain (kfix (completionRatio u)))])]
     ++ opt_line (pos (cacheTokens u)) ($"缓存倍率 {{cacheRatio}}", [($"cacheRatio", Plain (kfix (cacheRatio u)))])
     ++ opt_line (pos (imageInputTokens u)) ($"图片倍率 {{imageRatio}}", [($"imageRatio", Plain (kfix (imageRatio u)))])
     ++ match audioRatioValue u with Some r => [($"音频倍率 {{audioRatio}}", [($"audioRatio", Plain r)])] | None => [] end
     ++ [($"{{ratioType}} {{ratio}}", ratio_vars label g)]))]).

(** A line that ends with an amount. *)
Definition amount_line (key : jsstr) (vars : list (jsstr * slot K)) (amount : K) : line K := (key, vars ++ [($"amount", Amount amount)]).

Definition ratio_lines (u : usage) : list (line K) :=
  let '(g, label) := group_of u in
  let m := ($"modelRatio", Plain (kfix (modelRatio u))) in
  let tok n := ($"tokens", Plain n) in
  opt_line (pos (textInputTokens u))
    (amount_line $"普通输入：{{tokens}} / 1M * 模型倍率 {{modelRatio}} * {{ratioType}} {{ratio}} = {{amount}}"
       ([tok (textInputTokens u); m] ++ ratio_vars label g) (textInputAmount u))
  ++ opt_line (pos (cacheTokens u))
    (amount_line $"缓存输入：{{tokens}} / 1M * 模型倍率 {{modelRatio}} * 缓存倍率 {{cacheRatio}} * {{ratioType}} {{ratio}} = {{amount}}"
       ([tok (cacheTokens u); m; ($"cacheRatio", Plain (kfix (cacheRatio u)))] ++ ratio_vars label g) (cacheInputAmount u))
  ++ opt_line (pos (imageInputTokens u))
    (amount_line $"图片输入：{{tokens}} / 1M * 模型倍率 {{modelRatio}} * 图片倍率 {{imageRatio}} * {{ratioType}} {{ratio}} = {{amount}}"
       ([tok (imageInputTokens u); m; ($"imageRatio", Plain (kfix (imageRatio u)))] ++ ratio_vars label g) (imageInputAmount u))
  ++ (if pos (audioInputTokens u)
      then match audioRatioValue u with
           | Some r => [amount_line $"音频输入：{{tokens}} / 1M * 模型倍率 {{modelRatio}} * 音频倍率 {{audioRatio}} * {{ratioType}} {{ratio}} = {{amount}}"
                          ([tok (audioInputTokens u); m; ($"audioRatio", Plain r)] ++ ratio_vars label g) (audioInputAmount u)]
           | None => []
           end
      else [])
  ++ [amount_line $"输出：{{tokens}} / 1M * 模型倍率 {{modelRatio}} * 补全倍率 {{completionRatio}} * {{ratioType}} {{ratio}} = {{amount}}"
        ([tok (completionTokens u); m; ($"completionRatio", Plain (kfix (completionRatio u)))] ++ ratio_vars label g) (completionAmount u)]
  ++ opt_line (web_shown u)
    (amount_line $"Web 搜索：{{count}} / 1K * 单价 {{price}} * {{ratioType}} {{ratio}} = {{amount}}"
       ([($"count", Plain (webSearchCallCount u)); ($"price", Amount (webSearchPrice u))] ++ ratio_vars label g) (webSearchAmount u))
  ++ opt_line (file_shown u)
    (amount_line $"文件搜索：{{count}} / 1K * 单价 {{price}} * {{ratioType}} {{ratio}} = {{amount}}"
       ([($"count", Plain (fileSearchCallCount u)); ($"price", Amount (fileSearchPrice u))] ++ ratio_vars label g) (fileSearchAmount u))
  ++ opt_line (generation_shown u)
    (amount_line $"图片生成：1 次 * 单价 {{price}} * {{ratioType}} {{ratio}} = {{amount}}"
       ([($"price", Amount (imageGenerationCallPrice u))] ++ ratio_vars label g) (imageGenerationAmount u)).

Definition total_line (total : K) : line K := ($"合计：{{total}}", [($"total", Amount total)]).

Definition renderModelPrice (tokens : bool) (u : usage) : shown K :=
  let '(g, label) := group_of u in
  let p := modelPrice u in
  if negb (shouldUseRatioBillingProcess tokens p) then
    if negb (minus_one p) then
      fixed_article $"按次：{{symbol}}{{price}}" $"按次 {{symbol}}{{price}} * {{ratioType}} {{ratio}} = {{symbol}}{{total}}" p g label
    else Article (price_lines u) true
  else if negb (minus_one p) then
    Single (price_line $"按次：{{symbol}}{{price}} * {{ratioType}}：{{ratio}} = {{symbol}}{{total}}" $"price" p
              (ratio_vars label g ++ [($"total", Price (p * g)%k)]))
  else Article (ratio_heading u :: ratio_lines u ++ [total_line (ratio_total u)]) true.

(** ** Models with audio *)

Record audio_usage := AudioUsage {
  au_input : K; au_completion : K; au_modelRatio : K; au_modelPrice : K; au_completionRatio : K; au_audioInput : K; au_audioOutput : K;
  au_audioRatio : K; (** [Number(parseFloat(audio_ratio).toFixed(6))] *)
  au_audioCompletionRatio : K; au_group_ratio : K; au_user_group_ratio : option K; au_cache : K; au_cacheRatio : K
}.

Definition au_group (u : audio_usage) : K * jsstr := getEffectiveRatio (au_group_ratio u) (au_user_group_ratio u).
Definition au_price (u : audio_usage) : K := (au_modelRatio u * kz 2)%k.

Definition au_textPrice (fix_ : K -> K) (u : audio_usage) : K :=
  let g := (au_group u).1 in
  (per_million (au_input u - au_cache u + au_cache u * fix_ (au_cacheRatio u)) * au_price u * g
   + per_million (au_completion u) * (au_modelRatio u * kz 2 * fix_ (au_completionRatio u)) * g)%k.

Definition au_audioPrice (fix_ : K -> K) (u : audio_usage) : K :=
  let g := (au_group u).1 in
  (per_million (au_audioInput u) * au_price u * fix_ (au_audioRatio u) * g
   + per_million (au_audioOutput u) * au_price u * fix_ (au_audioRatio u) * fix_ (au_audioCompletionRatio u) * g)%k.

Definition au_price_lines (u : audio_usage) : list (line K) :=
  let p := au_price u in
  let '(g, label) := au_group u in
  [price_line $"输入价格：{{symbol}}{{price}} / 1M tokens" $"price" p [];
   price_line $"输出价格：{{symbol}}{{price}} / 1M tokens" $"price" (au_modelRatio u * kz 2 * au_completionRatio u)%k []]
  ++ opt_line (pos (au_cache u)) (price_line $"缓存读取价格：{{symbol}}{{price}} / 1M tokens" $"price" (p * au_cacheRatio u)%k [])
  ++ [price_line $"音频输入价格：{{symbol}}{{price}} / 1M tokens" $"price" (p * au_audioRatio u)%k [];
      price_line $"音频补全价格：{{symbol}}{{price}} / 1M tokens" $"price" (p * au_audioRatio u * au_audioCompletionRatio u)%k [];
      ($"文字提示 {{input}} tokens / 1M tokens * {{symbol}}{{textInputPrice}} + 文字补全 {{completion}} tokens / 1M tokens * {{symbol}}{{textCompPrice}} + 音频提示 {{audioInput}} tokens / 1M tokens * {{symbol}}{{audioInputPrice}} + 音频补全 {{audioCompletion}} tokens / 1M tokens * {{symbol}}{{audioCompPrice}} * {{ratioType}} {{ratio}} = {{symbol}}{{total}}",
       [($"input", Plain (au_input u)); ($"completion", Plain (au_completion u)); ($"audioInput", Plain (au_audioInput u));
        ($"audioCompletion", Plain (au_audioOutput u)); ($"textInputPrice", Price p);
        ($"textCompPrice", Price (au_modelRatio u * kz 2 * au_completionRatio u)%k); ($"audioInputPrice", Price (au_audioRatio u * p)%k);
        ($"audioCompPrice", Price (au_audioRatio u * au_audioCompletionRatio u * p)%k)]
       ++ ratio_vars label g ++ [($"symbol", Symbol); ($"total", Price (au_textPrice id u + au_audioPrice id u)%k)])].

Definition au_text_lines (u : audio_usage) : list (line K) :=
  let '(g, label) := au_group u in
  let p := au_price u in
  let m := ($"modelRatio", Plain (kfix (au_modelRatio u))) in
  let text := kmax0 (au_input u - au_cache u)%k in
  [amount_line $"普通输入：{{tokens}} / 1M * 模型倍率 {{modelRatio}} * {{ratioType}} {{ratio}} = {{amount}}"
     ([($"tokens", Plain text); m] ++ ratio_vars label g) (per_million text * p * g)%k]
  ++ opt_line (pos (au_cache u))
    (amount_line $"缓存输入：{{tokens}} / 1M * 模型倍率 {{modelRatio}} * 缓存倍率 {{cacheRatio}} * {{ratioType}} {{ratio}} = {{amount}}"
       ([($"tokens", Plain (au_cache u)); m; ($"cacheRatio", Plain (kfix (au_cacheRatio u)))] ++ ratio_vars label g)
       (per_million (au_cache u) * p * kfix (au_cacheRatio u) * g)%k)
  ++ [amount_line $"文字输出：{{tokens}} / 1M * 模型倍率 {{modelRatio}} * 补全倍率 {{completionRatio}} * {{ratioType}} {{ratio}} = {{amount}}"
        ([($"tokens", Plain (au_completion u)); m; ($"completionRatio", Plain (kfix (au_completionRatio u)))] ++ ratio_vars label g)
        (per_million (au_completion u) * p * kfix (au_completionRatio u) * g)%k].

Definition au_audio_lines (u : audio_usage) : list (line K) :=
  let '(g, label) := au_group u in
  let p := au_price u in
  let m := ($"modelRatio", Plain (kfix (au_modelRatio u))) in
  let a := ($"audioRatio", Plain (kfix (au_audioRatio u))) in
  [amount_line $"音频输入：{{tokens}} / 1M * 模型倍率 {{modelRatio}} * 音频倍率 {{audioRatio}} * {{ratioType}} {{ratio}} = {{amount}}"
     ([($"tokens", Plain (au_audioInput u)); m; a] ++ ratio_vars label g) (per_million (au_audioInput u) * p * kfix (au_audioRatio u) * g)%k;
   amount_line $"音频输出：{{tokens}} / 1M * 模型倍率 {{modelRatio}} * 音频倍率 {{audioRatio}} * 音频补全倍率 {{audioCompletionRatio}} * {{ratioType}} {{ratio}} = {{amount}}"
     ([($"tokens", Plain (au_audioOutput u)); m; a; ($"audioCompletionRatio", Plain (kfix (au_audioCompletionRatio u)))] ++ ratio_vars label g)
     (per_million (au_audioOutput u) * p * kfix (au_audioRatio u) * kfix (au_audioCompletionRatio u) * g)%k].

Definition au_ratio_lines (u : audio_usage) : list (line K) := au_text_lines u ++ au_audio_lines u.

Definition au_heading (u : audio_usage) : line K :=
  let '(g, label) := au_group u in
  ($"模型倍率 {{modelRatio}}，补全倍率 {{completionRatio}}，音频倍率 {{audioRatio}}，音频补全倍率 {{audioCompletionRatio}}，{{cachePart}}{{ratioType}} {{ratio}}",
   [($"modelRatio", Plain (kfix (au_modelRatio u))); ($"completionRatio", Plain (kfix (au_completionRatio u)));
    ($"audioRatio", Plain (kfix (au_audioRatio u))); ($"audioCompletionRatio", Plain (kfix (au_audioCompletionRatio u)));
    ($"cachePart", if pos (au_cache u) then Nested [] [([], [([], Word $"缓存倍率"); ([], Raw $" "); ([], Plain (kfix (au_cacheRatio u))); ([], Raw $"，")])] else Raw [])]
   ++ ratio_vars label g).

Definition renderAudioModelPrice (tokens : bool) (u : audio_usage) : shown K :=
  let '(g, label) := au_group u in
  let p := au_modelPrice u in
  if negb (shouldUseRatioBillingProcess tokens p) then
    if negb (minus_one p) then
      fixed_article $"模型价格：{{symbol}}{{price}} / 次" $"模型价格 {{symbol}}{{price}} / 次 * {{ratioType}} {{ratio}} = {{symbol}}{{total}}" p g label
    else Article (au_price_lines u) true
  else if negb (minus_one p) then
    Single (price_line $"模型价格：{{symbol}}{{price}} * {{ratioType}}：{{ratio}} = {{symbol}}{{total}}" $"price" p
              (ratio_vars label g ++ [($"total", Price (p * g)%k)]))
  else
    Article (au_heading u :: au_ratio_lines u
      ++ [($"合计：文字部分 {{textTotal}} + 音频部分 {{audioTotal}} = {{total}}",
           [($"textTotal", Amount (au_textPrice kfix u)); ($"audioTotal", Amount (au_audioPrice kfix u));
            ($"total", Amount (au_textPrice kfix u + au_audioPrice kfix u)%k)])]) true.

(** ** Models of the Claude kind *)

Record claude_usage := ClaudeUsage {
  cl_input : K; cl_completion : K; cl_modelRatio : K; cl_modelPrice : K; cl_completionRatio : K; cl_group_ratio : K; cl_user_group_ratio : option K;
  cl_cache : K; cl_cacheRatio : K; cl_creation : K; cl_creationRatio : K; cl_creation5m : K; cl_creationRatio5m : K; cl_creation1h : K;
  cl_creationRatio1h : K
}.

Definition cl_group (u : claude_usage) : K * jsstr := getEffectiveRatio (cl_group_ratio u) (cl_user_group_ratio u).
Definition cl_price (u : claude_usage) : K := (cl_modelRatio u * kz 2)%k.
Definition hasSplitCacheCreation (u : claude_usage) : bool := pos (cl_creation5m u) || pos (cl_creation1h u).
Definition legacyCacheCreationTokens (u : claude_usage) : K := if hasSplitCacheCreation u then kz 0 else cl_creation u.
Definition legacy_shown (u : claude_usage) : bool := negb (hasSplitCacheCreation u) && pos (cl_creation u).
Definition shown_5m (u : claude_usage) : bool := hasSplitCacheCreation u && pos (cl_creation5m u).
Definition shown_1h (u : claude_usage) : bool := hasSplitCacheCreation u && pos (cl_creation1h u).

(** The total, of the ratios as they are or as they are shown. *)
Definition cl_total (fix_ : K -> K) (u : claude_usage) : K :=
  let g := (cl_group u).1 in
  let effective := (cl_input u + cl_cache u * fix_ (cl_cacheRatio u) + legacyCacheCreationTokens u * fix_ (cl_creationRatio u)
                    + cl_creation5m u * fix_ (cl_creationRatio5m u) + cl_creation1h u * fix_ (cl_creationRatio1h u))%k in
  (per_million effective * cl_price u * g + per_million (cl_completion u) * (cl_modelRatio u * kz 2 * fix_ (cl_completionRatio u)) * g)%k.

Definition breakdown (u : claude_usage) : list (line K) :=
  let p := cl_price u in
  let part key n usd := (key, [($"tokens", Plain n); ($"symbol", Symbol); ($"price", Price usd)]) in
  [($"提示 {{input}} tokens / 1M tokens * {{symbol}}{{price}}", [($"input", Plain (cl_input u)); ($"symbol", Symbol); ($"price", Price p)])]
  ++ opt_line (pos (cl_cache u)) (part $"缓存 {{tokens}} tokens / 1M tokens * {{symbol}}{{price}}" (cl_cache u) (p * cl_cacheRatio u)%k)
  ++ opt_line (legacy_shown u) (part $"缓存创建 {{tokens}} tokens / 1M tokens * {{symbol}}{{price}}" (cl_creation u) (p * cl_creationRatio u)%k)
  ++ opt_line (shown_5m u) (part $"5m缓存创建 {{tokens}} tokens / 1M tokens * {{symbol}}{{price}}" (cl_creation5m u) (p * cl_creationRatio5m u)%k)
  ++ opt_line (shown_1h u) (part $"1h缓存创建 {{tokens}} tokens / 1M tokens * {{symbol}}{{price}}" (cl_creation1h u) (p * cl_creationRatio1h u)%k)
  ++ [($"补全 {{completion}} tokens / 1M tokens * {{symbol}}{{price}}",
       [($"completion", Plain (cl_completion u)); ($"symbol", Symbol); ($"price", Price (p * cl_completionRatio u)%k)])].

Definition cl_price_lines (u : claude_usage) : list (line K) :=
  let p := cl_price u in
  let '(g, label) := cl_group u in
  [price_line $"输入价格：{{symbol}}{{price}} / 1M tokens" $"price" p [];
   price_line $"输出价格：{{symbol}}{{price}} / 1M tokens" $"price" (p * cl_completionRatio u)%k []]
  ++ opt_line (pos (cl_cache u)) (price_line $"缓存读取价格：{{symbol}}{{price}} / 1M tokens" $"price" (p * cl_cacheRatio u)%k [])
  ++ opt_line (legacy_shown u) (price_line $"缓存创建价格：{{symbol}}{{price}} / 1M tokens" $"price" (p * cl_creationRatio u)%k [])
  ++ opt_line (shown_5m u) (price_line $"5m缓存创建价格：{{symbol}}{{price}} / 1M tokens" $"price" (p * cl_creationRatio5m u)%k [])
  ++ opt_line (shown_1h u) (price_line $"1h缓存创建价格：{{symbol}}{{price}} / 1M tokens" $"price" (p * cl_creationRatio1h u)%k [])
  ++ [($"{{breakdown}} * {{ratioType}} {{ratio}} = {{symbol}}{{total}}",
       (($"breakdown", Nested $" + " (breakdown u)) :: ratio_vars label g) ++ [($"symbol", Symbol); ($"total", Price (cl_total id u))])].

Definition cl_headings (u : claude_usage) : list (line K) :=
  let '(g, label) := cl_group u in
  [($"模型倍率 {{modelRatio}}，输出倍率 {{completionRatio}}，缓存倍率 {{cacheRatio}}，{{ratioType}} {{ratio}}",
    [($"modelRatio", Plain (kfix (cl_modelRatio u))); ($"completionRatio", Plain (kfix (cl_completionRatio u)));
     ($"cacheRatio", Plain (kfix (cl_cacheRatio u)))] ++ ratio_vars label g);
   if hasSplitCacheCreation u then
     ($"缓存创建倍率 5m {{cacheCreationRatio5m}} / 1h {{cacheCreationRatio1h}}",
      [($"cacheCreationRatio5m", Plain (kfix (cl_creationRatio5m u))); ($"cacheCreationRatio1h", Plain (kfix (cl_creationRatio1h u)))])
   else ($"缓存创建倍率 {{cacheCreationRatio}}", [($"cacheCreationRatio", Plain (kfix (cl_creationRatio u)))])].

Definition cl_ratio_lines (u : claude_usage) : list (line K) :=
  let '(g, label) := cl_group u in
  let p := cl_price u in
  let m := ($"modelRatio", Plain (kfix (cl_modelRatio u))) in
  let part key name n r :=
    amount_line key ([($"tokens", Plain n); m; (name, Plain (kfix r))] ++ ratio_vars label g) (per_million n * p * kfix r * g)%k in
  [amount_line $"普通输入：{{tokens}} / 1M * 模型倍率 {{modelRatio}} * {{ratioType}} {{ratio}} = {{amount}}"
     ([($"tokens", Plain (cl_input u)); m] ++ ratio_vars label g) (per_million (cl_input u) * p * g)%k]
  ++ opt_line (pos (cl_cache u))
    (part $"缓存读取：{{tokens}} / 1M * 模型倍率 {{modelRatio}} * 缓存倍率 {{cacheRatio}} * {{ratioType}} {{ratio}} = {{amount}}"
       $"cacheRatio" (cl_cache u) (cl_cacheRatio u))
  ++ opt_line (legacy_shown u)
    (part $"缓存创建：{{tokens}} / 1M * 模型倍率 {{modelRatio}} * 缓存创建倍率 {{cacheCreationRatio}} * {{ratioType}} {{ratio}} = {{amount}}"
       $"cacheCreationRatio" (cl_creation u) (cl_creationRatio u))
  ++ opt_line (shown_5m u)
    (part $"5m缓存创建：{{tokens}} / 1M * 模型倍率 {{modelRatio}} * 5m缓存创建倍率 {{cacheCreationRatio5m}} * {{ratioType}} {{ratio}} = {{amount}}"
       $"cacheCreationRatio5m" (cl_creation5m u) (cl_creationRatio5m u))
  ++ opt_line (shown_1h u)
    (part $"1h缓存创建：{{tokens}} / 1M * 模型倍率 {{modelRatio}} * 1h缓存创建倍率 {{cacheCreationRatio1h}} * {{ratioType}} {{ratio}} = {{amount}}"
       $"cacheCreationRatio1h" (cl_creation1h u) (cl_creationRatio1h u))
  ++ [($"补全 {{completion}} tokens * 输出倍率 {{completionRatio}}",
       [($"completion", Plain (cl_completion u)); ($"completionRatio", Plain (kfix (cl_completionRatio u)))]);
      part $"输出：{{tokens}} / 1M * 模型倍率 {{modelRatio}} * 输出倍率 {{completionRatio}} * {{ratioType}} {{ratio}} = {{amount}}"
        $"completionRatio" (cl_completion u) (cl_completionRatio u)].

Definition renderClaudeModelPrice (tokens : bool) (u : claude_usage) : shown K :=
  let '(g, label) := cl_group u in
  let p := cl_modelPrice u in
  if negb (shouldUseRatioBillingProcess tokens p) then
    if negb (minus_one p) then
      fixed_article $"模型价格：{{symbol}}{{price}} / 次" $"模型价格 {{symbol}}{{price}} / 次 * {{ratioType}} {{ratio}} = {{symbol}}{{total}}" p g label
    else Article (cl_price_lines u) true
  else if negb (minus_one p) then
    Single (price_line $"模型价格：{{symbol}}{{price}} * {{ratioType}}：{{ratio}} = {{symbol}}{{total}}" $"price" p
              (ratio_vars label g ++ [($"total", Price (p * g)%k)]))
  else Article (cl_headings u ++ cl_ratio_lines u ++ [total_line (cl_total kfix u)]) true.

(** A task is charged in advance and settled later. *)
Definition renderTaskBillingProcess (task : bool) (content : jsstr) : shown K :=
  if task then Article (if nonempty content then [([], [([], Raw content)])] else []) false
  else Article [($"任务预扣费（将在任务完成后按实际token重算）", [])] true.

(** ** Short forms *)

Record simple := Simple {
  sm_modelRatio : K; sm_modelPrice : K; sm_group : K; sm_user : option K; sm_cache : K; sm_cacheRatio : K; sm_creation : K; sm_creationRatio : K;
  sm_creation5m : K; sm_creationRatio5m : K; sm_creation1h : K; sm_creationRatio1h : K; sm_image : bool; sm_imageRatio : K; sm_override : bool
}.

Inductive tone := Primary | Secondary.

Definition getGroupRatioText (groupRatio : K) (user : option K) : line K :=
  let '(g, label) := getEffectiveRatio groupRatio user in ($"{{ratioType}} {{ratio}}x", ratio_vars label g).

Definition nonzero (n : K) : bool := negb (keqb n (kz 0)).
Definition sm_split (u : simple) : bool := pos (sm_creation5m u) || pos (sm_creation1h u).
Definition sm_legacy (u : simple) : bool := negb (sm_split u) && nonzero (sm_creation u).
Definition sm_5m (u : simple) : bool := sm_split u && pos (sm_creation5m u).
Definition sm_1h (u : simple) : bool := sm_split u && pos (sm_creation1h u).

(** The prices per million tokens. *)
Definition unit_prices (u : simple) : list (line K) :=
  let p := (sm_modelRatio u * kz 2)%k in
  let price key usd := (key, [($"price", Compact usd)]) in
  [price $"输入 {{price}} / 1M tokens" p]
  ++ opt_line (nonzero (sm_cache u)) (price $"缓存读 {{price}} / 1M tokens" (p * sm_cacheRatio u)%k)
  ++ opt_line (sm_5m u) (price $"5m缓存创建 {{price}} / 1M tokens" (p * sm_creationRatio5m u)%k)
  ++ opt_line (sm_1h u) (price $"1h缓存创建 {{price}} / 1M tokens" (p * sm_creationRatio1h u)%k)
  ++ opt_line (sm_legacy u) (price $"缓存创建 {{price}} / 1M tokens" (p * sm_creationRatio u)%k)
  ++ opt_line (sm_image u) (price $"图片输入 {{price}} / 1M tokens" (p * sm_imageRatio u)%k).

Definition creation_ratios (u : simple) : list (line K) :=
  let r5 := ($"cacheCreationRatio5m", Plain (sm_creationRatio5m u)) in
  let r1 := ($"cacheCreationRatio1h", Plain (sm_creationRatio1h u)) in
  if sm_split u then
    if sm_5m u && sm_1h u then [($"缓存创建: 5m {{cacheCreationRatio5m}} / 1h {{cacheCreationRatio1h}}", [r5; r1])]
    else if sm_5m u then [($"缓存创建: 5m {{cacheCreationRatio5m}}", [r5])]
    else if sm_1h u then [($"缓存创建: 1h {{cacheCreationRatio1h}}", [r1])] else []
  else opt_line (sm_legacy u) ($"缓存创建: {{cacheCreationRatio}}", [($"cacheCreationRatio", Plain (sm_creationRatio u))]).

Definition unit_ratios (u : simple) : list (line K) :=
  [($"模型: {{ratio}}", [($"ratio", Plain (sm_modelRatio u))])]
  ++ opt_line (nonzero (sm_cache u)) ($"缓存: {{cacheRatio}}", [($"cacheRatio", Plain (sm_cacheRatio u))])
  ++ creation_ratios u
  ++ opt_line (sm_image u) ($"图片输入: {{imageRatio}}", [($"imageRatio", Plain (sm_imageRatio u))]).

Definition OVERRIDE : line K := ($"系统提示覆盖", []).

(** The short form as separate pieces. *)
Definition simple_segments (tokens : bool) (mode : display) (u : simple) : list (tone * line K) :=
  let middle :=
    if negb (minus_one (sm_modelPrice u)) then
      [if isPriceDisplayMode tokens mode (sm_modelPrice u) then ($"模型价格 {{price}}", [($"price", Compact (sm_modelPrice u))]) else ($"按次", [])]
    else if isPriceDisplayMode tokens mode (sm_modelPrice u) then unit_prices u
    else unit_ratios u in
  [(Primary, getGroupRatioText (sm_group u) (sm_user u))] ++ map (pair Secondary) middle ++ (if sm_override u then [(Primary, OVERRIDE)] else []).

(** The short form as one text: parts that are joined with commas, one sentence, or a
    template whose parts are translated, joined and translated again with the variables;
    and whether the note on the system prompt follows. *)
Inductive summary := Summary (parts : list (line K)) | Sentence (l : line K) | Template (parts : list jsstr) (vars : list (jsstr * slot K)).

Definition simple_text (tokens : bool) (mode : display) (u : simple) : summary * bool :=
  let '(g, label) := getEffectiveRatio (sm_group u) (sm_user u) in
  let p := sm_modelPrice u in
  if negb (minus_one p) then
    (if isPriceDisplayMode tokens mode p then
       Summary [price_line $"模型价格：{{symbol}}{{price}}" $"price" p []; getGroupRatioText (sm_group u) (sm_user u)]
     else Sentence (price_line $"价格：{{symbol}}{{price}} * {{ratioType}}：{{ratio}}" $"price" p (ratio_vars label g)), false)
  else if isPriceDisplayMode tokens mode p then (Summary (unit_prices u ++ [getGroupRatioText (sm_group u) (sm_user u)]), sm_override u)
  else
    (Template (map fst (unit_ratios u) ++ [$"{{ratioType}}: {{groupRatio}}"])
       [($"ratio", Plain (sm_modelRatio u)); ($"ratioType", Word label); ($"groupRatio", Plain g); ($"cacheRatio", Plain (sm_cacheRatio u));
        ($"cacheCreationRatio", Plain (sm_creationRatio u)); ($"cacheCreationRatio5m", Plain (sm_creationRatio5m u));
        ($"cacheCreationRatio1h", Plain (sm_creationRatio1h u)); ($"imageRatio", Plain (sm_imageRatio u))], sm_override u).

(** ** The column of details *)

Record log_usage := LogUsage {
  lg_modelRatio : K; lg_completionRatio : K; lg_modelPrice : K; lg_group : K; lg_user : option K; lg_cacheRatio : K; lg_image : bool; lg_imageRatio : K;
  lg_web : bool; lg_webCount : K; lg_file : bool; lg_fileCount : K
}.

Definition million_price (key : jsstr) (usd : K) : line K := price_line key $"price" usd [].

Definition renderLogContent (tokens : bool) (mode : display) (u : log_usage) : list (line K) :=
  let '(g, label) := getEffectiveRatio (lg_group u) (lg_user u) in
  let p := (lg_modelRatio u * kz 2)%k in
  let fixed := lg_modelPrice u in
  if isPriceDisplayMode tokens mode fixed then
    if negb (minus_one fixed) then [million_price $"模型价格 {{symbol}}{{price}} / 次" fixed; getGroupRatioText (lg_group u) (lg_user u)]
    else
      [million_price $"输入价格 {{symbol}}{{price}} / 1M tokens" p; million_price $"输出价格 {{symbol}}{{price}} / 1M tokens" (p * lg_completionRatio u)%k]
      ++ opt_line (negb (keqb (lg_cacheRatio u) (kz 1))) (million_price $"缓存读取价格 {{symbol}}{{price}} / 1M tokens" (p * lg_cacheRatio u)%k)
      ++ opt_line (lg_image u) (million_price $"图片输入价格 {{symbol}}{{price}} / 1M tokens" (p * lg_imageRatio u)%k)
      ++ opt_line (lg_web u) ($"Web 搜索调用 {{webSearchCallCount}} 次", [($"webSearchCallCount", Plain (lg_webCount u))])
      ++ opt_line (lg_file u) ($"文件搜索调用 {{fileSearchCallCount}} 次", [($"fileSearchCallCount", Plain (lg_fileCount u))])
      ++ [getGroupRatioText (lg_group u) (lg_user u)]
  else if negb (minus_one fixed) then [price_line $"模型价格 {{symbol}}{{price}}，{{ratioType}} {{ratio}}" $"price" fixed (ratio_vars label g)]
  else
    let vars := [($"modelRatio", Plain (lg_modelRatio u)); ($"cacheRatio", Plain (lg_cacheRatio u)); ($"completionRatio", Plain (lg_completionRatio u))] in
    [if lg_image u then
       ($"模型倍率 {{modelRatio}}，缓存倍率 {{cacheRatio}}，输出倍率 {{completionRatio}}，图片输入倍率 {{imageRatio}}，{{ratioType}} {{ratio}}",
        vars ++ [($"imageRatio", Plain (lg_imageRatio u))] ++ ratio_vars label g)
     else if lg_web u then
       ($"模型倍率 {{modelRatio}}，缓存倍率 {{cacheRatio}}，输出倍率 {{completionRatio}}，{{ratioType}} {{ratio}}，Web 搜索调用 {{webSearchCallCount}} 次",
        vars ++ ratio_vars label g ++ [($"webSearchCallCount", Plain (lg_webCount u))])
     else ($"模型倍率 {{modelRatio}}，缓存倍率 {{cacheRatio}}，输出倍率 {{completionRatio}}，{{ratioType}} {{ratio}}", vars ++ ratio_vars label g)].

Definition claude_creation (u : simple) : line K :=
  let r5 := ($"cacheCreationRatio5m", Plain (sm_creationRatio5m u)) in
  let r1 := ($"cacheCreationRatio1h", Plain (sm_creationRatio1h u)) in
  if sm_5m u && sm_1h u then ($"缓存创建倍率 5m {{cacheCreationRatio5m}} / 1h {{cacheCreationRatio1h}}", [r5; r1])
  else if sm_5m u then ($"缓存创建倍率 5m {{cacheCreationRatio5m}}", [r5])
  else if sm_1h u then ($"缓存创建倍率 1h {{cacheCreationRatio1h}}", [r1])
  else ($"缓存创建倍率 {{cacheCreationRatio}}", [($"cacheCreationRatio", Plain (sm_creationRatio u))]).

Definition renderClaudeLogContent (tokens : bool) (mode : display) (completionRatio : K) (u : simple) : list (line K) :=
  let '(g, label) := getEffectiveRatio (sm_group u) (sm_user u) in
  let p := (sm_modelRatio u * kz 2)%k in
  let fixed := sm_modelPrice u in
  if isPriceDisplayMode tokens mode fixed then
    if negb (minus_one fixed) then [million_price $"模型价格 {{symbol}}{{price}} / 次" fixed; getGroupRatioText (sm_group u) (sm_user u)]
    else
      [million_price $"输入价格 {{symbol}}{{price}} / 1M tokens" p; million_price $"输出价格 {{symbol}}{{price}} / 1M tokens" (p * completionRatio)%k;
       million_price $"缓存读取价格 {{symbol}}{{price}} / 1M tokens" (p * sm_cacheRatio u)%k]
      ++ opt_line (sm_5m u) (million_price $"5m缓存创建价格 {{symbol}}{{price}} / 1M tokens" (p * sm_creationRatio5m u)%k)
      ++ opt_line (sm_1h u) (million_price $"1h缓存创建价格 {{symbol}}{{price}} / 1M tokens" (p * sm_creationRatio1h u)%k)
      ++ opt_line (negb (sm_split u)) (million_price $"缓存创建价格 {{symbol}}{{price}} / 1M tokens" (p * sm_creationRatio u)%k)
      ++ [getGroupRatioText (sm_group u) (sm_user u)]
  else if negb (minus_one fixed) then [price_line $"模型价格 {{symbol}}{{price}}，{{ratioType}} {{ratio}}" $"price" fixed (ratio_vars label g)]
  else
    [($"模型倍率 {{modelRatio}}", [($"modelRatio", Plain (sm_modelRatio u))]); ($"输出倍率 {{completionRatio}}", [($"completionRatio", Plain completionRatio)]);
     ($"缓存倍率 {{cacheRatio}}", [($"cacheRatio", Plain (sm_cacheRatio u))]); claude_creation u; ($"{{ratioType}} {{ratio}}", ratio_vars label g)].

End Formulas.

(** ** Numbers and quotas as texts *)

Definition renderNumber (n : num) : jsstr :=
  if nleb (of_Z 1000000000) n then toFixed (ndiv n (of_Z 1000000000)) 1 ++ $"B"
  else if nleb (of_Z 1000000) n then toFixed (ndiv n (of_Z 1000000)) 1 ++ $"M"
  else if nleb (of_Z 10000) n then toFixed (ndiv n (of_Z 1000)) 1 ++ $"k"
  else String_num n.

Definition quota_type (st : storage) : jsstr := default $"USD" (stored $"quota_display_type" st).

(** The symbol of a currency of one's own. *)
Definition custom_symbol (st : storage) : jsstr := String_val (status_field st $"custom_currency_symbol" (VStr $"¤") (VStr $"¤")).

Definition renderQuotaNumberWithDigit (st : storage) (n : val) (digits : Z) : jsstr :=
  match n with
  | VNum x =>
    if isNaN x then $"0"
    else
      let s := toFixed x digits in
      if quota_type st =s? $"CNY" then $"¥" ++ s
      else if quota_type st =s? $"USD" then $"$" ++ s
      else if quota_type st =s? $"CUSTOM" then custom_symbol st ++ s
      else s
  | _ => $"0"
  end.

Fixpoint before_dot (s : jsstr) : jsstr :=
  match s with [] => [] | c :: r => if c =? 46 then [] else c :: before_dot r end.

(** A long number keeps its first and last two digits. *)
Definition renderNumberWithPoint (n : num) : jsstr :=
  let s := toFixed n 2 in
  if nleb (of_Z 100000) (Number_str s) then
    let whole := before_dot s in
    take 2 whole ++ $".." ++ drop (length whole - 2) whole ++ drop (length whole) s
  else s.

(** [parseFloat(localStorage.getItem('quota_per_unit'))]: [NaN] without one. *)
Definition quota_per_unit (st : storage) : num := match getItem $"quota_per_unit" st with Some s => parseFloat s | None => NaN end.

Definition renderUnitWithQuota (st : storage) (quota : num) : num := nmul (quota_per_unit st) quota.
Definition getQuotaWithUnit (st : storage) (quota : num) (digits : Z) : jsstr := toFixed (ndiv quota (quota_per_unit st)) digits.

Definition renderQuotaWithAmount (st : storage) (amount : num) : jsstr :=
  if quota_type st =s? $"TOKENS" then renderNumber (renderUnitWithQuota st amount)
  else
    let s := if isFinite amount then toFixed amount 2 else String_num amount in
    if quota_type st =s? $"CNY" then $"¥" ++ s else if quota_type st =s? $"CUSTOM" then custom_symbol st ++ s else $"$" ++ s.

Definition rate_of (st : storage) : num := Number_val (rate (getCurrencyConfig st)).
Definition symbol_of (st : storage) : jsstr := String_val (symbol (getCurrencyConfig st)).

Definition convertUSDToCurrency (st : storage) (usd : num) (digits : Z) : jsstr := symbol_of st ++ toFixed (nmul usd (rate_of st)) digits.

(** The rate and the symbol of a quota; without a rate it is 1. *)
Definition quota_currency (st : storage) : num * jsstr :=
  if quota_type st =s? $"CNY" then (Number_val (status_field st $"usd_exchange_rate" (VNum n1) (VNum n1)), $"¥")
  else if quota_type st =s? $"CUSTOM" then (Number_val (status_field st $"custom_currency_exchange_rate" (VNum n1) (VNum n1)), custom_symbol st)
  else (n1, $"$").

(** [Math.pow(10, -digits).toFixed(digits)]: the last digit is 1. *)
Definition smallest (digits : Z) : jsstr := fixed_layout digits 1.

Definition renderQuota (st : storage) (quota : num) (digits : Z) : jsstr :=
  if quota_type st =s? $"TOKENS" then renderNumber quota
  else
    let usd := ndiv quota (quota_per_unit st) in
    let '(r, symbol) := quota_currency st in
    let value := if (quota_type st =s? $"CNY") || (quota_type st =s? $"CUSTOM") then nmul usd r else usd in
    let s := toFixed value digits in
    if neqb (parseFloat s) n0 && nltb n0 quota && nltb n0 value then symbol ++ smallest digits else symbol ++ s.

Definition renderQuotaWithPrompt (t : jsstr -> jsstr) (st : storage) (quota : num) (digits : Z) : jsstr :=
  if quota_type st =s? $"TOKENS" then [] else t $"等价金额：" ++ renderQuota st quota digits.

Definition formatCompactDisplayPrice (st : storage) (usd : num) : jsstr :=
  symbol_of st ++ String_num (Number_str (toFixed (nmul usd (rate_of st)) 6)).
Definition formatBillingDisplayPrice (st : storage) (usd : num) : jsstr := toFixed (nmul usd (rate_of st)) 6.
Definition renderDisplayAmountFromUsd (st : storage) (usd : num) : jsstr :=
  renderQuotaWithAmount st (Number_str (toFixed (if num_truthy usd then usd else n0) 6)).

(** A text with its variables; [t] translates a key with the texts of its variables. *)
Section Texts.
Context (t : jsstr -> list (jsstr * jsstr) -> jsstr) (st : storage).

Definition said (key : jsstr) (vars : list (jsstr * jsstr)) : jsstr :=
  if nonempty key then t key vars else concat (map snd vars).

Fixpoint slot_text (x : slot num) : jsstr :=
  match x with
  | Price usd => formatBillingDisplayPrice st usd
  | Amount usd => renderDisplayAmountFromUsd st usd
  | Compact usd => formatCompactDisplayPrice st usd
  | Plain n => String_num n
  | Word s => t s []
  | Raw s => s
  | Symbol => symbol_of st
  | Nested sep l => join sep (map (fun ln => said ln.1 (map (fun kv => (kv.1, slot_text kv.2)) ln.2)) l)
  | Filtered sep l => join sep (filter_Boolean (map (fun ln => said ln.1 (map (fun kv => (kv.1, slot_text kv.2)) ln.2)) l))
  end.

Definition line_text (l : line num) : jsstr := said l.1 (map (fun kv => (kv.1, slot_text kv.2)) l.2).

Definition NOTE : jsstr := $"仅供参考，以实际扣费为准".

(** The paragraphs of an article. *)
Definition renderBillingArticle (lines : list (line num)) (note : bool) : list jsstr :=
  filter_Boolean (map line_text lines) ++ (if note then [t NOTE []] else []).

Definition joinBillingSummary (lines : list (line num)) : jsstr := join $"，" (filter_Boolean (map line_text lines)).

Definition summary_text (x : summary * bool) : jsstr :=
  match x.1 with
  | Summary parts => joinBillingSummary parts
  | Sentence l => line_text l
  | Template parts vars => t (join $" * " (map (fun k => t k []) parts)) (map (fun kv => (kv.1, slot_text kv.2)) vars)
  end ++ (if x.2 then [10; 13] ++ t $"系统提示覆盖" [] else []).

End Texts.
End Billing.
