(* ===== verification/BillingProofs.v ===== *)
(** * Prices in the usage log: the theorems

    Over the rationals, with the ratios rounded to six decimals where the code rounds them: the
    lines of an article add up to the total it shows, and the total is the same whether prices
    or ratios are shown, up to that rounding.  The exception is a request with image tokens,
    whose total with ratios counts them a second time. *)
From Stdlib Require Import SpecFloat QArith Qround Qabs Lqa.
From S2P Require Import Prelude JSNum JSValue Json FormValues ClientHelpers Billing.
#[local] Open Scope Z_scope.
#[local] Arguments js _ : simpl never.

Module BillingProofs.
Import ClientHelpers Billing.

(** ** What an article shows *)

(** The variable [k] of a line, when it is money. *)
Definition money_of (x : slot Q) : option Q := match x with Price q | Amount q | Compact q => Some q | _ => None end.
Fixpoint money (k : jsstr) (vars : list (jsstr * slot Q)) : option Q :=
  match vars with [] => None | (k', x) :: r => if k' =s? k then money_of x else money k r end.

(** The sum of the amounts the lines end with. *)
Definition amount_in (l : line Q) : Q := match money $"amount" l.2 with Some q => q | None => 0%Q end.
Fixpoint sum_amounts (ls : list (line Q)) : Q := match ls with [] => 0%Q | l :: r => (amount_in l + sum_amounts r)%Q end.

(** The total on the last line. *)
Definition shown_total (s : shown Q) : option Q :=
  match s with
  | Article ls _ => match last ls with Some l => money $"total" l.2 | None => None end
  | Single l => money $"total" l.2
  end.
Definition body (s : shown Q) : list (line Q) := match s with Article ls _ => removelast ls | Single _ => [] end.

(** An article whose lines add up to its total. *)
Definition adds_up (s : shown Q) : Prop := exists t, shown_total s = Some t /\ (sum_amounts (body s) == t)%Q.

(** ** Lemmas *)

Lemma sum_amounts_app a b : (sum_amounts (a ++ b) == sum_amounts a + sum_amounts b)%Q.
Proof. induction a as [|l a IH]; cbn; [ring|]. rewrite IH. ring. Qed.

(** No variable [k]. *)
Definition lacks (k : jsstr) (vars : list (jsstr * slot Q)) : bool := forallb (fun kv => negb (kv.1 =s? k)) vars.

Lemma money_skip k vars q : lacks k vars = true -> money k (vars ++ [(k, Amount q)]) = Some q.
Proof.
  induction vars as [|[k' x] vars IH]; cbn; [by rewrite str_eqb_refl|]. intros [E H]%andb_true_iff.
  apply negb_true_iff in E. rewrite E. auto.
Qed.

Lemma amount_line_in key vars q : lacks $"amount" vars = true -> amount_in (amount_line key vars q) = q.
Proof. intros H. unfold amount_in, amount_line. cbn [snd]. by rewrite money_skip. Qed.

Lemma money_lacks k vars : lacks k vars = true -> money k vars = None.
Proof. induction vars as [|[k' x] vars IH]; cbn; [done|]. intros [E%negb_true_iff H]%andb_true_iff. rewrite E. auto. Qed.

Lemma amount_none key vars : lacks $"amount" vars = true -> amount_in (key, vars) = 0%Q.
Proof. intros H. unfold amount_in. cbn [snd]. by rewrite money_lacks. Qed.

Lemma sum_opt b l : (sum_amounts (opt_line b l) == if b then amount_in l else 0)%Q.
Proof. destruct b; cbn; ring. Qed.

Lemma posP (q : Q) : if pos q then (0 < q)%Q else (q <= 0)%Q.
Proof.
  unfold pos. cbn. unfold Qltb. destruct (Qle_bool q (inject_Z 0)) eqn:E; cbn.
  - by apply Qle_bool_iff in E.
  - apply Qnot_le_lt. intros H. apply Qle_bool_iff in H. change (inject_Z 0) with 0%Q in E. congruence.
Qed.

Lemma pos_zero (q : Q) : (0 <= q)%Q -> pos q = false -> (q == 0)%Q.
Proof. intros H E. pose proof (posP q) as P. rewrite E in P. lra. Qed.

Lemma kmax0_nonneg (q : Q) : (0 <= q)%Q -> (kmax0 q == q)%Q.
Proof.
  intros H. cbn. pose proof (posP q) as P. unfold pos in P. cbn in P. change (inject_Z 0) with 0%Q in P.
  destruct (Qltb 0 q); [reflexivity|]. lra.
Qed.

(** The sum of given lines, as an expression of their amounts. *)
Ltac lines_sum :=
  rewrite ?sum_amounts_app, ?sum_opt; cbn [sum_amounts];
  rewrite ?amount_line_in by (vm_compute; reflexivity); rewrite ?amount_none by (vm_compute; reflexivity).

(** Numbers that are not positive are zero; then both sides are equal as expressions. *)
Ltac settle :=
  cbn [orb andb negb];
  repeat match goal with H : pos ?q = false, N : (0 <= ?q)%Q |- _ => apply (pos_zero q N) in H end;
  repeat match goal with H : (_ == 0)%Q |- _ => rewrite H; clear H end; field.

Lemma body_app ls l b : body (Article (ls ++ [l]) b) = ls.
Proof. cbn. apply removelast_last. Qed.
Lemma total_app ls l b : shown_total (Article (ls ++ [l]) b) = money $"total" l.2.
Proof. cbn. by rewrite last_snoc. Qed.

(** ** Models of the Claude kind *)

Definition claude_nonneg (u : claude_usage (K := Q)) : Prop :=
  (0 <= cl_cache u /\ 0 <= cl_creation u /\ 0 <= cl_creation5m u /\ 0 <= cl_creation1h u)%Q.

Lemma cl_lines_sum u : claude_nonneg u -> (sum_amounts (cl_ratio_lines u) == cl_total kfix u)%Q.
Proof.
  intros (N1 & N2 & N3 & N4).
  unfold cl_ratio_lines, cl_total, legacyCacheCreationTokens, legacy_shown, shown_5m, shown_1h, hasSplitCacheCreation, cl_price, per_million.
  destruct (cl_group u) as [g label]. cbv zeta. cbn [fst]. lines_sum.
  cbn [kmul kadd kdiv kz Q_arith].
  destruct (pos (cl_cache u)) eqn:E1, (pos (cl_creation5m u)) eqn:E3, (pos (cl_creation1h u)) eqn:E4, (pos (cl_creation u)) eqn:E2; settle.
Qed.

Lemma money_total_line t : money $"total" (total_line t).2 = Some t.
Proof. unfold total_line. cbn. by rewrite str_eqb_refl. Qed.

(** When quotas are tokens, the amounts on the lines for a Claude model add up to the total the
    last line shows: every token of the cache is charged once, whether its creation is split
    into five minutes and one hour or not. *)
Theorem claude_article_adds_up (u : claude_usage) :
  claude_nonneg u -> minus_one (cl_modelPrice u) = true -> adds_up (renderClaudeModelPrice true u).
Proof.
  intros N P. unfold renderClaudeModelPrice, shouldUseRatioBillingProcess. destruct (cl_group u) as [g label].
  cbv zeta. rewrite P. cbn [andb negb]. exists (cl_total kfix u). rewrite app_assoc, total_app, body_app. split; [apply money_total_line|].
  rewrite sum_amounts_app, cl_lines_sum by done.
  assert (Z : (sum_amounts (cl_headings u) == 0)%Q); [|rewrite Z; ring].
  unfold cl_headings. destruct (cl_group u) as [g' label'], (hasSplitCacheCreation u); cbn [sum_amounts];
    rewrite !amount_none by (vm_compute; reflexivity); ring.
Qed.

Definition sample_claude : claude_usage :=
  ClaudeUsage (1200#1) (300#1) (3#2) (-1#1) (5#1) (1#1) (Some (1#2)) (400#1) (1#10) (500#1) (5#4) (200#1) (5#4) (300#1) (2#1).

Lemma claude_article_adds_up_witness : adds_up (renderClaudeModelPrice true sample_claude).
Proof. apply claude_article_adds_up; [repeat split; vm_compute; discriminate|vm_compute; reflexivity]. Defined.

(** ** Models with audio *)

Lemma au_lines_sum (u : audio_usage (K := Q)) :
  (0 <= au_cache u)%Q -> (au_cache u <= au_input u)%Q -> (sum_amounts (au_ratio_lines u) == au_textPrice kfix u + au_audioPrice kfix u)%Q.
Proof.
  intros N C. unfold au_ratio_lines, au_text_lines, au_audio_lines, au_textPrice, au_audioPrice, au_price, per_million.
  destruct (au_group u) as [g label]. cbv zeta. cbn [fst]. lines_sum.
  assert (M : (kmax0 (au_input u - au_cache u) == au_input u - au_cache u)%Q) by (apply kmax0_nonneg; lra).
  cbn [kmul kadd ksub kdiv kz Q_arith] in *. rewrite !M. destruct (pos (au_cache u)) eqn:E; settle.
Qed.

(** The same for a model with audio, whose last line shows the text and the audio apart. *)
Theorem audio_article_adds_up (u : audio_usage) :
  (0 <= au_cache u)%Q -> (au_cache u <= au_input u)%Q -> minus_one (au_modelPrice u) = true -> adds_up (renderAudioModelPrice true u).
Proof.
  intros N C P. unfold renderAudioModelPrice, shouldUseRatioBillingProcess. destruct (au_group u) as [g label].
  cbv zeta. rewrite P. cbn [andb negb]. exists (au_textPrice kfix u + au_audioPrice kfix u)%Q.
  rewrite app_comm_cons, total_app, body_app. split; [reflexivity|]. cbn [sum_amounts]. rewrite au_lines_sum by done.
  assert (Z : amount_in (au_heading u) = 0%Q); [|rewrite Z; ring].
  unfold au_heading. destruct (au_group u) as [g' label']. apply amount_none. destruct (pos (au_cache u)); vm_compute; reflexivity.
Qed.

Lemma audio_article_adds_up_witness :
  adds_up (renderAudioModelPrice true (AudioUsage (900#1) (200#1) (5#4) (-1#1) (4#1) (150#1) (80#1) (16#1) (2#1) (1#1) None (300#1) (1#2))).
Proof. apply audio_article_adds_up; [vm_compute; discriminate..|vm_compute; reflexivity]. Defined.

(** ** Models of the OpenAI kind *)

(** A tool that is not switched on has no calls. *)
Definition tool_ok (on : bool) (n : Q) : Prop := (0 <= n)%Q /\ (on = true \/ (n == 0)%Q).

Record usage_ok (u : usage (K := Q)) : Prop := {
  ok_cache : (0 <= cacheTokens u)%Q;
  ok_audio : (0 <= audioInputTokens u)%Q;
  ok_input : (cacheTokens u + audioInputTokens u <= inputTokens u)%Q;
  ok_price : audioInputSeperatePrice u = true /\ (0 < audioInputPrice u)%Q \/ (audioInputTokens u == 0)%Q;
  ok_web : tool_ok (webSearch u) (webSearchCallCount u);
  ok_file : tool_ok (fileSearch u) (fileSearchCallCount u);
  ok_generation : tool_ok (imageGenerationCall u) (imageGenerationCallPrice u)
}.

Lemma tool_amount on n (a : Q) : tool_ok on n -> (n == 0 -> a == 0)%Q -> ((if on && pos n then a else 0) == a)%Q.
Proof.
  intros [N [->|Z]] A; cbn [andb].
  - destruct (pos n) eqn:E; [reflexivity|]. symmetry. apply A. by apply pos_zero.
  - specialize (A Z). destruct (on && pos n); [reflexivity|by symmetry].
Qed.

(** An optional amount is there, or it is zero. *)
Lemma pos_amount (n a : Q) : (0 <= n)%Q -> (n == 0 -> a == 0)%Q -> ((if pos n then a else 0) == a)%Q.
Proof. intros N A. destruct (pos n) eqn:E; [reflexivity|]. symmetry. apply A. by apply pos_zero. Qed.

Lemma textInput_nonneg u : (0 <= textInputTokens (K := Q) u)%Q.
Proof.
  unfold textInputTokens. cbn. pose proof (posP (inputTokens u - cacheTokens u - audioInputTokens u)) as P. unfold pos in P. cbn in P.
  change (inject_Z 0) with 0%Q in P. destruct (Qltb 0 _); lra.
Qed.

Lemma imageInput_nonneg u : (0 <= imageInputTokens (K := Q) u)%Q.
Proof.
  unfold imageInputTokens, has_image. pose proof (posP (imageOutputTokens u)) as P.
  change (kz 0) with 0%Q. destruct (image u), (pos (imageOutputTokens u)); cbn [andb]; lra.
Qed.

Lemma pos_true (q : Q) : (0 < q)%Q -> pos q = true.
Proof. intros H. pose proof (posP q). destruct (pos q); [done|lra]. Qed.

(** The line for audio: there are tokens and they have a price. *)
Lemma audio_lines_sum u f :
  usage_ok u -> (forall r, amount_in (f r) = audioInputAmount u) ->
  (sum_amounts (if pos (audioInputTokens u) then match audioRatioValue u with Some r => [f r] | None => [] end else []) == audioInputAmount u)%Q.
Proof.
  intros O A. destruct (ok_price u O) as [[S P]|Z].
  - unfold audioRatioValue. rewrite S, (pos_true _ P). cbn [andb].
    destruct (pos (audioInputTokens u)) eqn:E; cbn [sum_amounts]; [rewrite A; ring|].
    apply pos_zero in E; [|apply O]. unfold audioInputAmount, per_million. cbn. rewrite E. field.
  - assert (Y : (audioInputAmount u == 0)%Q) by (unfold audioInputAmount, per_million; cbn; rewrite Z; field).
    destruct (pos _), (audioRatioValue u); cbn [sum_amounts]; rewrite ?A, ?Y; ring.
Qed.

Lemma ratio_lines_sum u : usage_ok u -> (sum_amounts (ratio_lines u) == ratio_total u)%Q.
Proof.
  intros O. unfold ratio_lines, ratio_total. destruct (group_of u) as [g label] eqn:G. cbv zeta.
  rewrite !sum_amounts_app. rewrite (audio_lines_sum u _ O) by (intros r; apply amount_line_in; vm_compute; reflexivity).
  lines_sum. unfold web_shown, file_shown, generation_shown.
  rewrite (pos_amount (textInputTokens u)), (pos_amount (cacheTokens u)), (pos_amount (imageInputTokens u)).
  rewrite (tool_amount _ _ _ (ok_web u O)), (tool_amount _ _ _ (ok_file u O)), (tool_amount _ _ _ (ok_generation u O)).
  - cbn [kadd Q_arith]. ring.
  - intros Z. unfold imageGenerationAmount. cbn. rewrite Z. ring.
  - intros Z. unfold fileSearchAmount, per_thousand. cbn. rewrite Z. field.
  - intros Z. unfold webSearchAmount, per_thousand. cbn. rewrite Z. field.
  - apply imageInput_nonneg.
  - intros Z. unfold imageInputAmount, per_million. cbn [kmul kdiv kz Q_arith]. rewrite Z. field.
  - apply O.
  - intros Z. unfold cacheInputAmount, per_million. cbn. rewrite Z. field.
  - apply textInput_nonneg.
  - intros Z. unfold textInputAmount, per_million. cbn [kmul kdiv kz Q_arith]. rewrite Z. field.
Qed.

(** When quotas are tokens, the amounts on the lines of an OpenAI model add up to the total the
    last line shows, image tokens included. *)
Theorem model_article_adds_up (u : usage) :
  usage_ok u -> minus_one (modelPrice u) = true -> adds_up (renderModelPrice true u).
Proof.
  intros O P. unfold renderModelPrice, shouldUseRatioBillingProcess. destruct (group_of u) as [g label].
  cbv zeta. rewrite P. cbn [andb negb]. exists (ratio_total u).
  rewrite app_comm_cons, total_app, body_app. split; [apply money_total_line|]. cbn [sum_amounts]. rewrite ratio_lines_sum by done.
  assert (Z : amount_in (ratio_heading u) = 0%Q); [|rewrite Z; ring].
  unfold ratio_heading. destruct (group_of u) as [g' label']. apply amount_none. vm_compute; reflexivity.
Qed.

(** ** Prices and ratios *)

Lemma price_shown u : minus_one (modelPrice u) = true -> shown_total (renderModelPrice false u) = Some (price_total u).
Proof.
  intros P. unfold renderModelPrice, shouldUseRatioBillingProcess. destruct (group_of u) as [g label]. cbv zeta. rewrite P. cbn [andb negb].
  unfold price_lines. rewrite !app_assoc, total_app. reflexivity.
Qed.

Lemma ratio_shown u : minus_one (modelPrice u) = true -> shown_total (renderModelPrice true u) = Some (ratio_total u).
Proof.
  intros P. unfold renderModelPrice, shouldUseRatioBillingProcess. destruct (group_of u) as [g label]. cbv zeta. rewrite P. cbn [andb negb].
  rewrite app_comm_cons, total_app. apply money_total_line.
Qed.

(** *** The rounding of a ratio *)

(** A number with at most six decimals. *)
Definition decimals6 (q : Q) : Prop := exists n : Z, (q == Qmake n 1000000)%Q.

Lemma round6_bounds (x : Q) : (x - (1#2000000) < round6 x /\ round6 x <= x + (1#2000000))%Q.
Proof.
  unfold round6. pose proof (Qfloor_le (x * 1000000 + (1#2))) as L. pose proof (Qlt_floor (x * 1000000 + (1#2))) as U.
  rewrite inject_Z_plus in U. rewrite (Qmake_Qdiv _ 1000000). revert L U. generalize (inject_Z (Qfloor (x * 1000000 + (1#2)))); intros n L U.
  change (inject_Z 1) with 1%Q in U. change (inject_Z (Zpos 1000000)) with 1000000%Q.
  assert (E : (n / 1000000 == n * (1#1000000))%Q) by field. rewrite E. split; lra.
Qed.

Lemma Qfix_error (x : Q) : (Qabs (Qfix x - x) <= 1#2000000)%Q.
Proof.
  apply Qabs_Qle_condition. unfold Qfix. pose proof (round6_bounds x) as [A1 A2]. pose proof (round6_bounds (- x)) as [B1 B2].
  destruct (_ || _); [lra|]. destruct (Qltb x 0); lra.
Qed.

Lemma round6_decimals n : (round6 (Qmake n 1000000) == Qmake n 1000000)%Q.
Proof.
  unfold round6. assert (E : (Qmake n 1000000 * 1000000 + (1#2) == inject_Z n + (1#2))%Q) by (rewrite (Qmake_Qdiv n 1000000); field).
  rewrite (Qfloor_comp _ _ E).
  assert (F : Qfloor (inject_Z n + (1#2)) = n); [|by rewrite F].
  pose proof (Qfloor_le (inject_Z n + (1#2))) as L. pose proof (Qlt_floor (inject_Z n + (1#2))) as U.
  set (m := Qfloor _) in *. assert (A : (inject_Z m < inject_Z (n + 1))%Q) by (rewrite inject_Z_plus; change (inject_Z 1) with 1%Q; lra).
  assert (B : (inject_Z n < inject_Z (m + 1))%Q) by lra. rewrite <- Zlt_Qlt in A, B. lia.
Qed.

Lemma round6_comp x y : (x == y)%Q -> (round6 x == round6 y)%Q.
Proof. intros E. unfold round6. assert (F : (x * 1000000 + (1#2) == y * 1000000 + (1#2))%Q) by (rewrite E; reflexivity). by rewrite (Qfloor_comp _ _ F). Qed.

Lemma Qfix_decimals x : decimals6 x -> (Qfix x == x)%Q.
Proof.
  intros [n E]. unfold Qfix. destruct (_ || _); [reflexivity|]. destruct (Qltb x 0).
  - rewrite (round6_comp (- x) (Qmake (- n) 1000000)); [|rewrite E; reflexivity]. rewrite round6_decimals, E. unfold Qeq. cbn. lia.
  - rewrite (round6_comp x _ E), round6_decimals, E. reflexivity.
Qed.

(** What the totals with prices and with ratios differ by: the ratios that are rounded before
    they are used, and with image tokens [image_excess]: the image tokens are charged once more
    and the discount of the cache is lost on the price side. *)
Definition rounding (u : usage (K := Q)) : Q :=
  (per_million (cacheTokens u * (Qfix (cacheRatio u) - cacheRatio u)
                + imageInputTokens u * (Qfix (imageRatio u) - imageRatio u)
                + completionTokens u * (Qfix (completionRatio u) - completionRatio u)) * inputRatioPrice u * (group_of u).1)%Q.
Definition image_excess (u : usage (K := Q)) : Q :=
  if has_image u then (per_million (imageOutputTokens u - cacheTokens u * (1 - cacheRatio u)) * inputRatioPrice u * (group_of u).1)%Q else 0%Q.

Lemma totals_differ u :
  (0 <= audioInputTokens u)%Q -> (cacheTokens u + audioInputTokens u <= inputTokens u)%Q ->
  (ratio_total u == price_total u + image_excess u + rounding u)%Q.
Proof.
  intros A C. unfold ratio_total, price_total, image_excess, rounding, textInputAmount, cacheInputAmount, imageInputAmount, audioInputAmount,
    completionAmount, webSearchAmount, fileSearchAmount, imageGenerationAmount, inputRatioPrice, imageInputTokens, effectiveInputTokens,
    textInputTokens, per_million, per_thousand.
  assert (M : (kmax0 (inputTokens u - cacheTokens u - audioInputTokens u) == inputTokens u - cacheTokens u - audioInputTokens u)%Q)
    by (apply kmax0_nonneg; lra).
  change (@kfix Q Q_arith) with Qfix. generalize (Qfix (cacheRatio u)) (Qfix (imageRatio u)) (Qfix (completionRatio u)). intros fc fi fr.
  cbv zeta. cbn [kmul kadd ksub kdiv kz Q_arith] in *. rewrite M. generalize ((group_of u).1); intros g. generalize (has_image u); intros b.
  destruct b, (pos (audioInputTokens u)) eqn:E; settle.
Qed.

(** The two totals the article shows. *)
Lemma totals_shown u :
  (0 <= audioInputTokens u)%Q -> (cacheTokens u + audioInputTokens u <= inputTokens u)%Q -> minus_one (modelPrice u) = true ->
  exists x y, shown_total (renderModelPrice false u) = Some x /\ shown_total (renderModelPrice true u) = Some y /\
    (y - x == image_excess u + rounding u)%Q.
Proof.
  intros A C P. exists (price_total u), (ratio_total u). rewrite price_shown, ratio_shown by done. repeat split.
  rewrite (totals_differ u A C). ring.
Qed.

Lemma rounding_none u : decimals6 (cacheRatio u) -> decimals6 (imageRatio u) -> decimals6 (completionRatio u) -> (rounding u == 0)%Q.
Proof.
  intros H1%Qfix_decimals H2%Qfix_decimals H3%Qfix_decimals. unfold rounding, per_million. cbn [kmul kadd ksub kdiv kz Q_arith].
  rewrite H1, H2, H3. field.
Qed.

Lemma rounding_bound u :
  has_image u = false ->
  (Qabs (rounding u) <= (Qabs (cacheTokens u) + Qabs (completionTokens u)) * Qabs (inputRatioPrice u * (group_of u).1) * (1#2000000000000))%Q.
Proof.
  intros I. set (p := (inputRatioPrice u * (group_of u).1)%Q).
  set (s := (cacheTokens u * (Qfix (cacheRatio u) - cacheRatio u) + completionTokens u * (Qfix (completionRatio u) - completionRatio u))%Q).
  assert (E : (rounding u == s * p * (1#1000000))%Q).
  { unfold rounding, per_million, imageInputTokens, s, p. rewrite I. cbn [kmul kadd ksub kdiv kz Q_arith]. change (inject_Z 0) with 0%Q.
    change (inject_Z 1000000) with 1000000%Q. generalize (Qfix (cacheRatio u)) (Qfix (imageRatio u)) (Qfix (completionRatio u)). intros. field. }
  assert (T : forall n d, (Qabs d <= 1#2000000 -> Qabs (n * d) <= Qabs n * (1#2000000))%Q).
  { intros n d D. rewrite Qabs_Qmult. rewrite (Qmult_comm (Qabs n)), (Qmult_comm (Qabs n)). apply Qmult_le_compat_r; [done|apply Qabs_nonneg]. }
  assert (S : (Qabs s <= (Qabs (cacheTokens u) + Qabs (completionTokens u)) * (1#2000000))%Q).
  { unfold s. eapply Qle_trans; [apply Qabs_triangle|].
    pose proof (T (cacheTokens u) _ (Qfix_error (cacheRatio u))). pose proof (T (completionTokens u) _ (Qfix_error (completionRatio u))). lra. }
  rewrite E, !Qabs_Qmult. change (Qabs (1#1000000)) with (1#1000000)%Q.
  assert (S' : (Qabs s * Qabs p <= (Qabs (cacheTokens u) + Qabs (completionTokens u)) * (1#2000000) * Qabs p)%Q)
    by (apply Qmult_le_compat_r; [exact S|apply Qabs_nonneg]).
  lra.
Qed.

(** C24: in exact arithmetic, and when the tokens of the cache and of audio are part of the
    input, the total of a request without image tokens is the same whether prices or ratios
    are shown, but for the rounding of the two ratios the ratio form rounds to six decimals:
    the totals differ by at most half a millionth of what the cached and generated tokens cost
    at the plain input price, and not at all when both ratios have at most six decimals. *)
Theorem price_and_ratio_agree (u : usage) :
  (0 <= audioInputTokens u)%Q -> (cacheTokens u + audioInputTokens u <= inputTokens u)%Q ->
  minus_one (modelPrice u) = true -> has_image u = false ->
  exists x y, shown_total (renderModelPrice false u) = Some x /\ shown_total (renderModelPrice true u) = Some y /\
    (Qabs (y - x) <= (Qabs (cacheTokens u) + Qabs (completionTokens u)) * Qabs (inputRatioPrice u * (group_of u).1) * (1#2000000000000))%Q /\
    (decimals6 (cacheRatio u) -> decimals6 (completionRatio u) -> (x == y)%Q).
Proof.
  intros A C P I. destruct (totals_shown u A C P) as (x & y & X & Y & D). exists x, y. split; [done|]. split; [done|].
  assert (Z : (image_excess u == 0)%Q) by (unfold image_excess; rewrite I; reflexivity). rewrite Z, Qplus_0_l in D. split.
  - rewrite D. by apply rounding_bound.
  - intros H1%Qfix_decimals H2%Qfix_decimals. assert (R : (rounding u == 0)%Q); [|rewrite R in D; lra].
    unfold rounding, per_million, imageInputTokens. rewrite I. cbn [kmul kadd ksub kdiv kz Q_arith]. rewrite H1, H2. field.
Qed.

(** C25: in exact arithmetic, when the tokens of the cache and of audio are part of the input
    and the ratios have at most six decimals, a request with image tokens has two totals: the
    total with ratios counts the image tokens in the plain input and again with their own
    ratio, while the total with prices takes them out of the input and charges the tokens of
    the cache in full.  The theorem gives the difference. *)
Theorem image_tokens_counted_twice (u : usage) :
  (0 <= audioInputTokens u)%Q -> (cacheTokens u + audioInputTokens u <= inputTokens u)%Q -> minus_one (modelPrice u) = true ->
  has_image u = true -> decimals6 (cacheRatio u) -> decimals6 (imageRatio u) -> decimals6 (completionRatio u) ->
  exists x y, shown_total (renderModelPrice false u) = Some x /\ shown_total (renderModelPrice true u) = Some y /\
    (y - x == per_million (imageOutputTokens u - cacheTokens u * (1 - cacheRatio u)) * inputRatioPrice u * (group_of u).1)%Q.
Proof.
  intros A C P I D1 D2 D3. destruct (totals_shown u A C P) as (x & y & X & Y & D). exists x, y. split; [done|]. split; [done|].
  rewrite D, (rounding_none u D1 D2 D3). unfold image_excess. rewrite I. ring.
Qed.

(** ** Witnesses *)

Definition sample_usage (img : bool) : usage :=
  Usage (1000#1) (200#1) (5#4) (-1#1) (4#1) (1#1) None (300#1) (1#2) img (2#1) (100#1)
    true (2#1) (10#1) true (1#1) (5#2) true (50#1) (3#1) true (1#100).

Lemma sample_ok img : usage_ok (sample_usage img).
Proof. split; cbn; try (repeat split; vm_compute; discriminate); try (left; split; [done|vm_compute; reflexivity]); (split; [vm_compute; discriminate|by left]). Qed.

Lemma model_article_adds_up_witness : adds_up (renderModelPrice true (sample_usage true)).
Proof. apply model_article_adds_up; [apply sample_ok|vm_compute; reflexivity]. Defined.

Lemma price_and_ratio_agree_witness :
  exists x y, shown_total (renderModelPrice false (sample_usage false)) = Some x /\ shown_total (renderModelPrice true (sample_usage false)) = Some y /\
    (x == y)%Q.
Proof.
  destruct (price_and_ratio_agree (sample_usage false)) as (x & y & X & Y & _ & E);
    [vm_compute; discriminate|vm_compute; discriminate|vm_compute; reflexivity|vm_compute; reflexivity|].
  exists x, y. split; [exact X|]. split; [exact Y|]. apply E; [exists 500000|exists 4000000]; vm_compute; reflexivity.
Defined.

Lemma image_tokens_counted_twice_witness :
  exists x y, shown_total (renderModelPrice false (sample_usage true)) = Some x /\ shown_total (renderModelPrice true (sample_usage true)) = Some y /\
    (y - x == per_million (imageOutputTokens (sample_usage true) - cacheTokens (sample_usage true) * (1 - cacheRatio (sample_usage true)))
               * inputRatioPrice (sample_usage true) * (group_of (sample_usage true)).1)%Q.
Proof.
  apply image_tokens_counted_twice; [vm_compute; discriminate..|vm_compute; reflexivity|vm_compute; reflexivity| | |];
    [exists 500000|exists 2000000|exists 4000000]; vm_compute; reflexivity.
Defined.

(** The same request with the program's own numbers: 1000 tokens of input, 100 of them of an
    image, at a ratio of 1.25. *)
Definition sample_doubles : usage (K := num) :=
  Usage (of_Z 1000) (of_Z 200) (ndiv (of_Z 5) (of_Z 4)) (of_Z (-1)) (of_Z 4) n1 None n0 (ndiv n1 (of_Z 2)) true (of_Z 2) (of_Z 100)
    false n0 n0 false n0 n0 false n0 n0 false n0.

Example image_tokens_doubles :
  (toFixed (price_total sample_doubles) 6, toFixed (ratio_total sample_doubles) 6) = ($"0.004750", $"0.005000").
Proof. vm_compute. reflexivity. Qed.

(** ** Quotas *)

(** The value a quota is shown with, in the currency in use. *)
Definition quota_value (st : storage) (quota : num) : num :=
  let usd := ndiv quota (quota_per_unit st) in
  if (quota_type st =s? $"CNY") || (quota_type st =s? $"CUSTOM") then nmul usd (quota_currency st).1 else usd.

Lemma smallest_nonzero : forallb (fun d => negb (neqb (parseFloat (smallest (Z.of_nat d))) n0)) (seq 0 21) = true.
Proof. vm_compute. reflexivity. Qed.

(** A positive quota is never shown as zero: when rounding would do so, the smallest amount
    with that many digits is shown. *)
Theorem positive_quota_not_zero (st : storage) (quota : num) (digits : nat) :
  (digits <= 20)%nat -> (quota_type st =s? $"TOKENS") = false -> nltb n0 quota = true -> nltb n0 (quota_value st quota) = true ->
  exists shown, renderQuota st quota (Z.of_nat digits) = (quota_currency st).2 ++ shown /\ neqb (parseFloat shown) n0 = false.
Proof.
  intros D T Q V. unfold renderQuota, quota_value in *. rewrite T. destruct (quota_currency st) as [r symbol]. cbv zeta in *. cbn [fst snd] in *.
  rewrite Q, V, !andb_true_r.
  destruct (neqb (parseFloat (toFixed _ _)) n0) eqn:E; [|by eexists].
  exists (smallest (Z.of_nat digits)). split; [done|]. apply negb_true_iff.
  pose proof (proj1 (forallb_forall _ _) smallest_nonzero digits) as S. apply S, in_seq. lia.
Qed.

(** The rate of the yuan when the server gave none: prices are multiplied by 7, quotas are
    not. *)
Theorem cny_rates_differ (st : storage) (text : jsstr) (s : val) :
  (quota_type st =s? $"CNY") = true -> stored $"status" st = Some text -> parse text = Some s -> truthy (get_any s $"usd_exchange_rate") = false ->
  rate_of st = of_Z 7 /\ (quota_currency st).1 = n1.
Proof.
  intros C S P T. unfold rate_of, getCurrencyConfig, quota_currency. fold (quota_type st). rewrite C. cbn [rate fst]. unfold status_field.
  rewrite S, P, T. split; reflexivity.
Qed.

Definition cny_store : storage := [($"quota_display_type", $"CNY"); ($"status", $"{}"); ($"quota_per_unit", $"500000")].

Lemma positive_quota_not_zero_witness :
  exists shown, renderQuota cny_store (of_Z 3) 2 = (quota_currency cny_store).2 ++ shown /\ neqb (parseFloat shown) n0 = false.
Proof. apply (positive_quota_not_zero cny_store (of_Z 3) 2); [lia|vm_compute; reflexivity..]. Defined.

Lemma cny_rates_differ_witness : rate_of cny_store = of_Z 7 /\ (quota_currency cny_store).1 = n1.
Proof. apply (cny_rates_differ cny_store $"{}" (VObj [])); vm_compute; reflexivity. Defined.

End BillingProofs.
