(* ===== verification/Columns.v ===== *)
(** * Columns of the tables

    [hooks/usage-logs/useUsageLogsData.jsx], [hooks/mj-logs/useMjLogsData.js],
    [hooks/task-logs/useTaskLogsData.js], [hooks/channels/useChannelsData.jsx] and the selectors
    of columns of the four tables: which columns are shown, how the choice is kept in the local
    storage, and what a user who is no administrator can choose.  The tables share the class
    [ColumnTable]; the theorems are about every table that keeps its laws. *)
From S2P Require Import Prelude JSNum JSValue Json FormValues ClientHelpers.
#[local] Open Scope Z_scope.
#[local] Arguments js _ : simpl never.

Module Columns.
Import FormValues ClientHelpers.

(** ** The interface of a table *)

Class ColumnTable := {
  COLUMN_KEYS : list jsstr;
  admin_only : list jsstr;        (** columns for administrators *)
  STORAGE_KEY : bool -> jsstr;    (** of administrators and of others *)
  selector_skips : list jsstr;    (** columns the selector does not offer to others *)
  eager : bool;                   (** the choice is read for the first state, not by an effect *)
  writes_defaults : bool          (** [initDefaultColumns] writes to the storage itself *)
}.

(** What the theorems use of a table. *)
Class TableLaws (T : ColumnTable) := {
  keys_plain : plain_keys COLUMN_KEYS = true;
  admin_listed : forallb (fun k => memk k COLUMN_KEYS) admin_only = true;
  some_key : COLUMN_KEYS <> []
}.

(** The selector offers no column for administrators to others. *)
Class SelectorGuards (T : ColumnTable) := { admin_skipped : forallb (fun k => memk k selector_skips) admin_only = true }.

(** Administrators and others keep their choices apart. *)
Class RolesApart (T : ColumnTable) := { keys_differ : STORAGE_KEY true <> STORAGE_KEY false }.

(** ** Operations *)

Record cols := Cols { visible : object; store : storage }.

Section Table.
Context {T : ColumnTable} (isAdminUser : bool).

Definition getDefaultColumnVisibility : object := map (fun k => (k, VBool (if memk k admin_only then isAdminUser else true))) COLUMN_KEYS.

(** [{...defaults, ...parsed}], without the columns for administrators for others. *)
Definition merged (parsed : val) : object :=
  let m := prop_assign getDefaultColumnVisibility (entries parsed) in
  if isAdminUser then m else fold_left (fun o k => prop_set k (VBool false) o) admin_only m.

(** The stored choice: none when there is no text or it is malformed. *)
Definition loaded (st : storage) : option object :=
  match stored (STORAGE_KEY isAdminUser) st with Some text => option_map merged (parse text) | None => None end.

Definition getInitialVisibleColumns (st : storage) : object := default getDefaultColumnVisibility (loaded st).

Definition save (v : object) (st : storage) : storage := setItem (STORAGE_KEY isAdminUser) (json (VObj v)) st.

(** The effect of a change of the columns. *)
Definition persist (c : cols) : cols :=
  match visible c with [] => c | _ => Cols (visible c) (save (visible c) (store c)) end.

Definition initDefaultColumns (c : cols) : cols :=
  Cols getDefaultColumnVisibility (if writes_defaults then save getDefaultColumnVisibility (store c) else store c).

(** The first render and its effects; without [eager] the columns are empty until the effect
    that loads them, and only the next render is saved. *)
Definition mount (st : storage) : cols :=
  persist
    (if eager then Cols (getInitialVisibleColumns st) st
     else match loaded st with Some v => Cols v st | None => initDefaultColumns (Cols [] st) end).

Definition handleColumnVisibilityChange (columnKey : jsstr) (checked : bool) (c : cols) : cols :=
  persist (Cols (prop_set columnKey (VBool checked) (visible c)) (store c)).

Definition all_columns (checked : bool) : object :=
  fold_left (fun o k => prop_set k (VBool (if memk k admin_only && negb isAdminUser then false else checked)) o) COLUMN_KEYS [].

Definition handleSelectAll (checked : bool) (c : cols) : cols := persist (Cols (all_columns checked) (store c)).

Definition handleReset (c : cols) : cols := persist (initDefaultColumns c).

(** ** The selector and the table *)

(** The boxes of the selector. *)
Definition offered (k : jsstr) : bool := memk k COLUMN_KEYS && (isAdminUser || negb (memk k selector_skips)).

(** The state of the box for all columns: [Object.values(visibleColumns).every((v) => v === true)]. *)
Definition all_checked (c : cols) : bool := forallb (fun kv => is_true kv.2) (visible c).

(** The columns the table shows. *)
Definition getVisibleColumns (c : cols) : list jsstr := List.filter (fun k => truthy (fld k (visible c))) COLUMN_KEYS.

(** What the user does, and other pages that write to the same storage. *)
Inductive col_step : cols -> cols -> Prop :=
| do_tick c k b : offered k = true -> col_step c (handleColumnVisibilityChange k b c)
| do_all c b : col_step c (handleSelectAll b c)
| do_reset c : col_step c (handleReset c)
| do_reload c : col_step c (mount (store c)).

Inductive reach : cols -> Prop :=
| reach_mount st : reach (mount st)
| reach_step c c' : reach c -> col_step c c' -> reach c'
| reach_foreign c st : reach c -> reach (Cols (visible c) st).

(** The states of one page that starts without a stored choice, alone with its storage. *)
Inductive alone : cols -> Prop :=
| alone_mount st : stored (STORAGE_KEY isAdminUser) st = None -> alone (mount st)
| alone_step c c' : alone c -> col_step c c' -> alone c'.

End Table.

(** ** The four tables *)

Definition USAGE_KEYS : list jsstr :=
  [$"time"; $"channel"; $"username"; $"token"; $"group"; $"type"; $"model"; $"use_time"; $"prompt"; $"completion"; $"cost"; $"retry"; $"ip"; $"details"].
Definition MJ_KEYS : list jsstr :=
  [$"submit_time"; $"duration"; $"channel"; $"type"; $"task_id"; $"submit_result"; $"task_status"; $"progress"; $"image"; $"prompt"; $"prompt_en"; $"fail_reason"].
Definition TASK_KEYS : list jsstr :=
  [$"submit_time"; $"finish_time"; $"duration"; $"channel"; $"username"; $"platform"; $"type"; $"task_id"; $"task_status"; $"progress"; $"fail_reason"; $"result_url"].
Definition CHANNEL_KEYS : list jsstr :=
  [$"id"; $"name"; $"group"; $"type"; $"status"; $"response_time"; $"balance"; $"priority"; $"weight"; $"operate"].

Definition usage_table : ColumnTable := {|
  COLUMN_KEYS := USAGE_KEYS; admin_only := [$"channel"; $"username"; $"retry"];
  STORAGE_KEY a := if a then $"logs-table-columns-admin" else $"logs-table-columns-user";
  selector_skips := [$"channel"; $"username"; $"retry"]; eager := true; writes_defaults := true |}.
Definition mj_table : ColumnTable := {|
  COLUMN_KEYS := MJ_KEYS; admin_only := [$"channel"; $"submit_result"];
  STORAGE_KEY a := if a then $"mj-logs-table-columns-admin" else $"mj-logs-table-columns-user";
  selector_skips := [$"channel"; $"submit_result"]; eager := false; writes_defaults := true |}.
Definition task_table : ColumnTable := {|
  COLUMN_KEYS := TASK_KEYS; admin_only := [$"channel"; $"username"];
  STORAGE_KEY a := if a then $"task-logs-table-columns-admin" else $"task-logs-table-columns-user";
  selector_skips := [$"channel"]; eager := false; writes_defaults := true |}.
Definition channel_table : ColumnTable := {|
  COLUMN_KEYS := CHANNEL_KEYS; admin_only := []; STORAGE_KEY _ := $"channels-table-columns";
  selector_skips := []; eager := false; writes_defaults := false |}.

#[export] Instance usage_laws : TableLaws usage_table.
Proof. split; [vm_compute; reflexivity..|discriminate]. Qed.
#[export] Instance mj_laws : TableLaws mj_table.
Proof. split; [vm_compute; reflexivity..|discriminate]. Qed.
#[export] Instance task_laws : TableLaws task_table.
Proof. split; [vm_compute; reflexivity..|discriminate]. Qed.
#[export] Instance channel_laws : TableLaws channel_table.
Proof. split; [vm_compute; reflexivity..|discriminate]. Qed.

#[export] Instance usage_guards : SelectorGuards usage_table.
Proof. split; vm_compute; reflexivity. Qed.
#[export] Instance mj_guards : SelectorGuards mj_table.
Proof. split; vm_compute; reflexivity. Qed.
#[export] Instance channel_guards : SelectorGuards channel_table.
Proof. split; vm_compute; reflexivity. Qed.

#[export] Instance usage_apart : RolesApart usage_table.
Proof. split. intros E. vm_compute in E. discriminate. Qed.
#[export] Instance mj_apart : RolesApart mj_table.
Proof. split. intros E. vm_compute in E. discriminate. Qed.
#[export] Instance task_apart : RolesApart task_table.
Proof. split. intros E. vm_compute in E. discriminate. Qed.

(** ** Lemmas on property lists *)

Lemma set_existing_keys k (v : val) o : k ∈ keys o -> keys (prop_set k v o) = keys o.
Proof.
  intros H%prop_Some_keys. unfold prop_set, has_prop. destruct H as [x ->]. apply prop_replace_keys.
Qed.

Lemma assign_existing_keys (l o : object) : Forall (fun kv => kv.1 ∈ keys o) l -> keys (prop_assign o l) = keys o.
Proof.
  revert o. induction l as [|[k v] l IH]; intros o H; [done|]. apply Forall_cons in H as [H1 H2]. cbn [fst] in H1.
  change (prop_assign o ((k, v) :: l)) with (prop_assign (prop_set k v o) l).
  rewrite IH; rewrite set_existing_keys by done; done.
Qed.

Lemma props_ext (a b : object) : NoDup (keys a) -> keys a = keys b -> (forall k, prop k a = prop k b) -> a = b.
Proof.
  revert b. induction a as [|[k v] a IH]; intros [|[k' v'] b] N E P; try done. unfold keys in E. cbn [map fst] in E. injection E as -> E.
  unfold keys in N. cbn [map fst] in N. apply NoDup_cons in N as [Nk N].
  pose proof (P k') as Pk. cbn in Pk. rewrite str_eqb_refl in Pk. injection Pk as ->. f_equal.
  apply IH; [done..|]. intros x. destruct (decide (x = k')) as [Ex|Ex].
  - rewrite Ex, !(proj2 (prop_None k' _)); [done| |done]. unfold keys. by rewrite <- E.
  - specialize (P x). cbn in P. destruct (str_eqb_spec x k'); done.
Qed.

Lemma set_bools k b (o : object) : Forall (fun kv => exists b, kv.2 = VBool b) o -> Forall (fun kv => exists b, kv.2 = VBool b) (prop_set k (VBool b) o).
Proof. intros H. apply prop_set_Forall; [by exists b|done]. Qed.

(** ** Lemmas on a table *)

Section Laws.
Context {T : ColumnTable} {L : TableLaws T}.

Lemma keys_nodup : NoDup COLUMN_KEYS.
Proof. pose proof keys_plain as H. apply andb_true_iff in H as [H _]. by apply bool_decide_eq_true_1 in H. Qed.

Lemma defaults_keys a : keys (getDefaultColumnVisibility a) = COLUMN_KEYS.
Proof. unfold getDefaultColumnVisibility, keys. rewrite map_map. apply map_id. Qed.

Lemma fold_keys f ks (o : object) : ks ⊆ keys o -> keys (fold_left (fun o k => prop_set k (VBool (f k)) o) ks o) = keys o.
Proof.
  revert o. induction ks as [|k ks IH]; intros o H; cbn [fold_left]; [done|].
  assert (Hk : k ∈ keys o) by (apply H; left). rewrite IH; rewrite set_existing_keys by done; [done|]. intros x Hx. apply H. by right.
Qed.

Lemma fold_all_keys (f : jsstr -> bool) : keys (fold_left (fun (o : object) k => prop_set k (VBool (f k)) o) COLUMN_KEYS []) = COLUMN_KEYS.
Proof.
  assert (H : forall pre l, COLUMN_KEYS = pre ++ l ->
    forall o : object, keys o = pre -> keys (fold_left (fun o k => prop_set k (VBool (f k)) o) l o) = pre ++ l); [|by apply (H [] COLUMN_KEYS)].
  pose proof keys_nodup as N. pose proof keys_plain as P. apply andb_true_iff in P as [_ P]. rewrite forallb_forall in P.
  intros pre l. revert pre. induction l as [|k l IH]; intros pre E o Ho; cbn [fold_left]; [by rewrite app_nil_r|].
  rewrite cons_middle, app_assoc. apply IH; [by rewrite <- app_assoc|].
  assert (Hk : k ∉ pre). { rewrite E in N. apply NoDup_app in N as (_ & N & _). intros Hk. apply (N k Hk). left. }
  unfold prop_set, has_prop. rewrite <- Ho in Hk. rewrite (proj2 (prop_None _ _) Hk).
  assert (Hi : is_index k = false). { assert (In k COLUMN_KEYS) as I%P by (rewrite E; apply in_app_iff; right; left; done). by bsplit. }
  rewrite Hi. unfold keys in *. rewrite map_app. cbn. by rewrite Ho.
Qed.

Lemma all_keys a b : keys (all_columns a b) = COLUMN_KEYS.
Proof. apply fold_all_keys. Qed.

(** The columns for administrators are hidden. *)
Definition hidden (v : object) : Prop := forall k, k ∈ admin_only -> prop k v = Some (VBool false).

Lemma admin_keys k : k ∈ admin_only -> k ∈ COLUMN_KEYS.
Proof.
  intros H. pose proof admin_listed as A. rewrite forallb_forall in A. apply list_elem_of_In in H. apply A in H.
  unfold memk in H. apply existsb_exists in H as (x & Hx & ->%str_eqb_eq). by apply list_elem_of_In.
Qed.

Lemma memk_true k l : k ∈ l -> memk k l = true.
Proof. intros H. unfold memk. apply existsb_exists. exists k. split; [by apply list_elem_of_In|apply str_eqb_refl]. Qed.

Lemma hidden_defaults : hidden (getDefaultColumnVisibility false).
Proof.
  intros k H. apply prop_NoDup_elem; [rewrite defaults_keys; apply keys_nodup|]. unfold getDefaultColumnVisibility.
  apply list_elem_of_fmap. exists k. split; [by rewrite memk_true|by apply admin_keys].
Qed.

Lemma hidden_merged p : hidden (merged false p).
Proof. intros k H. unfold merged. rewrite (fold_set_lookup (fun _ => VBool false)). by rewrite bool_decide_eq_true_2. Qed.

Lemma hidden_all b : hidden (all_columns false b).
Proof.
  intros k H. unfold all_columns. rewrite (fold_set_lookup (fun k => VBool (if memk k admin_only && negb false then false else b))).
  rewrite bool_decide_eq_true_2 by (by apply admin_keys). by rewrite memk_true.
Qed.

Lemma visible_persist a c : visible (persist a c) = visible c.
Proof. unfold persist. by destruct (visible c) eqn:?. Qed.

Lemma hidden_mount st : hidden (visible (mount false st)).
Proof.
  unfold mount. rewrite visible_persist. unfold getInitialVisibleColumns, loaded. destruct eager; cbn.
  - destruct (stored _ _) as [s|]; [|apply hidden_defaults]. destruct (parse s); [apply hidden_merged|apply hidden_defaults].
  - destruct (stored _ _) as [s|]; [|apply hidden_defaults]. destruct (parse s); [apply hidden_merged|apply hidden_defaults].
Qed.

Lemma hidden_tick k b v : memk k admin_only = false -> hidden v -> hidden (prop_set k (VBool b) v).
Proof. intros K H k' H'. rewrite prop_set_ne; [by apply H|]. intros ->. apply memk_false in K. done. Qed.

Lemma hidden_step {G : SelectorGuards T} c c' : hidden (visible c) -> col_step false c c' -> hidden (visible c').
Proof.
  intros H S. destruct S as [c k b O|c b|c|c]; unfold handleColumnVisibilityChange, handleSelectAll, handleReset; rewrite ?visible_persist.
  - apply hidden_tick; [|done]. unfold offered in O. bsplit. destruct (memk k admin_only) eqn:E; [|done].
    pose proof admin_skipped as A. rewrite forallb_forall in A. unfold memk in E. apply existsb_exists in E as (x & Hx & ->%str_eqb_eq).
    apply A in Hx. cbn in *. rewrite Hx in *. done.
  - apply hidden_all.
  - apply hidden_defaults.
  - apply hidden_mount.
Qed.

Lemma hidden_reach {G : SelectorGuards T} c : reach false c -> hidden (visible c).
Proof.
  induction 1 as [st|c c' R IH S|c st R IH]; [apply hidden_mount|by eapply hidden_step|done].
Qed.

End Laws.

(** ** What users who are no administrators see *)

(** C30: whatever is in the local storage and whatever other pages write to it, a user who is no
    administrator never sees a column for administrators, in every table whose selector leaves
    them out. *)
Theorem admin_columns_hidden (T : ColumnTable) (L : TableLaws T) (G : SelectorGuards T) (c : cols) (k : jsstr) :
  reach false c -> k ∈ admin_only -> k ∉ getVisibleColumns c.
Proof.
  intros R K. unfold getVisibleColumns. intros H%list_elem_of_In%filter_In. destruct H as [_ H].
  unfold fld in H. rewrite (hidden_reach c R k K) in H. done.
Qed.

(** ** The stored choice *)

Section Kept.
Context {T : ColumnTable} {L : TableLaws T} (a : bool).

(** A choice as the page makes it: every column once, with a truth value. *)
Definition shaped (v : object) : Prop :=
  keys v = COLUMN_KEYS /\ Forall (fun kv => exists b, kv.2 = VBool b) v /\ (a = false -> hidden v).
Definition kept (c : cols) : Prop := stored (STORAGE_KEY a) (store c) = Some (json (VObj (visible c))).

Lemma shaped_nonempty v : shaped v -> v <> [].
Proof. intros (K & _) ->. cbn in K. by apply some_key. Qed.

Lemma shaped_wf v : shaped v -> json_wf (VObj v).
Proof.
  intros (K & B & _). apply (json_wf_plain COLUMN_KEYS); [apply keys_plain|by rewrite K|].
  eapply Forall_impl; [exact B|]. cbn. intros [k x] (b & E). cbn in E |- *. by rewrite E.
Qed.

Lemma shaped_defaults : shaped (getDefaultColumnVisibility a).
Proof.
  split; [apply defaults_keys|split; [|intros E; rewrite E; apply hidden_defaults]].
  apply Forall_forall. intros kv (k & -> & _)%list_elem_of_fmap. by eexists.
Qed.

Lemma shaped_all b : shaped (all_columns a b).
Proof.
  split; [apply all_keys|split; [|intros E; rewrite E; apply hidden_all]].
  unfold all_columns. generalize COLUMN_KEYS. intros l.
  assert (H : forall o : object, Forall (fun kv => exists b, kv.2 = VBool b) o -> Forall (fun kv => exists b, kv.2 = VBool b)
    (fold_left (fun o k => prop_set k (VBool (if memk k admin_only && negb a then false else b)) o) l o)); [|apply H; constructor].
  induction l as [|k l IH]; intros o Ho; cbn [fold_left]; [done|]. apply IH. by apply set_bools.
Qed.

Lemma persist_kept v st : shaped v -> kept (persist a (Cols v st)) /\ visible (persist a (Cols v st)) = v.
Proof.
  intros S. split; [|apply visible_persist]. pose proof (shaped_nonempty v S) as N. pose proof (json_reads _ (shaped_wf v S)) as R.
  unfold kept, persist. cbn [visible store]. destruct v as [|kv v]; [done|]. cbn [visible store]. unfold stored, save, getItem, setItem.
  rewrite prop_set_eq. destruct (json (VObj (kv :: v))) as [|x r]; [|done]. discriminate R.
Qed.

Lemma merged_same v : shaped v -> merged a (VObj v) = v.
Proof.
  intros (K & B & H). assert (NK : NoDup (keys v)) by (rewrite K; apply keys_nodup).
  assert (E : prop_assign (getDefaultColumnVisibility a) (entries (VObj v)) = v).
  { cbn [entries]. apply props_ext.
    - apply prop_assign_NoDup. rewrite defaults_keys. apply keys_nodup.
    - rewrite assign_existing_keys; [by rewrite defaults_keys|]. rewrite defaults_keys, <- K. apply Forall_forall. intros kv Hkv.
      apply list_elem_of_fmap. by exists kv.
    - intros k. rewrite prop_assign_lookup by done. destruct (prop k v) eqn:P; [done|]. apply prop_None in P. apply prop_None.
      by rewrite defaults_keys, <- K. }
  unfold merged. rewrite E. destruct a; [done|]. specialize (H eq_refl). clear -H.
  unfold hidden in H. induction admin_only as [|k l IH]; cbn [fold_left]; [done|].
  rewrite prop_set_same by (apply H; left). apply IH. intros k' H'. apply H. by right.
Qed.

Lemma reload_kept c : shaped (visible c) -> kept c -> visible (mount a (store c)) = visible c /\ kept (mount a (store c)).
Proof.
  intros S K.
  assert (Ld : loaded a (store c) = Some (visible c)).
  { unfold loaded. rewrite K, (json_reads _ (shaped_wf _ S)). cbn. by rewrite merged_same. }
  unfold mount, getInitialVisibleColumns. rewrite Ld. cbn [default from_option id].
  destruct eager; split; apply persist_kept; done.
Qed.

Lemma mount_kept st : stored (STORAGE_KEY a) st = None -> shaped (visible (mount a st)) /\ kept (mount a st).
Proof.
  intros N. unfold mount, getInitialVisibleColumns, loaded. rewrite N. cbn [default from_option id].
  pose proof shaped_defaults as S. destruct eager; [|unfold initDefaultColumns; cbn [visible]];
    rewrite visible_persist; (split; [done|]); by apply persist_kept.
Qed.

(** The laws are kept by every step in which the selector offers no column for administrators
    to others. *)
Lemma step_kept c c' :
  (forall k, offered a k = true -> a = false -> memk k admin_only = false) ->
  shaped (visible c) /\ kept c -> col_step a c c' -> shaped (visible c') /\ kept c'.
Proof.
  intros O [S K] St. destruct St as [c k b Of|c b|c|c].
  - assert (S' : shaped (prop_set k (VBool b) (visible c))).
    { destruct S as (Sk & Sb & Sh). split; [|split; [by apply set_bools|]].
      - rewrite set_existing_keys; [done|]. rewrite Sk. unfold offered in Of. bsplit. unfold memk in *.
        match goal with H : existsb _ COLUMN_KEYS = true |- _ => apply existsb_exists in H as (x & Hx & ->%str_eqb_eq) end. by apply list_elem_of_In.
      - intros E. apply hidden_tick; [by apply O|by apply Sh]. }
    unfold handleColumnVisibilityChange. rewrite visible_persist. split; [done|by apply persist_kept].
  - unfold handleSelectAll. rewrite visible_persist. split; [|apply persist_kept]; apply shaped_all.
  - unfold handleReset, initDefaultColumns. rewrite visible_persist. split; [|apply persist_kept]; apply shaped_defaults.
  - destruct (reload_kept c S K) as [E K']. by rewrite E.
Qed.

End Kept.

(** C31: the choice of columns survives a reload: in a page that is alone with its storage, loading
    the page again shows the same columns, in every table whose selector leaves out the columns
    for administrators. *)
Theorem columns_survive_reload (T : ColumnTable) (L : TableLaws T) (G : SelectorGuards T) (a : bool) (c : cols) :
  alone a c -> visible (mount a (store c)) = visible c /\ stored (STORAGE_KEY a) (store c) = Some (json (VObj (visible c))).
Proof.
  intros A. assert (S : shaped a (visible c) /\ kept a c); [|destruct S as [S K]; split; [apply (reload_kept a c S K)|exact K]].
  induction A as [st N|c c' A IH S]; [by apply mount_kept|]. eapply step_kept; [|exact IH|exact S].
  intros k O ->. unfold offered in O. bsplit. destruct (memk k admin_only) eqn:E; [|done].
  pose proof admin_skipped as A'. rewrite forallb_forall in A'. unfold memk in E. apply existsb_exists in E as (x & Hx & ->%str_eqb_eq).
  apply A' in Hx. cbn in *. rewrite Hx in *. done.
Qed.

Lemma step_other {T : ColumnTable} a k c c' : k <> STORAGE_KEY a -> col_step a c c' -> stored k (store c') = stored k (store c).
Proof.
  intros N S.
  assert (P : forall c, stored k (store (persist a c)) = stored k (store c)).
  { intros [v st]. unfold persist. cbn. destruct v; [done|]. unfold save. cbn. by apply stored_other. }
  assert (I : forall c, stored k (store (initDefaultColumns a c)) = stored k (store c)).
  { intros c0. unfold initDefaultColumns. cbn [store]. destruct writes_defaults; [|done]. unfold save. by apply stored_other. }
  destruct S; unfold handleColumnVisibilityChange, handleSelectAll, handleReset, mount; rewrite P; cbn [store]; [done|done|by rewrite I|].
  destruct eager; [done|]. destruct (loaded a (store c)); [done|]. by rewrite I.
Qed.

(** What one role chooses does not change what the other role finds. *)
Theorem roles_keep_apart (T : ColumnTable) (R : RolesApart T) (a : bool) (c c' : cols) :
  col_step a c c' -> stored (STORAGE_KEY (negb a)) (store c') = stored (STORAGE_KEY (negb a)) (store c).
Proof. apply step_other. pose proof keys_differ. destruct a; cbn; congruence. Qed.

(** In the table of tasks the selector leaves out the channel only: a user who is no
    administrator can show the column of the users' names. *)
Theorem task_selector_offers_username :
  exists c, reach (T := task_table) false c /\ $"username" ∈ @admin_only task_table /\ $"username" ∈ @getVisibleColumns task_table c.
Proof.
  exists (handleColumnVisibilityChange (T := task_table) false $"username" true (mount (T := task_table) false [])). split; [|split].
  - eapply reach_step; [apply reach_mount|]. apply do_tick. vm_compute. reflexivity.
  - right. left.
  - assert (E : memk $"username" (getVisibleColumns (T := task_table)
      (handleColumnVisibilityChange (T := task_table) false $"username" true (mount (T := task_table) false []))) = true) by (vm_compute; reflexivity).
    unfold memk in E. apply existsb_exists in E as (x & Hx & E%str_eqb_eq). subst x. by apply list_elem_of_In.
Qed.

(** The box for all columns is never ticked for a user who is no administrator, even right
    after all columns were chosen with it. *)
Theorem all_box_never_ticked (T : ColumnTable) (L : TableLaws T) (G : SelectorGuards T) (c : cols) (k : jsstr) :
  reach false c -> k ∈ admin_only -> all_checked c = false.
Proof.
  intros R K. pose proof (hidden_reach c R k K) as H. apply prop_elem in H. unfold all_checked. apply not_true_is_false. intros A.
  rewrite forallb_forall in A. apply list_elem_of_In in H. apply A in H. done.
Qed.

(** ** Witnesses *)

Definition hostile : storage := [($"logs-table-columns-user", json (VObj [($"retry", VBool true)]))].
Definition chosen : cols := handleColumnVisibilityChange (T := usage_table) false $"ip" false (mount (T := usage_table) false []).

Lemma chosen_alone : alone (T := usage_table) false chosen.
Proof. eapply alone_step; [apply (alone_mount (T := usage_table) false []); vm_compute; reflexivity|]. apply do_tick. vm_compute. reflexivity. Qed.

Lemma admin_columns_hidden_witness : $"retry" ∉ @getVisibleColumns usage_table (mount (T := usage_table) false hostile).
Proof.
  apply (admin_columns_hidden usage_table usage_laws usage_guards); [apply reach_mount|]. right. right. left.
Defined.

Lemma columns_survive_reload_witness :
  visible (mount (T := usage_table) false (store chosen)) = visible chosen /\
  stored (@STORAGE_KEY usage_table false) (store chosen) = Some (json (VObj (visible chosen))).
Proof. apply (columns_survive_reload usage_table usage_laws usage_guards false chosen). exact chosen_alone. Defined.

Lemma roles_keep_apart_witness :
  stored (@STORAGE_KEY task_table true) (store (handleSelectAll (T := task_table) false true (Cols [] [])))
  = stored (@STORAGE_KEY task_table true) [].
Proof. apply (roles_keep_apart task_table task_apart false (Cols [] [])). apply do_all. Defined.

Lemma all_box_never_ticked_witness : all_checked (handleSelectAll (T := usage_table) false true (mount (T := usage_table) false [])) = false.
Proof.
  apply (all_box_never_ticked usage_table usage_laws usage_guards _ $"retry"); [|right; right; left].
  eapply reach_step; [apply reach_mount|]. apply do_all.
Defined.

End Columns.
