(* ===== verification/TieredLog.v ===== *)
(** * Tiered prices in the usage log

    [web/src/helpers/render.jsx], from [stripExprVersion] to [renderTieredModelPriceSimple]:
    the log of a request with tiered prices carries the billing expression in base64 and the
    label of the tier that was matched; the page reads the tiers from the expression and shows
    the prices of that tier.  The server encodes the UTF-8 bytes of the expression. *)
From S2P Require Import Prelude JSNum JSValue Json Regex RequestRuleExpr RequestRuleRoundtrip RequestRuleGroups TieredPricing TieredRoundtrip ClientHelpers Passkey Billing.
#[local] Open Scope Z_scope.
#[local] Arguments js _ : simpl never.

Module TieredLog.
Import RequestRuleExpr RequestRuleRoundtrip RequestRuleGroups TieredPricing TieredRoundtrip ClientHelpers Billing.

(** ** The variables of prices, constants/billing.constants.js *)

Record pricing_var := PVar { pv_key : jsstr; pv_field : jsstr; pv_label : jsstr; pv_short : jsstr }.

Definition BILLING_PRICING_VARS : list pricing_var :=
  [PVar $"p" $"inputPrice" $"输入价格" $"输入"; PVar $"c" $"outputPrice" $"补全价格" $"补全";
   PVar $"cr" $"cacheReadPrice" $"缓存读取价格" $"缓存读"; PVar $"cc" $"cacheCreatePrice" $"缓存创建价格" $"缓存创建";
   PVar $"cc1h" $"cacheCreate1hPrice" $"1h缓存创建价格" $"1h缓存创建"; PVar $"img" $"imagePrice" $"图片输入价格" $"图片输入";
   PVar $"img_o" $"imageOutputPrice" $"图片输出价格" $"图片输出"; PVar $"ai" $"audioInputPrice" $"音频输入价格" $"音频输入";
   PVar $"ao" $"audioOutputPrice" $"音频补全价格" $"音频输出"].

Definition var_keys : list jsstr := map pv_key BILLING_PRICING_VARS.

(** ** Patterns *)

(** A version, [v] with digits and a colon, and the rest of the text. *)
Definition re_stripped : re := (Ch 118 ++ Grp 1 (Plus (Chr is_digit)) ++ Ch 58 ++ Grp 2 (Star (Chr any)))%re.

Fixpoint alts (l : list jsstr) : re :=
  match l with [] => Chr (fun _ => false) | [w] => Lit_units w | w :: r => (Lit_units w || alts r)%re end.

(** A variable, a star and a number, without the word boundary in front. *)
Definition BILLING_VAR_REGEX : re := (Grp 1 (alts var_keys) ++ ws ++ Ch 42 ++ ws ++ Grp 2 (Plus (Chr numchar)))%re.

Definition not_paren (c : Z) : bool := negb (c =? 41).

(** A call of [tier]: the label in quotes in group 2, the body up to the closing parenthesis
    in group 3. *)
Definition re_log_tier : re :=
  (Lit "tier(" ++ Ch 34 ++ Grp 2 (Star (Chr not_dquote)) ++ Ch 34 ++ Ch 44 ++ ws ++ Grp 3 (Plus (Chr not_paren)) ++ Ch 41)%re.
Definition re_log : re := (Opt (re_conds ++ ws ++ Ch 63 ++ ws) ++ re_log_tier)%re.

(** [\w] *)
Definition word_char (c : Z) : bool := is_digit c || ((97 <=? c) && (c <=? 122)) || ((65 <=? c) && (c <=? 90)) || (c =? 95).

(** The matches of a pattern that starts with a word character, each at a word boundary:
    [prev] is whether the character in front is a word character, [skip] is what the last
    match still covers. *)
Fixpoint find_words (r : re) (prev : bool) (skip : nat) (s : jsstr) : list captures :=
  match s with
  | [] => []
  | c :: s' =>
    match skip with
    | S k => find_words r (word_char c) k s'
    | O =>
      match (if prev then [] else run r (s, [])) with
      | (rest, cs) :: _ => cs :: find_words r (word_char c) (length s - length rest - 1) s'
      | [] => find_words r (word_char c) 0 s'
      end
    end
  end.

(** ** Reading the expression *)

Definition stripExprVersion (exprStr : jsstr) : num * jsstr :=
  if negb (nonempty exprStr) then (n1, [])
  else match exec re_stripped exprStr with
       | Some cs => (Number_str (cap 1 cs), cap 2 cs)
       | None => (n1, exprStr)
       end.

(** The first coefficient of each variable. *)
Definition coefficients (bodyStr : jsstr) : list (jsstr * num) :=
  fold_left (fun cs m => if has_prop (cap 1 m) cs then cs else prop_set (cap 1 m) (Number_str (cap 2 m)) cs)
    (find_words BILLING_VAR_REGEX false 0 bodyStr) [].

Definition coefficient (k : jsstr) (cs : list (jsstr * num)) : num := match prop k cs with Some n => or_zero n | None => n0 end.

Definition parseTierBody (bodyStr : jsstr) : list (jsstr * num) :=
  map (fun v => (pv_field v, coefficient (pv_key v) (coefficients bodyStr))) BILLING_PRICING_VARS.

Record log_tier := LogTier { lt_prices : list (jsstr * num); lt_label : jsstr; lt_conditions : list tcond }.

Definition parseTiersFromExpr (exprStr : jsstr) : list log_tier :=
  if negb (nonempty exprStr) then []
  else
    let body := (stripExprVersion exprStr).2 in
    map (fun m => LogTier (parseTierBody (cap 3 m)) (cap 2 m) (parse_conds (cap 1 m))) (find_all re_log (length body) body).

(** ** What is shown *)

(** [atob(exprB64)]: one character per byte; nothing for a text that is no base64. *)
Definition decoded (exprB64 : jsstr) : jsstr := default [] (Base64.atob exprB64).

Definition price_of (t : log_tier) (field : jsstr) : num := default n0 (prop field (lt_prices t)).

(** [tiers.find((t) => t.label === matchedTier) || tiers[0]] *)
Definition matched (tiers : list log_tier) (matchedTier : jsstr) : option log_tier :=
  match List.find (fun t => lt_label t =s? matchedTier) tiers with Some t => Some t | None => head tiers end.

(** The prices that are shown: a label and a price each. *)
Definition price_rows (t : log_tier) : list (pricing_var * num) :=
  flat_map (fun v => if nltb n0 (price_of t (pv_field v)) then [(v, price_of t (pv_field v))] else []) BILLING_PRICING_VARS.

Inductive tiered_shown := NoTiers | Tiers (a : shown num).

Definition renderTieredModelPrice (exprB64 matchedTier : jsstr) : tiered_shown :=
  match matched (parseTiersFromExpr (decoded exprB64)) matchedTier with
  | None => NoTiers
  | Some t =>
    Tiers (Article
      (($"命中档位：{{tier}}", [($"tier", Raw (label_or matchedTier (lt_label t)))])
       :: map (fun vp => price_line (pv_label vp.1 ++ $"：{{symbol}}{{price}} / 1M tokens") $"price" vp.2 []) (price_rows t)) true)
  end.

(** The short form, as separate pieces. *)
Definition renderTieredModelPriceSimple (tokens : bool) (mode : display) (groupRatio : num) (user : option num) (exprB64 matchedTier : jsstr)
    : list (tone * line num) :=
  (Primary, getGroupRatioText groupRatio user)
  :: match matched (parseTiersFromExpr (decoded exprB64)) matchedTier with
     | Some t =>
       if isPriceDisplayMode tokens mode (of_Z (-1)) then
         map (fun vp => (Secondary, ($"{{label}} {{price}} / 1M tokens", [($"label", Word (pv_short vp.1)); ($"price", Compact vp.2)]))) (price_rows t)
       else []
     | None => []
     end.

(** What the server sends for an expression: the bytes of its UTF-8 text in base64. *)
Definition expr_b64 (expr : jsstr) : jsstr := Base64.btoa (Base64.encode_text expr).

End TieredLog.
