(* ===== verification/TieredLogProofs.v ===== *)
(** * Tiered prices in the usage log: the theorems

    The log reads the expression that the visual editor writes: for every tier the prices and
    the label that were written.  The matched tier is found again when the expression is ASCII;
    labels with other characters are decoded byte by byte and never match. *)
From S2P Require Import Prelude JSNum JSValue Json Regex RequestRuleExpr RequestRuleRoundtrip RequestRuleGroups TieredPricing TieredRoundtrip TieredEditorProofs ClientHelpers Passkey Billing TieredLog.
#[local] Open Scope Z_scope.
#[local] Arguments js _ : simpl never.

Module TieredLogProofs.
Import RequestRuleExpr RequestRuleRoundtrip RequestRuleGroups TieredPricing TieredRoundtrip ClientHelpers Billing TieredLog.

(** ** A tier *)

Lemma numchar_not_paren s : forallb numchar s = true -> forallb not_paren s = true.
Proof.
  rewrite !forallb_forall. intros H c Hc. apply H in Hc. unfold not_paren. destruct (Z.eqb_spec c 41) as [->|]; [|done]. by vm_compute in Hc.
Qed.

Lemma term_not_paren v N : forallb not_paren v = true -> num_text N -> forallb not_paren (term_text v N) = true.
Proof. intros Hv [_ HN]. unfold term_text. rewrite !forallb_app, Hv, (numchar_not_paren N HN). js_lit. done. Qed.

Lemma vars_not_paren : forallb (fun kv => forallb not_paren kv.2) CACHE_VAR_MAP = true.
Proof. by vm_compute. Qed.

Lemma costs_not_paren t : prices_ok t -> forallb not_paren (costs_text CACHE_VAR_MAP t) = true.
Proof.
  intros Hp. unfold costs_text. pose proof vars_not_paren as Hv. unfold prices_ok in Hp. revert Hv Hp. generalize CACHE_VAR_MAP. intros l.
  induction l as [|[f v] l IH]; intros Hv Hp; [done|]. cbn [forallb] in Hv. bsplit. cbn [flat_map]. rewrite forallb_app.
  apply andb_true_iff. split; [|apply IH; [done|]; intros f' v' Hi; apply (Hp f' v'); by right].
  unfold cost_text. cbn [fst snd]. destruct (neqb _ _); [done|]. rewrite forallb_app, term_not_paren; [js_lit; done|done|apply (Hp f v); by left].
Qed.

Lemma body_not_paren t : tier_ok t -> forallb not_paren (buildTierBodyExpr t) = true /\ buildTierBodyExpr t <> [].
Proof.
  intros [_ [Hi _] [Ho _] Hp]. rewrite body_text. split; [|unfold term_text; by js_lit].
  rewrite !forallb_app, !term_not_paren, costs_not_paren by (done || (js_lit; done) || (intros f v H; by apply (Hp f v))). js_lit. done.
Qed.

Lemma first_log_tier l t rest cs :
  forallb not_dquote l = true -> tier_ok t ->
  first re_log_tier (tier_text l t ++ rest, cs) (rest, (3, buildTierBodyExpr t) :: (2, l) :: cs).
Proof.
  intros Hl Ht. destruct (body_not_paren t Ht) as [Hb Hn]. unfold re_log_tier, tier_text. rewrite <- !app_assoc.
  eapply first_seq; [apply first_lit|]. cbn [app]. eapply first_seq; [apply first_ch|].
  eapply first_seq; [apply first_grp; by apply first_star_chr|]. eapply first_seq; [apply first_ch|].
  js_lit. cbn [app]. eapply first_seq; [apply first_ch|].
  eapply first_seq; [apply first_ws1; rewrite body_text; unfold term_text; by js_lit|].
  eapply first_seq; [apply first_grp; by apply first_plus_chr|]. apply first_ch.
Qed.

(** ** All tiers of a text *)

Definition cond_caps (cs : list tcond) : captures := match cs with [] => [] | c :: r => [(1, cond_text c ++ more_conds r)] end.
Definition log_caps (e : entry) : captures := (3, buildTierBodyExpr e.2) :: (2, e.1.2) :: cond_caps e.1.1.

Lemma first_log_entry e rest : entry_ok e -> first re_log (entry_str e ++ rest, []) (rest, log_caps e).
Proof.
  destruct e as [[cs l] t]. intros (Hcs & Ht & Hl). unfold re_log, entry_str, entry_text, log_caps, cond_caps. cbn [fst snd] in *.
  destruct cs as [|c cs].
  - eapply first_seq; [|by apply first_log_tier]. unfold Opt. apply first_alt_r; [|apply first_eps].
    destruct (tier_text_head l t rest) as [r ->]. apply fails_seq_l. unfold re_conds, fails. cbn [run].
    assert (fails re_cond (116 :: r, [])) as ->; [|done]. apply fails_seq_l. unfold fails, re_var, Lit. js_lit. reflexivity.
  - rewrite <- !app_assoc. rewrite (app_assoc (cond_text c)). js_lit. cbn [app].
    eapply first_seq; [|by apply first_log_tier]. unfold Opt. apply first_alt_l.
    eapply first_seq; [by apply first_conds|]. eapply first_seq; [by apply first_ws1|]. eapply first_seq; [apply first_ch|].
    apply first_ws1. by destruct (tier_text_head l t rest) as [r ->].
Qed.

Lemma fails_log_head c s : c ∉ [112; 99; 108; 116] -> fails re_log (c :: s, []).
Proof.
  intros H. rewrite !not_elem_of_cons in H. destruct H as (H1 & H2 & H3 & H4 & _).
  assert (Hl : forall x w, c <> x -> fails (Lit_units (x :: w)) (c :: s, [])) by (intros; by apply fails_lit_units).
  assert (Hc : fails re_cond (c :: s, [])).
  { apply fails_seq_l. unfold re_var, Lit. js_lit. by apply fails_alt; [apply fails_alt|]; apply Hl. }
  apply fails_seq. intros st1 [H|H]%run_alt.
  - exfalso. assert (fails (re_conds ++ ws ++ Ch 63 ++ ws)%re (c :: s, [])) as Hf; [|rewrite Hf in H; by apply elem_of_nil in H].
    apply fails_seq_l. unfold re_conds, fails. cbn [run]. by rewrite Hc.
  - apply run_eps in H as ->. apply fails_seq_l. unfold Lit. js_lit. by apply Hl.
Qed.

Lemma find_all_log es fuel :
  Forall entry_ok es -> (length es <= fuel)%nat -> find_all re_log fuel (join $" : " (map entry_str es)) = map log_caps es.
Proof.
  revert fuel. induction es as [|e es IH]; intros fuel H Hf.
  - destruct fuel; [done|]. by vm_compute.
  - apply Forall_cons in H as [He Hes]. destruct fuel as [|fuel]; [cbn in Hf; lia|]. cbn [length] in Hf.
    cbn [map]. destruct es as [|e' es].
    + cbn [map join find_all]. pose proof (first_log_entry e [] He) as H. rewrite app_nil_r in H.
      rewrite (find_match_first _ _ _ H). by destruct fuel.
    + change (join $" : " (entry_str e :: map entry_str (e' :: es)))
        with (entry_str e ++ $" : " ++ join $" : " (map entry_str (e' :: es))).
      cbn [find_all]. rewrite (find_match_first _ _ _ (first_log_entry e _ He)). cbn [map].
      f_equal. etrans; [|exact (IH fuel Hes ltac:(cbn in *; lia))]. apply find_all_same.
      js_lit. cbn [app]. do 3 (rewrite find_match_skip by (apply fails_log_head; set_solver)). done.
Qed.

(** The conditions of an entry are read back. *)
Lemma parse_log_conds e : entry_ok e -> parse_conds (cap 1 (log_caps e)) = e.1.1.
Proof.
  intros (Hc & _). unfold log_caps, cap. cbn [capture]. unfold cond_caps. destruct e.1.1 as [|c cs]; [done|]. cbn. by apply parse_conds_text.
Qed.

(** ** The terms of a body *)

(** An alternative in a group, followed by something. *)
Lemma run_grp_alt n a b k st : run (Seq (Grp n (Alt a b)) k) st = run (Seq (Grp n a) k) st ++ run (Seq (Grp n b) k) st.
Proof. cbn [run]. by rewrite map_app, flat_map_app. Qed.

Lemma run_grp_elem n a st st' :
  st' ∈ run (Grp n a) st -> exists st1, st1 ∈ run a st /\ st'.1 = st1.1.
Proof. cbn [run]. intros (st1 & -> & H)%list_elem_of_fmap. by exists st1. Qed.

Definition after_var : re := (ws ++ Ch 42 ++ ws ++ Grp 2 (Plus (Chr numchar)))%re.

(** Another variable does not match where [v] is written. *)
Lemma fails_other_var k v rest cs :
  distinct_var k v = true -> forallb (fun c => negb (is_ws c)) k = true ->
  fails (Seq (Grp 1 (Lit_units k)) after_var) (v ++ $" * " ++ rest, cs).
Proof.
  intros Hd Hw. apply fails_iff. intros st' H.
  apply run_seq in H as ([s1 c1] & (st1 & (r1 & E & E1)%run_lit_units & Es)%run_grp_elem & H). subst st1. cbn [fst] in Es. subst s1.
  apply run_seq in H as ([s2 c2] & (w & r2 & -> & Hws & E2)%run_star_chr & H). injection E2 as -> ->.
  apply run_seq in H as ([s3 c3] & (r3 & -> & E3)%run_ch & _). clear E3. revert E Hd Hw. js_lit. cbn [app].
  revert v. induction k as [|a k IH]; intros [|b v] E Hd Hw; cbn [distinct_var app forallb] in *; bsplit.
  - done.
  - destruct w as [|x w]; cbn in E; simplify_eq; cbn in Hws; bsplit; congruence || done.
  - injection E as <- _. done.
  - injection E as <- E. rewrite Z.eqb_refl in Hd. by apply (IH v).
Qed.

(** Variables none of which can be mistaken for a later one. *)
Fixpoint keys_ok (l : list jsstr) : bool :=
  match l with [] => true | v :: r => var_name v && forallb (distinct_var v) r && keys_ok r end.

Lemma first_after_var N rest cs : num_text N -> stops numchar rest -> first after_var ($" * " ++ N ++ rest, cs) (rest, (2, N) :: cs).
Proof.
  intros HN Hr. unfold after_var. js_lit. cbn [app]. eapply first_seq; [by apply first_ws1|]. eapply first_seq; [apply first_ch|].
  eapply first_seq; [apply first_ws1; by apply num_text_stops|]. apply first_grp. destruct HN. by apply first_plus_chr.
Qed.

Lemma first_key v N rest cs :
  num_text N -> stops numchar rest ->
  first (Seq (Grp 1 (Lit_units v)) after_var) (term_text v N ++ rest, cs) (rest, (2, N) :: (1, v) :: cs).
Proof.
  intros HN Hr. unfold term_text. rewrite <- !app_assoc. eapply first_seq; [apply first_grp, first_lit_units|]. by apply first_after_var.
Qed.

Lemma first_alts l v N rest cs :
  keys_ok l = true -> v ∈ l -> num_text N -> stops numchar rest ->
  first (Seq (Grp 1 (alts l)) after_var) (term_text v N ++ rest, cs) (rest, (2, N) :: (1, v) :: cs).
Proof.
  intros Hk Hv HN Hr. induction l as [|k l IH]; [by apply elem_of_nil in Hv|]. cbn [keys_ok] in Hk. bsplit.
  destruct l as [|k' l]; [apply list_elem_of_singleton in Hv as ->; by apply first_key|].
  change (alts (k :: k' :: l)) with (Lit_units k || alts (k' :: l))%re.
  destruct (decide (v = k)) as [->|Hne].
  - destruct (first_key k N rest cs HN Hr) as [m E]. unfold first. rewrite run_grp_alt, E. by eexists.
  - assert (Hv' : v ∈ k' :: l) by (by apply elem_of_cons in Hv as [|]).
    assert (F : fails (Seq (Grp 1 (Lit_units k)) after_var) (term_text v N ++ rest, cs)).
    { unfold term_text. rewrite <- !app_assoc. destruct (var_name_facts k ltac:(done)) as (_ & _ & Hw). apply fails_other_var; [|done].
      match goal with H : forallb (distinct_var k) _ = true |- _ => rewrite forallb_forall in H; apply H end. by apply list_elem_of_In. }
    destruct (IH ltac:(done) Hv') as [m E]. unfold first. rewrite run_grp_alt, F, E. by eexists.
Qed.

Lemma var_keys_ok : keys_ok var_keys = true.
Proof. by vm_compute. Qed.

Lemma first_var v N rest cs :
  v ∈ var_keys -> num_text N -> stops numchar rest ->
  first BILLING_VAR_REGEX (term_text v N ++ rest, cs) (rest, (2, N) :: (1, v) :: cs).
Proof. apply first_alts, var_keys_ok. Qed.

(** A match covers its text. *)
Lemma find_words_skip r prev w rest : w <> [] -> exists b, find_words r prev (length w) (w ++ rest) = find_words r b 0 rest.
Proof.
  revert prev. induction w as [|c w IH]; intros prev Hn; [done|]. cbn [length app find_words].
  destruct w as [|d w]; [by exists (word_char c)|]. by apply IH.
Qed.

Lemma find_words_term v N rest :
  v ∈ var_keys -> num_text N -> stops numchar rest ->
  exists b, find_words BILLING_VAR_REGEX false 0 (term_text v N ++ rest) = [(2, N); (1, v)] :: find_words BILLING_VAR_REGEX b 0 rest.
Proof.
  intros Hv HN Hr. destruct (first_var v N rest [] Hv HN Hr) as [m E].
  destruct (term_text v N) as [|c w] eqn:T; [by unfold term_text in T; apply app_eq_nil in T as [_ T]; js_lit_in T|].
  cbn [app] in *. cbn [find_words]. rewrite E.
  assert (L : (length (c :: w ++ rest) - length rest - 1 = length w)%nat) by (cbn [length]; rewrite length_app; lia). rewrite L.
  destruct w as [|d w]; [by exists (word_char c)|].
  destruct (find_words_skip BILLING_VAR_REGEX (word_char c) (d :: w) rest) as [b Eb]; [done|]. exists b. by rewrite Eb.
Qed.

Lemma no_key_at c s : forallb (fun v => negb (hd 0 v =? c)) var_keys = true -> run BILLING_VAR_REGEX (c :: s, []) = [].
Proof.
  intros H. assert (F : fails (alts var_keys) (c :: s, [])).
  { pose proof var_keys_ok as K. revert H K. generalize var_keys. intros l.
    assert (G : forall k, var_name k = true -> (hd 0 k =? c) = false -> fails (Lit_units k) (c :: s, [])).
    { intros [|x k] Hk Hh; [done|]. cbn in Hh. apply fails_lit_units. intros ->. by rewrite Z.eqb_refl in Hh. }
    induction l as [|k l IH]; intros H K; [done|]. cbn [forallb keys_ok] in *. bsplit. destruct l as [|k' l]; [by apply G|].
    apply (fails_alt (Lit_units k) (alts (k' :: l))); [by apply G|apply IH; done]. }
  unfold BILLING_VAR_REGEX. apply fails_seq_l. unfold fails. cbn [run]. by rewrite F.
Qed.

Lemma find_words_plus b rest : find_words BILLING_VAR_REGEX b 0 ($" + " ++ rest) = find_words BILLING_VAR_REGEX false 0 rest.
Proof.
  js_lit. cbn [app]. cbn [find_words].
  assert (R : forall (p : bool) c s, forallb (fun v => negb (hd 0 v =? c)) var_keys = true ->
    (if p then [] else run BILLING_VAR_REGEX (c :: s, [])) = []) by (intros [|] c s H; [done|by apply no_key_at]).
  rewrite !R by (vm_compute; reflexivity). done.
Qed.

(** The terms that are written, variables with their prices. *)
Definition cost_terms (l : list (jsstr * jsstr)) (t : tier) : list (jsstr * num) :=
  flat_map (fun '(f, v) => if neqb (cost_of f t) n0 then [] else [(v, cost_of f t)]) l.
Definition terms (t : tier) : list (jsstr * num) :=
  ($"p", or_zero (input_unit_cost t)) :: ($"c", or_zero (output_unit_cost t)) :: cost_terms CACHE_VAR_MAP t.

Definition terms_text (l : list (jsstr * num)) : jsstr := join $" + " (map (fun vn => term_text vn.1 (String_num vn.2)) l).
Definition term_caps (vn : jsstr * num) : captures := [(2, String_num vn.2); (1, vn.1)].

Lemma find_words_terms l :
  Forall (fun vn => vn.1 ∈ var_keys /\ num_text (String_num vn.2)) l ->
  find_words BILLING_VAR_REGEX false 0 (terms_text l) = map term_caps l.
Proof.
  unfold terms_text. intros H. induction H as [|[v n] l [Hv HN] _ IH]; [done|]. cbn [map]. rewrite join_flat. cbn [fst snd] in *.
  destruct l as [|[v' n'] l].
  - cbn [map flat_map]. destruct (find_words_term v (String_num n) [] Hv HN I) as [b E]. rewrite E. by destruct b.
  - cbn [map flat_map fst snd]. rewrite <- (app_assoc $" + ").
    destruct (find_words_term v (String_num n) ($" + " ++ term_text v' (String_num n') ++ flat_map (fun y => $" + " ++ y)
      (map (fun vn => term_text vn.1 (String_num vn.2)) l)) Hv HN) as [b E]; [by js_lit|]. rewrite E, find_words_plus.
    f_equal. cbn [map fst snd] in IH. rewrite <- IH. by rewrite join_flat.
Qed.

Lemma log_body_terms t : buildTierBodyExpr t = terms_text (terms t).
Proof.
  unfold buildTierBodyExpr, terms_text, terms. f_equal. cbn [map fst snd app]. unfold cost_parts, cost_terms.
  assert (E : forall l, flat_map (fun '(field, v) => if neqb (cost_of field t) n0 then [] else [v ++ $" * " ++ String_num (cost_of field t)]) l
    = map (fun vn => term_text vn.1 (String_num vn.2)) (flat_map (fun '(f, v) => if neqb (cost_of f t) n0 then [] else [(v, cost_of f t)]) l)).
  { induction l as [|[f v] l IH]; [done|]. cbn [flat_map]. rewrite map_app, IH. by destruct (neqb _ _). }
  by rewrite E.
Qed.

Lemma cache_keys : forallb (fun kv => bool_decide (kv.2 ∈ var_keys)) CACHE_VAR_MAP = true.
Proof. by vm_compute. Qed.

Lemma elem_cost_terms l t v n : (v, n) ∈ cost_terms l t -> exists f, (f, v) ∈ l /\ n = cost_of f t.
Proof.
  unfold cost_terms. intros (x & Hx & H)%list_elem_of_In%in_flat_map. destruct x as [f v']. destruct (neqb _ _); [done|].
  destruct H as [E|[]]. injection E as <- <-. exists f. split; [by apply list_elem_of_In|done].
Qed.

Lemma terms_ok t : tier_ok t -> Forall (fun vn => vn.1 ∈ var_keys /\ num_ok vn.2) (terms t).
Proof.
  intros [_ Hi Ho Hp]. unfold terms. constructor; [split; [apply (bool_decide_unpack _); by vm_compute|done]|].
  constructor; [split; [apply (bool_decide_unpack _); by vm_compute|done]|]. apply Forall_forall. intros [v n] (f & Hf & ->)%elem_cost_terms.
  cbn [fst snd]. apply list_elem_of_In in Hf. split; [|by apply (Hp f v)].
  pose proof cache_keys as K. rewrite forallb_forall in K. apply K in Hf. by apply bool_decide_eq_true_1 in Hf.
Qed.

Lemma terms_nodup t : NoDup (keys (terms t)).
Proof.
  assert (H : forall l, cost_terms l t `sublist_of` map (fun fv => (fv.2, cost_of fv.1 t)) l).
  { induction l as [|[f v] l IH]; [constructor|]. unfold cost_terms. cbn [flat_map map fst snd]. destruct (neqb _ _); by constructor. }
  assert (K : keys (terms t) `sublist_of` $"p" :: $"c" :: map snd CACHE_VAR_MAP).
  { unfold terms, keys. cbn [map fst]. do 2 apply sublist_skip. specialize (H CACHE_VAR_MAP). apply (fmap_sublist fst) in H.
    etrans; [exact H|]. rewrite map_map. cbn [fst]. done. }
  eapply sublist_NoDup; [|exact K]. apply (bool_decide_unpack _). by vm_compute.
Qed.

(** Every term is new: the coefficients are the terms. *)
Lemma fold_terms (l acc : list (jsstr * num)) :
  NoDup (keys (acc ++ l)) -> Forall (fun vn => is_index vn.1 = false /\ num_ok vn.2) l ->
  fold_left (fun cs m => if has_prop (cap 1 m) cs then cs else prop_set (cap 1 m) (Number_str (cap 2 m)) cs) (map term_caps l) acc = acc ++ l.
Proof.
  revert acc. induction l as [|[v n] l IH]; intros acc N H; cbn [map fold_left]; [by rewrite app_nil_r|].
  apply Forall_cons in H as [[Hi [_ Hn]] H]. cbn [fst snd] in *.
  assert (Hk : v ∉ keys acc).
  { unfold keys in *. rewrite map_app in N. apply NoDup_app in N as (_ & N & _). intros Hk. apply (N v Hk). left. }
  assert (Hp : has_prop v acc = false) by (unfold has_prop; by rewrite (proj2 (prop_None v acc) Hk)).
  change (cap 1 (term_caps (v, n))) with v. change (cap 2 (term_caps (v, n))) with (String_num n). rewrite Hp, Hn.
  assert (Hs : prop_set v n acc = acc ++ [(v, n)]) by (unfold prop_set; by rewrite Hp, Hi). rewrite Hs, IH; [by rewrite <- app_assoc|by rewrite <- app_assoc|done].
Qed.

Lemma keys_no_index : forallb (fun k => negb (is_index k)) var_keys = true.
Proof. by vm_compute. Qed.

Lemma coefficients_body t : tier_ok t -> coefficients (buildTierBodyExpr t) = terms t.
Proof.
  intros Ht. pose proof (terms_ok t Ht) as Hk. unfold coefficients. rewrite log_body_terms, find_words_terms.
  - rewrite (fold_terms (terms t) []); [done|apply terms_nodup|]. eapply Forall_impl; [exact Hk|]. cbn. intros vn [Hv Hn]. split; [|done].
    pose proof keys_no_index as K. rewrite forallb_forall in K. apply list_elem_of_In, K in Hv. by bsplit.
  - eapply Forall_impl; [exact Hk|]. cbn. by intros vn [Hv [Hn _]].
Qed.

(** The price a tier has for a variable. *)
Definition tier_price (t : tier) (key : jsstr) : num := coefficient key (terms t).

Definition tier_prices (t : tier) : list (jsstr * num) := map (fun v => (pv_field v, tier_price t (pv_key v))) BILLING_PRICING_VARS.

Lemma parse_body t : tier_ok t -> parseTierBody (buildTierBodyExpr t) = tier_prices t.
Proof. intros Ht. unfold parseTierBody. by rewrite coefficients_body. Qed.

(** It is the price that was entered: of the input, of the output, and of every other field. *)
Lemma price_input t : tier_price t $"p" = or_zero (input_unit_cost t).
Proof. unfold tier_price, coefficient, terms. cbn [prop]. rewrite str_eqb_refl. apply or_zero_idem. Qed.

Lemma price_output t : tier_price t $"c" = or_zero (output_unit_cost t).
Proof.
  unfold tier_price, coefficient, terms. cbn [prop]. assert (($"c" =s? $"p") = false) as -> by (by vm_compute). rewrite str_eqb_refl. apply or_zero_idem.
Qed.

Lemma prop_terms l t f v :
  NoDup (map snd l) -> (f, v) ∈ l -> prop v (cost_terms l t) = if neqb (cost_of f t) n0 then None else Some (cost_of f t).
Proof.
  induction l as [|[f' v'] l IH]; intros N H; [by apply elem_of_nil in H|]. cbn [map snd] in N. apply NoDup_cons in N as [Nv N].
  unfold cost_terms. cbn [flat_map]. fold (cost_terms l t). apply elem_of_cons in H as [E|H].
  - injection E as <- <-. destruct (neqb (cost_of f t) n0); cbn [app prop]; [|by rewrite str_eqb_refl]. apply prop_None. intros Hin.
    unfold keys in Hin. apply list_elem_of_fmap in Hin as ([v'' n] & -> & (f'' & Hf & _)%elem_cost_terms). apply Nv. apply list_elem_of_fmap. by exists (f'', v'').
  - assert (Hne : v <> v') by (intros ->; apply Nv; apply list_elem_of_fmap; by exists (f, v')).
    destruct (neqb (cost_of f' t) n0); cbn [app prop]; [by apply IH|]. destruct (str_eqb_spec v v'); [done|]. by apply IH.
Qed.

Lemma price_cost t f v : (f, v) ∈ CACHE_VAR_MAP -> tier_price t v = cost_of f t.
Proof.
  intros H. unfold tier_price, coefficient, terms. cbn [prop].
  assert (Hd : forallb (fun kv => negb (kv.2 =s? $"p") && negb (kv.2 =s? $"c")) CACHE_VAR_MAP = true) by (by vm_compute).
  rewrite forallb_forall in Hd. pose proof H as Hi. apply list_elem_of_In, Hd in Hi. cbn [snd] in Hi. bsplit.
  match goal with A : (v =s? $"p") = false, B : (v =s? $"c") = false |- _ => rewrite A, B end.
  rewrite (prop_terms _ t f v); [|apply (bool_decide_unpack _); by vm_compute|done].
  destruct (neqb (cost_of f t) n0) eqn:E; [symmetry; by apply or_zero_zero|apply or_zero_idem].
Qed.

(** ** The tiers of the log *)

Definition log_view (e : entry) : log_tier := LogTier (tier_prices e.2) e.1.2 e.1.1.

Lemma parse_log_entry e : entry_ok e -> LogTier (parseTierBody (cap 3 (log_caps e))) (cap 2 (log_caps e)) (parse_conds (cap 1 (log_caps e))) = log_view e.
Proof.
  intros He. rewrite parse_log_conds by done. change (cap 3 (log_caps e)) with (buildTierBodyExpr e.2). change (cap 2 (log_caps e)) with e.1.2.
  rewrite parse_body; [done|apply He].
Qed.

(** The tiers as they are written, with the labels and conditions the text holds. *)
Definition written (tiers : list tier) : list entry :=
  match tiers with
  | [t] => [(written_conds t, label_or (label t) $"default", t)]
  | _ => entries 0 tiers
  end.

Lemma no_stripped c s : c <> 118 -> stripExprVersion (c :: s) = (n1, c :: s).
Proof.
  intros H. unfold stripExprVersion. cbn [nonempty negb]. rewrite exec_of_fails; [done|]. apply fails_seq_l. by apply fails_ch.
Qed.

Lemma parse_found c s es :
  c <> 118 -> Forall entry_ok es -> find_all re_log (length (c :: s)) (c :: s) = map log_caps es -> parseTiersFromExpr (c :: s) = map log_view es.
Proof.
  intros Hc He Hf. unfold parseTiersFromExpr. cbn [nonempty negb]. rewrite no_stripped by done. cbn [snd]. rewrite Hf, map_map.
  apply map_ext_Forall. eapply Forall_impl; [exact He|]. apply parse_log_entry.
Qed.

Lemma entry_str_head e : entry_ok e -> exists c s, entry_str e = c :: s /\ c <> 118.
Proof.
  destruct e as [[cs l] t]. intros (Hc & _ & _). unfold entry_str. cbn [fst snd] in *. destruct cs as [|c cs].
  - destruct (tier_text_head l t []) as [s E]. rewrite app_nil_r in E. unfold entry_text. rewrite E. by exists 116, s.
  - destruct (entry_head (c :: cs) l t Hc ltac:(done)) as (x & s & -> & H & _). by exists x, s.
Qed.

Lemma written_ok tiers : config_ok tiers -> Forall entry_ok (written tiers).
Proof.
  intros [_ Hf _]. destruct tiers as [|t [|t' r]]; [constructor| |by apply entries_ok].
  apply Forall_cons in Hf as [[Ht Hc] _]. constructor; [|constructor]. split; [done|split; [done|]]. cbn [fst snd].
  apply (label_or_ok (label t) $"default"); [apply (ok_label t Ht)|by vm_compute|by vm_compute].
Qed.

Lemma parse_written tiers : config_ok tiers -> parseTiersFromExpr (generateExprFromVisualConfig (Some tiers)) = map log_view (written tiers).
Proof.
  intros Hok. pose proof (written_ok tiers Hok) as He. destruct Hok as [Hn Hf _]. destruct tiers as [|t [|t' r]]; [done| |].
  - apply Forall_cons in Hf as [[Ht Hc] _]. unfold written in *. set (e := (written_conds t, label_or (label t) $"default", t) : entry) in *.
    apply Forall_cons in He as [He _]. destruct (entry_str_head e He) as (c & s & Ec & Hv).
    rewrite (generate_one t t) by done.
    assert (Hg : match written_conds t with
                 | [] => tier_text (label_or (label t) $"default") t
                 | cs => entry_text cs (label_or (label t) $"default") t ++ $" : " ++ NO_PRICE
                 end = entry_str e ++ (match written_conds t with [] => [] | _ => $" : " ++ NO_PRICE end)).
    { unfold entry_str, e. cbn [fst snd]. destruct (written_conds t); cbn; by rewrite ?app_nil_r. }
    rewrite Hg. set (tail := match written_conds t with [] => [] | _ => _ end). rewrite Ec. cbn [app].
    apply (parse_found c (s ++ tail) [e]); [done|by constructor|]. rewrite app_comm_cons, <- Ec.
    destruct (length (entry_str e ++ tail)) as [|k] eqn:Ek; [by rewrite Ec in Ek|]. cbn [find_all].
    rewrite (find_match_first _ _ _ (first_log_entry e tail He)). cbn [map]. f_equal. destruct k as [|k]; [done|]. cbn [find_all].
    assert (find_match re_log tail = None) as ->; [|done]. unfold tail. destruct (written_conds t); by vm_compute.
  - rewrite generate_many by (cbn; lia). rewrite tier_parts_entries by (eapply Forall_impl; [exact Hf|]; by intros ? [_ ?]).
    change (written (t :: t' :: r)) with (entries 0 (t :: t' :: r)) in *. set (es := entries 0 (t :: t' :: r)) in *.
    assert (exists c s, join $" : " (map entry_str es) = c :: s /\ c <> 118) as (c & s & Ec & Hv).
    { destruct es as [|e es'] eqn:Ee; [done|]. apply Forall_cons in He as [He _]. destruct (entry_str_head e He) as (c & s & E & Hc).
      cbn [map]. rewrite join_flat, E. by eexists c, _. }
    rewrite Ec. apply parse_found; [done|done|]. rewrite <- Ec. apply find_all_log; [done|apply join_length].
Qed.

(** ** What the log shows *)

Definition ascii (s : jsstr) : Prop := Forall (fun c => 0 <= c < 128) s.

Lemma encode_ascii s : ascii s -> Base64.encode_text s = s.
Proof.
  intros H. induction H as [|c s Hc _ IH]; [done|]. cbn [Base64.encode_text].
  assert (Base64.is_high c = false) as -> by (unfold Base64.is_high; lia). assert (Base64.is_low c = false) as -> by (unfold Base64.is_low; lia).
  unfold Base64.utf8. destruct (Z.ltb_spec c 128); [|lia]. cbn [app]. by rewrite IH.
Qed.

Lemma decoded_ascii s : ascii s -> decoded (expr_b64 s) = s.
Proof.
  intros H. unfold decoded, expr_b64. rewrite encode_ascii by done. rewrite Base64.atob_btoa; [done|].
  eapply Forall_impl; [exact H|]. unfold Base64.byte. cbn. lia.
Qed.

(** The article of a tier: its label and its prices that are not zero. *)
Definition tier_article (l : jsstr) (t : tier) : tiered_shown :=
  Tiers (Article
    (($"命中档位：{{tier}}", [($"tier", Raw l)])
     :: flat_map (fun v => if nltb n0 (tier_price t (pv_key v))
          then [price_line (pv_label v ++ $"：{{symbol}}{{price}} / 1M tokens") $"price" (tier_price t (pv_key v)) []] else []) BILLING_PRICING_VARS) true).

Lemma price_of_view e v : In v BILLING_PRICING_VARS -> price_of (log_view e) (pv_field v) = tier_price e.2 (pv_key v).
Proof.
  intros H. unfold price_of, log_view, lt_prices, tier_prices.
  rewrite (prop_NoDup_elem _ (tier_price e.2 (pv_key v))); [done| |apply list_elem_of_fmap; exists v; split; [done|by apply list_elem_of_In]].
  unfold keys. rewrite map_map. cbn [fst]. apply (bool_decide_unpack _). by vm_compute.
Qed.

Lemma rows_of_view e l :
  (forall v, In v l -> In v BILLING_PRICING_VARS) ->
  map (fun vp => price_line (pv_label vp.1 ++ $"：{{symbol}}{{price}} / 1M tokens") $"price" vp.2 [])
    (flat_map (fun v => if nltb n0 (price_of (log_view e) (pv_field v)) then [(v, price_of (log_view e) (pv_field v))] else []) l)
  = flat_map (fun v => if nltb n0 (tier_price e.2 (pv_key v))
      then [price_line (pv_label v ++ $"：{{symbol}}{{price}} / 1M tokens") $"price" (tier_price e.2 (pv_key v)) []] else []) l.
Proof.
  intros H. induction l as [|v l IH]; [done|]. cbn [flat_map]. rewrite map_app, IH by (intros v' Hv'; apply H; by right).
  rewrite price_of_view by (apply H; by left). by destruct (nltb n0 _).
Qed.

Lemma find_view l es e : List.find (fun e => e.1.2 =s? l) es = Some e -> List.find (fun t => lt_label t =s? l) (map log_view es) = Some (log_view e).
Proof.
  induction es as [|x es IH]; [done|]. cbn [List.find map log_view lt_label]. destruct (x.1.2 =s? l); [by intros [= ->]|done].
Qed.

(** C27: for an expression of ASCII characters that the visual editor wrote for tiers that
    can be read back ([config_ok]) and a nonempty label that one of its tiers has, the usage
    log shows the prices of the first tier with that label: the prices that were entered, of
    every kind that is not zero. The labels the editor makes up are Chinese and outside,
    [unnamed_tier_shows_first_prices]. *)
Theorem log_shows_matched_tier (tiers : list tier) (e : entry) (l : jsstr) :
  config_ok tiers -> ascii (generateExprFromVisualConfig (Some tiers)) -> l <> [] ->
  List.find (fun e => e.1.2 =s? l) (written tiers) = Some e ->
  renderTieredModelPrice (expr_b64 (generateExprFromVisualConfig (Some tiers))) l = tier_article l e.2.
Proof.
  intros Hok Ha Hl Hf. unfold renderTieredModelPrice, matched. rewrite decoded_ascii, parse_written by done.
  rewrite (find_view _ _ _ Hf). unfold tier_article, price_rows. rewrite (rows_of_view e) by done. unfold label_or. by destruct l.
Qed.

(** The prices of a tier are the ones its fields hold. *)
Theorem log_prices_entered (t : tier) (f v : jsstr) :
  tier_ok t -> (f, v) ∈ CACHE_VAR_MAP ->
  let cs := coefficients (buildTierBodyExpr t) in
  coefficient $"p" cs = or_zero (input_unit_cost t) /\ coefficient $"c" cs = or_zero (output_unit_cost t) /\ coefficient v cs = cost_of f t.
Proof.
  intros Ht Hv cs. unfold cs. rewrite coefficients_body by done.
  split; [apply price_input|split; [apply price_output|by apply price_cost]].
Qed.

(** ** Labels that are not ASCII *)

(** The first tiers of an editor whose labels were left empty are written with Chinese labels. *)
Definition unnamed_tiers : list tier :=
  [Tier [TCond $"len" $"<" (VNum (of_Z 200000))] (of_Z 3) (of_Z 15) [] None []; Tier [] (of_Z 6) (of_Z 22) [] None []].

(** The label of the matched tier is never found when it is written with other characters than
    ASCII, such as the labels the editor gives to tiers without one: the log names the matched
    tier and shows the prices of the first. *)
Theorem unnamed_tier_shows_first_prices :
  map (fun e => e.1.2) (written unnamed_tiers) = [$"第1档"; $"第2档"]
  /\ renderTieredModelPrice (expr_b64 (generateExprFromVisualConfig (Some unnamed_tiers))) $"第2档"
     = tier_article $"第2档" (Tier [TCond $"len" $"<" (VNum (of_Z 200000))] (of_Z 3) (of_Z 15) [] None [])
  /\ tier_article $"第2档" (Tier [TCond $"len" $"<" (VNum (of_Z 200000))] (of_Z 3) (of_Z 15) [] None [])
     <> tier_article $"第2档" (Tier [] (of_Z 6) (of_Z 22) [] None []).
Proof. split; [vm_compute; reflexivity|split; [vm_compute; reflexivity|]]. vm_compute. discriminate. Qed.

(** ** Witnesses *)

Definition long_tier : tier := Tier [] (of_Z 6) (of_Z 22) $"long" None [($"cache_read_unit_cost", of_Z 2)].
Definition named_tiers : list tier := [Tier [TCond $"len" $"<" (VNum (of_Z 200000))] (of_Z 3) (of_Z 15) $"base" None []; long_tier].

Lemma named_tiers_ok : config_ok named_tiers.
Proof.
  split; [done| |].
  - apply List.Forall_forall. intros t Ht. apply TieredEditorProofs.tier_fineb_ok. revert t Ht. apply forallb_forall. by vm_compute.
  - split; [|done]. unfold conditioned. by vm_compute.
Qed.

Lemma named_ascii : ascii (generateExprFromVisualConfig (Some named_tiers)).
Proof.
  apply Forall_forall. intros c Hc%list_elem_of_In.
  assert (H : forallb (fun c => (0 <=? c) && (c <? 128)) (generateExprFromVisualConfig (Some named_tiers)) = true) by (vm_compute; reflexivity).
  rewrite forallb_forall in H. apply H in Hc. lia.
Qed.

Lemma log_shows_matched_tier_witness :
  renderTieredModelPrice (expr_b64 (generateExprFromVisualConfig (Some named_tiers))) $"long" = tier_article $"long" long_tier.
Proof.
  apply (log_shows_matched_tier named_tiers ([], $"long", long_tier));
    [apply named_tiers_ok|apply named_ascii|vm_compute; discriminate|vm_compute; reflexivity].
Defined.

Lemma log_prices_entered_witness :
  let cs := coefficients (buildTierBodyExpr long_tier) in
  coefficient $"p" cs = or_zero (input_unit_cost long_tier) /\ coefficient $"c" cs = or_zero (output_unit_cost long_tier)
  /\ coefficient $"cr" cs = cost_of $"cache_read_unit_cost" long_tier.
Proof.
  apply (log_prices_entered long_tier $"cache_read_unit_cost" $"cr"); [|left].
  apply TieredEditorProofs.tier_fineb_ok. vm_compute. reflexivity.
Defined.

End TieredLogProofs.
