(* ===== verification/LogDetails.v ===== *)
(** * The details of a usage log

    [hooks/usage-logs/useUsageLogsData.jsx], [setLogsFormat]: the rows that unfold under a log,
    computed from the log, its [other] field and the role of the user.  A row is the key of its
    title and its value; the values of prices are the articles of [Billing] and [TieredLog]. *)
From Stdlib Require Import SpecFloat.
From S2P Require Import Prelude JSNum JSValue Json FormValues ClientHelpers Billing TieredLog.
#[local] Open Scope Z_scope.
#[local] Arguments js _ : simpl never.

Module LogDetails.
Import FormValues ClientHelpers Billing TieredLog.

(** ** The arguments of the renderers *)

(** [const { k = d } = opts] for a number. *)
Definition num_or (d : num) (o : val) (k : jsstr) : num := match get_any o k with VUndef => d | v => Number_val v end.
(** [k ?? 0] *)
Definition num_nullish (o : val) (k : jsstr) : num := if is_nullish (get_any o k) then n0 else Number_val (get_any o k).
Definition user_ratio (o : val) : option num := match get_any o $"user_group_ratio" with VNum n => Some n | _ => None end.
Definition flag (o : val) (k : jsstr) : bool := truthy (get_any o k).

(** The model price that means none. *)
Definition NONE : num := of_Z (-1).

Definition usage_of (o : val) (prompt completion : num) : usage (K := num) :=
  Usage prompt completion (num_or n0 o $"model_ratio") (num_or NONE o $"model_price") (num_nullish o $"completion_ratio")
    (Number_val (get_any o $"group_ratio")) (user_ratio o) (num_or n0 o $"cache_tokens") (num_or n1 o $"cache_ratio")
    (flag o $"image") (num_or n1 o $"image_ratio") (num_or n0 o $"image_output")
    (flag o $"web_search") (num_or n0 o $"web_search_call_count") (num_or n0 o $"web_search_price")
    (flag o $"file_search") (num_or n0 o $"file_search_call_count") (num_or n0 o $"file_search_price")
    (flag o $"audio_input_seperate_price") (num_or n0 o $"audio_input_token_count") (num_or n0 o $"audio_input_price")
    (flag o $"image_generation_call") (num_or n0 o $"image_generation_call_price").

Definition audio_usage_of (o : val) (prompt completion : num) : audio_usage (K := num) :=
  let ratio := if is_nullish (get_any o $"audio_ratio") then VNum n0 else get_any o $"audio_ratio" in
  AudioUsage prompt completion (num_or n0 o $"model_ratio") (num_or NONE o $"model_price") (num_nullish o $"completion_ratio")
    (num_or n0 o $"audio_input") (num_or n0 o $"audio_output") (Number_str (toFixed (parseFloat (String_val ratio)) 6))
    (num_nullish o $"audio_completion_ratio") (Number_val (get_any o $"group_ratio")) (user_ratio o) (num_or n0 o $"cache_tokens")
    (num_or n1 o $"cache_ratio").

Definition claude_usage_of (o : val) (prompt completion : num) : claude_usage (K := num) :=
  ClaudeUsage prompt completion (num_or n0 o $"model_ratio") (num_or NONE o $"model_price") (num_nullish o $"completion_ratio")
    (Number_val (get_any o $"group_ratio")) (user_ratio o) (num_or n0 o $"cache_tokens") (num_or n1 o $"cache_ratio")
    (num_or n0 o $"cache_creation_tokens") (num_or n1 o $"cache_creation_ratio") (num_or n0 o $"cache_creation_tokens_5m")
    (num_or n1 o $"cache_creation_ratio_5m") (num_or n0 o $"cache_creation_tokens_1h") (num_or n1 o $"cache_creation_ratio_1h").

Definition log_usage_of (o : val) : log_usage (K := num) :=
  LogUsage (Number_val (get_any o $"model_ratio")) (Number_val (get_any o $"completion_ratio")) (num_or NONE o $"model_price")
    (Number_val (get_any o $"group_ratio")) (user_ratio o) (num_or n1 o $"cache_ratio") (flag o $"image") (num_or n1 o $"image_ratio")
    (flag o $"web_search") (num_or n0 o $"web_search_call_count") (flag o $"file_search") (num_or n0 o $"file_search_call_count").

Definition claude_log_of (o : val) : simple (K := num) :=
  Simple (Number_val (get_any o $"model_ratio")) (num_or NONE o $"model_price") (Number_val (get_any o $"group_ratio")) (user_ratio o) n0
    (num_or n1 o $"cache_ratio") n0 (num_or n1 o $"cache_creation_ratio") (num_or n0 o $"cache_creation_tokens_5m")
    (num_or n1 o $"cache_creation_ratio_5m") (num_or n0 o $"cache_creation_tokens_1h") (num_or n1 o $"cache_creation_ratio_1h") false n1 false.

(** ** Rows *)

Inductive detail :=
| DVal (v : val) | DText (s : jsstr) | DLines (l : list (line num)) | DBilling (s : shown num) | DTiered (s : tiered_shown)
| DOverrides (count : nat).
Abbreviation row := (jsstr * detail)%type.

Definition row_if (b : bool) (k : jsstr) (d : detail) : list row := if b then [(k, d)] else [].

Definition is_undef (v : val) : bool := match v with VUndef => true | _ => false end.
(** Not undefined, not null, not the empty text. *)
Definition filled (v : val) : bool := match v with VUndef | VNull => false | VStr s => nonempty s | _ => true end.

(** [v > 0] *)
Definition positive (v : val) : bool := nltb n0 (Number_val v).

Section Rows.
Variable t : jsstr -> jsstr.
Variables (isAdminUser tokens : bool) (mode : display).

(** A log is its properties; [o] is its field [other], as [getLogOther] reads it. *)
Definition is_type (log : object) (n : Z) : bool := is_int (fld $"type" log) n.

Definition requestConversionDisplayValue (chain : val) : jsstr :=
  match chain with
  | VArr l => let l := List.filter truthy l in if (length l <=? 1)%nat then t $"原生格式" else join $" -> " (map String_val l)
  | _ => t $"原生格式"
  end.

Definition head_rows (log : object) (o : val) : list row :=
  row_if (isAdminUser && (is_type log 0 || is_type log 2 || is_type log 6)) $"渠道信息"
    (DText (String_val (fld $"channel" log) ++ $" - " ++ String_val (or_else (fld $"channel_name" log) (VStr $"[未知]"))))
  ++ row_if (truthy (fld $"request_id" log)) $"Request ID" (DVal (fld $"request_id" log))
  ++ (if flag o $"ws" || flag o $"audio" then
        [($"语音输入", DVal (get_any o $"audio_input")); ($"语音输出", DVal (get_any o $"audio_output"));
         ($"文字输入", DVal (get_any o $"text_input")); ($"文字输出", DVal (get_any o $"text_output"))]
      else [])
  ++ row_if (positive (get_any o $"cache_tokens")) $"缓存 Tokens" (DVal (get_any o $"cache_tokens"))
  ++ row_if (positive (get_any o $"cache_creation_tokens")) $"缓存创建 Tokens" (DVal (get_any o $"cache_creation_tokens")).

Definition tiered (o : val) : bool := eq_str (get_any o $"billing_mode") $"tiered_expr".

Definition content_rows (log : object) (o : val) : list row :=
  row_if (negb (tiered o)) $"日志详情"
    (DLines (if flag o $"claude" then renderClaudeLogContent tokens mode (Number_val (get_any o $"completion_ratio")) (claude_log_of o)
             else renderLogContent tokens mode (log_usage_of o)))
  ++ row_if (truthy (fld $"content" log)) $"其他详情" (DVal (fld $"content" log))
  ++ row_if (isAdminUser && flag o $"reject_reason") $"拦截原因" (DVal (get_any o $"reject_reason")).

Definition isViolationFeeLog (o : val) : bool := eq_bool (get_any o $"violation_fee") true || flag o $"violation_fee_code" || flag o $"violation_fee_marker".

(** How the price of the request was computed. *)
Definition billing (log : object) (o : val) : shown num :=
  let prompt := num_or n0 (VObj log) $"prompt_tokens" in
  let completion := num_or n0 (VObj log) $"completion_tokens" in
  let isTaskLog := eq_bool (get_any o $"is_task") true || negb (is_nullish (get_any o $"task_id")) in
  if isTaskLog && is_int (get_any o $"model_price") (-1) then
    renderTaskBillingProcess (negb (is_nullish (get_any o $"task_id"))) (if truthy (fld $"content" log) then String_val (fld $"content" log) else [])
  else if flag o $"ws" || flag o $"audio" then renderAudioModelPrice tokens (audio_usage_of o prompt completion)
  else if flag o $"claude" then renderClaudeModelPrice tokens (claude_usage_of o prompt completion)
  else renderModelPrice tokens (usage_of o prompt completion).

Definition BILLING_KEY : jsstr := $"计费过程".

Definition billing_rows (log : object) (o : val) : list row :=
  (if flag o $"is_model_mapped" && flag o $"upstream_model_name" then
     [($"请求并计费模型", DVal (fld $"model_name" log)); ($"实际模型", DVal (get_any o $"upstream_model_name"))]
   else [])
  ++ row_if (negb (isViolationFeeLog o) && negb (tiered o)) BILLING_KEY (DBilling (billing log o))
  ++ row_if (flag o $"reasoning_effort") $"Reasoning Effort" (DVal (get_any o $"reasoning_effort"))
  ++ row_if (tiered o && flag o $"expr_b64") BILLING_KEY
       (DTiered (renderTieredModelPrice (String_val (get_any o $"expr_b64"))
          (if truthy (get_any o $"matched_tier") then String_val (get_any o $"matched_tier") else []))).

Definition task_rows (o : val) : list row :=
  row_if (flag o $"task_id") $"任务ID" (DVal (get_any o $"task_id")) ++ row_if (flag o $"reason") $"失败原因" (DVal (get_any o $"reason")).

Definition stream_rows (o : val) : list row :=
  if isAdminUser && flag o $"stream_status" then
    let ss := get_any o $"stream_status" in
    let label := if eq_str (get_any ss $"status") $"ok" then $"✓ " ++ t $"正常" else $"✗ " ++ t $"异常" in
    let s := label ++ $" (" ++ String_val (or_else (get_any ss $"end_reason") (VStr $"unknown")) ++ $")"
             ++ (if positive (get_any ss $"error_count") then $" [" ++ t $"软错误" ++ $": " ++ String_val (get_any ss $"error_count") ++ $"]" else [])
             ++ (if flag ss $"end_error" then $" - " ++ String_val (get_any ss $"end_error") else []) in
    ($"流状态", DText s)
    :: match get_any ss $"errors" with
       | VArr (x :: l) => [($"流错误详情", DText (join [10] (map (fun v => if is_nullish v then [] else String_val v) (x :: l))))]
       | _ => []
       end
  else [].

Definition override_rows (o : val) : list row :=
  match get_any o $"po" with VArr (x :: l) => [($"参数覆盖", DOverrides (length (x :: l)))] | _ => [] end.

(** [v ?? d] *)
Definition coalesce (v d : val) : val := if is_nullish v then d else v.

Definition subscription_rows (o : val) : list row :=
  if eq_str (get_any o $"billing_source") $"subscription" then
    let unit := t $"额度" in
    let pre := coalesce (get_any o $"subscription_pre_consumed") (VNum n0) in
    let postDelta := coalesce (get_any o $"subscription_post_delta") (VNum n0) in
    let consumed := coalesce (get_any o $"subscription_consumed") (VNum (nadd (Number_val pre) (Number_val postDelta))) in
    row_if (flag o $"subscription_plan_id") $"订阅套餐"
      (DText (trim ($"#" ++ String_val (get_any o $"subscription_plan_id") ++ $" " ++ String_val (or_else (get_any o $"subscription_plan_title") (VStr [])))))
    ++ row_if (flag o $"subscription_id") $"订阅实例" (DText ($"#" ++ String_val (get_any o $"subscription_id")))
    ++ [($"订阅结算", DText (join [10]
          [t $"预扣" ++ $"：" ++ String_val pre ++ $" " ++ unit;
           t $"结算差额" ++ $"：" ++ (if positive postDelta then $"+" else []) ++ String_val postDelta ++ $" " ++ unit;
           t $"最终抵扣" ++ $"：" ++ String_val consumed ++ $" " ++ unit]))]
    ++ row_if (negb (is_undef (get_any o $"subscription_remain")) && negb (is_undef (get_any o $"subscription_total"))) $"订阅剩余"
         (DText (String_val (get_any o $"subscription_remain") ++ $"/" ++ String_val (get_any o $"subscription_total") ++ $" " ++ unit))
    ++ [($"订阅说明", DText (t $"token 会按倍率换算成“额度/次数”，请求结束后再做差额结算（补扣/返还）。"))]
  else [].

Definition counting_rows (log : object) (o : val) : list row :=
  if isAdminUser && negb (is_type log 6) && negb (is_type log 1) then
    [($"请求转换", DText (requestConversionDisplayValue (get_any o $"request_conversion")));
     ($"计费模式", DText (if flag (get_any o $"admin_info") $"local_count_tokens" then t $"本地计费" else t $"上游返回"))]
  else [].

Definition audit_rows (log : object) (o : val) : list row :=
  if isAdminUser && is_type log 1 then
    let info := get_any o $"admin_info" in
    if truthy info then
      let r k field := row_if (flag info field) k (DVal (get_any info field)) in
      r $"订单支付方式" $"payment_method" ++ r $"回调支付方式" $"callback_payment_method" ++ r $"回调调用者IP" $"caller_ip"
      ++ r $"服务器IP" $"server_ip" ++ r $"节点名称" $"node_name" ++ r $"系统版本" $"version"
    else [($"审计信息", DText (t $"该记录由旧版本实例写入，缺少审计信息，建议将实例升级至最新版本以便记录服务器IP、回调IP、支付方式与系统版本等审计字段。"))]
  else [].

Definition operator_rows (log : object) (o : val) : list row :=
  if isAdminUser && is_type log 3 && flag o $"admin_info" then
    let info := get_any o $"admin_info" in
    let has k := filled (get_any info k) in
    let name := String_val (get_any info $"admin_username") in
    let id := String_val (get_any info $"admin_id") in
    row_if (has $"admin_username" || has $"admin_id") $"操作管理员"
      (DText (if has $"admin_username" then if has $"admin_id" then name ++ $" (ID: " ++ id ++ $")" else name else $"ID: " ++ id))
  else [].

(** All rows of a log, in order. *)
Definition details (log : object) : list row :=
  let o := getLogOther (fld $"other" log) in
  head_rows log o
  ++ (if is_type log 2 then content_rows log o ++ billing_rows log o else [])
  ++ (if is_type log 6 then task_rows o else [])
  ++ row_if (flag o $"request_path") $"请求路径" (DVal (get_any o $"request_path"))
  ++ stream_rows o ++ override_rows o ++ subscription_rows o ++ counting_rows log o ++ audit_rows log o ++ operator_rows log o.

End Rows.

(** ** What users who are no administrators see *)

(** Fields that are for administrators. *)
Definition SECRET_LOG : list jsstr := [$"channel"; $"channel_name"; $"other"].
Definition SECRET_OTHER : list jsstr := [$"admin_info"; $"stream_status"; $"reject_reason"; $"request_conversion"].

Definition same_but (ks : list jsstr) (get : jsstr -> val) (get' : jsstr -> val) : Prop := forall k, memk k ks = false -> get k = get' k.

Section Private.
Variable t : jsstr -> jsstr.
Variables (tokens : bool) (mode : display).
Variables (log log' : object) (o o' : val).
Hypothesis same_log : same_but SECRET_LOG (fun k => fld k log) (fun k => fld k log').
Hypothesis same_other : same_but SECRET_OTHER (get_any o) (get_any o').

Lemma same_fld k : memk k SECRET_LOG = false -> fld k log = fld k log'.
Proof. apply same_log. Qed.

Lemma same_num_or d k : memk k SECRET_OTHER = false -> num_or d o k = num_or d o' k.
Proof. intros H. unfold num_or. by rewrite (same_other k H). Qed.
Lemma same_nullish k : memk k SECRET_OTHER = false -> num_nullish o k = num_nullish o' k.
Proof. intros H. unfold num_nullish. by rewrite (same_other k H). Qed.
Lemma same_flag k : memk k SECRET_OTHER = false -> flag o k = flag o' k.
Proof. intros H. unfold flag. by rewrite (same_other k H). Qed.
Lemma same_user : user_ratio o = user_ratio o'.
Proof. unfold user_ratio. by rewrite same_other by (vm_compute; reflexivity). Qed.
Lemma same_type n : is_type log n = is_type log' n.
Proof. unfold is_type. by rewrite same_fld by (vm_compute; reflexivity). Qed.
Lemma same_log_num d k : memk k SECRET_LOG = false -> num_or d (VObj log) k = num_or d (VObj log') k.
Proof. intros H. unfold num_or. change (get_any (VObj log) k) with (fld k log). change (get_any (VObj log') k) with (fld k log'). by rewrite same_fld. Qed.

(** Every read of a field that is not secret. *)
Ltac same :=
  rewrite ?same_user, ?same_type;
  repeat match goal with
  | |- context [num_or ?d o ?k] => rewrite (same_num_or d k) by (vm_compute; reflexivity)
  | |- context [num_or ?d (VObj log) ?k] => rewrite (same_log_num d k) by (vm_compute; reflexivity)
  | |- context [num_nullish o ?k] => rewrite (same_nullish k) by (vm_compute; reflexivity)
  | |- context [flag o ?k] => rewrite (same_flag k) by (vm_compute; reflexivity)
  | |- context [get_any o ?k] => rewrite (same_other k) by (vm_compute; reflexivity)
  | |- context [fld ?k log] => rewrite (same_fld k) by (vm_compute; reflexivity)
  end.

Lemma private_usage p c : usage_of o p c = usage_of o' p c.
Proof. unfold usage_of. same. reflexivity. Qed.
Lemma private_audio p c : audio_usage_of o p c = audio_usage_of o' p c.
Proof. unfold audio_usage_of. same. reflexivity. Qed.
Lemma private_claude p c : claude_usage_of o p c = claude_usage_of o' p c.
Proof. unfold claude_usage_of. same. reflexivity. Qed.
Lemma private_log_usage : log_usage_of o = log_usage_of o'.
Proof. unfold log_usage_of. same. reflexivity. Qed.
Lemma private_claude_log : claude_log_of o = claude_log_of o'.
Proof. unfold claude_log_of. same. reflexivity. Qed.

Lemma private_head : head_rows false log o = head_rows false log' o'.
Proof. unfold head_rows. cbn [andb row_if]. same. reflexivity. Qed.

Lemma private_content : content_rows false tokens mode log o = content_rows false tokens mode log' o'.
Proof. unfold content_rows, tiered. cbn [andb row_if]. rewrite private_log_usage, private_claude_log. same. reflexivity. Qed.

Lemma private_billing : billing tokens log o = billing tokens log' o'.
Proof. unfold billing. rewrite private_usage, private_audio, private_claude. same. reflexivity. Qed.

Lemma private_billing_rows : billing_rows tokens log o = billing_rows tokens log' o'.
Proof. unfold billing_rows, isViolationFeeLog, tiered. rewrite private_billing. same. reflexivity. Qed.

Lemma private_rest :
  task_rows o = task_rows o' /\ stream_rows t false o = stream_rows t false o' /\ override_rows o = override_rows o'
  /\ subscription_rows t o = subscription_rows t o' /\ counting_rows t false log o = counting_rows t false log' o'
  /\ audit_rows t false log o = audit_rows t false log' o' /\ operator_rows false log o = operator_rows false log' o'.
Proof.
  unfold task_rows, stream_rows, override_rows, subscription_rows, counting_rows, audit_rows, operator_rows. cbn [andb]. same. auto 10.
Qed.
End Private.

(** C28: nothing that is for administrators reaches the details another user sees: changing the
    channel of a log and its administrative fields does not change them. *)
Theorem details_keep_secrets (t : jsstr -> jsstr) (tokens : bool) (mode : display) (log log' : object) :
  same_but SECRET_LOG (fun k => fld k log) (fun k => fld k log') ->
  same_but SECRET_OTHER (get_any (getLogOther (fld $"other" log))) (get_any (getLogOther (fld $"other" log'))) ->
  details t false tokens mode log = details t false tokens mode log'.
Proof.
  intros Hl Ho. unfold details. set (o := getLogOther (fld $"other" log)) in *. set (o' := getLogOther (fld $"other" log')) in *.
  destruct (private_rest t log log' o o' Ho) as (E1 & E2 & E3 & E4 & E5 & E6 & E7). rewrite E1, E2, E3, E4, E5, E6, E7.
  rewrite (private_head log log' o o' Hl Ho), (private_content tokens mode log log' o o' Hl Ho), (private_billing_rows tokens log log' o o' Hl Ho).
  rewrite !(same_type log log' Hl), (same_flag o o' Ho $"request_path") by (vm_compute; reflexivity).
  by rewrite (Ho $"request_path") by (vm_compute; reflexivity).
Qed.

(** ** Witnesses *)

Definition sample_other : object := [($"model_ratio", VNum (of_Z 2)); ($"group_ratio", VNum n1); ($"admin_info", VObj [($"use_channel", VArr [])])].
Definition sample_log (channel : Z) (other : object) : object :=
  [($"id", VNum (of_Z 7)); ($"type", VNum (of_Z 2)); ($"channel", VNum (of_Z channel)); ($"prompt_tokens", VNum (of_Z 10)); ($"other", VObj other)].

Lemma details_keep_secrets_witness :
  details (fun s => s) false false AsPrice (sample_log 3 sample_other) = details (fun s => s) false false AsPrice (sample_log 9 (take 2 sample_other)).
Proof.
  apply details_keep_secrets; intros k H.
  - unfold fld, sample_log. cbn [prop]. apply memk_cons in H as [N1 H]. destruct (str_eqb_spec k $"channel"); [done|].
    apply memk_cons in H as [_ H]. apply memk_cons in H as [N2 _]. by destruct (str_eqb_spec k $"other").
  - change (getLogOther (fld $"other" (sample_log 3 sample_other))) with (VObj sample_other).
    change (getLogOther (fld $"other" (sample_log 9 (take 2 sample_other)))) with (VObj (take 2 sample_other)).
    unfold get_any, sample_other. cbn [entries take prop]. apply memk_cons in H as [N1 _]. by destruct (str_eqb_spec k $"admin_info").
Defined.

End LogDetails.
