(* ===== verification/AsyncHook.v ===== *)
(** * Components that send requests

    What the list hooks share: a component is a state that events change and answers to its
    requests change; both may send further requests.  Requests are answered in any order, or
    fail.  A request carries what its continuation captured when it was sent.  [encodeURI] and
    [encodeURIComponent] are the functions of the language. *)
From S2P Require Import Prelude JSNum JSValue Json FormValues Passkey.
#[local] Open Scope Z_scope.
#[local] Arguments js _ : simpl never.

Module AsyncHook.
Import FormValues.

(** ** Answers *)

(** The server serves the data, or refuses with a message, or the request fails. *)
Inductive answer := Served (data : val) | Refused (message : val) | Failed (error : val).

(** ** The interface of a component *)

Class Hook (S E R : Type) := {
  on_event : E -> S -> S * list R;
  on_answer : R -> answer -> S -> S * list R
}.

(** ** Runs *)

Section Runs.
Context {S E R : Type} {hook : Hook S E R}.

(** The state with the requests under way. *)
Record sys := Sys { state : S; pending : list R }.

Definition fire (e : E) (s : sys) : sys := let '(x, rs) := on_event e (state s) in Sys x (pending s ++ rs).
Definition reply (i : nat) (r : R) (a : answer) (s : sys) : sys :=
  let '(x, rs) := on_answer r a (state s) in Sys x (delete i (pending s) ++ rs).

Lemma fire_eq e s : fire e s = Sys (on_event e (state s)).1 (pending s ++ (on_event e (state s)).2).
Proof. unfold fire. by destruct (on_event e (state s)). Qed.
Lemma reply_eq i r a s : reply i r a s = Sys (on_answer r a (state s)).1 (delete i (pending s) ++ (on_answer r a (state s)).2).
Proof. unfold reply. by destruct (on_answer r a (state s)). Qed.

Inductive sys_step : sys -> sys -> Prop :=
| user_acts e s : sys_step s (fire e s)
| is_answered i r a s : pending s !! i = Some r -> sys_step s (reply i r a s).

Inductive reach (s0 : sys) : sys -> Prop :=
| reach_start : reach s0 s0
| reach_next s s' : reach s0 s -> sys_step s s' -> reach s0 s'.

(** A property that events and answers keep holds in every reachable state. *)
Lemma reach_invariant (P : sys -> Prop) s0 :
  P s0 -> (forall e s, P s -> P (fire e s)) -> (forall i r a s, P s -> pending s !! i = Some r -> P (reply i r a s)) ->
  forall s, reach s0 s -> P s.
Proof. intros P0 Pe Pa s Hr. induction Hr as [|s s' _ IH St]; [done|]. destruct St; [by apply Pe|by apply Pa]. Qed.

(** Runs in which every answer is one the server gives to its request. *)
Inductive served_reach (ok : R -> answer -> Prop) (s0 : sys) : sys -> Prop :=
| served_start : served_reach ok s0 s0
| served_event e s : served_reach ok s0 s -> served_reach ok s0 (fire e s)
| served_answer i r a s : served_reach ok s0 s -> pending s !! i = Some r -> ok r a -> served_reach ok s0 (reply i r a s).

(** How many requests of a kind are under way. *)
Definition count (p : R -> bool) (l : list R) : nat := length (List.filter p l).

Lemma count_app p l l' : count p (l ++ l') = (count p l + count p l')%nat.
Proof. unfold count. by rewrite List.filter_app, length_app. Qed.

Lemma count_delete p l i r : l !! i = Some r -> (count p (delete i l) + (if p r then 1 else 0))%nat = count p l.
Proof.
  intros H. rewrite <- (take_drop_middle l i r H) at 2. rewrite delete_take_drop, !count_app. unfold count at 4. cbn [List.filter].
  destruct (p r); cbn [length]; unfold count; lia.
Qed.

Lemma count_some p l : (0 < count p l)%nat -> exists r, r ∈ l /\ p r = true.
Proof.
  unfold count. destruct (List.filter p l) as [|r x] eqn:F; [cbn; lia|]. intros _. exists r.
  assert (I : In r (List.filter p l)) by (rewrite F; by left). apply filter_In in I as [I P]. split; [by apply list_elem_of_In|done].
Qed.

Lemma count_zero p l r : count p l = 0%nat -> r ∈ l -> p r = false.
Proof.
  intros H Hr. destruct (p r) eqn:Ep; [|done]. exfalso. apply list_elem_of_In in Hr.
  assert (I : In r (List.filter p l)) by (by apply filter_In). unfold count in H. by destruct (List.filter p l).
Qed.

(** *** Indicators *)

(** An indicator that is switched on only together with a request of its kind and that the answer
    to such a request switches off, or on again with another one, is on only while a request of
    its kind is under way. *)
Lemma indicator_on (ok : R -> answer -> Prop) (on : S -> bool) (kind : R -> bool) (s0 : sys) :
  (forall e x, on (on_event e x).1 = true -> on x = true \/ (0 < count kind (on_event e x).2)%nat) ->
  (forall r a x, ok r a -> on (on_answer r a x).1 = true -> (kind r = false /\ on x = true) \/ (0 < count kind (on_answer r a x).2)%nat) ->
  (on (state s0) = true -> (0 < count kind (pending s0))%nat) ->
  forall s, served_reach ok s0 s -> on (state s) = true -> (0 < count kind (pending s))%nat.
Proof.
  intros He Ha H0 s R'. induction R' as [|e s _ IH|i r a s _ IH Hr Hok]; [exact H0| |].
  - rewrite fire_eq. cbn [state pending]. rewrite count_app. intros H. destruct (He _ _ H) as [H'|]; [apply IH in H'; lia|lia].
  - rewrite reply_eq. cbn [state pending]. rewrite count_app. intros H. pose proof (count_delete kind _ _ _ Hr) as N.
    destruct (Ha _ _ _ Hok H) as [[K H']|]; [|lia]. rewrite K in N. apply IH in H'. lia.
Qed.

End Runs.
Arguments sys : clear implicits.

(** ** Addresses *)

Definition hex_upper (d : Z) : Z := if d <? 10 then 48 + d else 55 + d.
Definition percent (b : Z) : jsstr := [37; hex_upper (b / 16); hex_upper (b mod 16)].

Definition encode (keep : Z -> bool) (s : jsstr) : jsstr := flat_map (fun b => if keep b then [b] else percent b) (Base64.encode_text s).

Definition one_of (s : jsstr) (c : Z) : bool := existsb (Z.eqb c) s.
Definition alnum (c : Z) : bool := is_digit c || ((97 <=? c) && (c <=? 122)) || ((65 <=? c) && (c <=? 90)).
Definition unreserved (c : Z) : bool := alnum c || one_of $"-_.!~*'()" c.
Definition encodeURIComponent (s : jsstr) : jsstr := encode unreserved s.
Definition encodeURI (s : jsstr) : jsstr := encode (fun c => unreserved c || one_of $";/?:@&=+$,#" c) s.

(** The bytes of a text are not negative, so a percent code never reads as a separator. *)
Lemma percent_no (c b : Z) : 0 <= b < 256 -> c <> 37 -> alnum c = false -> c ∉ percent b.
Proof.
  intros Hb Hc Ha. unfold percent.
  assert (H : forall d, 0 <= d < 16 -> alnum (hex_upper d) = true) by (intros d Hd; unfold hex_upper, alnum, is_digit; destruct (Z.ltb_spec d 10); lia).
  rewrite !not_elem_of_cons. split; [done|]. split; [|split; [|apply not_elem_of_nil]].
  - intros ->. rewrite H in Ha; [done|]. split; [apply Z.div_pos; lia|apply Z.div_lt_upper_bound; lia].
  - intros ->. rewrite H in Ha; [done|]. apply Z.mod_pos_bound. lia.
Qed.

(** What [encodeURIComponent] writes has no separator of a query. *)
Lemma component_no_separator c s :
  Forall (fun c => 0 <= c < 65536) s -> c <> 37 -> unreserved c = false -> c ∉ encodeURIComponent s.
Proof.
  intros Hs Hc Hu. pose proof (Base64.encode_text_bytes s Hs) as Hb. unfold encodeURIComponent, encode.
  induction Hb as [|b l Hb _ IH]; [apply not_elem_of_nil|]. cbn [flat_map]. apply not_elem_of_app. split; [|exact IH].
  destruct (unreserved b) eqn:E; [apply not_elem_of_cons; split; [congruence|apply not_elem_of_nil]|].
  apply percent_no; [exact Hb|done|]. unfold unreserved in Hu. by apply orb_false_iff in Hu as [-> _].
Qed.

End AsyncHook.
