(* ===== verification/LogTables.v ===== *)
(** * The tables of logs

    [hooks/usage-logs/useUsageLogsData.jsx], [hooks/mj-logs/useMjLogsData.js] and
    [hooks/task-logs/useTaskLogsData.js]: the requests for a page of logs and for statistics, the
    handlers of the pages, and what the answers change, as instances of [AsyncHook.Hook].  The
    clock, the reading of dates and the translation are parameters. *)
From Stdlib Require Import SpecFloat.
From S2P Require Import Prelude JSNum JSValue Json FormValues ClientHelpers Passkey Billing TieredLog LogDetails AsyncHook.
#[local] Open Scope Z_scope.
#[local] Arguments js _ : simpl never.

Module LogTables.
Import FormValues ClientHelpers Billing TieredLog LogDetails AsyncHook.

Definition ITEMS_PER_PAGE : Z := 10.

(** [parseInt(localStorage.getItem(k)) || ITEMS_PER_PAGE] *)
Definition stored_size (k : jsstr) (st : storage) : val :=
  let n := match getItem k st with Some s => parseInt10 s | None => NaN end in
  if num_truthy n then VNum n else int ITEMS_PER_PAGE.

(** The two dates of the form, or those of the page. *)
Definition date_range (form : option object) (initial : val * val) : val * val :=
  match form with
  | Some f => match fld $"dateRange" f with VArr [a; b] => (a, b) | _ => initial end
  | None => initial
  end.

(** [formValues[k] || ''] *)
Definition form_text (form : option object) (k : jsstr) : jsstr :=
  match form with Some f => String_val (or_else (fld k f) (VStr [])) | None => [] end.

(** The objects of a list; something else throws. *)
Fixpoint objects_of (l : list val) : option (list object) :=
  match l with
  | [] => Some []
  | VObj o :: r => option_map (cons o) (objects_of r)
  | _ => None
  end.

Section Usage.
Variable t : jsstr -> jsstr.
Variable stamp : num -> jsstr.          (** [timestamp2string] *)
Variable date_parse : val -> num.       (** [Date.parse] *)
Variables (isAdminUser tokens : bool) (initial : val * val).

(** ** Usage logs *)

Record ulogs := ULogs {
  logs : list object; expandData : list (jsstr * list row); showStat : bool; loading : bool; loadingStat : bool;
  activePage : val; logCount : val; pageSize : val; stat : val; mode : display; form : option object;
  userInfo : option val; errors : list val; store : storage
}.

Definition set_page (p : val) (s : ulogs) : ulogs :=
  ULogs (logs s) (expandData s) (showStat s) (loading s) (loadingStat s) p (logCount s) (pageSize s) (stat s) (mode s) (form s) (userInfo s) (errors s) (store s).
Definition set_size (z : val) (s : ulogs) : ulogs :=
  ULogs (logs s) (expandData s) (showStat s) (loading s) (loadingStat s) (activePage s) (logCount s) z (stat s) (mode s) (form s) (userInfo s) (errors s) (store s).
Definition set_count (n : val) (s : ulogs) : ulogs :=
  ULogs (logs s) (expandData s) (showStat s) (loading s) (loadingStat s) (activePage s) n (pageSize s) (stat s) (mode s) (form s) (userInfo s) (errors s) (store s).
Definition set_loading (b : bool) (s : ulogs) : ulogs :=
  ULogs (logs s) (expandData s) (showStat s) b (loadingStat s) (activePage s) (logCount s) (pageSize s) (stat s) (mode s) (form s) (userInfo s) (errors s) (store s).
Definition set_stat (v : val) (shown loading_ : bool) (s : ulogs) : ulogs :=
  ULogs (logs s) (expandData s) shown (loading s) loading_ (activePage s) (logCount s) (pageSize s) v (mode s) (form s) (userInfo s) (errors s) (store s).
Definition set_table (l : list object) (d : list (jsstr * list row)) (s : ulogs) : ulogs :=
  ULogs l d (showStat s) (loading s) (loadingStat s) (activePage s) (logCount s) (pageSize s) (stat s) (mode s) (form s) (userInfo s) (errors s) (store s).
Definition set_mode (m : display) (s : ulogs) : ulogs :=
  ULogs (logs s) (expandData s) (showStat s) (loading s) (loadingStat s) (activePage s) (logCount s) (pageSize s) (stat s) m (form s) (userInfo s) (errors s) (store s).
Definition set_form (f : option object) (s : ulogs) : ulogs :=
  ULogs (logs s) (expandData s) (showStat s) (loading s) (loadingStat s) (activePage s) (logCount s) (pageSize s) (stat s) (mode s) f (userInfo s) (errors s) (store s).
Definition set_user (u : option val) (s : ulogs) : ulogs :=
  ULogs (logs s) (expandData s) (showStat s) (loading s) (loadingStat s) (activePage s) (logCount s) (pageSize s) (stat s) (mode s) (form s) u (errors s) (store s).
Definition show_error (e : val) (s : ulogs) : ulogs :=
  ULogs (logs s) (expandData s) (showStat s) (loading s) (loadingStat s) (activePage s) (logCount s) (pageSize s) (stat s) (mode s) (form s) (userInfo s) (errors s ++ [e]) (store s).
Definition set_store (st : storage) (s : ulogs) : ulogs :=
  ULogs (logs s) (expandData s) (showStat s) (loading s) (loadingStat s) (activePage s) (logCount s) (pageSize s) (stat s) (mode s) (form s) (userInfo s) (errors s) st.

Definition MODE_KEY : jsstr := if isAdminUser then $"logs-billing-display-mode-admin" else $"logs-billing-display-mode-user".

Definition getInitialBillingDisplayMode (st : storage) : display :=
  match getItem MODE_KEY st with
  | Some m =>
    if m =s? $"price" then AsPrice else if m =s? $"ratio" then AsRatio
    else if bool_decide (getItem $"quota_display_type" st = Some $"TOKENS") then AsRatio else AsPrice
  | None => if bool_decide (getItem $"quota_display_type" st = Some $"TOKENS") then AsRatio else AsPrice
  end.

Definition init (st : storage) : ulogs :=
  ULogs [] [] false false false (int 1) (int 0) (int ITEMS_PER_PAGE) (VObj [($"quota", int 0); ($"token", int 0)]) (getInitialBillingDisplayMode st) None None []
    (setItem MODE_KEY (match getInitialBillingDisplayMode st with AsPrice => $"price" | AsRatio => $"ratio" end) st).

(** *** Requests *)

Definition seconds (v : val) : jsstr := String_num (ndiv (date_parse v) (of_Z 1000)).

(** [formValues.logType ? parseInt(formValues.logType) : 0] *)
Definition log_type (f : option object) : jsstr :=
  match f with
  | Some o => if truthy (fld $"logType" o) then String_num (parseInt10 (String_val (fld $"logType" o))) else $"0"
  | None => $"0"
  end.

Definition param (k v : jsstr) : jsstr := $"&" ++ k ++ $"=" ++ v.

Definition date_params (f : option object) : jsstr :=
  let '(a, b) := date_range f initial in param $"start_timestamp" (seconds a) ++ param $"end_timestamp" (seconds b).

Definition logs_url (page size : val) (customLogType : option val) (f : option object) : jsstr :=
  let type_ := match customLogType with Some v => String_val v | None => log_type f end in
  let text k := param k (form_text f k) in
  encodeURI (if isAdminUser then
    $"/api/log/?p=" ++ String_val page ++ param $"page_size" (String_val size) ++ param $"type" type_ ++ text $"username" ++ text $"token_name"
    ++ text $"model_name" ++ date_params f ++ text $"channel" ++ text $"group" ++ text $"request_id"
  else
    $"/api/log/self/?p=" ++ String_val page ++ param $"page_size" (String_val size) ++ param $"type" type_ ++ text $"token_name" ++ text $"model_name"
    ++ date_params f ++ text $"group" ++ text $"request_id").

Definition stat_url (f : option object) : jsstr :=
  let text k := param k (form_text f k) in
  encodeURI (if isAdminUser then
    $"/api/log/stat?type=" ++ log_type f ++ text $"username" ++ text $"token_name" ++ text $"model_name" ++ date_params f ++ text $"channel" ++ text $"group"
  else $"/api/log/self/stat?type=" ++ log_type f ++ text $"token_name" ++ text $"model_name" ++ date_params f ++ text $"group").

(** A load keeps the form of display it was sent with. *)
Inductive request := RLoad (url : jsstr) (m : display) | RStat (url : jsstr) | RUser (id : val).

Definition loadLogs (page size : val) (customLogType : option val) (s : ulogs) : ulogs * list request :=
  (set_loading true s, [RLoad (logs_url page size customLogType (form s)) (mode s)]).

Definition handleEyeClick (s : ulogs) : ulogs * list request :=
  if loadingStat s then (s, []) else (set_stat (stat s) (showStat s) true s, [RStat (stat_url (form s))]).

Definition showUserInfoFunc (id : val) (s : ulogs) : ulogs * list request := if isAdminUser then (s, [RUser id]) else (s, []).

(** *** Handlers *)

Inductive event :=
| Mount | FormReady (f : object) | Edit (f : object) | PageChange (page : val) | PageSizeChange (size : val) | Refresh | EyeClick
| ModeChange (m : display) | UserInfo (id : val).

Definition handlePageChange (page : val) (s : ulogs) : ulogs * list request := loadLogs page (pageSize s) None (set_page page s).

(** The page that is asked for is the one of the last render. *)
Definition handlePageSizeChange (size : val) (s : ulogs) : ulogs * list request :=
  loadLogs (activePage s) size None (set_page (int 1) (set_size size (set_store (setItem $"page-size" (String_val size) (store s)) s))).

Definition refresh (s : ulogs) : ulogs * list request :=
  let '(s1, r1) := handleEyeClick (set_page (int 1) s) in
  let '(s2, r2) := loadLogs (int 1) (pageSize s1) None s1 in (s2, r1 ++ r2).

Definition mount (s : ulogs) : ulogs * list request :=
  let size := stored_size $"page-size" (store s) in loadLogs (activePage s) size None (set_size size s).

Definition mode_text (m : display) : jsstr := match m with AsPrice => $"price" | AsRatio => $"ratio" end.

Definition usage_event (e : event) (s : ulogs) : ulogs * list request :=
  match e with
  | Mount => mount s
  | FormReady f => handleEyeClick (set_form (Some f) s)
  | Edit f => (set_form (Some f) s, [])
  | PageChange p => handlePageChange p s
  | PageSizeChange z => handlePageSizeChange z s
  | Refresh => refresh s
  | EyeClick => handleEyeClick s
  | ModeChange m => (set_mode m (set_store (setItem MODE_KEY (mode_text m) (store s)) s), [])
  | UserInfo id => showUserInfoFunc id s
  end.

(** *** Answers *)

Definition with_key (log : object) : object :=
  prop_set $"key" (fld $"id" log) (prop_set $"timestamp2string" (VStr (stamp (Number_val (fld $"created_at" log)))) log).

Definition log_key (log : object) : jsstr := String_val (fld $"key" log).

(** The table and the rows that unfold. *)
Definition setLogsFormat (items : list object) (m : display) (s : ulogs) : ulogs :=
  let l := map with_key items in
  set_table l (fold_left (fun d log => prop_set (log_key log) (details t isAdminUser tokens m log) d) l []) s.

(** An answer without data, or whose items are no list of objects, throws on the way. *)
Definition page_answered (data : val) (m : display) (s : ulogs) : ulogs :=
  if is_nullish data then s
  else
    let s := set_count (get_any data $"total") (set_size (get_any data $"page_size") (set_page (get_any data $"page") s)) in
    match get_any data $"items" with
    | VArr l => match objects_of l with Some items => set_loading false (setLogsFormat items m s) | None => s end
    | _ => s
    end.

Definition usage_answer (r : request) (a : answer) (s : ulogs) : ulogs * list request :=
  match r, a with
  | RLoad _ m, Served data => (page_answered data m s, [])
  | RLoad _ _, Refused e => (set_loading false (show_error e s), [])
  | RStat _, Served data => (set_stat data true false s, [])
  | RStat _, Refused e => (set_stat (stat s) true false (show_error e s), [])
  | RUser _, Served data => (set_user (Some data) s, [])
  | RUser _, Refused e => (show_error e s, [])
  | _, Failed e => (show_error e s, [])
  end.

#[export] Instance usage_hook : Hook ulogs event request := { on_event := usage_event; on_answer := usage_answer }.

Definition hasExpandableRows (s : ulogs) : bool :=
  existsb (fun log => match prop (log_key log) (expandData s) with Some (_ :: _) => true | _ => false end) (logs s).

(** *** Dialogs *)

Definition openChannelAffinityUsageCacheModal (affinity : val) : object :=
  let a k := get_any affinity k in
  [($"rule_name", or_else (a $"rule_name") (or_else (a $"reason") (VStr []))); ($"using_group", or_else (a $"using_group") (VStr []));
   ($"key_hint", or_else (a $"key_hint") (VStr [])); ($"key_fp", or_else (a $"key_fp") (VStr []))].

Definition openParamOverrideModal (log : object) (other : val) : option object :=
  match get_any other $"po" with
  | VArr l =>
    match List.filter truthy l with
    | [] => None
    | lines => Some [($"lines", VArr lines); ($"modelName", or_else (fld $"model_name" log) (VStr []));
                     ($"requestId", or_else (fld $"request_id" log) (VStr [])); ($"requestPath", or_else (get_any other $"request_path") (VStr []))]
    end
  | _ => None
  end.

End Usage.

(** ** Logs of drawings and of tasks *)

(** The two tables differ in their addresses, their filter and the unit of their dates. *)
Class PagedLog := {
  base : jsstr;                     (** the address *)
  filter_key : jsstr;               (** the identifier that can be searched for *)
  self_path : jsstr;                (** the path of a user's own logs *)
  date_text : num -> jsstr;         (** the text of a date in the address *)
  size_key : jsstr                  (** where the size of a page is stored *)
}.

#[export] Instance mj_log : PagedLog := {
  base := $"/api/mj/"; filter_key := $"mj_id"; self_path := $"self/"; date_text n := String_num n; size_key := $"mj-page-size" }.

(** [parseInt(ms / 1000)] *)
#[export] Instance task_log : PagedLog := {
  base := $"/api/task/"; filter_key := $"task_id"; self_path := $"self";
  date_text n := String_num (parseInt10 (String_num (ndiv n (of_Z 1000)))); size_key := $"task-page-size" }.

Section Paged.
Context {P : PagedLog}.
Variable stamp : num -> jsstr.
Variable date_parse : val -> num.
Variables (isAdminUser : bool) (initial : val * val).

Record plogs := PLogs {
  p_logs : list object; p_loading : bool; p_page : val; p_count : val; p_size : val; p_form : option object; p_errors : list val; p_store : storage
}.

Definition p_set_loading (b : bool) (s : plogs) : plogs :=
  PLogs (p_logs s) b (p_page s) (p_count s) (p_size s) (p_form s) (p_errors s) (p_store s).
Definition p_error (e : val) (s : plogs) : plogs :=
  PLogs (p_logs s) (p_loading s) (p_page s) (p_count s) (p_size s) (p_form s) (p_errors s ++ [e]) (p_store s).

Definition p_url (page size : val) (f : option object) : jsstr :=
  let '(a, b) := date_range f initial in
  let dates := param $"start_timestamp" (date_text (date_parse a)) ++ param $"end_timestamp" (date_text (date_parse b)) in
  if isAdminUser then
    base ++ $"?p=" ++ String_val page ++ param $"page_size" (String_val size) ++ param $"channel_id" (form_text f $"channel_id")
    ++ param filter_key (form_text f filter_key) ++ dates
  else base ++ self_path ++ $"?p=" ++ String_val page ++ param $"page_size" (String_val size) ++ param filter_key (form_text f filter_key) ++ dates.

(** A load keeps the size of the page of its render. *)
Inductive p_request := PLoad (url : jsstr) (size : val).

Definition p_load (page size : val) (s : plogs) : plogs * list p_request :=
  (p_set_loading true s, [PLoad (p_url page size (p_form s)) (p_size s)]).

Inductive p_event := PMount | PEdit (f : object) | PPage (page : val) | PSize (size : val) | PRefresh.

Definition p_on_event (e : p_event) (s : plogs) : plogs * list p_request :=
  match e with
  | PMount =>
    let size := stored_size size_key (p_store s) in
    p_load (int 1) size (PLogs (p_logs s) (p_loading s) (p_page s) (p_count s) size (p_form s) (p_errors s) (p_store s))
  | PEdit f => (PLogs (p_logs s) (p_loading s) (p_page s) (p_count s) (p_size s) (Some f) (p_errors s) (p_store s), [])
  | PPage page => p_load page (p_size s) s
  | PSize size =>
    p_load (int 1) size (PLogs (p_logs s) (p_loading s) (p_page s) (p_count s) (p_size s) (p_form s) (p_errors s)
      (setItem size_key (String_val size) (p_store s)))
  | PRefresh => p_load (int 1) (p_size s) s
  end.

(** [enrichLogs] *)
Definition enrich (log : object) : object :=
  prop_set $"key" (VStr (String_val (fld $"id" log))) (prop_set $"timestamp2string" (VStr (stamp (Number_val (fld $"created_at" log)))) log).

(** [syncPageData]; [size] is the size of the page of the render. *)
Definition p_sync (payload : val) (size : val) (s : plogs) : plogs :=
  let items := match or_else (get_any payload $"items") (VArr []) with VArr l => objects_of l | _ => None end in
  match items with
  | Some l =>
    p_set_loading false
      (PLogs (map enrich l) (p_loading s) (or_else (get_any payload $"page") (int 1)) (or_else (get_any payload $"total") (int 0))
         (or_else (get_any payload $"page_size") size) (p_form s) (p_errors s) (p_store s))
  | None => s
  end.

Definition p_on_answer (r : p_request) (a : answer) (s : plogs) : plogs * list p_request :=
  match r, a with
  | PLoad _ size, Served data => (if is_nullish data then s else p_sync data size s, [])
  | PLoad _ _, Refused e => (p_set_loading false (p_error e s), [])
  | PLoad _ _, Failed e => (p_error e s, [])
  end.

#[export] Instance paged_hook : Hook plogs p_event p_request := { on_event := p_on_event; on_answer := p_on_answer }.
End Paged.

(** ** Theorems on usage logs *)

Section UsageProofs.
Variable t : jsstr -> jsstr.
Variable stamp : num -> jsstr.
Variable date_parse : val -> num.
Variables (a tokens : bool) (initial : val * val).
#[local] Instance the_hook : Hook ulogs event request := usage_hook t stamp date_parse a tokens initial.

Definition is_stat (r : request) : bool := match r with RStat _ => true | _ => false end.
Definition stats (s : sys ulogs request) : nat := count is_stat (pending s).
Definition started (st : storage) : sys ulogs request := Sys (init a st) [].

(** Events that do not ask for statistics leave everything about them. *)
Lemma event_stat e (s : ulogs) :
  loadingStat s = true ->
  loadingStat (on_event e s).1 = true /\ stat (on_event e s).1 = stat s /\ count is_stat (on_event e s).2 = 0%nat.
Proof.
  intros H. destruct e; cbn; unfold refresh, handleEyeClick, showUserInfoFunc; cbn; rewrite ?H; cbn; try done. by destruct a.
Qed.

Lemma event_stat_free e (s : ulogs) :
  loadingStat s = false ->
  (loadingStat (on_event e s).1 = false /\ count is_stat (on_event e s).2 = 0%nat)
  \/ (loadingStat (on_event e s).1 = true /\ count is_stat (on_event e s).2 = 1%nat).
Proof.
  intros H. destruct e; cbn; unfold refresh, handleEyeClick, showUserInfoFunc; cbn; rewrite ?H; cbn; auto. destruct a; auto.
Qed.

Lemma page_answered_stat data m s :
  loadingStat (page_answered t stamp a tokens data m s) = loadingStat s /\ stat (page_answered t stamp a tokens data m s) = stat s.
Proof.
  unfold page_answered. destruct (is_nullish data); [done|]. destruct (get_any data $"items") as [| | | | |l|]; try done. by destruct (objects_of l).
Qed.

Lemma answer_other r an s : is_stat r = false -> loadingStat (on_answer r an s).1 = loadingStat s /\ stat (on_answer r an s).1 = stat s.
Proof. destruct r, an; try done; intros _; cbn; try done. apply page_answered_stat. Qed.

Lemma answer_none r an s : (on_answer r an s).2 = [].
Proof. by destruct r, an. Qed.

Lemma reply_only i r an (s : sys ulogs request) : reply i r an s = Sys (on_answer r an (state s)).1 (delete i (pending s)).
Proof. rewrite reply_eq. pose proof (answer_none r an (state s)) as E. cbn [on_answer] in *. by rewrite E, app_nil_r. Qed.

(** At most one request for statistics is under way, and none when the page does not wait for
    one. *)
Lemma stats_bounded (st : storage) (s : sys ulogs request) :
  reach (started st) s -> (stats s <= 1)%nat /\ (loadingStat (state s) = false -> stats s = 0%nat).
Proof.
  revert s. apply reach_invariant.
  - unfold stats, started. cbn. lia.
  - intros e s [I1 I2]. rewrite fire_eq. unfold stats in *. cbn [pending state]. rewrite count_app. destruct (loadingStat (state s)) eqn:E.
    + destruct (event_stat e _ E) as (E1 & _ & E2). rewrite E1, E2. split; [lia|done].
    + specialize (I2 eq_refl). destruct (event_stat_free e _ E) as [[E1 E2]|[E1 E2]]; rewrite E1, E2; split; [lia|lia|lia|done].
  - intros i r an s [I1 I2] Hr. rewrite reply_only. unfold stats in *. cbn [pending state]. pose proof (count_delete is_stat _ _ _ Hr) as D.
    destruct (is_stat r) eqn:Er; [split; [lia|]; intros _; lia|]. destruct (answer_other r an (state s) Er) as [-> _]. rewrite Nat.add_0_r in D. rewrite D. done.
Qed.

(** A request for statistics that fails blocks every later one: the page waits for ever, the
    statistics never change again and no event asks for them, until the page is loaded anew. *)
Theorem failed_stat_blocks (st : storage) (s s' : sys ulogs request) (i : nat) (url : jsstr) (e : val) :
  reach (started st) s -> pending s !! i = Some (RStat url) -> reach (reply i (RStat url) (Failed e) s) s' ->
  loadingStat (state s') = true /\ stats s' = 0%nat /\ stat (state s') = stat (state s).
Proof.
  intros R Hi R'.
  assert (W : loadingStat (state s) = true /\ stats s = 1%nat).
  { assert (In' : RStat url ∈ pending s) by (by eapply list_elem_of_lookup_2). destruct (stats_bounded st s R) as [L1 L2].
    assert (stats s <> 0%nat) by (intros Z; pose proof (count_zero is_stat _ _ Z In'); done).
    destruct (loadingStat (state s)); [|specialize (L2 eq_refl); lia]. split; [done|lia]. }
  destruct W as [W1 W2]. revert s' R'. apply reach_invariant.
  - rewrite reply_only. unfold stats in *. cbn [pending state]. pose proof (count_delete is_stat _ _ _ Hi) as D. cbn in D. split; [done|]. split; [lia|done].
  - intros ev x (I1 & I2 & I3). rewrite fire_eq. unfold stats in *. cbn [pending state]. destruct (event_stat ev _ I1) as (E1 & E2 & E3).
    rewrite count_app, E3, E1, E2. split; [done|]. split; [lia|done].
  - intros j r an x (I1 & I2 & I3) Hr. rewrite reply_only. unfold stats in *. cbn [pending state].
    assert (Er : is_stat r = false) by (eapply count_zero; [exact I2|]; by eapply list_elem_of_lookup_2).
    pose proof (count_delete is_stat _ _ _ Hr) as D. rewrite Er in D. destruct (answer_other r an (state x) Er) as [-> ->]. split; [done|]. split; [lia|done].
Qed.

(** ** The table *)

Lemma fold_details l : forall (d : list (jsstr * list row)) m log,
  NoDup (map log_key l) -> log ∈ l ->
  prop (log_key log) (fold_left (fun d log => prop_set (log_key log) (details t a tokens m log) d) l d) = Some (details t a tokens m log).
Proof.
  assert (Other : forall (l : list object) (d : list (jsstr * list row)) m k, k ∉ map log_key l ->
    prop k (fold_left (fun d log => prop_set (log_key log) (details t a tokens m log) d) l d) = prop k d).
  { induction l0 as [|x l0 IH]; intros d m k N; [done|]. cbn [map] in N. apply not_elem_of_cons in N as [N1 N2].
    cbn [fold_left]. rewrite IH by done. by rewrite prop_set_ne. }
  induction l as [|x l IH]; intros d m log N H; [by apply elem_of_nil in H|]. cbn [map] in N. apply NoDup_cons in N as [N1 N2].
  cbn [fold_left]. apply elem_of_cons in H as [->|H]; [|by apply IH]. rewrite Other by done. apply prop_set_eq.
Qed.

(** The rows that unfold under a log are the details of that log, in some form of display. *)
Definition rows_match (s : ulogs) : Prop :=
  NoDup (map log_key (logs s)) -> Forall (fun log => exists m, prop (log_key log) (expandData s) = Some (details t a tokens m log)) (logs s).

Lemma rows_match_table s s' : logs s' = logs s -> expandData s' = expandData s -> rows_match s -> rows_match s'.
Proof. unfold rows_match. by intros -> ->. Qed.

Lemma rows_match_answer data m s : rows_match s -> rows_match (page_answered t stamp a tokens data m s).
Proof.
  intros H. unfold page_answered. destruct (is_nullish data); [done|]. destruct (get_any data $"items") as [| | | | |l|]; try done.
  destruct (objects_of l) as [items|]; [|done]. intros N. cbn [set_loading setLogsFormat set_table logs expandData] in *.
  apply Forall_forall. intros log Hl. exists m. by apply fold_details.
Qed.

Theorem unfolded_rows_match (st : storage) (s : sys ulogs request) : reach (started st) s -> rows_match (state s).
Proof.
  revert s. apply (reach_invariant (fun s => rows_match (state s))).
  - intros _. constructor.
  - intros e s H. rewrite fire_eq. cbn [state].
    eapply rows_match_table; [| |exact H]; destruct e; cbn; unfold refresh, handleEyeClick, showUserInfoFunc; cbn; try destruct (loadingStat (state s)); try destruct a; done.
  - intros i r an s H Hr. rewrite reply_only. cbn [state]. destruct r as [u m|u|id], an; try (eapply rows_match_table; [| |exact H]; done).
    by apply rows_match_answer.
Qed.

(** ** Pages *)

(** A new size of the pages shows page 1 but asks for the page of the old size. *)
Theorem size_change_asks_old_page (size : val) (s : ulogs) :
  activePage (on_event (PageSizeChange size) s).1 = int 1
  /\ (on_event (PageSizeChange size) s).2 = [RLoad (logs_url date_parse a initial (activePage s) size None (form s)) (mode s)].
Proof. done. Qed.

(** When two pages are asked for in turn and the second answer comes first, the table ends with
    the first page. *)
Theorem late_page_wins (s : ulogs) (p1 p2 d1 d2 : val) (l1 : list object) :
  get_any d1 $"items" = VArr (map VObj l1) -> is_nullish d1 = false ->
  let s1 := (on_event (PageChange p1) s).1 in
  let s2 := (on_event (PageChange p2) s1).1 in
  let r1 := RLoad (logs_url date_parse a initial p1 (pageSize s) None (form s)) (mode s) in
  let r2 := RLoad (logs_url date_parse a initial p2 (pageSize s) None (form s)) (mode s) in
  (on_event (PageChange p1) s).2 = [r1] /\ (on_event (PageChange p2) s1).2 = [r2]
  /\ logs (on_answer r1 (Served d1) (on_answer r2 (Served d2) s2).1).1 = map (with_key stamp) l1
  /\ activePage (on_answer r1 (Served d1) (on_answer r2 (Served d2) s2).1).1 = get_any d1 $"page".
Proof.
  intros Hd Hn s1 s2 r1 r2. split; [done|split; [done|]]. cbn [r1 r2 on_answer the_hook usage_hook usage_answer fst].
  generalize (page_answered t stamp a tokens d2 (mode s) s2). intros x. unfold page_answered. rewrite Hn, Hd.
  assert (O : forall l, objects_of (map VObj l) = Some l) by (induction l as [|o l IH]; [done|]; cbn; by rewrite IH). rewrite O. done.
Qed.

End UsageProofs.

(** ** Witnesses *)

Definition no_t (s : jsstr) : jsstr := s.
Definition no_date (v : val) : num := n0.
Definition sample_hook : Hook ulogs event request := usage_hook no_t String_num no_date true false (VStr [], VStr []).

Definition waiting : sys ulogs request := fire (hook := sample_hook) EyeClick (started true []).

Lemma waiting_reach : reach (hook := sample_hook) (started true []) waiting.
Proof. eapply reach_next; [apply reach_start|]. apply user_acts. Qed.

Definition stat_request : request := RStat (stat_url no_date true (VStr [], VStr []) None).
Definition blocked : sys ulogs request := reply (hook := sample_hook) 0 stat_request (Failed (VStr $"offline")) waiting.

Lemma failed_stat_blocks_witness :
  let s' := fire (hook := sample_hook) Refresh blocked in
  loadingStat (state s') = true /\ stats s' = 0%nat /\ stat (state s') = stat (state waiting).
Proof.
  apply (failed_stat_blocks no_t String_num no_date true false (VStr [], VStr []) [] waiting _ 0 (stat_url no_date true (VStr [], VStr []) None) (VStr $"offline")).
  - exact waiting_reach.
  - vm_compute. reflexivity.
  - eapply reach_next; [apply reach_start|]. apply user_acts.
Defined.

Definition one_log : val := VObj [($"items", VArr [VObj [($"id", VNum (of_Z 4)); ($"type", VNum (of_Z 2))]]); ($"page", int 1); ($"total", int 1)].
Definition loaded_sys : sys ulogs request :=
  let s := fire (hook := sample_hook) Mount (started true []) in
  match pending s with r :: _ => reply (hook := sample_hook) 0 r (Served one_log) s | [] => s end.

Lemma unfolded_rows_match_witness : logs (state loaded_sys) <> [] /\ rows_match no_t true false (state loaded_sys).
Proof.
  split; [vm_compute; discriminate|]. apply (unfolded_rows_match no_t String_num no_date true false (VStr [], VStr []) []).
  eapply reach_next; [eapply reach_next; [apply reach_start|apply (user_acts Mount)]|]. unfold loaded_sys. apply is_answered. reflexivity.
Defined.

Lemma late_page_wins_witness :
  let s := init true [] in
  let s2 := (on_event (Hook := sample_hook) (PageChange (int 2)) (on_event (Hook := sample_hook) (PageChange (int 1)) s).1).1 in
  activePage (on_answer (Hook := sample_hook) (RLoad (logs_url no_date true (VStr [], VStr []) (int 1) (pageSize s) None None) AsPrice) (Served one_log)
    (on_answer (Hook := sample_hook) (RLoad (logs_url no_date true (VStr [], VStr []) (int 2) (pageSize s) None None) AsPrice)
       (Served (VObj [($"page", int 2); ($"items", VArr [])])) s2).1).1 = int 1.
Proof.
  exact (proj2 (proj2 (proj2 (late_page_wins no_t String_num no_date true false (VStr [], VStr []) (init true []) (int 1) (int 2) one_log
    (VObj [($"page", int 2); ($"items", VArr [])]) [[($"id", VNum (of_Z 4)); ($"type", VNum (of_Z 2))]] eq_refl eq_refl)))).
Defined.

End LogTables.
