(* ===== verification/Tokens.v ===== *)
(** * The list of tokens

    [hooks/tokens/useTokensData.jsx]: pages and searches, keys that are fetched on demand, the
    actions on one token and on the selected tokens, as an instance of [AsyncHook.Hook].  Rows are
    references to the objects of an answer, which the actions on a token change in place.  The
    effect on the size of the pages runs after every change of it. *)
From Stdlib Require Import SpecFloat.
From S2P Require Import Prelude JSNum JSValue Json FormValues ClientHelpers Passkey AsyncHook LogTables.
#[local] Open Scope Z_scope.
#[local] Arguments js _ : simpl never.

Module Tokens.
Import FormValues ClientHelpers AsyncHook.

(** ** State *)

(** The objects of the rows and the rows; what the page shows of them. *)
Record table := Table { heap : list object; rows : list nat; tokenCount : val; activePage : val; pageSize : val }.

(** What a key is fetched for. *)
Inductive use := ToShow | ToCopy | ToConnect | ToOpen (url : jsstr).

(** Keys by the text of the identifier; [waiting]: the requests under way and who waits. *)
Record keyring := Keyring {
  showKeys : list (jsstr * bool); resolvedTokenKeys : list (jsstr * val); loadingTokenKeys : list (jsstr * bool);
  keyRequests : list (jsstr * list use)
}.

(** What leaves the page: texts copied, addresses opened, notices. *)
Inductive output := Copied (s : jsstr) | Opened (url : jsstr) | SwitchModal (key : val) | Fluent (key : val) | Error (v : val) | Success (s : jsstr).

Record tokens := Tokens {
  tb : table; ring : keyring; loading : bool; searching : bool; searchMode : bool; selectedKeys : list nat; form : option object;
  groupRatios : object; outputs : list output
}.

Definition with_tb (x : table) (s : tokens) : tokens := Tokens x (ring s) (loading s) (searching s) (searchMode s) (selectedKeys s) (form s) (groupRatios s) (outputs s).
Definition with_ring (x : keyring) (s : tokens) : tokens := Tokens (tb s) x (loading s) (searching s) (searchMode s) (selectedKeys s) (form s) (groupRatios s) (outputs s).
Definition setLoading (x : bool) (s : tokens) : tokens := Tokens (tb s) (ring s) x (searching s) (searchMode s) (selectedKeys s) (form s) (groupRatios s) (outputs s).
Definition setSearching (x : bool) (s : tokens) : tokens := Tokens (tb s) (ring s) (loading s) x (searchMode s) (selectedKeys s) (form s) (groupRatios s) (outputs s).
Definition setSearchMode (x : bool) (s : tokens) : tokens := Tokens (tb s) (ring s) (loading s) (searching s) x (selectedKeys s) (form s) (groupRatios s) (outputs s).
Definition setSelectedKeys (x : list nat) (s : tokens) : tokens := Tokens (tb s) (ring s) (loading s) (searching s) (searchMode s) x (form s) (groupRatios s) (outputs s).
Definition set_form (x : option object) (s : tokens) : tokens := Tokens (tb s) (ring s) (loading s) (searching s) (searchMode s) (selectedKeys s) x (groupRatios s) (outputs s).
Definition setGroupRatios (x : object) (s : tokens) : tokens := Tokens (tb s) (ring s) (loading s) (searching s) (searchMode s) (selectedKeys s) (form s) x (outputs s).
Definition out (x : output) (s : tokens) : tokens := Tokens (tb s) (ring s) (loading s) (searching s) (searchMode s) (selectedKeys s) (form s) (groupRatios s) (outputs s ++ [x]).

Definition setPageSize (z : val) (s : tokens) : tokens :=
  with_tb (Table (heap (tb s)) (rows (tb s)) (tokenCount (tb s)) (activePage (tb s)) z) s.

Definition init : tokens :=
  Tokens (Table [] [] (int 0) (int 1) (int LogTables.ITEMS_PER_PAGE)) (Keyring [] [] [] []) true false false [] None [] [].

Definition row_at (s : tokens) (r : nat) : object := default [] (heap (tb s) !! r).
Definition row_id (s : tokens) (r : nat) : val := fld $"id" (row_at s r).

Section Hook.
Variable t : jsstr -> jsstr.
Variable localeCompare : jsstr -> jsstr -> Z.
Variable origin : jsstr.
Variable store : storage.

(** ** Requests *)

(** What follows a load: nothing, or for the load of the effect a report of its error, the end
    of a refresh, or the rest of a batch deletion, which knows the number of rows and the page of
    its render. *)
Inductive after := Nothing | OfEffect | EndRefresh | EndDelete (had_rows : nat) (page : val).

Inductive request :=
| RLoad (page size : val) (k : after) (render_size : val)
| RSearch (url : jsstr) (render_size : val)
| RGroups
| RKey (id : jsstr)
| RManage (id : val) (delete_ : bool) (status : option Z) (record : nat) (render_rows : list nat)
| RDelete (ids : list val) (had_rows : nat) (page size : val)
| RTimer (had_rows : nat) (page size : val)
| RBatchKeys (ids : list val) (selected : list nat) (with_name : bool).

Definition getFormValues (s : tokens) : jsstr * jsstr := (LogTables.form_text (form s) $"searchKeyword", LogTables.form_text (form s) $"searchToken").

(** The rows of an answer; [size] is the size of the pages of the render. *)
Definition syncPageData (payload : val) (size : val) (s : tokens) : option tokens :=
  match or_else (get_any payload $"items") (VArr []) with
  | VArr l =>
    match LogTables.objects_of l with
    | Some items =>
      let h := heap (tb s) in
      let s := with_tb (Table (h ++ items) (List.seq (length h) (length items)) (or_else (get_any payload $"total") (int 0))
                          (or_else (get_any payload $"page") (int 1)) (or_else (get_any payload $"page_size") size)) s in
      Some (with_ring (Keyring [] (resolvedTokenKeys (ring s)) (loadingTokenKeys (ring s)) (keyRequests (ring s))) s)
    | None => None
    end
  | _ => None
  end.

(** A load of a render with pages of the size [render]. *)
Definition load_at (render page size : val) (k : after) (s : tokens) : tokens * list request :=
  (setSearchMode false (setLoading true s), [RLoad page size k render]).
Definition load (page size : val) (k : after) (s : tokens) : tokens * list request := load_at (pageSize (tb s)) page size k s.
Definition loadTokens (page size : val) (s : tokens) : tokens * list request := load page size Nothing s.
Definition refresh (page : val) (s : tokens) : tokens * list request := load page (pageSize (tb s)) EndRefresh s.

(** *** Searches *)

Definition positive_int (v : val) : bool := match v with VNum n => isInteger n && nltb n0 n | _ => false end.

Definition search_url (keyword token : jsstr) (page size : val) : jsstr :=
  $"/api/token/search?keyword=" ++ encodeURIComponent keyword ++ $"&token=" ++ encodeURIComponent token ++ $"&p=" ++ String_val page
  ++ $"&size=" ++ String_val size.

Definition searchTokens (page size : val) (s : tokens) : tokens * list request :=
  let p := if positive_int page then page else int 1 in
  let z := if positive_int size then size else pageSize (tb s) in
  let '(keyword, token) := getFormValues s in
  if negb (nonempty keyword) && negb (nonempty token) then loadTokens (int 1) (pageSize (tb s)) (setSearchMode false s)
  else (setSearching true s, [RSearch (search_url keyword token p z) (pageSize (tb s))]).

Definition handlePageChange (page : val) (s : tokens) : tokens * list request :=
  if searchMode s then searchTokens page (pageSize (tb s)) s else loadTokens page (pageSize (tb s)) s.

(** The handler runs with the size of its render; the new size is set at once. *)
Definition handlePageSizeChange (size : val) (s : tokens) : tokens * list request :=
  let '(s', rs) := if searchMode s then searchTokens (int 1) size s else loadTokens (int 1) size s in (setPageSize size s', rs).

(** *** Keys *)

Definition id_text (v : val) : jsstr := String_val v.

(** The address of the server for a link: nothing is opened when the status is malformed. *)
Definition link_address : outcome val :=
  match stored $"status" store with
  | Some text =>
    match parse text with
    | Some v => bind_outcome (get_or_throw v $"server_address") (fun a => Ret (if eq_str a [] then VStr origin else a))
    | None => Throw
    end
  | None => Ret (VStr origin)
  end.

(** [s.replaceAll(w, r)]; [skip] is what the last occurrence still covers. *)
Fixpoint replace_from (w r : jsstr) (skip : nat) (s : jsstr) : jsstr :=
  match s with
  | [] => []
  | c :: s' =>
    match skip with
    | S k => replace_from w r k s'
    | O => if startsWith w s then r ++ replace_from w r (length w - 1) s' else c :: replace_from w r 0 s'
    end
  end.
Definition replaceAll (w r s : jsstr) : jsstr := replace_from w r 0 s.

Definition encoded_config (k : jsstr) (address : val) (key : jsstr) : jsstr :=
  encodeURIComponent (Base64.encodeToBase64 (VStr (json (VObj [(k, VStr $"new-api"); ($"baseUrl", address); ($"apiKey", VStr ($"sk-" ++ key))])))).

Definition onOpenLink (url key : jsstr) : list output :=
  if startsWith $"ccswitch" url then [SwitchModal (VStr key)]
  else if startsWith $"fluent" url then [Fluent (VStr key)]
  else match link_address with
       | Throw => []
       | Ret address =>
         [Opened
            (if includes $"{cherryConfig}" url then replaceAll $"{cherryConfig}" (encoded_config $"id" address key) url
             else if includes $"{aionuiConfig}" url then replaceAll $"{aionuiConfig}" (encoded_config $"platform" address key) url
             else replaceAll $"{key}" ($"sk-" ++ key) (replaceAll $"{address}" (encodeURIComponent (String_val address)) url))]
       end.

(** Continues with a key. *)
Definition use_key (id : jsstr) (key : val) (u : use) (s : tokens) : tokens :=
  let r := ring s in
  match u with
  | ToShow => if truthy key then with_ring (Keyring (prop_set id true (showKeys r)) (resolvedTokenKeys r) (loadingTokenKeys r) (keyRequests r)) s else s
  | ToCopy => out (Copied ($"sk-" ++ String_val key)) s
  | ToConnect => out (Copied (encodeChannelConnectionString ($"sk-" ++ String_val key) (String_val (getServerAddress origin store)))) s
  | ToOpen url => fold_left (fun s x => out x s) (onOpenLink url (String_val key)) s
  end.

(** A known key is used at once; a request under way is joined; otherwise one is sent. *)
Definition fetchTokenKey (tokenId : val) (u : use) (s : tokens) : tokens * list request :=
  let id := id_text tokenId in
  let r := ring s in
  if negb (truthy tokenId) then (out (Error (VStr (t $"令牌不存在"))) s, [])
  else if truthy (default VUndef (prop id (resolvedTokenKeys r))) then (use_key id (default VUndef (prop id (resolvedTokenKeys r))) u s, [])
  else match prop id (keyRequests r) with
       | Some us => (with_ring (Keyring (showKeys r) (resolvedTokenKeys r) (loadingTokenKeys r) (prop_set id (us ++ [u]) (keyRequests r))) s, [])
       | None => (with_ring (Keyring (showKeys r) (resolvedTokenKeys r) (prop_set id true (loadingTokenKeys r)) (prop_set id [u] (keyRequests r))) s, [RKey id])
       end.

Definition toggleTokenVisibility (tokenId : val) (s : tokens) : tokens * list request :=
  let r := ring s in
  if negb (truthy tokenId) then (s, [])
  else if bool_decide (prop (id_text tokenId) (showKeys r) = Some true)
  then (with_ring (Keyring (prop_set (id_text tokenId) false (showKeys r)) (resolvedTokenKeys r) (loadingTokenKeys r) (keyRequests r)) s, [])
  else fetchTokenKey tokenId ToShow s.

(** The end of a request for a key. *)
Definition forget (id : jsstr) (r : keyring) : keyring :=
  Keyring (showKeys r) (resolvedTokenKeys r) (prop_delete id (loadingTokenKeys r)) (prop_delete id (keyRequests r)).

Definition key_answered (id : jsstr) (a : answer) (s : tokens) : tokens :=
  let r := ring s in
  let waiting := default [] (prop id (keyRequests r)) in
  match a with
  | Served data =>
    let key := get_any data $"key" in
    if truthy key then
      let r' := Keyring (showKeys r) (prop_set id key (resolvedTokenKeys r)) (loadingTokenKeys r) (keyRequests r) in
      fold_left (fun s u => use_key id key u s) waiting (with_ring (forget id r') s)
    else with_ring (forget id r) (out (Error (VStr $"Failed to fetch token key")) s)
  | Refused m => with_ring (forget id r) (out (Error (or_else m (VStr $"Failed to fetch token key"))) s)
  | Failed e => with_ring (forget id r) (out (Error (or_else (get_any e $"message") (VStr (t $"获取令牌密钥失败")))) (out (Error e) s))
  end.

(** *** Actions *)

Inductive action := Delete | Enable | Disable.

Definition manageToken (record : nat) (a : action) (s : tokens) : tokens * list request :=
  (setLoading true s,
   [RManage (row_id s record) (match a with Delete => true | _ => false end) (match a with Delete => None | Enable => Some 1 | Disable => Some 2 end)
      record (rows (tb s))]).

Definition manage_answered (delete_ : bool) (record : nat) (render_rows : list nat) (a : answer) (s : tokens) : tokens :=
  match a with
  | Served token =>
    if negb delete_ && is_nullish token then out (Success $"操作成功完成！") s else
    let h := heap (tb s) in
    let h := if delete_ then h else alter (prop_set $"status" (get_any token $"status")) record h in
    setLoading false (with_tb (Table h render_rows (tokenCount (tb s)) (activePage (tb s)) (pageSize (tb s))) (out (Success $"操作成功完成！") s))
  | Refused m => setLoading false (out (Error m) s)
  | Failed e => out (Error e) s
  end.

Definition sortToken (key : jsstr) (s : tokens) : tokens :=
  match rows (tb s) with
  | [] => s
  | first :: _ =>
    let text r := String_val (fld key (row_at s r)) in
    let sorted := sort_by (fun a b => localeCompare (text a) (text b)) (rows (tb s)) in
    let sorted := match sorted with x :: _ => if same_value (row_id s x) (row_id s first) then rev sorted else sorted | [] => sorted end in
    setLoading false (with_tb (Table (heap (tb s)) sorted (tokenCount (tb s)) (activePage (tb s)) (pageSize (tb s))) s)
  end.

Definition batchDeleteTokens (s : tokens) : tokens * list request :=
  match selectedKeys s with
  | [] => (out (Error (VStr (t $"请先选择要删除的令牌！"))) s, [])
  | l => (setLoading true s, [RDelete (map (row_id s) l) (length (rows (tb s))) (activePage (tb s)) (pageSize (tb s))])
  end.

Definition batchCopyTokens (with_name : bool) (s : tokens) : tokens * list request :=
  match selectedKeys s with
  | [] => (out (Error (VStr (t $"请至少选择一个令牌！"))) s, [])
  | l => (s, [RBatchKeys (map (row_id s) l) l with_name])
  end.

(** The text of the keys of the selected tokens. *)
Definition keys_text (keysMap : val) (with_name : bool) (selected : list nat) (s : tokens) : jsstr :=
  concat (map (fun r =>
    let key := get_any keysMap (id_text (row_id s r)) in
    if truthy key then (if with_name then String_val (fld $"name" (row_at s r)) ++ $"    " else []) ++ $"sk-" ++ String_val key ++ [10] else [])
    selected).

Definition batch_answered (selected : list nat) (with_name : bool) (a : answer) (s : tokens) : tokens :=
  match a with
  | Served data =>
    let keysMap := get_any data $"keys" in
    if truthy keysMap then
      let r := ring s in
      out (Copied (keys_text keysMap with_name selected s))
        (with_ring (Keyring (showKeys r) (prop_assign (resolvedTokenKeys r) (entries keysMap)) (loadingTokenKeys r) (keyRequests r)) s)
    else out (Error (VStr $"Failed to fetch token keys")) s
  | Refused m => out (Error (or_else m (VStr $"Failed to fetch token keys"))) s
  | Failed e => out (Error (or_else (get_any e $"message") (VStr (t $"复制令牌失败")))) (out (Error e) s)
  end.

(** ** Events *)

Inductive event :=
| Start | Edit (f : object) | Search (page size : val) | PageChange (page : val) | PageSizeChange (size : val) | Reload (page : val)
| Toggle (tokenId : val) | Use (tokenId : val) (u : use) | Manage (record : nat) (a : action) | Sort (key : jsstr) | Select (l : list nat)
| BatchDelete | BatchCopy (with_name : bool).

Definition act (e : event) (s : tokens) : tokens * list request :=
  match e with
  | Start => (s, [])
  | Edit f => (set_form (Some f) s, [])
  | Search p z => searchTokens p z s
  | PageChange p => handlePageChange p s
  | PageSizeChange z => handlePageSizeChange z s
  | Reload p => refresh p s
  | Toggle id => toggleTokenVisibility id s
  | Use id u => fetchTokenKey id u s
  | Manage r a => manageToken r a s
  | Sort k => (sortToken k s, [])
  | Select l => (setSelectedKeys l s, [])
  | BatchDelete => batchDeleteTokens s
  | BatchCopy n => batchCopyTokens n s
  end.

(** The effect on the size of the pages, and on the first render. *)
Definition size_effect (s : tokens) : tokens * list request :=
  let '(s', rs) := load (int 1) (pageSize (tb s)) OfEffect s in (s', rs ++ [RGroups]).

Definition commit (first : bool) (old : val) (x : tokens * list request) : tokens * list request :=
  if first || negb (same_value old (pageSize (tb x.1))) then let '(s', rs) := size_effect x.1 in (s', x.2 ++ rs) else x.

Definition tokens_event (e : event) (s : tokens) : tokens * list request :=
  commit (match e with Start => true | _ => false end) (pageSize (tb s)) (act e s).

(** ** Answers *)

Definition page_end (k : after) (size : val) (s : tokens) : tokens * list request :=
  match k with
  | Nothing | OfEffect => (setLoading false s, [])
  | EndRefresh => (setSelectedKeys [] (setLoading false s), [])
  | EndDelete n page => (setSelectedKeys [] (setLoading false s), [RTimer n page size])
  end.

(** The report of data that cannot be read. *)
Definition type_error : output := Error (VStr $"TypeError").

(** A request that fails is reported by the client, and again by a handler that catches it. *)
Definition load_answered (k : after) (size : val) (a : answer) (s : tokens) : tokens * list request :=
  match a with
  | Served data =>
    match (if is_nullish data then None else syncPageData data size s) with
    | Some s' => page_end k size s'
    | None => (match k with EndDelete _ _ => setLoading false (out type_error s) | OfEffect => out type_error s | _ => s end, [])
    end
  | Refused m => page_end k size (out (Error m) s)
  | Failed e =>
    (match k with
     | EndDelete _ _ => setLoading false (out (Error (get_any e $"message")) (out (Error e) s))
     | OfEffect => out (Error e) (out (Error e) s)
     | _ => out (Error e) s
     end, [])
  end.

Definition search_answered (size : val) (a : answer) (s : tokens) : tokens :=
  match a with
  | Served data =>
    match (if is_nullish data then None else syncPageData data size (setSearchMode true s)) with
    | Some s' => setSearching false s'
    | None => setSearchMode true s
    end
  | Refused m => setSearching false (out (Error m) s)
  | Failed e => out (Error e) s
  end.

Definition ratios_of (data : val) : object := fold_left (fun o kv => prop_set kv.1 (get_any kv.2 $"ratio") o) (entries data) [].

Definition positive (v : val) : bool := match v with VNum n => nltb n1 n | _ => false end.

(** [page - 1] *)
Definition previous (v : val) : val := VNum (nsub (Number_val v) n1).

Definition answered (r : request) (a : answer) (s : tokens) : tokens * list request :=
  match r with
  | RLoad _ _ k size => load_answered k size a s
  | RSearch _ size => (search_answered size a s, [])
  | RGroups => (match a with Served data => if truthy data then setGroupRatios (ratios_of data) s else s | Refused _ => s | Failed e => out (Error e) s end, [])
  | RKey id => (key_answered id a s, [])
  | RManage _ d _ record l => (manage_answered d record l a s, [])
  | RDelete _ n page size =>
    match a with
    | Served _ => load_at size page size (EndDelete n page) (out (Success $"已删除 {{count}} 个令牌！") s)
    | Refused m => (setLoading false (out (Error (or_else m (VStr (t $"删除失败")))) s), [])
    | Failed e => (setLoading false (out (Error (get_any e $"message")) (out (Error e) s)), [])
    end
  | RTimer n page size => if (n =? 0)%nat && positive page then load_at size (previous page) size EndRefresh s else (s, [])
  | RBatchKeys _ l n => (batch_answered l n a s, [])
  end.

Definition tokens_answer (r : request) (a : answer) (s : tokens) : tokens * list request := commit false (pageSize (tb s)) (answered r a s).

#[export] Instance tokens_hook : Hook tokens event request := { on_event := tokens_event; on_answer := tokens_answer }.

(** ** What a row looks like *)

(** A row that is not enabled is shaded. *)
Definition handleRow (record : object) : bool := negb (is_int (fld $"status" record) 1).

End Hook.

(** ** Keys *)

Section KeyProofs.
Variable t : jsstr -> jsstr.
Variable localeCompare : jsstr -> jsstr -> Z.
Variable origin : jsstr.
Variable store : storage.
#[local] Instance the_hook : Hook tokens event request := tokens_hook t localeCompare origin store.

Definition is_key (id : jsstr) (r : request) : bool := match r with RKey k => k =s? id | _ => false end.
Definition key_free (rs : list request) : Prop := forall id, count (is_key id) rs = 0%nat.

(** A change that asks for no key, forgets none and shows none. *)
Definition calm (r r' : keyring) : Prop :=
  keyRequests r' = keyRequests r
  /\ (forall k, has_prop k (resolvedTokenKeys r) = true -> has_prop k (resolvedTokenKeys r') = true)
  /\ (forall k, prop k (showKeys r') = Some true -> prop k (showKeys r) = Some true).

Lemma calm_refl r : calm r r.
Proof. by split. Qed.
Lemma calm_trans r1 r2 r3 : calm r1 r2 -> calm r2 r3 -> calm r1 r3.
Proof. intros (A1 & A2 & A3) (B1 & B2 & B3). split; [congruence|]. split; auto. Qed.

Definition quiet (s : tokens) (x : tokens * list request) : Prop := calm (ring s) (ring x.1) /\ key_free x.2.

Lemma quiet_same s s' rs : ring s' = ring s -> key_free rs -> quiet s (s', rs).
Proof. intros E F. split; [cbn; rewrite E; apply calm_refl|done]. Qed.

Lemma quiet_search p z s : quiet s (searchTokens p z s).
Proof. unfold searchTokens. destruct (getFormValues s) as [k tk]. destruct (_ && _); by apply quiet_same. Qed.

Lemma quiet_sync d z s s' : syncPageData d z s = Some s' -> calm (ring s) (ring s').
Proof.
  unfold syncPageData. destruct (or_else _ _) as [| | | | |l|]; try done. destruct (LogTables.objects_of l) as [items|]; [|done].
  intros [= <-]. split; [done|]. split; [done|]. intros k H. discriminate H.
Qed.

Lemma quiet_commit f old s x : quiet s x -> quiet s (commit f old x).
Proof.
  intros [C F]. unfold commit. destruct (_ || _); [|done]. unfold size_effect, load, load_at. cbn [app]. split; [done|].
  intros id. cbn [snd]. rewrite count_app, F. done.
Qed.

Lemma quiet_act e s : (forall id u, e <> Use id u) -> (forall id, e <> Toggle id) -> quiet s (act t localeCompare origin store e s).
Proof.
  intros Nu Nt. destruct e as [|f|p z|p|z|p|id|id u|r ac|k|l| |n]; cbn [act]; try (by apply quiet_same).
  - apply quiet_search.
  - unfold handlePageChange. destruct (searchMode s); [apply quiet_search|by apply quiet_same].
  - unfold handlePageSizeChange. destruct (searchMode s); [|by apply quiet_same].
    pose proof (quiet_search (int 1) z s) as Q. destruct (searchTokens (int 1) z s) as [s' rs]. exact Q.
  - by destruct (Nt id).
  - by destruct (Nu id u).
  - apply quiet_same; [|done]. unfold sortToken. by destruct (rows (tb s)).
  - unfold batchDeleteTokens. destruct (selectedKeys s); by apply quiet_same.
  - unfold batchCopyTokens. destruct (selectedKeys s); by apply quiet_same.
Qed.

Lemma quiet_page_end k z s : quiet s (page_end k z s).
Proof. destruct k; by apply quiet_same. Qed.

Lemma quiet_from s s' x : calm (ring s) (ring s') -> quiet s' x -> quiet s x.
Proof. intros C [C' F]. split; [by eapply calm_trans|done]. Qed.

Lemma has_assign k (o l : list (jsstr * val)) : has_prop k o = true -> has_prop k (prop_assign o l) = true.
Proof.
  intros H. assert (I : k ∈ keys (prop_assign o l)).
  { apply elem_of_prop_assign. left. apply prop_Some_keys. unfold has_prop in H. by destruct (prop k o). }
  apply prop_Some_keys in I as [v E]. unfold has_prop. by rewrite E.
Qed.

Lemma quiet_answered r a s : (forall id, r <> RKey id) -> quiet s (answered t origin store r a s).
Proof.
  intros Nk. destruct r as [p z k rz|u rz| |id|id d st rec l|ids n p z|n p z|ids l n]; cbn [answered].
  - unfold load_answered. destruct a as [data|m|e].
    + destruct (is_nullish data); [destruct k; by apply quiet_same|]. destruct (syncPageData data rz s) as [s'|] eqn:E; [|destruct k; by apply quiet_same].
      eapply quiet_from; [by eapply quiet_sync|apply quiet_page_end].
    + eapply quiet_from; [|apply quiet_page_end]. apply calm_refl.
    + destruct k; by apply quiet_same.
  - unfold search_answered. destruct a as [data|m|e]; try (by apply quiet_same). destruct (is_nullish data); [by apply quiet_same|].
    destruct (syncPageData data rz _) as [s'|] eqn:E; [|by apply quiet_same]. split; [|done]. cbn. by apply quiet_sync in E.
  - destruct a as [data|m|e]; try (by apply quiet_same). destruct (truthy data); by apply quiet_same.
  - by destruct (Nk id).
  - unfold manage_answered. destruct a as [data|m|e]; try (by apply quiet_same). destruct (_ && _); by apply quiet_same.
  - destruct a; by apply quiet_same.
  - destruct (_ && _); by apply quiet_same.
  - unfold batch_answered. destruct a as [data|m|e]; try (by apply quiet_same). destruct (truthy _); [|by apply quiet_same].
    split; [|done]. split; [done|]. split; [|done]. intros k. apply has_assign.
Qed.

(** One request for every key that is asked for, and no key is shown before it is known. *)
Definition keys_ok (s : sys tokens request) : Prop :=
  (forall id, count (is_key id) (pending s) = if has_prop id (keyRequests (ring (state s))) then 1%nat else 0%nat)
  /\ (forall id, prop id (showKeys (ring (state s))) = Some true -> has_prop id (resolvedTokenKeys (ring (state s))) = true).

(** Calm changes keep it. *)
Lemma keys_ok_quiet l s x :
  (forall id, count (is_key id) l = if has_prop id (keyRequests (ring s)) then 1%nat else 0%nat) ->
  (forall id, prop id (showKeys (ring s)) = Some true -> has_prop id (resolvedTokenKeys (ring s)) = true) ->
  quiet s x -> keys_ok (Sys x.1 (l ++ x.2)).
Proof.
  intros H1 H2 [(C1 & C2 & C3) F]. split; cbn [state pending].
  - intros id. rewrite count_app, F, C1, H1. lia.
  - intros id H. auto.
Qed.

Lemma has_set {V} k k' (v : V) o : has_prop k (prop_set k' v o) = (k =s? k') || has_prop k o.
Proof. unfold has_prop. rewrite prop_set_lookup. by destruct (k =s? k'). Qed.
Lemma has_delete {V} k k' (o : list (jsstr * V)) : has_prop k (prop_delete k' o) = negb (k =s? k') && has_prop k o.
Proof. unfold has_prop. rewrite prop_delete_lookup. by destruct (k =s? k'). Qed.

(** A use of a known key. *)
Lemma use_key_ring id key u s :
  keyRequests (ring (use_key origin store id key u s)) = keyRequests (ring s)
  /\ resolvedTokenKeys (ring (use_key origin store id key u s)) = resolvedTokenKeys (ring s)
  /\ (forall k, prop k (showKeys (ring (use_key origin store id key u s))) = Some true -> k = id \/ prop k (showKeys (ring s)) = Some true).
Proof.
  destruct u as [| | |url]; cbn [use_key]; [destruct (truthy key)| | |]; try (split; [done|split; [done|auto]]; fail).
  - split; [done|split; [done|]]. intros k. cbn. rewrite prop_set_lookup. destruct (str_eqb_spec k id); auto.
  - assert (E : forall l s, ring (fold_left (fun s x => out x s) l s) = ring s) by (induction l as [|x l IH]; intros s0; [done|]; cbn; by rewrite IH).
    rewrite E. auto.
Qed.

Lemma use_all_ring id key us s :
  let s' := fold_left (fun s u => use_key origin store id key u s) us s in
  keyRequests (ring s') = keyRequests (ring s) /\ resolvedTokenKeys (ring s') = resolvedTokenKeys (ring s)
  /\ (forall k, prop k (showKeys (ring s')) = Some true -> k = id \/ prop k (showKeys (ring s)) = Some true).
Proof.
  revert s. induction us as [|u us IH]; intros s; cbn zeta; [auto|]. cbn [fold_left]. destruct (use_key_ring id key u s) as (A1 & A2 & A3).
  destruct (IH (use_key origin store id key u s)) as (B1 & B2 & B3). rewrite B1, B2, A1, A2. split; [done|split; [done|]].
  intros k H. apply B3 in H as [->|H]; auto.
Qed.

Lemma keys_ok_fetch tokenId u l s :
  keys_ok (Sys s l) -> keys_ok (Sys (fetchTokenKey t origin store tokenId u s).1 (l ++ (fetchTokenKey t origin store tokenId u s).2)).
Proof.
  intros [H1 H2]. cbn [state pending] in *. unfold fetchTokenKey. destruct (truthy tokenId); cbn [negb]; [|rewrite app_nil_r; by split].
  destruct (truthy _) eqn:E.
  - cbn [fst snd]. rewrite app_nil_r. destruct (use_key_ring (id_text tokenId) (default VUndef (prop (id_text tokenId) (resolvedTokenKeys (ring s)))) u s) as (A1 & A2 & A3).
    split; cbn [state pending]; intros id; rewrite ?A1, ?A2; [apply H1|]. intros H. apply A3 in H as [->|H]; [|auto].
    unfold has_prop. by destruct (prop (id_text tokenId) (resolvedTokenKeys (ring s))).
  - destruct (prop (id_text tokenId) (keyRequests (ring s))) as [us|] eqn:K; cbn [fst snd]; (split; cbn [state pending with_ring ring keyRequests showKeys resolvedTokenKeys]; intros id; [|apply H2]).
    + rewrite app_nil_r, H1, has_set. destruct (str_eqb_spec id (id_text tokenId)) as [->|]; [|done]. unfold has_prop. by rewrite K.
    + rewrite count_app, H1, has_set. unfold count. cbn [List.filter is_key]. destruct (str_eqb_spec (id_text tokenId) id) as [<-|N].
      * rewrite str_eqb_refl. unfold has_prop. by rewrite K.
      * destruct (str_eqb_spec id (id_text tokenId)); [congruence|]. cbn [orb length]. lia.
Qed.

Lemma keys_ok_event e s : keys_ok s -> keys_ok (fire e s).
Proof.
  intros K. rewrite fire_eq. cbn [on_event the_hook tokens_hook]. unfold tokens_event.
  assert (C : forall f old x, keys_ok (Sys x.1 (pending s ++ x.2)) -> keys_ok (Sys (commit f old x).1 (pending s ++ (commit f old x).2))).
  { intros f old x [H1 H2]. pose proof (quiet_commit f old x.1 (x.1, [])) as Q. unfold commit in *. cbn [fst snd] in *.
    destruct (f || negb (same_value old (pageSize (tb x.1)))); [|by split]. destruct (size_effect x.1) as [s' rs] eqn:E. cbn [fst snd app] in *. rewrite app_assoc.
    apply (keys_ok_quiet (pending s ++ x.2) x.1 (s', rs)); [exact H1|exact H2|]. apply Q. apply quiet_same; [done|]. by intros id. }
  apply C. destruct K as [H1 H2].
  destruct e as [|f|p z|p|z|p|tid|tid u|r ac|k|l| |n]; try (apply (keys_ok_quiet (pending s) (state s)); [exact H1|exact H2|]; apply quiet_act; intros; discriminate).
  - cbn [act]. unfold toggleTokenVisibility. destruct (truthy tid) eqn:Et; cbn [negb fst snd]; [|rewrite app_nil_r; by split].
    destruct (bool_decide _); [|apply keys_ok_fetch; by split]. cbn [fst snd]. rewrite app_nil_r.
    split; cbn [state pending with_ring ring keyRequests showKeys resolvedTokenKeys]; intros id; [apply H1|]. rewrite prop_set_lookup.
    destruct (str_eqb_spec id (id_text tid)); [done|apply H2].
  - cbn [act]. apply keys_ok_fetch. by split.
Qed.

Lemma keys_ok_answer i r a s : keys_ok s -> pending s !! i = Some r -> keys_ok (reply i r a s).
Proof.
  intros [H1 H2] Hr. rewrite reply_eq. cbn [on_answer the_hook tokens_hook]. unfold tokens_answer.
  pose proof (fun id => count_delete (is_key id) _ _ _ Hr) as D.
  destruct r as [p z k rz|u rz| |id|id d st rec l|ids n p z|n p z|ids l n];
    try (apply (keys_ok_quiet (delete i (pending s)) (state s)); [intros j; specialize (D j); cbn in D; rewrite <- H1; lia|exact H2|]; apply quiet_commit, quiet_answered; intros; discriminate).
  assert (Q : forall s', keys_ok (Sys s' (delete i (pending s))) -> pageSize (tb s') = pageSize (tb (state s)) \/ True ->
    keys_ok (Sys (commit false (pageSize (tb (state s))) (s', [])).1 (delete i (pending s) ++ (commit false (pageSize (tb (state s))) (s', [])).2))).
  { intros s' [K1 K2] _. apply (keys_ok_quiet (delete i (pending s)) s'); [exact K1|exact K2|]. apply quiet_commit. apply quiet_same; [done|]. by intros j. }
  cbn [answered]. apply Q; [|by right]. unfold key_answered.
  assert (F : forall j, count (is_key j) (delete i (pending s)) = if has_prop j (prop_delete id (keyRequests (ring (state s)))) then 1%nat else 0%nat).
  { intros j. specialize (D j). rewrite H1 in D. rewrite has_delete. cbn [is_key] in D. destruct (str_eqb_spec id j) as [->|N].
    - rewrite str_eqb_refl. cbn [negb andb]. destruct (has_prop j _); lia.
    - destruct (str_eqb_spec j id); [congruence|]. cbn [negb andb]. lia. }
  destruct a as [data|m|e].
  - destruct (truthy (get_any data $"key")); [|split; [exact F|exact H2]].
    match goal with |- keys_ok (Sys (fold_left _ ?us ?s0) _) => destruct (use_all_ring id (get_any data $"key") us s0) as (A1 & A2 & A3) end.
    split; cbn [state pending]; intros j; [rewrite A1; apply F|]. intros H. rewrite A2. cbn [with_ring ring forget resolvedTokenKeys]. rewrite has_set.
    apply A3 in H as [->|H]; [by rewrite str_eqb_refl|]. cbn in H. apply H2 in H. rewrite H. apply orb_true_r.
  - split; [exact F|exact H2].
  - split; [exact F|exact H2].
Qed.

Lemma keys_ok_reach s : reach (Sys init []) s -> keys_ok s.
Proof.
  revert s. apply reach_invariant.
  - split; [done|]. intros id H. discriminate H.
  - intros e s. apply keys_ok_event.
  - intros i r a s. apply keys_ok_answer.
Qed.

(** C32: however often the keys of tokens are asked for, to be shown, copied or passed on, at most
    one request per token is under way; and a key is shown only once it is known. *)
Theorem one_request_per_key (s : sys tokens request) (id : jsstr) :
  reach (Sys init []) s ->
  (count (is_key id) (pending s) <= 1)%nat /\ (prop id (showKeys (ring (state s))) = Some true -> has_prop id (resolvedTokenKeys (ring (state s))) = true).
Proof.
  intros R. destruct (keys_ok_reach s R) as [K1 K2]. split; [|apply K2]. rewrite K1. destruct (has_prop _ _); lia.
Qed.

End KeyProofs.
(** ** Searches and pages *)

Section PageProofs.
Variable t : jsstr -> jsstr.
Variable localeCompare : jsstr -> jsstr -> Z.
Variable origin : jsstr.
Variable store : storage.

(** A change of the size of the pages while results of a search are shown leaves the search:
    the effect on the size asks for the first page of all tokens as well, after the search. *)
Theorem size_change_leaves_search (s : tokens) (size : val) (keyword token : jsstr) :
  searchMode s = true -> getFormValues s = (keyword, token) -> nonempty keyword = true -> positive_int size = true -> same_value (pageSize (tb s)) size = false ->
  tokens_event t localeCompare origin store (PageSizeChange size) s
  = (setSearchMode false (setLoading true (setPageSize size (setSearching true s))),
     [RSearch (search_url keyword token (int 1) size) (pageSize (tb s)); RLoad (int 1) size OfEffect size; RGroups]).
Proof.
  intros Hm Hf Hk Hp Hz. unfold tokens_event. cbn [act]. unfold handlePageSizeChange. rewrite Hm. unfold searchTokens. rewrite Hf, Hk, Hp.
  change (positive_int (int 1)) with true. cbn [negb andb]. unfold commit. cbn [orb fst]. unfold setPageSize at 1. cbn [tb with_tb pageSize]. rewrite Hz. reflexivity.
Qed.

(** After a batch deletion that empties the page nothing goes back a page: the timer looks at
    the rows of the render that deleted, which had rows. *)
Theorem batch_delete_stays (s : tokens) (data page_data : val) (r : request) (s1 s2 : tokens) :
  rows (tb s) <> [] -> batchDeleteTokens t s = (s1, [r]) ->
  forall k, answered t origin store r (Served data) s1 = (s2, [k]) ->
  forall s3 timer, answered t origin store k (Served page_data) s2 = (s3, [timer]) ->
  forall a, answered t origin store timer a s3 = (s3, []).
Proof.
  intros Hr. unfold batchDeleteTokens. destruct (selectedKeys s) as [|x l]; [discriminate|]. intros [= <- <-] k. cbn [answered]. intros [= <- <-] s3 timer.
  cbn [answered load_answered]. destruct (is_nullish page_data); [discriminate|]. destruct (syncPageData _ _ _) as [s'|]; [|discriminate].
  intros [= <- <-] a. cbn [answered]. by destruct (rows (tb s)).
Qed.

(** The words of a search reach the server as typed: neither can end its parameter. *)
Theorem search_words_apart (keyword token : jsstr) (page size : val) :
  Forall (fun c => 0 <= c < 65536) keyword -> Forall (fun c => 0 <= c < 65536) token ->
  exists k w, search_url keyword token page size = $"/api/token/search?keyword=" ++ k ++ $"&token=" ++ w ++ $"&p=" ++ String_val page ++ $"&size=" ++ String_val size
  /\ (38 ∉ k) /\ (35 ∉ k) /\ (38 ∉ w) /\ (35 ∉ w).
Proof.
  intros Hk Hw. exists (encodeURIComponent keyword), (encodeURIComponent token).
  split; [reflexivity|]. split_and!; by apply component_no_separator.
Qed.

End PageProofs.

(** ** Witnesses *)

Definition no_t (s : jsstr) : jsstr := s.
Definition no_compare (_ _ : jsstr) : Z := 0.
Definition sample_hook : Hook tokens event request := tokens_hook no_t no_compare $"https://gw" [].

Definition asked : sys tokens request := fire (hook := sample_hook) (Use (int 7) ToCopy) (Sys init []).
Definition asked_twice : sys tokens request := fire (hook := sample_hook) (Toggle (int 7)) asked.

Lemma one_request_per_key_witness :
  (count (is_key $"7") (pending asked_twice) <= 1)%nat
  /\ (prop $"7" (showKeys (ring (state asked_twice))) = Some true -> has_prop $"7" (resolvedTokenKeys (ring (state asked_twice))) = true).
Proof.
  apply (one_request_per_key no_t no_compare $"https://gw" []). eapply reach_next; [eapply reach_next; [apply reach_start|]|].
  - apply (user_acts (Use (int 7) ToCopy)).
  - apply (user_acts (Toggle (int 7))).
Defined.

(** One answer serves both uses. *)
Example one_answer_two_uses :
  let s := reply (hook := sample_hook) 0 (RKey $"7") (Served (VObj [($"key", VStr $"abc")])) asked_twice in
  pending asked_twice = [RKey $"7"] /\ pending s = [] /\ outputs (state s) = [Copied $"sk-abc"] /\ showKeys (ring (state s)) = [($"7", true)].
Proof. vm_compute. auto. Qed.

Definition found : tokens := set_form (Some [($"searchKeyword", VStr $"a&b")]) (setSearchMode true init).

Lemma size_change_leaves_search_witness :
  searchMode (tokens_event no_t no_compare $"https://gw" [] (PageSizeChange (int 20)) found).1 = false.
Proof. rewrite (size_change_leaves_search no_t no_compare $"https://gw" [] found (int 20) $"a&b" []); reflexivity. Defined.

End Tokens.
