(* ===== verification/Dashboard.v ===== *)
(** * The dashboard

    [helpers/dashboard.jsx], [hooks/dashboard/useDashboardCharts.jsx] and
    [hooks/dashboard/useDashboardData.js]: the usage of a period, grouped by time, model and
    user for the charts, and the requests of the page.  Amounts are any numbers with the
    operations the code uses, [Amount]: binary64 numbers, which the page computes with, or
    integers, which the server counts and on which binary64 is exact below 2^53.  The local
    calendar, that is the time zone of the browser, is a parameter. *)
From Stdlib Require Import SpecFloat.
From S2P Require Import Prelude JSNum JSValue Json FormValues StatusCodeRiskGuard ClientHelpers Channels Billing AsyncHook LogTables.
#[local] Open Scope Z_scope.
#[local] Arguments js _ : simpl never.

Module Dashboard.
Import FormValues ClientHelpers StatusCodeRiskGuard.

(** ** Amounts *)

Class Amount (K : Type) := {
  zero : K;
  add : K -> K -> K;
  less : K -> K -> bool;
  rate : K -> num -> num     (** divided by a number *)
}.

#[export] Instance num_amount : Amount num := { zero := n0; add := nadd; less := nltb; rate := ndiv }.
#[export] Instance Z_amount : Amount Z := { zero := 0; add := Z.add; less := Z.ltb; rate x n := ndiv (of_Z x) n }.

(** ** Times *)

Record civil := Civil { year : Z; month : Z; day : Z; hour : Z }.

(** One digit gets a zero before it. *)
Definition two (n : Z) : jsstr := let s := Z_to_str n in if (length s =? 1)%nat then $"0" ++ s else s.

Section Times.
Variable local : num -> civil.     (** of milliseconds *)

Definition date_text (c : civil) (showYear : bool) : jsstr :=
  (if showYear then Z_to_str (year c) ++ $"-" else []) ++ two (month c) ++ $"-" ++ two (day c).

Definition SIX_DAYS : Z := 518400000.

Definition timestamp2string1 (timestamp : num) (granularity : jsstr) (showYear : bool) : jsstr :=
  let ms := nmul timestamp (of_Z 1000) in
  let c := local ms in
  date_text c showYear
  ++ (if granularity =s? $"hour" then $" " ++ two (hour c) ++ $":00"
      else if granularity =s? $"week" then $" - " ++ date_text (local (nadd ms (of_Z SIX_DAYS))) showYear
      else []).

Definition isDataCrossYear (timestamps : list num) : bool :=
  (1 <? length (uniq (map (fun ts => year (local (nmul ts (of_Z 1000)))) timestamps)))%nat.

Record interval := Interval { seconds : num; minutes : num }.

(** A name that objects inherit is found as well, with no numbers. *)
Definition getTimeInterval (timeType : jsstr) : interval :=
  if timeType =s? $"hour" then Interval (of_Z 3600) (of_Z 60)
  else if timeType =s? $"day" then Interval (of_Z 86400) (of_Z 1440)
  else if timeType =s? $"week" then Interval (of_Z 604800) (of_Z 10080)
  else if memk timeType Channels.INHERITED then Interval NaN NaN
  else Interval (of_Z 3600) (of_Z 60).

Definition MAX_TREND_POINTS : nat := 7.

(** [Math.max(...l)] *)
Definition max_of (l : list num) : num :=
  fold_left (fun m x => if isNaN m || isNaN x then NaN else if nltb m x then x else m) l (S754_infinity true).

(** ** Maps *)

(** A [Map] keeps the order in which keys were added. *)
Fixpoint mget {V} (k : jsstr) (m : list (jsstr * V)) : option V :=
  match m with [] => None | (k', v) :: r => if k' =s? k then Some v else mget k r end.
Fixpoint mset {V} (k : jsstr) (v : V) (m : list (jsstr * V)) : list (jsstr * V) :=
  match m with [] => [(k, v)] | (k', v') :: r => if k' =s? k then (k', v) :: r else (k', v') :: mset k v r end.

(** [Set.add], and a list to which something is pushed unless it is there. *)
Definition sadd (x : jsstr) (l : list jsstr) : list jsstr := if memk x l then l else l ++ [x].

(** ** Grouping *)

Section Grouping.
Context {K : Type} {A : Amount K}.

Record item := Item { created_at : num; model_name : jsstr; username : jsstr; quota : K; count : K; token_used : K }.

Definition updateMapValue (m : list (jsstr * K)) (key : jsstr) (value : K) : list (jsstr * K) :=
  let m := match mget key m with None => mset key zero m | Some _ => m end in
  mset key (add (default zero (mget key m)) value) m.

Definition initializeMap (key : jsstr) (m : list (jsstr * K)) : list (jsstr * K) :=
  match mget key m with None => mset key zero m | Some _ => m end.

(** Neither zero nor no number. *)
Definition nonzero (x : K) : bool := less x zero || less zero x.

(** [x || 0] *)
Definition or_zero (x : option K) : K := match x with Some k => if nonzero k then k else zero | None => zero end.

Record raw := Raw {
  totalQuota : K; totalTimes : K; totalTokens : K; uniqueModels : list jsstr; timePoints : list jsstr;
  timeQuotaMap : list (jsstr * K); timeTokensMap : list (jsstr * K); timeCountMap : list (jsstr * K)
}.

Definition process_item (timeKey : jsstr) (r : raw) (it : item) : raw :=
  Raw (add (totalQuota r) (quota it)) (add (totalTimes r) (count it)) (add (totalTokens r) (token_used it))
    (sadd (model_name it) (uniqueModels r)) (sadd timeKey (timePoints r))
    (updateMapValue (initializeMap timeKey (timeQuotaMap r)) timeKey (quota it))
    (updateMapValue (initializeMap timeKey (timeTokensMap r)) timeKey (token_used it))
    (updateMapValue (initializeMap timeKey (timeCountMap r)) timeKey (count it)).

Definition crosses (data : list item) : bool := isDataCrossYear (map created_at data).
Definition time_key (g : jsstr) (data : list item) (it : item) : jsstr := timestamp2string1 (created_at it) g (crosses data).

Definition processRawData (g : jsstr) (data : list item) : raw :=
  let r := fold_left (fun r it => process_item (time_key g data it) r it) data (Raw zero zero zero [] [] [] [] []) in
  Raw (totalQuota r) (totalTimes r) (totalTokens r) (uniqueModels r) (sort_by str_cmp (timePoints r)) (timeQuotaMap r) (timeTokensMap r)
    (timeCountMap r).

Record trend := Trend { times : list K; consumeQuota : list K; tokens : list K; rpm : list num; tpm : list num }.

(** A missing entry is undefined, and divided it is no number. *)
Definition per (m : list (jsstr * K)) (t : jsstr) (n : num) : num := match mget t m with Some x => rate x n | None => NaN end.

Definition calculateTrendData (r : raw) (g : jsstr) : trend :=
  let at_times m := map (fun t => or_zero (mget t m)) (timePoints r) in
  let rates m := if (2 <=? length (timePoints r))%nat then map (fun t => per m t (minutes (getTimeInterval g))) (timePoints r) else [] in
  Trend (at_times (timeCountMap r)) (at_times (timeQuotaMap r)) (at_times (timeTokensMap r)) (rates (timeCountMap r)) (rates (timeTokensMap r)).

Record cell := Cell { c_time : jsstr; c_model : jsstr; c_quota : K; c_count : K }.

Definition cell_key (time model : jsstr) : jsstr := time ++ $"-" ++ model.

Definition aggregate_item (timeKey : jsstr) (m : list (jsstr * cell)) (it : item) : list (jsstr * cell) :=
  let key := cell_key timeKey (model_name it) in
  let m := match mget key m with None => mset key (Cell timeKey (model_name it) zero zero) m | Some _ => m end in
  match mget key m with
  | Some c => mset key (Cell (c_time c) (c_model c) (add (c_quota c) (quota it)) (add (c_count c) (count it))) m
  | None => m
  end.

Definition aggregateDataByTimeAndModel (g : jsstr) (data : list item) : list (jsstr * cell) :=
  fold_left (fun m it => aggregate_item (time_key g data it) m it) data [].

(** The last seven times, when the data has fewer. *)
Definition generated (g : jsstr) (data : list item) : list num :=
  let lastTime := max_of (map created_at data) in
  map (fun i => nsub lastTime (nmul (of_Z (6 - Z.of_nat i)) (seconds (getTimeInterval g)))) (List.seq 0 MAX_TREND_POINTS).

Definition generateChartTimePoints (m : list (jsstr * cell)) (data : list item) (g : jsstr) : list jsstr :=
  let points := uniq (map (fun kc => c_time kc.2) m) in
  if (length points <? MAX_TREND_POINTS)%nat then
    let ts := generated g data in map (fun t => timestamp2string1 t g (isDataCrossYear ts)) ts
  else points.

(** ** Charts *)

(** Greater amounts first. *)
Definition by_desc {T} (f : T -> K) (a b : T) : Z := if less (f b) (f a) then -1 else if less (f a) (f b) then 1 else 0.

(** [usage]: the amount that is shown in the unit of quotas, none for zero. *)
Record bar := Bar { b_time : jsstr; b_model : jsstr; rawQuota : K; usage : option K; timeSum : K }.
Record point := Point { p_time : jsstr; p_model : jsstr; p_count : K }.

Variable localeCompare : jsstr -> jsstr -> Z.
Variable t : jsstr -> jsstr.

Definition bars_at (models : list jsstr) (m : list (jsstr * cell)) (time : jsstr) : list bar :=
  let row := map (fun model => let q := or_zero (option_map c_quota (mget (cell_key time model) m)) in
                               Bar time model q (if nonzero q then Some q else None) zero) models in
  let sum := fold_left (fun s b => add s (rawQuota b)) row zero in
  map (fun b => Bar (b_time b) (b_model b) (rawQuota b) (usage b) sum) (sort_by (by_desc rawQuota) row).

Definition points_at (models : list jsstr) (m : list (jsstr * cell)) (time : jsstr) : list point :=
  map (fun model => Point time model (or_zero (option_map c_count (mget (cell_key time model) m)))) models.

Definition model_totals (m : list (jsstr * cell)) : list (jsstr * K) := fold_left (fun s kc => updateMapValue s (c_model kc.2) (c_count kc.2)) m [].

Definition MAX_RANK_MODELS : nat := 20.

Definition rank_data (totals : list (jsstr * K)) : list (jsstr * K) :=
  let all := sort_by (by_desc snd) totals in
  if (MAX_RANK_MODELS <? length all)%nat then
    take MAX_RANK_MODELS all ++ [(t $"其他", fold_left (fun s x => add s x.2) (drop MAX_RANK_MODELS all) zero)]
  else all.

Record charts := Charts {
  pieData : list (jsstr * K); lineData : list bar; modelLine : list point; rankData : list (jsstr * K); trendData : trend;
  shownQuota : K; shownTimes : K; shownTokens : K
}.

Definition updateChartData (g : jsstr) (data : list item) : charts :=
  let r := processRawData g data in
  let m := aggregateDataByTimeAndModel g data in
  let totals := model_totals m in
  let points := generateChartTimePoints m data g in
  Charts (sort_by (by_desc snd) totals)
    (sort_by (fun a b => localeCompare (b_time a) (b_time b)) (flat_map (bars_at (uniqueModels r) m) points))
    (sort_by (fun a b => localeCompare (p_time a) (p_time b)) (flat_map (points_at (uniqueModels r) m) points))
    (rank_data totals) (calculateTrendData r g) (totalQuota r) (totalTimes r) (totalTokens r).

(** ** Users *)

Record user_point := UserPoint { u_time : jsstr; u_user : jsstr; u_quota : K }.

Definition user_totals (data : list item) : list (jsstr * K) :=
  fold_left (fun m it => mset (username it) (add (or_zero (mget (username it) m)) (quota it)) m) data [].

Definition user_item (top : list jsstr) (timeKey : jsstr) (m : list (jsstr * K)) (it : item) : list (jsstr * K) :=
  if memk (username it) top && nonempty (username it) then
    let key := cell_key timeKey (username it) in mset key (add (default zero (mget key m)) (quota it)) m
  else m.

Record user_data := UserData { rankingData : list (jsstr * K); userTrend : list user_point; topUsers : list jsstr }.

Definition processUserData (g : jsstr) (limit : nat) (data : list item) : user_data :=
  let ranking := take limit (sort_by (by_desc snd) (user_totals data)) in
  let top := map fst ranking in
  let m := fold_left (fun m it => user_item top (time_key g data it) m it) data [] in
  let points := sort_by str_cmp (fold_left (fun l it => sadd (time_key g data it) l) data []) in
  UserData ranking (flat_map (fun time => map (fun user => UserPoint time user (or_zero (mget (cell_key time user) m))) top) points) top.

Record user_charts := UserCharts { userRank : list (jsstr * K); userLines : list user_point; totalUserQuota : K }.

Definition updateUserChartData (g : jsstr) (data : list item) : user_charts :=
  let u := processUserData g 10 data in
  UserCharts (sort_by (by_desc snd) (rankingData u)) (userTrend u) (fold_left (fun s x => add s x.2) (rankingData u) zero).

End Grouping.
End Times.
End Dashboard.
