(* ===== verification/DashboardProofs.v ===== *)
(** * The dashboard: the theorems

    With integer amounts: no request is lost between the data and the charts.  The slices of
    the pie, the ranking and the trends add up to the totals that are shown; with at least
    seven times the bars do as well, and each bar is the sum of its requests.  With fewer
    times the bars are drawn for generated times, and requests at other times are lost. *)
From Stdlib Require Import SpecFloat.
From S2P Require Import Prelude JSNum JSValue FormValues StatusCodeRiskGuard ClientHelpers Dashboard.
#[local] Open Scope Z_scope.
#[local] Arguments js _ : simpl never.

Module DashboardProofs.
Import FormValues StatusCodeRiskGuard Dashboard.

(** ** Sums *)

Fixpoint zsum (l : list Z) : Z := match l with [] => 0 | x :: r => x + zsum r end.

Lemma zsum_app a b : zsum (a ++ b) = zsum a + zsum b.
Proof. induction a as [|x a IH]; cbn; [done|]. rewrite IH. lia. Qed.

#[export] Instance zsum_perm : Proper (Permutation ==> eq) zsum.
Proof. intros a b P. induction P; cbn; lia. Qed.

Lemma fold_add {T} (f : T -> Z) l s : fold_left (fun s x => add s (f x)) l s = s + zsum (map f l).
Proof. revert s. induction l as [|x l IH]; intros s; cbn; [lia|]. rewrite IH. cbn. lia. Qed.

Lemma zsum_sorted {T} (cmp : T -> T -> Z) (f : T -> Z) l : zsum (map f (sort_by cmp l)) = zsum (map f l).
Proof. by rewrite sort_by_perm. Qed.

Lemma zsum_flat {S T} (f : T -> Z) (g : S -> list T) l : zsum (map f (flat_map g l)) = zsum (map (fun x => zsum (map f (g x))) l).
Proof. induction l as [|x l IH]; [done|]. cbn. by rewrite map_app, zsum_app, IH. Qed.

Lemma or_zero_Z x : or_zero (K := Z) x = default 0 x.
Proof. destruct x as [k|]; [|done]. cbn. unfold nonzero. cbn. destruct (Z.ltb_spec k 0), (Z.ltb_spec 0 k); cbn; lia. Qed.

(** The sum of [f] over the elements a test accepts. *)
Definition sum_if {T} (p : T -> bool) (f : T -> Z) (l : list T) : Z := zsum (map f (List.filter p l)).

Lemma sum_if_snoc {T} p (f : T -> Z) l x : sum_if p f (l ++ [x]) = sum_if p f l + if p x then f x else 0.
Proof. unfold sum_if. rewrite List.filter_app, map_app, zsum_app. cbn. destruct (p x); cbn; lia. Qed.

Lemma sum_if_all {T} p (f : T -> Z) l : (forall x, x ∈ l -> p x = true) -> sum_if p f l = zsum (map f l).
Proof.
  unfold sum_if. induction l as [|x l IH]; intros H; [done|]. cbn. rewrite H by apply list_elem_of_here. cbn.
  rewrite IH; [done|]. intros y Hy. apply H. by apply list_elem_of_further.
Qed.

Lemma sum_if_cons {T} p (f : T -> Z) x l : sum_if p f (x :: l) = (if p x then f x else 0) + sum_if p f l.
Proof. unfold sum_if. cbn. by destruct (p x). Qed.

Lemma pick_one (k : jsstr) (v : Z) pts : NoDup pts -> zsum (map (fun p => if k =s? p then v else 0) pts) = if memk k pts then v else 0.
Proof.
  induction 1 as [|p pts N _ IH]; [done|]. cbn [map zsum]. rewrite IH. change (memk k (p :: pts)) with ((k =s? p) || memk k pts).
  destruct (str_eqb_spec k p) as [->|]; cbn [orb]; [|done].
  destruct (memk p pts) eqn:E; [|lia]. exfalso. apply N. unfold memk in E. apply existsb_exists in E as (x & Hx & ->%str_eqb_eq). by apply list_elem_of_In.
Qed.

(** Summing by key and then over the keys. *)
Lemma sum_partition {T} (key : T -> jsstr) (p : T -> bool) (f : T -> Z) l pts :
  NoDup pts -> zsum (map (fun k => sum_if (fun x => (key x =s? k) && p x) f l) pts) = sum_if (fun x => memk (key x) pts && p x) f l.
Proof.
  intros N. induction l as [|x l IH].
  - cbn. clear N. induction pts; cbn; [done|]. by rewrite IHpts.
  - rewrite sum_if_cons, <- IH.
    replace (if memk (key x) pts && p x then f x else 0) with (zsum (map (fun k => if key x =s? k then if p x then f x else 0 else 0) pts))
      by (rewrite pick_one by exact N; by destruct (memk (key x) pts), (p x)).
    clear IH N.
    transitivity (zsum (map (fun k => (if key x =s? k then if p x then f x else 0 else 0) + sum_if (fun x => (key x =s? k) && p x) f l) pts)).
    + f_equal. apply map_ext. intros k. rewrite sum_if_cons. destruct (key x =s? k), (p x); cbn; lia.
    + induction pts as [|k pts IH]; [done|]. cbn [map zsum]. rewrite IH.
      destruct (key x =s? k), (p x); cbn; lia.
Qed.

(** ** Maps *)

Lemma mget_mset {V} k k' (v : V) m : mget k (mset k' v m) = if k' =s? k then Some v else mget k m.
Proof.
  induction m as [|[j w] m IH]; cbn; [done|]. destruct (str_eqb_spec j k') as [->|N]; cbn; [by destruct (k' =s? k)|].
  rewrite IH. destruct (str_eqb_spec j k) as [->|]; [|done]. by destruct (str_eqb_spec k' k) as [->|].
Qed.

Lemma mget_elem {V} k (v : V) m : mget k m = Some v -> (k, v) ∈ m.
Proof.
  induction m as [|[j w] m IH]; cbn; [done|]. destruct (str_eqb_spec j k) as [->|]; [intros [= ->]; apply list_elem_of_here|].
  intros H. apply list_elem_of_further. auto.
Qed.

Lemma mset_elem {V} x k (v : V) m : x ∈ mset k v m -> x.2 = v \/ x ∈ m.
Proof.
  induction m as [|[j w] m IH]; cbn; [intros ->%list_elem_of_singleton; by left|]. destruct (j =s? k); intros [->|H]%elem_of_cons; auto.
  - right. by apply list_elem_of_further.
  - right. apply list_elem_of_here.
  - destruct (IH H); [by left|right; by apply list_elem_of_further].
Qed.

(** The keys of a map. *)
Lemma mset_keys {V} k (v : V) m : map fst (mset k v m) = sadd k (map fst m).
Proof.
  induction m as [|[j w] m IH]; [done|]. cbn. unfold sadd in *. change (memk k (j :: map fst m)) with ((k =s? j) || memk k (map fst m)). destruct (str_eqb_spec j k) as [->|N].
  - by rewrite str_eqb_refl.
  - destruct (str_eqb_spec k j); [congruence|]. cbn. rewrite IH. by destruct (memk k (map fst m)).
Qed.

Lemma memk_elem k l : memk k l = true <-> k ∈ l.
Proof.
  unfold memk. rewrite existsb_exists, list_elem_of_In. split; [intros (x & Hx & ->%str_eqb_eq); done|]. intros H. exists k. by rewrite str_eqb_refl.
Qed.

Lemma sadd_elem x y l : x ∈ sadd y l <-> x = y \/ x ∈ l.
Proof.
  unfold sadd. destruct (memk y l) eqn:E; [|rewrite elem_of_app, list_elem_of_singleton; tauto]. apply memk_elem in E. split; [auto|]. by intros [->|].
Qed.
Lemma sadd_NoDup y l : NoDup l -> NoDup (sadd y l).
Proof.
  intros N. unfold sadd. destruct (memk y l) eqn:E; [done|]. apply NoDup_app. split; [done|]. split; [|apply NoDup_singleton].
  intros x Hx ->%list_elem_of_singleton. apply memk_elem in Hx. congruence.
Qed.

(** The texts of a list, each once. *)
Definition seen {T} (f : T -> jsstr) (l : list T) : list jsstr := fold_left (fun s x => sadd (f x) s) l [].

Lemma seen_snoc {T} (f : T -> jsstr) l x : seen f (l ++ [x]) = sadd (f x) (seen f l).
Proof. unfold seen. by rewrite fold_left_app. Qed.
Lemma seen_elem {T} (f : T -> jsstr) l y : y ∈ seen f l <-> exists x, x ∈ l /\ f x = y.
Proof.
  induction l as [|x l IH] using rev_ind; [cbn; split; [by intros H%not_elem_of_nil|intros (x & H & _); by apply not_elem_of_nil in H]|].
  rewrite seen_snoc, sadd_elem, IH. setoid_rewrite elem_of_app. setoid_rewrite list_elem_of_singleton. naive_solver.
Qed.
Lemma seen_NoDup {T} (f : T -> jsstr) l : NoDup (seen f l).
Proof. induction l as [|x l IH] using rev_ind; [apply NoDup_nil_2|]. rewrite seen_snoc. by apply sadd_NoDup. Qed.
Lemma seen_mem {T} (f : T -> jsstr) l x : x ∈ l -> memk (f x) (seen f l) = true.
Proof. intros H. apply memk_elem, seen_elem. eauto. Qed.

(** The sum of a field of the values of a map. *)
Definition vsum {V} (f : V -> Z) (m : list (jsstr * V)) : Z := zsum (map (fun kv => f kv.2) m).

Lemma vsum_mset {V} (f : V -> Z) k v m : vsum f (mset k v m) = vsum f m - match mget k m with Some o => f o | None => 0 end + f v.
Proof.
  unfold vsum. induction m as [|[j w] m IH]; cbn; [lia|]. destruct (j =s? k); cbn; [lia|]. rewrite IH. lia.
Qed.

(** *** Counting maps *)

Lemma mget_update k m key v :
  mget k (updateMapValue (K := Z) m key v) = if key =s? k then Some (default 0 (mget k m) + v) else mget k m.
Proof.
  unfold updateMapValue. destruct (mget key m) as [o|] eqn:E; rewrite mget_mset; destruct (str_eqb_spec key k) as [->|N]; cbn [default].
  - by rewrite E.
  - done.
  - by rewrite mget_mset, str_eqb_refl, E.
  - rewrite mget_mset. by destruct (str_eqb_spec key k).
Qed.

Lemma mget_init k m key : default 0 (mget k (initializeMap (K := Z) key m)) = default 0 (mget k m).
Proof. unfold initializeMap. destruct (mget key m) eqn:E; [done|]. rewrite mget_mset. destruct (str_eqb_spec key k) as [->|]; [by rewrite E|done]. Qed.

Lemma vsum_update f m key v : (forall a b, f (a + b) = f a + f b) -> vsum f (updateMapValue (K := Z) m key v) = vsum f m + f v.
Proof.
  intros L. assert (f 0 = 0) as Z0 by (pose proof (L 0 0) as L0; rewrite Z.add_0_r in L0; lia).
  unfold updateMapValue. destruct (mget key m) as [o|] eqn:E; rewrite !vsum_mset, ?mget_mset, ?str_eqb_refl, E; cbn; rewrite ?L; lia.
Qed.

Definition counts {T} (key : T -> jsstr) (f : T -> Z) (l : list T) : list (jsstr * Z) :=
  fold_left (fun m x => updateMapValue (K := Z) (initializeMap (K := Z) (key x) m) (key x) (f x)) l [].

Lemma counts_snoc {T} (key : T -> jsstr) f l x :
  counts key f (l ++ [x]) = updateMapValue (K := Z) (initializeMap (K := Z) (key x) (counts key f l)) (key x) (f x).
Proof. unfold counts. by rewrite fold_left_app. Qed.

(** The entry of a key is the sum over what was added under it. *)
Lemma mget_counts {T} (key : T -> jsstr) (f : T -> Z) l k : default 0 (mget k (counts key f l)) = sum_if (fun x => key x =s? k) f l.
Proof.
  induction l as [|x l IH] using rev_ind; [done|]. rewrite counts_snoc, sum_if_snoc, <- IH, mget_update.
  destruct (key x =s? k); [|rewrite mget_init; lia]. cbn [default]. by rewrite mget_init.
Qed.

(** Summing by key over all keys gives the whole. *)
Lemma sum_if_ext {T} p q (f : T -> Z) l : (forall x, x ∈ l -> p x = q x) -> sum_if p f l = sum_if q f l.
Proof.
  induction l as [|x l IH]; intros H; [done|]. rewrite !sum_if_cons, (H x) by apply list_elem_of_here.
  rewrite IH; [done|]. intros y Hy. apply H. by apply list_elem_of_further.
Qed.

Lemma sum_keys {T} (key : T -> jsstr) (f : T -> Z) l pts :
  NoDup pts -> zsum (map (fun k => sum_if (fun x => key x =s? k) f l) pts) = sum_if (fun x => memk (key x) pts) f l.
Proof.
  intros N. pose proof (sum_partition key (fun _ => true) f l pts N) as P.
  rewrite (sum_if_ext (fun x => memk (key x) pts) (fun x => memk (key x) pts && true)) by (intros; by rewrite andb_true_r). rewrite <- P.
  f_equal. apply map_ext. intros k. apply sum_if_ext. intros. by rewrite andb_true_r.
Qed.

Lemma sum_seen {T} (key : T -> jsstr) (f : T -> Z) l : zsum (map (fun k => sum_if (fun x => key x =s? k) f l) (seen key l)) = zsum (map f l).
Proof. rewrite sum_keys by apply seen_NoDup. apply sum_if_all. intros x. apply seen_mem. Qed.

(** ** Totals *)

Abbreviation zitem := (item (K := Z)).
Abbreviation zcell := (cell (K := Z)).

Definition start_raw : raw (K := Z) := Raw 0 0 0 [] [] [] [] [].

Lemma raw_fold (txt : zitem -> jsstr) l :
  fold_left (fun r it => process_item (txt it) r it) l start_raw
  = Raw (zsum (map quota l)) (zsum (map count l)) (zsum (map token_used l)) (seen model_name l) (seen txt l)
      (counts txt quota l) (counts txt token_used l) (counts txt count l).
Proof.
  induction l as [|x l IH] using rev_ind; [done|]. rewrite fold_left_app, IH. cbn [fold_left]. unfold process_item.
  cbn [totalQuota totalTimes totalTokens uniqueModels timePoints timeQuotaMap timeTokensMap timeCountMap].
  rewrite !map_app, !zsum_app, !seen_snoc, !counts_snoc. cbn. by rewrite !Z.add_0_r.
Qed.

Lemma trend_total (txt : zitem -> jsstr) f l :
  zsum (map (fun t => or_zero (mget t (counts txt f l))) (sort_by str_cmp (seen txt l))) = zsum (map f l).
Proof.
  rewrite zsum_sorted, <- (sum_seen txt f l). f_equal. apply map_ext. intros k. by rewrite or_zero_Z, mget_counts.
Qed.

(** *** Cells *)

Definition grown (tk : jsstr) (it : zitem) (c : option zcell) : zcell :=
  match c with
  | Some c => Cell (c_time c) (c_model c) (c_quota c + quota it) (c_count c + count it)
  | None => Cell tk (model_name it) (quota it) (count it)
  end.

Lemma aggregate_item_get k tk m (it : zitem) :
  mget k (aggregate_item tk m it) = if cell_key tk (model_name it) =s? k then Some (grown tk it (mget k m)) else mget k m.
Proof.
  unfold aggregate_item. set (key := cell_key tk (model_name it)). destruct (mget key m) as [c|] eqn:E.
  - rewrite E, mget_mset. destruct (str_eqb_spec key k) as [<-|]; [by rewrite E|done].
  - rewrite mget_mset, str_eqb_refl, !mget_mset. destruct (str_eqb_spec key k) as [<-|]; [by rewrite E|done].
Qed.

Lemma aggregate_item_vsum f tk m (it : zitem) :
  let o := mget (cell_key tk (model_name it)) m in
  vsum f (aggregate_item tk m it) = vsum f m - match o with Some c => f c | None => 0 end + f (grown tk it o).
Proof.
  cbn zeta. unfold aggregate_item. set (key := cell_key tk (model_name it)). destruct (mget key m) as [c|] eqn:E.
  - by rewrite E, vsum_mset, E.
  - rewrite mget_mset, str_eqb_refl, !vsum_mset, mget_mset, str_eqb_refl, E. unfold grown.
    cbn [c_time c_model c_quota c_count add zero Z_amount]. rewrite !Z.add_0_l. lia.
Qed.

Definition agg (txt : zitem -> jsstr) (l : list zitem) : list (jsstr * zcell) := fold_left (fun m it => aggregate_item (txt it) m it) l [].

Lemma agg_snoc txt l x : agg txt (l ++ [x]) = aggregate_item (txt x) (agg txt l) x.
Proof. unfold agg. by rewrite fold_left_app. Qed.

Lemma agg_count txt l : vsum c_count (agg txt l) = zsum (map count l).
Proof.
  induction l as [|x l IH] using rev_ind; [done|]. rewrite agg_snoc, map_app, zsum_app, (aggregate_item_vsum c_count), IH. cbn [map zsum].
  destruct (mget (cell_key (txt x) (model_name x)) (agg txt l)); cbn [grown c_count]; lia.
Qed.

Lemma totals_sum {V} (key : V -> jsstr) (f : V -> Z) (m : list (jsstr * V)) s :
  vsum id (fold_left (fun s kc => updateMapValue (K := Z) s (key kc.2) (f kc.2)) m s) = vsum id s + vsum f m.
Proof.
  revert s. induction m as [|[k v] m IH]; intros s; [unfold vsum at 3; cbn [map zsum fold_left]; lia|]. cbn [fold_left]. rewrite IH, vsum_update by done. unfold vsum. cbn. unfold id. lia.
Qed.

Lemma rank_total t l : zsum (map snd (rank_data t l)) = zsum (map snd l).
Proof.
  unfold rank_data. rewrite <- (zsum_sorted (by_desc snd) snd l). set (all := sort_by _ l).
  destruct (_ <? _)%nat; [|done]. rewrite map_app, zsum_app, fold_add. cbn [map zsum]. rewrite <- (take_drop MAX_RANK_MODELS all) at 3.
  rewrite map_app, zsum_app. cbn. lia.
Qed.

(** Nothing is lost between the data and the totals: the slices of the pie and the bars of the
    ranking add up to the number of requests that is shown, and the trends to the totals of
    requests, quota and tokens. *)
Theorem totals_conserved (local : num -> civil) (cmp : jsstr -> jsstr -> Z) (t : jsstr -> jsstr) (g : jsstr) (data : list zitem) :
  let c := updateChartData local cmp t g data in
  shownQuota c = zsum (map quota data) /\ shownTimes c = zsum (map count data) /\ shownTokens c = zsum (map token_used data)
  /\ zsum (map snd (pieData c)) = shownTimes c /\ zsum (map snd (rankData c)) = shownTimes c
  /\ zsum (times (trendData c)) = shownTimes c /\ zsum (consumeQuota (trendData c)) = shownQuota c /\ zsum (tokens (trendData c)) = shownTokens c.
Proof.
  cbn zeta. unfold updateChartData, processRawData, aggregateDataByTimeAndModel. change (Raw zero zero zero [] [] [] [] []) with start_raw.
  rewrite (raw_fold (time_key local g data) data). fold (agg (time_key local g data) data).
  cbn [shownQuota shownTimes shownTokens pieData rankData trendData totalQuota totalTimes totalTokens calculateTrendData times consumeQuota tokens
       timePoints timeQuotaMap timeTokensMap timeCountMap].
  rewrite zsum_sorted, rank_total, !trend_total.
  assert (P : zsum (map snd (model_totals (agg (time_key local g data) data))) = zsum (map count data)).
  { rewrite <- (agg_count (time_key local g data)). apply (totals_sum c_model c_count _ []). }
  rewrite P. split_and!; reflexivity.
Qed.

(** ** Times *)

(** Dates with years of four digits. *)
Definition civil_ok (c : civil) : Prop := 1000 <= year c <= 9999 /\ 1 <= month c <= 12 /\ 1 <= day c <= 31 /\ 0 <= hour c <= 23.

Definition dated (local : num -> civil) (data : list zitem) : Prop :=
  Forall (fun it => let ms := nmul (created_at it) (of_Z 1000) in civil_ok (local ms) /\ civil_ok (local (nadd ms (of_Z SIX_DAYS)))) data.

Lemma two_length n : 0 <= n <= 99 -> length (two n) = 2%nat.
Proof.
  intros H. assert (C : forallb (fun n => (length (two (Z.of_nat n)) =? 2)%nat) (List.seq 0 100) = true) by (vm_compute; reflexivity).
  rewrite forallb_forall in C. specialize (C (Z.to_nat n)). rewrite Z2Nat.id in C by lia. apply Nat.eqb_eq, C, in_seq. lia.
Qed.

Lemma year_length n : 1000 <= n <= 9999 -> length (Z_to_str n) = 4%nat.
Proof.
  intros H. assert (C : forallb (fun n => (length (Z_to_str (Z.of_nat n + 1000)) =? 4)%nat) (List.seq 0 (Z.to_nat 9000)) = true) by (vm_compute; reflexivity).
  rewrite forallb_forall in C. specialize (C (Z.to_nat (n - 1000))). rewrite Z2Nat.id in C by lia. replace (n - 1000 + 1000) with n in C by lia.
  apply Nat.eqb_eq, C, in_seq. lia.
Qed.

Definition date_len (y : bool) : nat := if y then 10 else 5.
Definition text_len (g : jsstr) (y : bool) : nat :=
  date_len y + (if g =s? $"hour" then 6 else if g =s? $"week" then 3 + date_len y else 0).

Lemma date_length c y : civil_ok c -> length (date_text c y) = date_len y.
Proof.
  intros (Y & M & D & _). unfold date_text. rewrite !length_app, !two_length by lia.
  destruct y; cbn [length app]; rewrite ?length_app, ?year_length by lia; reflexivity.
Qed.

Lemma text_length local ts g y :
  civil_ok (local (nmul ts (of_Z 1000))) -> civil_ok (local (nadd (nmul ts (of_Z 1000)) (of_Z SIX_DAYS))) ->
  length (timestamp2string1 local ts g y) = text_len g y.
Proof.
  intros C C'. unfold timestamp2string1, text_len. rewrite length_app, date_length by done. f_equal. destruct (g =s? $"hour").
  - destruct C as (_ & _ & _ & H). rewrite !length_app, two_length by lia. reflexivity.
  - destruct (g =s? $"week"); [|done]. rewrite length_app, date_length by done. reflexivity.
Qed.

(** ** Cells and bars *)

(** Texts of one length never run into what follows them. *)
Lemma key_eq a b a' b' : length a = length a' -> (cell_key a b =s? cell_key a' b') = (b =s? b') && (a =s? a').
Proof.
  intros L. unfold cell_key. destruct (str_eqb_spec a a') as [->|N], (str_eqb_spec b b') as [->|N']; cbn [andb].
  - apply str_eqb_refl.
  - apply str_eqb_neq. intros E. apply app_inv_head in E. apply app_inv_head in E. done.
  - apply str_eqb_neq. intros E. apply app_inj_1 in E as [E _]; done.
  - apply str_eqb_neq. intros E. apply app_inj_1 in E as [E _]; done.
Qed.

Section Bars.
Variable txt : zitem -> jsstr.
Variable n : nat.

Definition in_cell (time model : jsstr) (x : zitem) : bool := (model_name x =s? model) && (txt x =s? time).

Lemma same_key time model it : length (txt it) = length time -> (cell_key (txt it) (model_name it) =s? cell_key time model) = in_cell time model it.
Proof. apply key_eq. Qed.

Lemma cell_sums l time model :
  Forall (fun it => length (txt it) = n) l -> length time = n ->
  default 0 (option_map c_quota (mget (cell_key time model) (agg txt l))) = sum_if (in_cell time model) quota l
  /\ default 0 (option_map c_count (mget (cell_key time model) (agg txt l))) = sum_if (in_cell time model) count l.
Proof.
  intros F L. induction l as [|x l IH] using rev_ind; [done|]. apply Forall_app in F as [F Fx]. rewrite Forall_singleton in Fx. destruct (IH F) as [IH1 IH2].
  rewrite agg_snoc, aggregate_item_get, !sum_if_snoc, same_key by congruence. destruct (in_cell time model x); [|rewrite IH1, IH2; lia].
  cbn [option_map default]. rewrite <- IH1, <- IH2. destruct (mget (cell_key time model) (agg txt l)); cbn; lia.
Qed.

Lemma agg_cell l time model c :
  Forall (fun it => length (txt it) = n) l -> length time = n -> mget (cell_key time model) (agg txt l) = Some c -> c_time c = time.
Proof.
  intros F L. revert c. induction l as [|x l IH] using rev_ind; intros c; [done|]. apply Forall_app in F as [F Fx]. rewrite Forall_singleton in Fx.
  rewrite agg_snoc, aggregate_item_get, same_key by congruence. destruct (in_cell time model x) eqn:E; [|by apply IH].
  intros [= <-]. destruct (mget (cell_key time model) (agg txt l)) as [o|]; cbn; [by apply IH|]. unfold in_cell in E. bsplit. by apply str_eqb_eq.
Qed.

Lemma agg_has l x : x ∈ l -> mget (cell_key (txt x) (model_name x)) (agg txt l) <> None.
Proof.
  induction l as [|y l IH] using rev_ind; [by intros H%not_elem_of_nil|]. rewrite elem_of_app, list_elem_of_singleton, agg_snoc, aggregate_item_get.
  intros [H| <-]; [|by rewrite str_eqb_refl]. destruct (_ =s? _); [done|auto].
Qed.

Lemma agg_times_from l kc : kc ∈ agg txt l -> c_time kc.2 ∈ seen txt l.
Proof.
  revert kc. induction l as [|x l IH] using rev_ind; intros kc; [by intros H%not_elem_of_nil|]. rewrite agg_snoc, seen_snoc. unfold aggregate_item.
  set (key := cell_key (txt x) (model_name x)). intros H. apply sadd_elem.
  assert (S : forall c m', mget key m' = Some c -> (forall kc, kc ∈ m' -> c_time kc.2 = txt x \/ c_time kc.2 ∈ seen txt l) ->
    kc ∈ mset key (Cell (c_time c) (c_model c) (add (c_quota c) (quota x)) (add (c_count c) (count x))) m' -> c_time kc.2 = txt x \/ c_time kc.2 ∈ seen txt l).
  { intros c m' G O [->|E]%mset_elem; [|by apply O]. cbn [c_time]. apply (O (key, c)). by apply mget_elem. }
  destruct (mget key (agg txt l)) as [c|] eqn:E.
  - rewrite E in H. apply (S c (agg txt l)); [done|intros; right; auto|done].
  - rewrite mget_mset, str_eqb_refl in H. revert H. apply S; [by rewrite mget_mset, str_eqb_refl|].
    intros kc' [->|E']%mset_elem; [by left|right; auto].
Qed.

Lemma agg_times l :
  Forall (fun it => length (txt it) = n) l -> uniq (map (fun kc => c_time kc.2) (agg txt l)) ≡ₚ seen txt l.
Proof.
  intros F. apply NoDup_Permutation; [apply NoDup_uniq|apply seen_NoDup|]. intros y. rewrite elem_of_uniq, list_elem_of_fmap. split.
  - intros (kc & -> & H). by apply agg_times_from.
  - intros (x & Hx & <-)%seen_elem. destruct (mget (cell_key (txt x) (model_name x)) (agg txt l)) as [c|] eqn:E; [|by apply agg_has in E].
    exists (cell_key (txt x) (model_name x), c). split; [|by apply mget_elem]. cbn. symmetry. eapply agg_cell; [exact F| |exact E].
    rewrite Forall_forall in F. by apply F.
Qed.

(** The bars of a time. *)
Section Row.
Variable l : list zitem.
Hypothesis same_length : Forall (fun it => length (txt it) = n) l.

Definition at_time (time : jsstr) (x : zitem) : bool := txt x =s? time.

Lemma models_sum f time : zsum (map (fun model => sum_if (in_cell time model) f l) (seen model_name l)) = sum_if (at_time time) f l.
Proof.
  unfold in_cell. rewrite (sum_partition model_name (at_time time) f l) by apply seen_NoDup.
  apply sum_if_ext. intros x Hx. by rewrite seen_mem.
Qed.

Lemma bars_at_sum time : length time = n -> zsum (map rawQuota (bars_at (seen model_name l) (agg txt l) time)) = sum_if (at_time time) quota l.
Proof.
  intros L. rewrite <- models_sum. unfold bars_at. rewrite map_map. cbn [rawQuota]. rewrite zsum_sorted, map_map. cbn [rawQuota].
  f_equal. apply map_ext. intros model. rewrite or_zero_Z. by apply cell_sums.
Qed.

Lemma points_at_sum time : length time = n -> zsum (map p_count (points_at (seen model_name l) (agg txt l) time)) = sum_if (at_time time) count l.
Proof.
  intros L. rewrite <- models_sum. unfold points_at. rewrite map_map. cbn [p_count].
  f_equal. apply map_ext. intros model. rewrite or_zero_Z. by apply cell_sums.
Qed.

Lemma bar_exact time b :
  length time = n -> b ∈ bars_at (seen model_name l) (agg txt l) time ->
  b_time b = time /\ rawQuota b = sum_if (in_cell time (b_model b)) quota l /\ timeSum b = sum_if (at_time time) quota l.
Proof.
  intros L. rewrite <- bars_at_sum by exact L. unfold bars_at. rewrite map_map. cbn [rawQuota]. rewrite zsum_sorted.
  intros (x & -> & H)%list_elem_of_fmap. rewrite sort_by_perm in H. apply list_elem_of_fmap in H as (model & -> & Hm).
  cbn [b_time b_model rawQuota timeSum]. split; [done|]. split; [rewrite or_zero_Z; by apply cell_sums|]. by rewrite fold_add.
Qed.

Lemma bar_there time model : model ∈ seen model_name l -> exists b, b ∈ bars_at (seen model_name l) (agg txt l) time /\ b_time b = time /\ b_model b = model.
Proof.
  intros H. unfold bars_at. eexists. split; [|split].
  - apply list_elem_of_fmap. eexists. split; [reflexivity|]. rewrite sort_by_perm. apply list_elem_of_fmap. exists model. split; [reflexivity|done].
  - done.
  - done.
Qed.

(** Over any times: the bars hold the items at these times. *)
Lemma bars_sum pts :
  NoDup pts -> Forall (fun t => length t = n) pts ->
  zsum (map rawQuota (flat_map (bars_at (seen model_name l) (agg txt l)) pts)) = sum_if (fun x => memk (txt x) pts) quota l
  /\ zsum (map p_count (flat_map (points_at (seen model_name l) (agg txt l)) pts)) = sum_if (fun x => memk (txt x) pts) count l.
Proof.
  intros N F. rewrite !zsum_flat, <- !sum_keys by exact N. unfold at_time in *. split; f_equal; apply map_ext_in; intros p Hp.
  - apply bars_at_sum. rewrite Forall_forall in F. apply F. by apply list_elem_of_In.
  - apply points_at_sum. rewrite Forall_forall in F. apply F. by apply list_elem_of_In.
Qed.

End Row.
End Bars.

(** C33: with at least seven times, every bar is the quota of the requests of its model at its time,
    the sum on it that of all requests at the time, no request is without a bar, and the
    bars and the points of the lines add up to the totals that are shown. *)
Theorem bars_exact (local : num -> civil) (cmp : jsstr -> jsstr -> Z) (t : jsstr -> jsstr) (g : jsstr) (data : list zitem) :
  dated local data -> (MAX_TREND_POINTS <= length (seen (time_key local g data) data))%nat ->
  let c := updateChartData local cmp t g data in
  let txt := time_key local g data in
  (forall b, b ∈ lineData c -> rawQuota b = sum_if (in_cell txt (b_time b) (b_model b)) quota data /\ timeSum b = sum_if (at_time txt (b_time b)) quota data)
  /\ (forall it, it ∈ data -> exists b, b ∈ lineData c /\ b_time b = txt it /\ b_model b = model_name it)
  /\ zsum (map rawQuota (lineData c)) = shownQuota c /\ zsum (map p_count (modelLine c)) = shownTimes c.
Proof.
  intros D Seven. cbn zeta. unfold updateChartData, processRawData, aggregateDataByTimeAndModel, generateChartTimePoints.
  change (Raw zero zero zero [] [] [] [] []) with start_raw. rewrite (raw_fold (time_key local g data) data).
  set (txt := time_key local g data) in *. fold (agg txt data). cbn [lineData modelLine shownQuota shownTimes uniqueModels totalQuota totalTimes].
  assert (F : Forall (fun it => length (txt it) = text_len g (crosses local data)) data).
  { eapply Forall_impl; [exact D|]. intros it [C1 C2]. by apply text_length. }
  pose proof (agg_times txt _ data F) as P. set (pts := uniq (map (fun kc => c_time kc.2) (agg txt data))) in *.
  assert (L : (length pts <? MAX_TREND_POINTS)%nat = false) by (rewrite P; apply Nat.ltb_ge; exact Seven). rewrite L.
  assert (N : NoDup pts) by apply NoDup_uniq.
  assert (Fp : Forall (fun p => length p = text_len g (crosses local data)) pts).
  { rewrite P. apply Forall_forall. intros p (x & Hx & <-)%seen_elem. rewrite Forall_forall in F. by apply F. }
  destruct (bars_sum txt _ data F pts N Fp) as [S1 S2]. rewrite !zsum_sorted, S1, S2.
  assert (All : forall x, x ∈ data -> memk (txt x) pts = true) by (intros x Hx; apply memk_elem; rewrite P; apply memk_elem; by apply seen_mem).
  rewrite !sum_if_all by exact All. split_and!; [| |done|done].
  - intros b. rewrite sort_by_perm. intros H%list_elem_of_In%in_flat_map. destruct H as (p & Hp & Hb). apply list_elem_of_In in Hp, Hb.
    rewrite Forall_forall in Fp. destruct (bar_exact txt _ data F p b (Fp p Hp) Hb) as (-> & E1 & E2). done.
  - intros it Hit. destruct (bar_there txt data (txt it) (model_name it)) as (b & Hb & E); [apply memk_elem; by apply seen_mem|].
    exists b. split; [|exact E]. rewrite sort_by_perm. apply list_elem_of_In, in_flat_map. exists (txt it).
    split; apply list_elem_of_In; [by apply memk_elem, All|done].
Qed.

(** ** Few times *)

(** Times of this millennium. *)
Definition recent (local : num -> civil) (ts : num) : Prop :=
  let c := local (nmul ts (of_Z 1000)) in 2000 <= year c <= 2999 /\ 1 <= month c <= 12.

Lemma year_head n : 2000 <= n <= 2999 -> exists s, Z_to_str n = 50 :: s.
Proof.
  intros H. assert (C : forallb (fun n => match Z_to_str (Z.of_nat n + 2000) with c :: _ => c =? 50 | [] => false end) (List.seq 0 1000) = true) by (vm_compute; reflexivity).
  rewrite forallb_forall in C. specialize (C (Z.to_nat (n - 2000))). rewrite Z2Nat.id in C by lia. replace (n - 2000 + 2000) with n in C by lia.
  destruct (Z_to_str n) as [|c s]; [discriminate C; apply in_seq; lia|]. exists s. f_equal. apply Z.eqb_eq, C, in_seq. lia.
Qed.

Lemma month_head n : 1 <= n <= 12 -> exists c s, two n = c :: s /\ c <> 50.
Proof.
  intros H. assert (C : forallb (fun n => match two (Z.of_nat n) with c :: _ => negb (c =? 50) | [] => false end) (List.seq 1 12) = true) by (vm_compute; reflexivity).
  rewrite forallb_forall in C. specialize (C (Z.to_nat n)). rewrite Z2Nat.id in C by lia.
  destruct (two n) as [|c s]; [discriminate C; apply in_seq; lia|]. exists c, s. split; [done|]. apply Z.eqb_neq, negb_true_iff, C, in_seq. lia.
Qed.

Lemma text_head local ts g y : recent local ts -> exists c s, timestamp2string1 local ts g y = c :: s /\ (c = 50 <-> y = true).
Proof.
  intros [Y M]. unfold timestamp2string1, date_text. destruct y.
  - destruct (year_head _ Y) as (s & ->). cbn [app]. by eexists _, _.
  - destruct (month_head _ M) as (c & s & -> & N). cbn [app]. eexists _, _. split; [done|]. by split.
Qed.

Lemma agg_none txt k l : (forall it, it ∈ l -> cell_key (txt it) (model_name it) <> k) -> mget k (agg txt l) = None.
Proof.
  induction l as [|x l IH] using rev_ind; intros H; [done|]. rewrite agg_snoc, aggregate_item_get.
  destruct (str_eqb_spec (cell_key (txt x) (model_name x)) k) as [E|_]; [exfalso; apply (H x); [|done]; apply elem_of_app; right; by apply list_elem_of_singleton|].
  apply IH. intros it Hit. apply H, elem_of_app. by left.
Qed.

(** With fewer than seven times the bars are drawn for the last seven times, with the year when
    those cross a year, while the data is grouped with the year when the data does: when only
    one of them crosses a year, every bar is empty, whatever was used. *)
Theorem new_year_empties_bars (local : num -> civil) (cmp : jsstr -> jsstr -> Z) (t : jsstr -> jsstr) (g : jsstr) (data : list zitem) :
  (length (seen (time_key local g data) data) < MAX_TREND_POINTS)%nat -> dated local data ->
  Forall (fun it => recent local (created_at it)) data -> Forall (recent local) (generated g data) ->
  crosses local data <> isDataCrossYear local (generated g data) ->
  let c := updateChartData local cmp t g data in
  Forall (fun b => rawQuota b = 0 /\ timeSum b = 0) (lineData c) /\ Forall (fun p => p_count p = 0) (modelLine c)
  /\ shownQuota c = zsum (map quota data) /\ shownTimes c = zsum (map count data).
Proof.
  intros Few D Rd Rg Cross. cbn zeta. unfold updateChartData, processRawData, aggregateDataByTimeAndModel, generateChartTimePoints.
  change (Raw zero zero zero [] [] [] [] []) with start_raw. rewrite (raw_fold (time_key local g data) data).
  set (txt := time_key local g data) in *. fold (agg txt data). cbn [lineData modelLine shownQuota shownTimes uniqueModels totalQuota totalTimes].
  assert (F : Forall (fun it => length (txt it) = text_len g (crosses local data)) data).
  { eapply Forall_impl; [exact D|]. intros it [C1 C2]. by apply text_length. }
  pose proof (agg_times txt _ data F) as P. assert (L : (length (uniq (map (fun kc => c_time kc.2) (agg txt data))) <? MAX_TREND_POINTS)%nat = true)
    by (rewrite P; by apply Nat.ltb_lt). rewrite L. set (y := isDataCrossYear local (generated g data)) in *.
  assert (E : forall ts model, ts ∈ generated g data -> mget (cell_key (timestamp2string1 local ts g y) model) (agg txt data) = None).
  { intros ts model Hts. apply agg_none. intros it Hit. pose proof (proj1 (Forall_forall _ _) Rd it Hit) as Ri. pose proof (proj1 (Forall_forall _ _) Rg ts Hts) as Rt. destruct (text_head local ts g y Rt) as (c & s & -> & H1).
    destruct (text_head local (created_at it) g (crosses local data) Ri) as (c' & s' & E & H2). unfold txt, time_key. rewrite E.
    unfold cell_key. intros [= -> _]. destruct y, (crosses local data); naive_solver. }
  split_and!; [| |done|done]; rewrite sort_by_perm; apply Forall_forall; intros b H%list_elem_of_In%in_flat_map; destruct H as (p & Hp & Hb);
    apply in_map_iff in Hp as (ts & <- & Hts); apply list_elem_of_In in Hts, Hb.
  - unfold bars_at in Hb. apply list_elem_of_fmap in Hb as (x & -> & Hx). rewrite sort_by_perm in Hx. apply list_elem_of_fmap in Hx as (model & -> & _).
    cbn [rawQuota timeSum]. rewrite E by done. split; [done|]. rewrite fold_add, map_map. cbn [rawQuota].
    induction (seen model_name data) as [|z zs IH]; [done|]. cbn [map zsum]. rewrite E by done. exact IH.
  - unfold points_at in Hb. apply list_elem_of_fmap in Hb as (model & -> & _). cbn [p_count]. by rewrite E.
Qed.

(** ** Users *)

Definition of_user (u : jsstr) (x : zitem) : bool := username x =s? u.

Lemma elem_mget {V} k (v : V) m : NoDup (map fst m) -> (k, v) ∈ m -> mget k m = Some v.
Proof.
  induction m as [|[j w] m IH]; [by intros _ H%not_elem_of_nil|]. cbn. rewrite NoDup_cons. intros [N D] [[= -> ->]|H]%elem_of_cons; [by rewrite str_eqb_refl|].
  destruct (str_eqb_spec j k) as [->|]; [|auto]. exfalso. apply N. apply list_elem_of_fmap. by exists (k, v).
Qed.

Lemma user_totals_snoc l (x : zitem) :
  user_totals (l ++ [x]) = mset (username x) (add (or_zero (mget (username x) (user_totals l))) (quota x)) (user_totals l).
Proof. unfold user_totals. by rewrite fold_left_app. Qed.

Lemma user_keys (l : list zitem) : map fst (user_totals l) = seen username l.
Proof. induction l as [|x l IH] using rev_ind; [done|]. by rewrite user_totals_snoc, mset_keys, seen_snoc, IH. Qed.

Lemma user_sum u (l : list zitem) : default 0 (mget u (user_totals l)) = sum_if (of_user u) quota l.
Proof.
  induction l as [|x l IH] using rev_ind; [done|]. rewrite user_totals_snoc, mget_mset, sum_if_snoc, <- IH. unfold of_user.
  destruct (str_eqb_spec (username x) u) as [->|]; [|lia]. cbn [default]. by rewrite or_zero_Z.
Qed.

Lemma user_entry u q (l : list zitem) : (u, q) ∈ user_totals l -> u ∈ seen username l /\ q = sum_if (of_user u) quota l.
Proof.
  intros H. split; [rewrite <- user_keys; apply list_elem_of_fmap; by exists (u, q)|]. rewrite <- user_sum.
  rewrite (elem_mget u q); [done|rewrite user_keys; apply seen_NoDup|done].
Qed.

(** What is taken first is not less than the rest. *)
Lemma sorted_apart {T} (R : T -> T -> Prop) a b x y : StronglySorted R (a ++ b) -> x ∈ a -> y ∈ b -> R x y.
Proof.
  induction a as [|z a IH]; [by intros _ H%not_elem_of_nil|]. cbn. intros S [->|Hx]%elem_of_cons Hy; apply StronglySorted_inv in S as [S F]; [|auto].
  rewrite Forall_forall in F. apply F, elem_of_app. by right.
Qed.

Lemma by_desc_le (x y : jsstr * Z) : by_desc snd x y <= 0 <-> y.2 <= x.2.
Proof. unfold by_desc. cbn. destruct (Z.ltb_spec y.2 x.2), (Z.ltb_spec x.2 y.2); lia. Qed.

Lemma take_greatest k (l : list (jsstr * Z)) x y :
  x ∈ take k (sort_by (by_desc snd) l) -> y ∈ drop k (sort_by (by_desc snd) l) -> y.2 <= x.2.
Proof.
  intros Hx Hy. apply by_desc_le. eapply (sorted_apart (fun x y : jsstr * Z => by_desc snd x y <= 0)); [|exact Hx|exact Hy].
  rewrite take_drop. apply Sorted_StronglySorted; [intros a b c; rewrite !by_desc_le; lia|]. apply sort_by_sorted. intros a b. rewrite !by_desc_le. lia.
Qed.

(** *** The lines of the users *)

Section UserLines.
Variable txt : zitem -> jsstr.
Variable n : nat.
Variable top : list jsstr.

Definition lines_of (l : list zitem) : list (jsstr * Z) := fold_left (fun m it => user_item top (txt it) m it) l [].

Lemma user_cell l time u :
  Forall (fun it => length (txt it) = n) l -> length time = n -> memk u top = true -> nonempty u = true ->
  default 0 (mget (cell_key time u) (lines_of l)) = sum_if (fun x => (txt x =s? time) && of_user u x) quota l.
Proof.
  intros F L T N. unfold lines_of. induction l as [|x l IH] using rev_ind; [done|]. apply Forall_app in F as [F Fx]. rewrite Forall_singleton in Fx.
  rewrite fold_left_app, sum_if_snoc, <- (IH F). cbn [fold_left]. unfold user_item at 1, of_user.
  destruct (str_eqb_spec (username x) u) as [->|Nu].
  - rewrite T, N. cbn [andb]. rewrite mget_mset, key_eq by congruence. rewrite str_eqb_refl. cbn [andb].
    destruct (str_eqb_spec (txt x) time) as [->|]; cbn [default andb]; [done|lia].
  - rewrite andb_false_r, Z.add_0_r. destruct (memk (username x) top && nonempty (username x)); [|done].
    rewrite mget_mset, key_eq by congruence. by destruct (str_eqb_spec (username x) u).
Qed.

End UserLines.

Lemma sum_if_flat {S T} p (f : T -> Z) (h : S -> list T) l : sum_if p f (flat_map h l) = zsum (map (fun x => sum_if p f (h x)) l).
Proof. induction l as [|x l IH]; [done|]. cbn. rewrite <- IH. unfold sum_if. by rewrite List.filter_app, map_app, zsum_app. Qed.

Lemma line_of_one u (h : jsstr -> Z) time top :
  NoDup top -> sum_if (fun p => u_user p =s? u) u_quota (map (fun user => UserPoint time user (h user)) top) = if memk u top then h u else 0.
Proof.
  intros N. rewrite <- (pick_one u (h u) top N). unfold sum_if. clear N. induction top as [|x top IH]; [done|]. cbn [map List.filter u_user zsum].
  destruct (str_eqb_spec x u) as [->|Nx]; cbn [map zsum u_quota]; rewrite IH; [by rewrite str_eqb_refl|].
  destruct (str_eqb_spec u x); [congruence|lia].
Qed.

(** C34: the ranking of the users: at most as many as asked for, each once and with the sum of its
    requests, and nobody left out used more; the line of a user adds up to that sum. *)
Theorem ranking_exact (local : num -> civil) (g : jsstr) (limit : nat) (data : list zitem) :
  dated local data ->
  let r := processUserData local g limit data in
  NoDup (topUsers r) /\ length (topUsers r) = Nat.min limit (length (seen username data))
  /\ (forall u q, (u, q) ∈ rankingData r -> u ∈ topUsers r /\ q = sum_if (of_user u) quota data)
  /\ (forall u v q, u ∈ seen username data -> u ∉ topUsers r -> (v, q) ∈ rankingData r -> sum_if (of_user u) quota data <= q)
  /\ (forall u, u ∈ topUsers r -> nonempty u = true -> sum_if (fun p => u_user p =s? u) u_quota (userTrend r) = sum_if (of_user u) quota data).
Proof.
  intros D. cbn zeta. unfold processUserData. cbn [topUsers rankingData userTrend]. set (txt := time_key local g data).
  set (sorted := sort_by (by_desc snd) (user_totals data)).
  assert (Pk : map fst sorted ≡ₚ seen username data) by (unfold sorted; rewrite sort_by_perm, user_keys; done).
  assert (Nk : NoDup (map fst sorted)) by (rewrite Pk; apply seen_NoDup).
  assert (Nt : NoDup (map fst (take limit sorted))) by (rewrite <- (take_drop limit sorted), map_app in Nk; by apply NoDup_app in Nk as [? _]).
  assert (En : forall u q, (u, q) ∈ sorted -> q = sum_if (of_user u) quota data).
  { intros u q. unfold sorted. rewrite sort_by_perm. intros H%user_entry. apply H. }
  split; [exact Nt|]. split; [|split; [|split]].
  - rewrite length_map, length_take. f_equal. by rewrite <- Pk, length_map.
  - intros u q H. split; [apply list_elem_of_fmap; by exists (u, q)|]. apply En. rewrite <- (take_drop limit sorted). apply elem_of_app. by left.
  - intros u v q Hu Nu Hv. rewrite <- Pk in Hu. apply list_elem_of_fmap in Hu as ([u' q'] & -> & Hq). cbn [fst] in *. rewrite <- (En u' q' Hq).
    apply (take_greatest limit (user_totals data) (v, q) (u', q') Hv). rewrite <- (take_drop limit sorted) in Hq. apply elem_of_app in Hq as [Hq|Hq]; [|exact Hq].
    exfalso. apply Nu, list_elem_of_fmap. by exists (u', q').
  - intros u Hu Ne. set (top := map fst (take limit sorted)) in *. fold (lines_of txt top data). change (fold_left _ data []) with (seen txt data).
    assert (Fl : Forall (fun it => length (txt it) = text_len g (crosses local data)) data).
    { eapply Forall_impl; [exact D|]. intros it [C1 C2]. by apply text_length. }
    apply memk_elem in Hu. rewrite sum_if_flat, zsum_sorted.
    transitivity (zsum (map (fun time => sum_if (fun x => (txt x =s? time) && of_user u x) quota data) (seen txt data))).
    + f_equal. apply map_ext_in. intros time Ht. rewrite line_of_one, Hu by exact Nt. rewrite or_zero_Z. eapply user_cell; [exact Fl| |exact Hu|exact Ne].
      apply list_elem_of_In, seen_elem in Ht as (x & Hx & <-). rewrite Forall_forall in Fl. by apply Fl.
    + rewrite sum_partition by apply seen_NoDup. apply sum_if_ext. intros x Hx. by rewrite seen_mem.
Qed.

(** ** Witnesses *)

(** The calendar of UTC. *)
Definition num_Z (x : num) : Z :=
  match x with
  | S754_finite s m e => let v := if 0 <=? e then Z.pos m * 2 ^ e else Z.pos m / 2 ^ (- e) in if s then - v else v
  | _ => 0
  end.
Definition utc (ms : num) : civil :=
  let s := num_Z ms / 1000 in
  let z := s / 86400 + 719468 in
  let era := z / 146097 in
  let doe := z - era * 146097 in
  let yoe := (doe - doe / 1460 + doe / 36524 - doe / 146096) / 365 in
  let doy := doe - (365 * yoe + yoe / 4 - yoe / 100) in
  let mp := (5 * doy + 2) / 153 in
  let m := if mp <? 10 then mp + 3 else mp - 9 in
  Civil (yoe + era * 400 + (if m <=? 2 then 1 else 0)) m (doy - (153 * mp + 2) / 5 + 1) (s mod 86400 / 3600).

Definition no_compare (_ _ : jsstr) : Z := 0.
Definition no_t (s : jsstr) : jsstr := s.

Definition civil_okb (c : civil) : bool :=
  (1000 <=? year c) && (year c <=? 9999) && (1 <=? month c) && (month c <=? 12) && (1 <=? day c) && (day c <=? 31) && (0 <=? hour c) && (hour c <=? 23).

Lemma dated_check local (data : list zitem) :
  forallb (fun it => let ms := nmul (created_at it) (of_Z 1000) in civil_okb (local ms) && civil_okb (local (nadd ms (of_Z SIX_DAYS)))) data = true ->
  dated local data.
Proof.
  intros H. apply Forall_forall. intros it Hit%list_elem_of_In. rewrite forallb_forall in H. specialize (H it Hit). cbn zeta in *.
  apply andb_true_iff in H as [H1 H2]. unfold civil_okb, civil_ok in *. lia.
Qed.

Definition recentb (local : num -> civil) (ts : num) : bool :=
  let c := local (nmul ts (of_Z 1000)) in (2000 <=? year c) && (year c <=? 2999) && (1 <=? month c) && (month c <=? 12).

Lemma recent_check {T} (f : T -> num) local l : forallb (fun x => recentb local (f x)) l = true -> Forall (fun x => recent local (f x)) l.
Proof.
  intros H. apply Forall_forall. intros x Hx%list_elem_of_In. rewrite forallb_forall in H. specialize (H x Hx). unfold recentb, recent in *. cbn zeta in *. lia.
Qed.

(** Requests of two users on eight days from the 1st of March 2025. *)
Definition march (d : Z) (m u : jsstr) (q : Z) : zitem := Item (of_Z (1740787200 + 86400 * (d - 1))) m u q 1 10.
Definition eight_days : list zitem := map (fun d => march (Z.of_nat d) (if Nat.even d then $"a" else $"b") (if Nat.even d then $"ann" else $"bob") (Z.of_nat d)) (List.seq 1 8).

Lemma bars_exact_witness :
  zsum (map rawQuota (lineData (updateChartData utc no_compare no_t $"day" eight_days))) = 36
  /\ zsum (map p_count (modelLine (updateChartData utc no_compare no_t $"day" eight_days))) = 8.
Proof.
  destruct (bars_exact utc no_compare no_t $"day" eight_days) as (_ & _ & E1 & E2).
  - apply dated_check. vm_compute. reflexivity.
  - vm_compute. lia.
  - rewrite E1, E2. vm_compute. auto.
Defined.

(** Requests on the 3rd and the 4th of January 2025. *)
Definition january : list zitem := [Item (of_Z 1735862400) $"a" $"ann" 3 1 10; Item (of_Z 1735948800) $"a" $"ann" 2 1 10].

Lemma new_year_empties_bars_witness :
  let c := updateChartData utc no_compare no_t $"day" january in
  Forall (fun b => rawQuota b = 0 /\ timeSum b = 0) (lineData c) /\ shownQuota c = 5 /\ map b_time (lineData c)
  = [$"2024-12-29"; $"2024-12-30"; $"2024-12-31"; $"2025-01-01"; $"2025-01-02"; $"2025-01-03"; $"2025-01-04"].
Proof.
  destruct (new_year_empties_bars utc no_compare no_t $"day" january) as (E & _ & Q & _).
  - vm_compute. lia.
  - apply dated_check. vm_compute. reflexivity.
  - apply (recent_check created_at). vm_compute. reflexivity.
  - apply (recent_check id). vm_compute. reflexivity.
  - vm_compute. discriminate.
  - split; [exact E|]. split; [rewrite Q|]; vm_compute; reflexivity.
Defined.

Lemma ranking_exact_witness : rankingData (processUserData utc $"day" 1 eight_days) = [($"ann", 20)] /\ sum_if (of_user $"bob") quota eight_days <= 20.
Proof.
  destruct (ranking_exact utc $"day" 1 eight_days) as (_ & _ & _ & L & _); [apply dated_check; vm_compute; reflexivity|].
  split; [vm_compute; reflexivity|]. apply (L _ $"ann" 20).
  - apply memk_elem. vm_compute. reflexivity.
  - intros H%memk_elem. vm_compute in H. discriminate H.
  - assert (E : rankingData (processUserData utc $"day" 1 eight_days) = [($"ann", 20)]) by (vm_compute; reflexivity). rewrite E. apply list_elem_of_here.
Defined.

(** In the view by hours a request of the day before is in no bar although it is counted. *)
Example older_hour_lost :
  let data := [Item (of_Z 1740700800) $"a" $"ann" 3 1 10; march 1 $"a" $"ann" 2] in
  let c := updateChartData utc no_compare no_t $"hour" data in shownQuota c = 5 /\ zsum (map rawQuota (lineData c)) = 2.
Proof. vm_compute. auto. Qed.

End DashboardProofs.
