(* ===== verification/DashboardPage.v ===== *)
(** * The page of the dashboard

    [hooks/dashboard/useDashboardData.js] and [components/dashboard/index.jsx]: the state of the
    page, its filters, and the chains of requests that fill its charts, as an instance of
    [AsyncHook.Hook]; the figures it derives, and the monitors by group of
    [helpers/dashboard.jsx].  A request carries the rest of its chain and the granularity of
    the render that sent it. *)
From Stdlib Require Import SpecFloat.
From S2P Require Import Prelude JSNum JSValue Json FormValues ClientHelpers Channels AsyncHook LogTables Dashboard.
#[local] Open Scope Z_scope.
#[local] Arguments js _ : simpl never.

Module DashboardPage.
Import FormValues ClientHelpers Dashboard AsyncHook.

(** ** Times and figures *)

Definition getDefaultTime (st : storage) : jsstr := default $"hour" (stored $"data_export_default_time" st).

Section Page.
Variable stamp : num -> jsstr.          (** [timestamp2string] *)
Variable date_parse : val -> num.       (** [Date.parse] *)
Variable local : num -> civil.
Variable localeCompare : jsstr -> jsstr -> Z.
Variable t : jsstr -> jsstr.
Variable now : num.                     (** [new Date().getTime()] *)
Variable isAdminUser : bool.

Definition now_seconds : num := ndiv now (of_Z 1000).

Definition getInitialTimestamp (st : storage) : jsstr :=
  stamp (nsub now_seconds
    (if getDefaultTime st =s? $"hour" then of_Z 86400 else if getDefaultTime st =s? $"week" then of_Z (86400 * 30) else of_Z (86400 * 7))).

(** Requests and tokens per minute of the period. *)
Definition performanceMetrics (inputs : object) (times tokens : num) : jsstr * jsstr :=
  let timeDiff := ndiv (nsub (date_parse (fld $"end_timestamp" inputs)) (date_parse (fld $"start_timestamp" inputs))) (of_Z 60000) in
  let avg x := if isNaN (ndiv x timeDiff) then $"0" else toFixed (ndiv x timeDiff) 3 in
  (avg times, avg tokens).

Definition getGreeting (hours : Z) (username : val) : jsstr :=
  let greeting :=
    if (5 <=? hours) && (hours <? 12) then t $"早上好"
    else if (12 <=? hours) && (hours <? 14) then t $"中午好"
    else if (14 <=? hours) && (hours <? 18) then t $"下午好"
    else t $"晚上好" in
  $"👋" ++ greeting ++ $"，" ++ String_val (or_else username (VStr [])).

(** A panel is shown unless the status says otherwise. *)
Definition panel_enabled (status : val) (k : jsstr) : bool :=
  let v := get_any status k in if is_nullish v then true else truthy v.
Definition hasInfoPanels (status : val) : bool :=
  panel_enabled status $"announcements_enabled" || panel_enabled status $"faq_enabled" || panel_enabled status $"uptime_kuma_enabled".

(** ** Monitors by group *)

(** The groups are kept in a plain object: a name that objects inherit is taken for a group. *)
Definition add_monitor (groups : list (jsstr * list val)) (m : val) : outcome (list (jsstr * list val)) :=
  let g := String_val (or_else (get_any m $"group") (VStr [])) in
  match prop g groups with
  | Some l => Ret (prop_set g (l ++ [m]) groups)
  | None => if memk g Channels.INHERITED then Throw else Ret (prop_set g [m] groups)
  end.

Definition monitor_groups (monitors : list val) : outcome (list (jsstr * list val)) :=
  fold_left (fun acc m => bind_outcome acc (fun groups => add_monitor groups m)) monitors (Ret []).

(** ** State *)

Record shown := Shown { quotaData : val; charts_ : option (charts (K := num)); userCharts : option (user_charts (K := num)) }.

Record page := Page {
  loading : bool; searchModalVisible : bool; inputs : object; dataExportDefaultTime : jsstr; shown_ : shown;
  uptimeData : val; uptimeLoading : bool; activeUptimeTab : val; user : val; errors : list val; store : storage
}.

Definition init (st : storage) (u : val) : page :=
  Page false false
    [($"username", VStr []); ($"token_name", VStr []); ($"model_name", VStr []); ($"start_timestamp", VStr (getInitialTimestamp st));
     ($"end_timestamp", VStr (stamp (nadd now_seconds (of_Z 3600)))); ($"channel", VStr []); ($"data_export_default_time", VStr [])]
    (getDefaultTime st) (Shown (VArr []) None None) (VArr []) false (VStr []) u [] st.

Definition set_loading (b : bool) (s : page) : page :=
  Page b (searchModalVisible s) (inputs s) (dataExportDefaultTime s) (shown_ s) (uptimeData s) (uptimeLoading s) (activeUptimeTab s) (user s) (errors s) (store s).
Definition set_modal (b : bool) (s : page) : page :=
  Page (loading s) b (inputs s) (dataExportDefaultTime s) (shown_ s) (uptimeData s) (uptimeLoading s) (activeUptimeTab s) (user s) (errors s) (store s).
Definition set_shown (x : shown) (s : page) : page :=
  Page (loading s) (searchModalVisible s) (inputs s) (dataExportDefaultTime s) x (uptimeData s) (uptimeLoading s) (activeUptimeTab s) (user s) (errors s) (store s).
Definition set_uptime (v : val) (b : bool) (tab : val) (s : page) : page :=
  Page (loading s) (searchModalVisible s) (inputs s) (dataExportDefaultTime s) (shown_ s) v b tab (user s) (errors s) (store s).
Definition set_user (u : val) (s : page) : page :=
  Page (loading s) (searchModalVisible s) (inputs s) (dataExportDefaultTime s) (shown_ s) (uptimeData s) (uptimeLoading s) (activeUptimeTab s) u (errors s) (store s).
Definition show_error (e : val) (s : page) : page :=
  Page (loading s) (searchModalVisible s) (inputs s) (dataExportDefaultTime s) (shown_ s) (uptimeData s) (uptimeLoading s) (activeUptimeTab s) (user s) (errors s ++ [e]) (store s).

(** The granularity is stored, the other fields are filters of the next load. *)
Definition handleInputChange (value : val) (name : jsstr) (s : page) : page :=
  if name =s? $"data_export_default_time" then
    Page (loading s) (searchModalVisible s) (inputs s) (String_val value) (shown_ s) (uptimeData s) (uptimeLoading s) (activeUptimeTab s) (user s) (errors s)
      (setItem $"data_export_default_time" (String_val value) (store s))
  else
    Page (loading s) (searchModalVisible s) (prop_set name value (inputs s)) (dataExportDefaultTime s) (shown_ s) (uptimeData s) (uptimeLoading s)
      (activeUptimeTab s) (user s) (errors s) (store s).

(** ** Requests *)

Definition seconds_text (v : val) : jsstr := String_num (ndiv (date_parse v) (of_Z 1000)).

Definition period (s : page) : jsstr :=
  $"start_timestamp=" ++ seconds_text (fld $"start_timestamp" (inputs s)) ++ $"&end_timestamp=" ++ seconds_text (fld $"end_timestamp" (inputs s)).

Definition quota_url (s : page) : jsstr :=
  (if isAdminUser then $"/api/data/?username=" ++ String_val (fld $"username" (inputs s)) ++ $"&" else $"/api/data/self/?")
  ++ period s ++ $"&default_time=" ++ dataExportDefaultTime s.

Definition users_url (s : page) : jsstr := $"/api/data/users?" ++ period s.

(** The chains: the first load, a refresh, and a refresh that closes the dialog.  A chain knows
    the granularity of its render, the address of its second request and the tab it saw. *)
Inductive flow := FirstLoad | Again | Confirm.
Record closure := Closure { fl : flow; granularity : jsstr; users_address : jsstr; tab : val }.

Inductive request :=
| RQuota (url : jsstr) (k : closure)
| RUptime (k : option (closure * list val)) (tab : val)
| RUsers (k : closure)
| RSelf.

Definition start (f : flow) (s : page) : page * list request :=
  (set_loading true s, [RQuota (quota_url s) (Closure f (dataExportDefaultTime s) (users_url s) (activeUptimeTab s))]).

Definition loadUptimeData (k : option (closure * list val)) (tab : val) (s : page) : page * list request :=
  (set_uptime (uptimeData s) true (activeUptimeTab s) s, [RUptime k tab]).

(** ** Data *)

Definition item_of (v : val) : item (K := num) :=
  Item (Number_val (get_any v $"created_at")) (String_val (get_any v $"model_name")) (String_val (get_any v $"username"))
    (Number_val (get_any v $"quota")) (Number_val (get_any v $"count")) (Number_val (get_any v $"token_used")).

Definition placeholder : val :=
  VObj [($"count", VNum n0); ($"model_name", VStr $"无数据"); ($"quota", VNum n0); ($"created_at", VNum now_seconds)].

Definition by_time (a b : val) : Z :=
  let d := nsub (Number_val (get_any a $"created_at")) (Number_val (get_any b $"created_at")) in if nltb d n0 then -1 else if nltb n0 d then 1 else 0.

(** The data with something in it, in order of time. *)
Definition prepared (l : list val) : list val := sort_by by_time (match l with [] => [placeholder] | _ => l end).

(** The charts are drawn when there is data. *)
Definition draw (g : jsstr) (data : list val) (s : page) : page :=
  match data with
  | [] => s
  | _ => set_shown (Shown (quotaData (shown_ s)) (Some (updateChartData local localeCompare t g (map item_of data))) (userCharts (shown_ s))) s
  end.

(** [loadUserData] *)
Definition load_users (k : closure) (s : page) : page * list request :=
  if isAdminUser then (s, [RUsers k]) else match fl k with FirstLoad => loadUptimeData None (tab k) s | _ => (s, []) end.

(** What follows the data of a chain. *)
Definition after_quota (k : closure) (data : list val) (s : page) : page * list request :=
  match fl k with
  | FirstLoad => load_users k (draw (granularity k) data s)
  | _ => loadUptimeData (Some (k, data)) (tab k) s
  end.

Definition quota_answered (k : closure) (a : answer) (s : page) : page * list request :=
  match a with
  | Served (VArr l) =>
    let data := prepared l in
    after_quota k data (set_loading false (set_shown (Shown (VArr data) (charts_ (shown_ s)) (userCharts (shown_ s))) s))
  | Served v => (set_loading false (set_shown (Shown v (charts_ (shown_ s)) (userCharts (shown_ s))) s), [])
  | Refused m => after_quota k [] (set_loading false (show_error m s))
  | Failed e => (set_loading false (show_error e s), [])
  end.

(** The rest of a chain after the monitors: the dialog closes after the charts are drawn. *)
Definition after_uptime (k : option (closure * list val)) (s : page) : page * list request :=
  match k with
  | None => (s, [])
  | Some (k, data) =>
    let s := draw (granularity k) data s in
    load_users k (match fl k with Confirm => set_modal false s | _ => s end)
  end.

Definition uptime_answered (k : option (closure * list val)) (seen_tab : val) (a : answer) (s : page) : page * list request :=
  after_uptime k
    (match a with
     | Served data =>
       let v := or_else data (VArr []) in
       match data with
       | VArr (x :: _) => set_uptime v false (if truthy seen_tab then activeUptimeTab s else get_any x $"categoryName") s
       | _ => set_uptime v false (activeUptimeTab s) s
       end
     | Refused m => set_uptime (uptimeData s) false (activeUptimeTab s) (show_error m s)
     | Failed e => set_uptime (uptimeData s) false (activeUptimeTab s) (show_error e s)
     end).

Definition users_answered (k : closure) (a : answer) (s : page) : page * list request :=
  let s :=
    match a with
    | Served (VArr (x :: l)) =>
      set_shown (Shown (quotaData (shown_ s)) (charts_ (shown_ s)) (Some (updateUserChartData local (granularity k) (map item_of (x :: l))))) s
    | Served _ => s
    | Refused m => show_error m s
    | Failed e => show_error e s
    end in
  match fl k with FirstLoad => loadUptimeData None (tab k) s | _ => (s, []) end.

(** ** Events *)

Inductive event :=
| Mount | Refresh | SearchConfirm | InputChange (value : val) (name : jsstr) | ShowSearchModal | CloseModal | UptimeTab (v : val) | UptimeRefresh.

Definition page_event (e : event) (s : page) : page * list request :=
  match e with
  | Mount => let '(s', rs) := start FirstLoad s in (s', rs ++ [RSelf])
  | Refresh => start Again s
  | SearchConfirm => start Confirm s
  | InputChange v n => (handleInputChange v n s, [])
  | ShowSearchModal => (set_modal true s, [])
  | CloseModal => (set_modal false s, [])
  | UptimeTab v => (set_uptime (uptimeData s) (uptimeLoading s) v s, [])
  | UptimeRefresh => loadUptimeData None (activeUptimeTab s) s
  end.

Definition page_answer (r : request) (a : answer) (s : page) : page * list request :=
  match r with
  | RQuota _ k => quota_answered k a s
  | RUptime k seen_tab => uptime_answered k seen_tab a s
  | RUsers k => users_answered k a s
  | RSelf => (match a with Served data => set_user (user_reducer (user s) (Login data)) s | Refused m => show_error m s | Failed e => show_error e s end, [])
  end.

#[export] Instance page_hook : Hook page event request := { on_event := page_event; on_answer := page_answer }.

End Page.
(** ** No indicator is left behind *)




Section Settles.
Variable stamp : num -> jsstr.
Variable date_parse : val -> num.
Variable local : num -> civil.
Variable localeCompare : jsstr -> jsstr -> Z.
Variable t : jsstr -> jsstr.
Variable now : num.
Variable isAdminUser : bool.













(** *** Every answer brings the page nearer to rest *)






End Settles.

(** ** Groups of monitors *)

Definition group_of (m : val) : jsstr := String_val (or_else (get_any m $"group") (VStr [])).

(** What a list of monitors has in a group. *)
Definition group_content (g : jsstr) (l : list val) : option (list val) :=
  match List.filter (fun m => group_of m =s? g) l with [] => None | r => Some r end.

Lemma group_content_snoc g l m :
  group_content g (l ++ [m]) = if group_of m =s? g then Some (default [] (group_content g l) ++ [m]) else group_content g l.
Proof.
  unfold group_content. rewrite List.filter_app. cbn [List.filter]. destruct (group_of m =s? g); [|by rewrite app_nil_r].
  by destruct (List.filter _ l).
Qed.

(** The monitors are shown by group, each with those of its name in their order; when a group has
    a name that objects inherit nothing can be shown. *)
Theorem monitors_by_group (monitors : list val) :
  match monitor_groups monitors with
  | Ret groups => (forall m, m ∈ monitors -> memk (group_of m) Channels.INHERITED = false) /\ forall g, prop g groups = group_content g monitors
  | Throw => exists m, m ∈ monitors /\ memk (group_of m) Channels.INHERITED = true
  end.
Proof.
  unfold monitor_groups. induction monitors as [|m l IH] using rev_ind; [split; [by intros m H%not_elem_of_nil|done]|].
  rewrite fold_left_app. cbn [fold_left]. destruct (fold_left _ l (Ret [])) as [groups|]; cbn [bind_outcome];
    [|destruct IH as (m' & H & E); exists m'; split; [apply elem_of_app; by left|done]].
  destruct IH as [I1 I2]. unfold add_monitor. fold (group_of m). pose proof (I2 (group_of m)) as Em.
  assert (Step : memk (group_of m) Channels.INHERITED = false -> forall v, v = default [] (prop (group_of m) groups) ++ [m] ->
    (forall m', m' ∈ l ++ [m] -> memk (group_of m') Channels.INHERITED = false)
    /\ forall g, prop g (prop_set (group_of m) v groups) = group_content g (l ++ [m])).
  { intros Hi v ->. split; [intros m' [H| ->%list_elem_of_singleton]%elem_of_app; auto|]. intros g. rewrite prop_set_lookup, group_content_snoc, <- I2.
    destruct (str_eqb_spec g (group_of m)) as [->|N]; [by rewrite str_eqb_refl|]. destruct (str_eqb_spec (group_of m) g); [congruence|done]. }
  destruct (prop (group_of m) groups) as [x|] eqn:E.
  - apply Step; [|done]. unfold group_content in Em. destruct (List.filter (fun m0 => group_of m0 =s? group_of m) l) as [|y r] eqn:F; [done|].
    assert (Hy : In y (List.filter (fun m0 => group_of m0 =s? group_of m) l)) by (rewrite F; by left).
    apply filter_In in Hy as [Hy <-%str_eqb_eq]. apply I1. by apply list_elem_of_In.
  - destruct (memk (group_of m) Channels.INHERITED) eqn:Hi; [exists m; split; [apply elem_of_app; right; by apply list_elem_of_singleton|done]|by apply Step].
Qed.

(** ** Witnesses *)

Definition sample_stamp (_ : num) : jsstr := $"2025-01-01 00:00:00".
Definition sample_parse (_ : val) : num := n0.
Definition sample_local (_ : num) : civil := Civil 2025 1 1 0.
Definition sample_compare (_ _ : jsstr) : Z := 0.
Definition sample_t (s : jsstr) : jsstr := s.
Definition sample_page : Hook page event request := page_hook sample_parse sample_local sample_compare sample_t n0 false.

Definition mounted : sys page request := fire (hook := sample_page) Mount (Sys (init sample_stamp n0 [] VNull) []).


(** A first load that fails ends with nothing under way and no indicator; the monitors were not
    asked for. *)
Example failed_first_load :
  let s := fold_left (fun s a => match pending s with r :: _ => reply (hook := sample_page) 0 r a s | [] => s end)
             [Failed (VStr $"offline"); Refused (VStr $"no")] mounted in
  pending s = [] /\ loading (state s) = false /\ uptimeData (state s) = VArr [] /\ errors (state s) = [VStr $"offline"; VStr $"no"].
Proof. vm_compute. auto. Qed.

End DashboardPage.
