(* ===== verification/PoolAccounts.v ===== *)
(** * The accounts of the pool

    [pages/Pool/Accounts.jsx]: the list of upstream accounts with its filters and pages, the form
    of an account, the full keys and the binding of accounts to channels, as an instance of
    [AsyncHook.Hook].  A request carries the query of the render that sent it, with which the
    list is asked for again when the request was served.  The values of the form are those the
    form library reports; [new Date(s)] is kept as its milliseconds. *)
From Stdlib Require Import SpecFloat.
From S2P Require Import Prelude JSNum JSValue Json FormValues ClientHelpers Passkey AsyncHook.
#[local] Open Scope Z_scope.
#[local] Arguments js _ : simpl never.

Module PoolAccounts.
Import FormValues ClientHelpers AsyncHook.

(** ** Providers and types of channels *)

Record provider := Provider { p_label : jsstr; p_value : jsstr; channelType : Z }.

Definition PROVIDER_OPTIONS : list provider :=
  [Provider $"OpenAI" $"openai" 1; Provider $"Claude / Anthropic" $"claude" 14; Provider $"Gemini / Google" $"gemini" 24;
   Provider $"DeepSeek" $"deepseek" 36; Provider $"Grok / xAI" $"grok" 1011; Provider $"Mistral" $"mistral" 28; Provider $"Codex" $"codex" 1;
   Provider $"OpenRouter" $"openrouter" 20; Provider $"Moonshot (Kimi)" $"moonshot" 25; Provider $"Together AI" $"together" 33;
   Provider $"Cohere" $"cohere" 1003; Provider $"SiliconFlow" $"siliconflow" 45; Provider $"智谱 GLM" $"zhipu" 26; Provider $"其它" $"other" 8].

(** The types of channels the form of a channel offers. *)
Definition CHANNEL_OPTIONS : list (Z * jsstr) :=
  [(1, $"OpenAI"); (2, $"Midjourney Proxy"); (5, $"Midjourney Proxy Plus"); (36, $"Suno API"); (4, $"Ollama"); (14, $"Anthropic Claude"); (33, $"AWS Claude");
   (41, $"Vertex AI"); (3, $"Azure OpenAI"); (34, $"Cohere"); (39, $"Cloudflare"); (43, $"DeepSeek"); (15, $"百度文心千帆"); (46, $"百度文心千帆V2");
   (17, $"阿里通义千问"); (18, $"讯飞星火认知"); (16, $"智谱 ChatGLM（已经弃用，请使用智谱 GLM-4V）"); (26, $"智谱 GLM-4V"); (27, $"Perplexity");
   (24, $"Google Gemini"); (11, $"Google PaLM2"); (47, $"Xinference"); (25, $"Moonshot"); (20, $"OpenRouter"); (19, $"360 智脑"); (23, $"腾讯混元");
   (31, $"零一万物"); (35, $"MiniMax"); (37, $"Dify"); (38, $"Jina"); (40, $"SiliconCloud"); (42, $"Mistral AI"); (8, $"自定义渠道"); (22, $"知识库：FastGPT");
   (21, $"知识库：AI Proxy"); (44, $"嵌入模型：MokaAI M3E"); (45, $"字节火山方舟、豆包通用"); (48, $"xAI"); (49, $"Coze"); (50, $"可灵"); (51, $"即梦");
   (52, $"Vidu"); (53, $"SubModel"); (54, $"豆包视频"); (55, $"Sora"); (56, $"Replicate"); (57, $"Codex (OpenAI OAuth)")].

Definition provider_of (v : val) : option provider := List.find (fun p => eq_str v (p_value p)) PROVIDER_OPTIONS.
Definition type_label (n : Z) : option jsstr := option_map snd (List.find (fun x => x.1 =? n) CHANNEL_OPTIONS).

(** ** The form *)

(** The values of the form of a new account. *)
Definition new_account : object :=
  [($"__new", VBool true); ($"account_type", VStr $"official"); ($"status", int 1); ($"balance_usd", int 0); ($"group_name", VStr $"default");
   ($"auto_create_channel", VBool true); ($"channel_type", int 1); ($"channel_base_url", VStr []); ($"provider", VStr $"openai"); ($"name", VStr []);
   ($"key_raw", VStr []); ($"notes", VStr [])].

Definition above_zero (v : val) : bool := nltb n0 (Number_val v).

(** The values of the form of an account. *)
Definition edit_values (record : object) : object :=
  prop_assign record
    [($"key_raw", VStr []); ($"auto_create_channel", VBool false);
     ($"channel_type", if above_zero (fld $"channel_id" record) then int 0
                       else match provider_of (fld $"provider" record) with Some p => int (channelType p) | None => int 0 end);
     ($"channel_base_url", VStr []);
     ($"expire_at_date", let e := fld $"expire_at" record in if truthy e && above_zero e then VNum (nmul (Number_val e) (of_Z 1000)) else VNull)].

(** [onValueChange]: choosing a provider fills in the type of the channel when there is none. *)
Definition change_value (k : jsstr) (v : val) (vals : object) : object :=
  let vals := prop_set k v vals in
  if (k =s? $"provider") && truthy v then
    match provider_of v with
    | Some p => if negb (above_zero (fld $"channel_type" vals)) then prop_set $"channel_type" (int (channelType p)) vals else vals
    | None => vals
    end
  else vals.

Definition number_or_zero (v : val) : val := let n := Number_val v in if num_truthy n then VNum n else int 0.

Definition submit_payload (values : object) : object :=
  prop_delete $"expire_at_date"
    (prop_assign values
       [($"balance_usd", number_or_zero (fld $"balance_usd" values));
        ($"expire_at", let d := fld $"expire_at_date" values in if truthy d then VNum (nfloor (ndiv (Number_val d) (of_Z 1000))) else int 0);
        ($"auto_create_channel", VBool (truthy (fld $"auto_create_channel" values))); ($"channel_type", number_or_zero (fld $"channel_type" values))]).

(** ** Queries *)

(** [URLSearchParams]: a space becomes a plus, what is not kept a percent code. *)
Definition form_keep (c : Z) : bool := alnum c || one_of $"*-._" c.
Definition form_encode (s : jsstr) : jsstr := flat_map (fun b => if form_keep b then [b] else if b =? 32 then [43] else percent b) (Base64.encode_text s).
Definition query_text (params : list (jsstr * jsstr)) : jsstr := join $"&" (map (fun kv => form_encode kv.1 ++ $"=" ++ form_encode kv.2) params).

Record query := Query { q_page : val; q_size : val; q_keyword : jsstr; q_provider : jsstr; q_status : val }.

Definition query_params (q : query) : list (jsstr * jsstr) :=
  [($"p", String_val (q_page q)); ($"page_size", String_val (q_size q))]
  ++ (if nonempty (q_keyword q) then [($"keyword", q_keyword q)] else [])
  ++ (if nonempty (q_provider q) then [($"provider", q_provider q)] else [])
  ++ (if truthy (q_status q) then [($"status", String_val (q_status q))] else []).
Definition list_url (q : query) : jsstr := $"/api/pool/accounts?" ++ query_text (query_params q).

(** ** State *)

Inductive output := Error (v : val) | Success (s : jsstr) | Copied (record : object) (key : val).

Record accounts := Accounts {
  loading : bool; items : val; total : val; q : query; modalVisible : bool; editing : option object;
  fullKeyVisible : bool; fullKeyData : option (val * object); bindPicker : bool; bindPickerData : option (object * val);
  binding : list (jsstr * bool); outputs : list output
}.

Definition init : accounts :=
  Accounts false (VArr []) (int 0) (Query (int 1) (int 20) [] [] (int 0)) false None false None false None [] [].

Definition set_loading (b : bool) (s : accounts) : accounts :=
  Accounts b (items s) (total s) (q s) (modalVisible s) (editing s) (fullKeyVisible s) (fullKeyData s) (bindPicker s) (bindPickerData s) (binding s) (outputs s).
Definition set_items (v n : val) (s : accounts) : accounts :=
  Accounts (loading s) v n (q s) (modalVisible s) (editing s) (fullKeyVisible s) (fullKeyData s) (bindPicker s) (bindPickerData s) (binding s) (outputs s).
Definition set_query (x : query) (s : accounts) : accounts :=
  Accounts (loading s) (items s) (total s) x (modalVisible s) (editing s) (fullKeyVisible s) (fullKeyData s) (bindPicker s) (bindPickerData s) (binding s) (outputs s).
Definition set_modal (b : bool) (e : option object) (s : accounts) : accounts :=
  Accounts (loading s) (items s) (total s) (q s) b e (fullKeyVisible s) (fullKeyData s) (bindPicker s) (bindPickerData s) (binding s) (outputs s).
Definition set_key (b : bool) (d : option (val * object)) (s : accounts) : accounts :=
  Accounts (loading s) (items s) (total s) (q s) (modalVisible s) (editing s) b d (bindPicker s) (bindPickerData s) (binding s) (outputs s).
Definition set_picker (b : bool) (d : option (object * val)) (s : accounts) : accounts :=
  Accounts (loading s) (items s) (total s) (q s) (modalVisible s) (editing s) (fullKeyVisible s) (fullKeyData s) b d (binding s) (outputs s).
Definition set_binding (k : jsstr) (b : bool) (s : accounts) : accounts :=
  Accounts (loading s) (items s) (total s) (q s) (modalVisible s) (editing s) (fullKeyVisible s) (fullKeyData s) (bindPicker s) (bindPickerData s)
    (prop_set k b (binding s)) (outputs s).
Definition out (o : output) (s : accounts) : accounts :=
  Accounts (loading s) (items s) (total s) (q s) (modalVisible s) (editing s) (fullKeyVisible s) (fullKeyData s) (bindPicker s) (bindPickerData s) (binding s)
    (outputs s ++ [o]).

Section Page.
Variable t : jsstr -> jsstr.

(** ** Requests *)

Inductive save := Create | Update (id : val).

Inductive request :=
| RList (x : query)
| RSave (k : save) (payload : object) (x : query)
| RDelete (id : val) (x : query)
| RStatus (id : val) (payload : object) (x : query)
| RKey (record : object) (copy_ : bool)
| RBind (record : object) (channelId : val) (x : query).

Definition fetchData (x : query) (s : accounts) : accounts * list request := (set_loading true s, [RList x]).

Definition handleSubmit (values : object) (s : accounts) : accounts * list request :=
  let k := match editing s with
           | Some e => if truthy (fld $"__new" e) then Create else Update (fld $"id" e)
           | None => Create
           end in
  (s, [RSave k (submit_payload values) (q s)]).

Definition handleDelete (id : val) (s : accounts) : accounts * list request := (s, [RDelete id (q s)]).

Definition toggleStatus (record : object) (nextStatus : val) (s : accounts) : accounts * list request :=
  (s, [RStatus (fld $"id" record) (prop_assign record [($"status", nextStatus); ($"key_raw", VStr [])]) (q s)]).

Definition showFullKey (record : object) (s : accounts) : accounts * list request :=
  if negb (truthy (fld $"channel_id" record)) then
    (out (Error (VStr (t $"该账号未关联渠道，无法查看完整 Key。请编辑账号、勾选「同步建/绑渠道」后重新录入 Key。"))) s, [])
  else (s, [RKey record false]).

Definition copyFullKey (record : object) (s : accounts) : accounts * list request :=
  if negb (truthy (fld $"channel_id" record)) then (out (Error (VStr (t $"该账号未关联渠道，无法复制（请先把 Key 同步到渠道）"))) s, [])
  else (s, [RKey record true]).

(** The button of the dialog that shows a full key. *)
Definition copyShownKey (s : accounts) : accounts :=
  match fullKeyData s with
  | Some (d, record) =>
    let k := get_any d $"key" in if truthy k then out (Success (t $"已复制")) (out (Copied record k) s) else s
  | None => s
  end.

Definition bind_key (record : object) : jsstr := String_val (fld $"id" record).

Definition handleBindChannel (record : object) (channelId : val) (s : accounts) : accounts * list request :=
  (set_binding (bind_key record) true s, [RBind record (or_else channelId (int 0)) (q s)]).

(** ** Events *)

Inductive event :=
| Mount | Refresh | Keyword (v : jsstr) | FilterProvider (v : jsstr) | FilterStatus (v : val) | Apply | PageChange (v : val) | SizeChange (v : val)
| OpenAdd | OpenEdit (record : object) | CloseModal | Submit (values : object) | Delete (id : val) | Toggle (record : object) (next : val)
| ShowKey (record : object) | CopyKey (record : object) | CopyShown | CloseKey | Bind (record : object) (channelId : val) | ClosePicker.

Definition with_page (p : val) (x : query) : query := Query p (q_size x) (q_keyword x) (q_provider x) (q_status x).
Definition with_size (z : val) (x : query) : query := Query (q_page x) z (q_keyword x) (q_provider x) (q_status x).

Definition act (e : event) (s : accounts) : accounts * list request :=
  let x := q s in
  match e with
  | Mount => (s, [])
  | Refresh => fetchData x s
  | Keyword v => (set_query (Query (q_page x) (q_size x) v (q_provider x) (q_status x)) s, [])
  | FilterProvider v => (set_query (Query (q_page x) (q_size x) (q_keyword x) v (q_status x)) s, [])
  | FilterStatus v => (set_query (Query (q_page x) (q_size x) (q_keyword x) (q_provider x) (or_else v (int 0))) s, [])
  | Apply => let '(s', rs) := fetchData x s in (set_query (with_page (int 1) x) s', rs)
  | PageChange p => (set_query (with_page p x) s, [])
  | SizeChange z => (set_query (with_size z x) s, [])
  | OpenAdd => (set_modal true (Some new_account) s, [])
  | OpenEdit r => (set_modal true (Some (edit_values r)) s, [])
  | CloseModal => (set_modal false (editing s) s, [])
  | Submit v => handleSubmit v s
  | Delete id => handleDelete id s
  | Toggle r n => toggleStatus r n s
  | ShowKey r => showFullKey r s
  | CopyKey r => copyFullKey r s
  | CopyShown => (copyShownKey s, [])
  | CloseKey => (set_key false (fullKeyData s) s, [])
  | Bind r c => handleBindChannel r c s
  | ClosePicker => (set_picker false (bindPickerData s) s, [])
  end.

(** The effect on the page and its size, with the query of the new render. *)
Definition commit (first : bool) (old : query) (x : accounts * list request) : accounts * list request :=
  let new := q x.1 in
  if first || negb (same_value (q_page old) (q_page new)) || negb (same_value (q_size old) (q_size new)) then
    let '(s', rs) := fetchData new x.1 in (s', x.2 ++ rs)
  else x.

Definition accounts_event (e : event) (s : accounts) : accounts * list request :=
  commit (match e with Mount => true | _ => false end) (q s) (act e s).

(** ** Answers *)

Definition failed (e : val) (s : accounts) : accounts :=
  out (Error (or_else (get_any e $"message") (VStr (t $"网络异常")))) (out (Error e) s).
(** The report of data that cannot be read. *)
Definition type_error : output := Error (VStr $"TypeError").
Definition refused (m : val) (d : jsstr) (s : accounts) : accounts := out (Error (or_else m (VStr (t d)))) s.

Definition list_answered (a : answer) (s : accounts) : accounts :=
  set_loading false
    (match a with
     | Served d =>
       if is_nullish d then out type_error s
       else set_items (or_else (get_any d $"items") (VArr [])) (or_else (get_any d $"total") (int 0)) s
     | Refused m => refused m $"加载账号失败" s
     | Failed e => failed e s
     end).

(** What a served change does: a notice, what closes, and the list of the query it was sent with. *)
Definition changed (notice : jsstr) (close : accounts -> accounts) (x : query) (s : accounts) : accounts * list request :=
  fetchData x (close (out (Success notice) s)).

Definition save_notice (k : save) (d : val) : jsstr :=
  match k with
  | Update _ => t $"更新成功"
  | Create => if truthy (get_any d $"channel_id") then t $"新增成功" ++ $" | " ++ t $"已自动建渠道 #" ++ String_val (get_any d $"channel_id") else t $"新增成功"
  end.

Definition key_answered (record : object) (copy_ : bool) (a : answer) (s : accounts) : accounts :=
  match a with
  | Served d =>
    if copy_ then
      let k := or_else (get_any d $"key") (VStr []) in
      if truthy k then out (Success (t $"已复制完整 Key")) (out (Copied record k) s) else out (Error (VStr (t $"关联渠道无 Key"))) s
    else set_key true (Some (d, record)) s
  | Refused m => refused m $"获取完整 Key 失败" s
  | Failed e => failed e s
  end.

Definition candidates_several (v : val) : bool := match v with VArr (_ :: _ :: _) => true | _ => false end.

Definition bind_answered (record : object) (x : query) (a : answer) (s : accounts) : accounts * list request :=
  let '(s', rs) :=
    match a with
    | Served d =>
      if is_nullish d then (out type_error s, [])
      else if truthy (get_any d $"bound") then
        changed (t $"已绑定到渠道" ++ $" #" ++ String_val (get_any d $"channel_id") ++ $" (" ++ String_val (get_any d $"channel_name") ++ $")")
          (fun s => set_picker false (bindPickerData s) s) x s
      else if candidates_several (get_any d $"candidates") then (set_picker true (Some (record, get_any d $"candidates")) s, [])
      else (out (Error (or_else (get_any d $"hint") (VStr (t $"未能自动绑定")))) s, [])
    | Refused m => (refused m $"一键绑定失败" s, [])
    | Failed e => (failed e s, [])
    end in (set_binding (bind_key record) false s', rs).

Definition answered (r : request) (a : answer) (s : accounts) : accounts * list request :=
  match r, a with
  | RList _, _ => (list_answered a s, [])
  | RSave k _ x, Served d => changed (save_notice k d) (fun s => set_modal false (editing s) s) x s
  | RSave _ _ _, Refused m => (refused m $"操作失败" s, [])
  | RDelete _ x, Served _ => changed (t $"已删除") id x s
  | RDelete _ _, Refused m => (refused m $"删除失败" s, [])
  | RStatus _ _ x, Served _ => changed (t $"状态已更新") id x s
  | RStatus _ _ _, Refused m => (refused m $"操作失败" s, [])
  | RKey record c, _ => (key_answered record c a s, [])
  | RBind record _ x, _ => bind_answered record x a s
  | _, Failed e => (failed e s, [])
  end.

Definition accounts_answer (r : request) (a : answer) (s : accounts) : accounts * list request := commit false (q s) (answered r a s).

#[export] Instance accounts_hook : Hook accounts event request := { on_event := accounts_event; on_answer := accounts_answer }.

End Page.
(** ** The types of the providers *)

(** Six of the fourteen providers are given a type of channels of another service or of none: the
    numbers are not those of the form of a channel. *)
Theorem provider_types_misplaced :
  map (fun p => (p_value p, type_label (channelType p))) PROVIDER_OPTIONS
  = [($"openai", Some $"OpenAI"); ($"claude", Some $"Anthropic Claude"); ($"gemini", Some $"Google Gemini"); ($"deepseek", Some $"Suno API"); ($"grok", None);
     ($"mistral", None); ($"codex", Some $"OpenAI"); ($"openrouter", Some $"OpenRouter"); ($"moonshot", Some $"Moonshot"); ($"together", Some $"AWS Claude");
     ($"cohere", None); ($"siliconflow", Some $"字节火山方舟、豆包通用"); ($"zhipu", Some $"智谱 GLM-4V"); ($"other", Some $"自定义渠道")]
  /\ type_label 43 = Some $"DeepSeek" /\ type_label 48 = Some $"xAI" /\ type_label 42 = Some $"Mistral AI" /\ type_label 34 = Some $"Cohere"
  /\ type_label 40 = Some $"SiliconCloud".
Proof. vm_compute. auto 10. Qed.

(** *** The form of a new account *)

Lemma choice_keeps_type v vals :
  above_zero (fld $"channel_type" vals) = true -> fld $"channel_type" (change_value $"provider" v vals) = fld $"channel_type" vals.
Proof.
  intros H. assert (E : forall w, fld $"channel_type" (prop_set $"provider" w vals) = fld $"channel_type" vals)
    by (intros w; unfold fld; rewrite prop_set_lookup; by destruct (str_eqb_spec $"channel_type" $"provider")).
  unfold change_value. rewrite str_eqb_refl. destruct (truthy v); [|apply E]. cbn [andb].
  destruct (provider_of v); [|apply E]. rewrite E, H. apply E.
Qed.

(** Whatever providers are chosen in the form of a new account, the type of the channel stays the
    one of OpenAI the form starts with. *)
Theorem new_account_type_kept (choices : list val) :
  fld $"channel_type" (fold_left (fun vals v => change_value $"provider" v vals) choices new_account) = int 1.
Proof.
  assert (G : forall vals, fld $"channel_type" vals = int 1 ->
    fld $"channel_type" (fold_left (fun vals v => change_value $"provider" v vals) choices vals) = int 1).
  { induction choices as [|v l IH]; intros vals E; [done|]. cbn [fold_left]. apply IH. rewrite choice_keeps_type; [done|]. rewrite E. vm_compute. reflexivity. }
  apply G. vm_compute. reflexivity.
Qed.

(** ** Keys and accounts *)

Section Keys.
Variable t : jsstr -> jsstr.
Variable key_data : val -> val.     (** what the server has under an identifier *)
#[local] Instance the_accounts : Hook accounts event request := accounts_hook t.

Definition honest (r : request) (a : answer) : Prop :=
  match r, a with RKey record _, Served d => d = key_data (fld $"id" record) | _, _ => True end.

(** The key that is shown and those that were copied belong to the account they are shown for. *)
Definition keys_right (s : accounts) : Prop :=
  (forall d r, fullKeyData s = Some (d, r) -> d = key_data (fld $"id" r))
  /\ (forall r k, Copied r k ∈ outputs s -> k = get_any (key_data (fld $"id" r)) $"key").

(** Changes that touch neither. *)
Definition neutral (s s' : accounts) : Prop := fullKeyData s' = fullKeyData s /\ forall r k, Copied r k ∈ outputs s' -> Copied r k ∈ outputs s.

Lemma neutral_right s s' : neutral s s' -> keys_right s -> keys_right s'.
Proof. intros [E O] [K1 K2]. split; [rewrite E; apply K1|auto]. Qed.
Lemma neutral_refl s : neutral s s.
Proof. by split. Qed.
Lemma neutral_trans s1 s2 s3 : neutral s1 s2 -> neutral s2 s3 -> neutral s1 s3.
Proof. intros [A1 A2] [B1 B2]. split; [congruence|auto]. Qed.
Lemma neutral_out o s : (forall r k, o <> Copied r k) -> neutral s (out o s).
Proof. intros N. split; [done|]. cbn. intros r k [H|H%list_elem_of_singleton]%elem_of_app; [done|]. by destruct (N r k). Qed.
Lemma neutral_commit f old x s : neutral s x.1 -> neutral s (commit f old x).1.
Proof. intros H. unfold commit. by destruct (_ || _). Qed.

Lemma neutral_failed e s : neutral s (failed t e s).
Proof. unfold failed. eapply neutral_trans; [|by apply neutral_out]. by apply neutral_out. Qed.

Lemma right_copied record k s : keys_right s -> k = get_any (key_data (fld $"id" record)) $"key" -> keys_right (out (Copied record k) s).
Proof. intros [K1 K2] E. split; [exact K1|]. cbn. intros r k' [H|H%list_elem_of_singleton]%elem_of_app; [by apply K2|]. by injection H as -> ->. Qed.

Lemma right_act e s : keys_right s -> keys_right (act t e s).1.
Proof.
  intros K. destruct e; cbn [act]; try (eapply neutral_right; [by split|exact K]).
  - unfold showFullKey. eapply neutral_right; [|exact K]. destruct (negb _); [by apply neutral_out|by split].
  - unfold copyFullKey. eapply neutral_right; [|exact K]. destruct (negb _); [by apply neutral_out|by split].
  - cbn [fst]. unfold copyShownKey. destruct (fullKeyData s) as [[d r]|] eqn:E; [|done]. cbv zeta. destruct (truthy _); [|done].
    eapply neutral_right; [by apply neutral_out|]. apply right_copied; [done|]. destruct K as [K1 _]. by rewrite (K1 _ _ E).
Qed.

Lemma neutral_list a s : neutral s (list_answered t a s).
Proof.
  unfold list_answered. destruct a as [d|m|e].
  - destruct (is_nullish d); [apply (neutral_out type_error s); done|by split].
  - apply (neutral_out (Error (or_else m (VStr (t $"加载账号失败")))) s). done.
  - apply (neutral_failed e s).
Qed.

Lemma neutral_bind record x a s : neutral s (bind_answered t record x a s).1.
Proof.
  unfold bind_answered. destruct a as [d|m|e].
  - destruct (is_nullish d); [by apply (neutral_out type_error s)|]. destruct (truthy _); [by apply neutral_out|].
    destruct (candidates_several _); [by split|by apply neutral_out].
  - by apply neutral_out.
  - apply (neutral_failed e s).
Qed.

Lemma right_answered r a s : honest r a -> keys_right s -> keys_right (answered t r a s).1.
Proof.
  intros Ho K. destruct r as [x|k p x|id x|id p x|record c|record ch x]; cbn [answered].
  - eapply neutral_right; [apply neutral_list|done].
  - destruct a; (eapply neutral_right; [|exact K]); [by apply neutral_out|by apply neutral_out|apply neutral_failed].
  - destruct a; (eapply neutral_right; [|exact K]); [by apply neutral_out|by apply neutral_out|apply neutral_failed].
  - destruct a; (eapply neutral_right; [|exact K]); [by apply neutral_out|by apply neutral_out|apply neutral_failed].
  - cbn [fst]. unfold key_answered. destruct a as [d|m|e]; [|eapply neutral_right; [by apply neutral_out|done]|eapply neutral_right; [apply neutral_failed|done]].
    cbn in Ho. subst d. destruct c.
    + destruct (truthy (or_else _ _)) eqn:E; [|eapply neutral_right; [by apply neutral_out|done]]. eapply neutral_right; [by apply neutral_out|].
      apply right_copied; [done|]. unfold or_else in *. by destruct (truthy (get_any (key_data (fld $"id" record)) $"key")).
    + destruct K as [K1 K2]. split; [|exact K2]. cbn. by intros d r [= <- <-].
  - eapply neutral_right; [apply neutral_bind|done].
Qed.

(** C36: in whatever order keys are asked for and answered: the full key in the dialog is the one of the
    account it names, and so is every key that is copied, from the list or from the dialog. *)
Theorem key_of_its_account (s : sys accounts request) :
  served_reach honest (Sys init []) s -> keys_right (state s).
Proof.
  induction 1 as [|e s R IH|i r a s R IH Hr Ho].
  - split; [done|]. intros r k H%not_elem_of_nil. done.
  - rewrite fire_eq. eapply neutral_right; [apply neutral_commit, neutral_refl|]. by apply right_act.
  - rewrite reply_eq. cbn [state on_answer the_accounts accounts_hook]. unfold accounts_answer. unfold commit.
    pose proof (right_answered r a (state s) Ho IH) as K. destruct (_ || _); exact K.
Qed.

End Keys.

(** ** Pages *)

Section Pages.
Variable t : jsstr -> jsstr.

(** Applying a filter on a page other than the first asks for that page of the filtered list and
    for the first one: whichever is answered last is shown, under the number of the first. *)
Theorem apply_asks_two_pages (s : accounts) (d : val) :
  same_value (q_page (q s)) (int 1) = false -> is_nullish d = false ->
  let '(s1, rs) := accounts_event t Apply s in
  rs = [RList (q s); RList (with_page (int 1) (q s))]
  /\ items (answered t (RList (q s)) (Served d) s1).1 = or_else (get_any d $"items") (VArr [])
  /\ q_page (q (answered t (RList (q s)) (Served d) s1).1) = int 1.
Proof.
  intros Hp Hd. unfold accounts_event, act, fetchData, commit. cbn [fst snd set_query q with_page q_page q_size set_loading orb]. rewrite Hp. cbn [negb orb app].
  unfold answered, list_answered. rewrite Hd. done.
Qed.

(** A change that is answered after the page was turned asks for the page it was made on: its
    accounts are shown under the number of the other page. *)
Theorem late_change_shows_old_page (s : accounts) (id : val) (d : val) (s2 : accounts) :
  is_nullish d = false -> same_value (q_page (q s2)) (q_page (q s2)) = true -> same_value (q_size (q s2)) (q_size (q s2)) = true ->
  forall r, accounts_event t (Delete id) s = (s, [r]) ->
  exists l, accounts_answer t r (Served VNull) s2 = (set_loading true (out (Success (t $"已删除")) s2), [RList l]) /\ l = q s
  /\ forall s3, q s3 = q s2 -> let s4 := (answered t (RList l) (Served d) s3).1 in
     items s4 = or_else (get_any d $"items") (VArr []) /\ q_page (q s4) = q_page (q s2).
Proof.
  intros Hd Hp Hz r E. assert (r = RDelete id (q s)) as ->.
  { revert E. unfold accounts_event, commit, act, handleDelete. cbn [fst snd orb]. destruct (_ || _); [intros [= ]|by intros [= <-]]. }
  exists (q s). split; [|split; [done|]].
  - unfold accounts_answer, commit, answered, changed, fetchData. cbn [fst snd set_loading out q Datatypes.id orb]. by rewrite Hp, Hz.
  - intros s3 Hq. cbn [answered fst]. unfold list_answered. rewrite Hd. cbn. by rewrite Hq.
Qed.

End Pages.

(** ** No indicator is left behind *)

Section Settles.
Variable t : jsstr -> jsstr.
#[local] Instance settling : Hook accounts event request := accounts_hook t.

Definition is_list (r : request) : bool := match r with RList _ => true | _ => false end.
Definition is_bind (k : jsstr) (r : request) : bool := match r with RBind record _ _ => bind_key record =s? k | _ => false end.

Definition covered (s : accounts) (l : list request) : Prop :=
  (loading s = true -> (0 < count is_list l)%nat) /\ forall k, prop k (binding s) = Some true -> (0 < count (is_bind k) l)%nat.

(** Changes that switch nothing on but the list they ask for. *)
Definition calm (s : accounts) (x : accounts * list request) : Prop :=
  (loading x.1 = true -> loading s = true \/ (0 < count is_list x.2)%nat)
  /\ forall k, prop k (binding x.1) = Some true -> prop k (binding s) = Some true \/ (0 < count (is_bind k) x.2)%nat.

Lemma calm_covered s l x : covered s l -> calm s x -> covered x.1 (l ++ x.2).
Proof.
  intros [L B] [CL CB]. split.
  - intros H. rewrite count_app. destruct (CL H) as [H'|H']; [specialize (L H')|]; lia.
  - intros k H. rewrite count_app. destruct (CB k H) as [H'|H']; [specialize (B k H')|]; lia.
Qed.

Lemma calm_same s s' rs : loading s' = loading s -> binding s' = binding s -> calm s (s', rs).
Proof. intros E1 E2. split; cbn; [rewrite E1; by left|]. intros k. rewrite E2. by left. Qed.
Lemma calm_off s s' rs : loading s' = false -> binding s' = binding s -> calm s (s', rs).
Proof. intros E1 E2. split; cbn; [by rewrite E1|]. intros k. rewrite E2. by left. Qed.
Lemma calm_fetch s s' x : binding s' = binding s -> calm s (fetchData x s').
Proof. intros E. split; cbn; [right; unfold count; cbn; lia|]. intros k. rewrite E. by left. Qed.

Lemma calm_commit f old s x : calm s x -> calm s (commit f old x).
Proof.
  intros [L B]. unfold commit. destruct (_ || _); [|by split]. cbn [fetchData]. split; cbn [fst snd set_loading binding loading].
  - intros _. right. rewrite count_app. unfold count at 2. cbn. lia.
  - intros k H. destruct (B k H) as [H'|H']; [by left|right; rewrite count_app; lia].
Qed.

Lemma calm_act e s : calm s (act t e s).
Proof.
  destruct e; cbn [act]; try (by apply calm_same); try (by apply calm_fetch).
  - unfold showFullKey. destruct (negb _); by apply calm_same.
  - unfold copyFullKey. destruct (negb _); by apply calm_same.
  - unfold copyShownKey. destruct (fullKeyData s) as [[d r]|]; [|by apply calm_same]. cbv zeta. destruct (truthy _); by apply calm_same.
  - unfold handleBindChannel. split; cbn; [by left|]. intros k. rewrite prop_set_lookup. destruct (str_eqb_spec k (bind_key record)) as [->|]; [|by left].
    intros _. right. unfold count. cbn. rewrite str_eqb_refl. cbn. lia.
Qed.

Lemma covered_delete i r s l : pending (Sys s l) !! i = Some r -> covered s l ->
  forall s', (loading s' = true -> loading s = true /\ is_list r = false) ->
  (forall k, prop k (binding s') = Some true -> prop k (binding s) = Some true /\ is_bind k r = false) -> covered s' (delete i l).
Proof.
  cbn. intros Hr [L B] s' HL HB. split.
  - intros H. destruct (HL H) as [H1 H2]. specialize (L H1). pose proof (count_delete is_list _ _ _ Hr) as D. rewrite H2 in D. lia.
  - intros k H. destruct (HB k H) as [H1 H2]. specialize (B k H1). pose proof (count_delete (is_bind k) _ _ _ Hr) as D. rewrite H2 in D. lia.
Qed.

(** An answer to something else than a list or a binding. *)
Lemma calm_other r a s : is_list r = false -> (forall k, is_bind k r = false) -> calm s (answered t r a s).
Proof.
  intros NL NB. destruct r as [x|k p x|id x|id p x|record c|record ch x]; cbn [answered]; [discriminate NL| | | | |].
  - destruct a; [by apply calm_fetch|by apply calm_same|by apply calm_same].
  - destruct a; [by apply calm_fetch|by apply calm_same|by apply calm_same].
  - destruct a; [by apply calm_fetch|by apply calm_same|by apply calm_same].
  - unfold key_answered. destruct a; [destruct c; [destruct (truthy _)|]|..]; by apply calm_same.
  - specialize (NB (bind_key record)). cbn in NB. by rewrite str_eqb_refl in NB.
Qed.

Lemma calm_bind record ch x a s : (loading (answered t (RBind record ch x) a s).1 = true -> loading s = true \/ (0 < count is_list (answered t (RBind record ch x) a s).2)%nat)
  /\ binding (answered t (RBind record ch x) a s).1 = prop_set (bind_key record) false (binding s).
Proof.
  cbn [answered]. unfold bind_answered. destruct a as [d|m|e]; [|split; [by left|done]|split; [by left|done]].
  destruct (is_nullish d); [split; [by left|done]|]. destruct (truthy _); [split; [right; unfold count; cbn; lia|done]|].
  destruct (candidates_several _); (split; [by left|done]).
Qed.

Lemma covered_answer i r a s : covered (state s) (pending s) -> pending s !! i = Some r -> covered (state (reply i r a s)) (pending (reply i r a s)).
Proof.
  intros C Hr. rewrite reply_eq. cbn [state pending on_answer settling accounts_hook]. unfold accounts_answer. destruct s as [s l]. cbn [state pending] in *.
  destruct r as [x|k p x|id x|id p x|record c|record ch x];
    try (apply (calm_covered s); [eapply covered_delete; [exact Hr|exact C|auto|auto]|apply calm_commit, calm_other; done]).
  - apply (calm_covered (answered t (RList x) a s).1); [|apply calm_commit; by apply calm_same]. eapply covered_delete; [exact Hr|exact C| |].
    + cbn [answered fst]. unfold list_answered. by destruct a as [d|m|e].
    + intros k. cbn [answered fst]. unfold list_answered. destruct a as [d|m|e]; [destruct (is_nullish d)|..]; by split.
  - destruct (calm_bind record ch x a s) as [B1 B2]. set (y := answered t (RBind record ch x) a s) in *.
    apply (calm_covered (set_binding (bind_key record) false s)).
    + eapply covered_delete; [exact Hr|exact C|by split|]. intros k. cbn. rewrite prop_set_lookup.
      destruct (str_eqb_spec k (bind_key record)) as [->|N]; [done|]. split; [done|]. by destruct (str_eqb_spec (bind_key record) k).
    + apply calm_commit. split; [exact B1|]. intros k. rewrite B2. by left.
Qed.

(** Whatever the order of clicks and answers, and whatever fails: when nothing is under way the list
    is not shown as loading and no account as being bound. *)
Theorem pool_settles (s : sys accounts request) :
  reach (Sys init []) s -> pending s = [] -> loading (state s) = false /\ forall k, prop k (binding (state s)) <> Some true.
Proof.
  intros R E. assert (C : covered (state s) (pending s)).
  { clear E. revert s R. apply reach_invariant.
    - split; [done|]. intros k H. discriminate H.
    - intros e s C. rewrite fire_eq. cbn [state pending on_event settling accounts_hook]. apply (calm_covered (state s)); [exact C|]. apply calm_commit, calm_act.
    - intros i r a s C Hr. by apply covered_answer. }
  rewrite E in C. destruct C as [L B]. split; [destruct (loading (state s)); [|done]; specialize (L eq_refl); cbn in L; lia|].
  intros k H. specialize (B k H). cbn in B. lia.
Qed.

End Settles.

(** ** Witnesses *)

Definition no_t (s : jsstr) : jsstr := s.
Definition sample_hook : Hook accounts event request := accounts_hook no_t.
Definition account (n : Z) : object := [($"id", int n); ($"channel_id", int 3)].
Definition sample_keys (v : val) : val := VObj [($"key", VStr ($"sk-" ++ String_val v))].

Definition shown_key : sys accounts request :=
  reply (hook := sample_hook) 0 (RKey (account 7) false) (Served (sample_keys (int 7))) (fire (hook := sample_hook) (ShowKey (account 7)) (Sys init [])).

Lemma key_of_its_account_witness : keys_right sample_keys (state shown_key) /\ fullKeyData (state shown_key) = Some (VObj [($"key", VStr $"sk-7")], account 7).
Proof.
  split; [|vm_compute; reflexivity]. apply (key_of_its_account no_t sample_keys). apply served_answer; [|vm_compute; reflexivity|reflexivity].
  apply served_event, served_start.
Defined.

Lemma pool_settles_witness : loading (state shown_key) = false /\ forall k, prop k (binding (state shown_key)) <> Some true.
Proof.
  apply (pool_settles no_t); [|vm_compute; reflexivity].
  eapply reach_next; [|apply is_answered; vm_compute; reflexivity]. eapply reach_next; [apply reach_start|]. apply user_acts.
Defined.

Definition third_page : accounts := set_query (with_page (int 3) (q init)) init.

Lemma apply_asks_two_pages_witness : (accounts_event no_t Apply third_page).2 = [RList (q third_page); RList (with_page (int 1) (q third_page))].
Proof.
  pose proof (apply_asks_two_pages no_t third_page (VObj []) eq_refl eq_refl) as H. destruct (accounts_event no_t Apply third_page). apply H.
Defined.

Lemma late_change_shows_old_page_witness :
  exists l, (accounts_answer no_t (RDelete (int 7) (q third_page)) (Served VNull) init).2 = [RList l] /\ q_page l = int 3.
Proof.
  destruct (late_change_shows_old_page no_t third_page (int 7) (VObj []) init eq_refl eq_refl eq_refl (RDelete (int 7) (q third_page)) eq_refl) as (l & E & -> & _).
  exists (q third_page). rewrite E. split; reflexivity.
Defined.

End PoolAccounts.
