(* ===== verification/PoolRecipes.v ===== *)
(** * The recipes of the pool

    [pages/Pool/Recipes.jsx]: recipes and their jobs, with the dialogs that edit a recipe, record
    the result of a job and configure the automation, as an instance of [AsyncHook.Hook]; and
    the part of [controller/pool.go] that masks and stores the configuration, which the dialog
    relies on, with its texts as the bytes Go has.  The forms of the dialogs exist once the dialog was shown; whether they exist
    before is up to the dialogs of the component library and a parameter, [mounted]. *)
From Stdlib Require Import SpecFloat.
From S2P Require Import Prelude JSNum JSValue Json FormValues ClientHelpers Passkey AsyncHook.
#[local] Open Scope Z_scope.
#[local] Arguments js _ : simpl never.

Module PoolRecipes.
Import FormValues ClientHelpers AsyncHook.

(** ** Recipes *)

Definition safeParseList (s : val) : list val :=
  if truthy s then match parse (String_val s) with Some (VArr l) => l | _ => [] end else [].

(** The recipes by their keys; of two with one key the last. *)
Definition recipeMap (recipes : list object) : list (jsstr * object) :=
  fold_left (fun m r => prop_set (String_val (fld $"key" r)) r m) recipes [].

(** What can be done with a job. *)
Inductive job_action := RecordResult | CancelJob | RetryJob.

Definition job_actions (status : val) : list job_action :=
  (if eq_str status $"manual_pending" then [RecordResult; CancelJob] else [])
  ++ (if eq_str status $"pending" || eq_str status $"running" then [CancelJob] else [])
  ++ (if eq_str status $"failed" || eq_str status $"cancelled" then [RetryJob] else []).

(** ** The configuration of the automation *)

(** *** On the server *)

(** Texts of Go are bytes. *)
Definition gostr : Type := list Z.

Definition units (cp : Z) : jsstr := if cp <? 65536 then [cp] else [55296 + (cp - 65536) / 1024; 56320 + (cp - 65536) mod 1024].
Definition between (a b c : Z) : bool := (a <=? c) && (c <=? b).
Definition continues (c : Z) : bool := between 128 191 c.

(** The first code point of a text and how many bytes it takes; a byte that starts none is U+FFFD. *)
Definition DecodeRune (l : gostr) : Z * nat :=
  match l with
  | a :: r =>
    if a <? 128 then (a, 1%nat) else
    match r with
    | b :: r2 =>
      if between 194 223 a && continues b then ((a - 192) * 64 + (b - 128), 2%nat) else
      match r2 with
      | c :: r3 =>
        if between 224 239 a && between (if a =? 224 then 160 else 128) (if a =? 237 then 159 else 191) b && continues c
        then ((a - 224) * 4096 + (b - 128) * 64 + (c - 128), 3%nat) else
        match r3 with
        | d :: _ =>
          if between 240 244 a && between (if a =? 240 then 144 else 128) (if a =? 244 then 143 else 191) b && continues c && continues d
          then ((a - 240) * 262144 + (b - 128) * 4096 + (c - 128) * 64 + (d - 128), 4%nat) else (65533, 1%nat)
        | [] => (65533, 1%nat)
        end
      | [] => (65533, 1%nat)
      end
    | [] => (65533, 1%nat)
    end
  | [] => (65533, 1%nat)
  end.

(** A text in a JSON answer, as the page reads it. *)
Fixpoint decode_from (skip : nat) (l : gostr) : jsstr :=
  match l with
  | [] => []
  | _ :: r => match skip with S k => decode_from k r | O => units (DecodeRune l).1 ++ decode_from (pred (DecodeRune l).2) r end
  end.
Definition decode_text (l : gostr) : jsstr := decode_from 0 l.

(** A text in a JSON request, as the server reads it. *)
Definition encode_text (s : jsstr) : gostr := Base64.encode_text s.

(** The options of the server; one that is not set is empty. *)
Definition options : Type := list (jsstr * gostr).
Definition option_of (k : jsstr) (o : options) : gostr := default [] (prop k o).

Definition maskAPIKey (s : gostr) : gostr :=
  match s with
  | [] => []
  | _ => if (length s <=? 4)%nat then $"****" else $"****" ++ drop (length s - 4) s
  end.

(** The [current] of the answer. *)
Definition GetPoolAutomationConfig (o : options) : object :=
  [($"PoolEmailProvider", VStr (decode_text (option_of $"PoolEmailProvider" o))); ($"PoolSmsProvider", VStr (decode_text (option_of $"PoolSmsProvider" o)));
   ($"PoolSmsActivateApiKey", VStr (decode_text (maskAPIKey (option_of $"PoolSmsActivateApiKey" o))));
   ($"PoolFivesimApiKey", VStr (decode_text (maskAPIKey (option_of $"PoolFivesimApiKey" o))))].

(** A field of the request: [None] for one that cannot be bound, [Some None] for one that is not there. *)
Definition bound (k : jsstr) (payload : object) : option (option gostr) :=
  match prop k payload with
  | Some (VStr s) => Some (Some (encode_text s))
  | None | Some VUndef | Some VNull => Some None
  | Some _ => None
  end.

(** A field that is there is updated; of the keys not with the text that says so. *)
Definition update_of (k : jsstr) (key : bool) (v : option gostr) : list (jsstr * gostr) :=
  match v with Some s => if key && (s =s? $"[unchanged]") then [] else [(k, s)] | None => [] end.

Definition updates (payload : object) : option (list (jsstr * gostr)) :=
  match bound $"PoolEmailProvider" payload, bound $"PoolSmsProvider" payload, bound $"PoolSmsActivateApiKey" payload, bound $"PoolFivesimApiKey" payload with
  | Some e, Some s, Some k1, Some k2 =>
    Some (update_of $"PoolEmailProvider" false e ++ update_of $"PoolSmsProvider" false s
          ++ update_of $"PoolSmsActivateApiKey" true k1 ++ update_of $"PoolFivesimApiKey" true k2)
  | _, _, _, _ => None
  end.

(** The updates one after the other; an option is set even when its update fails, and a failure
    ends the loop. *)
Fixpoint apply_updates (fails : jsstr -> gostr -> bool) (l : list (jsstr * gostr)) (o : options) : options * bool :=
  match l with
  | [] => (o, true)
  | (k, v) :: r => if fails k v then (prop_set k v o, false) else apply_updates fails r (prop_set k v o)
  end.

(** [range] goes over a map in any order, [shuffle]; the result says whether the request succeeded. *)
Definition SetPoolAutomationConfig (shuffle : list (jsstr * gostr) -> list (jsstr * gostr)) (fails : jsstr -> gostr -> bool) (payload : object)
    (o : options) : options * bool :=
  match updates payload with Some l => apply_updates fails (shuffle l) o | None => (o, false) end.

(** *** In the dialog *)

(** The values the form is filled with. *)
Definition config_values (current : val) : object :=
  [($"PoolEmailProvider", or_else (get_any current $"PoolEmailProvider") (VStr $"mailtm")); ($"PoolSmsProvider", or_else (get_any current $"PoolSmsProvider") (VStr []));
   ($"PoolSmsActivateApiKey", or_else (get_any current $"PoolSmsActivateApiKey") (VStr []));
   ($"PoolFivesimApiKey", or_else (get_any current $"PoolFivesimApiKey") (VStr []))].

Definition masked (s : jsstr) : bool := nonempty s && startsWith $"****" s && (length s <=? 12)%nat.

(** A masked key is replaced by the text that leaves the stored one. *)
Definition unmask (k : jsstr) (payload : object) : object :=
  match prop k payload with
  | Some (VStr s) => if masked s then prop_set k (VStr $"[unchanged]") payload else payload
  | _ => payload
  end.

Definition config_payload (values : object) : object := unmask $"PoolFivesimApiKey" (unmask $"PoolSmsActivateApiKey" values).

(** ** State *)

Inductive output := Error (v : val) | Success (s : jsstr).

(** The report of data that cannot be read. *)
Definition type_error : output := Error (VStr $"TypeError").

(** A dialog with what it shows. *)
Record dialog := Dialog { visible : bool; content : option object }.

Record page := Page {
  loading : bool; recipes : val; jobs : val; workerStatus : val; edit : dialog; steps : dialog; enqueued : dialog;
  submit : dialog; submitRecipe : option object; submitForm : option object; autoCfg : dialog; autoCfgForm : option object; outputs : list output
}.

Definition closed : dialog := Dialog false None.
Definition init (mounted : bool) : page :=
  let form := if mounted then Some [] else None in
  Page false (VArr []) (VArr []) VNull closed closed closed closed None form closed form [].

Definition set_loading (b : bool) (s : page) : page :=
  Page b (recipes s) (jobs s) (workerStatus s) (edit s) (steps s) (enqueued s) (submit s) (submitRecipe s) (submitForm s) (autoCfg s) (autoCfgForm s) (outputs s).
Definition set_data (r j : val) (s : page) : page :=
  Page (loading s) r j (workerStatus s) (edit s) (steps s) (enqueued s) (submit s) (submitRecipe s) (submitForm s) (autoCfg s) (autoCfgForm s) (outputs s).
Definition set_worker (v : val) (s : page) : page :=
  Page (loading s) (recipes s) (jobs s) v (edit s) (steps s) (enqueued s) (submit s) (submitRecipe s) (submitForm s) (autoCfg s) (autoCfgForm s) (outputs s).
Definition set_edit (d : dialog) (s : page) : page :=
  Page (loading s) (recipes s) (jobs s) (workerStatus s) d (steps s) (enqueued s) (submit s) (submitRecipe s) (submitForm s) (autoCfg s) (autoCfgForm s) (outputs s).
Definition set_steps (d : dialog) (s : page) : page :=
  Page (loading s) (recipes s) (jobs s) (workerStatus s) (edit s) d (enqueued s) (submit s) (submitRecipe s) (submitForm s) (autoCfg s) (autoCfgForm s) (outputs s).
Definition set_enqueued (d : dialog) (s : page) : page :=
  Page (loading s) (recipes s) (jobs s) (workerStatus s) (edit s) (steps s) d (submit s) (submitRecipe s) (submitForm s) (autoCfg s) (autoCfgForm s) (outputs s).
Definition set_submit (d : dialog) (r : option object) (form : option object) (s : page) : page :=
  Page (loading s) (recipes s) (jobs s) (workerStatus s) (edit s) (steps s) (enqueued s) d r form (autoCfg s) (autoCfgForm s) (outputs s).
Definition set_autoCfg (d : dialog) (form : option object) (s : page) : page :=
  Page (loading s) (recipes s) (jobs s) (workerStatus s) (edit s) (steps s) (enqueued s) (submit s) (submitRecipe s) (submitForm s) d form (outputs s).
Definition out (o : output) (s : page) : page :=
  Page (loading s) (recipes s) (jobs s) (workerStatus s) (edit s) (steps s) (enqueued s) (submit s) (submitRecipe s) (submitForm s) (autoCfg s) (autoCfgForm s)
    (outputs s ++ [o]).

Section Recipes.
Variable t : jsstr -> jsstr.
Variable now : Z.          (** [Date.now()] *)

(** ** Requests *)

(** The answer to [RFetch] is the two answers of [Promise.all]; of the worker an empty one when it
    failed.  [RConfig] knows whether its render had the form. *)
Inductive request :=
| RFetch
| RConfig (has_form : bool)
| RSaveConfig (payload : object)
| RSaveRecipe (id : val) (payload : object)
| REnqueue (record : object)
| RResult (job : val) (payload : object)
| RCancel (id : val)
| RRetry (id : val).

Definition fetchData (s : page) : page * list request := (set_loading true s, [RFetch]).

Definition openAutoCfg (s : page) : page * list request := (s, [RConfig (bool_decide (is_Some (autoCfgForm s)))]).
Definition handleAutoCfgSubmit (values : object) (s : page) : page * list request := (s, [RSaveConfig (config_payload values)]).

Definition openEdit (record : object) (s : page) : page := set_edit (Dialog true (Some record)) s.
Definition handleEditSubmit (values : object) (s : page) : page * list request :=
  match content (edit s) with
  | Some e =>
    let m := match fld $"manual_mode" values with VBool b => VBool b | _ => VNull end in
    (s, [RSaveRecipe (fld $"id" e) (prop_set $"manual_mode" m values)])
  | None => (out type_error s, [])
  end.

Definition openSteps (record : object) (s : page) : page := set_steps (Dialog true (Some record)) s.

Definition handleEnqueue (record : object) (s : page) : page * list request :=
  if negb (truthy (fld $"enabled" record)) then (out (Error (VStr (t $"请先在「编辑」中启用此 Recipe"))) s, [])
  else (s, [REnqueue record]).

(** The recipes of the page as objects. *)
Definition recipe_list (v : val) : list object := match v with VArr l => flat_map (fun x => match x with VObj o => [o] | _ => [] end) l | _ => [] end.

Definition result_values (job : object) (recipe : option object) : object :=
  [($"account_name", VStr (String_val (or_else (match recipe with Some r => fld $"provider" r | None => VUndef end) (fld $"recipe_key" job))
                           ++ $"-" ++ Z_to_str (now mod 10000)));
   ($"balance_usd", int 0); ($"group_name", VStr $"default");
   ($"create_channel", VBool (match recipe with Some r => truthy (fld $"channel_type" r) | None => false end))].

(** The form that is filled in a moment later is the one of the render: without a form nothing is
    filled in, but the dialog makes one. *)
Definition openSubmit (job : object) (s : page) : page :=
  let recipe := prop (String_val (fld $"recipe_key" job)) (recipeMap (recipe_list (recipes s))) in
  set_submit (Dialog true (Some job)) recipe (Some (match submitForm s with Some _ => result_values job recipe | None => [] end)) s.

Definition handleSubmitResult (values : object) (s : page) : page * list request :=
  match content (submit s) with
  | Some job =>
    let n := Number_val (fld $"balance_usd" values) in
    (s, [RResult (fld $"id" job) (prop_set $"balance_usd" (if num_truthy n then VNum n else int 0) values)])
  | None => (s, [])
  end.

(** ** Events *)

Inductive event :=
| Mount | Tick | Refresh | OpenAutoCfg | FillCfg (k : jsstr) (v : val) | SubmitCfg | CloseCfg | OpenEdit (record : object) | SubmitEdit (values : object) | CloseEdit
| OpenSteps (record : object) | CloseSteps | EnqueueSteps | Enqueue (record : object) | CloseEnqueued
| OpenSubmit (job : object) | FillResult (k : jsstr) (v : val) | SubmitResult | CloseSubmit | Cancel (id : val) | Retry (id : val).

Definition hide (d : dialog) : dialog := Dialog false (content d).

Definition recipes_event (e : event) (s : page) : page * list request :=
  match e with
  | Mount | Tick | Refresh => fetchData s
  | OpenAutoCfg => openAutoCfg s
  | FillCfg k v => (set_autoCfg (autoCfg s) (option_map (prop_set k v) (autoCfgForm s)) s, [])
  | SubmitCfg => match autoCfgForm s with Some values => handleAutoCfgSubmit values s | None => (s, []) end
  | CloseCfg => (set_autoCfg (hide (autoCfg s)) (autoCfgForm s) s, [])
  | OpenEdit r => (openEdit r s, [])
  | SubmitEdit v => handleEditSubmit v s
  | CloseEdit => (set_edit (hide (edit s)) s, [])
  | OpenSteps r => (openSteps r s, [])
  | CloseSteps => (set_steps (hide (steps s)) s, [])
  | EnqueueSteps =>
    match content (steps s) with
    | Some r => if truthy (fld $"enabled" r) then handleEnqueue r (set_steps (hide (steps s)) s) else (s, [])
    | None => (s, [])
    end
  | Enqueue r => handleEnqueue r s
  | CloseEnqueued => (set_enqueued (hide (enqueued s)) s, [])
  | OpenSubmit j => (openSubmit j s, [])
  | FillResult k v => (set_submit (submit s) (submitRecipe s) (option_map (prop_set k v) (submitForm s)) s, [])
  | SubmitResult => match submitForm s with Some values => handleSubmitResult values s | None => (s, []) end
  | CloseSubmit => (set_submit (hide (submit s)) (submitRecipe s) (submitForm s) s, [])
  | Cancel id => (s, [RCancel id])
  | Retry id => (s, [RRetry id])
  end.

(** ** Answers *)

Definition failed (e : val) (s : page) : page := out (Error (or_else (get_any e $"message") (VStr (t $"网络异常")))) (out (Error e) s).

Definition fetch_answered (a : answer) (s : page) : page :=
  set_loading false
    (match a with
     | Served v =>
       let '(rec, ws) := match v with VArr [r; w] => (r, w) | VArr [r] => (r, VUndef) | _ => (VUndef, VUndef) end in
       let d := get_any rec $"data" in
       if truthy (get_any rec $"success") && is_nullish d then out type_error s
       else
         let s := if truthy (get_any rec $"success") then set_data (or_else (get_any d $"recipes") (VArr [])) (or_else (get_any d $"jobs") (VArr [])) s
                  else out (Error (or_else (get_any rec $"message") (VStr (t $"加载失败")))) s in
         if truthy (get_any ws $"success") then set_worker (get_any ws $"data") s else s
     | Refused m => out (Error (or_else m (VStr (t $"加载失败")))) s
     | Failed e => failed e s
     end).

(** The form of the dialog exists once it is shown, and is filled when the render had it. *)
Definition config_answered (has_form : bool) (d : val) (s : page) : page :=
  let form := match autoCfgForm s with Some f => f | None => [] end in
  set_autoCfg (Dialog true (Some (entries d))) (Some (if has_form then prop_assign form (config_values (get_any d $"current")) else form)) s.

Definition enqueue_answered (record : object) (d : val) (s : page) : page :=
  let s := out (Success (t $"已创建任务" ++ $" job_id=" ++ String_val (get_any d $"job_id"))) s in
  if eq_str (get_any d $"mode") $"manual" then set_enqueued (Dialog true (Some (prop_set $"recipe" (VObj record) (entries d)))) s else s.

Definition result_notice (d : val) : jsstr :=
  t $"已入号池" ++ $"：account_id=" ++ String_val (get_any d $"pool_account_id")
  ++ (if truthy (get_any d $"channel_id") then $"，channel_id=" ++ String_val (get_any d $"channel_id") else []).

Definition refused_text (r : request) : val :=
  match r with
  | RConfig _ => VStr (t $"加载失败")
  | RSaveRecipe _ _ => VStr (t $"保存失败")
  | REnqueue _ => VStr (t $"入队失败")
  | RResult _ _ => VStr (t $"回填失败")
  | _ => VUndef
  end.

Definition recipes_answer (r : request) (a : answer) (s : page) : page * list request :=
  match r, a with
  | RFetch, _ => (fetch_answered a s, [])
  | _, Failed e => (failed e s, [])
  | _, Refused m => (out (Error (or_else m (refused_text r))) s, [])
  | RConfig f, Served d => (config_answered f d s, [])
  | RSaveConfig _, Served _ => (set_autoCfg (hide (autoCfg s)) (autoCfgForm s) (out (Success (t $"已保存")) s), [])
  | RSaveRecipe _ _, Served _ => fetchData (set_edit (hide (edit s)) (out (Success (t $"已保存")) s))
  | REnqueue record, Served d => if is_nullish d then (out type_error s, []) else fetchData (enqueue_answered record d s)
  | RResult _ _, Served d => if is_nullish d then (out type_error s, []) else fetchData (set_submit (hide (submit s)) (submitRecipe s) (submitForm s) (out (Success (result_notice d)) s))
  | RCancel _, Served _ => fetchData (out (Success (t $"已取消")) s)
  | RRetry _, Served d => if is_nullish d then (out type_error s, []) else fetchData (out (Success (t $"已创建重试任务" ++ $" job_id=" ++ String_val (get_any d $"job_id"))) s)
  end.

#[export] Instance recipes_hook : Hook page event request := { on_event := recipes_event; on_answer := recipes_answer }.

End Recipes.
(** ** The configuration survives the dialog *)

(** *** Masked keys *)

Lemma rune_size l : l <> [] -> (1 <= (DecodeRune l).2 <= length l)%nat /\ (length (units (DecodeRune l).1) <= (DecodeRune l).2)%nat.
Proof.
  intros N. assert (U : forall cp, cp < 65536 -> length (units cp) = 1%nat) by (intros cp H; unfold units; by destruct (Z.ltb_spec cp 65536); [|lia]).
  assert (U2 : forall cp, (length (units cp) <= 2)%nat) by (intros cp; unfold units; destruct (_ <? _); cbn; lia).
  assert (F : (1 <= 1 <= length l)%nat /\ (length (units 65533) <= 1)%nat) by (rewrite U by lia; destruct l; cbn; [done|lia]).
  unfold DecodeRune. destruct l as [|a r]; [done|]. destruct (Z.ltb_spec a 128); cbn [fst snd]; [rewrite U by lia; cbn; lia|].
  destruct r as [|b r2]; [exact F|]. destruct (between 194 223 a && _); [cbn [fst snd]; split; [cbn; lia|apply U2]|].
  destruct r2 as [|c r3]; [exact F|]. destruct (between 224 239 a && _ && _); cbn [fst snd].
  - split; [cbn; lia|]. eapply Nat.le_trans; [apply U2|lia].
  - destruct r3 as [|d r4]; [exact F|]. destruct (between 240 244 a && _ && _ && _); [|exact F]. cbn [fst snd]. split; [cbn; lia|].
    eapply Nat.le_trans; [apply U2|lia].
Qed.

Lemma decode_length k l : (length (decode_from k l) <= length l - k)%nat.
Proof.
  revert k. induction l as [|c l IH]; intros k; [cbn; lia|]. cbn [decode_from]. destruct k as [|k].
  - destruct (rune_size (c :: l) ltac:(done)) as [S U]. rewrite length_app. specialize (IH (pred (DecodeRune (c :: l)).2)). cbn [length] in *. lia.
  - specialize (IH k). cbn [length]. lia.
Qed.

Lemma masked_mask k : k <> [] -> masked (decode_text (maskAPIKey k)) = true.
Proof.
  intros N. unfold maskAPIKey. destruct k as [|c k]; [done|]. set (s := c :: k). destruct (Nat.leb_spec (length s) 4) as [H|H]; [vm_compute; reflexivity|].
  assert (E : forall r, decode_text ($"****" ++ r) = $"****" ++ decode_text r) by (intros r; reflexivity). rewrite E. unfold masked.
  rewrite startsWith_app. pose proof (decode_length 0 (drop (length s - 4) s)) as L. rewrite length_drop in L.
  assert (Ln : (length ($"****" ++ decode_text (drop (length s - 4) s)) <= 12)%nat) by (rewrite length_app; change (length $"****") with 4%nat; unfold decode_text; lia).
  apply Nat.leb_le in Ln. by rewrite Ln.
Qed.

(** *** What is sent *)

Definition sent_key (k : jsstr) : jsstr := if masked k then $"[unchanged]" else k.

Lemma unmask_lookup k k' o :
  prop k' (unmask k o) = match prop k' o with Some (VStr s) => Some (VStr (if k' =s? k then sent_key s else s)) | x => x end.
Proof.
  unfold unmask, sent_key. destruct (str_eqb_spec k' k) as [->|N].
  - destruct (prop k o) as [[| | | |s| |]|] eqn:E; try exact E. destruct (masked s); [by rewrite prop_set_eq|done].
  - assert (P : prop k' (unmask k o) = prop k' o) by (unfold unmask; destruct (prop k o) as [[| | | |s| |]|]; try done; destruct (masked s); [by rewrite prop_set_ne|done]).
    unfold unmask in P. rewrite P. by destruct (prop k' o) as [[| | | |s| |]|].
Qed.

(** A form with the four fields. *)
Definition has_fields (f : object) (e s k1 k2 : jsstr) : Prop :=
  prop $"PoolEmailProvider" f = Some (VStr e) /\ prop $"PoolSmsProvider" f = Some (VStr s)
  /\ prop $"PoolSmsActivateApiKey" f = Some (VStr k1) /\ prop $"PoolFivesimApiKey" f = Some (VStr k2).

Lemma updates_sent f e s k1 k2 :
  has_fields f e s k1 k2 ->
  updates (config_payload f)
  = Some (update_of $"PoolEmailProvider" false (Some (encode_text e)) ++ update_of $"PoolSmsProvider" false (Some (encode_text s))
          ++ update_of $"PoolSmsActivateApiKey" true (Some (encode_text (sent_key k1))) ++ update_of $"PoolFivesimApiKey" true (Some (encode_text (sent_key k2)))).
Proof.
  intros (E1 & E2 & E3 & E4). unfold updates, bound, config_payload. rewrite !unmask_lookup, E1, E2, E3, E4. reflexivity.
Qed.

(** An empty key is sent as it is, another one is not. *)
Definition kept_key (k : jsstr) (key : gostr) : list (jsstr * gostr) := match key with [] => [(k, [])] | _ => [] end.

Lemma key_not_sent k key : update_of k true (Some (encode_text (sent_key (decode_text (maskAPIKey key))))) = kept_key k key.
Proof. destruct key as [|c r]; [reflexivity|]. unfold sent_key. rewrite masked_mask by done. reflexivity. Qed.

Lemma kept_lookup k k' key : prop k' (kept_key k key) = if (k' =s? k) && negb (nonempty key) then Some [] else None.
Proof. destruct key; cbn [kept_key prop nonempty negb]; [|by rewrite andb_false_r]. rewrite andb_true_r. by destruct (k' =s? k). Qed.

(** The updates of a form that was not changed. *)
Definition unchanged (o : options) : list (jsstr * gostr) :=
  [($"PoolEmailProvider", match option_of $"PoolEmailProvider" o with [] => $"mailtm" | e => e end); ($"PoolSmsProvider", option_of $"PoolSmsProvider" o)]
  ++ kept_key $"PoolSmsActivateApiKey" (option_of $"PoolSmsActivateApiKey" o) ++ kept_key $"PoolFivesimApiKey" (option_of $"PoolFivesimApiKey" o).

Lemma unchanged_others o k : k <> $"PoolEmailProvider" -> prop k (unchanged o) = None \/ prop k (unchanged o) = Some (option_of k o).
Proof.
  intros N. unfold unchanged. rewrite !prop_app, !kept_lookup. cbn [prop]. destruct (str_eqb_spec k $"PoolEmailProvider"); [done|].
  destruct (str_eqb_spec k $"PoolSmsProvider") as [->|_]; [by right|].
  destruct (str_eqb_spec k $"PoolSmsActivateApiKey") as [->|_]; cbn [andb].
  - destruct (option_of $"PoolSmsActivateApiKey" o); [by right|]. cbn [nonempty negb]. left. reflexivity.
  - destruct (str_eqb_spec k $"PoolFivesimApiKey") as [->|_]; cbn [andb]; [|by left]. destruct (option_of $"PoolFivesimApiKey" o); [by right|by left].
Qed.

(** *** What is stored *)

Lemma apply_spec fails l o o' ok k :
  NoDup (keys l) -> apply_updates fails l o = (o', ok) ->
  (option_of k o' = option_of k o \/ prop k l = Some (option_of k o')) /\ (ok = true -> option_of k o' = default (option_of k o) (prop k l)).
Proof.
  revert o. induction l as [|[k1 v1] l IH]; intros o Hn; cbn [apply_updates]; [intros [= <- <-]; split; [by left|done]|].
  apply NoDup_cons in Hn as [Hk Hn].
  assert (O : option_of k (prop_set k1 v1 o) = if k =s? k1 then v1 else option_of k o) by (unfold option_of; rewrite prop_set_lookup; by destruct (k =s? k1)).
  assert (A : k = k1 -> prop k l = None) by (intros ->; by apply prop_None). destruct (fails k1 v1).
  - intros [= <- <-]. split; [|done]. rewrite O. cbn [prop]. destruct (str_eqb_spec k k1); [by right|by left].
  - intros H. destruct (IH _ Hn H) as [I1 I2]. rewrite O in I1, I2. cbn [prop]. destruct (str_eqb_spec k k1) as [E|N]; [|done].
    rewrite (A E) in I1, I2. destruct I1 as [I1|I1]; [|done]. rewrite I1. split; [by right|done].
Qed.

Lemma shuffled_prop {V} (l l' : list (jsstr * V)) k : NoDup (keys l) -> l' ≡ₚ l -> NoDup (keys l') /\ prop k l' = prop k l.
Proof.
  intros Hn Hp. assert (Hn' : NoDup (keys l')) by (unfold keys in *; by rewrite Hp). split; [done|].
  destruct (prop k l) as [v|] eqn:E.
  - apply prop_NoDup_elem; [done|]. rewrite Hp. by apply prop_elem.
  - apply prop_None. apply prop_None in E. unfold keys in *. by rewrite Hp.
Qed.

Lemma update_keys k key v : keys (update_of k key v) `sublist_of` [k].
Proof. unfold update_of. destruct v as [s|]; [|apply sublist_nil_l]. destruct (key && _); [apply sublist_nil_l|done]. Qed.

Lemma updates_NoDup payload l : updates payload = Some l -> NoDup (keys l).
Proof.
  unfold updates.
  destruct (bound $"PoolEmailProvider" payload) as [e|], (bound $"PoolSmsProvider" payload) as [s|], (bound $"PoolSmsActivateApiKey" payload) as [k1|],
    (bound $"PoolFivesimApiKey" payload) as [k2|]; try done. intros [= <-].
  assert (N : NoDup ([$"PoolEmailProvider"] ++ [$"PoolSmsProvider"] ++ [$"PoolSmsActivateApiKey"] ++ [$"PoolFivesimApiKey"]))
    by (apply (bool_decide_unpack _); vm_compute; exact I).
  eapply sublist_NoDup; [exact N|]. unfold keys. rewrite !map_app. repeat (apply sublist_app; [apply update_keys|]). apply update_keys.
Qed.

(** What a request leaves of an option: it is as it was or as it was sent, and as it was sent when the
    request succeeded. *)
Lemma stored_option shuffle fails payload o o' ok l k :
  (forall l, shuffle l ≡ₚ l) -> updates payload = Some l -> SetPoolAutomationConfig shuffle fails payload o = (o', ok) ->
  (option_of k o' = option_of k o \/ prop k l = Some (option_of k o')) /\ (ok = true -> option_of k o' = default (option_of k o) (prop k l)).
Proof.
  intros Hs Hu. unfold SetPoolAutomationConfig. rewrite Hu. pose proof (updates_NoDup _ _ Hu) as Hn.
  destruct (shuffled_prop l (shuffle l) k Hn (Hs l)) as [Hn' E]. rewrite <- E. by apply apply_spec.
Qed.

(** *** The dialog *)

Lemma form_filled (form : object) (o : options) :
  has_fields (prop_assign form (config_values (VObj (GetPoolAutomationConfig o))))
    (match decode_text (option_of $"PoolEmailProvider" o) with [] => $"mailtm" | e => e end) (decode_text (option_of $"PoolSmsProvider" o))
    (decode_text (maskAPIKey (option_of $"PoolSmsActivateApiKey" o))) (decode_text (maskAPIKey (option_of $"PoolFivesimApiKey" o))).
Proof.
  assert (O : forall x, or_else (VStr x) (VStr []) = VStr x) by (by intros [|]).
  assert (N : forall a b c d : val, NoDup (keys [($"PoolEmailProvider", a); ($"PoolSmsProvider", b); ($"PoolSmsActivateApiKey", c); ($"PoolFivesimApiKey", d)]))
    by (intros; apply (bool_decide_unpack _); vm_compute; exact I).
  unfold config_values.
  change (get_any (VObj (GetPoolAutomationConfig o)) $"PoolEmailProvider") with (VStr (decode_text (option_of $"PoolEmailProvider" o))).
  change (get_any (VObj (GetPoolAutomationConfig o)) $"PoolSmsProvider") with (VStr (decode_text (option_of $"PoolSmsProvider" o))).
  change (get_any (VObj (GetPoolAutomationConfig o)) $"PoolSmsActivateApiKey") with (VStr (decode_text (maskAPIKey (option_of $"PoolSmsActivateApiKey" o)))).
  change (get_any (VObj (GetPoolAutomationConfig o)) $"PoolFivesimApiKey") with (VStr (decode_text (maskAPIKey (option_of $"PoolFivesimApiKey" o)))).
  rewrite !O. split; [|split; [|split]]; rewrite prop_assign_lookup by apply N; try reflexivity.
  cbn [prop]. rewrite str_eqb_refl. by destruct (decode_text (option_of $"PoolEmailProvider" o)).
Qed.

(** A text of the server that the page sends back as it was. *)
Definition valid_text (s : gostr) : Prop := encode_text (decode_text s) = s.

Section Automation.
Variable t : jsstr -> jsstr.
Variable now : Z.
Variable shuffle : list (jsstr * gostr) -> list (jsstr * gostr).
Variable fails : jsstr -> gostr -> bool.
Hypothesis shuffled : forall l, shuffle l ≡ₚ l.

(** The dialog is opened on the configuration [o] of the server, which the answer [d] has. *)
Definition opened (d : val) (s : page) : page := (recipes_answer t (RConfig (bool_decide (is_Some (autoCfgForm s)))) (Served d) s).1.

(** What the server has after the dialog is saved. *)
Definition saved (s : page) (o : options) : options * bool :=
  match (recipes_event t now SubmitCfg s).2 with
  | [RSaveConfig payload] => SetPoolAutomationConfig shuffle fails payload o
  | _ => (o, false)
  end.

(** C37: opening the dialog of the automation and saving it without a change, in whatever
    order the server applies the updates and wherever it fails: when the dialog had a form
    every option stays as it was, the keys included although the dialog only has them
    masked, except that an empty provider of mails becomes mailtm, surely when the request
    succeeds; when it had no form its fields are empty, the request has no field and nothing
    changes. The names of the providers are valid UTF-8; keys are any bytes. *)
Theorem automation_roundtrip (s : page) (d : val) (o : options) :
  get_any d $"current" = VObj (GetPoolAutomationConfig o) -> valid_text (option_of $"PoolEmailProvider" o) -> valid_text (option_of $"PoolSmsProvider" o) ->
  (openAutoCfg s).2 = [RConfig (bool_decide (is_Some (autoCfgForm s)))] /\
  let '(o', ok) := saved (opened d s) o in
  match autoCfgForm s with
  | Some _ =>
    (forall k, k <> $"PoolEmailProvider" -> option_of k o' = option_of k o)
    /\ (option_of $"PoolEmailProvider" o' = option_of $"PoolEmailProvider" o
        \/ option_of $"PoolEmailProvider" o = [] /\ option_of $"PoolEmailProvider" o' = $"mailtm")
    /\ (ok = true -> option_of $"PoolEmailProvider" o' = match option_of $"PoolEmailProvider" o with [] => $"mailtm" | e => e end)
  | None => o' = o /\ ok = true
  end.
Proof using shuffled.
  intros Hd Ve Vs. split; [reflexivity|]. destruct (saved (opened d s) o) as [o' ok] eqn:E. unfold saved, opened in E.
  cbn [recipes_answer fst config_answered recipes_event set_autoCfg autoCfgForm handleAutoCfgSubmit snd] in E. rewrite Hd in E.
  destruct (autoCfgForm s) as [form|].
  - rewrite bool_decide_eq_true_2 in E by done. pose proof (form_filled form o) as F. apply updates_sent in F. rewrite !key_not_sent in F.
    assert (U : updates (config_payload (prop_assign form (config_values (VObj (GetPoolAutomationConfig o))))) = Some (unchanged o)).
    { rewrite F. unfold unchanged, update_of. cbn [andb app]. unfold valid_text in Ve, Vs. rewrite Vs. do 3 f_equal.
      destruct (option_of $"PoolEmailProvider" o) as [|c r]; [reflexivity|]. destruct (decode_text (c :: r)) eqn:Ed; [done|exact Ve]. }
    assert (Pe : prop $"PoolEmailProvider" (unchanged o) = Some (match option_of $"PoolEmailProvider" o with [] => $"mailtm" | e => e end)) by reflexivity.
    pose proof (unchanged_others o) as P. set (l := unchanged o) in *.
    assert (W : forall k, (option_of k o' = option_of k o \/ prop k l = Some (option_of k o')) /\ (ok = true -> option_of k o' = default (option_of k o) (prop k l)))
      by (intros k; exact (stored_option _ _ _ _ _ _ _ k shuffled U E)).
    clearbody l. split; [|split].
    + intros k N. destruct (W k) as [[H|H] _]; [exact H|]. destruct (P k N) as [P0|P0]; rewrite P0 in H; [done|]. by injection H.
    + destruct (W $"PoolEmailProvider") as [[H|H] _]; [by left|]. rewrite Pe in H. injection H as H. rewrite <- H.
      destruct (option_of $"PoolEmailProvider" o); [right; done|by left].
    + intros Hok. destruct (W $"PoolEmailProvider") as [_ H]. rewrite (H Hok), Pe. reflexivity.
  - rewrite bool_decide_eq_false_2 in E by (by intros [? ?]). unfold SetPoolAutomationConfig in E. change (updates (config_payload [])) with (Some (@nil (jsstr * gostr))) in E.
    pose proof (shuffled []) as Z. apply Permutation_nil_r in Z. cbv beta iota in E. rewrite Z in E. by injection E as <- <-.
Qed.

(** A key whose field is emptied is erased on the server when the request succeeds. *)
Theorem emptied_key_erased (s : page) (d : val) (o o' : options) :
  get_any d $"current" = VObj (GetPoolAutomationConfig o) ->
  saved (recipes_event t now (FillCfg $"PoolSmsActivateApiKey" (VStr [])) (opened d s)).1 o = (o', true) ->
  option_of $"PoolSmsActivateApiKey" o' = [].
Proof using shuffled.
  intros Hd E. unfold saved, opened in E.
  cbn [recipes_answer fst config_answered recipes_event set_autoCfg autoCfgForm handleAutoCfgSubmit snd option_map] in E. rewrite Hd in E.
  match type of E with SetPoolAutomationConfig _ _ (config_payload (prop_set _ _ ?f)) _ = _ => set (form := f) in E end.
  assert (B : bound $"PoolSmsActivateApiKey" (config_payload (prop_set $"PoolSmsActivateApiKey" (VStr []) form)) = Some (Some []))
    by (unfold bound, config_payload; rewrite !unmask_lookup, prop_set_eq; reflexivity).
  destruct (updates (config_payload (prop_set $"PoolSmsActivateApiKey" (VStr []) form))) as [l|] eqn:U; [|unfold SetPoolAutomationConfig in E; by rewrite U in E].
  destruct (stored_option _ _ _ _ _ _ _ $"PoolSmsActivateApiKey" shuffled U E) as [_ H]. rewrite (H eq_refl).
  set (payload := config_payload _) in *. unfold updates in U. rewrite B in U.
  destruct (bound $"PoolEmailProvider" payload) as [x|], (bound $"PoolSmsProvider" payload) as [y|], (bound $"PoolFivesimApiKey" payload) as [z|]; try done. injection U as <-.
  assert (N : forall k v, k <> $"PoolSmsActivateApiKey" -> prop $"PoolSmsActivateApiKey" (update_of k false v) = None).
  { intros k v Nk. unfold update_of. destruct v; [|done]. cbn [andb prop]. by destruct (str_eqb_spec $"PoolSmsActivateApiKey" k). }
  rewrite !prop_app, !N by done. reflexivity.
Qed.

End Automation.

(** ** Dialogs and requests *)

Section Runs.
Variable t : jsstr -> jsstr.
Variable now : Z.
Variable mounted : bool.
#[local] Instance the_recipes : Hook page event request := recipes_hook t now.

(** Only recipes that are enabled are put into the queue. *)
Definition enabled_only (r : request) : Prop := match r with REnqueue record => truthy (fld $"enabled" record) = true | _ => True end.

Lemma enqueue_guard record s : Forall enabled_only (handleEnqueue t record s).2.
Proof. unfold handleEnqueue. destruct (truthy _) eqn:E; cbn; [by constructor|constructor]. Qed.

Lemma event_guard e s : Forall enabled_only (recipes_event t now e s).2.
Proof.
  destruct e as [| | | | | | | | | | | | |r| | | | | | |]; cbn [recipes_event]; try (by repeat constructor).
  - destruct (autoCfgForm s); by repeat constructor.
  - unfold handleEditSubmit. destruct (content (edit s)); by repeat constructor.
  - destruct (content (steps s)) as [r|]; [|constructor]. destruct (truthy _); [apply enqueue_guard|constructor].
  - apply enqueue_guard.
  - destruct (submitForm s); [|constructor]. unfold handleSubmitResult. destruct (content (submit s)); by repeat constructor.
Qed.

Lemma answer_guard r a s : Forall enabled_only (recipes_answer t r a s).2.
Proof. destruct r, a; cbn [recipes_answer]; try (by repeat constructor); destruct (is_nullish _); by repeat constructor. Qed.

(** However the page is used, a recipe that is not enabled is never put into the queue. *)
Theorem only_enabled_queued (s : sys page request) (record : object) :
  reach (Sys (init mounted) []) s -> REnqueue record ∈ pending s -> truthy (fld $"enabled" record) = true.
Proof.
  intros R H. assert (F : Forall enabled_only (pending s)); [|rewrite Forall_forall in F; exact (F _ H)]. clear H. revert s R. apply reach_invariant.
  - constructor.
  - intros e s F. rewrite fire_eq. apply Forall_app. split; [exact F|apply event_guard].
  - intros i r a s F _. rewrite reply_eq. apply Forall_app. split; [by apply Forall_delete|apply answer_guard].
Qed.

(** When the dialog of a result is opened for the first time and had no form before, nothing is
    filled in: the account that is recorded then asks for no channel, although the recipe has a
    type of channels; the dialog of the next job asks for one. *)
Theorem first_result_without_channel (s : page) (job recipe : object) (name key : val) :
  submitForm s = None -> prop (String_val (fld $"recipe_key" job)) (recipeMap (recipe_list (recipes s))) = Some recipe ->
  truthy (fld $"channel_type" recipe) = true ->
  let fill s := (recipes_event t now (FillResult $"key_raw" key) (recipes_event t now (FillResult $"account_name" name) s).1).1 in
  let posted s := (recipes_event t now SubmitResult (fill (openSubmit now job s))).2 in
  (exists p, posted s = [RResult (fld $"id" job) p] /\ fld $"create_channel" p = VUndef)
  /\ exists p, posted (openSubmit now job s) = [RResult (fld $"id" job) p] /\ fld $"create_channel" p = VBool true.
Proof.
  intros Hf Hr Ht. cbn zeta. split.
  - unfold openSubmit. rewrite Hf. cbn [recipes_event set_submit submitForm fst snd option_map handleSubmitResult content submit]. eexists. split; [reflexivity|]. reflexivity.
  - unfold openSubmit at 2. rewrite Hf. unfold openSubmit. cbn [set_submit submitForm recipes]. rewrite Hr. unfold result_values. rewrite Ht.
    cbn [recipes_event set_submit submitForm fst snd option_map handleSubmitResult content submit]. eexists. split; [reflexivity|]. reflexivity.
Qed.

End Runs.

(** ** Witnesses *)

Definition no_t (s : jsstr) : jsstr := s.
Definition sample_hook : Hook page event request := recipes_hook no_t 12345.
Definition sample_recipe : object := [($"key", VStr $"openai"); ($"enabled", VBool true); ($"provider", VStr $"openai"); ($"channel_type", int 1)].
Definition sample_job : object := [($"id", int 9); ($"recipe_key", VStr $"openai")].

Lemma only_enabled_queued_witness : truthy (fld $"enabled" sample_recipe) = true.
Proof.
  apply (only_enabled_queued no_t 12345 false (fire (hook := sample_hook) (Enqueue sample_recipe) (Sys (init false) []))).
  - eapply reach_next; [apply reach_start|]. apply user_acts.
  - vm_compute. apply list_elem_of_here.
Defined.

Definition sample_options : options :=
  [($"PoolSmsProvider", $"5sim"); ($"PoolSmsActivateApiKey", encode_text $"密钥abé"); ($"PoolFivesimApiKey", $"eyJhbGciOi")].
Definition sample_answer : val := VObj [($"current", VObj (GetPoolAutomationConfig sample_options))].

Lemma automation_roundtrip_witness :
  let '(o', ok) := saved no_t 12345 (fun l => l) (fun _ _ => false) (opened no_t sample_answer (init true)) sample_options in
  option_of $"PoolSmsActivateApiKey" o' = encode_text $"密钥abé" /\ option_of $"PoolFivesimApiKey" o' = $"eyJhbGciOi"
  /\ (ok = true -> option_of $"PoolEmailProvider" o' = $"mailtm").
Proof.
  destruct (automation_roundtrip no_t 12345 (fun l => l) (fun _ _ => false) (fun l => reflexivity l) (init true) sample_answer sample_options) as [_ H];
    [vm_compute; reflexivity|vm_compute; reflexivity|vm_compute; reflexivity|].
  destruct (saved no_t 12345 (fun l => l) (fun _ _ => false) (opened no_t sample_answer (init true)) sample_options) as [o' ok].
  cbn [init autoCfgForm] in H. destruct H as (H1 & _ & H3). split; [rewrite H1 by discriminate; reflexivity|].
  split; [rewrite H1 by discriminate; reflexivity|exact H3].
Defined.

Definition with_recipes : page := set_data (VArr [VObj sample_recipe]) (VArr []) (init false).

Lemma first_result_without_channel_witness :
  exists p, (recipes_event no_t 12345 SubmitResult
    (recipes_event no_t 12345 (FillResult $"key_raw" (VStr $"sk-1")) (recipes_event no_t 12345 (FillResult $"account_name" (VStr $"a"))
      (openSubmit 12345 sample_job with_recipes)).1).1).2 = [RResult (int 9) p] /\ fld $"create_channel" p = VUndef.
Proof.
  apply (first_result_without_channel no_t 12345 with_recipes sample_job sample_recipe (VStr $"a") (VStr $"sk-1")); vm_compute; reflexivity.
Defined.

End PoolRecipes.
