(* ===== verification/SystemSetting.v ===== *)
(** * The system settings

    [components/settings/SystemSetting.jsx]: the options of the server as the administrator edits
    and saves them, as an instance of [AsyncHook.Hook], and the part of [controller/option.go] that
    serves and stores options.  The objects [inputs] and [originInputs] are references into a heap:
    a load makes them the same object, and the discovery of an OIDC provider writes to [inputs] in
    place.  A save knows the inputs of the render that started it.  The values of the form are
    those the form library reports; the lists are arrays in every state, so that
    [Array.isArray] holds of them. *)
From Stdlib Require Import SpecFloat.
From S2P Require Import Prelude JSNum JSValue Json Regex FormValues ClientHelpers AsyncHook.
#[local] Open Scope Z_scope.
#[local] Arguments js _ : simpl never.

Module SystemSetting.
Import FormValues ClientHelpers AsyncHook.

(** ** State *)

Definition opt : Type := jsstr * val.

(** What follows a save. *)
Inductive after := Nothing | SetLinuxDO (b : bool) | CloseConfirm.

(** The options of a save, the inputs of its render and what follows. *)
Record save := Save { all : list opt; render : nat; andThen : after }.

(** The requests of [Promise.all]: [None] while unanswered, then the message of a refusal or
    [None] for a success. *)
Record batch := Batch { of_save : save; results : list (option (option val)); settled : bool }.

Inductive output := Error (v : val) | Success (s : jsstr).

Record page := Page {
  heap : list object; inputs : nat; originInputs : nat; loading : bool; isLoaded : bool; form : option object; emailDomainWhitelist : list jsstr;
  showPasswordLoginConfirmModal : bool; linuxDOOAuthEnabled : bool; emailToAdd : jsstr; domainFilterMode : bool; ipFilterMode : bool;
  domainList : list val; ipList : list val; allowedPorts : list val; batches : list batch; outputs : list output
}.

Definition set_heap x s := Page x (inputs s) (originInputs s) (loading s) (isLoaded s) (form s) (emailDomainWhitelist s) (showPasswordLoginConfirmModal s) (linuxDOOAuthEnabled s) (emailToAdd s) (domainFilterMode s) (ipFilterMode s) (domainList s) (ipList s) (allowedPorts s) (batches s) (outputs s).
Definition set_inputs x s := Page (heap s) x (originInputs s) (loading s) (isLoaded s) (form s) (emailDomainWhitelist s) (showPasswordLoginConfirmModal s) (linuxDOOAuthEnabled s) (emailToAdd s) (domainFilterMode s) (ipFilterMode s) (domainList s) (ipList s) (allowedPorts s) (batches s) (outputs s).
Definition set_origin x s := Page (heap s) (inputs s) x (loading s) (isLoaded s) (form s) (emailDomainWhitelist s) (showPasswordLoginConfirmModal s) (linuxDOOAuthEnabled s) (emailToAdd s) (domainFilterMode s) (ipFilterMode s) (domainList s) (ipList s) (allowedPorts s) (batches s) (outputs s).
Definition setLoading x s := Page (heap s) (inputs s) (originInputs s) x (isLoaded s) (form s) (emailDomainWhitelist s) (showPasswordLoginConfirmModal s) (linuxDOOAuthEnabled s) (emailToAdd s) (domainFilterMode s) (ipFilterMode s) (domainList s) (ipList s) (allowedPorts s) (batches s) (outputs s).
Definition setIsLoaded x s := Page (heap s) (inputs s) (originInputs s) (loading s) x (form s) (emailDomainWhitelist s) (showPasswordLoginConfirmModal s) (linuxDOOAuthEnabled s) (emailToAdd s) (domainFilterMode s) (ipFilterMode s) (domainList s) (ipList s) (allowedPorts s) (batches s) (outputs s).
Definition set_form x s := Page (heap s) (inputs s) (originInputs s) (loading s) (isLoaded s) x (emailDomainWhitelist s) (showPasswordLoginConfirmModal s) (linuxDOOAuthEnabled s) (emailToAdd s) (domainFilterMode s) (ipFilterMode s) (domainList s) (ipList s) (allowedPorts s) (batches s) (outputs s).
Definition setEmailDomainWhitelist x s := Page (heap s) (inputs s) (originInputs s) (loading s) (isLoaded s) (form s) x (showPasswordLoginConfirmModal s) (linuxDOOAuthEnabled s) (emailToAdd s) (domainFilterMode s) (ipFilterMode s) (domainList s) (ipList s) (allowedPorts s) (batches s) (outputs s).
Definition setShowConfirm x s := Page (heap s) (inputs s) (originInputs s) (loading s) (isLoaded s) (form s) (emailDomainWhitelist s) x (linuxDOOAuthEnabled s) (emailToAdd s) (domainFilterMode s) (ipFilterMode s) (domainList s) (ipList s) (allowedPorts s) (batches s) (outputs s).
Definition setLinuxDOOAuthEnabled x s := Page (heap s) (inputs s) (originInputs s) (loading s) (isLoaded s) (form s) (emailDomainWhitelist s) (showPasswordLoginConfirmModal s) x (emailToAdd s) (domainFilterMode s) (ipFilterMode s) (domainList s) (ipList s) (allowedPorts s) (batches s) (outputs s).
Definition setEmailToAdd x s := Page (heap s) (inputs s) (originInputs s) (loading s) (isLoaded s) (form s) (emailDomainWhitelist s) (showPasswordLoginConfirmModal s) (linuxDOOAuthEnabled s) x (domainFilterMode s) (ipFilterMode s) (domainList s) (ipList s) (allowedPorts s) (batches s) (outputs s).
Definition setDomainFilterMode x s := Page (heap s) (inputs s) (originInputs s) (loading s) (isLoaded s) (form s) (emailDomainWhitelist s) (showPasswordLoginConfirmModal s) (linuxDOOAuthEnabled s) (emailToAdd s) x (ipFilterMode s) (domainList s) (ipList s) (allowedPorts s) (batches s) (outputs s).
Definition setIpFilterMode x s := Page (heap s) (inputs s) (originInputs s) (loading s) (isLoaded s) (form s) (emailDomainWhitelist s) (showPasswordLoginConfirmModal s) (linuxDOOAuthEnabled s) (emailToAdd s) (domainFilterMode s) x (domainList s) (ipList s) (allowedPorts s) (batches s) (outputs s).
Definition setDomainList x s := Page (heap s) (inputs s) (originInputs s) (loading s) (isLoaded s) (form s) (emailDomainWhitelist s) (showPasswordLoginConfirmModal s) (linuxDOOAuthEnabled s) (emailToAdd s) (domainFilterMode s) (ipFilterMode s) x (ipList s) (allowedPorts s) (batches s) (outputs s).
Definition setIpList x s := Page (heap s) (inputs s) (originInputs s) (loading s) (isLoaded s) (form s) (emailDomainWhitelist s) (showPasswordLoginConfirmModal s) (linuxDOOAuthEnabled s) (emailToAdd s) (domainFilterMode s) (ipFilterMode s) (domainList s) x (allowedPorts s) (batches s) (outputs s).
Definition setAllowedPorts x s := Page (heap s) (inputs s) (originInputs s) (loading s) (isLoaded s) (form s) (emailDomainWhitelist s) (showPasswordLoginConfirmModal s) (linuxDOOAuthEnabled s) (emailToAdd s) (domainFilterMode s) (ipFilterMode s) (domainList s) (ipList s) x (batches s) (outputs s).
Definition set_batches x s := Page (heap s) (inputs s) (originInputs s) (loading s) (isLoaded s) (form s) (emailDomainWhitelist s) (showPasswordLoginConfirmModal s) (linuxDOOAuthEnabled s) (emailToAdd s) (domainFilterMode s) (ipFilterMode s) (domainList s) (ipList s) (allowedPorts s) x (outputs s).
Definition out x s := Page (heap s) (inputs s) (originInputs s) (loading s) (isLoaded s) (form s) (emailDomainWhitelist s) (showPasswordLoginConfirmModal s) (linuxDOOAuthEnabled s) (emailToAdd s) (domainFilterMode s) (ipFilterMode s) (domainList s) (ipList s) (allowedPorts s) (batches s) (outputs s ++ [x]).

Definition obj (s : page) (r : nat) : object := default [] (heap s !! r).
(** [setInputs] of a new object. *)
Definition setInputs (o : object) (s : page) : page := set_inputs (length (heap s)) (set_heap (heap s ++ [o]) s).

Definition initial_inputs : object :=
  let blank := map (fun k => (k, VStr [])) in
  blank [$"PasswordLoginEnabled"; $"PasswordRegisterEnabled"; $"EmailVerificationEnabled"; $"GitHubOAuthEnabled"; $"GitHubClientId";
         $"GitHubClientSecret"; $"discord.enabled"; $"discord.client_id"; $"discord.client_secret"; $"oidc.enabled"; $"oidc.client_id";
         $"oidc.client_secret"; $"oidc.well_known"; $"oidc.authorization_endpoint"; $"oidc.token_endpoint"; $"oidc.user_info_endpoint"; $"Notice";
         $"SMTPServer"; $"SMTPPort"; $"SMTPAccount"; $"SMTPFrom"; $"SMTPToken"; $"WorkerUrl"; $"WorkerValidKey";
         $"WorkerAllowHttpImageRequestEnabled"; $"Footer"; $"WeChatAuthEnabled"; $"WeChatServerAddress"; $"WeChatServerToken";
         $"WeChatAccountQRCodeImageURL"; $"TurnstileCheckEnabled"; $"TurnstileSiteKey"; $"TurnstileSecretKey"; $"RegisterEnabled";
         $"passkey.enabled"; $"passkey.rp_display_name"; $"passkey.rp_id"]
  ++ [($"passkey.origins", VArr []); ($"passkey.allow_insecure_origin", VStr []); ($"passkey.user_verification", VStr $"preferred")]
  ++ blank [$"passkey.attachment_preference"; $"EmailDomainRestrictionEnabled"; $"EmailAliasRestrictionEnabled"; $"SMTPSSLEnabled"; $"SMTPForceAuthLogin"]
  ++ [($"EmailDomainWhitelist", VArr [])]
  ++ blank [$"TelegramOAuthEnabled"; $"TelegramBotToken"; $"TelegramBotName"; $"LinuxDOOAuthEnabled"; $"LinuxDOClientId"; $"LinuxDOClientSecret";
            $"LinuxDOMinimumTrustLevel"; $"ServerAddress"]
  ++ [($"fetch_setting.enable_ssrf_protection", VBool true); ($"fetch_setting.allow_private_ip", VStr []); ($"fetch_setting.domain_filter_mode", VBool false);
      ($"fetch_setting.ip_filter_mode", VBool false); ($"fetch_setting.domain_list", VArr []); ($"fetch_setting.ip_list", VArr []);
      ($"fetch_setting.allowed_ports", VArr []); ($"fetch_setting.apply_ip_filter_for_domain", VBool true)].

Definition init : page := Page [initial_inputs; []] 0 1 false false None [] false false [] true true [] [] [] [] [].

(** ** Requests *)

Inductive request :=
| ROptions
| RCheckbox (o : opt) (rest others : list opt) (sv : save)
| ROther (b : nat) (i : nat) (o : opt)
| ROidc (render_inputs render_origin : nat).

(** The option a request stores: the body of the PUT. *)
Definition put_body (r : request) : option opt :=
  match r with
  | RCheckbox o _ _ _ => Some (o.1, VStr (String_val o.2))
  | ROther _ _ o => Some (o.1, match o.2 with VBool b => VStr (String_val (VBool b)) | v => v end)
  | ROptions | ROidc _ _ => None
  end.

Section Handlers.
Variable t : jsstr -> jsstr.

(** *** Loading *)

Definition boolean_keys : list jsstr :=
  [$"fetch_setting.allow_private_ip"; $"fetch_setting.enable_ssrf_protection"; $"fetch_setting.domain_filter_mode"; $"fetch_setting.ip_filter_mode";
   $"fetch_setting.apply_ip_filter_for_domain"; $"PasswordLoginEnabled"; $"PasswordRegisterEnabled"; $"EmailVerificationEnabled"; $"GitHubOAuthEnabled";
   $"WeChatAuthEnabled"; $"TelegramOAuthEnabled"; $"RegisterEnabled"; $"TurnstileCheckEnabled"; $"EmailDomainRestrictionEnabled";
   $"EmailAliasRestrictionEnabled"; $"SMTPSSLEnabled"; $"SMTPForceAuthLogin"; $"LinuxDOOAuthEnabled"; $"discord.enabled"; $"oidc.enabled";
   $"passkey.enabled"; $"passkey.allow_insecure_origin"; $"WorkerAllowHttpImageRequestEnabled"].
Definition text_keys : list jsstr := [$"passkey.origins"; $"passkey.rp_display_name"; $"passkey.rp_id"; $"passkey.attachment_preference"].

(** The value of an option as the page keeps it. *)
Definition read_value (k : jsstr) (v : val) : outcome val :=
  if k =s? $"TopupGroupRatio" then bind_outcome (parse_val v) (fun x => Ret (VStr (json2 x)))
  else if memk k boolean_keys then Ret (VBool (toBoolean v))
  else if memk k text_keys then Ret (or_else v (VStr []))
  else if k =s? $"passkey.user_verification" then Ret (or_else v (VStr $"preferred"))
  else if (k =s? $"Price") || (k =s? $"MinTopUp") then Ret (VNum (parseFloat (String_val v)))
  else Ret v.

(** [v ? JSON.parse(v) : []], an array or [fallback] when it does not parse. *)
Definition parsed_list (v : val) (fallback : list val) : list val :=
  if truthy v then match parse (String_val v) with Some (VArr l) => l | Some _ => [] | None => fallback end else [].

(** What an option sets beside its field. *)
Definition read_aside (k : jsstr) (v : val) (s : page) : outcome page :=
  if k =s? $"EmailDomainWhitelist" then
    if truthy v then bind_outcome (as_string v) (fun x => Ret (setEmailDomainWhitelist (split_char 44 x) s)) else Ret (setEmailDomainWhitelist [] s)
  else if k =s? $"fetch_setting.domain_list" then Ret (setDomainList (parsed_list v []) s)
  else if k =s? $"fetch_setting.ip_list" then Ret (setIpList (parsed_list v []) s)
  else if k =s? $"fetch_setting.allowed_ports" then Ret (setAllowedPorts (parsed_list v (map VStr [$"80"; $"443"; $"8080"; $"8443"])) s)
  else Ret s.

(** The cases of the switch are for strings. *)
Definition on_text {A} (k : val) (f : jsstr -> A) (d : A) : A := match k with VStr x => f x | _ => d end.

(** [data.forEach]: the state and the new inputs, or [None] when an item throws. *)
Fixpoint read_items (l : list val) (newInputs : object) (s : page) : page * option object :=
  match l with
  | [] => (s, Some newInputs)
  | item :: l =>
    match bind_outcome (get_or_throw item $"key") (fun k => bind_outcome (get_or_throw item $"value") (fun v => Ret (k, v))) with
    | Throw => (s, None)
    | Ret (k, v) =>
      match on_text k (fun k => read_aside k v s) (Ret s) with
      | Throw => (s, None)
      | Ret s => match on_text k (fun k => read_value k v) (Ret v) with Throw => (s, None) | Ret v => read_items l (prop_set (String_val k) v newInputs) s end
      end
    end
  end.

Definition sync_modes (o : object) (s : page) : page :=
  let s := match fld $"fetch_setting.domain_filter_mode" o with VUndef => s | v => setDomainFilterMode (truthy v) s end in
  match fld $"fetch_setting.ip_filter_mode" o with VUndef => s | v => setIpFilterMode (truthy v) s end.

(** The same new object becomes the inputs and their origin. *)
Definition options_answered (a : answer) (s : page) : page :=
  match a with
  | Served (VArr l) =>
    match read_items l [] s with
    | (s, None) => s
    | (s, Some o) =>
      let r := length (heap s) in
      let s := sync_modes o (set_origin r (set_inputs r (set_heap (heap s ++ [o]) s))) in
      let s := match form s with Some _ => set_form (Some o) s | None => s end in
      setLoading false (setIsLoaded true s)
    end
  | Served _ => s
  | Refused m => setLoading false (out (Error m) s)
  | Failed _ => s
  end.

Definition getOptions (s : page) : page * list request := (setLoading true s, [ROptions]).

(** *** Saving *)

Definition is_checkbox (o : opt) : bool := endsWith $"enabled" (toLowerCase o.1).

Definition run_after (k : after) (s : page) : page :=
  match k with Nothing => s | SetLinuxDO b => setLinuxDOOAuthEnabled b s | CloseConfirm => setShowConfirm false s end.

Definition save_failed (sv : save) (s : page) : page := run_after (andThen sv) (setLoading false (out (Error (VStr (t $"更新失败"))) s)).

(** All requests were answered; those that were refused are reported. *)
Definition save_done (sv : save) (refusals : list val) (s : page) : page :=
  let s := out (Success (t $"更新成功")) (fold_left (fun s m => out (Error m) s) refusals s) in
  let s := setInputs (set_all (all sv) (obj s (render sv))) s in
  run_after (andThen sv) (setLoading false s).

Definition send_others (others : list opt) (sv : save) (s : page) : page * list request :=
  match others with
  | [] => (save_done sv [] s, [])
  | _ => (set_batches (batches s ++ [Batch sv (map (fun _ => None) others) false]) s, imap (fun i o => ROther (length (batches s)) i o) others)
  end.

Definition send_checkboxes (boxes others : list opt) (sv : save) (s : page) : page * list request :=
  match boxes with
  | [] => send_others others sv s
  | o :: rest => if is_nullish o.2 then (save_failed sv s, []) else (s, [RCheckbox o rest others sv])
  end.

Definition update_from (r : nat) (k : after) (options : list opt) (s : page) : page * list request :=
  send_checkboxes (List.filter is_checkbox options) (List.filter (fun o => negb (is_checkbox o)) options) (Save options r k) (setLoading true s).
Definition updateOptions (options : list opt) (s : page) : page * list request := update_from (inputs s) Nothing options s.
(** [if (options.length > 0) await updateOptions(options)] *)
Definition update_some (r : nat) (options : list opt) (s : page) : page * list request :=
  match options with [] => (s, []) | _ => update_from r Nothing options s end.

Definition checkbox_answered (rest others : list opt) (sv : save) (a : answer) (s : page) : page * list request :=
  match a with
  | Served _ => send_checkboxes rest others sv s
  | Refused m => (run_after (andThen sv) (out (Error m) s), [])
  | Failed _ => (save_failed sv s, [])
  end.

Definition all_answered (l : list (option (option val))) : option (list val) :=
  if forallb (fun x => match x with Some _ => true | None => false end) l
  then Some (omap (fun x => match x with Some (Some m) => Some m | _ => None end) l) else None.

Definition other_answered (b i : nat) (a : answer) (s : page) : page :=
  match batches s !! b with
  | None => s
  | Some bt =>
    if settled bt then s else
    match a with
    | Failed _ => save_failed (of_save bt) (set_batches (<[b := Batch (of_save bt) (results bt) true]> (batches s)) s)
    | _ =>
      let l := <[i := Some (match a with Refused m => Some m | _ => None end)]> (results bt) in
      match all_answered l with
      | Some refusals => save_done (of_save bt) refusals (set_batches (<[b := Batch (of_save bt) l true]> (batches s)) s)
      | None => set_batches (<[b := Batch (of_save bt) l false]> (batches s)) s
      end
    end
  end.

(** *** The groups of options *)

Definition removeTrailingSlash (url : val) : outcome jsstr :=
  if truthy url then bind_outcome (as_string url) (fun s => Ret (if endsWith $"/" s then removelast s else s)) else Ret [].

(** An option that differs from its origin; for secrets, that is not empty either. *)
Definition changed (k : jsstr) (o i : object) : list opt := if same_value (fld k o) (fld k i) then [] else [(k, fld k i)].
Definition changed_nonempty (k : jsstr) (o i : object) : list opt :=
  if negb (same_value (fld k o) (fld k i)) && negb (eq_str (fld k i) []) then [(k, fld k i)] else [].

Definition worker_options (i : object) : outcome (list opt) :=
  bind_outcome (removeTrailingSlash (fld $"WorkerUrl" i)) (fun url =>
  Ret ([($"WorkerUrl", VStr url);
        ($"WorkerAllowHttpImageRequestEnabled", VStr (if truthy (fld $"WorkerAllowHttpImageRequestEnabled" i) then $"true" else $"false"))]
       ++ (if negb (eq_str (fld $"WorkerValidKey" i) []) || negb (nonempty url) then [($"WorkerValidKey", fld $"WorkerValidKey" i)] else []))).

Definition smtp_options (o i : object) : list opt :=
  changed $"SMTPServer" o i ++ changed $"SMTPAccount" o i ++ changed $"SMTPFrom" o i ++ changed_nonempty $"SMTPPort" o i ++ changed_nonempty $"SMTPToken" o i.

Definition wechat_options (o i : object) : outcome (list opt) :=
  bind_outcome
    (if same_value (fld $"WeChatServerAddress" o) (fld $"WeChatServerAddress" i) then Ret []
     else bind_outcome (removeTrailingSlash (fld $"WeChatServerAddress" i)) (fun u => Ret [($"WeChatServerAddress", VStr u)]))
    (fun l => Ret (l ++ changed $"WeChatAccountQRCodeImageURL" o i ++ changed_nonempty $"WeChatServerToken" o i)).

Definition github_options (o i : object) : list opt := changed $"GitHubClientId" o i ++ changed_nonempty $"GitHubClientSecret" o i.
Definition discord_options (o i : object) : list opt := changed $"discord.client_id" o i ++ changed_nonempty $"discord.client_secret" o i.
Definition oidc_options (o i : object) : list opt :=
  changed $"oidc.well_known" o i ++ changed $"oidc.client_id" o i ++ changed_nonempty $"oidc.client_secret" o i
  ++ changed $"oidc.authorization_endpoint" o i ++ changed $"oidc.token_endpoint" o i ++ changed $"oidc.user_info_endpoint" o i.
Definition telegram_options (i : object) : list opt := [($"TelegramBotToken", fld $"TelegramBotToken" i); ($"TelegramBotName", fld $"TelegramBotName" i)].
Definition turnstile_options (o i : object) : list opt := changed $"TurnstileSiteKey" o i ++ changed_nonempty $"TurnstileSecretKey" o i.
Definition linuxdo_options (o i : object) : list opt :=
  changed $"LinuxDOClientId" o i ++ changed_nonempty $"LinuxDOClientSecret" o i ++ changed $"LinuxDOMinimumTrustLevel" o i.
Definition passkey_options (f i : object) : list opt :=
  let pick k d := (k, or_else (fld k f) (or_else (fld k i) (VStr d))) in
  [pick $"passkey.rp_display_name" []; pick $"passkey.rp_id" []; pick $"passkey.user_verification" $"preferred";
   pick $"passkey.attachment_preference" []; pick $"passkey.origins" []].
Definition ssrf_options (s : page) : list opt :=
  [($"fetch_setting.domain_filter_mode", VBool (domainFilterMode s)); ($"fetch_setting.domain_list", VStr (json (VArr (domainList s))));
   ($"fetch_setting.ip_filter_mode", VBool (ipFilterMode s)); ($"fetch_setting.ip_list", VStr (json (VArr (ipList s))));
   ($"fetch_setting.allowed_ports", VStr (json (VArr (allowedPorts s))))].

(** A handler that throws before it saves does nothing. *)
Definition saved_from (options : outcome (list opt)) (s : page) (f : list opt -> page -> page * list request) : page * list request :=
  match options with Ret l => f l s | Throw => (s, []) end.

Definition this (s : page) : object := obj s (inputs s).
Definition orig (s : page) : object := obj s (originInputs s).

Definition submitWorker (s : page) : page * list request := saved_from (worker_options (this s)) s updateOptions.
Definition submitServerAddress (s : page) : page * list request :=
  saved_from (bind_outcome (removeTrailingSlash (fld $"ServerAddress" (this s))) (fun u => Ret [($"ServerAddress", VStr u)])) s updateOptions.
Definition submitSMTP (s : page) : page * list request := update_some (inputs s) (smtp_options (orig s) (this s)) s.
Definition submitEmailDomainWhitelist (s : page) : page * list request :=
  updateOptions [($"EmailDomainWhitelist", VStr (join $"," (emailDomainWhitelist s)))] s.
Definition submitSSRF (s : page) : page * list request := update_some (inputs s) (ssrf_options s) s.
Definition submitWeChat (s : page) : page * list request := saved_from (wechat_options (orig s) (this s)) s (update_some (inputs s)).
Definition submitGitHubOAuth (s : page) : page * list request := update_some (inputs s) (github_options (orig s) (this s)) s.
Definition submitDiscordOAuth (s : page) : page * list request := update_some (inputs s) (discord_options (orig s) (this s)) s.
Definition submitTelegramSettings (s : page) : page * list request := updateOptions (telegram_options (this s)) s.
Definition submitTurnstile (s : page) : page * list request := update_some (inputs s) (turnstile_options (orig s) (this s)) s.
Definition submitLinuxDOOAuth (s : page) : page * list request := update_some (inputs s) (linuxdo_options (orig s) (this s)) s.
Definition submitPasskeySettings (s : page) : page * list request := updateOptions (passkey_options (default [] (form s)) (this s)) s.

(** The discovery of a provider writes its endpoints to the inputs of the render. *)
Definition oidc_save (i o : nat) (s : page) : page * list request := update_some i (oidc_options (obj s o) (obj s i)) s.

Definition submitOIDCSettings (s : page) : page * list request :=
  let url := fld $"oidc.well_known" (this s) in
  if truthy url then
    match url with
    | VStr u =>
      if startsWith $"http://" u || startsWith $"https://" u then (s, [ROidc (inputs s) (originInputs s)])
      else (out (Error (VStr (t $"Well-Known URL 必须以 http:// 或 https:// 开头"))) s, [])
    | _ => (s, [])
    end
  else oidc_save (inputs s) (originInputs s) s.

Definition endpoints (doc : val) : object :=
  [($"oidc.authorization_endpoint", get_any doc $"authorization_endpoint"); ($"oidc.token_endpoint", get_any doc $"token_endpoint");
   ($"oidc.user_info_endpoint", get_any doc $"userinfo_endpoint")].

Definition oidc_answered (i o : nat) (a : answer) (s : page) : page * list request :=
  let failed := (out (Error (VStr (t $"获取 OIDC 配置失败，请检查网络状况和 Well-Known URL 是否正确"))) s, []) in
  match a with
  | Served doc =>
    if is_nullish doc then failed
    else oidc_save i o (out (Success (t $"获取 OIDC 配置成功！")) (set_heap (alter (set_all (endpoints doc)) i (heap s)) s))
  | _ => failed
  end.

(** *** Domains *)

Definition letter (c : Z) : bool := ((97 <=? c) && (c <=? 122)) || ((65 <=? c) && (c <=? 90)).
Definition alnum (c : Z) : bool := letter c || is_digit c.
Fixpoint up_to (n : nat) (r : re) : re := match n with O => Eps | S n => Opt (Seq r (up_to n r)) end.
Definition domainRegex : re :=
  Seq (Plus (Seq (Seq (Chr alnum) (Opt (Seq (up_to 61 (Chr (fun c => alnum c || (c =? 45)))) (Chr alnum)))) (Ch 46)))
      (Seq (Seq (Chr letter) (Chr letter)) (Star (Chr letter))).

Definition handleAddEmail (s : page) : page :=
  let domain := trim (emailToAdd s) in
  if nonempty domain then
    if negb (test domainRegex domain) then out (Error (VStr (t $"邮箱域名格式不正确，请输入有效的域名，如 gmail.com"))) s
    else if memk domain (emailDomainWhitelist s) then out (Error (VStr (t $"该域名已存在于白名单中"))) s
    else out (Success (t $"已添加到白名单")) (setEmailToAdd [] (setEmailDomainWhitelist (emailDomainWhitelist s ++ [domain]) s))
  else s.

(** *** Checkboxes *)

(** The boxes of the page that save when they are ticked, in the order of the page. *)
Definition checkbox_keys : list jsstr :=
  [$"fetch_setting.enable_ssrf_protection"; $"fetch_setting.allow_private_ip"; $"fetch_setting.apply_ip_filter_for_domain"; $"PasswordLoginEnabled";
   $"PasswordRegisterEnabled"; $"EmailVerificationEnabled"; $"RegisterEnabled"; $"TurnstileCheckEnabled"; $"GitHubOAuthEnabled"; $"discord.enabled";
   $"LinuxDOOAuthEnabled"; $"WeChatAuthEnabled"; $"TelegramOAuthEnabled"; $"oidc.enabled"; $"passkey.enabled"; $"passkey.allow_insecure_origin";
   $"EmailDomainRestrictionEnabled"; $"EmailAliasRestrictionEnabled"; $"SMTPSSLEnabled"; $"SMTPForceAuthLogin"].

Definition handleCheckboxChange (optionKey : jsstr) (value : bool) (s : page) : page * list request :=
  if (optionKey =s? $"PasswordLoginEnabled") && negb value then (setShowConfirm true s, [])
  else update_from (inputs s) (if optionKey =s? $"LinuxDOOAuthEnabled" then SetLinuxDO value else Nothing) [(optionKey, VBool value)] s.

Definition handlePasswordLoginConfirm (s : page) : page * list request :=
  update_from (inputs s) CloseConfirm [($"PasswordLoginEnabled", VBool false)] s.
Definition cancelPasswordLogin (s : page) : page :=
  let s := setShowConfirm false s in
  match form s with Some f => set_form (Some (prop_set $"PasswordLoginEnabled" (VBool true) f)) s | None => s end.

(** The lists and modes beside the form: [setInputs((prev) => ({...prev, [key]: value}))]. *)
Definition setInput (k : jsstr) (v : val) (s : page) : page := setInputs (prop_set k v (this s)) s.
Definition pickDomainMode (b : bool) (s : page) : page := setInput $"fetch_setting.domain_filter_mode" (VBool b) (setDomainFilterMode b s).
Definition pickIpMode (b : bool) (s : page) : page := setInput $"fetch_setting.ip_filter_mode" (VBool b) (setIpFilterMode b s).
Definition editDomains (l : list jsstr) (s : page) : page := setInput $"fetch_setting.domain_list" (strs l) (setDomainList (map VStr l) s).
Definition editIps (l : list jsstr) (s : page) : page := setInput $"fetch_setting.ip_list" (strs l) (setIpList (map VStr l) s).
Definition editPorts (l : list jsstr) (s : page) : page := setInput $"fetch_setting.allowed_ports" (strs l) (setAllowedPorts (map VStr l) s).

(** *** Events and answers *)

Inductive group := Worker | ServerAddress | SMTP | Whitelist | SSRF | WeChat | GitHub | Discord | OIDC | Telegram | Turnstile | LinuxDO | PasskeyGroup.

Definition submit (g : group) : page -> page * list request :=
  match g with
  | Worker => submitWorker | ServerAddress => submitServerAddress | SMTP => submitSMTP | Whitelist => submitEmailDomainWhitelist | SSRF => submitSSRF
  | WeChat => submitWeChat | GitHub => submitGitHubOAuth | Discord => submitDiscordOAuth | OIDC => submitOIDCSettings | Telegram => submitTelegramSettings
  | Turnstile => submitTurnstile | LinuxDO => submitLinuxDOOAuth | PasskeyGroup => submitPasskeySettings
  end.

Inductive event :=
| Mount | FormReady (values : object) | Change (values : object) | Submit (g : group) | Tick (box : nat) (checked : bool) | ConfirmLogin | CancelLogin
| TypeDomain (s : jsstr) | AddEmail | EditWhitelist (l : list jsstr) | DomainMode (b : bool) | IpMode (b : bool)
| EditDomains (l : list jsstr) | EditIps (l : list jsstr) | EditPorts (l : list jsstr).

Definition settings_event (e : event) (s : page) : page * list request :=
  match e with
  | Mount => getOptions s
  | FormReady f => (set_form (Some f) s, [])
  | Change f => (setInputs f (set_form (Some f) s), [])
  | Submit g => submit g s
  | Tick b v => match checkbox_keys !! b with Some k => handleCheckboxChange k v s | None => (s, []) end
  | ConfirmLogin => handlePasswordLoginConfirm s
  | CancelLogin => (cancelPasswordLogin s, [])
  | TypeDomain x => (setEmailToAdd x s, [])
  | AddEmail => (handleAddEmail s, [])
  | EditWhitelist l => (setEmailDomainWhitelist l s, [])
  | DomainMode b => (pickDomainMode b s, [])
  | IpMode b => (pickIpMode b s, [])
  | EditDomains l => (editDomains l s, [])
  | EditIps l => (editIps l s, [])
  | EditPorts l => (editPorts l s, [])
  end.

Definition settings_answer (r : request) (a : answer) (s : page) : page * list request :=
  match r with
  | ROptions => (options_answered a s, [])
  | RCheckbox _ rest others sv => checkbox_answered rest others sv a s
  | ROther b i _ => (other_answered b i a s, [])
  | ROidc i o => oidc_answered i o a s
  end.

#[global] Instance settings_hook : Hook page event request := {| on_event := settings_event; on_answer := settings_answer |}.

End Handlers.
End SystemSetting.
