(* ===== verification/SystemSettingProofs.v ===== *)
(** * The system settings: the server's side and the theorems

    [controller/option.go] never serves secrets and stores the text it is sent unless one of its
    checks refuses it.  Against that server the page overwrites seven of its secrets only with a
    value that was typed; two others it overwrites whenever their group is saved.  The groups that
    send what changed, saved right after a load, store what the form shows but for what the server
    refuses; later changes back to the loaded value are not sent. *)
From Stdlib Require Import SpecFloat.
From S2P Require Import Prelude JSNum JSValue Json Regex FormValues ClientHelpers AsyncHook SystemSetting.
#[local] Open Scope Z_scope.
#[local] Arguments js _ : simpl never.

Module SystemSettingProofs.
Import FormValues ClientHelpers AsyncHook SystemSetting.

(** ** The server *)

Definition server : Type := list (jsstr * jsstr).

Definition isVisiblePublicKeyOption (key : jsstr) : bool := memk key [$"WaffoPancakeWebhookPublicKey"; $"WaffoPancakeWebhookTestKey"].
Definition isSensitiveKey (k : jsstr) : bool :=
  endsWith $"Token" k || endsWith $"Secret" k || endsWith $"Key" k || endsWith $"secret" k || endsWith $"api_key" k.
Definition visible (k : jsstr) : bool := negb (isSensitiveKey k && negb (isVisiblePublicKeyOption k)).

Definition item (k v : jsstr) : val := VObj [($"key", VStr k); ($"value", VStr v)].

(** The options that are served, in any order; [meta] is computed from the ratios. *)
Definition GetOptions (srv : server) (meta : jsstr) (l : list val) : Prop :=
  l ≡ₚ map (fun kv => item kv.1 kv.2) (List.filter (fun kv => visible kv.1) srv) ++ [item $"CompletionRatioMeta" meta].

Section Server.
(** [fmt.Sprintf("%v", v)] of numbers, arrays and objects, and the checks of the values of options. *)
Variable sprint : val -> jsstr.
Variable refuse : server -> jsstr -> jsstr -> option val.

(** The text of a value of the request; a missing value is [nil]. *)
Definition value_text (v : val) : jsstr :=
  match v with VStr s => s | VBool true => $"true" | VBool false => $"false" | VUndef | VNull => $"<nil>" | _ => sprint v end.

Definition UpdateOption (o : opt) (srv : server) : server * answer :=
  match refuse srv o.1 (value_text o.2) with
  | Some m => (srv, Refused m)
  | None => (prop_set o.1 (value_text o.2) srv, Served VUndef)
  end.

(** Requests that arrive one after the other. *)
Definition store (l : list opt) (srv : server) : server := fold_left (fun m o => (UpdateOption o m).1) l srv.

(** ** The page with its server *)

Record world := World { page_of : sys page request; srv : server }.

Variable t : jsstr -> jsstr.
#[local] Instance hook : Hook page event request := settings_hook t.

Inductive wstep : world -> world -> Prop :=
| w_event e w : wstep w (World (fire e (page_of w)) (srv w))
| w_load i meta l w : pending (page_of w) !! i = Some ROptions -> GetOptions (srv w) meta l ->
    wstep w (World (reply i ROptions (Served (VArr l)) (page_of w)) (srv w))
| w_unread i r e w : pending (page_of w) !! i = Some r -> wstep w (World (reply i r (Failed e) (page_of w)) (srv w))
| w_put i r o w : pending (page_of w) !! i = Some r -> put_body r = Some o ->
    wstep w (World (reply i r (UpdateOption o (srv w)).2 (page_of w)) (UpdateOption o (srv w)).1)
| w_lost i r o e w : pending (page_of w) !! i = Some r -> put_body r = Some o ->
    wstep w (World (reply i r (Failed e) (page_of w)) (UpdateOption o (srv w)).1)
| w_provider i r o doc w : pending (page_of w) !! i = Some (ROidc r o) -> wstep w (World (reply i (ROidc r o) (Served doc) (page_of w)) (srv w)).

Inductive wreach (srv0 : server) : world -> Prop :=
| w_start : wreach srv0 (World (Sys init []) srv0)
| w_next w w' : wreach srv0 w -> wstep w w' -> wreach srv0 w'.

(** ** Secrets *)

Definition kept_secrets : list jsstr :=
  [$"SMTPToken"; $"WeChatServerToken"; $"GitHubClientSecret"; $"discord.client_secret"; $"oidc.client_secret"; $"TurnstileSecretKey"; $"LinuxDOClientSecret"].

Definition typed (v : val) : Prop := v <> VUndef /\ v <> VStr [].
Definition good (o : opt) : Prop := o.1 ∈ kept_secrets -> typed o.2.
Definition other_key (o : opt) : Prop := o.1 ∉ kept_secrets.

(** An object of the heap without secrets. *)
Definition clean (h : list object) (r : nat) : Prop := exists o, h !! r = Some o /\ forall k, k ∈ kept_secrets -> prop k o = None.
Definition fine (h : list object) (r : request) : Prop :=
  match r with
  | ROptions => True
  | RCheckbox o rest others _ => other_key o /\ Forall other_key rest /\ Forall good others
  | ROther _ _ o => good o
  | ROidc _ o => clean h o
  end.
(** Objects without secrets stay so. *)
Definition grows (h h' : list object) : Prop := forall r, clean h r -> clean h' r.
Definition tame (s : page) (x : page * list request) : Prop :=
  grows (heap s) (heap x.1) /\ originInputs x.1 = originInputs s /\ Forall (fine (heap x.1)) x.2.

Lemma grows_refl h : grows h h.
Proof. by intros r. Qed.
Lemma grows_trans h1 h2 h3 : grows h1 h2 -> grows h2 h3 -> grows h1 h3.
Proof. unfold grows. auto. Qed.
Lemma grows_app h l : grows h (h ++ l).
Proof. intros r (o & E & H). exists o. split; [by apply lookup_app_l_Some|done]. Qed.

Lemma fine_grows h h' r : grows h h' -> fine h r -> fine h' r.
Proof. intros G. destruct r; cbn; auto. Qed.

Lemma tame_same s s' : heap s' = heap s -> originInputs s' = originInputs s -> tame s (s', []).
Proof. intros E1 E2. unfold tame. cbn [fst snd]. rewrite E1. split; [apply grows_refl|by split]. Qed.
Lemma tame_from s s' x : grows (heap s) (heap s') -> originInputs s' = originInputs s -> tame s' x -> tame s x.
Proof. intros G E (A & B & C). split; [by eapply grows_trans|]. split; [congruence|done]. Qed.

Lemma checkbox_other o : is_checkbox o = true -> other_key o.
Proof.
  intros H Hk. assert (E : forallb (fun k => negb (is_checkbox (k, VUndef))) kept_secrets = true) by (vm_compute; reflexivity).
  rewrite forallb_forall in E. apply list_elem_of_In, E in Hk. unfold is_checkbox in *. cbn [fst] in Hk. by rewrite H in Hk.
Qed.

Lemma run_after_heap k s : heap (run_after k s) = heap s.
Proof. by destruct k. Qed.
Lemma run_after_origin k s : originInputs (run_after k s) = originInputs s.
Proof. by destruct k. Qed.
Lemma save_failed_tame sv s : tame s (save_failed t sv s, []).
Proof. apply tame_same; unfold save_failed; [by rewrite run_after_heap|by rewrite run_after_origin]. Qed.

Lemma outs_same l s : heap (fold_left (fun s m => out (Error m) s) l s) = heap s /\ originInputs (fold_left (fun s m => out (Error m) s) l s) = originInputs s.
Proof. revert s. induction l as [|m l IH]; intros s; [done|]. cbn. by destruct (IH (out (Error m) s)) as [-> ->]. Qed.

Lemma save_done_tame sv l s : tame s (save_done t sv l s, []).
Proof.
  unfold save_done. destruct (outs_same l s) as [E1 E2]. split; [|split; [|done]]; cbn [fst snd].
  - rewrite run_after_heap. cbn. rewrite E1. apply grows_app.
  - rewrite run_after_origin. exact E2.
Qed.

Lemma others_tame others sv s : Forall good others -> tame s (send_others t others sv s).
Proof.
  intros H. destruct others as [|o l]; [apply save_done_tame|]. split; [apply grows_refl|]. split; [done|]. cbn [send_others snd].
  apply Forall_lookup. intros i r E. apply list_lookup_imap_Some in E as (x & E & ->). cbn. rewrite Forall_lookup in H. by eapply H.
Qed.

Lemma boxes_tame boxes others sv s : Forall other_key boxes -> Forall good others -> tame s (send_checkboxes t boxes others sv s).
Proof.
  intros H1 H2. destruct boxes as [|o l]; [by apply others_tame|]. cbn [send_checkboxes]. destruct (is_nullish o.2); [apply save_failed_tame|].
  split; [apply grows_refl|]. split; [done|]. apply Forall_cons in H1 as [? ?]. cbn [snd]. by rewrite Forall_singleton.
Qed.

Lemma Forall_filter_sub {A} (P : A -> Prop) (f : A -> bool) l : Forall P l -> Forall P (List.filter f l).
Proof. intros H. apply Forall_forall. intros x Hx. apply list_elem_of_In, filter_In in Hx as [Hx _]. rewrite Forall_forall in H. by apply H, list_elem_of_In. Qed.

Lemma update_tame r k l s : Forall good l -> tame s (update_from t r k l s).
Proof.
  intros H. unfold update_from. eapply (tame_from s (setLoading true s)); [apply grows_refl|done|]. apply boxes_tame; [|by apply Forall_filter_sub].
  apply Forall_forall. intros x Hx. apply list_elem_of_In, filter_In in Hx as [_ Hx]. by apply checkbox_other.
Qed.
Lemma update_some_tame r l s : Forall good l -> tame s (update_some t r l s).
Proof. intros H. destruct l; [by apply tame_same|by apply update_tame]. Qed.

(** *** The options of the groups *)

Lemma good_other k v : memk k kept_secrets = false -> good (k, v).
Proof. intros H Hk. by apply memk_false in H. Qed.
Lemma good_changed k o i : memk k kept_secrets = false -> Forall good (changed k o i).
Proof. intros H. unfold changed. destruct (same_value _ _); [apply Forall_nil_2|]. rewrite Forall_singleton. by apply good_other. Qed.
Lemma good_nonempty k o i : (k ∈ kept_secrets -> prop k o = None) -> Forall good (changed_nonempty k o i).
Proof.
  intros H. unfold changed_nonempty. destruct (negb _ && negb _) eqn:E; [|apply Forall_nil_2]. rewrite Forall_singleton. apply andb_true_iff in E as [E1 E2]. intros Hk. cbn [fst snd] in *.
  unfold fld in E1 at 1. rewrite (H Hk) in E1. cbn [default] in E1. split; intros E; rewrite E in *; discriminate.
Qed.


(** Solves [Forall good] of a list of options that is known by its keys. *)
Ltac goods :=
  repeat first [apply Forall_app_2 | apply good_changed; reflexivity | apply good_nonempty; auto | apply Forall_nil_2
               | apply Forall_cons; split; [apply good_other; reflexivity|] ].

Lemma worker_good i l : worker_options i = Ret l -> Forall good l.
Proof.
  unfold worker_options. destruct (removeTrailingSlash _) as [u|]; cbn [bind_outcome]; [|discriminate]. intros H%Ret_inj. subst l.
  goods. destruct (_ || _); goods.
Qed.

Lemma wechat_good o i l : (forall k, k ∈ kept_secrets -> prop k o = None) -> wechat_options o i = Ret l -> Forall good l.
Proof.
  intros C. unfold wechat_options. destruct (same_value _ _); cbn [bind_outcome].
  - intros H%Ret_inj. subst l. goods.
  - destruct (removeTrailingSlash _) as [u|]; cbn [bind_outcome]; [|discriminate]. intros H%Ret_inj. subst l. goods.
Qed.

Lemma oidc_tame i o s : clean (heap s) o -> tame s (oidc_save t i o s).
Proof.
  intros (x & E & C). apply update_some_tame. unfold oidc_options, obj at 1 3 5 7 9 11. rewrite E. cbn [default]. goods.
Qed.

Lemma submit_tame g s : clean (heap s) (originInputs s) -> tame s (submit t g s).
Proof.
  intros Cl. pose proof Cl as (x & E & C).
  assert (O : orig s = x) by (unfold orig, obj; by rewrite E).
  destruct g; cbn [submit].
  - unfold submitWorker, saved_from. destruct (worker_options _) eqn:W; [|by apply tame_same]. by eapply update_tame, worker_good.
  - unfold submitServerAddress. destruct (removeTrailingSlash _); cbn; [|by apply tame_same]. apply update_tame. goods.
  - apply update_some_tame. rewrite O. unfold smtp_options. goods.
  - apply update_tame. goods.
  - apply update_some_tame. unfold ssrf_options. goods.
  - unfold submitWeChat, saved_from. rewrite O. destruct (wechat_options _ _) eqn:W; [|by apply tame_same]. by eapply update_some_tame, wechat_good.
  - apply update_some_tame. rewrite O. unfold github_options. goods.
  - apply update_some_tame. rewrite O. unfold discord_options. goods.
  - unfold submitOIDCSettings. destruct (truthy _); [|by apply oidc_tame]. destruct (fld _ _); try by apply tame_same.
    destruct (_ || _); [|by apply tame_same]. split; [apply grows_refl|]. split; [done|]. cbn [snd]. by rewrite Forall_singleton.
  - apply update_tame. unfold telegram_options. goods.
  - apply update_some_tame. rewrite O. unfold turnstile_options. goods.
  - apply update_some_tame. rewrite O. unfold linuxdo_options. goods.
  - apply update_tame. unfold passkey_options. goods.
Qed.

(** *** Events and answers *)

Lemma tame_inputs o s s' : heap s' = heap s -> originInputs s' = originInputs s -> tame s (setInputs o s', []).
Proof. intros E1 E2. unfold tame. cbn. rewrite E1. split; [apply grows_app|by split]. Qed.

Lemma event_tame e s : clean (heap s) (originInputs s) -> tame s (settings_event t e s).
Proof.
  intros C. destruct e as [|f|f|g|b v| | |x| |l|b|b|l|l|l]; cbn [settings_event]; try (by apply tame_same); try (by apply tame_inputs).
  - split; [apply grows_refl|]. split; [done|]. cbn. by rewrite Forall_singleton.
  - by apply submit_tame.
  - destruct (checkbox_keys !! b) as [k|] eqn:E; [|by apply tame_same]. unfold handleCheckboxChange. destruct (_ && _); [by apply tame_same|].
    apply update_tame. rewrite Forall_singleton. apply good_other.
    assert (F : forallb (fun k => negb (memk k kept_secrets)) checkbox_keys = true) by (vm_compute; reflexivity).
    rewrite forallb_forall in F. apply list_elem_of_lookup_2, list_elem_of_In, F in E. by apply negb_true_iff.
  - apply update_tame. goods.
  - unfold cancelPasswordLogin. destruct (form (setShowConfirm false s)); by apply tame_same.
  - apply tame_same; unfold handleAddEmail; destruct (nonempty _); try done; destruct (test _ _); try done; by destruct (memk _ _).
Qed.

Lemma endpoints_clean doc h r i : clean h r -> clean (alter (set_all (endpoints doc)) i h) r.
Proof.
  intros (o & E & C). destruct (decide (r = i)) as [->|N].
  - exists (set_all (endpoints doc) o). split; [rewrite list_lookup_alter_eq, E; reflexivity|]. intros k Hk. rewrite set_all_other; [by apply C|].
    change (keys (endpoints doc)) with [$"oidc.authorization_endpoint"; $"oidc.token_endpoint"; $"oidc.user_info_endpoint"]. apply memk_false.
    assert (F : forallb (fun k => negb (memk k [$"oidc.authorization_endpoint"; $"oidc.token_endpoint"; $"oidc.user_info_endpoint"])) kept_secrets = true)
      by (vm_compute; reflexivity).
    rewrite forallb_forall in F. apply list_elem_of_In, F in Hk. by apply negb_true_iff.
  - exists o. split; [by rewrite list_lookup_alter_ne|done].
Qed.

(** The answers, except those that load the options. *)
Lemma answer_tame r a s : fine (heap s) r -> r <> ROptions -> tame s (settings_answer t r a s).
Proof.
  intros F N. destruct r as [|o rest others sv|b i o|i o]; cbn [settings_answer]; [done| | |].
  - destruct F as (_ & F1 & F2). destruct a as [d|m|e]; cbn [checkbox_answered]; [by apply boxes_tame| |apply save_failed_tame].
    apply tame_same; [by rewrite run_after_heap|by rewrite run_after_origin].
  - unfold other_answered. destruct (batches s !! b) as [bt|]; [|by apply tame_same]. destruct (settled bt); [by apply tame_same|].
    assert (D : forall l (s' : page), heap s' = heap s -> originInputs s' = originInputs s -> tame s (save_done t (of_save bt) l s', [])).
    { intros l s' E1 E2. eapply tame_from; [|exact E2|apply save_done_tame]. rewrite E1. apply grows_refl. }
    destruct a as [d|m|e]; cbn zeta.
    + destruct (all_answered _); [by apply D|by apply tame_same].
    + destruct (all_answered _); [by apply D|by apply tame_same].
    + eapply tame_from; [| |apply save_failed_tame]; [apply grows_refl|done].
  - unfold oidc_answered. destruct a as [d|m|e]; try by apply tame_same. destruct (is_nullish d); [by apply tame_same|].
    eapply tame_from; [| |apply oidc_tame]; [|done|].
    + intros r. cbn. apply endpoints_clean.
    + cbn. by apply endpoints_clean.
Qed.

(** *** The load *)

Lemma aside_same k v s s' : read_aside k v s = Ret s' -> heap s' = heap s /\ originInputs s' = originInputs s.
Proof.
  unfold read_aside.
  destruct (k =s? $"EmailDomainWhitelist").
  { destruct (truthy v); [|intros H%Ret_inj; by subst s']. destruct (as_string v) as [x|]; cbn [bind_outcome]; [|discriminate]. intros H%Ret_inj; by subst s'. }
  destruct (k =s? $"fetch_setting.domain_list"); [intros H%Ret_inj; by subst s'|].
  destruct (k =s? $"fetch_setting.ip_list"); [intros H%Ret_inj; by subst s'|].
  destruct (k =s? $"fetch_setting.allowed_ports"); intros H%Ret_inj; by subst s'.
Qed.

Lemma text_aside k v s s' : on_text k (fun k => read_aside k v s) (Ret s) = Ret s' -> heap s' = heap s /\ originInputs s' = originInputs s.
Proof. destruct k; cbn [on_text]; try (intros H%Ret_inj; by subst s'). apply aside_same. Qed.

(** The new inputs have the keys of the items. *)
Lemma read_items_spec l o s s' x :
  read_items l o s = (s', x) ->
  heap s' = heap s /\ originInputs s' = originInputs s
  /\ (forall o', x = Some o' -> forall k, k ∈ keys o' -> k ∈ keys o \/ exists it, it ∈ l /\ String_val (get_any it $"key") = k).
Proof.
  revert o s. induction l as [|it l IH]; intros o s; cbn [read_items].
  - intros [= <- <-]. split; [done|]. split; [done|]. intros o' [= <-] k. by left.
  - destruct (get_or_throw it $"key") as [k|] eqn:Ek; cbn [bind_outcome]; [|intros [= <- <-]; by split_and!].
    destruct (get_or_throw it $"value") as [v|] eqn:Ev; cbn [bind_outcome]; [|intros [= <- <-]; by split_and!].
    destruct (on_text k (fun k => read_aside k v s) (Ret s)) as [s1|] eqn:A; [|intros [= <- <-]; by split_and!].
    apply text_aside in A as [A1 A2].
    destruct (on_text k _ (Ret v)) as [v'|]; [|intros [= <- <-]; by split_and!].
    intros H. apply IH in H as (B1 & B2 & B3). split; [congruence|]. split; [congruence|]. intros o' -> k' Hk'.
    destruct (B3 o' eq_refl k' Hk') as [Hk|(it' & I1 & I2)].
    + apply elem_of_prop_set in Hk as [->|Hk]; [|by left]. right.
      assert (Eg : get_any it $"key" = k). { unfold get_or_throw in Ek. destruct (is_nullish it); [discriminate|]. by apply Ret_inj in Ek. }
      exists it. rewrite Eg. split; [apply list_elem_of_here|done].
    + right. exists it'. split; [by apply list_elem_of_further|done].
Qed.
(** No secret is served. *)
Lemma served_visible srv0 meta l it : GetOptions srv0 meta l -> it ∈ l -> String_val (get_any it $"key") ∉ kept_secrets.
Proof.
  intros G I Hk. rewrite G in I.
  assert (V : visible (String_val (get_any it $"key")) = false).
  { assert (F : forallb (fun k => negb (visible k)) kept_secrets = true) by (vm_compute; reflexivity). rewrite forallb_forall in F.
    apply list_elem_of_In, F in Hk. by apply negb_true_iff in Hk. }
  apply elem_of_app in I as [I|I].
  - apply list_elem_of_In, in_map_iff in I as ([k v] & <- & I). apply filter_In in I as [_ I]. cbn [fst snd] in *.
    change (String_val (get_any (item k v) $"key")) with k in V. congruence.
  - apply list_elem_of_singleton in I as ->. revert V. vm_compute. discriminate.
Qed.

Lemma sync_modes_same o s : heap (sync_modes o s) = heap s /\ originInputs (sync_modes o s) = originInputs s.
Proof.
  unfold sync_modes. destruct (fld $"fetch_setting.domain_filter_mode" o); destruct (fld $"fetch_setting.ip_filter_mode" o); by split.
Qed.

Lemma load_clean srv0 meta l s :
  GetOptions srv0 meta l -> clean (heap s) (originInputs s) ->
  let s' := options_answered (Served (VArr l)) s in grows (heap s) (heap s') /\ clean (heap s') (originInputs s').
Proof.
  intros G C. cbn [options_answered]. destruct (read_items l [] s) as [s1 [o|]] eqn:R; apply read_items_spec in R as (E1 & E2 & K).
  - cbn zeta. destruct (sync_modes_same o (set_origin (length (heap s1)) (set_inputs (length (heap s1)) (set_heap (heap s1 ++ [o]) s1)))) as [M1 M2].
    set (s2 := sync_modes _ _) in *.
    assert (F : heap (match form s2 with Some _ => set_form (Some o) s2 | None => s2 end) = heap s1 ++ [o]
                /\ originInputs (match form s2 with Some _ => set_form (Some o) s2 | None => s2 end) = length (heap s1)) by (by destruct (form s2)).
    destruct F as [F1 F2]. cbn [setLoading setIsLoaded heap originInputs]. rewrite F1, F2, E1. split; [apply grows_app|].
    exists o. split; [by apply list_lookup_middle|]. intros k Hk. apply prop_None. intros I.
    destruct (K o eq_refl k I) as [I'|(it & I1 & I2)]; [by apply elem_of_nil in I'|]. by apply (served_visible _ _ _ _ G I1); rewrite I2.
  - cbn zeta. rewrite E1, E2. split; [apply grows_refl|exact C].
Qed.

Definition secrets_ok (w : world) : Prop :=
  clean (heap (state (page_of w))) (originInputs (state (page_of w))) /\ Forall (fine (heap (state (page_of w)))) (pending (page_of w)).

Lemma fine_all h h' l : grows h h' -> Forall (fine h) l -> Forall (fine h') l.
Proof. intros G F. eapply Forall_impl; [exact F|]. intros r. by apply fine_grows. Qed.

Lemma tame_ok s l x : clean (heap s) (originInputs s) -> Forall (fine (heap s)) l -> tame s x ->
  clean (heap x.1) (originInputs x.1) /\ Forall (fine (heap x.1)) (l ++ x.2).
Proof. intros C F (G & E & F'). rewrite E. split; [by apply G|]. apply Forall_app_2; [by eapply fine_all|done]. Qed.

Lemma ok_reply i r a (p : sys page request) sv :
  clean (heap (state p)) (originInputs (state p)) -> Forall (fine (heap (state p))) (pending p) -> pending p !! i = Some r ->
  (r = ROptions -> tame (state p) (settings_answer t r a (state p))) -> secrets_ok (World (reply i r a p) sv).
Proof.
  intros C F E H. unfold secrets_ok. rewrite reply_eq. cbn [page_of state pending on_answer settings_hook hook].
  apply (tame_ok (state p)); [done|by apply Forall_delete|]. rewrite Forall_lookup in F. specialize (F i r E).
  destruct r; [by apply H|..]; by apply answer_tame.
Qed.

Lemma secrets_ok_step w w' : secrets_ok w -> wstep w w' -> secrets_ok w'.
Proof.
  intros [C F] St. destruct St as [e w|i meta l w E G|i r e w E|i r o w E B|i r o e w E B|i r o doc w E].
  - unfold secrets_ok. rewrite fire_eq. cbn [page_of state pending on_event settings_hook hook]. apply (tame_ok (state (page_of w))); [done..|by apply event_tame].
  - unfold secrets_ok. rewrite reply_eq. cbn [page_of state pending on_answer settings_hook hook settings_answer fst snd].
    destruct (load_clean _ _ _ _ G C) as [Gr Cl]. split; [exact Cl|]. rewrite app_nil_r. apply Forall_delete. by eapply fine_all.
  - apply ok_reply; try done. intros ->. by apply tame_same.
  - apply ok_reply; try done. intros ->. discriminate.
  - apply ok_reply; try done. intros ->. discriminate.
  - apply ok_reply; try done.
Qed.

Lemma secrets_ok_reach srv0 w : wreach srv0 w -> secrets_ok w.
Proof.
  induction 1 as [|w w' _ IH St]; [|by eapply secrets_ok_step]. split; [|done]. exists []. by split.
Qed.

(** C38: whatever the administrator edits and saves, in whatever order the requests are answered, refused
    or lost, the page asks the server to overwrite the secrets of mail, WeChat, GitHub, Discord,
    OIDC, Turnstile and LinuxDO only with a value that is neither missing nor empty: the blank
    fields, which the server never fills, leave the secrets alone. *)
Theorem secrets_kept (srv0 : server) (w : world) (r : request) (k : jsstr) (v : val) :
  wreach srv0 w -> r ∈ pending (page_of w) -> put_body r = Some (k, v) -> k ∈ kept_secrets -> v <> VUndef /\ v <> VStr [].
Proof.
  intros R I B Hk. apply secrets_ok_reach in R as [_ F]. rewrite Forall_forall in F. specialize (F r I).
  destruct r as [|o rest others sv|b i o|i o]; cbn [put_body] in B; try discriminate B.
  - injection B as <- <-. by destruct F.
  - injection B as <- <-. destruct (F Hk) as [N1 N2]. destruct o.2 as [| |[]| | | |]; split; try done; try congruence; vm_compute; discriminate.
Qed.

(** ** What a save stores *)

(** The fields of the groups that send what changed: those that are sent when they changed, and
    those that must not be empty either. *)
Definition fields (g : group) : list (jsstr * bool) :=
  match g with
  | SMTP => [($"SMTPServer", false); ($"SMTPAccount", false); ($"SMTPFrom", false); ($"SMTPPort", true); ($"SMTPToken", true)]
  | GitHub => [($"GitHubClientId", false); ($"GitHubClientSecret", true)]
  | Discord => [($"discord.client_id", false); ($"discord.client_secret", true)]
  | Turnstile => [($"TurnstileSiteKey", false); ($"TurnstileSecretKey", true)]
  | LinuxDO => [($"LinuxDOClientId", false); ($"LinuxDOClientSecret", true); ($"LinuxDOMinimumTrustLevel", false)]
  | _ => []
  end.

Definition field_options (o i : object) (f : jsstr * bool) : list opt := if f.2 then changed_nonempty f.1 o i else changed f.1 o i.
Definition diff (fs : list (jsstr * bool)) (o i : object) : list opt := flat_map (field_options o i) fs.

Lemma submit_diff g s : fields g <> [] -> submit t g s = update_some t (inputs s) (diff (fields g) (orig s) (this s)) s.
Proof.
  destruct g; intros H; try done; cbn [submit fields diff flat_map field_options fst snd]; rewrite app_nil_r; reflexivity.
Qed.

Lemma field_keys o i f x : x ∈ field_options o i f -> x = (f.1, fld f.1 i).
Proof.
  unfold field_options, changed, changed_nonempty. destruct f.2; [destruct (_ && _)|destruct (same_value _ _)]; intros H;
    first [by apply elem_of_nil in H|by apply list_elem_of_singleton in H].
Qed.

Lemma diff_elem fs o i k v : (k, v) ∈ diff fs o i -> exists f, f ∈ fs /\ f.1 = k /\ (k, v) ∈ field_options o i f.
Proof.
  unfold diff. intros H%list_elem_of_In%in_flat_map. destruct H as (f & F & H). apply list_elem_of_In in F, H. exists f. split; [done|].
  pose proof (field_keys _ _ _ _ H) as [= -> ->]. by split.
Qed.

Lemma diff_NoDup fs o i : NoDup (map fst fs) -> NoDup (map fst (diff fs o i)).
Proof.
  induction fs as [|f fs IH]; intros N; [by constructor|]. cbn in N. apply NoDup_cons in N as [N1 N2]. cbn [diff flat_map]. rewrite map_app. apply NoDup_app.
  split; [|split; [|by apply IH]].
  - unfold field_options, changed, changed_nonempty. destruct f.2; [destruct (_ && _)|destruct (same_value _ _)]; cbn; by repeat (constructor; try set_solver).
  - intros k Hk Hk'. apply list_elem_of_In, in_map_iff in Hk as (x & <- & Hk), Hk' as ([k v] & E & Hk'). apply list_elem_of_In in Hk, Hk'.
    apply field_keys in Hk as ->. cbn in E. subst k. apply diff_elem in Hk' as (f' & F & E & _). apply N1. rewrite <- E. by apply list_elem_of_In, in_map, list_elem_of_In.
Qed.

(** Storing options with different keys. *)
Lemma update_option_other o m k : k <> o.1 -> prop k (UpdateOption o m).1 = prop k m.
Proof. intros N. unfold UpdateOption. destruct (refuse _ _ _); [done|]. by apply prop_set_ne. Qed.

Lemma store_other l m k : k ∉ map fst l -> prop k (store l m) = prop k m.
Proof.
  revert m. induction l as [|x l IH]; intros m H; [done|]. cbn in H. apply not_elem_of_cons in H as [H1 H2].
  cbn [store fold_left]. fold (store l (UpdateOption x m).1). rewrite IH by done. by apply update_option_other.
Qed.

(** The request for an option arrived and was refused: the option stays as it was. *)
Definition refused (l : list opt) (m : server) (k y : jsstr) : Prop :=
  exists l1 v l2, l = l1 ++ (k, v) :: l2 /\ value_text v = y /\ is_Some (refuse (store l1 m) k y) /\ prop k (store l m) = prop k m.

Lemma store_in l m k v : NoDup (map fst l) -> (k, v) ∈ l -> prop k (store l m) = Some (value_text v) \/ refused l m k (value_text v).
Proof.
  intros N H. apply list_elem_of_split in H as (l1 & l2 & ->). rewrite map_app in N. cbn in N. apply NoDup_app in N as (_ & N1 & N2).
  apply NoDup_cons in N2 as [N2 _]. assert (K1 : k ∉ map fst l1) by (intros I; apply (N1 k I); apply list_elem_of_here).
  assert (E : store (l1 ++ (k, v) :: l2) m = store l2 (UpdateOption (k, v) (store l1 m)).1) by (unfold store; by rewrite fold_left_app).
  assert (P : prop k (store (l1 ++ (k, v) :: l2) m) = prop k (UpdateOption (k, v) (store l1 m)).1) by (rewrite E; by apply store_other).
  unfold UpdateOption in P. cbn [fst snd] in P. destruct (refuse (store l1 m) k (value_text v)) as [e|] eqn:R; cbn [fst] in P.
  - right. exists l1, v, l2. split; [done|]. split; [done|]. split; [by rewrite R|]. rewrite P. by apply store_other.
  - left. rewrite P. apply prop_set_eq.
Qed.

(** The requests of a save without checkboxes are its options. *)
Definition sent_value (v : val) : val := match v with VBool b => VStr (String_val (VBool b)) | v => v end.
Definition sent (l : list opt) : list opt := map (fun o => (o.1, sent_value o.2)) l.

Lemma omap_imap (f : nat -> opt -> request) (l : list opt) :
  (forall n x, put_body (f n x) = Some (x.1, sent_value x.2)) -> omap put_body (imap f l) = sent l.
Proof. revert f. induction l as [|x l IH]; intros f H; [done|]. cbn. rewrite H. f_equal. apply IH. intros n y. apply H. Qed.

Lemma sent_keys l : map fst (sent l) = map fst l.
Proof. unfold sent. by rewrite map_map. Qed.

Lemma no_boxes l : Forall (fun o => is_checkbox o = false) l -> List.filter is_checkbox l = [] /\ List.filter (fun o => negb (is_checkbox o)) l = l.
Proof. induction 1 as [|y l E _ [IH1 IH2]]; [done|]. cbn. by rewrite E, IH1, IH2. Qed.

Lemma update_sends r l s : Forall (fun o => is_checkbox o = false) l -> omap put_body (update_some t r l s).2 = sent l.
Proof.
  intros H. destruct (no_boxes l H) as [E1 E2]. destruct l as [|x l]; [done|]. unfold update_some, update_from. rewrite E1, E2.
  cbn [send_checkboxes send_others snd]. apply omap_imap. intros n [k v]. by destruct v.
Qed.

Lemma fields_plain g : forallb (fun f => negb (is_checkbox (f.1, VUndef))) (fields g) = true /\ NoDup (map fst (fields g)).
Proof. split; [destruct g; vm_compute; reflexivity|]. destruct g; apply (bool_decide_unpack _); vm_compute; exact I. Qed.

Lemma diff_plain g o i : Forall (fun x => is_checkbox x = false) (diff (fields g) o i).
Proof.
  apply Forall_forall. intros [k v] H. apply diff_elem in H as (f & F & <- & _). destruct (fields_plain g) as [E _]. rewrite forallb_forall in E.
  apply list_elem_of_In, E in F. apply negb_true_iff in F. exact F.
Qed.

(** A field is sent or left alone. *)
Lemma diff_field fs o i f : NoDup (map fst fs) -> f ∈ fs ->
  (f.1, fld f.1 i) ∈ diff fs o i /\ field_options o i f <> [] \/ f.1 ∉ map fst (diff fs o i) /\ field_options o i f = [].
Proof.
  intros N F. destruct (field_options o i f) as [|x r] eqn:E.
  - right. split; [|done]. intros I. apply list_elem_of_In, in_map_iff in I as ([k v] & Ek & I). cbn in Ek. subst k. apply list_elem_of_In, diff_elem in I as (f' & F' & Ef & I).
    assert (f' = f) as ->; [|by rewrite E in I; apply elem_of_nil in I]. clear E I. induction fs as [|y fs IH]; [by apply elem_of_nil in F|].
    cbn in N. apply NoDup_cons in N as [N1 N2]. apply elem_of_cons in F as [->|F], F' as [->|F']; [done| | |by apply IH]; exfalso; apply N1.
    + rewrite <- Ef. by apply list_elem_of_In, in_map, list_elem_of_In.
    + rewrite Ef. by apply list_elem_of_In, in_map, list_elem_of_In.
  - left. split; [|done]. assert (X : x = (f.1, fld f.1 i)) by (apply (field_keys o i f); rewrite E; apply list_elem_of_here). subst x.
    apply list_elem_of_In, in_flat_map. exists f. split; [by apply list_elem_of_In|]. rewrite E. by left.
Qed.

Lemma sent_in l k v : (k, v) ∈ l -> (k, sent_value v) ∈ sent l.
Proof. intros H. apply list_elem_of_In. unfold sent. apply in_map_iff. exists (k, v). split; [done|by apply list_elem_of_In]. Qed.

Lemma stored_field g s m f l : fields g <> [] -> l ≡ₚ omap put_body (submit t g s).2 -> f ∈ fields g ->
  match field_options (orig s) (this s) f with
  | [] => prop f.1 (store l m) = prop f.1 m
  | _ => prop f.1 (store l m) = Some (value_text (sent_value (fld f.1 (this s)))) \/ refused l m f.1 (value_text (sent_value (fld f.1 (this s))))
  end.
Proof.
  intros G P F. destruct (fields_plain g) as [_ N]. rewrite submit_diff, update_sends in P by (done || apply diff_plain).
  assert (N' : NoDup (map fst l)) by (rewrite P, sent_keys; by apply diff_NoDup).
  destruct (diff_field (fields g) (orig s) (this s) f N F) as [[I E]|[I E]].
  - destruct (field_options _ _ f); [done|]. apply store_in; [done|]. rewrite P. by apply sent_in.
  - rewrite E. apply store_other. by rewrite P, sent_keys.
Qed.

(** C39: saving the mail, GitHub, Discord, Turnstile or LinuxDO settings, the groups that
    send what changed, when the page agrees with the server, as after a load: in whatever
    order the requests arrive, every option of the group becomes what the form shows, or the
    server refuses it and it stays as it was; the secrets and the mail port change only when
    they were typed; no other option changes. The groups that send every field are outside,
    see [bot_token_lost] and [worker_key_lost]. *)
Theorem fresh_save_exact (g : group) (s : page) (m : server) (l : list opt) :
  g ∈ [SMTP; GitHub; Discord; Turnstile; LinuxDO] -> l ≡ₚ omap put_body (submit t g s).2 ->
  (forall k, (k, false) ∈ fields g -> exists x, fld k (orig s) = VStr x /\ prop k m = Some x) ->
  (forall k y, (k, false) ∈ fields g -> fld k (this s) = VStr y -> prop k (store l m) = Some y \/ refused l m k y)
  /\ (forall k y, (k, true) ∈ fields g -> fld k (this s) = VStr y ->
        if same_value (fld k (orig s)) (VStr y) || negb (nonempty y) then prop k (store l m) = prop k m
        else prop k (store l m) = Some y \/ refused l m k y)
  /\ (forall k, k ∉ map fst (fields g) -> prop k (store l m) = prop k m).
Proof.
  intros G P A. assert (G' : fields g <> []) by (intros E; apply list_elem_of_In in G; cbn in G; by destruct G as [<-|[<-|[<-|[<-|[<-|[]]]]]]). split; [|split].
  - intros k y F Y. destruct (A k F) as (x & X & M). pose proof (stored_field g s m (k, false) l G' P F) as E. cbn [fst] in E.
    unfold field_options, changed in E. cbn [fst snd] in E. rewrite X, Y in E. cbn [same_value] in E. destruct (str_eqb_spec x y) as [->|]; [left; by rewrite E|exact E].
  - intros k y F Y. pose proof (stored_field g s m (k, true) l G' P F) as E. cbn [fst] in E. unfold field_options, changed_nonempty in E. cbn [fst snd] in E.
    rewrite Y in E. destruct (same_value _ _); [exact E|]. by destruct y.
  - intros k N. apply store_other. rewrite P, submit_diff, update_sends, sent_keys by (done || apply diff_plain). intros I.
    apply list_elem_of_In, in_map_iff in I as ([k' v] & <- & I). apply list_elem_of_In, diff_elem in I as (f & F & Ef & _). apply N. cbn. rewrite <- Ef.
    by apply list_elem_of_In, in_map, list_elem_of_In.
Qed.

(** ** What a save does to the page *)

Lemma obj_same s s' r : heap s' = heap s -> obj s' r = obj s r.
Proof. intros E. unfold obj. by rewrite E. Qed.
Lemma obj_new s o r : (r < length (heap s))%nat -> obj (setInputs o s) r = obj s r.
Proof. intros H. unfold obj. cbn. by rewrite lookup_app_l. Qed.
Lemma this_new o s : this (setInputs o s) = o.
Proof. unfold this, obj. cbn. by rewrite list_lookup_middle. Qed.

(** After a save the inputs are those of the render that saved, with the options it sent. *)
Lemma save_done_this sv l s : this (save_done t sv l s) = set_all (all sv) (obj s (render sv)).
Proof.
  unfold save_done. set (s1 := out _ _). assert (E : obj s1 (render sv) = obj s (render sv)) by (apply obj_same; apply outs_same).
  set (s2 := setInputs _ s1). assert (E2 : this (run_after (andThen sv) (setLoading false s2)) = this s2) by (by destruct (andThen sv)).
  rewrite E2. unfold s2. by rewrite this_new, E.
Qed.

(** A save of one option: the request, and the page when it was served. *)
Lemma one_option_sent r o s : is_checkbox o = false ->
  update_some t r [o] s = (set_batches (batches s ++ [Batch (Save [o] r Nothing) [None] false]) (setLoading true s), [ROther (length (batches s)) 0 o]).
Proof. intros H. unfold update_some, update_from. cbn [List.filter]. by rewrite H. Qed.

Lemma one_option_served b sv o d s : batches s !! b = Some (Batch sv [None] false) ->
  settings_answer t (ROther b 0 o) (Served d) s
  = (save_done t sv [] (set_batches (<[b := Batch sv [Some None] true]> (batches s)) s), []).
Proof. intros H. cbn [settings_answer]. unfold other_answered. by rewrite H. Qed.

(** A refused option is reported, and reported as saved: the page shows the value the server
    refused. *)
Theorem refused_shown_saved (b : nat) (sv : save) (m : val) (s : page) :
  batches s !! b = Some (Batch sv [None] false) ->
  let s' := other_answered t b 0 (Refused m) s in
  outputs s' = outputs s ++ [Error m; Success (t $"更新成功")] /\ this s' = set_all (all sv) (obj s (render sv)).
Proof.
  intros H. unfold other_answered. rewrite H. cbn [settled]. cbn zeta. change (all_answered _) with (Some [m]). cbn iota. split.
  - unfold save_done. cbn. destruct (andThen sv); cbn; by rewrite <- app_assoc.
  - rewrite save_done_this. by apply f_equal, obj_same.
Qed.

(** A change that was saved cannot be taken back without a reload: going back to the loaded value
    sends nothing, since a save does not change what the page compares with, and the server keeps
    the change. *)
Theorem revert_not_saved (s : page) (x y : jsstr) (f f' : object) (d : val) :
  (originInputs s < length (heap s))%nat -> fld $"GitHubClientId" (orig s) = VStr x -> fld $"GitHubClientSecret" (orig s) = VUndef -> y <> x ->
  fld $"GitHubClientId" f = VStr y -> fld $"GitHubClientSecret" f = VUndef -> fld $"GitHubClientId" f' = VStr x -> fld $"GitHubClientSecret" f' = VUndef ->
  exists s2 r, settings_event t (Submit GitHub) (settings_event t (Change f) s).1 = (s2, [r]) /\ put_body r = Some ($"GitHubClientId", VStr y)
  /\ let s4 := (settings_event t (Change f') (settings_answer t r (Served d) s2).1).1 in settings_event t (Submit GitHub) s4 = (s4, []).
Proof.
  intros Hb Ox Os N Fy Fs Fx Fs'. cbn [settings_event fst submit]. unfold submitGitHubOAuth.
  set (s1 := setInputs f (set_form (Some f) s)).
  assert (O1 : orig s1 = orig s) by (unfold orig, s1; by rewrite obj_new).
  rewrite O1. unfold s1 at 2. rewrite this_new. unfold github_options, changed, changed_nonempty. rewrite Ox, Os, Fy, Fs. cbn [same_value].
  destruct (str_eqb_spec x y) as [->|_]; [done|]. cbn [negb andb app]. rewrite one_option_sent by reflexivity.
  eexists _, _. split; [reflexivity|]. split; [reflexivity|]. cbn zeta.
  rewrite (one_option_served _ (Save [($"GitHubClientId", VStr y)] (inputs s1) Nothing)) by (by apply list_lookup_middle). cbn [fst].
  set (sv := Save _ _ _). set (l := []). match goal with |- context [save_done t sv l ?z] => set (s' := z) end.
  assert (H1 : heap s' = heap s1) by done. assert (H2 : originInputs s' = originInputs s) by done. clearbody sv l s'.
  assert (O3 : originInputs (save_done t sv l s') = originInputs s) by (rewrite <- H2; apply save_done_tame).
  assert (O4 : orig (setInputs f' (set_form (Some f') (save_done t sv l s'))) = orig s).
  { unfold orig at 1. change (originInputs (setInputs f' (set_form (Some f') (save_done t sv l s')))) with (originInputs (save_done t sv l s')). rewrite O3.
    assert (L : (length (heap s') <= length (heap (save_done t sv l s')))%nat).
    { unfold save_done. rewrite run_after_heap. cbn. rewrite length_app. destruct (outs_same l s') as [-> _]. lia. }
    assert (L1 : (originInputs s < length (heap s'))%nat) by (rewrite H1; cbn; rewrite length_app; lia).
    rewrite obj_new by (cbn; lia). unfold save_done. rewrite (obj_same (setLoading false _)) by (apply run_after_heap).
    destruct (outs_same l s') as [Q _]. change (heap s') with (heap s') in Q.
    unfold obj. cbn. rewrite Q, lookup_app_l by done. rewrite H1. cbn. by rewrite lookup_app_l. }
  rewrite O4, this_new, Ox, Os, Fx, Fs'. cbn [same_value]. rewrite str_eqb_refl. reflexivity.
Qed.

(** While nothing was edited since the load, the inputs and what they are compared with are one
    object, to which the discovery of a provider writes: the endpoints it found are reported as
    a success and never sent. *)
Definition self_same (v : val) : bool := same_value v v.

Theorem discovered_endpoints_lost (s : page) (o : object) (doc : val) :
  originInputs s = inputs s -> heap s !! inputs s = Some o -> is_nullish doc = false ->
  forallb (fun k => self_same (fld k o)) [$"oidc.well_known"; $"oidc.client_id"; $"oidc.client_secret"] = true ->
  forallb (fun e => self_same e.2) (endpoints doc) = true ->
  let x := settings_answer t (ROidc (inputs s) (originInputs s)) (Served doc) s in x.2 = [] /\ outputs x.1 = outputs s ++ [Success (t $"获取 OIDC 配置成功！")].
Proof.
  intros -> H N Ho He. cbn [settings_answer oidc_answered]. rewrite N. unfold oidc_save. set (s1 := out _ _).
  assert (E : obj s1 (inputs s) = set_all (endpoints doc) o) by (unfold obj, s1; cbn; by rewrite list_lookup_alter_eq, H).
  rewrite E. assert (D : oidc_options (set_all (endpoints doc) o) (set_all (endpoints doc) o) = []); [|by rewrite D].
  set (o' := set_all (endpoints doc) o).
  assert (K : forall k, self_same (fld k o') = true -> changed k o' o' = [] /\ changed_nonempty k o' o' = []).
  { intros k S. unfold changed, changed_nonempty, self_same in *. by rewrite S. }
  assert (ND : NoDup (keys (endpoints doc))) by (apply (bool_decide_unpack _); vm_compute; exact I).
  assert (P1 : forall k, k ∉ keys (endpoints doc) -> fld k o' = fld k o) by (intros k Hk; by apply fld_of_prop, set_all_other).
  assert (P2 : forall k v, (k, v) ∈ endpoints doc -> self_same (fld k o') = true).
  { intros k v Hv. unfold fld, o'. rewrite (set_all_in (endpoints doc) o k v) by done. rewrite forallb_forall in He. by apply list_elem_of_In, He in Hv. }
  assert (Q : forall k, memk k [$"oidc.authorization_endpoint"; $"oidc.token_endpoint"; $"oidc.user_info_endpoint"] = false -> k ∉ keys (endpoints doc))
    by (intros k Hk; by apply memk_false).
  cbn [forallb] in Ho. apply andb_true_iff in Ho as [H1 Ho]. apply andb_true_iff in Ho as [H2 Ho]. apply andb_true_iff in Ho as [H3 _].
  unfold oidc_options.
  rewrite (proj1 (K $"oidc.well_known" ltac:(rewrite P1 by (by apply Q); exact H1))), (proj1 (K $"oidc.client_id" ltac:(rewrite P1 by (by apply Q); exact H2))),
    (proj2 (K $"oidc.client_secret" ltac:(rewrite P1 by (by apply Q); exact H3))).
  rewrite (proj1 (K $"oidc.authorization_endpoint" ltac:(eapply P2; apply list_elem_of_In; left; reflexivity))),
    (proj1 (K $"oidc.token_endpoint" ltac:(eapply P2; apply list_elem_of_In; right; left; reflexivity))),
    (proj1 (K $"oidc.user_info_endpoint" ltac:(eapply P2; apply list_elem_of_In; do 2 right; left; reflexivity))). reflexivity.
Qed.

(** *** Secrets that are not served *)

Lemma loaded_this l s s1 o : read_items l [] s = (s1, Some o) -> this (options_answered (Served (VArr l)) s) = o.
Proof.
  intros R. cbn [options_answered]. rewrite R. set (s2 := sync_modes _ _). assert (E : heap s2 = heap s1 ++ [o] /\ inputs s2 = length (heap s1)).
  { unfold s2, sync_modes. destruct (fld $"fetch_setting.domain_filter_mode" o); destruct (fld $"fetch_setting.ip_filter_mode" o); by split. }
  destruct E as [E1 E2]. unfold this, obj.
  destruct (form s2); cbn [setLoading setIsLoaded set_form heap inputs]; rewrite E1, E2; by rewrite list_lookup_middle.
Qed.

Lemma hidden_missing srv0 meta l s s1 o k :
  GetOptions srv0 meta l -> read_items l [] s = (s1, Some o) -> visible k = false -> (k =s? $"CompletionRatioMeta") = false -> fld k o = VUndef.
Proof.
  intros G R V M. apply read_items_spec in R as (_ & _ & K). unfold fld. replace (prop k o) with (@None val); [done|]. symmetry. apply prop_None. intros I.
  destruct (K o eq_refl k I) as [I'|(it & I1 & I2)]; [by apply elem_of_nil in I'|]. rewrite G in I1. apply elem_of_app in I1 as [I1|I1].
  - apply list_elem_of_In, in_map_iff in I1 as ([k' v] & <- & I1). apply filter_In in I1 as [_ I1]. cbn [fst snd] in *.
    change (String_val (get_any (item k' v) $"key")) with k' in I2. congruence.
  - apply list_elem_of_singleton in I1 as ->. change (String_val (get_any (item $"CompletionRatioMeta" meta) $"key")) with ($"CompletionRatioMeta") in I2.
    by rewrite <- I2, str_eqb_refl in M.
Qed.

(** Saving the Telegram settings after a load, without typing the token again, replaces the token
    on the server by the text of a missing value: the token is not served and is sent anyway. *)
Theorem bot_token_lost (srv0 : server) (meta : jsstr) (l : list val) (s s1 : page) (o : object) :
  GetOptions srv0 meta l -> read_items l [] s = (s1, Some o) -> (forall m y, refuse m $"TelegramBotToken" y = None) ->
  let s' := options_answered (Served (VArr l)) s in
  prop $"TelegramBotToken" (store (omap put_body (submit t Telegram s').2) srv0) = Some $"<nil>".
Proof.
  intros G R Hr. cbn zeta. cbn [submit]. unfold submitTelegramSettings, updateOptions, telegram_options. rewrite (loaded_this _ _ _ _ R).
  rewrite (hidden_missing _ _ _ _ _ _ $"TelegramBotToken" G R eq_refl eq_refl).
  set (s' := options_answered _ _). set (x := fld _ o).
  change (update_from t (inputs s') Nothing [($"TelegramBotToken", VUndef); ($"TelegramBotName", x)] s')
    with (update_some t (inputs s') [($"TelegramBotToken", VUndef); ($"TelegramBotName", x)] s').
  rewrite update_sends by (repeat (apply Forall_cons; split; [reflexivity|]); apply Forall_nil_2). cbn [sent map fst snd sent_value].
  unfold store. cbn [fold_left]. rewrite update_option_other by (by vm_compute). unfold UpdateOption. cbn [fst snd value_text]. rewrite Hr. apply prop_set_eq.
Qed.

(** The key of the worker is sent as a missing value as well. *)
Theorem worker_key_lost (srv0 : server) (meta : jsstr) (l : list val) (s s1 : page) (o : object) (opts : list opt) :
  GetOptions srv0 meta l -> read_items l [] s = (s1, Some o) -> worker_options (this (options_answered (Served (VArr l)) s)) = Ret opts ->
  ($"WorkerValidKey", VUndef) ∈ opts.
Proof.
  intros G R. rewrite (loaded_this _ _ _ _ R). unfold worker_options. rewrite (hidden_missing _ _ _ _ _ _ $"WorkerValidKey" G R eq_refl eq_refl).
  destruct (removeTrailingSlash _); cbn [bind_outcome]; [|discriminate]. intros H%Ret_inj. subst opts. apply elem_of_app. right. cbn. apply list_elem_of_here.
Qed.

(** ** Lists *)

(** The lists that are saved are loaded again. *)
Theorem saved_lists_reload (s : page) (k : jsstr) (l : list val) :
  (k, l) ∈ [($"fetch_setting.domain_list", domainList s); ($"fetch_setting.ip_list", ipList s); ($"fetch_setting.allowed_ports", allowedPorts s)] ->
  Forall json_wf l ->
  (k, VStr (json (VArr l))) ∈ ssrf_options s /\ forall fallback, parsed_list (VStr (json (VArr l))) fallback = l.
Proof.
  intros H W. split.
  - apply list_elem_of_In in H. cbn in H. apply list_elem_of_In. unfold ssrf_options.
    destruct H as [[= <- <-]|[[= <- <-]|[[= <- <-]|[]]]]; [right; left; done|do 3 right; left; done|do 4 right; left; done].
  - intros fb. unfold parsed_list. cbn [String_val]. rewrite json_reads by (by apply json_wf_arr).
    destruct (truthy (VStr (json (VArr l)))) eqn:E; [done|]. cbn [truthy] in E.
    pose proof (json_reads (VArr l) ltac:(by apply json_wf_arr)) as P. destruct (json (VArr l)); [vm_compute in P; discriminate P|discriminate E].
Qed.

(** The domains that can be added have no comma, so that the saved text keeps them apart. *)
Definition domain_char (c : Z) : bool := alnum c || (c =? 45) || (c =? 46).

Lemma up_to_within P n r : within P r -> within P (up_to n r).
Proof. intros H. induction n as [|n IH]; [apply within_eps|]. apply within_alt; [by apply within_seq|apply within_eps]. Qed.

Lemma domain_within : within domain_char domainRegex.
Proof.
  assert (A : within domain_char (Chr alnum)) by (apply within_chr; intros c Hc; unfold domain_char; by rewrite Hc).
  assert (L : within domain_char (Chr letter)) by (apply within_chr; intros c Hc; unfold domain_char, alnum; by rewrite Hc).
  assert (D : within domain_char (Ch 46)) by (apply within_chr; intros c Hc; unfold domain_char; rewrite Z.eqb_sym in Hc; rewrite Hc; apply orb_true_r).
  assert (B : within domain_char (Chr (fun c => alnum c || (c =? 45)))) by (apply within_chr; intros c Hc; unfold domain_char; by rewrite Hc).
  assert (S : within domain_char (Seq (Seq (Chr alnum) (Opt (Seq (up_to 61 (Chr (fun c => alnum c || (c =? 45)))) (Chr alnum)))) (Ch 46))).
  { apply within_seq; [|exact D]. apply within_seq; [exact A|]. apply within_alt; [|apply within_eps]. apply within_seq; [by apply up_to_within|exact A]. }
  apply within_seq; [apply within_seq; [exact S|by apply within_star]|]. apply within_seq; [by apply within_seq|by apply within_star].
Qed.

Lemma domain_no_comma d : test domainRegex d = true -> ~ In 44 d.
Proof.
  rewrite test_true. intros (cs & H). apply run_seq in H as ([r cs'] & H1 & H2). apply run_eos in H2 as [-> _]. apply domain_within in H1. cbn in H1.
  destruct H1 as (w & -> & F). rewrite app_nil_r. intros I. apply list_elem_of_In in I. revert I. by apply (forallb_not_elem domain_char).
Qed.

(** Lists without commas are read back from their text. *)
Lemma whitelist_text (l : list jsstr) s : Forall (fun d => ~ In 44 d) l -> l <> [[]] ->
  read_aside $"EmailDomainWhitelist" (VStr (join $"," l)) s = Ret (setEmailDomainWhitelist l s).
Proof.
  intros H N. unfold read_aside. rewrite str_eqb_refl. destruct l as [|d l]; [done|].
  assert (T : truthy (VStr (join $"," (d :: l))) = true).
  { destruct l as [|e l]; [by destruct d|]. cbn. by destruct d. }
  rewrite T. cbn [as_string bind_outcome]. change ($",") with [44]. by rewrite split_join.
Qed.

(** A domain is added once, at the end, and the whitelist is still read back from what is saved. *)
Theorem added_domains_reload (s s' : page) :
  Forall (fun d => ~ In 44 d) (emailDomainWhitelist s) -> emailDomainWhitelist s <> [[]] -> NoDup (emailDomainWhitelist s) ->
  let w := emailDomainWhitelist (handleAddEmail t s) in
  NoDup w /\ (w = emailDomainWhitelist s \/ w = emailDomainWhitelist s ++ [trim (emailToAdd s)])
  /\ read_aside $"EmailDomainWhitelist" (VStr (join $"," w)) s' = Ret (setEmailDomainWhitelist w s').
Proof.
  intros F E N. cbn zeta. assert (D : NoDup (emailDomainWhitelist s) /\ (emailDomainWhitelist s = emailDomainWhitelist s \/ emailDomainWhitelist s = emailDomainWhitelist s ++ [trim (emailToAdd s)])
    /\ read_aside $"EmailDomainWhitelist" (VStr (join $"," (emailDomainWhitelist s))) s' = Ret (setEmailDomainWhitelist (emailDomainWhitelist s) s'))
    by (split; [done|]; split; [by left|by apply whitelist_text]).
  unfold handleAddEmail. destruct (nonempty _) eqn:Ne; [|exact D]. destruct (test domainRegex _) eqn:T; cbn [negb]; [|exact D].
  destruct (memk _ _) eqn:M; [exact D|]. cbn [emailDomainWhitelist out setEmailToAdd setEmailDomainWhitelist]. split; [|split; [by right|]].
  - apply NoDup_app. split; [done|]. split; [|apply NoDup_singleton]. intros d Hd I. apply list_elem_of_singleton in I as ->. by apply memk_false in M.
  - apply whitelist_text; [apply Forall_app_2; [done|]; rewrite Forall_singleton; by apply domain_no_comma|].
    intros Q. apply app_singleton in Q as [[Q1 Q2]|[Q1 Q2]]; [|discriminate]. injection Q2 as Q2. by rewrite Q2 in Ne.
Qed.

End Server.

(** ** Witnesses *)

Definition no_t (s : jsstr) : jsstr := s.
Definition no_print (_ : val) : jsstr := [].
Definition accept_all (_ : server) (_ _ : jsstr) : option val := None.

Definition sample_server : server :=
  [($"GitHubClientId", $"id"); ($"GitHubClientSecret", $"hidden"); ($"TelegramBotToken", $"123:abc"); ($"TelegramBotName", $"bot")].
Definition sample_items : list val :=
  [item $"GitHubClientId" $"id"; item $"TelegramBotName" $"bot"; item $"CompletionRatioMeta" $"{}"].
Lemma sample_served : GetOptions sample_server $"{}" sample_items.
Proof. unfold GetOptions. vm_compute. reflexivity. Qed.

Definition step (w : world) (e : event) : world := World (fire (hook := settings_hook no_t) e (page_of w)) (srv w).
Definition typed_form : object := [($"GitHubClientId", VStr $"new"); ($"GitHubClientSecret", VStr $"typed"); ($"TelegramBotName", VStr $"bot")].
Definition opened : world := step (World (Sys init []) sample_server) Mount.
Definition loaded : world := World (reply (hook := settings_hook no_t) 0 ROptions (Served (VArr sample_items)) (page_of opened)) sample_server.
Definition saving : world := step (step loaded (Change typed_form)) (Submit GitHub).

Lemma step_reached w e : wreach no_print accept_all no_t sample_server w -> wreach no_print accept_all no_t sample_server (step w e).
Proof. intros R. eapply w_next; [exact R|]. apply (w_event _ _ _ e w). Qed.

Lemma loaded_reached : wreach no_print accept_all no_t sample_server loaded.
Proof.
  eapply (w_next _ _ _ _ opened); [apply step_reached, w_start|]. apply (w_load _ _ _ 0 $"{}" sample_items opened); [reflexivity|apply sample_served].
Qed.

Lemma secrets_kept_witness : VStr $"typed" <> VUndef /\ VStr $"typed" <> VStr [].
Proof.
  apply (secrets_kept no_print accept_all no_t sample_server saving (ROther 0 1 ($"GitHubClientSecret", VStr $"typed")) $"GitHubClientSecret" (VStr $"typed")).
  - apply step_reached, step_reached, loaded_reached.
  - apply list_elem_of_lookup_2 with (i := 1%nat). vm_compute. reflexivity.
  - reflexivity.
  - apply list_elem_of_lookup_2 with (i := 2%nat). reflexivity.
Defined.

Definition edited : page := state (page_of (step loaded (Change typed_form))).

Lemma fresh_save_exact_witness :
  prop $"GitHubClientId" (store no_print accept_all (omap put_body (submit no_t GitHub edited).2) sample_server) = Some $"new"
  /\ prop $"GitHubClientSecret" (store no_print accept_all (omap put_body (submit no_t GitHub edited).2) sample_server) = Some $"typed"
  /\ prop $"TelegramBotToken" (store no_print accept_all (omap put_body (submit no_t GitHub edited).2) sample_server) = Some $"123:abc".
Proof.
  destruct (fresh_save_exact no_print accept_all no_t GitHub edited sample_server (omap put_body (submit no_t GitHub edited).2)) as (P & Q & R).
  - apply list_elem_of_further, list_elem_of_here.
  - reflexivity.
  - intros k Hk. apply list_elem_of_In in Hk. cbn in Hk. destruct Hk as [[= <-]|[[=]|[]]]. exists $"id". by vm_compute.
  - split; [|split].
    + destruct (P $"GitHubClientId" $"new") as [E|(l1 & v & l2 & _ & _ & [e E] & _)]; [apply list_elem_of_here|vm_compute; reflexivity|exact E|discriminate E].
    + destruct (Q $"GitHubClientSecret" $"typed") as [E|(l1 & v & l2 & _ & _ & [e E] & _)];
        [apply list_elem_of_further, list_elem_of_here|vm_compute; reflexivity|exact E|discriminate E].
    + rewrite R; [reflexivity|]. apply memk_false. vm_compute. reflexivity.
Defined.

Lemma bot_token_lost_witness :
  prop $"TelegramBotToken" (store no_print accept_all (omap put_body (submit no_t Telegram (options_answered (Served (VArr sample_items)) (state (page_of opened)))).2) sample_server)
  = Some $"<nil>".
Proof. eapply (bot_token_lost no_print accept_all no_t sample_server $"{}" sample_items); [apply sample_served|vm_compute; reflexivity|intros m y; reflexivity]. Defined.

Definition plain_form (id : jsstr) : object := [($"GitHubClientId", VStr id)].

Lemma revert_not_saved_witness :
  exists s2 r, settings_event no_t (Submit GitHub) (settings_event no_t (Change (plain_form $"new")) (state (page_of loaded))).1 = (s2, [r])
  /\ put_body r = Some ($"GitHubClientId", VStr $"new")
  /\ let s4 := (settings_event no_t (Change (plain_form $"id")) (settings_answer no_t r (Served VUndef) s2).1).1 in
     settings_event no_t (Submit GitHub) s4 = (s4, []).
Proof.
  apply (revert_not_saved no_t (state (page_of loaded)) $"id" $"new" (plain_form $"new") (plain_form $"id") VUndef); vm_compute; try reflexivity; discriminate.
Defined.

End SystemSettingProofs.
