(* ===== verification/Users.v ===== *)
(** * The list of users

    [hooks/users/useUsersData.jsx] with the dialog of [components/table/users/modals/DeleteUserModal.jsx]:
    pages, searches and the actions on a user, as an instance of [AsyncHook.Hook].  A request carries
    what its render knew; an action writes back the rows of its render.  Dates are parameters. *)
From Stdlib Require Import SpecFloat.
From S2P Require Import Prelude JSNum JSValue Json FormValues ClientHelpers Passkey AsyncHook LogTables.
#[local] Open Scope Z_scope.
#[local] Arguments js _ : simpl never.

Module Users.
Import FormValues ClientHelpers AsyncHook.

(** ** State *)

(** Notices, and the size of the pages written to the local storage. *)
Inductive output := Error (v : val) | Success (s : jsstr) | PageSizeStored (s : jsstr).

Record ulist := UList {
  users : list object; loading : bool; searching : bool; activePage : val; pageSize : val; userCount : val; groupOptions : list val;
  showAddUser : bool; showEditUser : bool; editingUser : object; form : option object; outputs : list output
}.

Definition setUsers x s := UList x (loading s) (searching s) (activePage s) (pageSize s) (userCount s) (groupOptions s) (showAddUser s) (showEditUser s) (editingUser s) (form s) (outputs s).
Definition setLoading x s := UList (users s) x (searching s) (activePage s) (pageSize s) (userCount s) (groupOptions s) (showAddUser s) (showEditUser s) (editingUser s) (form s) (outputs s).
Definition setSearching x s := UList (users s) (loading s) x (activePage s) (pageSize s) (userCount s) (groupOptions s) (showAddUser s) (showEditUser s) (editingUser s) (form s) (outputs s).
Definition setActivePage x s := UList (users s) (loading s) (searching s) x (pageSize s) (userCount s) (groupOptions s) (showAddUser s) (showEditUser s) (editingUser s) (form s) (outputs s).
Definition setPageSize x s := UList (users s) (loading s) (searching s) (activePage s) x (userCount s) (groupOptions s) (showAddUser s) (showEditUser s) (editingUser s) (form s) (outputs s).
Definition setUserCount x s := UList (users s) (loading s) (searching s) (activePage s) (pageSize s) x (groupOptions s) (showAddUser s) (showEditUser s) (editingUser s) (form s) (outputs s).
Definition setGroupOptions x s := UList (users s) (loading s) (searching s) (activePage s) (pageSize s) (userCount s) x (showAddUser s) (showEditUser s) (editingUser s) (form s) (outputs s).
Definition set_dialogs a b u s := UList (users s) (loading s) (searching s) (activePage s) (pageSize s) (userCount s) (groupOptions s) a b u (form s) (outputs s).
Definition set_form x s := UList (users s) (loading s) (searching s) (activePage s) (pageSize s) (userCount s) (groupOptions s) (showAddUser s) (showEditUser s) (editingUser s) x (outputs s).
Definition out x s := UList (users s) (loading s) (searching s) (activePage s) (pageSize s) (userCount s) (groupOptions s) (showAddUser s) (showEditUser s) (editingUser s) (form s) (outputs s ++ [x]).

Definition init : ulist := UList [] true false (int 1) (int LogTables.ITEMS_PER_PAGE) (int 0) [] false false [($"id", VUndef)] None [].

Definition getFormValues (s : ulist) : jsstr * jsstr := (LogTables.form_text (form s) $"searchKeyword", LogTables.form_text (form s) $"searchGroup").

(** ** Requests *)

(** What follows a page: nothing, a report of its failure, or the timer of a deletion, which knows
    the number of rows, the page and the size of its render. *)
Inductive after := Nothing | Report | Timer (rows : nat) (page size : val).

Inductive request :=
| RPage (search : bool) (url : jsstr) (k : after)
| RManage (id : val) (action : jsstr) (render_users : list object) (k : after)
| RReset (done : jsstr)
| RGroups
| RTimer (rows : nat) (page size : val).

Definition load_url (page size : val) : jsstr := $"/api/user/?p=" ++ String_val page ++ $"&page_size=" ++ String_val size.
Definition search_url (keyword group : jsstr) (page size : val) : jsstr :=
  $"/api/user/search?keyword=" ++ keyword ++ $"&group=" ++ group ++ $"&p=" ++ String_val page ++ $"&page_size=" ++ String_val size.

Definition load (k : after) (page size : val) (s : ulist) : ulist * list request := (setLoading true s, [RPage false (load_url page size) k]).
Definition loadUsers (page size : val) (s : ulist) : ulist * list request := load Nothing page size s.

(** The words are those of the form when they are not given. *)
Definition search (k : after) (page size : val) (words : option (jsstr * jsstr)) (s : ulist) : ulist * list request :=
  let '(keyword, group) := default (getFormValues s) words in
  if negb (nonempty keyword) && negb (nonempty group) then load k page size s
  else (setSearching true s, [RPage true (search_url keyword group page size) k]).
Definition searchUsers (page size : val) (words : option (jsstr * jsstr)) (s : ulist) : ulist * list request := search Nothing page size words s.

(** [refresh(page)] of a render with pages of the size [size]. *)
Definition refresh_with (k : after) (page size : val) (s : ulist) : ulist * list request :=
  let '(keyword, group) := getFormValues s in
  if negb (nonempty keyword) && negb (nonempty group) then load k page size s else search k page size (Some (keyword, group)) s.
Definition refresh (page : val) (s : ulist) : ulist * list request := refresh_with Nothing page (pageSize s) s.

Definition handlePageChange (page : val) (s : ulist) : ulist * list request :=
  let s := setActivePage page s in
  let '(keyword, group) := getFormValues s in
  if negb (nonempty keyword) && negb (nonempty group) then loadUsers page (pageSize s) s else searchUsers page (pageSize s) (Some (keyword, group)) s.

Definition handlePageSizeChange (size : val) (s : ulist) : ulist * list request :=
  load Report (activePage s) size (setActivePage (int 1) (setPageSize size (out (PageSizeStored (String_val size)) s))).

Definition manage (k : after) (id : val) (action : jsstr) (s : ulist) : ulist * list request :=
  (setLoading true s, [RManage id action (users s) k]).
Definition manageUser (id : val) (action : jsstr) (s : ulist) : ulist * list request := manage Nothing id action s.

(** The dialog that deletes a user. *)
Definition handleConfirm (user : object) (s : ulist) : ulist * list request :=
  manage (Timer (length (users s)) (activePage s) (pageSize s)) (fld $"id" user) $"delete" s.

(** [record.DeletedAt !== null || record.status !== 1]: a grey row. *)
Definition handleRow (record : object) : bool :=
  negb (same_value (fld $"DeletedAt" record) VNull) || negb (is_int (fld $"status" record) 1).

Section Hook.
Variable t : jsstr -> jsstr.
Variable now : val.                      (** [new Date()] *)

Definition resetUserPasskey (user : val) (s : ulist) : ulist * list request := if truthy user then (s, [RReset (t $"Passkey 已重置")]) else (s, []).
Definition resetUserTwoFA (user : val) (s : ulist) : ulist * list request := if truthy user then (s, [RReset (t $"二步验证已重置")]) else (s, []).

Inductive event :=
| Mount | Edit (values : object) | Search | PageChange (page : val) | PageSizeChange (size : val) | Refresh (page : val) | Act (id : val) (action : jsstr)
| Delete (user : object) | ResetPasskey (user : val) | ResetTwoFA (user : val) | OpenAdd | OpenEdit (user : object) | CloseAdd | CloseEdit.

Definition users_event (e : event) (s : ulist) : ulist * list request :=
  match e with
  | Mount => let '(s, rs) := load Report (int 0) (pageSize s) s in (s, rs ++ [RGroups])
  | Edit f => (set_form (Some f) s, [])
  | Search => searchUsers (int 1) (pageSize s) None s
  | PageChange p => handlePageChange p s
  | PageSizeChange z => handlePageSizeChange z s
  | Refresh p => refresh p s
  | Act id a => manageUser id a s
  | Delete u => handleConfirm u s
  | ResetPasskey u => resetUserPasskey u s
  | ResetTwoFA u => resetUserTwoFA u s
  | OpenAdd => (set_dialogs true (showEditUser s) (editingUser s) s, [])
  | OpenEdit u => (set_dialogs (showAddUser s) true u s, [])
  | CloseAdd => (set_dialogs false (showEditUser s) (editingUser s) s, [])
  | CloseEdit => (set_dialogs (showAddUser s) false [($"id", VUndef)] s, [])
  end.

(** ** Answers *)

Definition type_error : output := Error (VStr $"TypeError").

(** The rows with the key of the table. *)
Definition setUserFormat (l : list object) (s : ulist) : ulist := setUsers (map (fun u => prop_set $"key" (fld $"id" u) u) l) s.

Definition busy (search : bool) (x : bool) (s : ulist) : ulist := if search then setSearching x s else setLoading x s.

(** The promise of a load is rejected. *)
Definition rejected (k : after) (o : output) (s : ulist) : ulist * list request := (match k with Report => out o s | _ => s end, []).

Definition page_end (search : bool) (k : after) (s : ulist) : ulist * list request :=
  (busy search false s, match k with Timer n p z => [RTimer n p z] | _ => [] end).

Definition page_answered (search : bool) (k : after) (a : answer) (s : ulist) : ulist * list request :=
  match a with
  | Served data =>
    if is_nullish data then rejected k type_error s else
    let s := setUserCount (get_any data $"total") (setActivePage (get_any data $"page") s) in
    match get_any data $"items" with
    | VArr l => match LogTables.objects_of l with Some items => page_end search k (setUserFormat items s) | None => rejected k type_error s end
    | _ => rejected k type_error s
    end
  | Refused m => page_end search k (out (Error m) s)
  | Failed e => rejected k (Error e) (out (Error e) s)
  end.

(** The row of a user after an action. *)
Definition managed (id : val) (action : jsstr) (user : val) (u : object) : object :=
  if same_value (fld $"id" u) id then
    if action =s? $"delete" then prop_set $"DeletedAt" now u
    else prop_set $"role" (get_any user $"role") (prop_set $"status" (get_any user $"status") u)
  else u.
Definition touched (id : val) (l : list object) : bool := existsb (fun u => same_value (fld $"id" u) id) l.

(** A deletion goes on with a refresh of its render. *)
Definition manage_end (k : after) (s : ulist) : ulist * list request :=
  let s := setLoading false s in
  match k with Timer _ page size => refresh_with k page size s | _ => (s, []) end.

Definition manage_answered (id : val) (action : jsstr) (render_users : list object) (k : after) (a : answer) (s : ulist) : ulist * list request :=
  match a with
  | Served user =>
    let s := out (Success (t $"操作成功完成！")) s in
    if touched id render_users && negb (action =s? $"delete") && is_nullish user then (s, [])
    else manage_end k (setUsers (map (managed id action user) render_users) s)
  | Refused m => manage_end k (out (Error m) s)
  | Failed e => (out (Error e) s, [])
  end.

Definition reset_answered (done : jsstr) (a : answer) (s : ulist) : ulist :=
  match a with
  | Served _ => out (Success done) s
  | Refused m => out (Error (or_else m (VStr (t $"操作失败，请重试")))) s
  | Failed e => out (Error (VStr (t $"操作失败，请重试"))) (out (Error e) s)
  end.

Definition groups_answered (a : answer) (s : ulist) : ulist :=
  match a with
  | Served (VArr l) => setGroupOptions (map (fun g => VObj [($"label", g); ($"value", g)]) l) s
  | Served _ | Refused _ => out type_error s
  | Failed e => out (Error (get_any e $"message")) (out (Error e) s)
  end.

(** The timer of a deletion: [users.length === 0 && activePage > 1] of its render. *)
Definition timer_fired (rows : nat) (page size : val) (s : ulist) : ulist * list request :=
  if (rows =? 0)%nat && nltb n1 (Number_val page) then refresh_with Nothing (VNum (nsub (Number_val page) n1)) size s else (s, []).

Definition users_answer (r : request) (a : answer) (s : ulist) : ulist * list request :=
  match r with
  | RPage search _ k => page_answered search k a s
  | RManage id action l k => manage_answered id action l k a s
  | RReset done => (reset_answered done a s, [])
  | RGroups => (groups_answered a s, [])
  | RTimer n p z => timer_fired n p z s
  end.

#[global] Instance users_hook : Hook ulist event request := {| on_event := users_event; on_answer := users_answer |}.

(** ** Busy indicators *)

Definition loads (r : request) : bool := match r with RPage false _ _ | RManage _ _ _ _ => true | _ => false end.
Definition searches (r : request) : bool := match r with RPage true _ _ => true | _ => false end.

(** Answers that are not lost and have the form the page reads. *)
Definition well_served (r : request) (a : answer) : Prop :=
  match a with
  | Failed _ => False
  | Refused _ => True
  | Served data =>
    match r with
    | RPage _ _ _ => exists o l items, data = VObj o /\ fld $"items" o = VArr l /\ LogTables.objects_of l = Some items
    | RManage _ _ _ _ => is_nullish data = false
    | _ => True
    end
  end.

(** A change of the page with the requests it sends: each indicator stays as it was, is switched
    off, or is switched on with a request of its kind. *)
Definition steady (s : ulist) (x : ulist * list request) : Prop :=
  (loading x.1 = true -> loading s = true \/ (0 < count loads x.2)%nat) /\ (searching x.1 = true -> searching s = true \/ (0 < count searches x.2)%nat).

Lemma steady_same s s' rs : loading s' = loading s -> searching s' = searching s -> steady s (s', rs).
Proof. intros E1 E2. unfold steady. cbn [fst]. rewrite E1, E2. auto. Qed.
Lemma steady_from s s' x : (loading s' = true -> loading s = true) -> (searching s' = true -> searching s = true) -> steady s' x -> steady s x.
Proof. intros E1 E2 [A B]. split; intros H; [destruct (A H)|destruct (B H)]; auto. Qed.

Lemma steady_load k p z s : steady s (load k p z s).
Proof. split; cbn; [right; unfold count; cbn; lia|auto]. Qed.
Lemma steady_search k p z w s : steady s (search k p z w s).
Proof.
  unfold search. destruct (default (getFormValues s) w) as [kw g]. destruct (_ && _); [apply steady_load|].
  split; cbn; [auto|right; unfold count; cbn; lia].
Qed.
Lemma steady_refresh k p z s : steady s (refresh_with k p z s).
Proof. unfold refresh_with. destruct (getFormValues s) as [kw g]. destruct (_ && _); [apply steady_load|apply steady_search]. Qed.

Lemma steady_event e s : steady s (users_event e s).
Proof.
  destruct e as [|f| |p|z|p|id a|u|u|u| |u| |]; cbn [users_event]; try (by apply steady_same).
  - destruct (steady_load Report (int 0) (pageSize s) s) as [A B]. split; [|exact B]. intros _. right. unfold count. cbn. lia.
  - apply steady_search.
  - unfold handlePageChange. destruct (getFormValues _) as [kw g]. destruct (_ && _);
      (eapply (steady_from _ (setActivePage p s)); [done|done|]); [apply steady_load|apply steady_search].
  - eapply (steady_from _ (setActivePage (int 1) (setPageSize z (out (PageSizeStored (String_val z)) s)))); [done|done|]. apply steady_load.
  - apply steady_refresh.
  - split; cbn; [right; unfold count; cbn; lia|auto].
  - split; cbn; [right; unfold count; cbn; lia|auto].
  - unfold resetUserPasskey. destruct (truthy u); by apply steady_same.
  - unfold resetUserTwoFA. destruct (truthy u); by apply steady_same.
Qed.

(** An answer switches the indicator of its request off, or on again with a new one. *)
Definition settles (r : request) (s : ulist) (x : ulist * list request) : Prop :=
  steady s x /\ (loads r = true -> loading x.1 = true -> (0 < count loads x.2)%nat) /\ (searches r = true -> searching x.1 = true -> (0 < count searches x.2)%nat).

Lemma settles_answer r a s : well_served r a -> settles r s (users_answer r a s).
Proof.
  intros W. destruct r as [b u k|id ac l k|d| |n p z]; cbn [users_answer].
  - assert (E : forall s', loading s' = loading s -> searching s' = searching s -> settles (RPage b u k) s (page_end b k s')).
    { intros s' E1 E2. destruct b; split; [split|split|split|split]; cbn; rewrite ?E1, ?E2; auto; discriminate. }
    destruct a as [data|m|e]; [|by apply E|done]. destruct W as (o & l & items & -> & Ei & El). cbn [page_answered is_nullish].
    change (get_any (VObj o) $"items") with (fld $"items" o). rewrite Ei, El. by apply E.
  - assert (E : forall s', searching s' = searching s -> settles (RManage id ac l k) s (manage_end k s')).
    { intros s' E. unfold manage_end. destruct k as [| |n p z]; try (split; [split|split]; cbn; rewrite ?E; auto; discriminate).
      pose proof (steady_refresh (Timer n p z) p z (setLoading false s')) as [A B]. split; [split|split]; cbn; intros H.
      - destruct (A H); [discriminate|auto].
      - destruct (B H) as [H'|H']; [left; cbn in H'; congruence|auto].
      - intros H'. destruct (A H'); [discriminate|done].
      - discriminate H. }
    destruct a as [data|m|e]; [|by apply E|done]. cbn in W. cbn [manage_answered]. rewrite W, andb_false_r. by apply E.
  - split; [|split; discriminate]. destruct a; by apply steady_same.
  - split; [|split; discriminate]. destruct a as [[]| |]; by apply steady_same.
  - split; [|split; discriminate]. unfold timer_fired. destruct (_ && _); [apply steady_refresh|by apply steady_same].
Qed.

Lemma settles_on r a s : well_served r a ->
  (loading (users_answer r a s).1 = true -> loads r = false /\ loading s = true \/ (0 < count loads (users_answer r a s).2)%nat)
  /\ (searching (users_answer r a s).1 = true -> searches r = false /\ searching s = true \/ (0 < count searches (users_answer r a s).2)%nat).
Proof.
  intros W. destruct (settles_answer r a s W) as ([C D] & L & S'). split; intros H.
  - destruct (loads r); [right; by apply L|]. destruct (C H); auto.
  - destruct (searches r); [right; by apply S'|]. destruct (D H); auto.
Qed.

(** As long as requests are answered, with whatever result, the indicators of the list of users
    are on only while a request of their kind is under way: when nothing is under way the
    table is no longer shown as loading or searching. *)
Theorem users_settle (s : sys ulist request) :
  served_reach well_served (fire Mount (Sys init [])) s -> pending s = [] -> loading (state s) = false /\ searching (state s) = false.
Proof.
  intros R E.
  assert (A : loading (state s) = true -> (0 < count loads (pending s))%nat).
  { apply (indicator_on well_served loading loads (fire Mount (Sys init []))); [intros e x; apply steady_event|intros r a x W; by apply settles_on| |exact R].
    intros _. unfold count. cbn. lia. }
  assert (B : searching (state s) = true -> (0 < count searches (pending s))%nat).
  { apply (indicator_on well_served searching searches (fire Mount (Sys init []))); [intros e x; apply steady_event|intros r a x W; by apply settles_on|done|exact R]. }
  rewrite E in A, B. split; apply not_true_is_false; intros H; [apply A in H|apply B in H]; cbn in H; lia.
Qed.

(** A load that fails leaves the table in the loading state: nothing switches it off but the
    answer to another request. *)
Theorem failed_load_keeps_loading (url : jsstr) (k : after) (e : val) (s : ulist) :
  loading (users_answer (RPage false url k) (Failed e) s).1 = loading s.
Proof. cbn. by destruct k. Qed.

(** ** Actions *)

(** An action that was served changes the user it was for and no other, and the rows of a deleted
    or disabled user are grey. *)
Theorem action_exact (id : val) (action : jsstr) (user : val) (s : ulist) (u : object) (i : nat) :
  is_nullish user = false -> users s !! i = Some u ->
  let s' := (manage_answered id action (users s) Nothing (Served user) s).1 in
  users s' !! i = Some (managed id action user u) /\ length (users s') = length (users s)
  /\ (same_value (fld $"id" u) id = false -> users s' !! i = Some u)
  /\ (same_value (fld $"id" u) id = true -> action = $"delete" -> same_value now VNull = false -> handleRow (managed id action user u) = true)
  /\ (same_value (fld $"id" u) id = true -> action <> $"delete" -> is_int (get_any user $"status") 1 = false -> handleRow (managed id action user u) = true).
Proof.
  intros N H. cbn [manage_answered]. rewrite N, andb_false_r. cbn [manage_end fst setLoading setUsers users].
  assert (E : map (managed id action user) (users s) !! i = Some (managed id action user u)) by (rewrite list_lookup_fmap, H; done).
  split; [exact E|]. split; [apply length_map|]. split; [intros D; rewrite E; unfold managed; by rewrite D|]. split.
  - intros D -> Nn. unfold managed, handleRow. rewrite D, str_eqb_refl, fld_set_eq, Nn. done.
  - intros D Na Ns. unfold managed, handleRow. rewrite D. destruct (str_eqb_spec action $"delete"); [done|].
    rewrite (fld_set_ne $"role" $"status") by (by vm_compute). rewrite fld_set_eq, Ns. apply orb_true_r.
Qed.

(** The rows that an action writes back are those of its render: when another page was loaded
    meanwhile, its rows are replaced by those of the page before, under the number of the new page. *)
Theorem late_action_restores_rows (id user data : val) (action : jsstr) (s0 : ulist) (l : list val) (items : list object) :
  is_nullish user = false -> get_any data $"items" = VArr l -> LogTables.objects_of l = Some items -> is_nullish data = false ->
  forall s1 r, manageUser id action s0 = (s1, [r]) ->
  let s2 := (page_answered false Nothing (Served data) s1).1 in
  let s3 := (users_answer r (Served user) s2).1 in
  users s3 = map (managed id action user) (users s0) /\ activePage s3 = get_any data $"page" /\ userCount s3 = get_any data $"total".
Proof.
  intros N Ei El Nd s1 r [= <- <-]. cbn zeta. cbn [page_answered]. rewrite Nd, Ei, El. cbn [users_answer manage_answered]. rewrite N, andb_false_r. by split.
Qed.

(** The timer of a deletion never goes back a page: the rows it counts are those of the render
    that showed the user. *)
Theorem deletion_stays (user : object) (s : ulist) (i : val) (action : jsstr) (l : list object) (n : nat) (p z : val) :
  users s <> [] -> (handleConfirm user s).2 = [RManage i action l (Timer n p z)] -> forall a s', users_answer (RTimer n p z) a s' = (s', []).
Proof. intros N [= _ _ _ <- _ _] a s'. cbn. unfold timer_fired. by destruct (users s). Qed.

(** ** Sizes and searches *)

(** A change of the size of the pages asks for the page that was shown before, of all users,
    whatever is searched for. *)
Theorem size_change_drops_search (s : ulist) (size : val) :
  exists s', users_event (PageSizeChange size) s = (s', [RPage false (load_url (activePage s) size) Report]) /\ activePage s' = int 1 /\ form s' = form s.
Proof. eexists. split; [reflexivity|]. by split. Qed.

End Hook.

(** The words of a search are not encoded: a keyword can set the group. *)
Theorem keyword_sets_group (page size : val) : search_url $"a&group=vip" [] page size = search_url $"a" ($"vip" ++ $"&group=") page size.
Proof. unfold search_url. rewrite <- !app_assoc. reflexivity. Qed.

(** ** Witnesses *)

Definition no_t (s : jsstr) : jsstr := s.
Definition sample_user : val := VObj [($"id", int 7); ($"status", int 1); ($"DeletedAt", VNull)].
Definition sample_page : val := VObj [($"items", VArr [sample_user]); ($"page", int 1); ($"total", int 1)].
#[local] Instance sample_hook : Hook ulist event request := users_hook no_t (VStr $"now").
Definition mounted : sys ulist request := fire Mount (Sys init []).
Definition first_page : sys ulist request := reply 0 (RPage false (load_url (int 0) (int 10)) Report) (Served sample_page) mounted.
Definition settled : sys ulist request := reply 0 RGroups (Served (VArr [VStr $"vip"])) first_page.

Lemma users_settle_witness : loading (state settled) = false /\ searching (state settled) = false.
Proof.
  apply (users_settle no_t (VStr $"now")); [|vm_compute; reflexivity].
  apply served_answer; [|vm_compute; reflexivity|exact I]. apply served_answer; [apply served_start|vm_compute; reflexivity|].
  cbn. eexists _, _, _. split; [reflexivity|]. split; reflexivity.
Defined.

Example settled_rows : map (fld $"key") (users (state settled)) = [int 7] /\ map handleRow (users (state settled)) = [false].
Proof. vm_compute. auto. Qed.

End Users.
