(* ===== verification/Redemptions.v ===== *)
(** * The list of redemption codes

    [hooks/redemptions/useRedemptionsData.jsx] with the dialog of
    [components/table/redemptions/modals/DeleteRedemptionModal.jsx]: pages, searches and actions, as
    an instance of [AsyncHook.Hook].  Rows are references to the objects of an answer, which the
    actions on a code change in place; the selected rows share them.  The effect on the size of the
    pages runs after every change of it.  The clock is a parameter. *)
From Stdlib Require Import SpecFloat.
From S2P Require Import Prelude JSNum JSValue Json FormValues ClientHelpers Passkey AsyncHook LogTables.
#[local] Open Scope Z_scope.
#[local] Arguments js _ : simpl never.

Module Redemptions.
Import FormValues ClientHelpers AsyncHook.

(** ** State *)

Inductive output := Error (v : val) | Success (s : jsstr) | Copied (s : jsstr).

Record codes := Codes {
  heap : list object; redemptions : list nat; loading : bool; searching : bool; activePage : val; pageSize : val; tokenCount : val;
  selectedKeys : list nat; editingRedemption : object; showEdit : bool; form : option object; outputs : list output
}.

Definition set_rows h l s := Codes h l (loading s) (searching s) (activePage s) (pageSize s) (tokenCount s) (selectedKeys s) (editingRedemption s) (showEdit s) (form s) (outputs s).
Definition setLoading x s := Codes (heap s) (redemptions s) x (searching s) (activePage s) (pageSize s) (tokenCount s) (selectedKeys s) (editingRedemption s) (showEdit s) (form s) (outputs s).
Definition setSearching x s := Codes (heap s) (redemptions s) (loading s) x (activePage s) (pageSize s) (tokenCount s) (selectedKeys s) (editingRedemption s) (showEdit s) (form s) (outputs s).
Definition setActivePage x s := Codes (heap s) (redemptions s) (loading s) (searching s) x (pageSize s) (tokenCount s) (selectedKeys s) (editingRedemption s) (showEdit s) (form s) (outputs s).
Definition setPageSize x s := Codes (heap s) (redemptions s) (loading s) (searching s) (activePage s) x (tokenCount s) (selectedKeys s) (editingRedemption s) (showEdit s) (form s) (outputs s).
Definition setTokenCount x s := Codes (heap s) (redemptions s) (loading s) (searching s) (activePage s) (pageSize s) x (selectedKeys s) (editingRedemption s) (showEdit s) (form s) (outputs s).
Definition setSelectedKeys x s := Codes (heap s) (redemptions s) (loading s) (searching s) (activePage s) (pageSize s) (tokenCount s) x (editingRedemption s) (showEdit s) (form s) (outputs s).
Definition set_edit r b s := Codes (heap s) (redemptions s) (loading s) (searching s) (activePage s) (pageSize s) (tokenCount s) (selectedKeys s) r b (form s) (outputs s).
Definition set_form x s := Codes (heap s) (redemptions s) (loading s) (searching s) (activePage s) (pageSize s) (tokenCount s) (selectedKeys s) (editingRedemption s) (showEdit s) x (outputs s).
Definition out x s := Codes (heap s) (redemptions s) (loading s) (searching s) (activePage s) (pageSize s) (tokenCount s) (selectedKeys s) (editingRedemption s) (showEdit s) (form s) (outputs s ++ [x]).

Definition init : codes := Codes [] [] true false (int 1) (int LogTables.ITEMS_PER_PAGE) (int 0) [] [($"id", VUndef)] false None [].

Definition UNUSED : Z := 1.
Definition DISABLED : Z := 2.

Definition row_at (s : codes) (r : nat) : object := default [] (heap s !! r).
Definition getFormValues (s : codes) : jsstr := LogTables.form_text (form s) $"searchKeyword".

(** ** Requests *)

(** What follows a page or an action: nothing, the end of the deletion of invalid codes, or the timer
    of a deletion, which knows the number of rows, the page and the size of its render. *)
Inductive after := Nothing | EndInvalid | Timer (rows : nat) (page size : val).

Inductive action := Delete | Enable | Disable.

Inductive request :=
| RPage (search : bool) (url : jsstr) (k : after)
| RManage (record : nat) (id : val) (a : action) (render_rows : list nat) (k : after)
| RInvalid (page size : val)
| RTimer (rows : nat) (page size : val)
| RForget.

Definition load_url (page size : val) : jsstr := $"/api/redemption/?p=" ++ String_val page ++ $"&page_size=" ++ String_val size.
Definition search_url (keyword : jsstr) (size : val) : jsstr := $"/api/redemption/search?keyword=" ++ keyword ++ $"&p=1&page_size=" ++ String_val size.

Definition load (k : after) (page size : val) (s : codes) : codes * list request := (setLoading true s, [RPage false (load_url page size) k]).
Definition loadRedemptions (page size : val) (s : codes) : codes * list request := load Nothing page size s.

(** A search of a render with pages of the size [size]. *)
Definition search (k : after) (size : val) (s : codes) : codes * list request :=
  let keyword := getFormValues s in
  if negb (nonempty keyword) then load k (int 1) size s else (setSearching true s, [RPage true (search_url keyword size) k]).
Definition searchRedemptions (s : codes) : codes * list request := search Nothing (pageSize s) s.

Definition refresh_with (k : after) (page size : val) (s : codes) : codes * list request :=
  if negb (nonempty (getFormValues s)) then load k page size s else search k size s.
Definition refresh (page : val) (s : codes) : codes * list request := refresh_with Nothing page (pageSize s) s.

Definition handlePageChange (page : val) (s : codes) : codes * list request :=
  let s := setActivePage page s in
  if negb (nonempty (getFormValues s)) then loadRedemptions page (pageSize s) s else searchRedemptions s.

(** A search started by the handler still has the size of its render. *)
Definition handlePageSizeChange (size : val) (s : codes) : codes * list request :=
  let s' := setActivePage (int 1) (setPageSize size s) in
  if negb (nonempty (getFormValues s)) then loadRedemptions (int 1) size s' else search Nothing (pageSize s) s'.

Definition manage (k : after) (record : nat) (a : action) (s : codes) : codes * list request :=
  (setLoading true s, [RManage record (fld $"id" (row_at s record)) a (redemptions s) k]).
Definition manageRedemption (record : nat) (a : action) (s : codes) : codes * list request := manage Nothing record a s.

(** The status an action sends. *)
Definition sent_status (a : action) : option Z := match a with Delete => None | Enable => Some UNUSED | Disable => Some DISABLED end.

(** The dialog that deletes a code. *)
Definition handleConfirm (record : nat) (s : codes) : codes * list request :=
  manage (Timer (length (redemptions s)) (activePage s) (pageSize s)) record Delete s.

(** The confirmed deletion of the codes that are no longer valid. *)
Definition batchDeleteRedemptions (s : codes) : codes * list request := (setLoading true s, [RInvalid (activePage s) (pageSize s)]).

Definition removeRecord (key : val) (s : codes) : codes :=
  if is_nullish key then s else
  match list_find (fun r => same_value (fld $"key" (row_at s r)) key = true) (redemptions s) with
  | Some (i, _) => set_rows (heap s) (delete i (redemptions s)) s
  | None => s
  end.

Definition copied_line (o : object) : jsstr := String_val (fld $"name" o) ++ $"    " ++ String_val (fld $"key" o) ++ [10].

(** A number that the comparison [a < b] finds. *)
Definition isExpired (now : num) (o : object) : bool :=
  is_int (fld $"status" o) UNUSED && negb (is_int (fld $"expired_time" o) 0) && nltb (Number_val (fld $"expired_time" o)) (nfloor (ndiv now (of_Z 1000))).
(** A grey row. *)
Definition handleRow (now : num) (o : object) : bool := negb (is_int (fld $"status" o) UNUSED) || isExpired now o.

Section Hook.
Variable t : jsstr -> jsstr.
Variable count_text : val -> jsstr.      (** the notice of the number of codes that were deleted *)

(** The clipboard takes the text, or a dialog shows it. *)
Definition batchCopyRedemptions (s : codes) : codes :=
  match selectedKeys s with
  | [] => out (Error (VStr (t $"请至少选择一个兑换码！"))) s
  | l => out (Copied (concat (map (fun r => copied_line (row_at s r)) l))) s
  end.

Inductive event :=
| Mount | Edit (values : object) | Search | PageChange (page : val) | PageSizeChange (size : val) | Refresh (page : val) | Act (record : nat) (a : action)
| ConfirmDelete (record : nat) | Select (l : list nat) | Copy | DeleteInvalid | Remove (key : val) | OpenEdit (o : object) | CloseEdit.

Definition act (e : event) (s : codes) : codes * list request :=
  match e with
  | Mount => (s, [])
  | Edit f => (set_form (Some f) s, [])
  | Search => searchRedemptions s
  | PageChange p => handlePageChange p s
  | PageSizeChange z => handlePageSizeChange z s
  | Refresh p => refresh p s
  | Act r a => manageRedemption r a s
  | ConfirmDelete r => handleConfirm r s
  | Select l => (setSelectedKeys l s, [])
  | Copy => (batchCopyRedemptions s, [])
  | DeleteInvalid => batchDeleteRedemptions s
  | Remove k => (removeRecord k s, [])
  | OpenEdit o => (set_edit o true s, [])
  | CloseEdit => (set_edit (editingRedemption s) false s, [RForget])
  end.

(** The effect on the first render and on the size of the pages. *)
Definition commit (first : bool) (old : val) (x : codes * list request) : codes * list request :=
  if first || negb (same_value old (pageSize x.1)) then let '(s', rs) := loadRedemptions (int 1) (pageSize x.1) x.1 in (s', x.2 ++ rs) else x.

Definition codes_event (e : event) (s : codes) : codes * list request := commit (match e with Mount => true | _ => false end) (pageSize s) (act e s).

(** ** Answers *)

Definition type_error : output := Error (VStr $"TypeError").

Definition busy (search : bool) (x : bool) (s : codes) : codes := if search then setSearching x s else setLoading x s.

(** The page of an answer: a load takes numbers below 1 for 1, a search falsy ones. *)
Definition page_shown (search : bool) (page : val) : val :=
  if search then or_else page (int 1) else if nleb (Number_val page) n0 then int 1 else page.

(** Something that is no list of objects shows no rows. *)
Definition page_read (search : bool) (data : val) (s : codes) : codes :=
  if is_nullish data then out type_error s else
  let items := match get_any data $"items" with VArr l => default [] (LogTables.objects_of l) | _ => [] end in
  let h := heap s in
  set_rows (h ++ items) (List.seq (length h) (length items)) (setTokenCount (get_any data $"total") (setActivePage (page_shown search (get_any data $"page")) s)).

Definition page_end (search : bool) (k : after) (s : codes) : codes * list request :=
  let s := busy search false s in
  match k with Nothing => (s, []) | EndInvalid => (setLoading false s, []) | Timer n p z => (s, [RTimer n p z]) end.

Definition page_answered (search : bool) (k : after) (a : answer) (s : codes) : codes * list request :=
  page_end search k
    match a with
    | Served data => page_read search data s
    | Refused m => out (Error m) s
    | Failed e => out (Error (get_any e $"message")) (out (Error e) s)
    end.

Definition manage_end (k : after) (s : codes) : codes * list request :=
  let s := setLoading false s in
  match k with Timer _ page size => refresh_with k page size s | _ => (s, []) end.

Definition manage_read (record : nat) (a : action) (render_rows : list nat) (data : val) (s : codes) : codes :=
  let s := out (Success (t $"操作成功完成！")) s in
  match a with
  | Delete => set_rows (heap s) render_rows s
  | _ => if is_nullish data then out type_error s else set_rows (alter (prop_set $"status" (get_any data $"status")) record (heap s)) render_rows s
  end.

Definition manage_answered (record : nat) (a : action) (render_rows : list nat) (k : after) (x : answer) (s : codes) : codes * list request :=
  manage_end k
    match x with
    | Served data => manage_read record a render_rows data s
    | Refused m => out (Error m) s
    | Failed e => out (Error (get_any e $"message")) (out (Error e) s)
    end.

Definition invalid_answered (page size : val) (a : answer) (s : codes) : codes * list request :=
  match a with
  | Served data => refresh_with EndInvalid page size (out (Success (count_text data)) s)
  | Refused m => (setLoading false (out (Error m) s), [])
  | Failed e => (out (Error e) s, [])
  end.

Definition timer_fired (rows : nat) (page size : val) (s : codes) : codes * list request :=
  if (rows =? 0)%nat && nltb n1 (Number_val page) then refresh_with Nothing (VNum (nsub (Number_val page) n1)) size s else (s, []).

Definition codes_answer (r : request) (a : answer) (s : codes) : codes * list request :=
  match r with
  | RPage search _ k => page_answered search k a s
  | RManage r _ ac l k => manage_answered r ac l k a s
  | RInvalid p z => invalid_answered p z a s
  | RTimer n p z => timer_fired n p z s
  | RForget => (set_edit [($"id", VUndef)] (showEdit s) s, [])
  end.

#[global] Instance codes_hook : Hook codes event request := {| on_event := codes_event; on_answer := codes_answer |}.

(** ** Searches *)

(** Only the first page of a search can be shown: every page asks for the first one. *)
Theorem search_pages_unreachable (page : val) (s : codes) :
  nonempty (getFormValues s) = true -> (handlePageChange page s).2 = [RPage true (search_url (getFormValues s) (pageSize s)) Nothing].
Proof.
  intros H. unfold handlePageChange, searchRedemptions, search. change (getFormValues (setActivePage page s)) with (getFormValues s). by rewrite H.
Qed.

(** A change of the size while results of a search are shown asks for the search with the old size
    and for all codes: the answer that comes last is shown. *)
Theorem size_change_asks_twice (size : val) (s : codes) :
  nonempty (getFormValues s) = true -> same_value (pageSize s) size = false ->
  (codes_event (PageSizeChange size) s).2 = [RPage true (search_url (getFormValues s) (pageSize s)) Nothing; RPage false (load_url (int 1) size) Nothing].
Proof.
  intros H N. unfold codes_event. cbn [act]. unfold handlePageSizeChange, search.
  change (getFormValues (setActivePage (int 1) (setPageSize size s))) with (getFormValues s). rewrite H. unfold commit. cbn [negb fst setSearching setActivePage setPageSize pageSize]. by rewrite N.
Qed.

(** ** Busy indicators *)

Definition loads (r : request) : bool := match r with RPage false _ _ | RPage true _ EndInvalid | RManage _ _ _ _ _ | RInvalid _ _ => true | _ => false end.
Definition searches (r : request) : bool := match r with RPage true _ _ => true | _ => false end.

(** Only the request that deletes invalid codes must not be lost. *)
Definition not_lost (r : request) (a : answer) : Prop := match r, a with RInvalid _ _, Failed _ => False | _, _ => True end.

Definition codes_steady (s : codes) (x : codes * list request) : Prop :=
  (loading x.1 = true -> loading s = true \/ (0 < count loads x.2)%nat) /\ (searching x.1 = true -> searching s = true \/ (0 < count searches x.2)%nat).

Lemma codes_steady_same s s' rs : loading s' = loading s -> searching s' = searching s -> codes_steady s (s', rs).
Proof. intros E1 E2. unfold codes_steady. cbn [fst]. rewrite E1, E2. auto. Qed.
Lemma codes_steady_from s s' x : loading s' = loading s -> searching s' = searching s -> codes_steady s' x -> codes_steady s x.
Proof. unfold codes_steady. intros -> ->. auto. Qed.
Lemma codes_steady_load k p z s : codes_steady s (load k p z s).
Proof. split; cbn; [right; unfold count; cbn; lia|auto]. Qed.
Lemma codes_steady_search k z s : codes_steady s (search k z s).
Proof.
  unfold search. destruct (nonempty _); cbn [negb]; [|apply codes_steady_load]. split; cbn; [auto|right; unfold count; cbn; lia].
Qed.
Lemma codes_steady_refresh k p z s : codes_steady s (refresh_with k p z s).
Proof. unfold refresh_with. destruct (nonempty _); cbn [negb]; [apply codes_steady_search|apply codes_steady_load]. Qed.

Lemma codes_steady_act e s : codes_steady s (act e s).
Proof.
  destruct e as [|f| |p|z|p|r a|r|l| | |k|o|]; cbn [act]; try (by apply codes_steady_same).
  - apply codes_steady_search.
  - unfold handlePageChange. cbn zeta. destruct (nonempty _); cbn [negb]; (eapply (codes_steady_from _ (setActivePage p s)); [done|done|]); [apply codes_steady_search|apply codes_steady_load].
  - unfold handlePageSizeChange. cbn zeta. destruct (nonempty _); cbn [negb];
      (eapply (codes_steady_from _ (setActivePage (int 1) (setPageSize z s))); [done|done|]); [apply codes_steady_search|apply codes_steady_load].
  - apply codes_steady_refresh.
  - split; cbn; [right; unfold count; cbn; lia|auto].
  - split; cbn; [right; unfold count; cbn; lia|auto].
  - apply codes_steady_same; unfold batchCopyRedemptions; by destruct (selectedKeys s).
  - split; cbn; [right; unfold count; cbn; lia|auto].
  - apply codes_steady_same; unfold removeRecord; destruct (is_nullish k); try done; by destruct (list_find _ _) as [[]|].
Qed.

Lemma codes_steady_event e s : codes_steady s (codes_event e s).
Proof.
  unfold codes_event, commit. pose proof (codes_steady_act e s) as [A B]. destruct (_ || _); [|by split].
  split; cbn [loadRedemptions load fst snd setLoading loading searching]; rewrite count_app; intros H; [right; unfold count at 2; cbn; lia|].
  destruct (B H); [auto|right; lia].
Qed.

Lemma codes_settle_on r a s : not_lost r a ->
  (loading (codes_answer r a s).1 = true -> loads r = false /\ loading s = true \/ (0 < count loads (codes_answer r a s).2)%nat)
  /\ (searching (codes_answer r a s).1 = true -> searches r = false /\ searching s = true \/ (0 < count searches (codes_answer r a s).2)%nat).
Proof.
  intros W. destruct r as [b u k|rec id ac l k|p z|n p z|]; cbn [codes_answer].
  - unfold page_answered. match goal with |- context [page_end b k ?z] => set (s' := z) end.
    assert (E : loading s' = loading s /\ searching s' = searching s).
    { unfold s'. destruct a as [d|m|e]; [|by split|by split]. unfold page_read. by destruct (is_nullish d). }
    destruct E as [E1 E2]. clearbody s'. destruct b, k; cbn; rewrite ?E1, ?E2; split; intros H; auto; discriminate.
  - unfold manage_answered, manage_end. match goal with |- context [setLoading false ?z] => set (s' := z) end.
    assert (E : searching s' = searching s).
    { unfold s'. destruct a as [d|m|e]; [|done|done]. unfold manage_read. destruct ac; [done|by destruct (is_nullish d)..]. }
    clearbody s'. destruct k as [| |n p z]; try (split; cbn; [discriminate|rewrite E; auto]).
    destruct (codes_steady_refresh (Timer n p z) p z (setLoading false s')) as [A B]. split; intros H.
    + destruct (A H) as [H'|]; [discriminate H'|auto].
    + destruct (B H) as [H'|]; [cbn in H'; left; rewrite <- E; auto|auto].
  - destruct a as [d|m|e]; [|split; cbn; [discriminate|auto]|done]. cbn [invalid_answered]. unfold refresh_with, search.
    destruct (nonempty _); cbn [negb]; split; cbn; intros H; try (right; unfold count; cbn; lia); auto.
  - unfold timer_fired. destruct (_ && _); [|split; auto]. destruct (codes_steady_refresh Nothing (VNum (nsub (Number_val p) n1)) z s) as [A B].
    split; intros H; [destruct (A H)|destruct (B H)]; auto.
  - split; auto.
Qed.

(** As long as the deletion of invalid codes is answered, whatever else fails, nothing is shown as
    loading or searching when nothing is under way. *)
Theorem codes_settle (s : sys codes request) :
  served_reach not_lost (fire Mount (Sys init [])) s -> pending s = [] -> loading (state s) = false /\ searching (state s) = false.
Proof.
  intros R E.
  assert (A : loading (state s) = true -> (0 < count loads (pending s))%nat).
  { apply (indicator_on not_lost loading loads (fire Mount (Sys init []))); [intros e x; apply codes_steady_event|intros r a x W; by apply codes_settle_on| |exact R].
    intros _. unfold count. cbn. lia. }
  assert (B : searching (state s) = true -> (0 < count searches (pending s))%nat).
  { apply (indicator_on not_lost searching searches (fire Mount (Sys init []))); [intros e x; apply codes_steady_event|intros r a x W; by apply codes_settle_on|done|exact R]. }
  rewrite E in A, B. split; apply not_true_is_false; intros H; [apply A in H|apply B in H]; cbn in H; lia.
Qed.

(** ** Actions *)

(** Enabling or disabling a code changes its object in place: every row and every selected row that
    is this code has the new status, all others are as they were. *)
Theorem action_in_place (record : nat) (a : action) (l : list nat) (data : val) (s : codes) (o : object) :
  a <> Delete -> is_nullish data = false -> heap s !! record = Some o ->
  let s' := (manage_answered record a l Nothing (Served data) s).1 in
  fld $"status" (row_at s' record) = get_any data $"status" /\ (forall r, r <> record -> row_at s' r = row_at s r) /\ redemptions s' = l /\ selectedKeys s' = selectedKeys s.
Proof.
  intros Na Nd H. cbn zeta. unfold manage_answered, manage_read. destruct a; [done|rewrite Nd..];
    (split; [unfold row_at; cbn; rewrite list_lookup_alter_eq, H; apply fld_set_eq|]; split; [|by split];
     intros r Hr; unfold row_at; cbn; by rewrite list_lookup_alter_ne).
Qed.

(** After a deletion was served the row is still there until the refresh is answered, and the timer
    never goes back a page. *)
Theorem deleted_code_stays (record : nat) (s : codes) (id : val) (l : list nat) (n : nat) (p z : val) :
  redemptions s <> [] -> (handleConfirm record s).2 = [RManage record id Delete l (Timer n p z)] ->
  l = redemptions s /\ forall a s', codes_answer (RTimer n p z) a s' = (s', []).
Proof. intros N [= _ <- <- _ _]. split; [done|]. intros a s'. cbn. unfold timer_fired. by destruct (redemptions s). Qed.

End Hook.

(** ** Witnesses *)

Definition no_t (s : jsstr) : jsstr := s.
Definition no_count (_ : val) : jsstr := [].
#[local] Instance sample_hook : Hook codes event request := codes_hook no_t no_count.
Definition sample_page : val := VObj [($"items", VArr [VObj [($"id", int 1); ($"name", VStr $"a"); ($"key", VStr $"k1"); ($"status", int 1)]]); ($"page", int 1); ($"total", int 1)].
Definition mounted : sys codes request := fire Mount (Sys init []).
Definition loaded : sys codes request := reply 0 (RPage false (load_url (int 1) (int 10)) Nothing) (Served sample_page) mounted.
Definition disabled : sys codes request :=
  reply 0 (RManage 0 (int 1) Disable [0%nat] Nothing) (Served (VObj [($"status", int 2)])) (fire (Act 0 Disable) (fire (Select [0%nat]) loaded)).

Lemma codes_settle_witness : loading (state loaded) = false /\ searching (state loaded) = false.
Proof.
  apply (codes_settle no_t no_count); [|vm_compute; reflexivity]. apply served_answer; [apply served_start|vm_compute; reflexivity|exact I].
Defined.

Example disabled_in_selection : map (fun r => fld $"status" (row_at (state disabled) r)) (selectedKeys (state disabled)) = [int 2].
Proof. vm_compute. reflexivity. Qed.

End Redemptions.
