(* ===== verification/CustomOAuth.v ===== *)
(** * Custom OAuth providers

    [components/settings/CustomOAuthSetting.jsx]: the list of providers, the dialog that edits one
    with its presets, the issuer address and the discovery of endpoints, as an instance of
    [AsyncHook.Hook].  The values of the dialog are kept twice, by the page and by the form; a change
    in the form is merged into those of the page.  The parser of addresses is a parameter. *)
From Stdlib Require Import SpecFloat.
From S2P Require Import Prelude JSNum JSValue Json FormValues Channels AsyncHook.
#[local] Open Scope Z_scope.
#[local] Arguments js _ : simpl never.

Module CustomOAuth.
Import FormValues AsyncHook.

(** ** Presets *)

Record preset := Preset {
  pname : jsstr; authorization_endpoint : jsstr; token_endpoint : jsstr; user_info_endpoint : jsstr; scopes : jsstr; user_id_field : jsstr;
  username_field : jsstr; display_name_field : jsstr; email_field : jsstr
}.

Definition OAUTH_PRESETS : list (jsstr * preset) :=
  let oidc := $"openid profile email" in
  [($"github-enterprise", Preset $"GitHub Enterprise" $"/login/oauth/authorize" $"/login/oauth/access_token" $"/api/v3/user" $"user:email" $"id" $"login" $"name" $"email");
   ($"gitlab", Preset $"GitLab" $"/oauth/authorize" $"/oauth/token" $"/api/v4/user" oidc $"id" $"username" $"name" $"email");
   ($"gitea", Preset $"Gitea" $"/login/oauth/authorize" $"/login/oauth/access_token" $"/api/v1/user" oidc $"id" $"login" $"full_name" $"email");
   ($"nextcloud", Preset $"Nextcloud" $"/apps/oauth2/authorize" $"/apps/oauth2/api/v1/token" $"/ocs/v2.php/cloud/user?format=json" oidc $"ocs.data.id" $"ocs.data.id" $"ocs.data.displayname" $"ocs.data.email");
   ($"keycloak", Preset $"Keycloak" $"/realms/{realm}/protocol/openid-connect/auth" $"/realms/{realm}/protocol/openid-connect/token" $"/realms/{realm}/protocol/openid-connect/userinfo" oidc $"sub" $"preferred_username" $"name" $"email");
   ($"authentik", Preset $"Authentik" $"/application/o/authorize/" $"/application/o/token/" $"/application/o/userinfo/" oidc $"sub" $"preferred_username" $"name" $"email");
   ($"ory", Preset $"ORY Hydra" $"/oauth2/auth" $"/oauth2/token" $"/userinfo" oidc $"sub" $"preferred_username" $"name" $"email")].

Definition OAUTH_PRESET_ICONS : list (jsstr * jsstr) :=
  [($"github-enterprise", $"github"); ($"gitlab", $"gitlab"); ($"gitea", $"gitea"); ($"nextcloud", $"nextcloud"); ($"keycloak", $"keycloak");
   ($"authentik", $"authentik"); ($"ory", $"openid")].
Definition getPresetIcon (p : jsstr) : jsstr := default [] (prop p OAUTH_PRESET_ICONS).

Definition PRESET_RESET_VALUES : object :=
  let blank := map (fun k => (k, VStr [])) in
  blank [$"name"; $"slug"; $"icon"; $"authorization_endpoint"; $"token_endpoint"; $"user_info_endpoint"; $"scopes"; $"user_id_field"; $"username_field";
         $"display_name_field"; $"email_field"; $"well_known"]
  ++ [($"auth_style", int 0)] ++ blank [$"access_policy"; $"access_denied_message"].

(** The texts of the templates are written with single quotes. *)
Definition quoted (lines : list jsstr) : jsstr := map (fun c => if c =? 39 then 34 else c) (join [10] lines).

Definition ACCESS_POLICY_TEMPLATES : list (jsstr * jsstr) :=
  [($"level_active", quoted [$"{"; $"  'logic': 'and',"; $"  'conditions': ["; $"    {'field': 'trust_level', 'op': 'gte', 'value': 2},";
                             $"    {'field': 'active', 'op': 'eq', 'value': true}"; $"  ]"; $"}"]);
   ($"org_or_role", quoted [$"{"; $"  'logic': 'or',"; $"  'conditions': ["; $"    {'field': 'org', 'op': 'eq', 'value': 'core'},";
                            $"    {'field': 'roles', 'op': 'contains', 'value': 'admin'}"; $"  ]"; $"}"])].

Definition ACCESS_DENIED_TEMPLATES : list (jsstr * jsstr) :=
  [($"level_hint", $"需要等级 {{required}}，你当前等级 {{current}}（字段：{{field}}）");
   ($"org_hint", $"仅限指定组织或角色访问。组织={{current.org}}，角色={{current.roles}}")].

(** ** State *)

Inductive output := Error (v : val) | Success (s : jsstr).

Record discovery := Discovery { wellKnown : jsstr; autoFilledFields : list jsstr; scopesSupported : list val; claimsSupported : list val }.

Record page := Page {
  providers : list val; loading : bool; modalVisible : bool; editingProvider : option object; formValues : object; selectedPreset : jsstr; baseUrl : jsstr;
  discoveryLoading : bool; discoveryInfo : option discovery; advancedActiveKeys : list jsstr; form : option object; outputs : list output
}.

Definition setProviders x s := Page x (loading s) (modalVisible s) (editingProvider s) (formValues s) (selectedPreset s) (baseUrl s) (discoveryLoading s) (discoveryInfo s) (advancedActiveKeys s) (form s) (outputs s).
Definition setLoading x s := Page (providers s) x (modalVisible s) (editingProvider s) (formValues s) (selectedPreset s) (baseUrl s) (discoveryLoading s) (discoveryInfo s) (advancedActiveKeys s) (form s) (outputs s).
Definition setModalVisible x s := Page (providers s) (loading s) x (editingProvider s) (formValues s) (selectedPreset s) (baseUrl s) (discoveryLoading s) (discoveryInfo s) (advancedActiveKeys s) (form s) (outputs s).
Definition setEditingProvider x s := Page (providers s) (loading s) (modalVisible s) x (formValues s) (selectedPreset s) (baseUrl s) (discoveryLoading s) (discoveryInfo s) (advancedActiveKeys s) (form s) (outputs s).
Definition setFormValues x s := Page (providers s) (loading s) (modalVisible s) (editingProvider s) x (selectedPreset s) (baseUrl s) (discoveryLoading s) (discoveryInfo s) (advancedActiveKeys s) (form s) (outputs s).
Definition setSelectedPreset x s := Page (providers s) (loading s) (modalVisible s) (editingProvider s) (formValues s) x (baseUrl s) (discoveryLoading s) (discoveryInfo s) (advancedActiveKeys s) (form s) (outputs s).
Definition setBaseUrl x s := Page (providers s) (loading s) (modalVisible s) (editingProvider s) (formValues s) (selectedPreset s) x (discoveryLoading s) (discoveryInfo s) (advancedActiveKeys s) (form s) (outputs s).
Definition setDiscoveryLoading x s := Page (providers s) (loading s) (modalVisible s) (editingProvider s) (formValues s) (selectedPreset s) (baseUrl s) x (discoveryInfo s) (advancedActiveKeys s) (form s) (outputs s).
Definition setDiscoveryInfo x s := Page (providers s) (loading s) (modalVisible s) (editingProvider s) (formValues s) (selectedPreset s) (baseUrl s) (discoveryLoading s) x (advancedActiveKeys s) (form s) (outputs s).
Definition setAdvancedActiveKeys x s := Page (providers s) (loading s) (modalVisible s) (editingProvider s) (formValues s) (selectedPreset s) (baseUrl s) (discoveryLoading s) (discoveryInfo s) x (form s) (outputs s).
Definition set_form x s := Page (providers s) (loading s) (modalVisible s) (editingProvider s) (formValues s) (selectedPreset s) (baseUrl s) (discoveryLoading s) (discoveryInfo s) (advancedActiveKeys s) x (outputs s).
Definition out x s := Page (providers s) (loading s) (modalVisible s) (editingProvider s) (formValues s) (selectedPreset s) (baseUrl s) (discoveryLoading s) (discoveryInfo s) (advancedActiveKeys s) (form s) (outputs s ++ [x]).

Definition init : page := Page [] false false None [] [] [] false None [] None [].

(** New values for the page and for the form, when there is one. *)
Definition mergeFormValues (new : object) (s : page) : page :=
  let s := setFormValues (prop_assign (formValues s) new) s in
  match form s with Some f => set_form (Some (set_all new f)) s | None => s end.
Definition getLatestFormValues (s : page) : object := default (formValues s) (form s).
(** The form reports a change of its values. *)
Definition onValueChange (s : page) : page := setFormValues (prop_assign (formValues s) (getLatestFormValues s)) s.

Fixpoint skip_slashes (s : jsstr) : jsstr := match s with c :: r => if c =? 47 then skip_slashes r else s | [] => [] end.
(** [(url || '').trim().replace(/\/+$/, '')] *)
Definition normalizeBaseUrl (url : jsstr) : jsstr := rev (skip_slashes (rev (trim url))).

Definition resetDiscoveryState (s : page) : page := setDiscoveryInfo None s.
Definition closeModal (s : page) : page := setAdvancedActiveKeys [] (resetDiscoveryState (setModalVisible false s)).

(** [OAUTH_PRESETS[k]]: names of inherited properties give an object without endpoints. *)
Inductive looked_up := Own (p : preset) | Inherited | Missing.
Definition preset_at (k : jsstr) : looked_up :=
  match prop k OAUTH_PRESETS with Some p => Own p | None => if memk k Channels.Channels.INHERITED then Inherited else Missing end.
(** [cleanUrl + presetConfig.endpoint] *)
Definition endpoints_at (cleanUrl : jsstr) (l : looked_up) : object :=
  let text f := VStr (cleanUrl ++ match l with Own p => f p | _ => $"undefined" end) in
  [($"authorization_endpoint", text authorization_endpoint); ($"token_endpoint", text token_endpoint); ($"user_info_endpoint", text user_info_endpoint)].

(** The values a preset fills in. *)
Definition preset_values (k : jsstr) (p : preset) (cleanUrl : jsstr) : object :=
  let v := set_all [($"name", VStr (pname p)); ($"slug", VStr k); ($"icon", VStr (getPresetIcon k)); ($"scopes", VStr (scopes p));
                    ($"user_id_field", VStr (user_id_field p)); ($"username_field", VStr (username_field p));
                    ($"display_name_field", VStr (display_name_field p)); ($"email_field", VStr (email_field p)); ($"auth_style", int 0)] PRESET_RESET_VALUES in
  if nonempty cleanUrl then set_all (endpoints_at cleanUrl (Own p)) v else v.

(** A choice in the list of presets, [None] for none of them. *)
Definition handlePresetChange (k : option (jsstr * preset)) (s : page) : page :=
  let s' := resetDiscoveryState (setSelectedPreset (match k with Some (k, _) => k | None => [] end) s) in
  match k with
  | None => mergeFormValues PRESET_RESET_VALUES s'
  | Some (k, p) => mergeFormValues (preset_values k p (normalizeBaseUrl (baseUrl s))) s'
  end.

Definition handleBaseUrlChange (url : jsstr) (s : page) : page :=
  let s' := setBaseUrl url s in
  match preset_at (selectedPreset s) with
  | Missing => s'
  | l => if nonempty url && nonempty (selectedPreset s) then mergeFormValues (endpoints_at (normalizeBaseUrl url) l) s' else s'
  end.

Definition add_values : object :=
  [($"enabled", VBool false); ($"icon", VStr []); ($"scopes", VStr $"openid profile email"); ($"user_id_field", VStr $"sub");
   ($"username_field", VStr $"preferred_username"); ($"display_name_field", VStr $"name"); ($"email_field", VStr $"email"); ($"auth_style", int 0);
   ($"access_policy", VStr []); ($"access_denied_message", VStr [])].

Definition handleAdd (s : page) : page :=
  setModalVisible true (setAdvancedActiveKeys [] (resetDiscoveryState (setBaseUrl [] (setSelectedPreset [] (setFormValues add_values (setEditingProvider None s)))))).

Section Hook.
Variable t : jsstr -> jsstr.
(** [`${url.protocol}//${url.host}`] of [new URL(s)], or [None] when that throws. *)
Variable url_origin : val -> option jsstr.

Definition inferBaseUrlFromProvider (provider : object) : jsstr :=
  let endpoint := or_else (fld $"authorization_endpoint" provider) (fld $"token_endpoint" provider) in
  if truthy endpoint then default [] (url_origin endpoint) else [].

Definition handleEdit (provider : object) (s : page) : page :=
  let slug := String_val (fld $"slug" provider) in
  setModalVisible true (setAdvancedActiveKeys [] (resetDiscoveryState (setBaseUrl (inferBaseUrlFromProvider provider)
    (setSelectedPreset (match preset_at slug with Missing => [] | _ => slug end) (setFormValues provider (setEditingProvider (Some provider) s)))))).

Definition applyAccessPolicyTemplate (k : jsstr) (s : page) : page :=
  match prop k ACCESS_POLICY_TEMPLATES with
  | Some x => out (Success (t $"已填充策略模板")) (mergeFormValues [($"access_policy", VStr x)] s)
  | None => s
  end.
Definition applyDeniedTemplate (k : jsstr) (s : page) : page :=
  match prop k ACCESS_DENIED_TEMPLATES with
  | Some x => out (Success (t $"已填充提示模板")) (mergeFormValues [($"access_denied_message", VStr x)] s)
  | None => s
  end.

(** ** Requests *)

Inductive request := RList | RDelete (id : val) | RSave (id : option val) (payload : object) | RDiscover (configured issuer url : jsstr) (render_values : object).

Definition fetchProviders (s : page) : page * list request := (setLoading true s, [RList]).

Definition required_fields (editing : bool) : list jsstr :=
  [$"name"; $"slug"; $"client_id"; $"authorization_endpoint"; $"token_endpoint"; $"user_info_endpoint"] ++ (if editing then [] else [$"client_secret"]).
Definition endpoint_fields : list jsstr := [$"authorization_endpoint"; $"token_endpoint"; $"user_info_endpoint"].

Definition missing_field (editing : bool) (v : object) : option jsstr := List.find (fun k => negb (truthy (fld k v))) (required_fields editing).
Definition absolute (v : val) : outcome bool := bind_outcome (as_string v) (fun s => Ret (startsWith $"http://" s || startsWith $"https://" s)).
Fixpoint all_absolute (ks : list jsstr) (v : object) : outcome bool :=
  match ks with
  | [] => Ret true
  | k :: ks => if truthy (fld k v) then bind_outcome (absolute (fld k v)) (fun b => if b then all_absolute ks v else Ret false) else all_absolute ks v
  end.

Definition payload_of (v : object) : object := delete_all [$"preset"; $"base_url"] (prop_set $"enabled" (VBool (truthy (fld $"enabled" v))) v).

Definition handleSubmit (s : page) : page * list request :=
  let v := getLatestFormValues s in
  let editing := match editingProvider s with Some _ => true | None => false end in
  match missing_field editing v with
  | Some k => (out (Error (VStr (t ($"请填写 " ++ k)))) s, [])
  | None =>
    match all_absolute endpoint_fields v with
    | Throw => (s, [])
    | Ret false =>
      (out (Error (VStr (t (if nonempty (selectedPreset s) && negb (nonempty (baseUrl s)) then $"请先填写 Issuer URL，以自动生成完整的端点 URL"
                            else $"端点 URL 必须是完整地址（以 http:// 或 https:// 开头）")))) s, [])
    | Ret true => (s, [RSave (option_map (fld $"id") (editingProvider s)) (payload_of v)])
    end
  end.

(** A value that is no text throws. *)
Definition handleFetchFromDiscovery (s : page) : page * list request :=
  let clean := normalizeBaseUrl (baseUrl s) in
  match string_or_empty (fld $"well_known" (formValues s)) with
  | Throw => (s, [])
  | Ret w =>
    let url := if nonempty (trim w) then trim w else if nonempty clean then clean ++ $"/.well-known/openid-configuration" else [] in
    if nonempty url then (setDiscoveryLoading true s, [RDiscover (trim w) clean url (formValues s)]) else (out (Error (VStr (t $"请先填写 Discovery URL 或 Issuer URL"))) s, [])
  end.

Inductive event :=
| Mount | Add | Edit (provider : object) | Delete (id : val) | Submit | Discover | ChoosePreset (k : nat) | TypeUrl (url : jsstr) | FormReady (values : object)
| FormChanged (values : object) | Enable (b : bool) | Policy (k : jsstr) | Denied (k : jsstr) | TypePolicy (v : val) | TypeDenied (v : val)
| Advanced (keys : list jsstr) | Close.

Definition oauth_event (e : event) (s : page) : page * list request :=
  match e with
  | Mount => fetchProviders s
  | Add => (handleAdd s, [])
  | Edit p => (handleEdit p s, [])
  | Delete id => (s, [RDelete id])
  | Submit => handleSubmit s
  | Discover => handleFetchFromDiscovery s
  | ChoosePreset k => (handlePresetChange (OAUTH_PRESETS !! k) s, [])
  | TypeUrl u => (handleBaseUrlChange u s, [])
  | FormReady f => (set_form (Some f) s, [])
  | FormChanged f => (onValueChange (set_form (Some f) s), [])
  | Enable b => (mergeFormValues [($"enabled", VBool b)] s, [])
  | Policy k => (applyAccessPolicyTemplate k s, [])
  | Denied k => (applyDeniedTemplate k s, [])
  | TypePolicy v => (mergeFormValues [($"access_policy", v)] s, [])
  | TypeDenied v => (mergeFormValues [($"access_denied_message", v)] s, [])
  | Advanced l => (setAdvancedActiveKeys (List.filter nonempty l) s, [])
  | Close => (closeModal s, [])
  end.

(** ** Answers *)

(** The items of an array; anything else has none. *)
Definition array_of (v : val) : list val := match v with VArr l => l | _ => [] end.

Definition list_answered (a : answer) (s : page) : page :=
  setLoading false
    match a with
    | Served data => setProviders (array_of data) s
    | Refused m => out (Error m) s
    | Failed e => out (Error (VStr (t $"获取自定义 OAuth 提供商列表失败"))) (out (Error e) s)
    end.

Definition delete_answered (a : answer) (s : page) : page * list request :=
  match a with
  | Served _ => fetchProviders (out (Success (t $"删除成功")) s)
  | Refused m => (out (Error m) s, [])
  | Failed e => (out (Error (VStr (t $"删除失败"))) (out (Error e) s), [])
  end.

Definition save_answered (editing : bool) (a : answer) (s : page) : page * list request :=
  match a with
  | Served _ => fetchProviders (closeModal (out (Success (t (if editing then $"更新成功" else $"创建成功"))) s))
  | Refused m => (out (Error m) s, [])
  | Failed e =>
    (out (Error (or_else (get_any (get_any (get_any e $"response") $"data") $"message") (VStr (t (if editing then $"更新失败" else $"创建失败"))))) (out (Error e) s), [])
  end.

(** *** Discovery *)

Definition join_words (l : list val) : jsstr := join $" " (map (fun v => if is_nullish v then [] else String_val v) l).

Definition found_endpoints (data : val) : object :=
  let pick k claim := if truthy (get_any data claim) then [(k, get_any data claim)] else [] in
  pick $"authorization_endpoint" $"authorization_endpoint" ++ pick $"token_endpoint" $"token_endpoint" ++ pick $"user_info_endpoint" $"userinfo_endpoint".

Definition found_scopes (values : object) (supported : list val) : object :=
  match supported with
  | [] => []
  | _ =>
    if truthy (fld $"scopes" values) then [] else
    let preferred := List.filter (fun x => existsb (fun v => eq_str v x) supported) [$"openid"; $"profile"; $"email"] in
    [($"scopes", VStr (match preferred with [] => join_words (take 5 supported) | _ => join $" " preferred end))]
  end.

Definition claimMap : list (jsstr * jsstr) :=
  [($"user_id_field", $"sub"); ($"username_field", $"preferred_username"); ($"display_name_field", $"name"); ($"email_field", $"email")].
Definition found_claims (values : object) (supported : list val) : object :=
  flat_map (fun fc => if negb (truthy (fld fc.1 values)) && existsb (fun v => eq_str v fc.2) supported then [(fc.1, VStr fc.2)] else []) claimMap.

Definition discovery_failed (message : val) (s : page) : page :=
  out (Error (VStr (t $"获取 Discovery 配置失败：" ++ String_val (or_else message (VStr (t $"未知错误")))))) s.

Definition discovered (url : jsstr) (values : object) (answer_data : val) (s : page) : page :=
  let data := or_else (get_any answer_data $"discovery") (VObj []) in
  let ends := found_endpoints data in
  let scopes_ := array_of (get_any data $"scopes_supported") in
  let claims := array_of (get_any data $"claims_supported") in
  let filled := ends ++ found_scopes values scopes_ ++ found_claims values claims in
  match ends with
  | [] => out (Error (VStr (t $"未在 Discovery 响应中找到可用的 OAuth 端点"))) s
  | _ =>
    let s := mergeFormValues (($"well_known", or_else (get_any answer_data $"well_known_url") (VStr url)) :: filled) s in
    out (Success (t $"已从 Discovery 自动填充配置")) (setDiscoveryInfo (Some (Discovery url (keys filled) (take 12 scopes_) (take 12 claims))) s)
  end.

Definition discovery_answered (url : jsstr) (values : object) (a : answer) (s : page) : page :=
  setDiscoveryLoading false
    match a with
    | Served data => discovered url values data s
    | Refused m => discovery_failed (or_else m (VStr (t $"未知错误"))) s
    | Failed e => discovery_failed (get_any e $"message") (out (Error e) s)
    end.

Definition oauth_answer (r : request) (a : answer) (s : page) : page * list request :=
  match r with
  | RList => (list_answered a s, [])
  | RDelete _ => delete_answered a s
  | RSave id _ => save_answered (match id with Some _ => true | None => false end) a s
  | RDiscover _ _ url values => (discovery_answered url values a s, [])
  end.

#[global] Instance oauth_hook : Hook page event request := {| on_event := oauth_event; on_answer := oauth_answer |}.

(** ** Values of the dialog *)

Lemma merged_values new s k : NoDup (keys new) ->
  prop k (formValues (mergeFormValues new s)) = match prop k new with Some v => Some v | None => prop k (formValues s) end.
Proof. intros N. rewrite <- (prop_assign_lookup _ _ _ N). unfold mergeFormValues. by destruct (form (setFormValues _ s)). Qed.

Lemma merged_latest new s k : NoDup (keys new) ->
  prop k (getLatestFormValues (mergeFormValues new s)) = match prop k new with Some v => Some v | None => prop k (getLatestFormValues s) end.
Proof.
  intros N. unfold getLatestFormValues, mergeFormValues. change (form (setFormValues (prop_assign (formValues s) new) s)) with (form s).
  destruct (form s) as [f|] eqn:E; cbn [form set_form default]; [by rewrite <- (prop_assign_lookup _ _ _ N)|].
  change (form (setFormValues (prop_assign (formValues s) new) s)) with (form s). rewrite E. cbn. by rewrite <- (prop_assign_lookup _ _ _ N).
Qed.

Lemma merged_other new s : selectedPreset (mergeFormValues new s) = selectedPreset s /\ baseUrl (mergeFormValues new s) = baseUrl s
  /\ loading (mergeFormValues new s) = loading s /\ discoveryLoading (mergeFormValues new s) = discoveryLoading s.
Proof. unfold mergeFormValues. by destruct (form (setFormValues _ s)). Qed.

Lemma set_all_lookup l (o : object) k : NoDup (keys l) -> prop k (set_all l o) = match prop k l with Some v => Some v | None => prop k o end.
Proof. intros N. rewrite <- (prop_assign_lookup _ _ _ N). reflexivity. Qed.

Lemma endpoint_keys c l : keys (endpoints_at c l) = endpoint_fields.
Proof. reflexivity. Qed.
Lemma endpoints_NoDup c l : NoDup (keys (endpoints_at c l)).
Proof. rewrite endpoint_keys. apply (bool_decide_unpack _). vm_compute. exact I. Qed.
Lemma endpoints_none f c l c' l' : prop f (endpoints_at c l) = None -> prop f (endpoints_at c' l') = None.
Proof. rewrite !prop_None, !endpoint_keys. done. Qed.

Lemma preset_NoDup k p c : NoDup (keys (preset_values k p c)).
Proof.
  assert (R : NoDup (keys PRESET_RESET_VALUES)) by (apply (bool_decide_unpack _); vm_compute; exact I).
  unfold preset_values. destruct (nonempty c); repeat apply (prop_assign_NoDup (V := val)); exact R.
Qed.

(** The endpoints of a preset are those at the address, everything else does not depend on it. *)
Lemma preset_lookup k p c f :
  prop f (preset_values k p c) = match (if nonempty c then prop f (endpoints_at c (Own p)) else None) with Some v => Some v | None => prop f (preset_values k p []) end.
Proof.
  unfold preset_values. destruct (nonempty c); [|done]. cbn [nonempty]. by rewrite set_all_lookup by apply endpoints_NoDup.
Qed.

Lemma url_values u s f : prop f (endpoints_at [] Missing) = None ->
  prop f (formValues (handleBaseUrlChange u s)) = prop f (formValues s)
  /\ prop f (getLatestFormValues (handleBaseUrlChange u s)) = prop f (getLatestFormValues s).
Proof.
  intros N. unfold handleBaseUrlChange.
  assert (M : forall l, prop f (formValues (mergeFormValues (endpoints_at (normalizeBaseUrl u) l) (setBaseUrl u s))) = prop f (formValues s)
    /\ prop f (getLatestFormValues (mergeFormValues (endpoints_at (normalizeBaseUrl u) l) (setBaseUrl u s))) = prop f (getLatestFormValues s)).
  { intros l. rewrite merged_values, merged_latest by apply endpoints_NoDup. by rewrite (endpoints_none f _ _ _ _ N). }
  destruct (preset_at (selectedPreset s)); [destruct (_ && _)|destruct (_ && _)|]; auto.
Qed.

Lemma url_typed u s : baseUrl (handleBaseUrlChange u s) = u.
Proof.
  unfold handleBaseUrlChange. destruct (preset_at (selectedPreset s)); [destruct (_ && _)|destruct (_ && _)|]; try done;
    (etransitivity; [apply merged_other|done]).
Qed.

Lemma own_preset i k p : OAUTH_PRESETS !! i = Some (k, p) -> preset_at k = Own p /\ nonempty k = true.
Proof.
  intros H%list_elem_of_lookup_2. split.
  - unfold preset_at. rewrite (prop_NoDup_elem k p OAUTH_PRESETS); [done|apply (bool_decide_unpack _); vm_compute; exact I|done].
  - assert (F : forallb (fun kp => nonempty kp.1) OAUTH_PRESETS = true) by (vm_compute; reflexivity). rewrite forallb_forall in F. by apply list_elem_of_In, F in H.
Qed.

(** C40: it makes no difference whether a preset is chosen before or after the address of the issuer is
    typed: the dialog has the same values, and the endpoints are those of the preset at the
    address. *)
Theorem preset_url_commute (i : nat) (k : jsstr) (p : preset) (u : jsstr) (s : page) :
  OAUTH_PRESETS !! i = Some (k, p) -> nonempty u = true -> nonempty (normalizeBaseUrl u) = true ->
  let s1 := (oauth_event (TypeUrl u) (oauth_event (ChoosePreset i) s).1).1 in
  let s2 := (oauth_event (ChoosePreset i) (oauth_event (TypeUrl u) s).1).1 in
  selectedPreset s1 = selectedPreset s2 /\ baseUrl s1 = baseUrl s2
  /\ (forall f, prop f (formValues s1) = prop f (formValues s2) /\ prop f (getLatestFormValues s1) = prop f (getLatestFormValues s2))
  /\ (forall f, f ∈ endpoint_fields -> prop f (getLatestFormValues s1) = prop f (endpoints_at (normalizeBaseUrl u) (Own p))).
Proof.
  intros Hi Hu Hn. cbn [oauth_event fst]. rewrite Hi. cbn zeta.
  destruct (own_preset i k p Hi) as [Hp Hk].
  set (a := handlePresetChange (Some (k, p)) s).
  assert (A : selectedPreset a = k) by (unfold a, handlePresetChange; apply merged_other).
  assert (S1 : handleBaseUrlChange u a = mergeFormValues (endpoints_at (normalizeBaseUrl u) (Own p)) (setBaseUrl u a)) by (unfold handleBaseUrlChange; by rewrite A, Hp, Hu, Hk).
  rewrite S1. set (b := handleBaseUrlChange u s).
  assert (B : baseUrl b = u) by apply url_typed.
  assert (S2 : handlePresetChange (Some (k, p)) b = mergeFormValues (preset_values k p (normalizeBaseUrl u)) (resetDiscoveryState (setSelectedPreset k b)))
    by (unfold handlePresetChange; by rewrite B).
  rewrite S2. destruct (merged_other (endpoints_at (normalizeBaseUrl u) (Own p)) (setBaseUrl u a)) as (O1 & O2 & _).
  destruct (merged_other (preset_values k p (normalizeBaseUrl u)) (resetDiscoveryState (setSelectedPreset k b))) as (O3 & O4 & _).
  split; [rewrite O1, O3; exact A|]. split; [rewrite O2, O4; by rewrite <- B|]. split.
  - intros f. rewrite !merged_values, !merged_latest by (apply endpoints_NoDup || apply preset_NoDup). rewrite (preset_lookup k p (normalizeBaseUrl u) f), Hn.
    destruct (prop f (endpoints_at (normalizeBaseUrl u) (Own p))) as [v|] eqn:E; [done|].
    assert (F : forall g : page -> object, (g (setBaseUrl u a) = g a) -> (prop f (g a) = match prop f (preset_values k p (normalizeBaseUrl (baseUrl s))) with Some v => Some v | None => prop f (g s) end) ->
      prop f (g (setBaseUrl u a)) = match prop f (preset_values k p []) with Some v => Some v | None => prop f (g s) end).
    { intros g -> ->. rewrite (preset_lookup k p (normalizeBaseUrl (baseUrl s)) f). destruct (nonempty (normalizeBaseUrl (baseUrl s))); [|done]. by rewrite (endpoints_none f _ _ _ _ E). }
    destruct (url_values u s f (endpoints_none f _ _ _ _ E)) as [V1 V2]. fold b in V1, V2.
    split.
    + rewrite (F formValues eq_refl); [|etransitivity; [apply (merged_values (preset_values k p (normalizeBaseUrl (baseUrl s)))), preset_NoDup|reflexivity]]. change (formValues (resetDiscoveryState (setSelectedPreset k b))) with (formValues b). by rewrite V1.
    + rewrite (F getLatestFormValues eq_refl); [|etransitivity; [apply (merged_latest (preset_values k p (normalizeBaseUrl (baseUrl s)))), preset_NoDup|reflexivity]].
      change (getLatestFormValues (resetDiscoveryState (setSelectedPreset k b))) with (getLatestFormValues b). by rewrite V2.
  - intros f Hf. rewrite merged_latest by apply endpoints_NoDup. destruct (prop f _) eqn:E; [done|]. apply prop_None in E. by rewrite endpoint_keys in E.
Qed.

(** ** Saving *)

Lemma all_absolute_spec ks v : all_absolute ks v = Ret true ->
  forall k, k ∈ ks -> truthy (fld k v) = true -> exists x, fld k v = VStr x /\ (startsWith $"http://" x || startsWith $"https://" x) = true.
Proof.
  induction ks as [|k ks IH]; intros H k' Hk T; [by apply elem_of_nil in Hk|]. cbn [all_absolute] in H. apply elem_of_cons in Hk as [->|Hk].
  - rewrite T in H. destruct (fld k v) as [| | | |x| |]; try discriminate H. cbn [absolute as_string bind_outcome] in H. exists x. split; [done|]. by destruct (_ || _).
  - apply IH; try done. destruct (truthy (fld k v)); [|done]. destruct (absolute (fld k v)) as [[]|]; try discriminate H. exact H.
Qed.

Lemma payload_field k v : k <> $"preset" -> k <> $"base_url" -> k <> $"enabled" -> fld k (payload_of v) = fld k v.
Proof.
  intros N1 N2 N3. apply fld_of_prop. unfold payload_of. rewrite delete_all_lookup, prop_set_ne by done. cbn [existsb].
  destruct (str_eqb_spec k $"preset"); [done|]. by destruct (str_eqb_spec k $"base_url").
Qed.

Lemma required_names editing k : k ∈ required_fields editing -> k <> $"preset" /\ k <> $"base_url" /\ k <> $"enabled".
Proof.
  intros H. assert (F : forallb (fun k => negb (memk k [$"preset"; $"base_url"; $"enabled"])) (required_fields false) = true) by (vm_compute; reflexivity).
  rewrite forallb_forall in F. assert (I : In k (required_fields false)) by (apply list_elem_of_In; destruct editing; [|done]; unfold required_fields in *; set_solver).
  apply F, negb_true_iff, memk_false in I. set_solver.
Qed.

(** C29: what is sent when a provider is saved is complete: every required field is filled in,
    the secret only for a new provider, the endpoints are absolute addresses, [enabled] is a boolean and the
    fields that belong to the dialog only are left out. *)
Theorem saved_provider_complete (s : page) (id : option val) (payload : object) :
  RSave id payload ∈ (handleSubmit s).2 ->
  (forall k, k ∈ required_fields (match editingProvider s with Some _ => true | None => false end) -> truthy (fld k payload) = true)
  /\ (forall k, k ∈ endpoint_fields -> exists x, fld k payload = VStr x /\ (startsWith $"http://" x || startsWith $"https://" x) = true)
  /\ (exists b, fld $"enabled" payload = VBool b) /\ prop $"preset" payload = None /\ prop $"base_url" payload = None
  /\ (forall k, k <> $"preset" -> k <> $"base_url" -> k <> $"enabled" -> fld k payload = fld k (getLatestFormValues s)).
Proof.
  unfold handleSubmit. set (v := getLatestFormValues s). set (ed := match editingProvider s with Some _ => true | None => false end).
  destruct (missing_field ed v) as [k|] eqn:M; [intros H; by apply elem_of_nil in H|].
  destruct (all_absolute endpoint_fields v) as [[]|] eqn:A; [|intros H; by apply elem_of_nil in H..]. intros H. apply list_elem_of_singleton in H as [= -> ->].
  assert (Req : forall k, k ∈ required_fields ed -> truthy (fld k (payload_of v)) = true).
  { intros k Hk. destruct (required_names ed k Hk) as (N1 & N2 & N3). rewrite payload_field by done. unfold missing_field in M.
    apply list_elem_of_In in Hk. pose proof (List.find_none _ _ M k Hk) as E. by apply negb_false_iff in E. }
  split; [exact Req|]. split.
  - intros k Hk. assert (Hr : k ∈ required_fields ed) by (unfold required_fields; unfold endpoint_fields in Hk; set_solver).
    destruct (required_names ed k Hr) as (N1 & N2 & N3). pose proof (Req k Hr) as T. rewrite payload_field in T |- * by done. by apply (all_absolute_spec endpoint_fields).
  - split.
    + exists (truthy (fld $"enabled" v)). transitivity (fld $"enabled" (prop_set $"enabled" (VBool (truthy (fld $"enabled" v))) v)); [|apply fld_set_eq].
      apply fld_of_prop. unfold payload_of. by rewrite delete_all_lookup.
    + split; [unfold payload_of; by rewrite delete_all_lookup|]. split; [unfold payload_of; by rewrite delete_all_lookup|]. intros k N1 N2 N3. by apply payload_field.
Qed.

(** ** Discovery *)

Definition gap_fields : list jsstr := $"scopes" :: map fst claimMap.

Lemma keys_when (b : bool) (k : jsstr) (v : val) : keys (if b then [(k, v)] else []) `sublist_of` [k].
Proof. destruct b; cbn; [done|apply sublist_nil_l]. Qed.

Lemma scopes_keys values l : keys (found_scopes values l) `sublist_of` [$"scopes"].
Proof. unfold found_scopes. destruct l; [apply sublist_nil_l|]. destruct (truthy _); [apply sublist_nil_l|done]. Qed.

Lemma found_NoDup data values scs cls url : NoDup (keys (($"well_known", url) :: found_endpoints data ++ found_scopes values scs ++ found_claims values cls)).
Proof.
  assert (N : NoDup ($"well_known" :: endpoint_fields ++ [$"scopes"] ++ map fst claimMap)) by (apply (bool_decide_unpack _); vm_compute; exact I).
  eapply sublist_NoDup; [exact N|].
  unfold keys at 1. cbn [map fst]. apply sublist_skip. fold (keys (V := val)). unfold keys. rewrite !map_app. apply sublist_app; [|apply sublist_app; [apply scopes_keys|]].
  - unfold found_endpoints. rewrite !map_app. change endpoint_fields with ([$"authorization_endpoint"] ++ [$"token_endpoint"] ++ [$"user_info_endpoint"]).
    repeat apply sublist_app; apply keys_when.
  - change (map fst claimMap)
      with ([$"user_id_field"] ++ [$"username_field"] ++ [$"display_name_field"] ++ [$"email_field"] ++ []).
    unfold found_claims. cbn [claimMap flat_map fst snd]. rewrite !map_app.
    repeat (apply sublist_app; [apply keys_when|]). apply sublist_nil_l.
Qed.

Lemma elem_when (b : bool) (k k' : jsstr) (v v' : val) : (k, v) ∈ (if b then [(k', v')] else []) -> b = true /\ k = k' /\ v = v'.
Proof. destruct b; intros H; [by apply list_elem_of_singleton in H as [= -> ->]|by apply elem_of_nil in H]. Qed.

Lemma found_endpoint data k v : (k, v) ∈ found_endpoints data -> k ∈ endpoint_fields /\ truthy v = true.
Proof.
  unfold found_endpoints. rewrite !elem_of_app. unfold endpoint_fields.
  intros [H|[H|H]]; apply elem_when in H as (T & -> & ->); (split; [set_solver|exact T]).
Qed.

Lemma found_gap values scs cls k v : (k, v) ∈ found_scopes values scs ++ found_claims values cls -> k ∈ gap_fields /\ truthy (fld k values) = false.
Proof.
  intros [H|H]%elem_of_app.
  - unfold found_scopes in H. destruct scs; [by apply elem_of_nil in H|]. destruct (truthy (fld $"scopes" values)) eqn:T; [by apply elem_of_nil in H|].
    apply list_elem_of_singleton in H as [= -> _]. split; [apply list_elem_of_here|exact T].
  - unfold found_claims in H. apply list_elem_of_In, in_flat_map in H as ([f c] & I & H). apply list_elem_of_In, elem_when in H as (T & -> & _). cbn [fst snd] in *.
    apply andb_true_iff in T as [T _]. split; [apply list_elem_of_further, list_elem_of_In, (in_map fst _ _ I)|by apply negb_true_iff].
Qed.

(** A discovery changes the endpoints it found, the address it was read from, and of the other fields
    only those of the scopes and claims that were empty when it was asked for; endpoints are
    never emptied, and without any endpoint nothing changes. *)
Theorem discovery_fills_gaps (configured issuer url : jsstr) (values : object) (data : val) (s : page) (k : jsstr) :
  let s' := (oauth_answer (RDiscover configured issuer url values) (Served data) s).1 in
  (found_endpoints (or_else (get_any data $"discovery") (VObj [])) = [] -> formValues s' = formValues s)
  /\ (prop k (formValues s') = prop k (formValues s)
      \/ exists v, prop k (formValues s') = Some v
         /\ (k = $"well_known" \/ (k ∈ endpoint_fields /\ truthy v = true) \/ (k ∈ gap_fields /\ truthy (fld k values) = false))).
Proof.
  cbn zeta. cbn [oauth_answer fst]. unfold discovery_answered, discovered. set (d := or_else (get_any data $"discovery") (VObj [])).
  set (scs := array_of (get_any d $"scopes_supported")). set (cls := array_of (get_any d $"claims_supported")).
  destruct (found_endpoints d) as [|e l] eqn:E; [split; [intros _; reflexivity|left; reflexivity]|]. split; [discriminate|].
  set (w := or_else (get_any data $"well_known_url") (VStr url)).
  change (formValues (setDiscoveryLoading false (out (Success (t $"已从 Discovery 自动填充配置"))
    (setDiscoveryInfo (Some (Discovery url (keys ((e :: l) ++ found_scopes values scs ++ found_claims values cls)) (take 12 scs) (take 12 cls)))
      (mergeFormValues (($"well_known", w) :: (e :: l) ++ found_scopes values scs ++ found_claims values cls) s)))))
    with (formValues (mergeFormValues (($"well_known", w) :: (e :: l) ++ found_scopes values scs ++ found_claims values cls) s)).
  rewrite <- E. rewrite merged_values by apply found_NoDup. destruct (prop k _) as [v|] eqn:Pk; [|by left]. right. exists v. split; [done|].
  apply prop_elem in Pk. apply elem_of_cons in Pk as [[= -> _]|Pk]; [by left|]. right. apply elem_of_app in Pk as [Pk|Pk]; [left; by eapply found_endpoint|right; by eapply found_gap].
Qed.

(** ** Indicators *)

Definition lists (r : request) : bool := match r with RList => true | _ => false end.
Definition discovers (r : request) : bool := match r with RDiscover _ _ _ _ => true | _ => false end.

Lemma merged_flags new s : loading (mergeFormValues new s) = loading s /\ discoveryLoading (mergeFormValues new s) = discoveryLoading s.
Proof. split; apply merged_other. Qed.

Lemma indicator_event e s :
  (loading (oauth_event e s).1 = true -> loading s = true \/ (0 < count lists (oauth_event e s).2)%nat)
  /\ (discoveryLoading (oauth_event e s).1 = true -> discoveryLoading s = true \/ (0 < count discovers (oauth_event e s).2)%nat).
Proof.
  assert (M : forall new s', loading s' = loading s -> discoveryLoading s' = discoveryLoading s ->
    (loading (mergeFormValues new s') = true -> loading s = true \/ (0 < 0)%nat) /\ (discoveryLoading (mergeFormValues new s') = true -> discoveryLoading s = true \/ (0 < 0)%nat)).
  { intros new s' E1 E2. destruct (merged_flags new s') as [-> ->]. rewrite E1, E2. auto. }
  destruct e as [| |p|id| | |i|u|f|f|b|k|k|v|v|l|]; cbn [oauth_event fst snd]; try (split; auto; fail); try (by apply M).
  - unfold handleSubmit. destruct (missing_field _ _); [split; auto|]. destruct (all_absolute _ _) as [[]|]; split; auto.
  - unfold handleFetchFromDiscovery. destruct (string_or_empty _) as [w|]; [|split; auto]. cbn zeta. destruct (nonempty _); cbn; split; auto.
  - unfold handlePresetChange. destruct (OAUTH_PRESETS !! i) as [[]|]; by apply M.
  - unfold handleBaseUrlChange. destruct (preset_at _); [destruct (_ && _)|destruct (_ && _)|]; try (by apply M); split; auto.
  - unfold applyAccessPolicyTemplate. destruct (prop k _); [by apply M|split; auto].
  - unfold applyDeniedTemplate. destruct (prop k _); [by apply M|split; auto].
Qed.

Lemma indicator_answer r a s :
  (loading (oauth_answer r a s).1 = true -> lists r = false /\ loading s = true \/ (0 < count lists (oauth_answer r a s).2)%nat)
  /\ (discoveryLoading (oauth_answer r a s).1 = true -> discovers r = false /\ discoveryLoading s = true \/ (0 < count discovers (oauth_answer r a s).2)%nat).
Proof.
  destruct r as [|id|id p|c i u v]; cbn [oauth_answer].
  - destruct a; split; cbn; try discriminate; auto.
  - destruct a; split; cbn; auto; right; unfold count; cbn; lia.
  - destruct a; split; cbn; auto; right; unfold count; cbn; lia.
  - split; [|discriminate]. intros H. left. split; [done|]. rewrite <- H. symmetry. destruct a as [d|m|e]; [|reflexivity..]. cbn [fst].
    unfold discovery_answered, discovered. destruct (found_endpoints _); [reflexivity|]. apply merged_flags.
Qed.

(** Whatever fails, the page shows that it loads or discovers only while a request for that is under
    way. *)
Theorem oauth_settles (s : sys page request) :
  served_reach (fun _ _ => True) (Sys init []) s ->
  (loading (state s) = true -> (0 < count lists (pending s))%nat) /\ (discoveryLoading (state s) = true -> (0 < count discovers (pending s))%nat).
Proof.
  intros R. split.
  - apply (indicator_on (fun _ _ => True) loading lists (Sys init [])); [intros e x; apply indicator_event|intros r a x _; apply indicator_answer|discriminate|exact R].
  - apply (indicator_on (fun _ _ => True) discoveryLoading discovers (Sys init [])); [intros e x; apply indicator_event|intros r a x _; apply indicator_answer|discriminate|exact R].
Qed.

(** ** Presets of inherited names *)

(** A provider whose slug is the name of an inherited property is taken for one with a preset:
    typing an address replaces its endpoints by addresses that end in undefined. *)
Theorem inherited_slug_endpoints (provider : object) (k u : jsstr) (s : page) :
  fld $"slug" provider = VStr k -> k ∈ Channels.Channels.INHERITED -> nonempty u = true ->
  prop $"token_endpoint" (formValues (handleBaseUrlChange u (handleEdit provider s))) = Some (VStr (normalizeBaseUrl u ++ $"undefined")).
Proof.
  intros Hs Hk Hu. assert (P : preset_at k = Inherited /\ nonempty k = true).
  { assert (F : forallb (fun k => match preset_at k with Inherited => nonempty k | _ => false end) Channels.Channels.INHERITED = true) by (vm_compute; reflexivity).
    rewrite forallb_forall in F. apply list_elem_of_In, F in Hk. by destruct (preset_at k). }
  destruct P as [P N]. unfold handleEdit. rewrite Hs. cbn [String_val]. rewrite P. unfold handleBaseUrlChange. cbn [selectedPreset setModalVisible setAdvancedActiveKeys resetDiscoveryState setDiscoveryInfo setBaseUrl setSelectedPreset].
  rewrite P, Hu, N. cbn [andb]. rewrite merged_values by apply endpoints_NoDup. reflexivity.
Qed.

End Hook.

(** ** Witnesses *)

Definition no_t (s : jsstr) : jsstr := s.
Definition no_origin (_ : val) : option jsstr := None.

Definition gitea : preset := match OAUTH_PRESETS !! 2%nat with Some (_, p) => p | None => Preset [] [] [] [] [] [] [] [] [] end.

Lemma preset_url_commute_witness :
  let s1 := (oauth_event no_t no_origin (TypeUrl $"https://g.example/") (oauth_event no_t no_origin (ChoosePreset 2) (handleAdd init)).1).1 in
  prop $"token_endpoint" (getLatestFormValues s1) = Some (VStr $"https://g.example/login/oauth/access_token").
Proof.
  cbn zeta. destruct (preset_url_commute no_t no_origin 2 $"gitea" gitea $"https://g.example/" (handleAdd init)) as (_ & _ & _ & E); [reflexivity|reflexivity|vm_compute; reflexivity|].
  rewrite E; [vm_compute; reflexivity|]. apply list_elem_of_further, list_elem_of_here.
Defined.

Definition filled : page :=
  set_form (Some [($"name", VStr $"G"); ($"slug", VStr $"gitea"); ($"client_id", VStr $"id"); ($"client_secret", VStr $"s"); ($"preset", VStr $"gitea");
                  ($"authorization_endpoint", VStr $"https://g/a"); ($"token_endpoint", VStr $"https://g/t"); ($"user_info_endpoint", VStr $"https://g/u")]) (handleAdd init).

Lemma saved_provider_complete_witness : truthy (fld $"client_secret" (payload_of (getLatestFormValues filled))) = true.
Proof.
  destruct (saved_provider_complete no_t filled None (payload_of (getLatestFormValues filled))) as (R & _).
  - vm_compute. apply list_elem_of_here.
  - apply R. vm_compute. do 6 apply list_elem_of_further. apply list_elem_of_here.
Defined.

End CustomOAuth.
